(* ===== verification/_CoqProject ===== *)
-Q . S2P
Prelude.v
ScriptError.v
ScriptNum.v
Stack.v
Opcodes.v
Transaction.v
Script.v
Sha256.v
SigHash.v
SigCache.v
Engine.v
EngineInv.v
EngineStep.v
EngineSim.v
EngineSpec.v
ScriptBuilder.v
Bech32.v
Address.v
Standard.v
Spending.v
MultiSig.v
Sign.v
TxMass.v
TxHash.v
TxValidator.v
UtxoDiff.v
Block.v
Difficulty.v
Ghostdag.v
GhostdagMergeSet.v
GhostdagSpec.v
GhostdagDag.v
ReachInterval.v
Reachability.v
Reindex.v
ReachTree.v
ReindexCount.v
ReindexPropagate.v
ReindexReclaim.v
ReindexChain.v
ReindexAdd.v
ReachAdd.v
ReachFuture.v
ReachConcentrate.v
ReachRoot.v
ReachRun.v
DagTopology.v
Coinbase.v
DaaStore.v
Merkle.v
BlockValidator.v
HeaderTips.v
HeaderInsert.v
HeaderInv.v
HeaderStep.v
HeaderSpec.v
HeaderRun.v
BlockHeap.v
BlockWindow.v
DaaManager.v
MergeDepth.v
