(* ===== verification/Prelude.v ===== *)
(** * A verification of the consensus core of kaspad

    The repository is a full node of a proof-of-work block DAG, written in Go.
    Transactions carry scripts that a stack machine runs; blocks name several
    parents, and GHOSTDAG colours the blocks a new block merges; validators
    decide which transactions and blocks are accepted; UTXO diffs record what a
    block changes.  This library translates those parts into Rocq functions and
    proves what makes them correct.  Paths below are relative to [src/]; [txs] is
    [domain/consensus/utils/txscript], [util] is [domain/consensus/utils] and
    [proc] is [domain/consensus/processes].

    ** How Go is modelled

    An integer is a [Z] with the wrap-around of its width written out where the
    code can reach it ([uint8] to [uint64], [int32], [int64]); a byte slice is a
    [list Z]; a map is a [gmap].  A call returns [Ok], [Err] or [Panic]
    ([res]); code that changes an object is in the state and error monad [M],
    whose state is the object.  Messages of errors are left out, their kinds are
    kept.  Code outside the repository is a parameter: Blake2b and the signature
    schemes (class [Crypto], with [CryptoLaws]), the order of map iteration
    ([MapIteration]), key and script databases, the clock.  SHA-256 belongs to
    the Go library and is written out in [Sha256.v], and binary64 arithmetic is
    that of the standard library's [SpecFloat]; what the language leaves open when
    a float does not fit an integer is a parameter ([FloatConversion]).  A
    component is proved against the interfaces of the components it calls
    ([DAABlocksStore], [CoinbaseStores], [DAGTopologyManager],
    [BlockHeaderStore]).

    ** Scripts

    - [ScriptError.v], [ScriptNum.v], [Stack.v], [Opcodes.v], [Script.v]:
      [txs/error.go], [scriptnum.go], [stack.go], [opcode.go], [script.go].
      Numbers and scripts round-trip, parsing terminates, stack operations do
      what they document.
    - [Engine.v] is the machine of [txs/engine.go] with all opcode functions of
      [opcode.go].  [EngineInv.v] and [EngineStep.v]: an invariant every step
      keeps, the limits on stacks and operations, and that execution returns
      without a panic.  [EngineSim.v] and [EngineSpec.v]: the machine refines a
      reference that runs the same opcodes script by script from fresh states,
      whatever its caches hold.
    - [Spending.v], [MultiSig.v]: what spends pay-to-pubkey and
      pay-to-script-hash outputs, and what a multi-signature check accepts.
    - [SigCache.v]: [txs/sigcache.go], [sigcache_ecdsa.go]; caches hold verified
      signatures only and stay within their size.
    - [ScriptBuilder.v], [Standard.v], [Sign.v]: [txs/scriptbuilder.go],
      [standard.go], [sign.go]; what is built is what the engine pushes, script
      classes are exact, signed outputs can be spent.

    ** Transactions

    - [Transaction.v], [SigHash.v], [TxHash.v]: the types of
      [domain/consensus/model/externalapi], [util/consensushashing].  Preimages
      determine the fields they encode; a signature hash depends on what its type
      covers; cached sub-hashes change nothing.
    - [TxMass.v]: [util/txmass] at the top of [src/]; masses are the documented
      formulas.
    - [TxValidator.v]: [proc/transactionvalidator]; both validations accept
      exactly the documented transactions and conserve value.
    - [UtxoDiff.v]: [util/utxo]; composing diffs is applying them in turn, and
      the diff from one to another connects their UTXO sets.
    - [Bech32.v], [Address.v]: [util/bech32], [util/address.go] at the top of
      [src/]; addresses round-trip, bursts of errors are detected.

    ** Blocks

    - [Block.v]: headers, their encoding and the order of hashes.
    - [Difficulty.v]: [util/difficulty] at the top of [src/] and
      [proc/difficultymanager]; compact targets keep their leading bits, and the
      required difficulty does not depend on the order of the window.
    - [Ghostdag.v] (the operations of [proc/ghostdagmanager]),
      [GhostdagMergeSet.v], [GhostdagSpec.v], [GhostdagDag.v]: run on the blocks
      of any DAG in topological order, GHOSTDAG succeeds; every blue set is a
      k-cluster, the merge set is the past a block adds, and blue score and work
      count the blue set.
    - [ReachInterval.v], [Reachability.v], [Reindex.v]: [proc/reachabilitymanager],
      the tree of selected parents with an interval for every block, its
      reindexing, and the future covering sets.  The proofs go up in layers:
      [ReachTree.v] (the tree a store holds and nested intervals),
      [ReindexCount.v], [ReindexPropagate.v], [ReindexReclaim.v],
      [ReindexChain.v], [ReindexAdd.v], [ReachAdd.v] (adding a child, with every
      kind of reindexing), [ReachFuture.v] (future covering sets and adding a
      block), [ReachConcentrate.v], [ReachRoot.v] (moving the reindex root), and
      [ReachRun.v]: from a new store no call fails as long as the intervals have
      room, queries answer ancestry in the DAG and on selected chains, and every
      interval has room for what is above it.
    - [DagTopology.v]: [proc/dagtopologymanager]; setting the parents of a leaf
      keeps parent and child lists inverse to each other.
    - [DaaStore.v]: [domain/consensus/datastructures/daablocksstore] over
      [util/lrucache] and the codecs of [database/binaryserialization]; staging
      area, caches and database together are a map, except that deleting a block
      leaves its score behind.
    - [Coinbase.v]: [proc/coinbasemanager]; the payload round-trips, the subsidy
      table is the exact yearly halving and the subsidies stay below the maximal
      supply, and the expected coinbase of a block passes the validator and pays
      exactly what the merged blocks are owed.
    - [Merkle.v]: [util/merkle]; the array computes the level-by-level tree, and
      the root commits to the transactions, their number and order.
    - [BlockValidator.v]: the validation in isolation of [proc/blockvalidator];
      it accepts a body exactly when the documented conditions hold.

    ** Fuel

    Loops that are not structural take fuel.  [Execute] gets [max_steps], the
    opcodes of three scripts at their size limits, and [Execute_total] shows that
    it is never used up.  GHOSTDAG's walks take any number above the number of
    blocks, and its theorems show that this suffices.  The loops over the
    reachability tree take any number above the number of blocks ([roomy_for]).
    The merkle loop runs the number of rounds the code computes.

    ** Assumptions of the theorems

    Sizes and scores are within their Go types.  Collisions are excluded only for
    the inputs that the two sides of a statement hash.  The floating-point
    logarithm of [merkle.go] is exact below 2^47 leaves.  GHOSTDAG is proved for
    any topology manager that answers ancestry.  The reachability manager is
    proved for GHOSTDAG data that describes the merge sets of the DAG, and for so
    many blocks that three slacks and four places for each fit in 64 bits.

    ** Not modelled

    Block windows and past median time, validation in context of blocks, virtual
    resolution, finality, merge depth, pruning and pruning proofs, block
    processing and synchronisation: they work over many stores at once.  The
    other stores, LevelDB, protobuf conversions, network, RPC, mempool, wallet
    and commands: input and output, generated code, or policy.  Proof of work and
    the function that generated the subsidy table use floating point.  Formatting
    of messages, logging, and the sharing of memory between a value and its
    caller, except where a theorem depends on it. *)

From stdpp Require Export base option list list_numbers numbers gmap strings.
From Stdlib Require Export ZArith Lia.

Declare Scope go_scope.
Delimit Scope go_scope with go.
Global Open Scope Z_scope.

(** * Results of Go calls

    A Go function returns a value, returns a non-nil [error], or panics
    (index out of range, nil dereference, an explicit [panic]). *)

Inductive res (E A : Type) : Type :=
| Ok (a : A)
| Err (e : E)
| Panic.
Arguments Ok {E A} a.
Arguments Err {E A} e.
Arguments Panic {E A}.

(** A stateful Go method: the receiver is threaded explicitly, and its value
    at the moment of an error return is kept, because some callers ignore the
    error and go on using the receiver. *)
Definition M (E S A : Type) : Type := S -> res E A * S.

Definition ret {E S A} (a : A) : M E S A := fun s => (Ok a, s).

Definition throw {E S A} (e : E) : M E S A := fun s => (Err e, s).

Definition panic {E S A} : M E S A := fun s => (Panic, s).

Definition bind {E S A B} (m : M E S A) (k : A -> M E S B) : M E S B :=
  fun s => match m s with
           | (Ok a, s') => k a s'
           | (Err e, s') => (Err e, s')
           | (Panic, s') => (Panic, s')
           end.

Definition get {E S} : M E S S := fun s => (Ok s, s).

Definition put {E S} (s' : S) : M E S unit := fun _ => (Ok tt, s').

Definition modify {E S} (f : S -> S) : M E S unit := fun s => (Ok tt, f s).

(** A pure fallible computation run inside the monad. *)
Definition lift {E S A} (r : res E A) : M E S A := fun s => (r, s).

(** Discard the error of a call, as [_ = f()] does. *)
Definition ignore_error {E S} (m : M E S unit) : M E S unit :=
  fun s => match m s with
           | (Panic, s') => (Panic, s')
           | (_, s') => (Ok tt, s')
           end.

(** Run a method of a field of the state. *)
Definition zoom {E S T A} (proj : S -> T) (upd : T -> S -> S) (m : M E T A)
  : M E S A :=
  fun s => let '(r, t) := m (proj s) in (r, upd t s).

Definition bind_res {E A B} (r : res E A) (k : A -> res E B) : res E B :=
  match r with
  | Ok a => k a
  | Err e => Err e
  | Panic => Panic
  end.

Notation "'let*' x ':=' m 'in' k" := (bind m (fun x => k))
  (at level 10, x pattern at level 0, m at level 100, k at level 200,
   format "'[v' 'let*'  x  ':='  m  'in'  '/' k ']'") : go_scope.
Notation "m ';;' k" := (bind m (fun _ => k))
  (at level 100, k at level 200, right associativity,
   format "'[v' m ';;' '/' k ']'") : go_scope.
Notation "'let?' x ':=' r 'in' k" := (bind_res r (fun x => k))
  (at level 10, x pattern at level 0, r at level 100, k at level 200,
   format "'[v' 'let?'  x  ':='  r  'in'  '/' k ']'") : go_scope.
Global Open Scope go_scope.

(** * Machine integers *)

Definition uint8 (z : Z) : Z := z mod 2 ^ 8.
Definition uint16 (z : Z) : Z := z mod 2 ^ 16.
Definition uint32 (z : Z) : Z := z mod 2 ^ 32.
Definition uint64 (z : Z) : Z := z mod 2 ^ 64.
Definition int32 (z : Z) : Z := (z + 2 ^ 31) mod 2 ^ 32 - 2 ^ 31.
Definition int64 (z : Z) : Z := (z + 2 ^ 63) mod 2 ^ 64 - 2 ^ 63.

(** * Bytes and slices *)

Abbreviation bytes := (list Z).

Definition is_byte (b : Z) : Prop := 0 <= b < 256.

Definition is_byteb (b : Z) : bool := (0 <=? b) && (b <? 256).

Definition zlen {A} (l : list A) : Z := Z.of_nat (length l).

(** [l[i]]; [None] stands for the out-of-range panic. *)
Definition lookupZ {A} (l : list A) (i : Z) : option A :=
  if (0 <=? i) then l !! Z.to_nat i else None.

(** [l[lo:hi]] for bounds in range. *)
Definition sliceZ {A} (l : list A) (lo hi : Z) : list A :=
  take (Z.to_nat (hi - lo)) (drop (Z.to_nat lo) l).

Definition index_res {E A} (l : list A) (i : Z) : res E A :=
  match lookupZ l i with Some a => Ok a | None => Panic end.

Definition slice_res {E A} (l : list A) (lo hi : Z) : res E (list A) :=
  if (0 <=? lo) && (lo <=? hi) && (hi <=? zlen l)
  then Ok (sliceZ l lo hi) else Panic.

Definition index {E S A} (l : list A) (i : Z) : M E S A := lift (index_res l i).

Definition slice {E S A} (l : list A) (lo hi : Z) : M E S (list A) :=
  lift (slice_res l lo hi).

(** [copy(dst, src)] *)
Definition copy_slice {A} (dst src : list A) : list A :=
  take (length dst) src ++ drop (length src) dst.

(** [bytes.Equal] *)
Definition bytes_eqb (a b : bytes) : bool := bool_decide (a = b).

(** [binary.LittleEndian.PutUint16/32/64] and [Uint16/32/64], on [n] bytes. *)
Fixpoint le_put (n : nat) (z : Z) : bytes :=
  match n with
  | O => []
  | S n' => Z.land z 255 :: le_put n' (Z.shiftr z 8)
  end.

Fixpoint le_get (l : bytes) : Z :=
  match l with
  | [] => 0
  | b :: l' => Z.lor b (Z.shiftl (le_get l') 8)
  end.

(** The UTF-8 bytes of an ASCII string, [[]byte(s)]. *)
Fixpoint string_bytes (s : string) : bytes :=
  match s with
  | EmptyString => []
  | String c s' => Z.of_nat (Ascii.nat_of_ascii c) :: string_bytes s'
  end.

(** * Specifications of stateful methods

    [triple P m Q E]: run from a state satisfying [P], the method [m] does not
    panic; when it returns a value, the value and the new state satisfy [Q];
    when it returns an error, the error satisfies [E]. *)
Definition triple {E S A} (P : S -> Prop) (m : M E S A)
    (Q : A -> S -> Prop) (X : E -> Prop) : Prop :=
  forall s, P s ->
    match m s with
    | (Ok a, s') => Q a s'
    | (Err e, _) => X e
    | (Panic, _) => False
    end.

(** * Generic lemmas: machine integers *)

Lemma int32_id z : - 2 ^ 31 <= z < 2 ^ 31 -> int32 z = z.
Proof. intros H. unfold int32. rewrite Z.mod_small; lia. Qed.

Lemma int64_id z : - 2 ^ 63 <= z < 2 ^ 63 -> int64 z = z.
Proof. intros H. unfold int64. rewrite Z.mod_small; lia. Qed.

Lemma int32_range z : - 2 ^ 31 <= int32 z < 2 ^ 31.
Proof. unfold int32. pose proof (Z.mod_pos_bound (z + 2 ^ 31) (2 ^ 32)). lia. Qed.

Lemma int64_range z : - 2 ^ 63 <= int64 z < 2 ^ 63.
Proof. unfold int64. pose proof (Z.mod_pos_bound (z + 2 ^ 63) (2 ^ 64)). lia. Qed.

Lemma uint8_id z : is_byte z -> uint8 z = z.
Proof. intros [??]. apply Z.mod_small. simpl. lia. Qed.

Lemma uint8_is_byte z : is_byte (uint8 z).
Proof. unfold is_byte, uint8. pose proof (Z.mod_pos_bound z (2 ^ 8)). lia. Qed.

Lemma is_byteb_spec b : is_byteb b = true <-> is_byte b.
Proof. unfold is_byteb, is_byte. lia. Qed.

(** Low and high parts of a number are disjoint, so [lor] is addition. *)
Lemma lor_shiftl_add lo hi n :
  0 <= n -> 0 <= lo < 2 ^ n -> Z.lor lo (Z.shiftl hi n) = lo + hi * 2 ^ n.
Proof.
  intros Hn Hlo. rewrite Z.shiftl_mul_pow2 by done. symmetry.
  apply Z.add_nocarry_lor, Z.bits_inj'. intros i Hi.
  rewrite Z.land_spec, Z.bits_0. destruct (Z.ltb_spec i n).
  - rewrite Z.mul_pow2_bits_low by lia. apply andb_false_r.
  - destruct (Z.eq_dec lo 0) as [->|]; [by rewrite Z.bits_0|].
    rewrite (Z.bits_above_log2 lo); [done|lia|].
    apply Z.log2_lt_pow2; [lia|].
    apply Z.lt_le_trans with (2 ^ n); [lia|apply Z.pow_le_mono_r; lia].
Qed.

Lemma land_255 z : Z.land z 255 = z mod 256.
Proof. apply (Z.land_ones z 8). lia. Qed.

Lemma shiftr_8 z : Z.shiftr z 8 = z / 256.
Proof. apply (Z.shiftr_div_pow2 z 8). lia. Qed.

(** * Generic lemmas: lists *)

Lemma zlen_nonneg {A} (l : list A) : 0 <= zlen l.
Proof. unfold zlen. lia. Qed.

Lemma zlen_nil {A} : zlen ([] : list A) = 0.
Proof. done. Qed.

Lemma zlen_cons {A} (x : A) l : zlen (x :: l) = zlen l + 1.
Proof. unfold zlen. simpl. lia. Qed.

Lemma zlen_app {A} (l1 l2 : list A) : zlen (l1 ++ l2) = zlen l1 + zlen l2.
Proof. unfold zlen. rewrite length_app. lia. Qed.

Lemma zlen_0 {A} (l : list A) : zlen l = 0 -> l = [].
Proof. destruct l; [done|]. rewrite zlen_cons. pose proof (zlen_nonneg l). lia. Qed.

Lemma zlen_take {A} n (l : list A) :
  0 <= n <= zlen l -> zlen (take (Z.to_nat n) l) = n.
Proof. unfold zlen. rewrite length_take. lia. Qed.

Lemma zlen_drop {A} n (l : list A) :
  0 <= n <= zlen l -> zlen (drop (Z.to_nat n) l) = zlen l - n.
Proof. unfold zlen. rewrite length_drop. lia. Qed.

Lemma Forall_snoc {A} (P : A -> Prop) l x :
  Forall P (l ++ [x]) <-> Forall P l /\ P x.
Proof. rewrite Forall_app, Forall_singleton. done. Qed.

Lemma lookupZ_app_r {A} (pre post : list A) x i :
  i = zlen pre -> lookupZ (pre ++ x :: post) i = Some x.
Proof.
  intros ->. unfold lookupZ, zlen. rewrite Nat2Z.id.
  rewrite (proj2 (Z.leb_le _ _)) by lia.
  by apply list_lookup_middle.
Qed.

Lemma lookupZ_Some_range {A} (l : list A) i x :
  lookupZ l i = Some x -> 0 <= i < zlen l.
Proof.
  unfold lookupZ, zlen. destruct (Z.leb_spec 0 i); [|done].
  intros Hl%lookup_lt_Some. lia.
Qed.

Lemma lookupZ_in_range {A} (l : list A) i :
  0 <= i < zlen l -> exists x, lookupZ l i = Some x.
Proof.
  unfold lookupZ, zlen. intros H. rewrite (proj2 (Z.leb_le _ _)) by lia.
  apply lookup_lt_is_Some_2. lia.
Qed.

Lemma lookupZ_elem_of {A} (l : list A) i x : lookupZ l i = Some x -> x ∈ l.
Proof.
  unfold lookupZ. destruct (0 <=? i); [|done]. apply list_elem_of_lookup_2.
Qed.

(** Splitting a list at an index counted from its end. *)
Lemma split_from_end {A} (l : list A) i :
  0 <= i < zlen l ->
  exists pre x post, l = pre ++ x :: post /\ zlen post = i.
Proof.
  intros H. destruct (lookupZ_in_range l (zlen l - i - 1)) as [x Hx]; [lia|].
  unfold lookupZ in Hx. destruct (0 <=? zlen l - i - 1); [|done].
  pose proof (take_drop_middle _ _ _ Hx) as Hs.
  exists (take (Z.to_nat (zlen l - i - 1)) l), x,
         (drop (S (Z.to_nat (zlen l - i - 1))) l).
  split; [done|]. unfold zlen in *. rewrite length_drop. lia.
Qed.

Lemma sliceZ_prefix {A} (pre post : list A) n :
  n = zlen pre -> sliceZ (pre ++ post) 0 n = pre.
Proof.
  intros ->. unfold sliceZ, zlen. rewrite Z.sub_0_r, Nat2Z.id. simpl.
  by rewrite drop_0, take_app_length.
Qed.

Lemma sliceZ_suffix {A} (pre post : list A) lo hi :
  lo = zlen pre -> hi = zlen pre + zlen post ->
  sliceZ (pre ++ post) lo hi = post.
Proof.
  intros -> ->. unfold sliceZ, zlen. rewrite Nat2Z.id, drop_app_length.
  rewrite take_ge; [done|lia].
Qed.

Lemma copy_slice_same_length {A} (dst src : list A) :
  length dst = length src -> copy_slice dst src = src.
Proof.
  intros H. unfold copy_slice. rewrite take_ge, drop_ge, app_nil_r by lia. done.
Qed.

(** * Generic lemmas: little-endian codecs *)

Lemma length_le_put n z : length (le_put n z) = n.
Proof. revert z; induction n; simpl; auto. Qed.

Lemma le_put_bytes n z : Forall is_byte (le_put n z).
Proof.
  revert z; induction n as [|n IH]; intros z; simpl; constructor; [|done].
  unfold is_byte. rewrite land_255. pose proof (Z.mod_pos_bound z 256). lia.
Qed.

Lemma le_get_cons b l : is_byte b -> le_get (b :: l) = b + le_get l * 256.
Proof. intros H. apply (lor_shiftl_add b (le_get l) 8); [lia|exact H]. Qed.

Lemma le_get_put n z : le_get (le_put n z) = z mod 256 ^ Z.of_nat n.
Proof.
  revert z; induction n as [|n IH]; intros z.
  - simpl. by rewrite Z.mod_1_r.
  - cbn [le_put]. rewrite le_get_cons, IH, land_255, shiftr_8.
    + rewrite Nat2Z.inj_succ, Z.pow_succ_r, Z.rem_mul_r by lia. lia.
    + unfold is_byte. rewrite land_255. pose proof (Z.mod_pos_bound z 256). lia.
Qed.

Lemma le_get_range l : Forall is_byte l -> 0 <= le_get l < 256 ^ zlen l.
Proof.
  induction 1 as [|b l Hb Hl IH]; [by vm_compute|].
  rewrite le_get_cons, zlen_cons, Z.pow_add_r by (try done; pose proof (zlen_nonneg l); lia).
  change (256 ^ 1) with 256. unfold is_byte in Hb. lia.
Qed.

Lemma le_put_get l : Forall is_byte l -> le_put (length l) (le_get l) = l.
Proof.
  induction 1 as [|b l Hb Hl IH]; [done|].
  cbn [length le_put]. rewrite le_get_cons, land_255, shiftr_8 by done.
  rewrite Z.mod_add, Z.div_add, Z.mod_small, Z.div_small by (unfold is_byte in Hb; lia).
  by rewrite Z.add_0_l, IH.
Qed.

Lemma le_get_inj l1 l2 :
  Forall is_byte l1 -> Forall is_byte l2 -> length l1 = length l2 ->
  le_get l1 = le_get l2 -> l1 = l2.
Proof.
  intros H1 H2 Hl He. rewrite <- (le_put_get l1), <- (le_put_get l2) by done.
  by rewrite Hl, He.
Qed.

Lemma le_get_app_zeros l n : le_get (l ++ replicate n 0) = le_get l.
Proof.
  induction l as [|b l IH]; simpl; [|by rewrite IH].
  induction n as [|n IH]; simpl; [done|]. by rewrite IH.
Qed.

(** * Generic lemmas: the monad *)

Lemma bind_ok {E S A B} (m : M E S A) (k : A -> M E S B) s a s' :
  m s = (Ok a, s') -> bind m k s = k a s'.
Proof. unfold bind. by intros ->. Qed.

Lemma bind_err {E S A B} (m : M E S A) (k : A -> M E S B) s e s' :
  m s = (Err e, s') -> bind m k s = (Err e, s').
Proof. unfold bind. by intros ->. Qed.

Lemma bind_ext {E S A B} (m m' : M E S A) (k : A -> M E S B) s s' :
  m s = m' s' -> bind m k s = bind m' k s'.
Proof. unfold bind. by intros ->. Qed.

(** What a successful composition went through. *)
Lemma bind_inv {E S A B} (m : M E S A) (k : A -> M E S B) s b s'' :
  bind m k s = (Ok b, s'') ->
  exists a s', m s = (Ok a, s') /\ k a s' = (Ok b, s'').
Proof. unfold bind. destruct (m s) as [[a|e|] s']; try done. eauto. Qed.

Section triples.
Context {E S : Type}.
Implicit Types (P : S -> Prop) (X : E -> Prop).

Lemma triple_ret {A} P (a : A) (Q : A -> S -> Prop) X :
  (forall s, P s -> Q a s) -> triple P (ret a : M E S A) Q X.
Proof. intros H s Hs. simpl. auto. Qed.

Lemma triple_throw {A} P (e : E) (Q : A -> S -> Prop) X :
  X e -> triple P (throw e : M E S A) Q X.
Proof. intros H s Hs. simpl. auto. Qed.

Lemma triple_bind {A B} P (m : M E S A) (k : A -> M E S B)
    (R : A -> S -> Prop) (Q : B -> S -> Prop) X :
  triple P m R X -> (forall a, triple (R a) (k a) Q X) ->
  triple P (bind m k) Q X.
Proof.
  intros Hm Hk s Hs. specialize (Hm s Hs). unfold bind.
  destruct (m s) as [[a|e|] s']; [|done|done].
  exact (Hk a s' Hm).
Qed.

Lemma triple_consequence {A} P P' (m : M E S A) (Q Q' : A -> S -> Prop) X :
  triple P' m Q' X -> (forall s, P s -> P' s) ->
  (forall a s, Q' a s -> Q a s) -> triple P m Q X.
Proof.
  intros H HP HQ s Hs. specialize (H s (HP s Hs)).
  destruct (m s) as [[a|e|] s']; auto.
Qed.

Lemma triple_get P (Q : S -> S -> Prop) X :
  (forall s, P s -> Q s s) -> triple P (get : M E S S) Q X.
Proof. intros H s Hs. simpl. auto. Qed.

Lemma triple_modify P f (Q : unit -> S -> Prop) X :
  (forall s, P s -> Q tt (f s)) -> triple P (modify f : M E S unit) Q X.
Proof. intros H s Hs. simpl. auto. Qed.

(** Facts of the precondition that do not mention the state are pulled out. *)
Lemma triple_pure {A} (F : Prop) P (m : M E S A) (Q : A -> S -> Prop) X :
  (F -> triple P m Q X) -> triple (fun s => F /\ P s) m Q X.
Proof. intros H s [HF Hs]. by apply H. Qed.

Lemma triple_if {A} (b : bool) P (m1 m2 : M E S A) (Q : A -> S -> Prop) X :
  (b = true -> triple P m1 Q X) -> (b = false -> triple P m2 Q X) ->
  triple P (if b then m1 else m2) Q X.
Proof. destruct b; auto. Qed.

End triples.

(** * Automation *)

Create HintDb go.

#[export] Hint Resolve zlen_nonneg int32_range int64_range uint8_is_byte
  le_put_bytes : go.
Create Rewrite HintDb zlen.
#[export] Hint Rewrite @zlen_cons @zlen_app : zlen.

(** Case analysis on the test of the next [if] in the goal. *)
Ltac case_if :=
  match goal with
  | |- context [if ?b then _ else _] =>
      lazymatch type of b with bool => destruct b eqn:? end
  end.

(** Lengths are not negative. *)
Ltac add_zlen l :=
  lazymatch goal with
  | _ : 0 <= zlen l |- _ => fail
  | _ => pose proof (zlen_nonneg l)
  end.

Ltac zlen_facts :=
  repeat match goal with
  | |- context [zlen ?l] => add_zlen l
  | _ : context [zlen ?l] |- _ => add_zlen l
  end.

(** Push [zlen] to the variables. *)
Ltac zlen_simpl :=
  autorewrite with zlen in *;
  repeat match goal with
  | |- context [@zlen ?T (@nil _)] => change (@zlen T []) with 0
  | H : context [@zlen ?T (@nil _)] |- _ => change (@zlen T []) with 0 in H
  end.

(** Linear arithmetic on lengths and bytes. *)
Ltac zlia := unfold is_byte in *; zlen_simpl; zlen_facts; lia.

(** Normalise concatenations to the right. *)
Ltac app_norm :=
  repeat first [rewrite <- app_assoc | progress cbn [app] | rewrite app_nil_r].

(** Evaluate [Z.to_nat] on constants. *)
Ltac norm_to_nat :=
  repeat match goal with
  | |- context [Z.to_nat ?z] =>
      let n := eval vm_compute in (Z.to_nat z) in
      progress change (Z.to_nat z) with n
  end.
