(* ===== verification/ScriptError.v ===== *)
(** Script errors: [src/domain/consensus/utils/txscript/error.go].

    An [Error] of the source pairs an [ErrorCode] with a description built for
    people; every caller that inspects an error compares its code, so a script
    error is modelled by its code and the description is left out. *)

From S2P Require Import Prelude.

Inductive ErrorCode : Set :=
| ErrInternal
| ErrInvalidFlags
| ErrInvalidIndex
| ErrUnsupportedAddress
| ErrNotMultisigScript
| ErrTooManyRequiredSigs
| ErrEarlyReturn
| ErrEmptyStack
| ErrEvalFalse
| ErrScriptUnfinished
| ErrInvalidProgramCounter
| ErrScriptTooBig
| ErrElementTooBig
| ErrTooManyOperations
| ErrStackOverflow
| ErrInvalidPubKeyCount
| ErrInvalidSignatureCount
| ErrNumberTooBig
| ErrVerify
| ErrEqualVerify
| ErrNumEqualVerify
| ErrCheckSigVerify
| ErrCheckMultiSigVerify
| ErrDisabledOpcode
| ErrReservedOpcode
| ErrMalformedPush
| ErrInvalidStackOperation
| ErrUnbalancedConditional
| ErrMinimalData
| ErrInvalidSigHashType
| ErrSigLength
| ErrSigHighS
| ErrNotPushOnly
| ErrPubKeyFormat
| ErrCleanStack
| ErrNullFail
| ErrNegativeLockTime
| ErrUnsatisfiedLockTime
| ErrMinimalIf.

#[global] Instance ErrorCode_eq_dec : EqDecision ErrorCode.
Proof. solve_decision. Defined.

(** The errors the package returns: a script error, the builder's
    [ErrScriptNotCanonical], or an error of another package. *)
Inductive error : Set :=
| ScriptError (c : ErrorCode)
| ScriptNotCanonical
| OtherError.

#[global] Instance error_eq_dec : EqDecision error.
Proof. solve_decision. Defined.

Definition scriptError (c : ErrorCode) : error := ScriptError c.

Definition IsErrorCode (err : error) (c : ErrorCode) : bool :=
  match err with
  | ScriptError c' => bool_decide (c' = c)
  | _ => false
  end.
