(* ===== verification/ScriptNum.v ===== *)
(** Script numbers: [src/domain/consensus/utils/txscript/scriptnum.go].

    A [scriptNum] is an [int64]; on the stack it is a little-endian
    sign-magnitude byte string. *)

From S2P Require Import Prelude ScriptError.

Definition maxInt32 : Z := 2 ^ 31 - 1.
Definition minInt32 : Z := - 2 ^ 31.
Definition defaultScriptNumLen : Z := 4.

Definition checkMinimalDataEncoding (v : bytes) : res error unit :=
  if zlen v =? 0 then Ok tt else
  let? last := index_res v (zlen v - 1) in
  if Z.land last 0x7f =? 0 then
    if zlen v =? 1 then Err (scriptError ErrMinimalData) else
    let? prev := index_res v (zlen v - 2) in
    if Z.land prev 0x80 =? 0 then Err (scriptError ErrMinimalData) else Ok tt
  else Ok tt.

(** [for n > 0 { result = append(result, byte(n&0xff)); n >>= 8 }] *)
Fixpoint Bytes_loop (fuel : nat) (n : Z) (result : bytes) : bytes :=
  match fuel with
  | O => result
  | S fuel' =>
      if n >? 0
      then Bytes_loop fuel' (Z.shiftr n 8) (result ++ [uint8 (Z.land n 0xff)])
      else result
  end.

(** Nine rounds empty any [int64]; see [Bytes_loop_spec]. *)
Definition Bytes (n : Z) : res error bytes :=
  if n =? 0 then Ok [] else
  let isNegative := n <? 0 in
  let n := if isNegative then int64 (- n) else n in
  let result := Bytes_loop 9 n [] in
  let? top := index_res result (zlen result - 1) in
  if negb (Z.land top 0x80 =? 0) then
    Ok (result ++ [if isNegative then 0x80 else 0x00])
  else if isNegative then
    Ok (<[Z.to_nat (zlen result - 1) := Z.lor top 0x80]> result)
  else Ok result.

Definition Int32 (n : Z) : Z :=
  if n >? maxInt32 then maxInt32
  else if n <? minInt32 then minInt32
  else int32 n.

(** [for i, val := range v { result |= int64(val) << uint8(8*i) }] *)
Fixpoint makeScriptNum_loop (v : bytes) (i : Z) (result : Z) : Z :=
  match v with
  | [] => result
  | val :: v' =>
      makeScriptNum_loop v' (i + 1)
        (Z.lor result (int64 (Z.shiftl val (uint8 (8 * i)))))
  end.

Definition makeScriptNum (v : bytes) (scriptNumLen : Z) : res error Z :=
  if zlen v >? scriptNumLen then Err (scriptError ErrNumberTooBig) else
  if zlen v >? 8 then Err (scriptError ErrNumberTooBig) else
  let? _ := checkMinimalDataEncoding v in
  if zlen v =? 0 then Ok 0 else
  let result := makeScriptNum_loop v 0 0 in
  let? last := index_res v (zlen v - 1) in
  if negb (Z.land last 0x80 =? 0) then
    let result := Z.land result
      (Z.lnot (int64 (Z.shiftl 0x80 (uint8 (8 * (zlen v - 1)))))) in
    Ok (int64 (- result))
  else Ok result.

(** * The numbers the byte strings stand for *)

(** The magnitude of a byte string whose last byte carries the sign. *)
Definition magnitude (init : bytes) (last : Z) : Z :=
  le_get init + last mod 128 * 256 ^ zlen init.

(** The sign-magnitude value of a byte string. *)
Definition num_value (v : bytes) : Z :=
  match rev v with
  | [] => 0
  | last :: rest =>
      let m := magnitude (rev rest) last in if last <? 128 then m else - m
  end.

(** Minimality, as the comment on [checkMinimalDataEncoding] states it: the
    last byte is not just a sign, unless the byte before needs its high bit. *)
Definition minimal (v : bytes) : bool :=
  match rev v with
  | [] => true
  | last :: rest =>
      negb (last mod 128 =? 0) ||
      match rest with [] => false | prev :: _ => 128 <=? prev end
  end.

(** Little-endian digits without leading zeros. *)
Definition canonical (d : bytes) : Prop :=
  match rev d with [] => True | top :: _ => top <> 0 end.

(** Attach a sign to the digits of a magnitude: in the top bit when it is
    free, in a byte of its own otherwise. *)
Definition signed_digits (neg : bool) (d : bytes) : bytes :=
  match rev d with
  | [] => []
  | top :: rest =>
      if top <? 128 then rev rest ++ [if neg then top + 128 else top]
      else d ++ [if neg then 128 else 0]
  end.

(** * Bit tests *)

Lemma land_0x7f b : Z.land b 0x7f = b mod 128.
Proof. apply (Z.land_ones b 7). lia. Qed.

Lemma land_0x80 b : is_byte b -> Z.land b 0x80 = if b <? 128 then 0 else 128.
Proof.
  intros Hb. assert (b = Z.of_nat (Z.to_nat b)) as -> by (unfold is_byte in Hb; lia).
  assert (Z.to_nat b < 256)%nat as Hn by (unfold is_byte in Hb; lia).
  revert Hn. generalize (Z.to_nat b). clear.
  intros n Hn. do 256 (destruct n as [|n]; [reflexivity|]). lia.
Qed.

(** * Decoding *)

Lemma makeScriptNum_loop_app v1 v2 i r :
  makeScriptNum_loop (v1 ++ v2) i r =
  makeScriptNum_loop v2 (i + zlen v1) (makeScriptNum_loop v1 i r).
Proof.
  revert i r; induction v1 as [|b v1 IH]; intros i r; simpl.
  - by rewrite zlen_nil, Z.add_0_r.
  - rewrite IH, zlen_cons. f_equal. lia.
Qed.

(** Up to seven bytes no shift leaves the [int64] range. *)
Lemma makeScriptNum_loop_small v i r :
  Forall is_byte v -> 0 <= i -> i + zlen v <= 7 -> 0 <= r < 256 ^ i ->
  makeScriptNum_loop v i r = r + le_get v * 256 ^ i.
Proof.
  intros Hv. revert i r; induction Hv as [|b v Hb Hv IH]; intros i r Hi Hl Hr.
  { simpl. lia. }
  rewrite zlen_cons in Hl. pose proof (zlen_nonneg v) as Hv0. unfold is_byte in Hb.
  assert (Hp : 256 ^ (i + 1) = 256 ^ i * 256) by (rewrite Z.pow_add_r; lia).
  assert (Hm : 256 ^ i <= 256 ^ 6) by (apply Z.pow_le_mono_r; lia).
  cbn [makeScriptNum_loop]. rewrite le_get_cons by done.
  unfold uint8. rewrite (Z.mod_small (8 * i)) by lia.
  assert (He : 256 ^ i = 2 ^ (8 * i)) by (rewrite Z.pow_mul_r by lia; done).
  rewrite int64_id by (rewrite Z.shiftl_mul_pow2 by lia; rewrite <- He; nia).
  rewrite lor_shiftl_add by (rewrite <- ?He; lia). rewrite <- He.
  rewrite IH by nia. rewrite Hp. ring.
Qed.

Lemma land_lnot_pow2 lo n :
  0 <= n -> 0 <= lo < 2 ^ n -> Z.land (lo + 2 ^ n) (Z.lnot (2 ^ n)) = lo.
Proof.
  intros Hn Hlo. rewrite <- Z.ldiff_land.
  replace (lo + 2 ^ n) with (Z.lor lo (Z.shiftl 1 n))
    by (rewrite lor_shiftl_add by lia; lia).
  rewrite Z.shiftl_1_l. apply Z.bits_inj'. intros j Hj.
  rewrite Z.ldiff_spec, Z.lor_spec, Z.pow2_bits_eqb by lia.
  destruct (Z.eqb_spec n j) as [<-|Hne]; simpl.
  - rewrite andb_false_r. symmetry. rewrite <- (Z.mod_small lo (2 ^ n)) by lia.
    by apply Z.mod_pow2_bits_high.
  - by rewrite orb_false_r, andb_true_r.
Qed.

Lemma pow256 k : 0 <= k -> 256 ^ k = 2 ^ (8 * k).
Proof. intros. rewrite Z.pow_mul_r by lia. done. Qed.

Lemma mod_128_high b : is_byte b -> 128 <= b -> b mod 128 = b - 128.
Proof.
  intros Hb Hs. unfold is_byte in Hb. replace b with (b - 128 + 1 * 128) at 1 by lia.
  rewrite Z.mod_add, Z.mod_small; lia.
Qed.

(** The two ways the sign byte lands in the accumulator: without wrapping, and
    (eighth byte, sign set) wrapped to a negative number. *)
Lemma makeScriptNum_loop_last init b :
  Forall is_byte init -> is_byte b -> zlen init <= 7 ->
  makeScriptNum_loop (init ++ [b]) 0 0 =
  if (zlen init =? 7) && (128 <=? b)
  then le_get init + (b - 256) * 256 ^ zlen init
  else le_get init + b * 256 ^ zlen init.
Proof.
  intros Hi Hb Hl. pose proof (zlen_nonneg init) as Hn.
  pose proof (le_get_range init Hi) as Hr. set (k := zlen init) in *.
  rewrite makeScriptNum_loop_app, (makeScriptNum_loop_small init) by (done || lia).
  fold k. cbn [makeScriptNum_loop]. rewrite Z.add_0_l, Z.mul_1_r, Z.add_0_l.
  unfold uint8. rewrite (Z.mod_small (8 * k)) by lia. unfold is_byte in Hb.
  rewrite pow256 in * by lia. case_if.
  - assert (k = 7) as -> by lia.
    assert (Hw : int64 (Z.shiftl b (8 * 7)) = Z.shiftl (b - 256) (8 * 7)).
    { rewrite !Z.shiftl_mul_pow2 by lia. unfold int64.
      replace (b * 2 ^ (8 * 7) + 2 ^ 63)
        with ((b - 128) * 2 ^ 56 + 1 * 2 ^ 64) by lia.
      rewrite Z.mod_add, Z.mod_small; lia. }
    rewrite Hw. by apply lor_shiftl_add.
  - rewrite int64_id; [by apply lor_shiftl_add; lia|].
    rewrite Z.shiftl_mul_pow2 by lia.
    assert (2 ^ (8 * k) <= 2 ^ 56) by (apply Z.pow_le_mono_r; lia).
    destruct (Z.eq_dec k 7) as [->|]; [lia|].
    assert (2 ^ (8 * k) <= 2 ^ 48) by (apply Z.pow_le_mono_r; lia). nia.
Qed.

(** Masking the sign bit undoes the wrap. *)
Lemma makeScriptNum_loop_magnitude init b :
  Forall is_byte init -> is_byte b -> zlen init <= 7 ->
  let r := makeScriptNum_loop (init ++ [b]) 0 0 in
  (if b <? 128 then r
   else Z.land r (Z.lnot (int64 (Z.shiftl 0x80 (uint8 (8 * zlen init)))))) =
  magnitude init b.
Proof.
  intros Hi Hb Hl r. subst r. rewrite makeScriptNum_loop_last by done.
  pose proof (zlen_nonneg init) as Hn. pose proof (le_get_range init Hi) as Hr.
  unfold magnitude. set (k := zlen init) in *.
  unfold uint8. rewrite (Z.mod_small (8 * k)) by lia. case_if.
  { rewrite (Z.mod_small b) by (unfold is_byte in Hb; lia). case_if; [lia|done]. }
  rewrite mod_128_high by (try done; lia). unfold is_byte in Hb. case_if.
  - assert (k = 7) as -> by lia.
    change (Z.lnot (int64 (Z.shiftl 128 (8 * 7)))) with (Z.ones 63).
    rewrite Z.land_ones by lia.
    replace (le_get init + (b - 256) * 256 ^ 7)
      with (le_get init + (b - 128) * 256 ^ 7 + (-1) * 2 ^ 63) by lia.
    rewrite Z.mod_add, Z.mod_small; lia.
  - assert (Hk : k < 7) by lia. rewrite pow256 in * by lia.
    assert (Hp : Z.shiftl 128 (8 * k) = 2 ^ (8 * k + 7)).
    { change 128 with (2 ^ 7). rewrite Z.shiftl_mul_pow2, Z.pow_add_r by lia. lia. }
    assert (2 ^ (8 * k + 7) <= 2 ^ 56) by (apply Z.pow_le_mono_r; lia).
    assert (2 ^ (8 * k + 7) = 2 ^ (8 * k) * 128) by (rewrite Z.pow_add_r; lia).
    rewrite Hp, int64_id by lia.
    replace (le_get init + b * 2 ^ (8 * k))
      with (le_get init + (b - 128) * 2 ^ (8 * k) + 2 ^ (8 * k + 7)) by lia.
    apply land_lnot_pow2; nia.
Qed.

Lemma checkMinimalDataEncoding_spec v :
  Forall is_byte v ->
  checkMinimalDataEncoding v =
  if minimal v then Ok tt else Err (scriptError ErrMinimalData).
Proof.
  intros Hv. destruct v as [|b init _] using rev_ind; [done|].
  unfold checkMinimalDataEncoding, minimal. rewrite rev_app_distr. cbn [rev app].
  pose proof (zlen_nonneg init). rewrite !zlen_app, zlen_cons, zlen_nil.
  destruct (Z.eqb_spec (zlen init + (0 + 1)) 0); [lia|].
  unfold index_res. rewrite lookupZ_app_r by lia. cbn [bind_res].
  rewrite land_0x7f. destruct (b mod 128 =? 0); [|done]. cbn [negb orb].
  destruct init as [|p init _] using rev_ind; [done|].
  pose proof (zlen_nonneg init). rewrite !zlen_app, zlen_cons, zlen_nil.
  destruct (Z.eqb_spec (zlen init + (0 + 1) + (0 + 1)) 1); [lia|].
  rewrite <- app_assoc. cbn [app]. rewrite lookupZ_app_r by lia.
  rewrite rev_app_distr. cbn [rev app bind_res].
  apply Forall_app in Hv as [[_ Hp%Forall_inv]%Forall_app _].
  rewrite land_0x80 by done. by destruct (Z.ltb_spec p 128), (Z.leb_spec 128 p); try lia.
Qed.

Lemma makeScriptNum_correct v l :
  Forall is_byte v ->
  makeScriptNum v l =
  if zlen v >? Z.min l 8 then Err (scriptError ErrNumberTooBig)
  else if minimal v then Ok (num_value v)
  else Err (scriptError ErrMinimalData).
Proof.
  intros Hv. unfold makeScriptNum.
  destruct (zlen v >? l) eqn:?, (zlen v >? 8) eqn:?, (zlen v >? Z.min l 8) eqn:?;
    try lia; try done.
  rewrite checkMinimalDataEncoding_spec by done. destruct (minimal v); [|done].
  cbn [bind_res]. destruct v as [|b init _] using rev_ind; [done|].
  unfold num_value. rewrite rev_app_distr. cbn [rev app]. rewrite rev_involutive.
  rewrite !zlen_app, zlen_cons, zlen_nil in *. pose proof (zlen_nonneg init).
  destruct (Z.eqb_spec (zlen init + (0 + 1)) 0); [lia|].
  unfold index_res. rewrite lookupZ_app_r by lia. cbn [bind_res].
  apply Forall_app in Hv as [Hi Hb%Forall_inv].
  pose proof (makeScriptNum_loop_magnitude init b Hi Hb ltac:(lia)) as Hm.
  rewrite land_0x80 by done. cbv zeta in Hm.
  replace (zlen init + (0 + 1) - 1) with (zlen init) by lia.
  destruct (Z.ltb_spec b 128); cbn [negb Z.eqb]; rewrite Hm; [done|].
  rewrite int64_id; [done|]. unfold magnitude. pose proof (le_get_range init Hi).
  assert (256 ^ zlen init <= 256 ^ 7) by (apply Z.pow_le_mono_r; lia).
  pose proof (Z.mod_pos_bound b 128 ltac:(lia)). nia.
Qed.

(** * Encoding *)

Lemma canonical_snoc d t : canonical (d ++ [t]) <-> t <> 0.
Proof. unfold canonical. by rewrite rev_app_distr. Qed.

Lemma le_get_snoc d t :
  Forall is_byte d -> is_byte t -> le_get (d ++ [t]) = le_get d + t * 256 ^ zlen d.
Proof.
  intros Hd Ht. induction Hd as [|b d Hb Hd IH]; [simpl; by rewrite Z.lor_0_r, Z.mul_1_r|].
  cbn [app]. rewrite !le_get_cons, IH, zlen_cons, Z.pow_add_r by (done || apply zlen_nonneg).
  lia.
Qed.

Lemma canonical_bounds d t :
  Forall is_byte d -> is_byte t -> t <> 0 ->
  256 ^ zlen d <= le_get (d ++ [t]) < 256 ^ (zlen d + 1).
Proof.
  intros Hd Ht H0. rewrite le_get_snoc by done. pose proof (le_get_range d Hd).
  rewrite Z.pow_add_r by (done || apply zlen_nonneg). unfold is_byte in Ht. nia.
Qed.

Lemma canonical_unique d1 d2 :
  Forall is_byte d1 -> Forall is_byte d2 -> canonical d1 -> canonical d2 ->
  le_get d1 = le_get d2 -> d1 = d2.
Proof.
  assert (Hpos : forall d t, Forall is_byte d -> is_byte t -> t <> 0 ->
    0 < le_get (d ++ [t])).
  { intros d t Hd Ht H0. pose proof (canonical_bounds d t Hd Ht H0).
    pose proof (Z.pow_pos_nonneg 256 (zlen d) ltac:(lia) (zlen_nonneg d)). lia. }
  destruct d1 as [|t1 d1 _] using rev_ind; destruct d2 as [|t2 d2 _] using rev_ind;
    [done| | |].
  - intros _ [Hd Ht%Forall_inv]%Forall_app _ Hc%canonical_snoc He.
    specialize (Hpos _ _ Hd Ht Hc). simpl in He. lia.
  - intros [Hd Ht%Forall_inv]%Forall_app _ Hc%canonical_snoc _ He.
    specialize (Hpos _ _ Hd Ht Hc). simpl in He. lia.
  - intros H1 H2 Hc1%canonical_snoc Hc2%canonical_snoc He.
    apply le_get_inj; [done..| |done].
    apply Forall_app in H1 as [Hd1 Ht1%Forall_inv].
    apply Forall_app in H2 as [Hd2 Ht2%Forall_inv].
    pose proof (canonical_bounds d1 t1 Hd1 Ht1 Hc1) as B1.
    pose proof (canonical_bounds d2 t2 Hd2 Ht2 Hc2) as B2. rewrite He in B1.
    assert (zlen d1 < zlen d2 + 1).
    { apply (Z.pow_lt_mono_r_iff 256); [lia|pose proof (zlen_nonneg d2); lia|lia]. }
    assert (zlen d2 < zlen d1 + 1).
    { apply (Z.pow_lt_mono_r_iff 256); [lia|pose proof (zlen_nonneg d1); lia|lia]. }
    unfold zlen in *. rewrite !length_app. simpl. lia.
Qed.

(** The loop produces the digits of the number. *)
Lemma Bytes_loop_spec fuel n acc :
  0 <= n < 256 ^ Z.of_nat fuel ->
  exists d, Bytes_loop fuel n acc = acc ++ d /\ Forall is_byte d /\
    le_get d = n /\ canonical d /\ (length d <= fuel)%nat.
Proof.
  revert n acc; induction fuel as [|fuel IH]; intros n acc Hn.
  { exists []. rewrite app_nil_r. simpl in *. repeat split; [by constructor|lia|lia]. }
  cbn [Bytes_loop]. destruct (n >? 0) eqn:Hpos.
  2: { exists []. rewrite app_nil_r. simpl. repeat split; [by constructor|lia|lia]. }
  rewrite land_255, shiftr_8.
  assert (Hb : is_byte (n mod 256)).
  { unfold is_byte. pose proof (Z.mod_pos_bound n 256). lia. }
  rewrite uint8_id by done. rewrite Nat2Z.inj_succ, Z.pow_succ_r in Hn by lia.
  destruct (IH (n / 256) (acc ++ [n mod 256])) as (d & Hd & Hbs & Hg & Hc & Hl).
  { split; [apply Z.div_pos; lia|apply Z.div_lt_upper_bound; lia]. }
  exists (n mod 256 :: d). rewrite Hd, <- app_assoc. cbn [app length].
  rewrite le_get_cons, Hg by done. repeat split; [by constructor| | |lia].
  - pose proof (Z.div_mod n 256). lia.
  - destruct d as [|t d _] using rev_ind.
    + simpl in Hg. unfold canonical. simpl.
      pose proof (Z.div_mod n 256). lia.
    + apply (canonical_snoc (_ :: d)). by apply canonical_snoc in Hc.
Qed.

(** Digits with a sign attached read back as the signed number. *)
Lemma signed_digits_value neg d :
  Forall is_byte d -> canonical d ->
  Forall is_byte (signed_digits neg d) /\
  minimal (signed_digits neg d) = true /\
  num_value (signed_digits neg d) = (if neg then - le_get d else le_get d) /\
  (length (signed_digits neg d) <= S (length d))%nat.
Proof.
  intros Hd Hc. destruct d as [|t d _] using rev_ind; [by destruct neg; repeat split; constructor|].
  apply canonical_snoc in Hc. apply Forall_app in Hd as [Hd Ht%Forall_inv].
  unfold signed_digits. rewrite rev_app_distr. cbn [rev app]. rewrite rev_involutive.
  pose proof (le_get_snoc d t Hd Ht) as Hg. pose proof (Z.mod_pos_bound t 128 ltac:(lia)).
  unfold is_byte in Ht.
  destruct (Z.ltb_spec t 128) as [Hlt|Hge]; cycle 1.
  - rewrite <- app_assoc. cbn [app]. unfold minimal, num_value.
    rewrite rev_app_distr. cbn [rev app]. rewrite !length_app. cbn [length].
    repeat split; [| | |lia].
    + rewrite Forall_app, !Forall_cons. unfold is_byte in *.
      destruct neg; repeat split; (done || lia || constructor).
    + rewrite (proj2 (Z.leb_le 128 t) Hge). apply orb_true_r.
    + cbn [rev app]. rewrite rev_involutive. unfold magnitude.
      destruct neg;
        [change (128 <? 128) with false; change (128 mod 128) with 0
        |change (0 <? 128) with true; change (0 mod 128) with 0]; cbv iota; lia.
  - set (l := if neg then t + 128 else t).
    assert (Hl : l mod 128 = t).
    { subst l. destruct neg; [|by apply Z.mod_small; lia].
      replace (t + 128) with (t + 1 * 128) by lia.
      rewrite Z.mod_add, Z.mod_small; lia. }
    assert (is_byte l) by (subst l; unfold is_byte; destruct neg; lia).
    unfold minimal, num_value. rewrite rev_app_distr. cbn [rev app].
    rewrite !length_app. cbn [length]. repeat split; [|rewrite Hl| |lia].
    + by apply Forall_snoc.
    + by rewrite (proj2 (Z.eqb_neq t 0) Hc).
    + rewrite rev_involutive. unfold magnitude. rewrite Hl, Hg. subst l.
      destruct neg.
      * by rewrite (proj2 (Z.ltb_ge (t + 128) 128)) by lia.
      * by rewrite (proj2 (Z.ltb_lt t 128)) by lia.
Qed.

(** Every minimal encoding arises that way. *)
Lemma minimal_signed_digits v :
  Forall is_byte v -> minimal v = true -> v <> [] ->
  exists neg d, v = signed_digits neg d /\ Forall is_byte d /\ canonical d /\
    d <> [] /\ (length d <= length v)%nat.
Proof.
  intros Hv Hm Hne. destruct v as [|l init _] using rev_ind; [done|]. clear Hne.
  apply Forall_app in Hv as [Hi Hl%Forall_inv]. unfold minimal in Hm.
  rewrite rev_app_distr in Hm. cbn [rev app] in Hm. unfold is_byte in Hl.
  exists (128 <=? l). destruct (Z.eqb_spec (l mod 128) 0) as [Hz|Hnz].
  - destruct init as [|p init _] using rev_ind; [done|].
    rewrite rev_app_distr in Hm. cbn [rev app negb orb] in Hm.
    exists (init ++ [p]). unfold signed_digits. rewrite rev_app_distr. cbn [rev app].
    rewrite (proj2 (Z.ltb_ge p 128)) by lia. repeat split; [|done| | |].
    + f_equal. f_equal. destruct (Z.leb_spec 128 l).
      * pose proof (mod_128_high l ltac:(done) ltac:(lia)). lia.
      * rewrite Z.mod_small in Hz by lia. lia.
    + apply canonical_snoc. lia.
    + by destruct init.
    + rewrite !length_app. simpl. lia.
  - exists (init ++ [l mod 128]). unfold signed_digits. rewrite rev_app_distr. cbn [rev app].
    pose proof (Z.mod_pos_bound l 128 ltac:(lia)).
    rewrite (proj2 (Z.ltb_lt (l mod 128) 128)) by lia. rewrite rev_involutive.
    repeat split.
    + f_equal. f_equal. destruct (Z.leb_spec 128 l).
      * pose proof (mod_128_high l ltac:(done) ltac:(lia)). lia.
      * rewrite Z.mod_small by lia. lia.
    + apply Forall_snoc. unfold is_byte. repeat split; (done || lia).
    + by apply canonical_snoc.
    + by destruct init.
    + rewrite !length_app. simpl. lia.
Qed.

(** [Bytes] attaches the sign to the digits of the absolute value. *)
Lemma Bytes_signed_digits n :
  - 2 ^ 63 < n < 2 ^ 63 ->
  exists d, Bytes n = Ok (signed_digits (n <? 0) d) /\ Forall is_byte d /\
    canonical d /\ le_get d = Z.abs n /\ (length d <= 9)%nat.
Proof.
  intros Hn. unfold Bytes. destruct (Z.eqb_spec n 0) as [->|Hnz].
  { exists []. repeat split; [by constructor|simpl; lia]. }
  assert (Habs : (if n <? 0 then int64 (- n) else n) = Z.abs n).
  { destruct (Z.ltb_spec n 0); [rewrite int64_id|]; lia. }
  rewrite Habs.
  destruct (Bytes_loop_spec 9 (Z.abs n) []) as (d & Hd & Hb & Hg & Hc & Hl); [lia|].
  exists d. rewrite Hd. cbn [app]. repeat split; [|done..].
  destruct d as [|t d _] using rev_ind; [simpl in Hg; lia|].
  unfold index_res. rewrite zlen_app. rewrite lookupZ_app_r by zlia. cbn [bind_res].
  unfold signed_digits. rewrite rev_app_distr. cbn [rev app]. rewrite rev_involutive.
  apply Forall_app in Hb as [Hb Ht%Forall_inv]. rewrite land_0x80 by done.
  destruct (Z.ltb_spec t 128) as [Hlt|Hge]; cbn [Z.eqb negb]; [|done].
  destruct (Z.ltb_spec n 0); [|done]. f_equal.
  replace (Z.to_nat (zlen d + zlen [t] - 1)) with (length d) by (unfold zlen; simpl; lia).
  rewrite insert_app_r_alt, Nat.sub_diag by lia. simpl. f_equal. f_equal.
  unfold is_byte in Ht. change 128 with (Z.shiftl 1 7) at 1.
  rewrite lor_shiftl_add by lia. lia.
Qed.

Lemma num_value_signed_digits_inj neg1 neg2 d1 d2 :
  Forall is_byte d1 -> canonical d1 -> Forall is_byte d2 -> canonical d2 ->
  d1 <> [] -> d2 <> [] ->
  num_value (signed_digits neg1 d1) = num_value (signed_digits neg2 d2) ->
  signed_digits neg1 d1 = signed_digits neg2 d2.
Proof.
  intros H1 C1 H2 C2 N1 N2.
  destruct (signed_digits_value neg1 d1 H1 C1) as (_ & _ & -> & _).
  destruct (signed_digits_value neg2 d2 H2 C2) as (_ & _ & -> & _).
  assert (Hpos : forall d, Forall is_byte d -> canonical d -> d <> [] -> 0 < le_get d).
  { intros d Hd Hc Hne. destruct d as [|t d _] using rev_ind; [done|].
    apply Forall_app in Hd as [Hd Ht%Forall_inv]. apply canonical_snoc in Hc.
    pose proof (canonical_bounds d t Hd Ht Hc).
    pose proof (Z.pow_pos_nonneg 256 (zlen d) ltac:(lia) (zlen_nonneg d)). lia. }
  pose proof (Hpos d1 H1 C1 N1). pose proof (Hpos d2 H2 C2 N2).
  intros He. assert (neg1 = neg2 /\ le_get d1 = le_get d2) as [-> Hd]
    by (destruct neg1, neg2; lia).
  by rewrite (canonical_unique d1 d2).
Qed.

(** What [Bytes] returns: a minimal encoding of the number. *)
Lemma Bytes_spec n :
  - 2 ^ 63 < n < 2 ^ 63 ->
  exists v, Bytes n = Ok v /\ Forall is_byte v /\ minimal v = true /\
    num_value v = n /\ (length v <= 10)%nat.
Proof.
  intros Hn. destruct (Bytes_signed_digits n Hn) as (d & -> & Hb & Hc & Hg & Hl).
  destruct (signed_digits_value (n <? 0) d Hb Hc) as (Hb' & Hm & Hv & Hl').
  exists (signed_digits (n <? 0) d). repeat split; [done..| |lia].
  rewrite Hv, Hg. destruct (Z.ltb_spec n 0); lia.
Qed.

(** A minimal encoding of [k] bytes holds numbers below [2^(8k-1)]. *)
Lemma num_value_range v :
  Forall is_byte v -> v <> [] ->
  Z.abs (num_value v) < 2 ^ (8 * zlen v - 1).
Proof.
  intros Hv Hne. destruct v as [|l init _] using rev_ind; [done|].
  apply Forall_app in Hv as [Hi Hl%Forall_inv].
  unfold num_value. rewrite rev_app_distr. cbn [rev app]. rewrite rev_involutive.
  assert (Hm : 0 <= magnitude init l < 2 ^ (8 * zlen init) * 2 ^ 7).
  { unfold magnitude. pose proof (le_get_range init Hi) as Hr.
    rewrite pow256 in * by apply zlen_nonneg.
    pose proof (Z.mod_pos_bound l 128 ltac:(lia)). nia. }
  rewrite <- Z.pow_add_r in Hm by (pose proof (zlen_nonneg init); lia).
  rewrite zlen_app. replace (8 * (zlen init + zlen [l]) - 1) with (8 * zlen init + 7) by zlia.
  destruct (l <? 128); lia.
Qed.

(** A minimal encoding of [k] bytes is needed for its number. *)
Lemma minimal_lower_bound v :
  Forall is_byte v -> minimal v = true -> 2 <= zlen v ->
  2 ^ (8 * (zlen v - 1) - 1) <= Z.abs (num_value v).
Proof.
  intros Hv Hm Hl. destruct v as [|l init _] using rev_ind; [done|].
  apply Forall_app in Hv as [Hi Hb%Forall_inv].
  unfold num_value, minimal in *. rewrite rev_app_distr in *. cbn [rev app] in *.
  rewrite rev_involutive. pose proof (Z.mod_pos_bound l 128 ltac:(lia)).
  assert (2 ^ (8 * (zlen (init ++ [l]) - 1) - 1) <= magnitude init l); cycle 1.
  { destruct (l <? 128); lia. }
  rewrite zlen_app, zlen_cons, zlen_nil in *. unfold magnitude.
  pose proof (le_get_range init Hi) as Hr. replace (zlen init + (0 + 1) - 1) with (zlen init) by lia.
  destruct (Z.eqb_spec (l mod 128) 0) as [Hz|Hz].
  - destruct init as [|p init _] using rev_ind; [done|]. rewrite rev_app_distr in Hm.
    cbn [rev app negb orb] in Hm. apply Forall_app in Hi as [Hi Hp%Forall_inv].
    rewrite Hz, Z.mul_0_l, Z.add_0_r, le_get_snoc, zlen_app, zlen_cons, zlen_nil by done.
    pose proof (le_get_range init Hi). pose proof (zlen_nonneg init).
    replace (8 * (zlen init + (0 + 1)) - 1) with (8 * zlen init + 7) by lia.
    rewrite Z.pow_add_r, pow256 by lia. nia.
  - assert (2 ^ (8 * zlen init - 1) <= 256 ^ zlen init).
    { rewrite pow256 by lia. apply Z.pow_le_mono_r; lia. }
    nia.
Qed.

Lemma Bytes_length n v l :
  - 2 ^ 63 < n < 2 ^ 63 -> Bytes n = Ok v -> 1 <= l -> Z.abs n < 2 ^ (8 * l - 1) ->
  zlen v <= l.
Proof.
  intros Hn Hv Hl Ha. destruct (Bytes_spec n Hn) as (v' & Hv' & Hb & Hm & Hnv & _).
  rewrite Hv in Hv'. injection Hv' as <-. destruct (Z.le_gt_cases 2 (zlen v)) as [Hlen|]; [|lia].
  pose proof (minimal_lower_bound v Hb Hm Hlen) as Hlow.
  assert (8 * (zlen v - 1) - 1 < 8 * l - 1); [|lia].
  apply (Z.pow_lt_mono_r_iff 2); lia.
Qed.

Lemma Bytes_num_value v :
  Forall is_byte v -> minimal v = true -> zlen v <= 8 -> Bytes (num_value v) = Ok v.
Proof.
  intros Hb Hm Hl. destruct (decide (v = [])) as [->|Hne]; [done|].
  pose proof (num_value_range v Hb Hne) as Hr.
  assert (2 ^ (8 * zlen v - 1) <= 2 ^ 63) by (apply Z.pow_le_mono_r; lia).
  destruct (minimal_signed_digits v Hb Hm Hne) as (neg & d & -> & Hd & Hc & Hdn & _).
  destruct (Bytes_signed_digits (num_value (signed_digits neg d)) ltac:(lia))
    as (d' & -> & Hd' & Hc' & Hg & _).
  destruct (signed_digits_value neg d Hd Hc) as (_ & _ & Hv & _).
  destruct (signed_digits_value (num_value (signed_digits neg d) <? 0) d' Hd' Hc')
    as (_ & _ & Hv' & _).
  assert (d' <> []).
  { intros ->. apply Hdn. apply canonical_unique; [done..|].
    simpl in Hg. simpl. destruct neg; lia. }
  f_equal. apply num_value_signed_digits_inj; [done..|].
  rewrite Hv', Hg. destruct (Z.ltb_spec (num_value (signed_digits neg d)) 0); lia.
Qed.

(** * Properties *)

(** A number of at most [l] bytes survives serialisation: [Bytes] returns a
    byte string that [makeScriptNum] accepts under the limit [l] and reads back
    as the same number. *)
Theorem makeScriptNum_Bytes n l :
  1 <= l <= 8 -> Z.abs n < 2 ^ (8 * l - 1) ->
  exists v, Bytes n = Ok v /\ makeScriptNum v l = Ok n.
Proof.
  intros Hl Hn. assert (2 ^ (8 * l - 1) <= 2 ^ 63) by (apply Z.pow_le_mono_r; lia).
  destruct (Bytes_spec n ltac:(lia)) as (v & Hv & Hb & Hm & Hnv & _).
  exists v. split; [done|]. rewrite makeScriptNum_correct, Hm, Hnv by done.
  pose proof (Bytes_length n v l ltac:(lia) Hv ltac:(lia) Hn).
  by destruct (zlen v >? Z.min l 8) eqn:?; [lia|].
Qed.

Lemma makeScriptNum_Bytes_witness :
  exists v, Bytes (-255) = Ok v /\ makeScriptNum v 4 = Ok (-255).
Proof. apply (makeScriptNum_Bytes (-255) 4); [lia|reflexivity]. Defined.

(** No number has two accepted encodings: a byte string that [makeScriptNum]
    accepts is the one [Bytes] produces for its value, and the value fits in
    the bytes it takes. *)
Theorem makeScriptNum_unique v l n :
  Forall is_byte v -> makeScriptNum v l = Ok n ->
  Bytes n = Ok v /\ Z.abs n < 2 ^ (8 * Z.max 1 (zlen v) - 1).
Proof.
  intros Hb. rewrite makeScriptNum_correct by done.
  destruct (zlen v >? Z.min l 8) eqn:?; [done|]. destruct (minimal v) eqn:Hm; [|done].
  intros [= <-]. split; [apply Bytes_num_value; (done || lia)|].
  destruct (decide (v = [])) as [->|Hne]; [done|].
  pose proof (num_value_range v Hb Hne).
  replace (Z.max 1 (zlen v)) with (zlen v); [done|].
  destruct v; [done|zlia].
Qed.

Lemma makeScriptNum_unique_witness :
  Bytes (-255) = Ok [255; 128] /\ Z.abs (-255) < 2 ^ (8 * Z.max 1 (zlen [255; 128]) - 1).
Proof.
  apply (makeScriptNum_unique [255; 128] 4 (-255)); [|reflexivity].
  repeat constructor; discriminate.
Defined.

(** The smallest [int64] has no serialisation: negating it overflows, the
    digit loop does not run, and [Bytes] indexes an empty slice. *)
Theorem Bytes_minInt64_panics : Bytes (- 2 ^ 63) = Panic.
Proof. reflexivity. Qed.
