(* ===== verification/Stack.v ===== *)
(** The interpreter's stacks: [src/domain/consensus/utils/txscript/stack.go].

    As in the source, a [stack] is a slice whose last element is the top.  The
    methods keep the source's [int32] arithmetic on depths and indexes; the
    lemmas ask for a stack of fewer than [2^31] entries, which the engine's
    invariant (at most 244 entries) provides. *)

From S2P Require Import Prelude ScriptError ScriptNum.

Abbreviation stack := (list bytes).

(** A method of [*stack] that can fail with a script error. *)
Abbreviation SM := (M error stack).

Fixpoint asBool_loop (t : bytes) (i n : Z) : bool :=
  match t with
  | [] => false
  | b :: t' =>
      if negb (b =? 0) then
        if (i =? n - 1) && (b =? 0x80) then false else true
      else asBool_loop t' (i + 1) n
  end.

Definition asBool (t : bytes) : bool := asBool_loop t 0 (zlen t).

Definition fromBool (v : bool) : bytes := if v then [1] else [].

Definition Depth (s : stack) : Z := int32 (zlen s).

Definition PushByteArray (so : bytes) : SM unit := modify (fun s => s ++ [so]).

Definition PushInt (val : Z) : SM unit :=
  let* b := lift (Bytes val) in PushByteArray b.

Definition PushBool (val : bool) : SM unit := PushByteArray (fromBool val).

Definition nipN (idx : Z) : SM bytes :=
  let* s := get in
  let sz := int32 (zlen s) in
  if (idx <? 0) || (idx >? int32 (sz - 1))
  then throw (scriptError ErrInvalidStackOperation) else
  let* so := index s (int32 (int32 (sz - idx) - 1)) in
  (if idx =? 0 then
     let* s' := slice s 0 (int32 (sz - 1)) in put s'
   else if idx =? int32 (sz - 1) then
     let* tail := slice s 1 (zlen s) in
     put (copy_slice (replicate (Z.to_nat (int32 (sz - 1))) []) tail)
   else
     let* s1 := slice s (int32 (sz - idx)) sz in
     let* pre := slice s 0 (int32 (int32 (sz - idx) - 1)) in
     put (pre ++ s1)) ;;
  ret so.

Definition NipN (idx : Z) : SM unit := nipN idx ;; ret tt.

Definition PopByteArray : SM bytes := nipN 0.

Definition PopInt : SM Z :=
  let* so := PopByteArray in lift (makeScriptNum so defaultScriptNumLen).

Definition PopBool : SM bool :=
  let* so := PopByteArray in ret (asBool so).

Definition PeekByteArray (idx : Z) : SM bytes :=
  let* s := get in
  let sz := int32 (zlen s) in
  if (idx <? 0) || (idx >=? sz)
  then throw (scriptError ErrInvalidStackOperation)
  else index s (int32 (int32 (sz - idx) - 1)).

Definition PeekInt (idx : Z) : SM Z :=
  let* so := PeekByteArray idx in lift (makeScriptNum so defaultScriptNumLen).

Definition PeekBool (idx : Z) : SM bool :=
  let* so := PeekByteArray idx in ret (asBool so).

Definition Tuck : SM unit :=
  let* so2 := PopByteArray in
  let* so1 := PopByteArray in
  PushByteArray so2 ;;
  PushByteArray so1 ;;
  PushByteArray so2.

(** [for ; n > 0; n-- { body }] *)
Fixpoint repeatM {E S} (n : nat) (body : M E S unit) : M E S unit :=
  match n with
  | O => ret tt
  | S n' => body ;; repeatM n' body
  end.

Definition DropN (n : Z) : SM unit :=
  if n <? 1 then throw (scriptError ErrInvalidStackOperation) else
  repeatM (Z.to_nat n) (PopByteArray ;; ret tt).

Definition DupN (n : Z) : SM unit :=
  if n <? 1 then throw (scriptError ErrInvalidStackOperation) else
  repeatM (Z.to_nat n)
    (let* so := PeekByteArray (int32 (n - 1)) in PushByteArray so).

Definition RotN (n : Z) : SM unit :=
  if n <? 1 then throw (scriptError ErrInvalidStackOperation) else
  let entry := int32 (int32 (3 * n) - 1) in
  repeatM (Z.to_nat n) (let* so := nipN entry in PushByteArray so).

Definition SwapN (n : Z) : SM unit :=
  if n <? 1 then throw (scriptError ErrInvalidStackOperation) else
  let entry := int32 (int32 (2 * n) - 1) in
  repeatM (Z.to_nat n) (let* so := nipN entry in PushByteArray so).

Definition OverN (n : Z) : SM unit :=
  if n <? 1 then throw (scriptError ErrInvalidStackOperation) else
  let entry := int32 (int32 (2 * n) - 1) in
  repeatM (Z.to_nat n) (let* so := PeekByteArray entry in PushByteArray so).

Definition PickN (n : Z) : SM unit :=
  let* so := PeekByteArray n in PushByteArray so.

Definition RollN (n : Z) : SM unit :=
  let* so := nipN n in PushByteArray so.

(** * Single accesses *)

Abbreviation small s := (zlen s < 2 ^ 31) (only parsing).

Lemma PushByteArray_run so s : PushByteArray so s = (Ok tt, s ++ [so]).
Proof. done. Qed.

Lemma nipN_run pre x post :
  small (pre ++ x :: post) ->
  nipN (zlen post) (pre ++ x :: post) = (Ok x, pre ++ post).
Proof.
  intros Hs. rewrite zlen_app, zlen_cons in Hs. zlen_facts.
  unfold nipN, index, slice, index_res, slice_res, bind, get, put, ret, lift.
  rewrite zlen_app, zlen_cons, !int32_id by (rewrite ?int32_id; lia).
  destruct (zlen post <? 0) eqn:?; [lia|].
  destruct (zlen post >? zlen pre + (zlen post + 1) - 1) eqn:?; [lia|]. cbn [orb].
  rewrite lookupZ_app_r by lia. cbv beta iota.
  destruct (Z.eqb_spec (zlen post) 0) as [Hz|].
  { destruct post; [|zlia]. zlen_simpl.
    case_if; [|lia]. by rewrite (sliceZ_prefix pre [x]), app_nil_r by lia. }
  destruct (Z.eqb_spec (zlen post) (zlen pre + (zlen post + 1) - 1)) as [Hl|].
  { destruct pre; [|zlia]. zlen_simpl. cbn [app].
    case_if; [|lia].
    rewrite (sliceZ_suffix [x] post) by zlia. rewrite copy_slice_same_length; [done|].
    rewrite length_replicate. unfold zlen. lia. }
  case_if; [|lia]. case_if; [|lia].
  rewrite (sliceZ_prefix pre (x :: post)) by lia.
  change (x :: post) with ([x] ++ post). rewrite app_assoc.
  by rewrite sliceZ_suffix by zlia.
Qed.

Lemma nipN_out_of_range idx s :
  small s -> idx < 0 \/ zlen s <= idx ->
  nipN idx s = (Err (scriptError ErrInvalidStackOperation), s).
Proof.
  intros Hs Hi. zlen_facts. unfold nipN, bind, get. rewrite !int32_id by (rewrite ?int32_id; lia).
  destruct (idx <? 0) eqn:?; [done|]. destruct (idx >? zlen s - 1) eqn:?; [done|lia].
Qed.

Lemma PeekByteArray_run pre x post :
  small (pre ++ x :: post) ->
  PeekByteArray (zlen post) (pre ++ x :: post) = (Ok x, pre ++ x :: post).
Proof.
  intros Hs. rewrite zlen_app, zlen_cons in Hs. zlen_facts.
  unfold PeekByteArray, index, index_res, bind, get, lift.
  rewrite zlen_app, zlen_cons, !int32_id by (rewrite ?int32_id; lia).
  destruct (zlen post <? 0) eqn:?; [lia|].
  destruct (zlen post >=? zlen pre + (zlen post + 1)) eqn:?; [lia|]. cbn [orb].
  by rewrite lookupZ_app_r by lia.
Qed.

Lemma PeekByteArray_out_of_range idx s :
  small s -> idx < 0 \/ zlen s <= idx ->
  PeekByteArray idx s = (Err (scriptError ErrInvalidStackOperation), s).
Proof.
  intros Hs Hi. zlen_facts. unfold PeekByteArray, bind, get. rewrite !int32_id by lia.
  destruct (idx <? 0) eqn:?; [done|]. destruct (idx >=? zlen s) eqn:?; [done|lia].
Qed.

Lemma PopByteArray_run s x : small (s ++ [x]) -> PopByteArray (s ++ [x]) = (Ok x, s).
Proof. intros Hs. pose proof (nipN_run s x [] Hs) as H. by rewrite app_nil_r in H. Qed.

Lemma PopByteArray_empty :
  PopByteArray [] = (Err (scriptError ErrInvalidStackOperation), []).
Proof. reflexivity. Qed.

(** * Loops *)

Lemma repeatM_drop post pre :
  small (pre ++ post) ->
  repeatM (length post) (PopByteArray ;; ret tt) (pre ++ post) = (Ok tt, pre).
Proof.
  revert pre. induction post as [|x post IH] using rev_ind; intros pre Hs.
  { by rewrite app_nil_r. }
  rewrite length_app, Nat.add_1_r. cbn [repeatM]. rewrite app_assoc in *.
  erewrite bind_ok; [apply IH; zlia|].
  erewrite bind_ok by by apply PopByteArray_run. done.
Qed.

(** Rolling the item at a fixed depth to the top, once for each of [a]. *)
Lemma repeatM_roll pre a b entry :
  entry = zlen a + zlen b - 1 -> small (pre ++ a ++ b) ->
  repeatM (length a) (let* so := nipN entry in PushByteArray so) (pre ++ a ++ b) =
  (Ok tt, pre ++ b ++ a).
Proof.
  revert b. induction a as [|x a IH]; intros b He Hs.
  { by rewrite app_nil_r. }
  cbn [length repeatM app]. erewrite bind_ok; cycle 1.
  { erewrite bind_ok; cycle 1.
    { replace entry with (zlen (a ++ b)) by zlia. apply nipN_run. zlia. }
    apply PushByteArray_run. }
  rewrite <- !app_assoc. rewrite IH by zlia. by rewrite <- app_assoc.
Qed.

(** Copying the item at a fixed depth to the top, once for each of [a]. *)
Lemma repeatM_copy pre a b entry :
  entry = zlen a + zlen b - 1 -> small (pre ++ a ++ b ++ a) ->
  repeatM (length a) (let* so := PeekByteArray entry in PushByteArray so)
    (pre ++ a ++ b) =
  (Ok tt, pre ++ a ++ b ++ a).
Proof.
  revert pre b. induction a as [|x a IH]; intros pre b He Hs.
  { by rewrite app_nil_r. }
  cbn [length repeatM app]. erewrite bind_ok; cycle 1.
  { erewrite bind_ok; cycle 1.
    { replace entry with (zlen (a ++ b)) by zlia. apply PeekByteArray_run. zlia. }
    apply PushByteArray_run. }
  replace ((pre ++ x :: a ++ b) ++ [x]) with ((pre ++ [x]) ++ a ++ b ++ [x])
    by by app_norm.
  rewrite IH by zlia. by app_norm.
Qed.

Lemma to_nat_zlen {A} (l : list A) n : zlen l = n -> Z.to_nat n = length l.
Proof. unfold zlen. lia. Qed.

Lemma DropN_run n pre post :
  1 <= n -> zlen post = n -> small (pre ++ post) ->
  DropN n (pre ++ post) = (Ok tt, pre).
Proof.
  intros Hn Hl Hs. unfold DropN. destruct (Z.ltb_spec n 1); [lia|].
  rewrite (to_nat_zlen post) by done. by apply repeatM_drop.
Qed.

Lemma DupN_run n pre post :
  1 <= n -> zlen post = n -> small (pre ++ post ++ post) ->
  DupN n (pre ++ post) = (Ok tt, pre ++ post ++ post).
Proof.
  intros Hn Hl Hs. unfold DupN. destruct (Z.ltb_spec n 1); [lia|].
  rewrite (to_nat_zlen post) by done.
  pose proof (repeatM_copy pre post [] (int32 (n - 1))) as Hc.
  rewrite app_nil_r in Hc. apply Hc; [rewrite int32_id; zlia|done].
Qed.

Lemma RotN_run n pre a b c :
  1 <= n -> zlen a = n -> zlen b = n -> zlen c = n ->
  small (pre ++ a ++ b ++ c) ->
  RotN n (pre ++ a ++ b ++ c) = (Ok tt, pre ++ b ++ c ++ a).
Proof.
  intros Hn Ha Hb Hc Hs. unfold RotN. destruct (Z.ltb_spec n 1); [lia|].
  rewrite (to_nat_zlen a) by done.
  rewrite (repeatM_roll pre a (b ++ c)); [by rewrite <- app_assoc| |zlia].
  rewrite !int32_id by (rewrite ?int32_id; zlia). zlia.
Qed.

Lemma SwapN_run n pre a b :
  1 <= n -> zlen a = n -> zlen b = n -> small (pre ++ a ++ b) ->
  SwapN n (pre ++ a ++ b) = (Ok tt, pre ++ b ++ a).
Proof.
  intros Hn Ha Hb Hs. unfold SwapN. destruct (Z.ltb_spec n 1); [lia|].
  rewrite (to_nat_zlen a) by done. apply repeatM_roll; [|done].
  rewrite !int32_id by (rewrite ?int32_id; zlia). zlia.
Qed.

Lemma OverN_run n pre a b :
  1 <= n -> zlen a = n -> zlen b = n -> small (pre ++ a ++ b ++ a) ->
  OverN n (pre ++ a ++ b) = (Ok tt, pre ++ a ++ b ++ a).
Proof.
  intros Hn Ha Hb Hs. unfold OverN. destruct (Z.ltb_spec n 1); [lia|].
  rewrite (to_nat_zlen a) by done. apply repeatM_copy; [|done].
  rewrite !int32_id by (rewrite ?int32_id; zlia). zlia.
Qed.

Lemma Tuck_run s x1 x2 :
  small (s ++ [x2; x1; x2]) -> Tuck (s ++ [x1; x2]) = (Ok tt, s ++ [x2; x1; x2]).
Proof.
  intros Hs. unfold Tuck. change [x1; x2] with ([x1] ++ [x2]). rewrite app_assoc.
  erewrite bind_ok by (apply PopByteArray_run; zlia).
  erewrite bind_ok by (apply PopByteArray_run; zlia).
  unfold PushByteArray, modify, bind. by rewrite <- !app_assoc.
Qed.

(** An operation that needs more items than the stack has fails on its first
    access and leaves the stack alone. *)
Lemma repeatM_first_err {E S} n (body : M E S unit) s e :
  (0 < n)%nat -> body s = (Err e, s) -> repeatM n body s = (Err e, s).
Proof. destruct n; [lia|]. intros _ H. cbn [repeatM]. by apply bind_err. Qed.

Lemma RotN_short n s :
  1 <= n -> 3 * n < 2 ^ 31 -> zlen s < 3 * n ->
  RotN n s = (Err (scriptError ErrInvalidStackOperation), s).
Proof.
  intros Hn Hb Hs. unfold RotN. destruct (Z.ltb_spec n 1); [lia|]. zlen_facts.
  apply repeatM_first_err; [lia|]. apply bind_err, nipN_out_of_range; [lia|].
  rewrite !int32_id by (rewrite ?int32_id; lia). lia.
Qed.

Lemma SwapN_short n s :
  1 <= n -> 2 * n < 2 ^ 31 -> zlen s < 2 * n ->
  SwapN n s = (Err (scriptError ErrInvalidStackOperation), s).
Proof.
  intros Hn Hb Hs. unfold SwapN. destruct (Z.ltb_spec n 1); [lia|]. zlen_facts.
  apply repeatM_first_err; [lia|]. apply bind_err, nipN_out_of_range; [lia|].
  rewrite !int32_id by (rewrite ?int32_id; lia). lia.
Qed.

Lemma OverN_short n s :
  1 <= n -> 2 * n < 2 ^ 31 -> zlen s < 2 * n ->
  OverN n s = (Err (scriptError ErrInvalidStackOperation), s).
Proof.
  intros Hn Hb Hs. unfold OverN. destruct (Z.ltb_spec n 1); [lia|]. zlen_facts.
  apply repeatM_first_err; [lia|]. apply bind_err, PeekByteArray_out_of_range; [lia|].
  rewrite !int32_id by (rewrite ?int32_id; lia). lia.
Qed.

Lemma DupN_short n s :
  1 <= n < 2 ^ 31 -> zlen s < n ->
  DupN n s = (Err (scriptError ErrInvalidStackOperation), s).
Proof.
  intros Hn Hs. unfold DupN. destruct (Z.ltb_spec n 1); [lia|]. zlen_facts.
  apply repeatM_first_err; [lia|]. apply bind_err, PeekByteArray_out_of_range; [lia|].
  rewrite !int32_id by lia. lia.
Qed.

(** * Properties *)

(** The stack transformations the comments of [stack.go] document, for
    every [n]: with [a], [b], [c] blocks of [n] items above [pre],
    [DropN] removes a block, [DupN] repeats it, [SwapN] exchanges two, [OverN]
    copies the lower of two to the top, [RotN] moves the lowest of three to
    the top. *)
Theorem stack_blocks_correct n pre a b c :
  1 <= n -> zlen a = n -> zlen b = n -> zlen c = n -> zlen pre + 3 * n < 2 ^ 31 ->
  DropN n (pre ++ a) = (Ok tt, pre) /\
  DupN n (pre ++ a) = (Ok tt, pre ++ a ++ a) /\
  SwapN n (pre ++ a ++ b) = (Ok tt, pre ++ b ++ a) /\
  OverN n (pre ++ a ++ b) = (Ok tt, pre ++ a ++ b ++ a) /\
  RotN n (pre ++ a ++ b ++ c) = (Ok tt, pre ++ b ++ c ++ a).
Proof.
  intros. repeat split;
    [apply DropN_run|apply DupN_run|apply SwapN_run|apply OverN_run|apply RotN_run];
    zlia.
Qed.

Lemma stack_blocks_correct_witness :
  DropN 2 [[1]; [2]; [3]] = (Ok tt, [[1]]) /\
  DupN 2 [[1]; [2]; [3]] = (Ok tt, [[1]; [2]; [3]; [2]; [3]]) /\
  SwapN 2 [[1]; [2]; [3]; [4]; [5]] = (Ok tt, [[1]; [4]; [5]; [2]; [3]]) /\
  OverN 2 [[1]; [2]; [3]; [4]; [5]] = (Ok tt, [[1]; [2]; [3]; [4]; [5]; [2]; [3]]) /\
  RotN 2 [[1]; [2]; [3]; [4]; [5]; [6]; [7]] =
    (Ok tt, [[1]; [4]; [5]; [6]; [7]; [2]; [3]]).
Proof.
  apply (stack_blocks_correct 2 [[1]] [[2]; [3]] [[4]; [5]] [[6]; [7]]);
    (reflexivity || (vm_compute; congruence)).
Defined.

(** An operation on more items than the stack holds returns
    [ErrInvalidStackOperation] and does not change the stack. *)
Theorem stack_blocks_short n s :
  1 <= n -> 3 * n < 2 ^ 31 ->
  (zlen s < n -> DupN n s = (Err (scriptError ErrInvalidStackOperation), s)) /\
  (zlen s < 2 * n -> SwapN n s = (Err (scriptError ErrInvalidStackOperation), s)) /\
  (zlen s < 2 * n -> OverN n s = (Err (scriptError ErrInvalidStackOperation), s)) /\
  (zlen s < 3 * n -> RotN n s = (Err (scriptError ErrInvalidStackOperation), s)).
Proof.
  intros. repeat split; intros;
    [apply DupN_short|apply SwapN_short|apply OverN_short|apply RotN_short]; lia.
Qed.

Lemma stack_blocks_short_witness :
  RotN 1 [[1]; [2]] = (Err (scriptError ErrInvalidStackOperation), [[1]; [2]]).
Proof. apply (stack_blocks_short 1 [[1]; [2]]); reflexivity || discriminate. Defined.
