(* ===== verification/Opcodes.v ===== *)
(** Opcodes: the table and the methods of [parsedOpcode] in
    [src/domain/consensus/utils/txscript/opcode.go].  The handlers, which act on
    the engine, are in [Engine]. *)

From S2P Require Import Prelude ScriptError.

(** * Opcode values *)

Definition Op0 : Z := 0x00.
Definition OpFalse : Z := 0x00.
Definition OpData1 : Z := 0x01.
Definition OpData2 : Z := 0x02.
Definition OpData3 : Z := 0x03.
Definition OpData4 : Z := 0x04.
Definition OpData5 : Z := 0x05.
Definition OpData6 : Z := 0x06.
Definition OpData7 : Z := 0x07.
Definition OpData8 : Z := 0x08.
Definition OpData9 : Z := 0x09.
Definition OpData10 : Z := 0x0a.
Definition OpData11 : Z := 0x0b.
Definition OpData12 : Z := 0x0c.
Definition OpData13 : Z := 0x0d.
Definition OpData14 : Z := 0x0e.
Definition OpData15 : Z := 0x0f.
Definition OpData16 : Z := 0x10.
Definition OpData17 : Z := 0x11.
Definition OpData18 : Z := 0x12.
Definition OpData19 : Z := 0x13.
Definition OpData20 : Z := 0x14.
Definition OpData21 : Z := 0x15.
Definition OpData22 : Z := 0x16.
Definition OpData23 : Z := 0x17.
Definition OpData24 : Z := 0x18.
Definition OpData25 : Z := 0x19.
Definition OpData26 : Z := 0x1a.
Definition OpData27 : Z := 0x1b.
Definition OpData28 : Z := 0x1c.
Definition OpData29 : Z := 0x1d.
Definition OpData30 : Z := 0x1e.
Definition OpData31 : Z := 0x1f.
Definition OpData32 : Z := 0x20.
Definition OpData33 : Z := 0x21.
Definition OpData34 : Z := 0x22.
Definition OpData35 : Z := 0x23.
Definition OpData36 : Z := 0x24.
Definition OpData37 : Z := 0x25.
Definition OpData38 : Z := 0x26.
Definition OpData39 : Z := 0x27.
Definition OpData40 : Z := 0x28.
Definition OpData41 : Z := 0x29.
Definition OpData42 : Z := 0x2a.
Definition OpData43 : Z := 0x2b.
Definition OpData44 : Z := 0x2c.
Definition OpData45 : Z := 0x2d.
Definition OpData46 : Z := 0x2e.
Definition OpData47 : Z := 0x2f.
Definition OpData48 : Z := 0x30.
Definition OpData49 : Z := 0x31.
Definition OpData50 : Z := 0x32.
Definition OpData51 : Z := 0x33.
Definition OpData52 : Z := 0x34.
Definition OpData53 : Z := 0x35.
Definition OpData54 : Z := 0x36.
Definition OpData55 : Z := 0x37.
Definition OpData56 : Z := 0x38.
Definition OpData57 : Z := 0x39.
Definition OpData58 : Z := 0x3a.
Definition OpData59 : Z := 0x3b.
Definition OpData60 : Z := 0x3c.
Definition OpData61 : Z := 0x3d.
Definition OpData62 : Z := 0x3e.
Definition OpData63 : Z := 0x3f.
Definition OpData64 : Z := 0x40.
Definition OpData65 : Z := 0x41.
Definition OpData66 : Z := 0x42.
Definition OpData67 : Z := 0x43.
Definition OpData68 : Z := 0x44.
Definition OpData69 : Z := 0x45.
Definition OpData70 : Z := 0x46.
Definition OpData71 : Z := 0x47.
Definition OpData72 : Z := 0x48.
Definition OpData73 : Z := 0x49.
Definition OpData74 : Z := 0x4a.
Definition OpData75 : Z := 0x4b.
Definition OpPushData1 : Z := 0x4c.
Definition OpPushData2 : Z := 0x4d.
Definition OpPushData4 : Z := 0x4e.
Definition Op1Negate : Z := 0x4f.
Definition OpReserved : Z := 0x50.
Definition Op1 : Z := 0x51.
Definition OpTrue : Z := 0x51.
Definition Op2 : Z := 0x52.
Definition Op3 : Z := 0x53.
Definition Op4 : Z := 0x54.
Definition Op5 : Z := 0x55.
Definition Op6 : Z := 0x56.
Definition Op7 : Z := 0x57.
Definition Op8 : Z := 0x58.
Definition Op9 : Z := 0x59.
Definition Op10 : Z := 0x5a.
Definition Op11 : Z := 0x5b.
Definition Op12 : Z := 0x5c.
Definition Op13 : Z := 0x5d.
Definition Op14 : Z := 0x5e.
Definition Op15 : Z := 0x5f.
Definition Op16 : Z := 0x60.
Definition OpNop : Z := 0x61.
Definition OpVer : Z := 0x62.
Definition OpIf : Z := 0x63.
Definition OpNotIf : Z := 0x64.
Definition OpVerIf : Z := 0x65.
Definition OpVerNotIf : Z := 0x66.
Definition OpElse : Z := 0x67.
Definition OpEndIf : Z := 0x68.
Definition OpVerify : Z := 0x69.
Definition OpReturn : Z := 0x6a.
Definition OpToAltStack : Z := 0x6b.
Definition OpFromAltStack : Z := 0x6c.
Definition Op2Drop : Z := 0x6d.
Definition Op2Dup : Z := 0x6e.
Definition Op3Dup : Z := 0x6f.
Definition Op2Over : Z := 0x70.
Definition Op2Rot : Z := 0x71.
Definition Op2Swap : Z := 0x72.
Definition OpIfDup : Z := 0x73.
Definition OpDepth : Z := 0x74.
Definition OpDrop : Z := 0x75.
Definition OpDup : Z := 0x76.
Definition OpNip : Z := 0x77.
Definition OpOver : Z := 0x78.
Definition OpPick : Z := 0x79.
Definition OpRoll : Z := 0x7a.
Definition OpRot : Z := 0x7b.
Definition OpSwap : Z := 0x7c.
Definition OpTuck : Z := 0x7d.
Definition OpCat : Z := 0x7e.
Definition OpSubStr : Z := 0x7f.
Definition OpLeft : Z := 0x80.
Definition OpRight : Z := 0x81.
Definition OpSize : Z := 0x82.
Definition OpInvert : Z := 0x83.
Definition OpAnd : Z := 0x84.
Definition OpOr : Z := 0x85.
Definition OpXor : Z := 0x86.
Definition OpEqual : Z := 0x87.
Definition OpEqualVerify : Z := 0x88.
Definition OpReserved1 : Z := 0x89.
Definition OpReserved2 : Z := 0x8a.
Definition Op1Add : Z := 0x8b.
Definition Op1Sub : Z := 0x8c.
Definition Op2Mul : Z := 0x8d.
Definition Op2Div : Z := 0x8e.
Definition OpNegate : Z := 0x8f.
Definition OpAbs : Z := 0x90.
Definition OpNot : Z := 0x91.
Definition Op0NotEqual : Z := 0x92.
Definition OpAdd : Z := 0x93.
Definition OpSub : Z := 0x94.
Definition OpMul : Z := 0x95.
Definition OpDiv : Z := 0x96.
Definition OpMod : Z := 0x97.
Definition OpLShift : Z := 0x98.
Definition OpRShift : Z := 0x99.
Definition OpBoolAnd : Z := 0x9a.
Definition OpBoolOr : Z := 0x9b.
Definition OpNumEqual : Z := 0x9c.
Definition OpNumEqualVerify : Z := 0x9d.
Definition OpNumNotEqual : Z := 0x9e.
Definition OpLessThan : Z := 0x9f.
Definition OpGreaterThan : Z := 0xa0.
Definition OpLessThanOrEqual : Z := 0xa1.
Definition OpGreaterThanOrEqual : Z := 0xa2.
Definition OpMin : Z := 0xa3.
Definition OpMax : Z := 0xa4.
Definition OpWithin : Z := 0xa5.
Definition OpUnknown166 : Z := 0xa6.
Definition OpUnknown167 : Z := 0xa7.
Definition OpSHA256 : Z := 0xa8.
Definition OpCheckMultiSigECDSA : Z := 0xa9.
Definition OpBlake2b : Z := 0xaa.
Definition OpCheckSigECDSA : Z := 0xab.
Definition OpCheckSig : Z := 0xac.
Definition OpCheckSigVerify : Z := 0xad.
Definition OpCheckMultiSig : Z := 0xae.
Definition OpCheckMultiSigVerify : Z := 0xaf.
Definition OpCheckLockTimeVerify : Z := 0xb0.
Definition OpCheckSequenceVerify : Z := 0xb1.
Definition OpUnknown178 : Z := 0xb2.
Definition OpUnknown179 : Z := 0xb3.
Definition OpUnknown180 : Z := 0xb4.
Definition OpUnknown181 : Z := 0xb5.
Definition OpUnknown182 : Z := 0xb6.
Definition OpUnknown183 : Z := 0xb7.
Definition OpUnknown184 : Z := 0xb8.
Definition OpUnknown185 : Z := 0xb9.
Definition OpUnknown186 : Z := 0xba.
Definition OpUnknown187 : Z := 0xbb.
Definition OpUnknown188 : Z := 0xbc.
Definition OpUnknown189 : Z := 0xbd.
Definition OpUnknown190 : Z := 0xbe.
Definition OpUnknown191 : Z := 0xbf.
Definition OpUnknown192 : Z := 0xc0.
Definition OpUnknown193 : Z := 0xc1.
Definition OpUnknown194 : Z := 0xc2.
Definition OpUnknown195 : Z := 0xc3.
Definition OpUnknown196 : Z := 0xc4.
Definition OpUnknown197 : Z := 0xc5.
Definition OpUnknown198 : Z := 0xc6.
Definition OpUnknown199 : Z := 0xc7.
Definition OpUnknown200 : Z := 0xc8.
Definition OpUnknown201 : Z := 0xc9.
Definition OpUnknown202 : Z := 0xca.
Definition OpUnknown203 : Z := 0xcb.
Definition OpUnknown204 : Z := 0xcc.
Definition OpUnknown205 : Z := 0xcd.
Definition OpUnknown206 : Z := 0xce.
Definition OpUnknown207 : Z := 0xcf.
Definition OpUnknown208 : Z := 0xd0.
Definition OpUnknown209 : Z := 0xd1.
Definition OpUnknown210 : Z := 0xd2.
Definition OpUnknown211 : Z := 0xd3.
Definition OpUnknown212 : Z := 0xd4.
Definition OpUnknown213 : Z := 0xd5.
Definition OpUnknown214 : Z := 0xd6.
Definition OpUnknown215 : Z := 0xd7.
Definition OpUnknown216 : Z := 0xd8.
Definition OpUnknown217 : Z := 0xd9.
Definition OpUnknown218 : Z := 0xda.
Definition OpUnknown219 : Z := 0xdb.
Definition OpUnknown220 : Z := 0xdc.
Definition OpUnknown221 : Z := 0xdd.
Definition OpUnknown222 : Z := 0xde.
Definition OpUnknown223 : Z := 0xdf.
Definition OpUnknown224 : Z := 0xe0.
Definition OpUnknown225 : Z := 0xe1.
Definition OpUnknown226 : Z := 0xe2.
Definition OpUnknown227 : Z := 0xe3.
Definition OpUnknown228 : Z := 0xe4.
Definition OpUnknown229 : Z := 0xe5.
Definition OpUnknown230 : Z := 0xe6.
Definition OpUnknown231 : Z := 0xe7.
Definition OpUnknown232 : Z := 0xe8.
Definition OpUnknown233 : Z := 0xe9.
Definition OpUnknown234 : Z := 0xea.
Definition OpUnknown235 : Z := 0xeb.
Definition OpUnknown236 : Z := 0xec.
Definition OpUnknown237 : Z := 0xed.
Definition OpUnknown238 : Z := 0xee.
Definition OpUnknown239 : Z := 0xef.
Definition OpUnknown240 : Z := 0xf0.
Definition OpUnknown241 : Z := 0xf1.
Definition OpUnknown242 : Z := 0xf2.
Definition OpUnknown243 : Z := 0xf3.
Definition OpUnknown244 : Z := 0xf4.
Definition OpUnknown245 : Z := 0xf5.
Definition OpUnknown246 : Z := 0xf6.
Definition OpUnknown247 : Z := 0xf7.
Definition OpUnknown248 : Z := 0xf8.
Definition OpUnknown249 : Z := 0xf9.
Definition OpSmallInteger : Z := 0xfa.
Definition OpPubKeys : Z := 0xfb.
Definition OpUnknown252 : Z := 0xfc.
Definition OpPubKeyHash : Z := 0xfd.
Definition OpPubKey : Z := 0xfe.
Definition OpInvalidOpCode : Z := 0xff.

(** Conditional execution constants. *)
Definition OpCondFalse : Z := 0.
Definition OpCondTrue : Z := 1.
Definition OpCondSkip : Z := 2.

(** The handlers the table refers to, by name; [Engine.opfunc_run] maps each
    name to its handler.  (The source stores the function itself; a record that
    held a function on engines, which hold opcodes, would not be a well-founded
    type.) *)
Inductive OpFunc : Set :=
| F_opcodeFalse
| F_opcodePushData
| F_opcode1Negate
| F_opcodeReserved
| F_opcodeN
| F_opcodeNop
| F_opcodeIf
| F_opcodeNotIf
| F_opcodeElse
| F_opcodeEndif
| F_opcodeVerify
| F_opcodeReturn
| F_opcodeCheckLockTimeVerify
| F_opcodeCheckSequenceVerify
| F_opcodeToAltStack
| F_opcodeFromAltStack
| F_opcode2Drop
| F_opcode2Dup
| F_opcode3Dup
| F_opcode2Over
| F_opcode2Rot
| F_opcode2Swap
| F_opcodeIfDup
| F_opcodeDepth
| F_opcodeDrop
| F_opcodeDup
| F_opcodeNip
| F_opcodeOver
| F_opcodePick
| F_opcodeRoll
| F_opcodeRot
| F_opcodeSwap
| F_opcodeTuck
| F_opcodeDisabled
| F_opcodeSize
| F_opcodeEqual
| F_opcodeEqualVerify
| F_opcode1Add
| F_opcode1Sub
| F_opcodeNegate
| F_opcodeAbs
| F_opcodeNot
| F_opcode0NotEqual
| F_opcodeAdd
| F_opcodeSub
| F_opcodeBoolAnd
| F_opcodeBoolOr
| F_opcodeNumEqual
| F_opcodeNumEqualVerify
| F_opcodeNumNotEqual
| F_opcodeLessThan
| F_opcodeGreaterThan
| F_opcodeLessThanOrEqual
| F_opcodeGreaterThanOrEqual
| F_opcodeMin
| F_opcodeMax
| F_opcodeWithin
| F_opcodeCheckMultiSigECDSA
| F_opcodeSha256
| F_opcodeBlake2b
| F_opcodeCheckSigECDSA
| F_opcodeCheckSig
| F_opcodeCheckSigVerify
| F_opcodeCheckMultiSig
| F_opcodeCheckMultiSigVerify
| F_opcodeInvalid.

Record opcode : Set := mk_opcode {
  op_value : Z;
  op_name : string;
  op_length : Z;
  op_func : OpFunc
}.

#[global] Instance OpFunc_eq_dec : EqDecision OpFunc.
Proof. solve_decision. Defined.

#[global] Instance opcode_eq_dec : EqDecision opcode.
Proof. solve_decision. Defined.

(** * The opcode table

    The composite literal [opcodeArray] of the source, as a list of keyed
    entries. *)

Definition opcodeArray_push : list (Z * opcode) :=
  [ (OpFalse, mk_opcode OpFalse "OP_0" 1 F_opcodeFalse)
  ; (OpData1, mk_opcode OpData1 "OP_DATA_1" 2 F_opcodePushData)
  ; (OpData2, mk_opcode OpData2 "OP_DATA_2" 3 F_opcodePushData)
  ; (OpData3, mk_opcode OpData3 "OP_DATA_3" 4 F_opcodePushData)
  ; (OpData4, mk_opcode OpData4 "OP_DATA_4" 5 F_opcodePushData)
  ; (OpData5, mk_opcode OpData5 "OP_DATA_5" 6 F_opcodePushData)
  ; (OpData6, mk_opcode OpData6 "OP_DATA_6" 7 F_opcodePushData)
  ; (OpData7, mk_opcode OpData7 "OP_DATA_7" 8 F_opcodePushData)
  ; (OpData8, mk_opcode OpData8 "OP_DATA_8" 9 F_opcodePushData)
  ; (OpData9, mk_opcode OpData9 "OP_DATA_9" 10 F_opcodePushData)
  ; (OpData10, mk_opcode OpData10 "OP_DATA_10" 11 F_opcodePushData)
  ; (OpData11, mk_opcode OpData11 "OP_DATA_11" 12 F_opcodePushData)
  ; (OpData12, mk_opcode OpData12 "OP_DATA_12" 13 F_opcodePushData)
  ; (OpData13, mk_opcode OpData13 "OP_DATA_13" 14 F_opcodePushData)
  ; (OpData14, mk_opcode OpData14 "OP_DATA_14" 15 F_opcodePushData)
  ; (OpData15, mk_opcode OpData15 "OP_DATA_15" 16 F_opcodePushData)
  ; (OpData16, mk_opcode OpData16 "OP_DATA_16" 17 F_opcodePushData)
  ; (OpData17, mk_opcode OpData17 "OP_DATA_17" 18 F_opcodePushData)
  ; (OpData18, mk_opcode OpData18 "OP_DATA_18" 19 F_opcodePushData)
  ; (OpData19, mk_opcode OpData19 "OP_DATA_19" 20 F_opcodePushData)
  ; (OpData20, mk_opcode OpData20 "OP_DATA_20" 21 F_opcodePushData)
  ; (OpData21, mk_opcode OpData21 "OP_DATA_21" 22 F_opcodePushData)
  ; (OpData22, mk_opcode OpData22 "OP_DATA_22" 23 F_opcodePushData)
  ; (OpData23, mk_opcode OpData23 "OP_DATA_23" 24 F_opcodePushData)
  ; (OpData24, mk_opcode OpData24 "OP_DATA_24" 25 F_opcodePushData)
  ; (OpData25, mk_opcode OpData25 "OP_DATA_25" 26 F_opcodePushData)
  ; (OpData26, mk_opcode OpData26 "OP_DATA_26" 27 F_opcodePushData)
  ; (OpData27, mk_opcode OpData27 "OP_DATA_27" 28 F_opcodePushData)
  ; (OpData28, mk_opcode OpData28 "OP_DATA_28" 29 F_opcodePushData)
  ; (OpData29, mk_opcode OpData29 "OP_DATA_29" 30 F_opcodePushData)
  ; (OpData30, mk_opcode OpData30 "OP_DATA_30" 31 F_opcodePushData)
  ; (OpData31, mk_opcode OpData31 "OP_DATA_31" 32 F_opcodePushData)
  ; (OpData32, mk_opcode OpData32 "OP_DATA_32" 33 F_opcodePushData)
  ; (OpData33, mk_opcode OpData33 "OP_DATA_33" 34 F_opcodePushData)
  ; (OpData34, mk_opcode OpData34 "OP_DATA_34" 35 F_opcodePushData)
  ; (OpData35, mk_opcode OpData35 "OP_DATA_35" 36 F_opcodePushData)
  ; (OpData36, mk_opcode OpData36 "OP_DATA_36" 37 F_opcodePushData)
  ; (OpData37, mk_opcode OpData37 "OP_DATA_37" 38 F_opcodePushData)
  ; (OpData38, mk_opcode OpData38 "OP_DATA_38" 39 F_opcodePushData)
  ; (OpData39, mk_opcode OpData39 "OP_DATA_39" 40 F_opcodePushData)
  ; (OpData40, mk_opcode OpData40 "OP_DATA_40" 41 F_opcodePushData)
  ; (OpData41, mk_opcode OpData41 "OP_DATA_41" 42 F_opcodePushData)
  ; (OpData42, mk_opcode OpData42 "OP_DATA_42" 43 F_opcodePushData)
  ; (OpData43, mk_opcode OpData43 "OP_DATA_43" 44 F_opcodePushData)
  ; (OpData44, mk_opcode OpData44 "OP_DATA_44" 45 F_opcodePushData)
  ; (OpData45, mk_opcode OpData45 "OP_DATA_45" 46 F_opcodePushData)
  ; (OpData46, mk_opcode OpData46 "OP_DATA_46" 47 F_opcodePushData)
  ; (OpData47, mk_opcode OpData47 "OP_DATA_47" 48 F_opcodePushData)
  ; (OpData48, mk_opcode OpData48 "OP_DATA_48" 49 F_opcodePushData)
  ; (OpData49, mk_opcode OpData49 "OP_DATA_49" 50 F_opcodePushData)
  ; (OpData50, mk_opcode OpData50 "OP_DATA_50" 51 F_opcodePushData)
  ; (OpData51, mk_opcode OpData51 "OP_DATA_51" 52 F_opcodePushData)
  ; (OpData52, mk_opcode OpData52 "OP_DATA_52" 53 F_opcodePushData)
  ; (OpData53, mk_opcode OpData53 "OP_DATA_53" 54 F_opcodePushData)
  ; (OpData54, mk_opcode OpData54 "OP_DATA_54" 55 F_opcodePushData)
  ; (OpData55, mk_opcode OpData55 "OP_DATA_55" 56 F_opcodePushData)
  ; (OpData56, mk_opcode OpData56 "OP_DATA_56" 57 F_opcodePushData)
  ; (OpData57, mk_opcode OpData57 "OP_DATA_57" 58 F_opcodePushData)
  ; (OpData58, mk_opcode OpData58 "OP_DATA_58" 59 F_opcodePushData)
  ; (OpData59, mk_opcode OpData59 "OP_DATA_59" 60 F_opcodePushData)
  ; (OpData60, mk_opcode OpData60 "OP_DATA_60" 61 F_opcodePushData)
  ; (OpData61, mk_opcode OpData61 "OP_DATA_61" 62 F_opcodePushData)
  ; (OpData62, mk_opcode OpData62 "OP_DATA_62" 63 F_opcodePushData)
  ; (OpData63, mk_opcode OpData63 "OP_DATA_63" 64 F_opcodePushData)
  ; (OpData64, mk_opcode OpData64 "OP_DATA_64" 65 F_opcodePushData)
  ; (OpData65, mk_opcode OpData65 "OP_DATA_65" 66 F_opcodePushData)
  ; (OpData66, mk_opcode OpData66 "OP_DATA_66" 67 F_opcodePushData)
  ; (OpData67, mk_opcode OpData67 "OP_DATA_67" 68 F_opcodePushData)
  ; (OpData68, mk_opcode OpData68 "OP_DATA_68" 69 F_opcodePushData)
  ; (OpData69, mk_opcode OpData69 "OP_DATA_69" 70 F_opcodePushData)
  ; (OpData70, mk_opcode OpData70 "OP_DATA_70" 71 F_opcodePushData)
  ; (OpData71, mk_opcode OpData71 "OP_DATA_71" 72 F_opcodePushData)
  ; (OpData72, mk_opcode OpData72 "OP_DATA_72" 73 F_opcodePushData)
  ; (OpData73, mk_opcode OpData73 "OP_DATA_73" 74 F_opcodePushData)
  ; (OpData74, mk_opcode OpData74 "OP_DATA_74" 75 F_opcodePushData)
  ; (OpData75, mk_opcode OpData75 "OP_DATA_75" 76 F_opcodePushData)
  ; (OpPushData1, mk_opcode OpPushData1 "OP_PUSHDATA1" (-1) F_opcodePushData)
  ; (OpPushData2, mk_opcode OpPushData2 "OP_PUSHDATA2" (-2) F_opcodePushData)
  ; (OpPushData4, mk_opcode OpPushData4 "OP_PUSHDATA4" (-4) F_opcodePushData)
  ; (Op1Negate, mk_opcode Op1Negate "OP_1NEGATE" 1 F_opcode1Negate)
  ; (OpReserved, mk_opcode OpReserved "OP_RESERVED" 1 F_opcodeReserved)
  ; (OpTrue, mk_opcode OpTrue "OP_1" 1 F_opcodeN)
  ; (Op2, mk_opcode Op2 "OP_2" 1 F_opcodeN)
  ; (Op3, mk_opcode Op3 "OP_3" 1 F_opcodeN)
  ; (Op4, mk_opcode Op4 "OP_4" 1 F_opcodeN)
  ; (Op5, mk_opcode Op5 "OP_5" 1 F_opcodeN)
  ; (Op6, mk_opcode Op6 "OP_6" 1 F_opcodeN)
  ; (Op7, mk_opcode Op7 "OP_7" 1 F_opcodeN)
  ; (Op8, mk_opcode Op8 "OP_8" 1 F_opcodeN)
  ; (Op9, mk_opcode Op9 "OP_9" 1 F_opcodeN)
  ; (Op10, mk_opcode Op10 "OP_10" 1 F_opcodeN)
  ; (Op11, mk_opcode Op11 "OP_11" 1 F_opcodeN)
  ; (Op12, mk_opcode Op12 "OP_12" 1 F_opcodeN)
  ; (Op13, mk_opcode Op13 "OP_13" 1 F_opcodeN)
  ; (Op14, mk_opcode Op14 "OP_14" 1 F_opcodeN)
  ; (Op15, mk_opcode Op15 "OP_15" 1 F_opcodeN)
  ; (Op16, mk_opcode Op16 "OP_16" 1 F_opcodeN)
  ].

Definition opcodeArray_ops : list (Z * opcode) :=
  [ (OpNop, mk_opcode OpNop "OP_NOP" 1 F_opcodeNop)
  ; (OpVer, mk_opcode OpVer "OP_VER" 1 F_opcodeReserved)
  ; (OpIf, mk_opcode OpIf "OP_IF" 1 F_opcodeIf)
  ; (OpNotIf, mk_opcode OpNotIf "OP_NOTIF" 1 F_opcodeNotIf)
  ; (OpVerIf, mk_opcode OpVerIf "OP_VERIF" 1 F_opcodeReserved)
  ; (OpVerNotIf, mk_opcode OpVerNotIf "OP_VERNOTIF" 1 F_opcodeReserved)
  ; (OpElse, mk_opcode OpElse "OP_ELSE" 1 F_opcodeElse)
  ; (OpEndIf, mk_opcode OpEndIf "OP_ENDIF" 1 F_opcodeEndif)
  ; (OpVerify, mk_opcode OpVerify "OP_VERIFY" 1 F_opcodeVerify)
  ; (OpReturn, mk_opcode OpReturn "OP_RETURN" 1 F_opcodeReturn)
  ; (OpCheckLockTimeVerify, mk_opcode OpCheckLockTimeVerify "OP_CHECKLOCKTIMEVERIFY" 1 F_opcodeCheckLockTimeVerify)
  ; (OpCheckSequenceVerify, mk_opcode OpCheckSequenceVerify "OP_CHECKSEQUENCEVERIFY" 1 F_opcodeCheckSequenceVerify)
  ; (OpToAltStack, mk_opcode OpToAltStack "OP_TOALTSTACK" 1 F_opcodeToAltStack)
  ; (OpFromAltStack, mk_opcode OpFromAltStack "OP_FROMALTSTACK" 1 F_opcodeFromAltStack)
  ; (Op2Drop, mk_opcode Op2Drop "OP_2DROP" 1 F_opcode2Drop)
  ; (Op2Dup, mk_opcode Op2Dup "OP_2DUP" 1 F_opcode2Dup)
  ; (Op3Dup, mk_opcode Op3Dup "OP_3DUP" 1 F_opcode3Dup)
  ; (Op2Over, mk_opcode Op2Over "OP_2OVER" 1 F_opcode2Over)
  ; (Op2Rot, mk_opcode Op2Rot "OP_2ROT" 1 F_opcode2Rot)
  ; (Op2Swap, mk_opcode Op2Swap "OP_2SWAP" 1 F_opcode2Swap)
  ; (OpIfDup, mk_opcode OpIfDup "OP_IFDUP" 1 F_opcodeIfDup)
  ; (OpDepth, mk_opcode OpDepth "OP_DEPTH" 1 F_opcodeDepth)
  ; (OpDrop, mk_opcode OpDrop "OP_DROP" 1 F_opcodeDrop)
  ; (OpDup, mk_opcode OpDup "OP_DUP" 1 F_opcodeDup)
  ; (OpNip, mk_opcode OpNip "OP_NIP" 1 F_opcodeNip)
  ; (OpOver, mk_opcode OpOver "OP_OVER" 1 F_opcodeOver)
  ; (OpPick, mk_opcode OpPick "OP_PICK" 1 F_opcodePick)
  ; (OpRoll, mk_opcode OpRoll "OP_ROLL" 1 F_opcodeRoll)
  ; (OpRot, mk_opcode OpRot "OP_ROT" 1 F_opcodeRot)
  ; (OpSwap, mk_opcode OpSwap "OP_SWAP" 1 F_opcodeSwap)
  ; (OpTuck, mk_opcode OpTuck "OP_TUCK" 1 F_opcodeTuck)
  ; (OpCat, mk_opcode OpCat "OP_CAT" 1 F_opcodeDisabled)
  ; (OpSubStr, mk_opcode OpSubStr "OP_SUBSTR" 1 F_opcodeDisabled)
  ; (OpLeft, mk_opcode OpLeft "OP_LEFT" 1 F_opcodeDisabled)
  ; (OpRight, mk_opcode OpRight "OP_RIGHT" 1 F_opcodeDisabled)
  ; (OpSize, mk_opcode OpSize "OP_SIZE" 1 F_opcodeSize)
  ; (OpInvert, mk_opcode OpInvert "OP_INVERT" 1 F_opcodeDisabled)
  ; (OpAnd, mk_opcode OpAnd "OP_AND" 1 F_opcodeDisabled)
  ; (OpOr, mk_opcode OpOr "OP_OR" 1 F_opcodeDisabled)
  ; (OpXor, mk_opcode OpXor "OP_XOR" 1 F_opcodeDisabled)
  ; (OpEqual, mk_opcode OpEqual "OP_EQUAL" 1 F_opcodeEqual)
  ; (OpEqualVerify, mk_opcode OpEqualVerify "OP_EQUALVERIFY" 1 F_opcodeEqualVerify)
  ; (OpReserved1, mk_opcode OpReserved1 "OP_RESERVED1" 1 F_opcodeReserved)
  ; (OpReserved2, mk_opcode OpReserved2 "OP_RESERVED2" 1 F_opcodeReserved)
  ; (Op1Add, mk_opcode Op1Add "OP_1ADD" 1 F_opcode1Add)
  ; (Op1Sub, mk_opcode Op1Sub "OP_1SUB" 1 F_opcode1Sub)
  ; (Op2Mul, mk_opcode Op2Mul "OP_2MUL" 1 F_opcodeDisabled)
  ; (Op2Div, mk_opcode Op2Div "OP_2DIV" 1 F_opcodeDisabled)
  ; (OpNegate, mk_opcode OpNegate "OP_NEGATE" 1 F_opcodeNegate)
  ; (OpAbs, mk_opcode OpAbs "OP_ABS" 1 F_opcodeAbs)
  ; (OpNot, mk_opcode OpNot "OP_NOT" 1 F_opcodeNot)
  ; (Op0NotEqual, mk_opcode Op0NotEqual "OP_0NOTEQUAL" 1 F_opcode0NotEqual)
  ; (OpAdd, mk_opcode OpAdd "OP_ADD" 1 F_opcodeAdd)
  ; (OpSub, mk_opcode OpSub "OP_SUB" 1 F_opcodeSub)
  ; (OpMul, mk_opcode OpMul "OP_MUL" 1 F_opcodeDisabled)
  ; (OpDiv, mk_opcode OpDiv "OP_DIV" 1 F_opcodeDisabled)
  ; (OpMod, mk_opcode OpMod "OP_MOD" 1 F_opcodeDisabled)
  ; (OpLShift, mk_opcode OpLShift "OP_LSHIFT" 1 F_opcodeDisabled)
  ; (OpRShift, mk_opcode OpRShift "OP_RSHIFT" 1 F_opcodeDisabled)
  ; (OpBoolAnd, mk_opcode OpBoolAnd "OP_BOOLAND" 1 F_opcodeBoolAnd)
  ; (OpBoolOr, mk_opcode OpBoolOr "OP_BOOLOR" 1 F_opcodeBoolOr)
  ; (OpNumEqual, mk_opcode OpNumEqual "OP_NUMEQUAL" 1 F_opcodeNumEqual)
  ; (OpNumEqualVerify, mk_opcode OpNumEqualVerify "OP_NUMEQUALVERIFY" 1 F_opcodeNumEqualVerify)
  ; (OpNumNotEqual, mk_opcode OpNumNotEqual "OP_NUMNOTEQUAL" 1 F_opcodeNumNotEqual)
  ; (OpLessThan, mk_opcode OpLessThan "OP_LESSTHAN" 1 F_opcodeLessThan)
  ; (OpGreaterThan, mk_opcode OpGreaterThan "OP_GREATERTHAN" 1 F_opcodeGreaterThan)
  ; (OpLessThanOrEqual, mk_opcode OpLessThanOrEqual "OP_LESSTHANOREQUAL" 1 F_opcodeLessThanOrEqual)
  ; (OpGreaterThanOrEqual, mk_opcode OpGreaterThanOrEqual "OP_GREATERTHANOREQUAL" 1 F_opcodeGreaterThanOrEqual)
  ; (OpMin, mk_opcode OpMin "OP_MIN" 1 F_opcodeMin)
  ; (OpMax, mk_opcode OpMax "OP_MAX" 1 F_opcodeMax)
  ; (OpWithin, mk_opcode OpWithin "OP_WITHIN" 1 F_opcodeWithin)
  ; (OpCheckMultiSigECDSA, mk_opcode OpCheckMultiSigECDSA "OP_CHECKMULTISIGECDSA" 1 F_opcodeCheckMultiSigECDSA)
  ; (OpSHA256, mk_opcode OpSHA256 "OP_SHA256" 1 F_opcodeSha256)
  ; (OpBlake2b, mk_opcode OpBlake2b "OP_BLAKE2B" 1 F_opcodeBlake2b)
  ; (OpCheckSigECDSA, mk_opcode OpCheckSigECDSA "OP_CHECKSIGECDSA" 1 F_opcodeCheckSigECDSA)
  ; (OpCheckSig, mk_opcode OpCheckSig "OP_CHECKSIG" 1 F_opcodeCheckSig)
  ; (OpCheckSigVerify, mk_opcode OpCheckSigVerify "OP_CHECKSIGVERIFY" 1 F_opcodeCheckSigVerify)
  ; (OpCheckMultiSig, mk_opcode OpCheckMultiSig "OP_CHECKMULTISIG" 1 F_opcodeCheckMultiSig)
  ; (OpCheckMultiSigVerify, mk_opcode OpCheckMultiSigVerify "OP_CHECKMULTISIGVERIFY" 1 F_opcodeCheckMultiSigVerify)
  ].

Definition opcodeArray_undefined : list (Z * opcode) :=
  [ (OpUnknown166, mk_opcode OpUnknown166 "OP_UNKNOWN166" 1 F_opcodeInvalid)
  ; (OpUnknown167, mk_opcode OpUnknown167 "OP_UNKNOWN167" 1 F_opcodeInvalid)
  ; (OpUnknown178, mk_opcode OpUnknown188 "OP_UNKNOWN178" 1 F_opcodeInvalid)
  ; (OpUnknown179, mk_opcode OpUnknown189 "OP_UNKNOWN179" 1 F_opcodeInvalid)
  ; (OpUnknown180, mk_opcode OpUnknown190 "OP_UNKNOWN180" 1 F_opcodeInvalid)
  ; (OpUnknown181, mk_opcode OpUnknown191 "OP_UNKNOWN181" 1 F_opcodeInvalid)
  ; (OpUnknown182, mk_opcode OpUnknown192 "OP_UNKNOWN182" 1 F_opcodeInvalid)
  ; (OpUnknown183, mk_opcode OpUnknown193 "OP_UNKNOWN183" 1 F_opcodeInvalid)
  ; (OpUnknown184, mk_opcode OpUnknown194 "OP_UNKNOWN184" 1 F_opcodeInvalid)
  ; (OpUnknown185, mk_opcode OpUnknown195 "OP_UNKNOWN185" 1 F_opcodeInvalid)
  ; (OpUnknown186, mk_opcode OpUnknown196 "OP_UNKNOWN186" 1 F_opcodeInvalid)
  ; (OpUnknown187, mk_opcode OpUnknown197 "OP_UNKNOWN187" 1 F_opcodeInvalid)
  ; (OpUnknown188, mk_opcode OpUnknown188 "OP_UNKNOWN188" 1 F_opcodeInvalid)
  ; (OpUnknown189, mk_opcode OpUnknown189 "OP_UNKNOWN189" 1 F_opcodeInvalid)
  ; (OpUnknown190, mk_opcode OpUnknown190 "OP_UNKNOWN190" 1 F_opcodeInvalid)
  ; (OpUnknown191, mk_opcode OpUnknown191 "OP_UNKNOWN191" 1 F_opcodeInvalid)
  ; (OpUnknown192, mk_opcode OpUnknown192 "OP_UNKNOWN192" 1 F_opcodeInvalid)
  ; (OpUnknown193, mk_opcode OpUnknown193 "OP_UNKNOWN193" 1 F_opcodeInvalid)
  ; (OpUnknown194, mk_opcode OpUnknown194 "OP_UNKNOWN194" 1 F_opcodeInvalid)
  ; (OpUnknown195, mk_opcode OpUnknown195 "OP_UNKNOWN195" 1 F_opcodeInvalid)
  ; (OpUnknown196, mk_opcode OpUnknown196 "OP_UNKNOWN196" 1 F_opcodeInvalid)
  ; (OpUnknown197, mk_opcode OpUnknown197 "OP_UNKNOWN197" 1 F_opcodeInvalid)
  ; (OpUnknown198, mk_opcode OpUnknown198 "OP_UNKNOWN198" 1 F_opcodeInvalid)
  ; (OpUnknown199, mk_opcode OpUnknown199 "OP_UNKNOWN199" 1 F_opcodeInvalid)
  ; (OpUnknown200, mk_opcode OpUnknown200 "OP_UNKNOWN200" 1 F_opcodeInvalid)
  ; (OpUnknown201, mk_opcode OpUnknown201 "OP_UNKNOWN201" 1 F_opcodeInvalid)
  ; (OpUnknown202, mk_opcode OpUnknown202 "OP_UNKNOWN202" 1 F_opcodeInvalid)
  ; (OpUnknown203, mk_opcode OpUnknown203 "OP_UNKNOWN203" 1 F_opcodeInvalid)
  ; (OpUnknown204, mk_opcode OpUnknown204 "OP_UNKNOWN204" 1 F_opcodeInvalid)
  ; (OpUnknown205, mk_opcode OpUnknown205 "OP_UNKNOWN205" 1 F_opcodeInvalid)
  ; (OpUnknown206, mk_opcode OpUnknown206 "OP_UNKNOWN206" 1 F_opcodeInvalid)
  ; (OpUnknown207, mk_opcode OpUnknown207 "OP_UNKNOWN207" 1 F_opcodeInvalid)
  ; (OpUnknown208, mk_opcode OpUnknown208 "OP_UNKNOWN208" 1 F_opcodeInvalid)
  ; (OpUnknown209, mk_opcode OpUnknown209 "OP_UNKNOWN209" 1 F_opcodeInvalid)
  ; (OpUnknown210, mk_opcode OpUnknown210 "OP_UNKNOWN210" 1 F_opcodeInvalid)
  ; (OpUnknown211, mk_opcode OpUnknown211 "OP_UNKNOWN211" 1 F_opcodeInvalid)
  ; (OpUnknown212, mk_opcode OpUnknown212 "OP_UNKNOWN212" 1 F_opcodeInvalid)
  ; (OpUnknown213, mk_opcode OpUnknown213 "OP_UNKNOWN213" 1 F_opcodeInvalid)
  ; (OpUnknown214, mk_opcode OpUnknown214 "OP_UNKNOWN214" 1 F_opcodeInvalid)
  ; (OpUnknown215, mk_opcode OpUnknown215 "OP_UNKNOWN215" 1 F_opcodeInvalid)
  ; (OpUnknown216, mk_opcode OpUnknown216 "OP_UNKNOWN216" 1 F_opcodeInvalid)
  ; (OpUnknown217, mk_opcode OpUnknown217 "OP_UNKNOWN217" 1 F_opcodeInvalid)
  ; (OpUnknown218, mk_opcode OpUnknown218 "OP_UNKNOWN218" 1 F_opcodeInvalid)
  ; (OpUnknown219, mk_opcode OpUnknown219 "OP_UNKNOWN219" 1 F_opcodeInvalid)
  ; (OpUnknown220, mk_opcode OpUnknown220 "OP_UNKNOWN220" 1 F_opcodeInvalid)
  ; (OpUnknown221, mk_opcode OpUnknown221 "OP_UNKNOWN221" 1 F_opcodeInvalid)
  ; (OpUnknown222, mk_opcode OpUnknown222 "OP_UNKNOWN222" 1 F_opcodeInvalid)
  ; (OpUnknown223, mk_opcode OpUnknown223 "OP_UNKNOWN223" 1 F_opcodeInvalid)
  ; (OpUnknown224, mk_opcode OpUnknown224 "OP_UNKNOWN224" 1 F_opcodeInvalid)
  ; (OpUnknown225, mk_opcode OpUnknown225 "OP_UNKNOWN225" 1 F_opcodeInvalid)
  ; (OpUnknown226, mk_opcode OpUnknown226 "OP_UNKNOWN226" 1 F_opcodeInvalid)
  ; (OpUnknown227, mk_opcode OpUnknown227 "OP_UNKNOWN227" 1 F_opcodeInvalid)
  ; (OpUnknown228, mk_opcode OpUnknown228 "OP_UNKNOWN228" 1 F_opcodeInvalid)
  ; (OpUnknown229, mk_opcode OpUnknown229 "OP_UNKNOWN229" 1 F_opcodeInvalid)
  ; (OpUnknown230, mk_opcode OpUnknown230 "OP_UNKNOWN230" 1 F_opcodeInvalid)
  ; (OpUnknown231, mk_opcode OpUnknown231 "OP_UNKNOWN231" 1 F_opcodeInvalid)
  ; (OpUnknown232, mk_opcode OpUnknown232 "OP_UNKNOWN232" 1 F_opcodeInvalid)
  ; (OpUnknown233, mk_opcode OpUnknown233 "OP_UNKNOWN233" 1 F_opcodeInvalid)
  ; (OpUnknown234, mk_opcode OpUnknown234 "OP_UNKNOWN234" 1 F_opcodeInvalid)
  ; (OpUnknown235, mk_opcode OpUnknown235 "OP_UNKNOWN235" 1 F_opcodeInvalid)
  ; (OpUnknown236, mk_opcode OpUnknown236 "OP_UNKNOWN236" 1 F_opcodeInvalid)
  ; (OpUnknown237, mk_opcode OpUnknown237 "OP_UNKNOWN237" 1 F_opcodeInvalid)
  ; (OpUnknown238, mk_opcode OpUnknown238 "OP_UNKNOWN238" 1 F_opcodeInvalid)
  ; (OpUnknown239, mk_opcode OpUnknown239 "OP_UNKNOWN239" 1 F_opcodeInvalid)
  ; (OpUnknown240, mk_opcode OpUnknown240 "OP_UNKNOWN240" 1 F_opcodeInvalid)
  ; (OpUnknown241, mk_opcode OpUnknown241 "OP_UNKNOWN241" 1 F_opcodeInvalid)
  ; (OpUnknown242, mk_opcode OpUnknown242 "OP_UNKNOWN242" 1 F_opcodeInvalid)
  ; (OpUnknown243, mk_opcode OpUnknown243 "OP_UNKNOWN243" 1 F_opcodeInvalid)
  ; (OpUnknown244, mk_opcode OpUnknown244 "OP_UNKNOWN244" 1 F_opcodeInvalid)
  ; (OpUnknown245, mk_opcode OpUnknown245 "OP_UNKNOWN245" 1 F_opcodeInvalid)
  ; (OpUnknown246, mk_opcode OpUnknown246 "OP_UNKNOWN246" 1 F_opcodeInvalid)
  ; (OpUnknown247, mk_opcode OpUnknown247 "OP_UNKNOWN247" 1 F_opcodeInvalid)
  ; (OpUnknown248, mk_opcode OpUnknown248 "OP_UNKNOWN248" 1 F_opcodeInvalid)
  ; (OpUnknown249, mk_opcode OpUnknown249 "OP_UNKNOWN249" 1 F_opcodeInvalid)
  ; (OpSmallInteger, mk_opcode OpSmallInteger "OP_SMALLINTEGER" 1 F_opcodeInvalid)
  ; (OpPubKeys, mk_opcode OpPubKeys "OP_PUBKEYS" 1 F_opcodeInvalid)
  ; (OpUnknown252, mk_opcode OpUnknown252 "OP_UNKNOWN252" 1 F_opcodeInvalid)
  ; (OpPubKeyHash, mk_opcode OpPubKeyHash "OP_PUBKEYHASH" 1 F_opcodeInvalid)
  ; (OpPubKey, mk_opcode OpPubKey "OP_PUBKEY" 1 F_opcodeInvalid)
  ; (OpInvalidOpCode, mk_opcode OpInvalidOpCode "OP_INVALIDOPCODE" 1 F_opcodeInvalid)
  ].
(** The zero value of the struct, for indexes the literal leaves out. *)
Definition zero_opcode : opcode := mk_opcode 0 EmptyString 0 F_opcodeInvalid.

(** The array a keyed composite literal denotes. *)
Definition array_of_entries (n : nat) (entries : list (Z * opcode)) : list opcode :=
  map (fun i =>
         match find (fun e => fst e =? Z.of_nat i) entries with
         | Some e => snd e
         | None => zero_opcode
         end) (seq 0 n).

Definition opcodeArray : list opcode :=
  Eval vm_compute in
  array_of_entries 256
    (opcodeArray_push ++ opcodeArray_ops ++ opcodeArray_undefined).

(** * Parsed opcodes *)

(** [pop_data] is [None] for a nil slice. *)
Record parsedOpcode : Set := mk_parsedOpcode {
  pop_opcode : opcode;
  pop_data : option bytes
}.

#[global] Instance parsedOpcode_eq_dec : EqDecision parsedOpcode.
Proof. solve_decision. Defined.

Definition pop_value (pop : parsedOpcode) : Z := op_value (pop_opcode pop).

Definition data_of (pop : parsedOpcode) : bytes := default [] (pop_data pop).

Definition isDisabled (pop : parsedOpcode) : bool :=
  let v := pop_value pop in
  (v =? OpCat) || (v =? OpSubStr) || (v =? OpLeft) || (v =? OpRight)
  || (v =? OpInvert) || (v =? OpAnd) || (v =? OpOr) || (v =? OpXor)
  || (v =? Op2Mul) || (v =? Op2Div) || (v =? OpMul) || (v =? OpDiv)
  || (v =? OpMod) || (v =? OpLShift) || (v =? OpRShift).

Definition alwaysIllegal (pop : parsedOpcode) : bool :=
  let v := pop_value pop in (v =? OpVerIf) || (v =? OpVerNotIf).

Definition isConditional (pop : parsedOpcode) : bool :=
  let v := pop_value pop in
  (v =? OpIf) || (v =? OpNotIf) || (v =? OpElse) || (v =? OpEndIf).

Definition checkMinimalDataPush (pop : parsedOpcode) : res error unit :=
  let data := data_of pop in
  let dataLen := zlen data in
  let opcode := pop_value pop in
  let d0 := default 0 (lookupZ data 0) in
  if (dataLen =? 0) && negb (opcode =? Op0) then Err (scriptError ErrMinimalData)
  else if (dataLen =? 1) && (d0 >=? 1) && (d0 <=? 16) then
    if negb (opcode =? uint8 (uint8 (Op1 + d0) - 1))
    then Err (scriptError ErrMinimalData) else Ok tt
  else if (dataLen =? 1) && (d0 =? 0x81) then
    if negb (opcode =? Op1Negate) then Err (scriptError ErrMinimalData) else Ok tt
  else if dataLen <=? 75 then
    if negb (opcode =? dataLen) then Err (scriptError ErrMinimalData) else Ok tt
  else if dataLen <=? 255 then
    if negb (opcode =? OpPushData1) then Err (scriptError ErrMinimalData) else Ok tt
  else if dataLen <=? 65535 then
    if negb (opcode =? OpPushData2) then Err (scriptError ErrMinimalData) else Ok tt
  else Ok tt.

(** [parsedOpcode.bytes] *)
Definition pop_bytes (pop : parsedOpcode) : res error bytes :=
  let length := op_length (pop_opcode pop) in
  let data := data_of pop in
  let retbytes := [pop_value pop] in
  if length =? 1 then
    if negb (zlen data =? 0) then Err (scriptError ErrInternal) else Ok retbytes
  else
    let l := zlen data in
    let '(retbytes, nbytes) :=
      if length =? -1 then
        let r := retbytes ++ [uint8 l] in
        (r, le_get (sliceZ r 1 2) + zlen r)
      else if length =? -2 then
        let r := retbytes ++ [uint8 (Z.land l 0xff);
                              uint8 (Z.land (Z.shiftr l 8) 0xff)] in
        (r, le_get (sliceZ r 1 3) + zlen r)
      else if length =? -4 then
        let r := retbytes ++ [uint8 (Z.land l 0xff);
                              uint8 (Z.land (Z.shiftr l 8) 0xff);
                              uint8 (Z.land (Z.shiftr l 16) 0xff);
                              uint8 (Z.land (Z.shiftr l 24) 0xff)] in
        (r, le_get (sliceZ r 1 5) + zlen r)
      else (retbytes, length) in
    let retbytes := retbytes ++ data in
    if negb (zlen retbytes =? nbytes) then Err (scriptError ErrInternal)
    else Ok retbytes.

(** * Disassembly *)

Definition hex_digit (d : Z) : string :=
  match String.get (Z.to_nat d) "0123456789abcdef" with
  | Some c => String c EmptyString
  | None => EmptyString
  end.

(** [fmt.Sprintf("%x", data)] on a byte slice. *)
Fixpoint hex_bytes (data : bytes) : string :=
  match data with
  | [] => EmptyString
  | b :: data' => hex_digit (b / 16) +:+ hex_digit (b mod 16) +:+ hex_bytes data'
  end.

(** [fmt.Sprintf("%0wx", n)] on a non-negative integer below [16^w]. *)
Fixpoint hex_width (w : nat) (n : Z) : string :=
  match w with
  | O => EmptyString
  | S w' => hex_width w' (n / 16) +:+ hex_digit (n mod 16)
  end.

Definition opcodeOnelineRepls : list (string * string) :=
  [ ("OP_1NEGATE", "-1"); ("OP_0", "0"); ("OP_1", "1"); ("OP_2", "2");
    ("OP_3", "3"); ("OP_4", "4"); ("OP_5", "5"); ("OP_6", "6"); ("OP_7", "7");
    ("OP_8", "8"); ("OP_9", "9"); ("OP_10", "10"); ("OP_11", "11");
    ("OP_12", "12"); ("OP_13", "13"); ("OP_14", "14"); ("OP_15", "15");
    ("OP_16", "16") ]%string.

Definition print (pop : parsedOpcode) (oneline : bool) : string :=
  let opcodeName := op_name (pop_opcode pop) in
  let length := op_length (pop_opcode pop) in
  if oneline then
    let opcodeName :=
      match find (fun e => bool_decide (fst e = opcodeName)) opcodeOnelineRepls with
      | Some e => snd e
      | None => opcodeName
      end in
    if length =? 1 then opcodeName else hex_bytes (data_of pop)
  else if length =? 1 then opcodeName
  else
    let l := zlen (data_of pop) in
    let retString :=
      opcodeName +:+
      (if length =? -1 then " 0x" +:+ hex_width 2 l
       else if length =? -2 then " 0x" +:+ hex_width 4 l
       else if length =? -4 then " 0x" +:+ hex_width 8 l
       else EmptyString) in
    retString +:+ " 0x" +:+ hex_bytes (data_of pop).

(** [OpcodeByName], filled by [init]: later entries overwrite earlier ones. *)
Definition OpcodeByName (name : string) : option Z :=
  if bool_decide (name = "OP_FALSE"%string) then Some OpFalse
  else if bool_decide (name = "OP_TRUE"%string) then Some OpTrue
  else option_map op_value
         (find (fun op => bool_decide (op_name op = name)) (rev opcodeArray)).

(** * Facts read off the table *)

Lemma opcodeArray_length : length opcodeArray = 256%nat.
Proof. reflexivity. Qed.

(** A decidable property of all table entries, checked by computation. *)
Definition table_check (P : Z -> opcode -> bool) : bool :=
  forallb (fun i => match opcodeArray !! i with
                    | Some op => P (Z.of_nat i) op
                    | None => false
                    end) (seq 0 256).

Lemma opcodeArray_all (P : Z -> opcode -> bool) :
  table_check P = true ->
  forall b, is_byte b -> exists op, lookupZ opcodeArray b = Some op /\ P b op = true.
Proof.
  unfold table_check, is_byte. rewrite forallb_forall. intros Hall b Hb.
  specialize (Hall (Z.to_nat b)). rewrite in_seq, Z2Nat.id in Hall by lia.
  unfold lookupZ. rewrite (proj2 (Z.leb_le 0 b)) by lia.
  destruct (opcodeArray !! Z.to_nat b) as [op|]; [|by discriminate Hall; lia].
  exists op. split; [done|apply Hall; lia].
Qed.

Lemma opcodeArray_lookup (P : Z -> opcode -> bool) b op :
  table_check P = true -> lookupZ opcodeArray b = Some op -> P b op = true.
Proof.
  intros HP Hop. pose proof (lookupZ_Some_range _ _ _ Hop) as Hr.
  destruct (opcodeArray_all P HP b) as (op' & Hop' & H); [exact Hr|].
  by simplify_eq.
Qed.

(** Ten entries of the table, those at 178 to 187, carry the value of the
    opcode ten places further on. *)
Definition misnumbered (b : Z) : bool := (178 <=? b) && (b <=? 187).

Lemma opcodeArray_value b op :
  lookupZ opcodeArray b = Some op ->
  op_value op = if misnumbered b then b + 10 else b.
Proof.
  intros H. apply (opcodeArray_lookup
    (fun b op => op_value op =? if misnumbered b then b + 10 else b)) in H;
    [lia|reflexivity].
Qed.

(** The encoded length of an opcode. *)
Lemma opcodeArray_op_length b op :
  lookupZ opcodeArray b = Some op ->
  op_length op =
    if (1 <=? b) && (b <=? 75) then b + 1
    else if b =? OpPushData1 then -1
    else if b =? OpPushData2 then -2
    else if b =? OpPushData4 then -4
    else 1.
Proof.
  intros H. apply (opcodeArray_lookup
    (fun b op => op_length op =?
      if (1 <=? b) && (b <=? 75) then b + 1
      else if b =? OpPushData1 then -1
      else if b =? OpPushData2 then -2
      else if b =? OpPushData4 then -4
      else 1)) in H; [lia|reflexivity].
Qed.

Lemma opcodeArray_lookup_byte b :
  is_byte b -> exists op, lookupZ opcodeArray b = Some op.
Proof.
  intros Hb. destruct (opcodeArray_all (fun _ _ => true) eq_refl b Hb) as (op & H & _).
  eauto.
Qed.
