(* ===== verification/Transaction.v ===== *)
(** The transaction types of
    [src/domain/consensus/model/externalapi/transaction.go] and the constants of
    [src/domain/consensus/utils/constants/constants.go] that scripts use. *)

From S2P Require Import Prelude.

(** * Constants *)

Definition MaxScriptPublicKeyVersion : Z := 0.
Definition MaxTxInSequenceNum : Z := 2 ^ 64 - 1.
Definition SequenceLockTimeDisabled : Z := Z.shiftl 1 63.
Definition SequenceLockTimeMask : Z := 0x00000000ffffffff.
Definition LockTimeThreshold : Z := 5 * 10 ^ 11.

Definition DomainHashSize : Z := 32.

Definition NewZeroHash : bytes := replicate 32 0.

Definition SubnetworkIDNative : bytes := replicate 20 0.

(** * Types *)

Record ScriptPublicKey : Set := mk_ScriptPublicKey {
  spk_Script : bytes;
  spk_Version : Z
}.

Record DomainOutpoint : Set := mk_DomainOutpoint {
  TransactionID : bytes;
  Index : Z
}.

(** The getters of the [UTXOEntry] interface. *)
Record UTXOEntry : Set := mk_UTXOEntry {
  Amount : Z;
  utxo_ScriptPublicKey : ScriptPublicKey;
  BlockDAAScore : Z;
  IsCoinbase : bool
}.

(** [in_UTXOEntry] is [None] for a nil interface. *)
Record DomainTransactionInput : Set := mk_DomainTransactionInput {
  PreviousOutpoint : DomainOutpoint;
  SignatureScript : bytes;
  Sequence : Z;
  SigOpCount : Z;
  in_UTXOEntry : option UTXOEntry
}.

Record DomainTransactionOutput : Set := mk_DomainTransactionOutput {
  Value : Z;
  out_ScriptPublicKey : ScriptPublicKey
}.

Record DomainTransaction : Set := mk_DomainTransaction {
  Version : Z;
  Inputs : list DomainTransactionInput;
  Outputs : list DomainTransactionOutput;
  LockTime : Z;
  SubnetworkID : bytes;
  Gas : Z;
  Payload : bytes;
  Fee : Z;
  Mass : Z;
  tx_ID : option bytes
}.

#[global] Instance ScriptPublicKey_eq_dec : EqDecision ScriptPublicKey.
Proof. solve_decision. Defined.
#[global] Instance DomainOutpoint_eq_dec : EqDecision DomainOutpoint.
Proof. solve_decision. Defined.
#[global] Instance UTXOEntry_eq_dec : EqDecision UTXOEntry.
Proof. solve_decision. Defined.
#[global] Instance DomainOutpoint_countable : Countable DomainOutpoint.
Proof.
  refine (inj_countable' (fun o => (TransactionID o, Index o))
    (fun p => mk_DomainOutpoint (fst p) (snd p)) _).
  by intros [].
Defined.
