(* ===== verification/Script.v ===== *)
(** Parsing and inspecting scripts:
    [src/domain/consensus/utils/txscript/script.go]. *)

From S2P Require Import Prelude ScriptError Opcodes Transaction.

Definition MaxOpsPerScript : Z := 201.
Definition MaxPubKeysPerMultiSig : Z := 20.
Definition MaxScriptElementSize : Z := 520.

Definition isSmallInt (op : opcode) : bool :=
  (op_value op =? Op0) || ((op_value op >=? Op1) && (op_value op <=? Op16)).

Definition isScriptHash (pops : list parsedOpcode) : bool :=
  match pops with
  | [p0; p1; p2] =>
      (pop_value p0 =? OpBlake2b) && (pop_value p1 =? OpData32)
      && (pop_value p2 =? OpEqual)
  | _ => false
  end.

Definition isPushOnly (pops : list parsedOpcode) : bool :=
  forallb (fun pop => negb (pop_value pop >? Op16)) pops.

(** The length the bytes after an [OP_PUSHDATA] opcode announce; [None] is the
    [default] case of the switch. *)
Definition pushdata_length (length : Z) (tail : bytes) : option Z :=
  let b i := default 0 (lookupZ tail i) in
  if length =? -1 then Some (b 0)
  else if length =? -2 then Some (Z.lor (Z.shiftl (b 1) 8) (b 0))
  else if length =? -4 then
    Some (Z.lor (Z.lor (Z.lor (Z.shiftl (b 3) 24) (Z.shiftl (b 2) 16))
                       (Z.shiftl (b 1) 8)) (b 0))
  else None.

(** The body of the parsing loop at [rest = script[i:]]: the data of the opcode
    and how far [i] moves.  No case of the switch covers a zero length. *)
Definition parse_pop (op : opcode) (rest : bytes) : res error (option bytes * Z) :=
  let length := op_length op in
  if length =? 1 then Ok (None, 1)
  else if length >? 1 then
    if zlen rest <? length then Err (scriptError ErrMalformedPush)
    else Ok (Some (sliceZ rest 1 length), length)
  else if length <? 0 then
    let tail := drop 1 rest in
    if zlen tail <? - length then Err (scriptError ErrMalformedPush) else
    match pushdata_length length tail with
    | None => Err (scriptError ErrMalformedPush)
    | Some l =>
        let l := int64 l in
        let tail := drop (Z.to_nat (- length)) tail in
        if (l >? zlen tail) || (l <? 0) then Err (scriptError ErrMalformedPush)
        else Ok (Some (sliceZ tail 0 l), 1 - length + l)
    end
  else Ok (None, 0).

(** [None]: the loop did not finish within [fuel] rounds. *)
Fixpoint parse_loop (opcodes : list opcode) (fuel : nat) (rest : bytes)
    (retScript : list parsedOpcode) : option (list parsedOpcode * option error) :=
  match rest with
  | [] => Some (retScript, None)
  | instr :: _ =>
      match fuel with
      | O => None
      | S fuel' =>
          let op := default zero_opcode (lookupZ opcodes instr) in
          match parse_pop op rest with
          | Ok (data, n) =>
              parse_loop opcodes fuel' (drop (Z.to_nat n) rest)
                (retScript ++ [mk_parsedOpcode op data])
          | Err e => Some (retScript, Some e)
          | Panic => None
          end
      end
  end.

(** Every round that consumes input consumes at least one byte, so a table
    without zero lengths needs at most one round per byte; see
    [parseScript_terminates]. *)
Definition parseScriptTemplate (script : bytes) (opcodes : list opcode)
  : option (list parsedOpcode * option error) :=
  parse_loop opcodes (length script) script [].

(** The parsed opcodes, up to the point of failure when there is an error. *)
Definition parseScript (script : bytes) : list parsedOpcode * option error :=
  match parseScriptTemplate script opcodeArray with
  | Some r => r
  | None => ([], Some OtherError)
  end.

Fixpoint unparseScript (pops : list parsedOpcode) : res error bytes :=
  match pops with
  | [] => Ok []
  | pop :: pops' =>
      let? b := pop_bytes pop in
      let? script := unparseScript pops' in
      Ok (b ++ script)
  end.

Definition IsPayToScriptHash (script : ScriptPublicKey) : bool :=
  match parseScript (spk_Script script) with
  | (pops, None) => isScriptHash pops
  | (_, Some _) => false
  end.

Definition join_words (words : list string) : string :=
  match words with
  | [] => EmptyString
  | w :: ws => fold_left (fun acc w' => acc +:+ " " +:+ w') ws w
  end.

Definition DisasmString (version : Z) (buf : bytes) : string * option error :=
  if version =? MaxScriptPublicKeyVersion then
    let '(opcodes, err) := parseScript buf in
    let dis := join_words (map (fun pop => print pop true) opcodes) in
    match err with
    | None => (dis, None)
    | Some e => (dis +:+ "[error]", Some e)
    end
  else (EmptyString, Some (scriptError ErrPubKeyFormat)).

Definition canonicalPush (pop : parsedOpcode) : bool :=
  let opcode := pop_value pop in
  let data := data_of pop in
  let dataLen := zlen data in
  if opcode >? Op16 then true
  else if (opcode <? OpPushData1) && (opcode >? Op0)
          && ((dataLen =? 1) && (default 0 (lookupZ data 0) <=? 16)) then false
  else if (opcode =? OpPushData1) && (dataLen <? OpPushData1) then false
  else if (opcode =? OpPushData2) && (dataLen <=? 0xff) then false
  else if (opcode =? OpPushData4) && (dataLen <=? 0xffff) then false
  else true.

Definition asSmallInt (op : opcode) : Z :=
  if op_value op =? Op0 then 0 else uint8 (op_value op - (Op1 - 1)).

(** The count one opcode adds; [prev] is the opcode before it, if any. *)
Definition sigops_of (precise : bool) (prev : option parsedOpcode)
    (pop : parsedOpcode) : Z :=
  let v := pop_value pop in
  if (v =? OpCheckSig) || (v =? OpCheckSigVerify) || (v =? OpCheckSigECDSA) then 1
  else if (v =? OpCheckMultiSig) || (v =? OpCheckMultiSigVerify)
          || (v =? OpCheckMultiSigECDSA) then
    match prev with
    | Some p =>
        if precise && (pop_value p >=? Op1) && (pop_value p <=? Op16)
        then asSmallInt (pop_opcode p) else MaxPubKeysPerMultiSig
    | None => MaxPubKeysPerMultiSig
    end
  else 0.

Fixpoint getSigOpCount_loop (precise : bool) (prev : option parsedOpcode)
    (pops : list parsedOpcode) (nSigs : Z) : Z :=
  match pops with
  | [] => nSigs
  | pop :: pops' =>
      getSigOpCount_loop precise (Some pop) pops' (nSigs + sigops_of precise prev pop)
  end.

Definition getSigOpCount (pops : list parsedOpcode) (precise : bool) : Z :=
  getSigOpCount_loop precise None pops 0.

Definition GetSigOpCount (script : bytes) : Z :=
  getSigOpCount (fst (parseScript script)) false.

Definition GetPreciseSigOpCount (scriptSig : bytes) (scriptPubKey : ScriptPublicKey)
    (isP2SH : bool) : Z :=
  let pops := fst (parseScript (spk_Script scriptPubKey)) in
  if negb (isP2SH && isScriptHash pops) then getSigOpCount pops true else
  match parseScript scriptSig with
  | (_, Some _) => 0
  | (sigPops, None) =>
      if negb (isPushOnly sigPops) || (zlen sigPops =? 0) then 0 else
      let shScript := default [] (lookupZ sigPops (zlen sigPops - 1) ≫= pop_data) in
      if zlen shScript =? 0 then 0
      else getSigOpCount (fst (parseScript shScript)) true
  end.

Definition IsUnspendable (scriptPubKey : bytes) : bool :=
  match parseScript scriptPubKey with
  | (_, Some _) => true
  | (pops, None) =>
      match pops with
      | [] => false
      | pop :: _ => pop_value pop =? OpReturn
      end
  end.

(** * The byte form of a parsed opcode *)

(** The data an opcode of encoded length [L] comes with. *)
Definition data_shape (L : Z) (data : option bytes) : Prop :=
  match data with
  | None => L = 1
  | Some d =>
      Forall is_byte d /\
      ((1 < L /\ zlen d = L - 1) \/ (L < 0 /\ zlen d < 256 ^ (- L)))
  end.

(** [pop] is what the table's entry at byte [b] parses to. *)
Definition pop_at (b : Z) (pop : parsedOpcode) : Prop :=
  lookupZ opcodeArray b = Some (pop_opcode pop) /\
  data_shape (op_length (pop_opcode pop)) (pop_data pop).

(** Opcode byte, length bytes of an [OP_PUSHDATA], data. *)
Definition encode (b : Z) (pop : parsedOpcode) : bytes :=
  b :: le_put (Z.to_nat (- op_length (pop_opcode pop))) (zlen (data_of pop))
    ++ data_of pop.

Definition encode_all (items : list (Z * parsedOpcode)) : bytes :=
  concat (map (fun '(b, pop) => encode b pop) items).

(** The table entry of [pop] carries its own index as value. *)
Definition self_numbered (pop : parsedOpcode) : Prop :=
  lookupZ opcodeArray (pop_value pop) = Some (pop_opcode pop).

#[global] Instance self_numbered_dec pop : Decision (self_numbered pop).
Proof. unfold self_numbered. apply _. Defined.

(** * Parsing one opcode *)

Lemma pushdata_length_le_get L tail :
  L = -1 \/ L = -2 \/ L = -4 -> - L <= zlen tail ->
  pushdata_length L tail = Some (le_get (take (Z.to_nat (- L)) tail)).
Proof.
  intros HL Hl. unfold pushdata_length, lookupZ.
  destruct HL as [->|[->| ->]]; cbn [Z.eqb Pos.eqb]; norm_to_nat.
  - destruct tail as [|b0 tail]; [zlia|]. cbn -[Z.lor Z.shiftl].
    change (Z.shiftl 0 8) with 0. by rewrite Z.lor_0_r.
  - destruct tail as [|b0 [|b1 tail]]; [zlia..|]. cbn -[Z.lor Z.shiftl].
    change (Z.shiftl 0 8) with 0. rewrite Z.lor_0_r. f_equal. apply Z.lor_comm.
  - destruct tail as [|b0 [|b1 [|b2 [|b3 tail]]]]; [zlia..|]. cbn -[Z.lor Z.shiftl].
    change (Z.shiftl 0 8) with 0. rewrite Z.lor_0_r.
    rewrite !Z.shiftl_lor, !Z.shiftl_shiftl by lia. f_equal.
    rewrite (Z.lor_comm _ b0). f_equal. rewrite (Z.lor_comm _ (Z.shiftl b1 8)).
    f_equal. apply Z.lor_comm.
Qed.

Lemma op_length_cases b op :
  lookupZ opcodeArray b = Some op ->
  op_length op = 1 \/ 1 < op_length op <= 76 \/
  op_length op = -1 \/ op_length op = -2 \/ op_length op = -4.
Proof.
  intros H. rewrite (opcodeArray_op_length _ _ H). repeat case_if; lia.
Qed.

Lemma zlen_le_put n z : zlen (le_put n z) = Z.of_nat n.
Proof. unfold zlen. by rewrite length_le_put. Qed.

Lemma data_shape_pushdata L (d : bytes) :
  L = -1 \/ L = -2 \/ L = -4 -> zlen d < 256 ^ (- L) ->
  le_get (le_put (Z.to_nat (- L)) (zlen d)) = zlen d.
Proof.
  intros HL Hd. rewrite le_get_put, Z.mod_small; [done|].
  rewrite Z2Nat.id by lia. zlia.
Qed.

Lemma parse_pop_encode b pop rest :
  pop_at b pop ->
  parse_pop (pop_opcode pop) (encode b pop ++ rest) =
  Ok (pop_data pop, zlen (encode b pop)).
Proof.
  intros [Hop Hd]. pose proof (op_length_cases _ _ Hop) as HL.
  unfold parse_pop, encode, data_of in *. set (L := op_length (pop_opcode pop)) in *.
  destruct (Z.eqb_spec L 1) as [H1|H1].
  { rewrite H1. destruct (pop_data pop) as [d|]; [destruct Hd as [_ [|]]; lia|done]. }
  destruct (pop_data pop) as [d|]; [|done]. destruct Hd as [Hb Hd]. cbn [default from_option id].
  destruct (L >? 1) eqn:HL1.
  - assert (Hlen : zlen d = L - 1) by lia.
    replace (Z.to_nat (- L)) with O by lia. cbn [le_put app].
    destruct (_ <? L) eqn:?; [zlia|]. do 2 f_equal; [|zlia].
    change (b :: d ++ rest) with ([b] ++ (d ++ rest)). unfold sliceZ. f_equal.
    rewrite drop_app_length' by done. rewrite take_app_length'; [done|]. unfold zlen in *. lia.
  - destruct (L <? 0) eqn:?; [|lia].
    assert (HL' : L = -1 \/ L = -2 \/ L = -4) by lia. cbn [app drop].
    set (hdr := le_put (Z.to_nat (- L)) (zlen d)).
    assert (Hh : zlen hdr = - L) by (subst hdr; rewrite zlen_le_put; lia).
    rewrite drop_0, <- app_assoc.
    destruct (zlen (hdr ++ d ++ rest) <? - L) eqn:?; [zlia|].
    rewrite pushdata_length_le_get by (done || zlia).
    assert (Hn : Z.to_nat (- L) = length hdr) by (unfold zlen in Hh; lia).
    rewrite Hn, take_app_length, drop_app_length.
    subst hdr. rewrite data_shape_pushdata by (done || lia).
    assert (zlen d < 2 ^ 32).
    { destruct Hd as [|[_ Hd]]; [lia|]. destruct HL' as [E|[E|E]]; rewrite E in Hd; lia. }
    rewrite int64_id by zlia. destruct (_ || _) eqn:?; [zlia|].
    rewrite sliceZ_prefix by done. f_equal. f_equal.
    rewrite zlen_cons, zlen_app, zlen_le_put. lia.
Qed.

Lemma parse_pop_inv b rest op data n :
  Forall is_byte (b :: rest) -> lookupZ opcodeArray b = Some op ->
  parse_pop op (b :: rest) = Ok (data, n) ->
  let pop := mk_parsedOpcode op data in
  pop_at b pop /\ n = zlen (encode b pop) /\
  exists rest', b :: rest = encode b pop ++ rest'.
Proof.
  intros Hb Hop Hp pop. pose proof (op_length_cases _ _ Hop) as HL.
  unfold parse_pop in Hp. unfold pop_at, encode, data_of. cbn [pop pop_opcode pop_data].
  set (L := op_length op) in *. apply Forall_cons in Hb as [_ Hb].
  destruct (Z.eqb_spec L 1) as [H1|H1].
  { simplify_eq. rewrite H1. repeat split; [done|]. exists rest. done. }
  destruct (L >? 1) eqn:HL1.
  - destruct (_ <? L) eqn:?; [done|]. injection Hp as <- <-.
    unfold sliceZ. change (drop (Z.to_nat 1) (b :: rest)) with (drop 0 rest). rewrite drop_0.
    assert (Hlen : zlen (take (Z.to_nat (L - 1)) rest) = L - 1).
    { apply zlen_take. zlia. }
    cbn [data_shape default from_option id]. replace (Z.to_nat (- L)) with O by lia.
    cbn [le_put app]. repeat split; [done|by apply Forall_take|lia|zlia|].
    exists (drop (Z.to_nat (L - 1)) rest). cbn [app]. by rewrite take_drop.
  - destruct (L <? 0) eqn:?; [|lia].
    assert (HL' : L = -1 \/ L = -2 \/ L = -4) by lia.
    change (drop 1 (b :: rest)) with (drop 0 rest) in Hp. rewrite drop_0 in Hp.
    destruct (zlen rest <? - L) eqn:?; [done|].
    rewrite pushdata_length_le_get in Hp by (done || lia).
    set (hdr := take (Z.to_nat (- L)) rest) in *. set (tl := drop (Z.to_nat (- L)) rest) in *.
    assert (Hr : rest = hdr ++ tl) by (subst hdr tl; by rewrite take_drop).
    assert (Hhb : Forall is_byte hdr) by by apply Forall_take.
    assert (Hhl : zlen hdr = - L).
    { apply zlen_take. lia. }
    pose proof (le_get_range hdr Hhb) as Hg. rewrite Hhl in Hg.
    assert (256 ^ (- L) <= 256 ^ 4) by (apply Z.pow_le_mono_r; lia).
    rewrite int64_id in Hp by lia. destruct (_ || _) eqn:?; [done|]. injection Hp as <- <-.
    set (l := le_get hdr) in *. unfold sliceZ. rewrite Z.sub_0_r. cbn [Z.to_nat]. rewrite drop_0.
    assert (Hlen : zlen (take (Z.to_nat l) tl) = l).
    { apply zlen_take. lia. }
    cbn [data_shape default from_option id]. rewrite Hlen.
    assert (Hput : le_put (Z.to_nat (- L)) l = hdr).
    { subst l. replace (Z.to_nat (- L)) with (length hdr) by (unfold zlen in Hhl; lia).
      by apply le_put_get. }
    rewrite Hput. repeat split; [done| |lia|zlia|].
    + apply Forall_take. by apply Forall_drop.
    + exists (drop (Z.to_nat l) tl). app_norm. by rewrite take_drop, <- Hr.
Qed.

(** * Parsing scripts *)

Abbreviation items_ok items := (Forall (fun '(b, pop) => pop_at b pop) items).

Lemma encode_length b pop : (1 <= length (encode b pop))%nat.
Proof. simpl. lia. Qed.

Lemma encode_all_length items : (length items <= length (encode_all items))%nat.
Proof.
  unfold encode_all. induction items as [|[b pop] items IH]; [done|].
  cbn [map concat length]. rewrite length_app. pose proof (encode_length b pop). lia.
Qed.

(** The loop finishes; what it returns is a decomposition of the input. *)
Lemma parse_loop_spec fuel s acc :
  Forall is_byte s -> (length s <= fuel)%nat ->
  exists items tail err,
    parse_loop opcodeArray fuel s acc = Some (acc ++ map snd items, err) /\
    items_ok items /\ s = encode_all items ++ tail /\
    ((err = None /\ tail = []) \/
     (err = Some (scriptError ErrMalformedPush) /\ tail <> [])).
Proof.
  revert s acc. induction fuel as [|fuel IH]; intros s acc Hb Hf.
  { destruct s; [|simpl in Hf; lia]. exists [], [], None. cbn.
    rewrite app_nil_r. repeat split; [constructor|auto]. }
  destruct s as [|b rest].
  { exists [], [], None. cbn. rewrite app_nil_r. repeat split; [constructor|auto]. }
  assert (Hbb : is_byte b) by by apply Forall_cons in Hb as [? _].
  destruct (opcodeArray_lookup_byte b Hbb) as [op Hop].
  cbn [parse_loop]. rewrite Hop. cbn [default from_option id].
  destruct (parse_pop op (b :: rest)) as [[data n]|e|] eqn:Hp.
  - destruct (parse_pop_inv b rest op data n Hb Hop Hp) as (Hat & -> & rest' & Hr).
    set (pop := mk_parsedOpcode op data) in *.
    assert (Hd : drop (Z.to_nat (zlen (encode b pop))) (b :: rest) = rest').
    { rewrite Hr. unfold zlen. rewrite Nat2Z.id. apply drop_app_length. }
    rewrite Hd. rewrite Hr in Hb, Hf. rewrite length_app in Hf.
    pose proof (encode_length b pop).
    destruct (IH rest' (acc ++ [pop])) as (items & tail & err & Hl & Hok & Hs & He).
    { by apply Forall_app in Hb as [_ ?]. }
    { lia. }
    exists ((b, pop) :: items), tail, err. rewrite Hl, Hr, Hs. cbn [map snd].
    repeat split; [by app_norm|by constructor|by unfold encode_all; cbn; app_norm|done].
  - assert (e = scriptError ErrMalformedPush) as ->.
    { unfold parse_pop in Hp. repeat case_match; by simplify_eq. }
    exists [], (b :: rest), (Some (scriptError ErrMalformedPush)). cbn.
    rewrite app_nil_r. repeat split; [constructor|]. right. done.
  - exfalso. unfold parse_pop in Hp. repeat case_match; by simplify_eq.
Qed.

Lemma parse_loop_encode fuel items acc :
  items_ok items -> (length (encode_all items) <= fuel)%nat ->
  parse_loop opcodeArray fuel (encode_all items) acc =
  Some (acc ++ map snd items, None).
Proof.
  intros Hok. revert fuel acc.
  induction Hok as [|[b pop] items Hat Hok IH]; intros fuel acc Hf.
  { cbn. rewrite app_nil_r. by destruct fuel. }
  unfold encode_all in *. cbn [map concat] in *. rewrite length_app in Hf.
  pose proof (encode_length b pop). destruct fuel as [|fuel]; [lia|].
  pose proof (parse_pop_encode b pop (concat (map (fun '(b, pop) => encode b pop) items)) Hat) as Hp.
  pose proof (drop_app_length (encode b pop) (concat (map (fun '(b, pop) => encode b pop) items))) as Hd.
  remember (encode b pop) as enc eqn:Henc. destruct enc as [|b' enc]; [done|].
  assert (b' = b) as -> by (unfold encode in Henc; congruence).
  cbn [app parse_loop]. rewrite (proj1 Hat). cbn [default from_option id].
  cbn [app] in Hp. rewrite Hp. unfold zlen. rewrite Nat2Z.id. cbn [app] in Hd. rewrite Hd.
  rewrite IH by lia. cbn [map snd]. app_norm. by destruct pop.
Qed.

Lemma parseScript_spec s :
  Forall is_byte s ->
  exists items tail err,
    parseScript s = (map snd items, err) /\
    items_ok items /\ s = encode_all items ++ tail /\
    ((err = None /\ tail = []) \/
     (err = Some (scriptError ErrMalformedPush) /\ tail <> [])).
Proof.
  intros Hb. destruct (parse_loop_spec (length s) s [] Hb) as (items & tail & err & H & ?); [lia|].
  exists items, tail, err. split; [|done]. unfold parseScript, parseScriptTemplate. by rewrite H.
Qed.

Lemma parseScript_encode items :
  items_ok items -> parseScript (encode_all items) = (map snd items, None).
Proof.
  intros Hok. unfold parseScript, parseScriptTemplate. by rewrite parse_loop_encode.
Qed.

(** * Unparsing *)

Lemma uint8_land_255 z : uint8 (Z.land z 255) = Z.land z 255.
Proof.
  apply uint8_id. unfold is_byte. rewrite land_255.
  pose proof (Z.mod_pos_bound z 256). lia.
Qed.

Lemma le_put_1 l : le_put 1 l = [uint8 l].
Proof. cbn [le_put]. by rewrite land_255. Qed.

Lemma le_put_2 l :
  le_put 2 l = [uint8 (Z.land l 0xff); uint8 (Z.land (Z.shiftr l 8) 0xff)].
Proof. cbn [le_put]. by rewrite !uint8_land_255. Qed.

Lemma le_put_4 l :
  le_put 4 l = [uint8 (Z.land l 0xff); uint8 (Z.land (Z.shiftr l 8) 0xff);
                uint8 (Z.land (Z.shiftr l 16) 0xff); uint8 (Z.land (Z.shiftr l 24) 0xff)].
Proof.
  cbn [le_put]. rewrite !uint8_land_255, !Z.shiftr_shiftr by lia. done.
Qed.

Lemma pop_bytes_encode b pop :
  pop_at b pop -> pop_bytes pop = Ok (encode (pop_value pop) pop).
Proof.
  intros [Hop Hd]. pose proof (op_length_cases _ _ Hop) as HL.
  unfold pop_bytes, encode, data_of in *. set (L := op_length (pop_opcode pop)) in *.
  destruct (Z.eqb_spec L 1) as [H1|H1].
  { rewrite H1. destruct (pop_data pop) as [d|]; [destruct Hd as [_ [|]]; lia|done]. }
  destruct (pop_data pop) as [d|]; [|done]. destruct Hd as [Hb Hd]. cbn [default from_option id].
  destruct HL as [?|[?|HL]]; [done| |].
  - assert (zlen d = L - 1) by lia. replace (Z.to_nat (- L)) with O by lia.
    repeat (case_if; [lia|]). cbn [le_put app]. case_if; [zlia|done].
  - assert (Hdl : zlen d < 256 ^ (- L)) by lia.
    pose proof (data_shape_pushdata L d HL Hdl) as Hg.
    rewrite <- le_put_1, <- le_put_2, <- le_put_4.
    assert (Hs : forall n, sliceZ (pop_value pop :: le_put n (zlen d)) 1
        (1 + Z.of_nat n) = le_put n (zlen d)).
    { intros n. apply (sliceZ_suffix [_]); [done|]. rewrite zlen_le_put. done. }
    pose proof (Hs 1%nat). pose proof (Hs 2%nat). pose proof (Hs 4%nat).
    destruct HL as [E|[E|E]]; rewrite E in *; cbn [Z.eqb Pos.eqb app];
      (case_if; [|done]); revert Hg; norm_to_nat; intros Hg;
      change (1 + Z.of_nat 1) with 2 in *; change (1 + Z.of_nat 2) with 3 in *;
      change (1 + Z.of_nat 4) with 5 in *; rewrite zlen_cons, zlen_app, zlen_cons, zlen_le_put in *;
      simpl Z.of_nat in *; exfalso;
      match goal with H : sliceZ _ _ _ = le_put _ _, H' : negb _ = true |- _ =>
        rewrite H in H' end; lia.
Qed.

Lemma unparseScript_items items :
  items_ok items ->
  unparseScript (map snd items) =
  Ok (encode_all (map (fun '(_, pop) => (pop_value pop, pop)) items)).
Proof.
  induction 1 as [|[b pop] items Hat Hok IH]; [done|].
  cbn [map snd unparseScript]. rewrite (pop_bytes_encode b), IH by done. done.
Qed.

(** A parsed opcode is self-numbered exactly when it came from the byte that
    its entry names. *)
Lemma self_numbered_iff b pop :
  pop_at b pop -> (self_numbered pop <-> pop_value pop = b).
Proof.
  intros [Hop _]. unfold self_numbered. split; [|by intros ->].
  intros Hs. unfold pop_value in *.
  pose proof (opcodeArray_value _ _ Hop) as Hv.
  pose proof (opcodeArray_value _ _ Hs) as Hv'. unfold misnumbered in *.
  destruct ((178 <=? b) && (b <=? 187)) eqn:Hm; [|lia]. exfalso.
  assert (Hn : forall c, lookupZ opcodeArray c = Some (pop_opcode pop) ->
    178 <= c <= 187 \/ op_value (pop_opcode pop) <> b + 10).
  { intros c Hc.
    pose proof (opcodeArray_lookup
      (fun c op => negb ((188 <=? c) && (c <=? 197)) ||
         negb (bool_decide (Some op = lookupZ opcodeArray (c - 10)))) c _ eq_refl Hc) as Hd.
    cbv beta in Hd. pose proof (opcodeArray_value _ _ Hc) as Hcv. unfold misnumbered in Hcv.
    destruct ((178 <=? c) && (c <=? 187)) eqn:?; [left; lia|right; intros E].
    assert (c = b + 10) as -> by lia. replace (b + 10 - 10) with b in Hd by lia.
    rewrite Hop, bool_decide_eq_true_2 in Hd by done. lia. }
  destruct (Hn _ Hs); lia.
Qed.

Lemma encode_all_values_eq items :
  items_ok items ->
  (encode_all (map (fun '(_, pop) => (pop_value pop, pop)) items) = encode_all items <->
   Forall (fun '(b, pop) => pop_value pop = b) items).
Proof.
  induction 1 as [|[b pop] items Hat Hok IH]; [done|].
  unfold encode_all in *. cbn [map concat]. rewrite Forall_cons, <- IH. split.
  - intros He. unfold encode at 1 3 in He. cbn [app] in He. injection He as Hb He.
    split; [done|]. by apply app_inv_head in He.
  - intros [Hb ->]. by rewrite Hb.
Qed.

Lemma encode_all_values_length items :
  length (encode_all (map (fun '(_, pop) => (pop_value pop, pop)) items)) =
  length (encode_all items).
Proof.
  unfold encode_all. induction items as [|[b pop] items IH]; [done|].
  cbn [map concat]. rewrite !length_app, IH. done.
Qed.

Lemma sigops_bounds prev pop :
  0 <= sigops_of true prev pop <= sigops_of false prev pop /\
  sigops_of false prev pop <= MaxPubKeysPerMultiSig.
Proof.
  unfold sigops_of, MaxPubKeysPerMultiSig. cbn [andb].
  case_if; [lia|]. case_if; [|lia]. destruct prev as [p|]; [|lia].
  case_if; [|lia]. unfold asSmallInt, pop_value, Op0, Op1, Op16 in *.
  case_if; [lia|]. unfold uint8. rewrite Z.mod_small; lia.
Qed.

Lemma getSigOpCount_loop_bounds prev pops n1 n2 :
  0 <= n1 <= n2 ->
  0 <= getSigOpCount_loop true prev pops n1 <= getSigOpCount_loop false prev pops n2 /\
  getSigOpCount_loop false prev pops n2 <= n2 + MaxPubKeysPerMultiSig * zlen pops.
Proof.
  revert prev n1 n2. induction pops as [|pop pops IH]; intros prev n1 n2 Hn; cbn.
  { change (zlen []) with 0. lia. }
  pose proof (sigops_bounds prev pop).
  destruct (IH (Some pop) (n1 + sigops_of true prev pop) (n2 + sigops_of false prev pop))
    as [??]; [lia|]. rewrite zlen_cons. lia.
Qed.

(** * Properties *)

(** Parsing terminates on every byte string: one round per byte is enough
    fuel, and the only error is [ErrMalformedPush]. *)
Theorem parseScript_terminates s :
  Forall is_byte s ->
  parseScriptTemplate s opcodeArray = Some (parseScript s) /\
  (snd (parseScript s) = None \/
   snd (parseScript s) = Some (scriptError ErrMalformedPush)).
Proof.
  intros Hb. destruct (parse_loop_spec (length s) s [] Hb) as (items & tail & err & H & _ & _ & He); [lia|].
  unfold parseScript, parseScriptTemplate. rewrite H. split; [done|].
  destruct He as [[-> _]|[-> _]]; auto.
Qed.

Lemma parseScript_terminates_witness :
  parseScriptTemplate [2; 7; 9; 172] opcodeArray = Some (parseScript [2; 7; 9; 172]).
Proof.
  apply (parseScript_terminates [2; 7; 9; 172]). repeat constructor; discriminate.
Defined.

(** Parsing then unparsing keeps the length of a script, and gives the
    script back exactly when every opcode came from a table entry that carries
    its own index. *)
Theorem unparse_parse s pops :
  Forall is_byte s -> parseScript s = (pops, None) ->
  exists s', unparseScript pops = Ok s' /\ length s' = length s /\
    (s' = s <-> Forall self_numbered pops).
Proof.
  intros Hb Hp. destruct (parseScript_spec s Hb) as (items & tail & err & H & Hok & Hs & He).
  rewrite H in Hp. injection Hp as <- ->. destruct He as [[_ ->]|[? _]]; [|done].
  rewrite app_nil_r in Hs. subst s. rewrite (unparseScript_items items Hok).
  eexists. split; [done|]. split; [apply encode_all_values_length|].
  rewrite (encode_all_values_eq items Hok), Forall_map.
  clear -Hok. induction Hok as [|[b pop] items Hat Hok IH]; [by split; constructor|].
  rewrite !Forall_cons, IH. cbn. by rewrite (self_numbered_iff b pop Hat).
Qed.

Lemma unparse_parse_witness :
  exists s', unparseScript (fst (parseScript [2; 7; 9; 172])) = Ok s' /\
    length s' = 4%nat /\
    (s' = [2; 7; 9; 172] <-> Forall self_numbered (fst (parseScript [2; 7; 9; 172]))).
Proof.
  apply (unparse_parse [2; 7; 9; 172] (fst (parseScript [2; 7; 9; 172]))).
  - repeat constructor; discriminate.
  - reflexivity.
Defined.

(** Opcode byte 178 unparses to 188: the table entry at [OpUnknown178]
    carries the value of [OpUnknown188], so unparsing is not the inverse of
    parsing there. *)
Theorem unparse_parse_misnumbered :
  snd (parseScript [OpUnknown178]) = None /\
  unparseScript (fst (parseScript [OpUnknown178])) = Ok [OpUnknown188].
Proof. split; reflexivity. Qed.

(** Unparsing then parsing is the identity on well-formed opcode lists:
    each opcode is the table entry at its own value, with data of the size its
    length field allows. *)
Theorem parse_unparse pops :
  Forall (fun pop => pop_at (pop_value pop) pop) pops ->
  exists s, unparseScript pops = Ok s /\ parseScript s = (pops, None).
Proof.
  intros Hw. set (items := map (fun pop => (pop_value pop, pop)) pops).
  assert (Hok : items_ok items) by by apply Forall_map.
  assert (Hsnd : map snd items = pops).
  { subst items. rewrite map_map. apply map_id. }
  exists (encode_all items). split.
  - rewrite <- Hsnd at 1. rewrite unparseScript_items by done. do 2 f_equal.
    subst items. rewrite map_map. done.
  - rewrite parseScript_encode by done. by rewrite Hsnd.
Qed.

Lemma parse_unparse_witness :
  exists s, unparseScript
      [mk_parsedOpcode (mk_opcode OpData2 "OP_DATA_2" 3 F_opcodePushData) (Some [7; 9])] = Ok s /\
    parseScript s =
      ([mk_parsedOpcode (mk_opcode OpData2 "OP_DATA_2" 3 F_opcodePushData) (Some [7; 9])], None).
Proof.
  apply parse_unparse. repeat constructor; discriminate.
Defined.

(** The precise signature-operation count lies between zero and the
    imprecise one, which counts at most twenty for each opcode. *)
Theorem getSigOpCount_bounds pops :
  0 <= getSigOpCount pops true <= getSigOpCount pops false /\
  getSigOpCount pops false <= MaxPubKeysPerMultiSig * zlen pops.
Proof.
  unfold getSigOpCount. pose proof (getSigOpCount_loop_bounds None pops 0 0). lia.
Qed.
