(* ===== verification/Sha256.v ===== *)
(** [crypto/sha256] of the Go standard library, which the interpreter's
    [OP_SHA256] and the ECDSA signature hash call: the SHA-256 of FIPS 180-4
    on byte strings.  Words are 32-bit integers in [Z]. *)

From S2P Require Import Prelude.

Definition rotr32 (n x : Z) : Z :=
  uint32 (Z.lor (Z.shiftr x n) (Z.shiftl x (32 - n))).

(** The constants are defined from the first primes: the fractional parts, to
    32 bits, of their cube roots and of their square roots. *)
Fixpoint primes_from (n : nat) (candidate : Z) (found : list Z) : list Z :=
  match n with
  | O => found
  | S n' =>
      primes_from n' (candidate + 1)
        (if existsb (fun p => candidate mod p =? 0) found then found else found ++ [candidate])
  end.

(** The primes below 312, which are 64. *)
Definition primes : list Z := primes_from 310 2 [].

(** The cube root of [x], rounded down, one bit of it at a time from bit [n]. *)
Fixpoint cube_root (n : nat) (x root : Z) : Z :=
  let next := root + 2 ^ Z.of_nat n in
  let root' := if next * next * next <=? x then next else root in
  match n with
  | O => root'
  | S n' => cube_root n' x root'
  end.

Definition round_constants : list Z :=
  Eval vm_compute in map (fun p => uint32 (cube_root 40 (p * 2 ^ 96) 0)) primes.

Definition initial_hash : list Z :=
  Eval vm_compute in map (fun p => uint32 (Z.sqrt (p * 2 ^ 64))) (take 8 primes).

(** Big-endian bytes of a word. *)
Definition be_bytes (n : nat) (z : Z) : bytes := rev (le_put n z).

Definition be_word (b : bytes) : Z := le_get (rev b).

Definition pad (msg : bytes) : bytes :=
  let zeros := Z.to_nat ((55 - zlen msg) mod 64) in
  msg ++ [0x80] ++ replicate zeros 0 ++ be_bytes 8 (8 * zlen msg).

Fixpoint chunks (fuel n : nat) (l : bytes) : list bytes :=
  match fuel with
  | O => []
  | S fuel' => match l with
               | [] => []
               | _ => take n l :: chunks fuel' n (drop n l)
               end
  end.

Definition small_sigma0 (x : Z) : Z :=
  Z.lxor (Z.lxor (rotr32 7 x) (rotr32 18 x)) (Z.shiftr x 3).
Definition small_sigma1 (x : Z) : Z :=
  Z.lxor (Z.lxor (rotr32 17 x) (rotr32 19 x)) (Z.shiftr x 10).
Definition big_sigma0 (x : Z) : Z :=
  Z.lxor (Z.lxor (rotr32 2 x) (rotr32 13 x)) (rotr32 22 x).
Definition big_sigma1 (x : Z) : Z :=
  Z.lxor (Z.lxor (rotr32 6 x) (rotr32 11 x)) (rotr32 25 x).

(** The schedule, newest word first. *)
Fixpoint extend_schedule (n : nat) (w : list Z) : list Z :=
  match n with
  | O => w
  | S n' =>
      let at_ i := nth i w 0 in
      extend_schedule n'
        (uint32 (small_sigma1 (at_ 1%nat) + at_ 6%nat
                 + small_sigma0 (at_ 14%nat) + at_ 15%nat) :: w)
  end.

Definition schedule (block : bytes) : list Z :=
  rev (extend_schedule 48 (rev (map be_word (chunks 16 4 block)))).

Record regs : Set := mk_regs { ra : Z; rb : Z; rc : Z; rd : Z; re : Z; rf : Z; rg : Z; rh : Z }.

Definition round (r : regs) (kw : Z * Z) : regs :=
  let '(k, w) := kw in
  let ch := Z.lxor (Z.land (re r) (rf r)) (Z.land (Z.lxor (re r) (2 ^ 32 - 1)) (rg r)) in
  let t1 := rh r + big_sigma1 (re r) + ch + k + w in
  let maj := Z.lxor (Z.lxor (Z.land (ra r) (rb r)) (Z.land (ra r) (rc r)))
                    (Z.land (rb r) (rc r)) in
  let t2 := big_sigma0 (ra r) + maj in
  mk_regs (uint32 (t1 + t2)) (ra r) (rb r) (rc r) (uint32 (rd r + t1)) (re r) (rf r) (rg r).

Definition compress (h : list Z) (block : bytes) : list Z :=
  let r0 := mk_regs (nth 0 h 0) (nth 1 h 0) (nth 2 h 0) (nth 3 h 0)
                    (nth 4 h 0) (nth 5 h 0) (nth 6 h 0) (nth 7 h 0) in
  let r := fold_left round (combine round_constants (schedule block)) r0 in
  map (fun '(x, y) => uint32 (x + y))
    (combine h [ra r; rb r; rc r; rd r; re r; rf r; rg r; rh r]).

(** [sha256.Sum256] *)
Definition Sum256 (msg : bytes) : bytes :=
  let padded := pad msg in
  concat (map (be_bytes 4)
    (fold_left compress (chunks (length padded) 64 padded) initial_hash)).

(** * Test vectors and shape *)

Example Sum256_abc :
  Sum256 (string_bytes "abc") =
  [ 0xba; 0x78; 0x16; 0xbf; 0x8f; 0x01; 0xcf; 0xea; 0x41; 0x41; 0x40; 0xde; 0x5d; 0xae; 0x22; 0x23;
    0xb0; 0x03; 0x61; 0xa3; 0x96; 0x17; 0x7a; 0x9c; 0xb4; 0x10; 0xff; 0x61; 0xf2; 0x00; 0x15; 0xad ].
Proof. vm_compute. reflexivity. Qed.

(** Two blocks after padding. *)
Example Sum256_448_bits :
  Sum256 (string_bytes "abcdbcdecdefdefgefghfghighijhijkijkljklmklmnlmnomnopnopq") =
  [ 0x24; 0x8d; 0x6a; 0x61; 0xd2; 0x06; 0x38; 0xb8; 0xe5; 0xc0; 0x26; 0x93; 0x0c; 0x3e; 0x60; 0x39;
    0xa3; 0x3c; 0xe4; 0x59; 0x64; 0xff; 0x21; 0x67; 0xf6; 0xec; 0xed; 0xd4; 0x19; 0xdb; 0x06; 0xc1 ].
Proof. vm_compute. reflexivity. Qed.

Lemma length_compress h block : length h = 8%nat -> length (compress h block) = 8%nat.
Proof. intros H. unfold compress. rewrite length_map, length_combine, H. done. Qed.

Lemma length_fold_compress blocks h :
  length h = 8%nat -> length (fold_left compress blocks h) = 8%nat.
Proof.
  revert h. induction blocks as [|b blocks IH]; intros h H; [done|].
  cbn [fold_left]. by apply IH, length_compress.
Qed.

Lemma be_bytes_bytes n z : Forall is_byte (be_bytes n z).
Proof. unfold be_bytes. apply Forall_rev, le_put_bytes. Qed.

Lemma Sum256_bytes msg : Forall is_byte (Sum256 msg).
Proof.
  unfold Sum256. apply Forall_concat, Forall_map, Forall_forall.
  intros. apply be_bytes_bytes.
Qed.

Lemma length_Sum256 msg : length (Sum256 msg) = 32%nat.
Proof.
  unfold Sum256.
  pose proof (length_fold_compress (chunks (length (pad msg)) 64 (pad msg)) initial_hash eq_refl) as H.
  revert H. generalize (fold_left compress (chunks (length (pad msg)) 64 (pad msg)) initial_hash).
  intros l Hl. do 9 (destruct l as [|? l]; try done).
Qed.

#[export] Hint Resolve Sum256_bytes : go.
