(* ===== verification/SigHash.v ===== *)
(** Signature hashes:
    [src/domain/consensus/utils/consensushashing/calculate_signature_hash.go],
    with the element encoding of
    [src/domain/consensus/utils/serialization/common.go] and the hash writers
    of [src/domain/consensus/utils/hashes]. *)

From S2P Require Import Prelude ScriptError Transaction Sha256.

(** * Third-party cryptography

    [golang.org/x/crypto/blake2b] and [github.com/kaspanet/go-secp256k1] are
    not part of the repository.  A signature scheme of the latter: key and
    signature types with their parsers (a parse error is [None]), verification
    of a 32-byte hash, and the [IsEqual] methods. *)
Record SigScheme := mk_SigScheme {
  PublicKey : Type;
  Signature : Type;
  DeserializePubKey : bytes -> option PublicKey;
  DeserializeSignature : bytes -> option Signature;
  Verify : PublicKey -> bytes -> Signature -> bool;
  PubKeyIsEqual : PublicKey -> PublicKey -> bool;
  SigIsEqual : Signature -> Signature -> bool
}.

Class Crypto := {
  (** [blake2b.Sum256] *)
  blake2b_Sum256 : bytes -> bytes;
  (** [blake2b.New256(key)], the data written to it, [Sum] *)
  blake2b_New256 : bytes -> bytes -> bytes;
  schnorr : SigScheme;
  ecdsa : SigScheme
}.

(** What the code relies on in a scheme: [IsEqual] is equality. *)
Class SchemeLaws (sch : SigScheme) : Prop := {
  PubKeyIsEqual_spec : forall a b, PubKeyIsEqual sch a b = true <-> a = b;
  SigIsEqual_spec : forall a b, SigIsEqual sch a b = true <-> a = b
}.

(** Digests are 32 bytes. *)
Class CryptoLaws (C : Crypto) : Prop := {
  blake2b_Sum256_length : forall m, length (blake2b_Sum256 m) = 32%nat;
  blake2b_Sum256_bytes : forall m, Forall is_byte (blake2b_Sum256 m);
  #[global] schnorr_laws :: SchemeLaws schnorr;
  #[global] ecdsa_laws :: SchemeLaws ecdsa
}.

(** * Element encoding *)

(** The types [WriteElement] has a case for. *)
Inductive element : Set :=
| EBytes (e : bytes)
| EInt16 (e : Z)
| EUint16 (e : Z)
| EInt32 (e : Z)
| EUint32 (e : Z)
| EInt64 (e : Z)
| EUint64 (e : Z)
| EUint8 (e : Z)
| EBool (e : bool)
| EHash (e : bytes)
| ETransactionID (e : bytes)
| ESubnetworkID (e : bytes).

(** What is written to the (infallible) hash writer. *)
Definition WriteElement (e : element) : bytes :=
  match e with
  | EBytes e => le_put 8 (uint64 (zlen e)) ++ e
  | EInt16 e => le_put 2 (uint16 e)
  | EUint16 e => le_put 2 e
  | EInt32 e => le_put 4 (uint32 e)
  | EUint32 e => le_put 4 e
  | EInt64 e => le_put 8 (uint64 e)
  | EUint64 e => le_put 8 e
  | EUint8 e => [e]
  | EBool e => [if e then 0x01 else 0x00]
  | EHash e => e
  | ETransactionID e => e
  | ESubnetworkID e => e
  end.

Definition WriteElements (es : list element) : bytes := concat (map WriteElement es).

(** * Hash writers

    A writer is what has been written to it so far. *)

Definition transcationSigningDomain : string := "TransactionSigningHash".
Definition transcationSigningECDSADomain : string := "TransactionSigningHashECDSA".

Definition transactionSigningECDSADomainHash : bytes :=
  Sum256 (string_bytes transcationSigningECDSADomain).

(** [copy(sum[:], h.Sum(sum[:0]))] into a 32-byte array. *)
Definition Finalize_copy (sum : bytes) : bytes := copy_slice NewZeroHash sum.

Definition TransactionSigningHash `{Crypto} (written : bytes) : bytes :=
  Finalize_copy (blake2b_New256 (string_bytes transcationSigningDomain) written).

Definition TransactionSigningHashECDSA (written : bytes) : bytes :=
  Finalize_copy (Sum256 (transactionSigningECDSADomainHash ++ written)).

(** * Hash types *)

Definition SigHashAll : Z := 0x01.
Definition SigHashNone : Z := 0x02.
Definition SigHashSingle : Z := 0x04.
Definition SigHashAnyOneCanPay : Z := 0x80.
Definition SigHashMask : Z := 0x07.

Definition IsStandardSigHashType (sht : Z) : bool :=
  (sht =? SigHashAll) || (sht =? SigHashNone) || (sht =? SigHashSingle)
  || (sht =? Z.lor SigHashAll SigHashAnyOneCanPay)
  || (sht =? Z.lor SigHashNone SigHashAnyOneCanPay)
  || (sht =? Z.lor SigHashSingle SigHashAnyOneCanPay).

Definition isSigHashAll (sht : Z) : bool := Z.land sht SigHashMask =? SigHashAll.
Definition isSigHashNone (sht : Z) : bool := Z.land sht SigHashMask =? SigHashNone.
Definition isSigHashSingle (sht : Z) : bool := Z.land sht SigHashMask =? SigHashSingle.
Definition isSigHashAnyOneCanPay (sht : Z) : bool :=
  Z.land sht SigHashAnyOneCanPay =? SigHashAnyOneCanPay.

(** * The hash *)

(** The cached sub-hashes; [None] is a nil pointer. *)
Record SighashReusedValues : Set := mk_SighashReusedValues {
  previousOutputsHash : option bytes;
  sequencesHash : option bytes;
  sigOpCountsHash : option bytes;
  outputsHash : option bytes;
  payloadHash : option bytes
}.

Definition NoReusedValues : SighashReusedValues :=
  mk_SighashReusedValues None None None None None.

Definition set_previousOutputsHash (h : option bytes) (r : SighashReusedValues) :=
  mk_SighashReusedValues h (sequencesHash r) (sigOpCountsHash r) (outputsHash r) (payloadHash r).
Definition set_sequencesHash (h : option bytes) (r : SighashReusedValues) :=
  mk_SighashReusedValues (previousOutputsHash r) h (sigOpCountsHash r) (outputsHash r) (payloadHash r).
Definition set_sigOpCountsHash (h : option bytes) (r : SighashReusedValues) :=
  mk_SighashReusedValues (previousOutputsHash r) (sequencesHash r) h (outputsHash r) (payloadHash r).
Definition set_outputsHash (h : option bytes) (r : SighashReusedValues) :=
  mk_SighashReusedValues (previousOutputsHash r) (sequencesHash r) (sigOpCountsHash r) h (payloadHash r).
Definition set_payloadHash (h : option bytes) (r : SighashReusedValues) :=
  mk_SighashReusedValues (previousOutputsHash r) (sequencesHash r) (sigOpCountsHash r) (outputsHash r) h.

Section sighash.
Context `{Crypto}.

(** A computation that reads and fills the cache. *)
Abbreviation RM := (M error SighashReusedValues).

(** [if reused.f == nil { reused.f = compute }; return reused.f] *)
Definition reuse (field : SighashReusedValues -> option bytes)
    (set_field : option bytes -> SighashReusedValues -> SighashReusedValues)
    (compute : bytes) : RM bytes :=
  fun r => match field r with
           | Some h => (Ok h, r)
           | None => (Ok compute, set_field (Some compute) r)
           end.

Definition hashOutpoint (outpoint : DomainOutpoint) : bytes :=
  WriteElement (ETransactionID (TransactionID outpoint)) ++
  WriteElement (EUint32 (Index outpoint)).

Definition hashTxOut (txOut : DomainTransactionOutput) : bytes :=
  WriteElement (EUint64 (Value txOut)) ++
  WriteElement (EUint16 (spk_Version (out_ScriptPublicKey txOut))) ++
  WriteElement (EBytes (spk_Script (out_ScriptPublicKey txOut))).

Definition all_previousOutputs (tx : DomainTransaction) : bytes :=
  TransactionSigningHash
    (concat (map (fun txIn => hashOutpoint (PreviousOutpoint txIn)) (Inputs tx))).

Definition getPreviousOutputsHash (tx : DomainTransaction) (hashType : Z) : RM bytes :=
  if isSigHashAnyOneCanPay hashType then ret NewZeroHash
  else reuse previousOutputsHash set_previousOutputsHash (all_previousOutputs tx).

Definition all_sequences (tx : DomainTransaction) : bytes :=
  TransactionSigningHash
    (concat (map (fun txIn => WriteElement (EUint64 (Sequence txIn))) (Inputs tx))).

Definition getSequencesHash (tx : DomainTransaction) (hashType : Z) : RM bytes :=
  if isSigHashSingle hashType || isSigHashAnyOneCanPay hashType || isSigHashNone hashType
  then ret NewZeroHash
  else reuse sequencesHash set_sequencesHash (all_sequences tx).

Definition all_sigOpCounts (tx : DomainTransaction) : bytes :=
  TransactionSigningHash
    (concat (map (fun txIn => WriteElement (EUint8 (SigOpCount txIn))) (Inputs tx))).

Definition getSigOpCountsHash (tx : DomainTransaction) (hashType : Z) : RM bytes :=
  if isSigHashAnyOneCanPay hashType then ret NewZeroHash
  else reuse sigOpCountsHash set_sigOpCountsHash (all_sigOpCounts tx).

Definition all_outputs (tx : DomainTransaction) : bytes :=
  TransactionSigningHash (concat (map hashTxOut (Outputs tx))).

Definition getOutputsHash (tx : DomainTransaction) (inputIndex hashType : Z) : RM bytes :=
  if isSigHashNone hashType then ret NewZeroHash
  else if isSigHashSingle hashType then
    if inputIndex >=? zlen (Outputs tx) then ret NewZeroHash
    else
      let* txOut := index (Outputs tx) inputIndex in
      ret (TransactionSigningHash (hashTxOut txOut))
  else reuse outputsHash set_outputsHash (all_outputs tx).

Definition all_payload (tx : DomainTransaction) : bytes :=
  TransactionSigningHash (WriteElement (EBytes (Payload tx))).

Definition getPayloadHash (tx : DomainTransaction) : RM bytes :=
  if bool_decide (SubnetworkID tx = SubnetworkIDNative) then ret NewZeroHash
  else reuse payloadHash set_payloadHash (all_payload tx).

(** The bytes that are hashed, given the sub-hashes. *)
Definition sighash_preimage (tx : DomainTransaction) (txIn : DomainTransactionInput)
    (entry : UTXOEntry) (hashType : Z)
    (prevOutputs sequences sigOpCounts outputs payload : bytes) : bytes :=
  WriteElement (EUint16 (Version tx)) ++
  WriteElement (EHash prevOutputs) ++
  WriteElement (EHash sequences) ++
  WriteElement (EHash sigOpCounts) ++
  hashOutpoint (PreviousOutpoint txIn) ++
  WriteElement (EUint16 (spk_Version (utxo_ScriptPublicKey entry))) ++
  WriteElement (EBytes (spk_Script (utxo_ScriptPublicKey entry))) ++
  WriteElement (EUint64 (Amount entry)) ++
  WriteElement (EUint64 (Sequence txIn)) ++
  WriteElement (EUint8 (SigOpCount txIn)) ++
  WriteElement (EHash outputs) ++
  WriteElement (EUint64 (LockTime tx)) ++
  WriteElement (ESubnetworkID (SubnetworkID tx)) ++
  WriteElement (EUint64 (Gas tx)) ++
  WriteElement (EHash payload) ++
  WriteElement (EUint8 (uint8 hashType)).

Definition calculateSignatureHash (tx : DomainTransaction) (inputIndex : Z)
    (txIn : DomainTransactionInput) (entry : UTXOEntry) (hashType : Z) : RM bytes :=
  let* prevOutputs := getPreviousOutputsHash tx hashType in
  let* sequences := getSequencesHash tx hashType in
  let* sigOpCounts := getSigOpCountsHash tx hashType in
  let* outputs := getOutputsHash tx inputIndex hashType in
  let* payload := getPayloadHash tx in
  ret (TransactionSigningHash
         (sighash_preimage tx txIn entry hashType prevOutputs sequences sigOpCounts
            outputs payload)).

(** A nil [UTXOEntry] panics on the first method call. *)
Definition CalculateSignatureHashSchnorr (tx : DomainTransaction) (inputIndex hashType : Z)
  : RM bytes :=
  if negb (IsStandardSigHashType hashType) then throw OtherError else
  let* txIn := index (Inputs tx) inputIndex in
  match in_UTXOEntry txIn with
  | None => panic
  | Some entry => calculateSignatureHash tx inputIndex txIn entry hashType
  end.

Definition CalculateSignatureHashECDSA (tx : DomainTransaction) (inputIndex hashType : Z)
  : RM bytes :=
  let* hash := CalculateSignatureHashSchnorr tx inputIndex hashType in
  ret (TransactionSigningHashECDSA hash).

End sighash.

(** * Reuse of sub-hashes *)

Section reuse_facts.
Context `{Crypto}.

(** Every cached value is the one this transaction gives. *)
Definition reuse_ok (tx : DomainTransaction) (r : SighashReusedValues) : Prop :=
  (forall h, previousOutputsHash r = Some h -> h = all_previousOutputs tx) /\
  (forall h, sequencesHash r = Some h -> h = all_sequences tx) /\
  (forall h, sigOpCountsHash r = Some h -> h = all_sigOpCounts tx) /\
  (forall h, outputsHash r = Some h -> h = all_outputs tx) /\
  (forall h, payloadHash r = Some h -> h = all_payload tx).

Lemma reuse_ok_empty tx : reuse_ok tx NoReusedValues.
Proof. by repeat split. Qed.

(** A computation whose result does not depend on what the cache holds. *)
Definition transparent {A} (tx : DomainTransaction)
    (m : M error SighashReusedValues A) : Prop :=
  forall r, reuse_ok tx r ->
    fst (m r) = fst (m NoReusedValues) /\ reuse_ok tx (snd (m r)).

Lemma transparent_ret {A} tx (a : A) : transparent tx (ret a).
Proof. intros r Hr. done. Qed.

Lemma transparent_lift {A} tx (x : res error A) : transparent tx (lift x).
Proof. intros r Hr. done. Qed.

Lemma transparent_bind {A B} tx (m : M error SighashReusedValues A)
    (k : A -> M error SighashReusedValues B) :
  transparent tx m -> (forall a, transparent tx (k a)) -> transparent tx (bind m k).
Proof.
  intros Hm Hk r Hr. destruct (Hm r Hr) as [Hf Ho].
  destruct (Hm NoReusedValues (reuse_ok_empty tx)) as [_ Ho0].
  unfold bind. destruct (m r) as [[a|e|] r1], (m NoReusedValues) as [[a'|e'|] r2];
    simpl in *; simplify_eq; try done.
  destruct (Hk a' r1 Ho) as [H1 H2]. destruct (Hk a' r2 Ho0) as [H3 _]. by rewrite H1, H3.
Qed.

Lemma transparent_getPreviousOutputsHash tx ht : transparent tx (getPreviousOutputsHash tx ht).
Proof.
  intros r Hr. unfold getPreviousOutputsHash. case_if; [done|]. unfold reuse. cbn.
  destruct Hr as (H1 & H2 & H3 & H4 & H5). destruct (previousOutputsHash r) eqn:E; simpl.
  - split; [f_equal; by apply H1|]. by rewrite <- E in H1.
  - split; [done|]. repeat split; simpl; intros h; [by intros [= <-]|auto..].
Qed.

Lemma transparent_getSequencesHash tx ht : transparent tx (getSequencesHash tx ht).
Proof.
  intros r Hr. unfold getSequencesHash. case_if; [done|]. unfold reuse. cbn.
  destruct Hr as (H1 & H2 & H3 & H4 & H5). destruct (sequencesHash r) eqn:E; simpl.
  - split; [f_equal; by apply H2|]. by rewrite <- E in H2.
  - split; [done|]. repeat split; simpl; intros h; [auto|by intros [= <-]|auto..].
Qed.

Lemma transparent_getSigOpCountsHash tx ht : transparent tx (getSigOpCountsHash tx ht).
Proof.
  intros r Hr. unfold getSigOpCountsHash. case_if; [done|]. unfold reuse. cbn.
  destruct Hr as (H1 & H2 & H3 & H4 & H5). destruct (sigOpCountsHash r) eqn:E; simpl.
  - split; [f_equal; by apply H3|]. by rewrite <- E in H3.
  - split; [done|]. repeat split; simpl; intros h; [auto|auto|by intros [= <-]|auto..].
Qed.

Lemma transparent_getOutputsHash tx i ht : transparent tx (getOutputsHash tx i ht).
Proof.
  unfold getOutputsHash. case_if; [apply transparent_ret|]. case_if.
  { case_if; [apply transparent_ret|]. apply transparent_bind; [apply transparent_lift|].
    intros. apply transparent_ret. }
  intros r Hr. unfold reuse. cbn.
  destruct Hr as (H1 & H2 & H3 & H4 & H5). destruct (outputsHash r) eqn:E; simpl.
  - split; [f_equal; by apply H4|]. by rewrite <- E in H4.
  - split; [done|]. repeat split; simpl; intros h; [auto..|by intros [= <-]|auto].
Qed.

Lemma transparent_getPayloadHash tx : transparent tx (getPayloadHash tx).
Proof.
  intros r Hr. unfold getPayloadHash. case_if; [done|]. unfold reuse. cbn.
  destruct Hr as (H1 & H2 & H3 & H4 & H5). destruct (payloadHash r) eqn:E; simpl.
  - split; [f_equal; by apply H5|]. by rewrite <- E in H5.
  - split; [done|]. repeat split; simpl; intros h; [auto..|by intros [= <-]].
Qed.

Lemma transparent_Schnorr tx i ht : transparent tx (CalculateSignatureHashSchnorr tx i ht).
Proof.
  unfold CalculateSignatureHashSchnorr. case_if; [by intros r Hr|].
  apply transparent_bind; [apply transparent_lift|]. intros txIn.
  destruct (in_UTXOEntry txIn); [|by intros r Hr]. unfold calculateSignatureHash.
  repeat (apply transparent_bind; [|intros ?]);
    auto using transparent_getPreviousOutputsHash, transparent_getSequencesHash,
      transparent_getSigOpCountsHash, transparent_getOutputsHash,
      transparent_getPayloadHash, transparent_ret.
Qed.

Lemma transparent_ECDSA tx i ht : transparent tx (CalculateSignatureHashECDSA tx i ht).
Proof.
  apply transparent_bind; [apply transparent_Schnorr|]. intros. apply transparent_ret.
Qed.

(** The hash of a transaction with a valid input and a known output spent. *)
Lemma Schnorr_hash_ok tx i ht r :
  IsStandardSigHashType ht = true ->
  (exists txIn entry, lookupZ (Inputs tx) i = Some txIn /\ in_UTXOEntry txIn = Some entry) ->
  exists h r', CalculateSignatureHashSchnorr tx i ht r = (Ok h, r').
Proof.
  intros Hht (txIn & entry & Hin & He). unfold CalculateSignatureHashSchnorr. rewrite Hht.
  cbn [negb]. unfold index, index_res. rewrite Hin.
  unfold bind at 1, lift. rewrite He. unfold calculateSignatureHash.
  assert (Hr : forall f g c r, exists h r', reuse f g c r = (Ok h, r')).
  { intros f g c r0. unfold reuse. destruct (f r0); eauto. }
  assert (H1 : forall r, exists h r', getPreviousOutputsHash tx ht r = (Ok h, r')).
  { intros r0. unfold getPreviousOutputsHash, ret. case_if; eauto. }
  assert (H2 : forall r, exists h r', getSequencesHash tx ht r = (Ok h, r')).
  { intros r0. unfold getSequencesHash, ret. case_if; eauto. }
  assert (H3 : forall r, exists h r', getSigOpCountsHash tx ht r = (Ok h, r')).
  { intros r0. unfold getSigOpCountsHash, ret. case_if; eauto. }
  assert (H4 : forall r, exists h r', getOutputsHash tx i ht r = (Ok h, r')).
  { intros r0. unfold getOutputsHash, ret. case_if; [eauto|]. case_if; [|eauto].
    case_if; [eauto|]. pose proof (lookupZ_Some_range _ _ _ Hin).
    destruct (lookupZ_in_range (Outputs tx) i) as [o Ho]; [lia|].
    unfold bind, index, lift, index_res. rewrite Ho. eauto. }
  assert (H5 : forall r, exists h r', getPayloadHash tx r = (Ok h, r')).
  { intros r0. unfold getPayloadHash, ret. case_if; eauto. }
  destruct (H1 r) as (h1 & r1 & E1). erewrite bind_ok by exact E1.
  destruct (H2 r1) as (h2 & r2 & E2). erewrite bind_ok by exact E2.
  destruct (H3 r2) as (h3 & r3 & E3). erewrite bind_ok by exact E3.
  destruct (H4 r3) as (h4 & r4 & E4). erewrite bind_ok by exact E4.
  destruct (H5 r4) as (h5 & r5 & E5). erewrite bind_ok by exact E5.
  unfold ret. eauto.
Qed.

(** Caching of sub-hashes is invisible: with values cached by earlier calls
    for the same transaction, the signature hash is the one computed from
    scratch, and what is left in the cache is again correct for it. *)
Theorem sighash_reuse_transparent tx i ht r :
  reuse_ok tx r ->
  fst (CalculateSignatureHashSchnorr tx i ht r) =
    fst (CalculateSignatureHashSchnorr tx i ht NoReusedValues) /\
  fst (CalculateSignatureHashECDSA tx i ht r) =
    fst (CalculateSignatureHashECDSA tx i ht NoReusedValues) /\
  reuse_ok tx (snd (CalculateSignatureHashSchnorr tx i ht r)) /\
  reuse_ok tx (snd (CalculateSignatureHashECDSA tx i ht r)).
Proof.
  intros Hr. destruct (transparent_Schnorr tx i ht r Hr). destruct (transparent_ECDSA tx i ht r Hr).
  done.
Qed.

End reuse_facts.

(** * What a signature commits to *)

Section commitment.
Context `{Crypto}.

(** The parts of a transaction a signature of the given hash type over input
    [i] covers are the same in [tx1] and [tx2]. *)
Definition same_covered (tx1 tx2 : DomainTransaction) (i ht : Z) : Prop :=
  Version tx1 = Version tx2 /\ LockTime tx1 = LockTime tx2 /\
  SubnetworkID tx1 = SubnetworkID tx2 /\ Gas tx1 = Gas tx2 /\
  (SubnetworkID tx1 = SubnetworkIDNative \/ Payload tx1 = Payload tx2) /\
  match lookupZ (Inputs tx1) i, lookupZ (Inputs tx2) i with
  | Some in1, Some in2 =>
      PreviousOutpoint in1 = PreviousOutpoint in2 /\ Sequence in1 = Sequence in2 /\
      SigOpCount in1 = SigOpCount in2 /\ in_UTXOEntry in1 = in_UTXOEntry in2
  | None, None => True
  | _, _ => False
  end /\
  (isSigHashAnyOneCanPay ht = true \/
   map PreviousOutpoint (Inputs tx1) = map PreviousOutpoint (Inputs tx2) /\
   map SigOpCount (Inputs tx1) = map SigOpCount (Inputs tx2)) /\
  (isSigHashSingle ht || isSigHashAnyOneCanPay ht || isSigHashNone ht = true \/
   map Sequence (Inputs tx1) = map Sequence (Inputs tx2)) /\
  (isSigHashNone ht = true \/
   (isSigHashSingle ht = true /\ lookupZ (Outputs tx1) i = lookupZ (Outputs tx2) i) \/
   Outputs tx1 = Outputs tx2).

Lemma map_through {A B C} (f : A -> B) (g : B -> C) (l1 l2 : list A) :
  map f l1 = map f l2 -> map (fun x => g (f x)) l1 = map (fun x => g (f x)) l2.
Proof. intros Hf. rewrite <- (map_map f g l1), <- (map_map f g l2). by rewrite Hf. Qed.

Lemma getOutputsHash_covered tx1 tx2 i ht :
  0 <= i ->
  isSigHashNone ht = true \/
   (isSigHashSingle ht = true /\ lookupZ (Outputs tx1) i = lookupZ (Outputs tx2) i) \/
   Outputs tx1 = Outputs tx2 ->
  forall r, getOutputsHash tx1 i ht r = getOutputsHash tx2 i ht r.
Proof.
  intros Hi Hc r. unfold getOutputsHash. destruct (isSigHashNone ht); [done|].
  destruct Hc as [?|[[Hs Ho]|Ho]]; [done| |].
  - rewrite Hs. unfold bind, index, index_res, lift. rewrite Ho.
    destruct (lookupZ (Outputs tx2) i) eqn:E2.
    + apply lookupZ_Some_range in Ho. apply lookupZ_Some_range in E2.
      by do 2 (case_if; [lia|]).
    + assert (Hge : forall tx, lookupZ (Outputs tx) i = None -> (i >=? zlen (Outputs tx)) = true).
      { intros tx Hn. destruct (i >=? zlen (Outputs tx)) eqn:?; [done|].
        destruct (lookupZ_in_range (Outputs tx) i) as [? Hx]; [lia|]. congruence. }
      by rewrite !Hge.
  - unfold all_outputs. by rewrite Ho.
Qed.

Lemma sighash_same_covered tx1 tx2 i ht :
  0 <= i -> same_covered tx1 tx2 i ht ->
  forall r, CalculateSignatureHashSchnorr tx1 i ht r = CalculateSignatureHashSchnorr tx2 i ht r.
Proof.
  intros Hi (Hv & Hl & Hs & Hg & Hp & Hin & Ha & Hq & Ho) r.
  unfold CalculateSignatureHashSchnorr. case_if; [done|].
  unfold bind, index, index_res, lift.
  destruct (lookupZ (Inputs tx1) i) as [in1|], (lookupZ (Inputs tx2) i) as [in2|]; try done.
  destruct Hin as (H1 & H2 & H3 & H4). rewrite H4. destruct (in_UTXOEntry in2) as [entry|]; [|done].
  assert (E1 : getPreviousOutputsHash tx1 ht = getPreviousOutputsHash tx2 ht).
  { unfold getPreviousOutputsHash, all_previousOutputs. destruct Ha as [->|[Ha _]]; [done|].
    by rewrite (map_through PreviousOutpoint hashOutpoint _ _ Ha). }
  assert (E2 : getSequencesHash tx1 ht = getSequencesHash tx2 ht).
  { unfold getSequencesHash, all_sequences. destruct Hq as [->|Hq]; [done|].
    by rewrite (map_through Sequence (fun s => WriteElement (EUint64 s)) _ _ Hq). }
  assert (E3 : getSigOpCountsHash tx1 ht = getSigOpCountsHash tx2 ht).
  { unfold getSigOpCountsHash, all_sigOpCounts. destruct Ha as [->|[_ Ha]]; [done|].
    by rewrite (map_through SigOpCount (fun s => WriteElement (EUint8 s)) _ _ Ha). }
  assert (E5 : getPayloadHash tx1 = getPayloadHash tx2).
  { unfold getPayloadHash, all_payload. rewrite <- Hs.
    destruct Hp as [Hp| ->]; [by rewrite !bool_decide_eq_true_2|done]. }
  unfold calculateSignatureHash, sighash_preimage.
  rewrite E1, E2, E3, E5, Hv, Hl, Hs, Hg, H1, H2, H3.
  unfold bind. destruct (getPreviousOutputsHash tx2 ht r) as [[?|?|] r1]; [|done..].
  destruct (getSequencesHash tx2 ht r1) as [[?|?|] r2]; [|done..].
  destruct (getSigOpCountsHash tx2 ht r2) as [[?|?|] r3]; [|done..].
  by rewrite (getOutputsHash_covered tx1 tx2 i ht Hi Ho).
Qed.

(** A signature covers nothing else: transactions that agree on the parts
    the hash type covers (all outputs, the output at the input's index, or none;
    all inputs or only the signed one) have the same signature hash. *)
Theorem sighash_covers tx1 tx2 i ht :
  0 <= i -> same_covered tx1 tx2 i ht ->
  forall r, CalculateSignatureHashSchnorr tx1 i ht r = CalculateSignatureHashSchnorr tx2 i ht r.
Proof. apply sighash_same_covered. Qed.

End commitment.

(** Two encodings of the same length, followed by more. *)
Lemma app_inv_length {A} (l1 l2 k1 k2 : list A) :
  l1 ++ k1 = l2 ++ k2 -> length l1 = length l2 -> l1 = l2 /\ k1 = k2.
Proof. intros He Hl. by apply app_inj_1 in He. Qed.

Lemma le_put_inj n x y :
  le_put n x = le_put n y ->
  0 <= x < 256 ^ Z.of_nat n -> 0 <= y < 256 ^ Z.of_nat n -> x = y.
Proof.
  intros He Hx Hy. apply (f_equal le_get) in He. rewrite !le_get_put in He.
  by rewrite !Z.mod_small in He.
Qed.

(** A length-prefixed byte string ends where its prefix says. *)
Lemma EBytes_inv b1 b2 k1 k2 :
  WriteElement (EBytes b1) ++ k1 = WriteElement (EBytes b2) ++ k2 ->
  zlen b1 < 2 ^ 64 -> zlen b2 < 2 ^ 64 -> b1 = b2 /\ k1 = k2.
Proof.
  intros He H1 H2. cbn [WriteElement] in He. rewrite <- !app_assoc in He.
  apply app_inv_length in He as [Hl He]; [|by rewrite !length_le_put].
  zlen_facts. unfold uint64 in Hl. rewrite !Z.mod_small in Hl by lia.
  apply le_put_inj in Hl; [|change (256 ^ Z.of_nat 8) with (2 ^ 64); lia..].
  apply app_inv_length in He; [done|]. unfold zlen in Hl. lia.
Qed.

(** The widths of the Go types of the fields that are written. *)
Definition input_widths (txIn : DomainTransactionInput) : Prop :=
  length (TransactionID (PreviousOutpoint txIn)) = 32%nat /\
  0 <= Index (PreviousOutpoint txIn) < 2 ^ 32 /\
  0 <= Sequence txIn < 2 ^ 64.

Definition entry_widths (entry : UTXOEntry) : Prop :=
  0 <= Amount entry < 2 ^ 64 /\
  0 <= spk_Version (utxo_ScriptPublicKey entry) < 2 ^ 16 /\
  zlen (spk_Script (utxo_ScriptPublicKey entry)) < 2 ^ 64.

Definition tx_widths (tx : DomainTransaction) : Prop :=
  0 <= Version tx < 2 ^ 16 /\ 0 <= LockTime tx < 2 ^ 64 /\ 0 <= Gas tx < 2 ^ 64 /\
  length (SubnetworkID tx) = 20%nat.

(** Peels the next fixed-width field off an equation of two encodings. *)
Ltac peel H :=
  let E := fresh "E" in
  apply app_inv_length in H as [E H];
  [try (apply le_put_inj in E; [|simpl; lia..])
  |rewrite ?length_le_put; simpl; congruence].

(** C23: The bytes under a signature determine every field they encode: two
    preimages with 32-byte sub-hashes are equal only when the version, the
    sub-hashes, the outpoint, the script and amount spent, the sequence, the
    signature operation count, the lock time, the subnetwork, the gas and the
    hash type byte are. *)
Theorem sighash_preimage_injective tx1 in1 e1 ht1 p1 s1 c1 o1 y1 tx2 in2 e2 ht2 p2 s2 c2 o2 y2 :
  Forall (fun h => length h = 32%nat) [p1; s1; c1; o1; y1; p2; s2; c2; o2; y2] ->
  tx_widths tx1 -> tx_widths tx2 -> input_widths in1 -> input_widths in2 ->
  entry_widths e1 -> entry_widths e2 ->
  sighash_preimage tx1 in1 e1 ht1 p1 s1 c1 o1 y1 =
    sighash_preimage tx2 in2 e2 ht2 p2 s2 c2 o2 y2 ->
  Version tx1 = Version tx2 /\ p1 = p2 /\ s1 = s2 /\ c1 = c2 /\
  PreviousOutpoint in1 = PreviousOutpoint in2 /\
  utxo_ScriptPublicKey e1 = utxo_ScriptPublicKey e2 /\ Amount e1 = Amount e2 /\
  Sequence in1 = Sequence in2 /\ SigOpCount in1 = SigOpCount in2 /\ o1 = o2 /\
  LockTime tx1 = LockTime tx2 /\ SubnetworkID tx1 = SubnetworkID tx2 /\
  Gas tx1 = Gas tx2 /\ y1 = y2 /\ uint8 ht1 = uint8 ht2.
Proof.
  intros Hl (Hv1 & Hlt1 & Hg1 & Hs1) (Hv2 & Hlt2 & Hg2 & Hs2) (Ht1 & Hi1 & Hq1)
    (Ht2 & Hi2 & Hq2) (Ha1 & Hsv1 & Hsl1) (Ha2 & Hsv2 & Hsl2) He.
  repeat (apply Forall_cons_1 in Hl as [? Hl]).
  destruct (PreviousOutpoint in1) as [t1 x1] eqn:Eo1, (PreviousOutpoint in2) as [t2 x2] eqn:Eo2.
  destruct (utxo_ScriptPublicKey e1) as [sc1 v1] eqn:Es1,
           (utxo_ScriptPublicKey e2) as [sc2 v2] eqn:Es2.
  unfold sighash_preimage, hashOutpoint in He. rewrite Eo1, Eo2, Es1, Es2 in He.
  cbn [TransactionID Index spk_Script spk_Version] in *.
  rewrite <- !app_assoc in He.
  do 7 (cbn [WriteElement] in He; peel He).
  apply EBytes_inv in He as [Ed He]; [|done..].
  do 8 (cbn [WriteElement] in He; peel He). cbn [WriteElement] in He.
  simplify_eq. repeat split; congruence.
Qed.

(** * A concrete instance

    Digests by SHA-256; a key of 32 (33) bytes and a signature of 64 bytes that
    verifies when it is the hash followed by the last 32 bytes of the key. *)
Definition test_scheme (keyLen : Z) : SigScheme := {|
  PublicKey := bytes;
  Signature := bytes;
  DeserializePubKey b := if zlen b =? keyLen then Some b else None;
  DeserializeSignature b := if zlen b =? 64 then Some b else None;
  Verify k h s := bool_decide (s = h ++ drop (Z.to_nat (keyLen - 32)) k);
  PubKeyIsEqual a b := bool_decide (a = b);
  SigIsEqual a b := bool_decide (a = b)
|}.

Definition test_crypto : Crypto := {|
  blake2b_Sum256 := Sum256;
  blake2b_New256 key m := Sum256 (key ++ m);
  schnorr := test_scheme 32;
  ecdsa := test_scheme 33
|}.

Lemma test_scheme_laws n : SchemeLaws (test_scheme n).
Proof. split; intros a b; apply bool_decide_eq_true. Qed.

Lemma test_crypto_laws : CryptoLaws test_crypto.
Proof. split; simpl; auto using length_Sum256, Sum256_bytes, test_scheme_laws. Qed.

Definition test_entry : UTXOEntry :=
  mk_UTXOEntry 1000 (mk_ScriptPublicKey [0x51] 0) 7 false.

Definition test_input (i seq : Z) : DomainTransactionInput :=
  mk_DomainTransactionInput (mk_DomainOutpoint (replicate 32 i) i) [] seq 1 (Some test_entry).

Definition test_tx : DomainTransaction :=
  mk_DomainTransaction 0 [test_input 1 5; test_input 2 6]
    [mk_DomainTransactionOutput 900 (mk_ScriptPublicKey [0x52] 0)]
    100 SubnetworkIDNative 0 [] 0 0 None.

(** Another second input and another output. *)
Definition test_tx' : DomainTransaction :=
  mk_DomainTransaction 0 [test_input 1 5; test_input 3 9]
    [mk_DomainTransactionOutput 800 (mk_ScriptPublicKey [0x53] 0)]
    100 SubnetworkIDNative 0 [] 0 0 None.

Definition test_reused : SighashReusedValues :=
  mk_SighashReusedValues (Some (@all_previousOutputs test_crypto test_tx)) None None
    (Some (@all_outputs test_crypto test_tx)) None.

Lemma sighash_reuse_transparent_witness :
  @reuse_ok test_crypto test_tx test_reused /\
  fst (@CalculateSignatureHashECDSA test_crypto test_tx 1 SigHashAll test_reused) =
  fst (@CalculateSignatureHashECDSA test_crypto test_tx 1 SigHashAll NoReusedValues).
Proof.
  assert (Hr : @reuse_ok test_crypto test_tx test_reused).
  { repeat split; intros h Hh; try discriminate Hh; injection Hh as <-; reflexivity. }
  split; [exact Hr|].
  exact (proj1 (proj2 (@sighash_reuse_transparent test_crypto test_tx 1 SigHashAll test_reused Hr))).
Defined.

Lemma sighash_covers_witness :
  test_tx <> test_tx' /\
  @CalculateSignatureHashSchnorr test_crypto test_tx 0
    (Z.lor SigHashNone SigHashAnyOneCanPay) NoReusedValues =
  @CalculateSignatureHashSchnorr test_crypto test_tx' 0
    (Z.lor SigHashNone SigHashAnyOneCanPay) NoReusedValues.
Proof.
  split; [discriminate|].
  apply (@sighash_covers test_crypto test_tx test_tx' 0 (Z.lor SigHashNone SigHashAnyOneCanPay));
    [lia|].
  unfold same_covered. cbn. repeat split; try reflexivity; left; reflexivity.
Defined.

Lemma sighash_preimage_injective_witness :
  uint8 SigHashAll = uint8 (SigHashAll + 256).
Proof.
  set (z := NewZeroHash).
  refine (_ (sighash_preimage_injective test_tx (test_input 1 5) test_entry SigHashAll z z z z z
    test_tx (test_input 1 5) test_entry (SigHashAll + 256) z z z z z _ _ _ _ _ _ _ _)).
  - intros (_ & _ & _ & _ & _ & _ & _ & _ & _ & _ & _ & _ & _ & _ & Hu). exact Hu.
  - repeat constructor.
  - repeat split; simpl; lia.
  - repeat split; simpl; lia.
  - repeat split; simpl; lia.
  - repeat split; simpl; lia.
  - repeat split; simpl; lia.
  - repeat split; simpl; lia.
  - reflexivity.
Defined.
