(* ===== verification/SigCache.v ===== *)
(** The signature caches: [src/domain/consensus/utils/txscript/sigcache.go] and
    [sigcache_ecdsa.go].  The two files differ only in the signature scheme,
    which is a parameter here. *)

From S2P Require Import Prelude ScriptError Transaction Sha256 SigHash.

(** The first key a [range] over a Go map visits.  The language leaves the order
    open; it may differ between iterations, so it may depend on a counter. *)
Class MapIteration := {
  firstKey : forall V : Type, nat -> gmap bytes V -> option bytes;
  firstKey_None : forall (V : Type) n (m : gmap bytes V), firstKey V n m = None <-> m = ∅;
  firstKey_Some : forall (V : Type) n (m : gmap bytes V) k,
    firstKey V n m = Some k -> is_Some (m !! k)
}.

Section cache.
Context (sch : SigScheme) `{MapIteration}.

Record sigCacheEntry := mk_sigCacheEntry {
  entry_sig : Signature sch;
  entry_pubKey : PublicKey sch
}.

(** [iterations] counts the iterations started so far, for [firstKey]. *)
Record SigCache := mk_SigCache {
  validSigs : gmap bytes sigCacheEntry;
  maxEntries : Z;
  iterations : nat
}.

Definition NewSigCache (maxEntries : Z) : SigCache := mk_SigCache ∅ maxEntries 0.

Definition Exists (s : SigCache) (sigHash : bytes) (sig : Signature sch)
    (pubKey : PublicKey sch) : bool :=
  match validSigs s !! sigHash with
  | Some entry =>
      PubKeyIsEqual sch (entry_pubKey entry) pubKey && SigIsEqual sch (entry_sig entry) sig
  | None => false
  end.

(** [for sigEntry := range s.validSigs { delete(s.validSigs, sigEntry); break }] *)
Definition evict (s : SigCache) : SigCache :=
  match firstKey _ (iterations s) (validSigs s) with
  | Some sigEntry =>
      mk_SigCache (delete sigEntry (validSigs s)) (maxEntries s) (S (iterations s))
  | None => mk_SigCache (validSigs s) (maxEntries s) (S (iterations s))
  end.

Definition Add (s : SigCache) (sigHash : bytes) (sig : Signature sch)
    (pubKey : PublicKey sch) : SigCache :=
  if maxEntries s =? 0 then s else
  let s := if Z.of_nat (size (validSigs s)) + 1 >? maxEntries s then evict s else s in
  mk_SigCache (<[sigHash := mk_sigCacheEntry sig pubKey]> (validSigs s))
    (maxEntries s) (iterations s).

(** * The cache invariant *)

(** The cache never holds more than its capacity, and only signatures that
    verify. *)
Definition cache_inv (s : SigCache) : Prop :=
  Z.of_nat (size (validSigs s)) <= maxEntries s /\
  map_Forall (fun h e => Verify sch (entry_pubKey e) h (entry_sig e) = true) (validSigs s).

Lemma NewSigCache_inv n : 0 <= n -> cache_inv (NewSigCache n).
Proof. intros Hn. split; [done|apply map_Forall_empty]. Qed.

Lemma maxEntries_Add s h sig pk : maxEntries (Add s h sig pk) = maxEntries s.
Proof. unfold Add, evict. by repeat case_match. Qed.

(** After an eviction there is room for one more entry. *)
Lemma evict_inv s :
  0 < maxEntries s -> cache_inv s ->
  cache_inv (evict s) /\ maxEntries (evict s) = maxEntries s /\
  Z.of_nat (size (validSigs (evict s))) + 1 <= maxEntries s.
Proof.
  intros Hm [Hs Hv]. unfold cache_inv, evict. destruct (firstKey _ _ _) as [k|] eqn:Hk; simpl.
  - apply firstKey_Some in Hk. rewrite map_size_delete_Some by done.
    assert (size (validSigs s) <> 0%nat).
    { intros He%map_size_empty_inv. rewrite He, lookup_empty in Hk. by destruct Hk. }
    repeat split; [lia|by apply map_Forall_delete|lia].
  - apply firstKey_None in Hk. rewrite Hk in *.
    change (size (∅ : gmap bytes sigCacheEntry)) with 0%nat in *.
    repeat split; [lia|done|lia].
Qed.

Lemma Add_inv s h sig pk :
  cache_inv s -> Verify sch pk h sig = true -> cache_inv (Add s h sig pk).
Proof.
  intros Hi Hver. unfold Add. destruct (Z.eqb_spec (maxEntries s) 0) as [?|Hm]; [done|].
  assert (0 < maxEntries s) by (destruct Hi; lia).
  assert (Hroom : exists s', s' =
      (if Z.of_nat (size (validSigs s)) + 1 >? maxEntries s then evict s else s) /\
      cache_inv s' /\ maxEntries s' = maxEntries s /\
      Z.of_nat (size (validSigs s')) + 1 <= maxEntries s).
  { eexists. split; [done|]. case_if; [by apply evict_inv|]. repeat split; [apply Hi..|lia]. }
  destruct Hroom as (s' & <- & [Hs Hv] & Hme & Hsz). split; simpl.
  - rewrite map_size_insert. rewrite Hme. destruct (validSigs s' !! h); simpl; lia.
  - apply map_Forall_insert_2; done.
Qed.

Context `{!SchemeLaws sch}.

Lemma Exists_sound s h sig pk :
  cache_inv s -> Exists s h sig pk = true -> Verify sch pk h sig = true.
Proof.
  intros [_ Hv]. unfold Exists. destruct (validSigs s !! h) as [e|] eqn:He; [|done].
  intros [Hp%PubKeyIsEqual_spec Hg%SigIsEqual_spec]%andb_true_iff; [|done..].
  specialize (Hv h e He). simpl in Hv. by subst.
Qed.

Lemma Exists_Add s h sig pk :
  maxEntries s <> 0 -> Exists (Add s h sig pk) h sig pk = true.
Proof.
  intros Hm. unfold Exists, Add. destruct (Z.eqb_spec (maxEntries s) 0); [done|]. simpl.
  rewrite lookup_insert_eq. simpl. apply andb_true_iff.
  split; [by apply PubKeyIsEqual_spec|by apply SigIsEqual_spec].
Qed.

End cache.

Arguments validSigs {sch}.
Arguments maxEntries {sch}.
Arguments Exists {sch}.
Arguments Add {sch _}.
Arguments cache_inv {sch}.

(** * The two caches *)

Section instances.
Context `{Crypto} `{MapIteration}.

Definition SigCacheSchnorr : Type := SigCache schnorr.
Definition SigCacheECDSA : Type := SigCache ecdsa.
Definition NewSigCacheECDSA (maxEntries : Z) : SigCacheECDSA := NewSigCache ecdsa maxEntries.
Definition ExistsECDSA (s : SigCacheECDSA) (sigHash : bytes) (sig : Signature ecdsa)
    (pubKey : PublicKey ecdsa) : bool := Exists s sigHash sig pubKey.
Definition AddECDSA (s : SigCacheECDSA) (sigHash : bytes) (sig : Signature ecdsa)
    (pubKey : PublicKey ecdsa) : SigCacheECDSA := Add s sigHash sig pubKey.

End instances.

(** * Properties *)

(** A call of one of the mutating methods with a signature that verifies. *)
Inductive cache_reachable {sch : SigScheme} `{MapIteration} (n : Z) : SigCache sch -> Prop :=
| reach_new : cache_reachable n (NewSigCache sch n)
| reach_add s h sig pk :
    cache_reachable n s -> Verify sch pk h sig = true -> cache_reachable n (Add s h sig pk).

(** C28: Whatever verified signatures were added and whatever entries the
    eviction picked, the cache holds at most [maxEntries] entries, [Exists]
    answers true only for a signature that verifies, and (for a positive
    capacity) answers true right after the signature was added. *)
Theorem sigcache_correct {sch : SigScheme} `{MapIteration} `{!SchemeLaws sch} n
    (s : SigCache sch) h sig pk :
  0 <= n -> cache_reachable n s ->
  Z.of_nat (size (validSigs s)) <= n /\
  (Exists s h sig pk = true -> Verify sch pk h sig = true) /\
  (0 < n -> Exists (Add s h sig pk) h sig pk = true).
Proof.
  intros Hn Hr. assert (Hi : cache_inv s /\ maxEntries s = n).
  { induction Hr as [|s h' sig' pk' Hr [IH IHm] Hv]; [by split; [apply NewSigCache_inv|]|].
    rewrite maxEntries_Add. split; [by apply Add_inv|done]. }
  destruct Hi as [Hi Hm]. repeat split.
  - rewrite <- Hm. apply Hi.
  - by apply Exists_sound.
  - intros Hpos. apply Exists_Add; [done|lia].
Qed.

(** The order [map_to_list] gives. *)
Definition test_iteration : MapIteration.
Proof.
  refine {| firstKey V n m := option_map fst (head (map_to_list m)) |}.
  - intros V _ m. destruct (map_to_list m) as [|kv l] eqn:E; simpl.
    + by apply map_to_list_empty_iff in E.
    + split; [done|]. intros ->. by rewrite map_to_list_empty in E.
  - intros V _ m k. destruct (map_to_list m) as [|[k' v] l] eqn:E; simpl; [done|].
    intros [= <-]. exists v. apply elem_of_map_to_list. rewrite E. by left.
Defined.

Lemma sigcache_correct_witness :
  Exists (@Add (test_scheme 32) test_iteration (NewSigCache (test_scheme 32) 1)
    (replicate 32 1) (replicate 64 2) (replicate 32 3)) (replicate 32 1) (replicate 64 2)
    (replicate 32 3) = true.
Proof.
  apply (@sigcache_correct (test_scheme 32) test_iteration (test_scheme_laws 32) 1
    (NewSigCache (test_scheme 32) 1)); [lia|constructor|lia].
Defined.
