(* ===== verification/Engine.v ===== *)
(** The script engine: [src/domain/consensus/utils/txscript/engine.go] and the
    opcode handlers of [opcode.go].

    A handler is a method on the engine state that can return a script error or
    panic.  The table of [Opcodes.v] names handlers by constructors of
    [OpFunc]; [opfunc_run] maps a name to the handler. *)

From S2P Require Import Prelude ScriptError ScriptNum Stack Opcodes Transaction.
From S2P Require Import Script Sha256 SigHash SigCache.

Definition ScriptNoFlags : Z := 0.
Definition MaxStackSize : Z := 244.
Definition MaxScriptSize : Z := 10000.

Section engine.
Context `{Crypto} `{MapIteration}.

(** The signature caches are [None] for nil pointers.  [sigHashReusedValues]
    is not nil: every caller of [NewEngine] passes a fresh or shared struct. *)
Record Engine := mk_Engine {
  scriptVersion : Z;
  scripts : list (list parsedOpcode);
  scriptIdx : Z;
  scriptOff : Z;
  dstack : stack;
  astack : stack;
  tx : DomainTransaction;
  txIdx : Z;
  condStack : list Z;
  numOps : Z;
  flags : Z;
  sigCache : option SigCacheSchnorr;
  sigCacheECDSA : option SigCacheECDSA;
  sigHashReusedValues : SighashReusedValues;
  isP2SH : bool;
  savedFirstStack : stack
}.

Definition set_scripts (x : list (list parsedOpcode)) (vm : Engine) : Engine :=
  mk_Engine (scriptVersion vm) x (scriptIdx vm) (scriptOff vm) (dstack vm) (astack vm)
    (tx vm) (txIdx vm) (condStack vm) (numOps vm) (flags vm) (sigCache vm)
    (sigCacheECDSA vm) (sigHashReusedValues vm) (isP2SH vm) (savedFirstStack vm).
Definition set_pc (idx off : Z) (vm : Engine) : Engine :=
  mk_Engine (scriptVersion vm) (scripts vm) idx off (dstack vm) (astack vm)
    (tx vm) (txIdx vm) (condStack vm) (numOps vm) (flags vm) (sigCache vm)
    (sigCacheECDSA vm) (sigHashReusedValues vm) (isP2SH vm) (savedFirstStack vm).
Definition set_dstack (x : stack) (vm : Engine) : Engine :=
  mk_Engine (scriptVersion vm) (scripts vm) (scriptIdx vm) (scriptOff vm) x (astack vm)
    (tx vm) (txIdx vm) (condStack vm) (numOps vm) (flags vm) (sigCache vm)
    (sigCacheECDSA vm) (sigHashReusedValues vm) (isP2SH vm) (savedFirstStack vm).
Definition set_astack (x : stack) (vm : Engine) : Engine :=
  mk_Engine (scriptVersion vm) (scripts vm) (scriptIdx vm) (scriptOff vm) (dstack vm) x
    (tx vm) (txIdx vm) (condStack vm) (numOps vm) (flags vm) (sigCache vm)
    (sigCacheECDSA vm) (sigHashReusedValues vm) (isP2SH vm) (savedFirstStack vm).
Definition set_condStack (x : list Z) (vm : Engine) : Engine :=
  mk_Engine (scriptVersion vm) (scripts vm) (scriptIdx vm) (scriptOff vm) (dstack vm)
    (astack vm) (tx vm) (txIdx vm) x (numOps vm) (flags vm) (sigCache vm)
    (sigCacheECDSA vm) (sigHashReusedValues vm) (isP2SH vm) (savedFirstStack vm).
Definition set_numOps (x : Z) (vm : Engine) : Engine :=
  mk_Engine (scriptVersion vm) (scripts vm) (scriptIdx vm) (scriptOff vm) (dstack vm)
    (astack vm) (tx vm) (txIdx vm) (condStack vm) x (flags vm) (sigCache vm)
    (sigCacheECDSA vm) (sigHashReusedValues vm) (isP2SH vm) (savedFirstStack vm).
Definition set_sigCache (x : option SigCacheSchnorr) (vm : Engine) : Engine :=
  mk_Engine (scriptVersion vm) (scripts vm) (scriptIdx vm) (scriptOff vm) (dstack vm)
    (astack vm) (tx vm) (txIdx vm) (condStack vm) (numOps vm) (flags vm) x
    (sigCacheECDSA vm) (sigHashReusedValues vm) (isP2SH vm) (savedFirstStack vm).
Definition set_sigCacheECDSA (x : option SigCacheECDSA) (vm : Engine) : Engine :=
  mk_Engine (scriptVersion vm) (scripts vm) (scriptIdx vm) (scriptOff vm) (dstack vm)
    (astack vm) (tx vm) (txIdx vm) (condStack vm) (numOps vm) (flags vm) (sigCache vm)
    x (sigHashReusedValues vm) (isP2SH vm) (savedFirstStack vm).
Definition set_reused (x : SighashReusedValues) (vm : Engine) : Engine :=
  mk_Engine (scriptVersion vm) (scripts vm) (scriptIdx vm) (scriptOff vm) (dstack vm)
    (astack vm) (tx vm) (txIdx vm) (condStack vm) (numOps vm) (flags vm) (sigCache vm)
    (sigCacheECDSA vm) x (isP2SH vm) (savedFirstStack vm).
Definition set_saved (x : stack) (vm : Engine) : Engine :=
  mk_Engine (scriptVersion vm) (scripts vm) (scriptIdx vm) (scriptOff vm) (dstack vm)
    (astack vm) (tx vm) (txIdx vm) (condStack vm) (numOps vm) (flags vm) (sigCache vm)
    (sigCacheECDSA vm) (sigHashReusedValues vm) (isP2SH vm) x.

(** A method of [*Engine]. *)
Abbreviation EM := (M error Engine).

Definition on_dstack {A} (m : SM A) : EM A := zoom dstack set_dstack m.
Definition on_astack {A} (m : SM A) : EM A := zoom astack set_astack m.
Definition on_reused {A} (m : M error SighashReusedValues A) : EM A :=
  zoom sigHashReusedValues set_reused m.

Definition hasFlag (vm : Engine) (flag : Z) : bool := Z.land (flags vm) flag =? flag.

Definition isBranchExecuting (vm : Engine) : bool :=
  if zlen (condStack vm) =? 0 then true
  else match lookupZ (condStack vm) (zlen (condStack vm) - 1) with
       | Some c => c =? OpCondTrue
       | None => false
       end.

(** * Opcode handlers *)

Definition opcodeDisabled (op : parsedOpcode) : EM unit := throw (scriptError ErrDisabledOpcode).

Definition opcodeReserved (op : parsedOpcode) : EM unit := throw (scriptError ErrReservedOpcode).

Definition opcodeInvalid (op : parsedOpcode) : EM unit := throw (scriptError ErrReservedOpcode).

Definition opcodeFalse (op : parsedOpcode) : EM unit := on_dstack (PushByteArray []).

Definition opcodePushData (op : parsedOpcode) : EM unit :=
  on_dstack (PushByteArray (data_of op)).

Definition opcode1Negate (op : parsedOpcode) : EM unit := on_dstack (PushInt (-1)).

Definition opcodeN (op : parsedOpcode) : EM unit :=
  on_dstack (PushInt (uint8 (pop_value op - (Op1 - 1)))).

Definition opcodeNop (op : parsedOpcode) : EM unit := ret tt.

Definition popIfBool : EM bool :=
  let* so := on_dstack PopByteArray in
  if (zlen so =? 1) && (default 0 (lookupZ so 0) =? 0x01) then ret true
  else if zlen so =? 0 then ret false
  else throw (scriptError ErrMinimalIf).

Definition opcodeIf (op : parsedOpcode) : EM unit :=
  let* vm := get in
  let* condVal :=
    (if isBranchExecuting vm then
       let* ok := popIfBool in
       ret (if (ok : bool) then OpCondTrue else OpCondFalse)
     else ret OpCondSkip) in
  modify (fun vm => set_condStack (condStack vm ++ [condVal]) vm).

Definition opcodeNotIf (op : parsedOpcode) : EM unit :=
  let* vm := get in
  let* condVal :=
    (if isBranchExecuting vm then
       let* ok := popIfBool in
       ret (if negb ok then OpCondTrue else OpCondFalse)
     else ret OpCondSkip) in
  modify (fun vm => set_condStack (condStack vm ++ [condVal]) vm).

(** [condStack[len(condStack)-1] = v] *)
Definition set_last_cond (v : Z) (vm : Engine) : Engine :=
  set_condStack (<[Z.to_nat (zlen (condStack vm) - 1) := v]> (condStack vm)) vm.

Definition opcodeElse (op : parsedOpcode) : EM unit :=
  let* vm := get in
  if zlen (condStack vm) =? 0 then throw (scriptError ErrUnbalancedConditional) else
  let* cond := index (condStack vm) (zlen (condStack vm) - 1) in
  if cond =? OpCondTrue then modify (set_last_cond OpCondFalse)
  else if cond =? OpCondFalse then modify (set_last_cond OpCondTrue)
  else ret tt.

Definition opcodeEndif (op : parsedOpcode) : EM unit :=
  let* vm := get in
  if zlen (condStack vm) =? 0 then throw (scriptError ErrUnbalancedConditional) else
  let* cs := slice (condStack vm) 0 (zlen (condStack vm) - 1) in
  modify (set_condStack cs).

Definition abstractVerify (op : parsedOpcode) (c : ErrorCode) : EM unit :=
  let* verified := on_dstack PopBool in
  if negb verified then throw (scriptError c) else ret tt.

Definition opcodeVerify (op : parsedOpcode) : EM unit := abstractVerify op ErrVerify.

Definition opcodeReturn (op : parsedOpcode) : EM unit := throw (scriptError ErrEarlyReturn).

Definition verifyLockTime (txLockTime lockTime : Z) : res error unit :=
  if lockTime >? txLockTime then Err (scriptError ErrUnsatisfiedLockTime) else Ok tt.

Definition verifyLockTimeThreshold (txLockTime threshold lockTime : Z) : res error unit :=
  if negb (((txLockTime <? threshold) && (lockTime <? threshold))
           || ((txLockTime >=? threshold) && (lockTime >=? threshold)))
  then Err (scriptError ErrUnsatisfiedLockTime) else Ok tt.

Definition verifyLockTimeWithThreshold (txLockTime threshold lockTime : Z) : res error unit :=
  let? _ := verifyLockTimeThreshold txLockTime threshold lockTime in
  verifyLockTime txLockTime lockTime.

(** An operand of at most 8 bytes, padded with zeros, as a [uint64]. *)
Definition operand_uint64 (b : bytes) : res error Z :=
  if zlen b >? 8 then Err (scriptError ErrNumberTooBig) else
  let b := if zlen b <? 8 then copy_slice (replicate 8 0) b else b in
  Ok (le_get b).

Definition opcodeCheckLockTimeVerify (op : parsedOpcode) : EM unit :=
  let* lockTimeBytes := on_dstack PopByteArray in
  let* stackLockTime := lift (operand_uint64 lockTimeBytes) in
  let* vm := get in
  lift (verifyLockTimeWithThreshold (LockTime (tx vm)) LockTimeThreshold stackLockTime) ;;
  let* txIn := index (Inputs (tx vm)) (txIdx vm) in
  if Sequence txIn =? MaxTxInSequenceNum then throw (scriptError ErrUnsatisfiedLockTime)
  else ret tt.

Definition opcodeCheckSequenceVerify (op : parsedOpcode) : EM unit :=
  let* sequenceBytes := on_dstack PopByteArray in
  let* stackSequence := lift (operand_uint64 sequenceBytes) in
  if negb (Z.land stackSequence SequenceLockTimeDisabled =? 0) then ret tt else
  let* vm := get in
  let* txIn := index (Inputs (tx vm)) (txIdx vm) in
  let txSequence := Sequence txIn in
  if negb (Z.land txSequence SequenceLockTimeDisabled =? 0)
  then throw (scriptError ErrUnsatisfiedLockTime) else
  let maskedTxSequence := Z.land txSequence SequenceLockTimeMask in
  let maskedStackSequence := Z.land stackSequence SequenceLockTimeMask in
  lift (verifyLockTime maskedTxSequence maskedStackSequence).

Definition opcodeToAltStack (op : parsedOpcode) : EM unit :=
  let* so := on_dstack PopByteArray in
  on_astack (PushByteArray so).

Definition opcodeFromAltStack (op : parsedOpcode) : EM unit :=
  let* so := on_astack PopByteArray in
  on_dstack (PushByteArray so).

Definition opcode2Drop (op : parsedOpcode) : EM unit := on_dstack (DropN 2).
Definition opcode2Dup (op : parsedOpcode) : EM unit := on_dstack (DupN 2).
Definition opcode3Dup (op : parsedOpcode) : EM unit := on_dstack (DupN 3).
Definition opcode2Over (op : parsedOpcode) : EM unit := on_dstack (OverN 2).
Definition opcode2Rot (op : parsedOpcode) : EM unit := on_dstack (RotN 2).
Definition opcode2Swap (op : parsedOpcode) : EM unit := on_dstack (SwapN 2).

Definition opcodeIfDup (op : parsedOpcode) : EM unit :=
  let* so := on_dstack (PeekByteArray 0) in
  if asBool so then on_dstack (PushByteArray so) else ret tt.

Definition opcodeDepth (op : parsedOpcode) : EM unit :=
  let* vm := get in
  on_dstack (PushInt (Depth (dstack vm))).

Definition opcodeDrop (op : parsedOpcode) : EM unit := on_dstack (DropN 1).
Definition opcodeDup (op : parsedOpcode) : EM unit := on_dstack (DupN 1).
Definition opcodeNip (op : parsedOpcode) : EM unit := on_dstack (NipN 1).
Definition opcodeOver (op : parsedOpcode) : EM unit := on_dstack (OverN 1).

Definition opcodePick (op : parsedOpcode) : EM unit :=
  let* val := on_dstack PopInt in
  on_dstack (PickN (Int32 val)).

Definition opcodeRoll (op : parsedOpcode) : EM unit :=
  let* val := on_dstack PopInt in
  on_dstack (RollN (Int32 val)).

Definition opcodeRot (op : parsedOpcode) : EM unit := on_dstack (RotN 1).
Definition opcodeSwap (op : parsedOpcode) : EM unit := on_dstack (SwapN 1).
Definition opcodeTuck (op : parsedOpcode) : EM unit := on_dstack Tuck.

Definition opcodeSize (op : parsedOpcode) : EM unit :=
  let* so := on_dstack (PeekByteArray 0) in
  on_dstack (PushInt (zlen so)).

Definition opcodeEqual (op : parsedOpcode) : EM unit :=
  let* a := on_dstack PopByteArray in
  let* b := on_dstack PopByteArray in
  on_dstack (PushBool (bytes_eqb a b)).

Definition opcodeEqualVerify (op : parsedOpcode) : EM unit :=
  opcodeEqual op ;; abstractVerify op ErrEqualVerify.

(** ** Arithmetic *)

Definition opcode1Add (op : parsedOpcode) : EM unit :=
  let* m := on_dstack PopInt in
  on_dstack (PushInt (int64 (m + 1))).

Definition opcode1Sub (op : parsedOpcode) : EM unit :=
  let* m := on_dstack PopInt in
  on_dstack (PushInt (int64 (m - 1))).

Definition opcodeNegate (op : parsedOpcode) : EM unit :=
  let* m := on_dstack PopInt in
  on_dstack (PushInt (int64 (- m))).

Definition opcodeAbs (op : parsedOpcode) : EM unit :=
  let* m := on_dstack PopInt in
  on_dstack (PushInt (if m <? 0 then int64 (- m) else m)).

Definition opcodeNot (op : parsedOpcode) : EM unit :=
  let* m := on_dstack PopInt in
  on_dstack (PushInt (if m =? 0 then 1 else 0)).

Definition opcode0NotEqual (op : parsedOpcode) : EM unit :=
  let* m := on_dstack PopInt in
  on_dstack (PushInt (if negb (m =? 0) then 1 else m)).

Definition opcodeAdd (op : parsedOpcode) : EM unit :=
  let* v0 := on_dstack PopInt in
  let* v1 := on_dstack PopInt in
  on_dstack (PushInt (int64 (v0 + v1))).

Definition opcodeSub (op : parsedOpcode) : EM unit :=
  let* v0 := on_dstack PopInt in
  let* v1 := on_dstack PopInt in
  on_dstack (PushInt (int64 (v1 - v0))).

Definition opcodeBoolAnd (op : parsedOpcode) : EM unit :=
  let* v0 := on_dstack PopInt in
  let* v1 := on_dstack PopInt in
  on_dstack (PushInt (if negb (v0 =? 0) && negb (v1 =? 0) then 1 else 0)).

Definition opcodeBoolOr (op : parsedOpcode) : EM unit :=
  let* v0 := on_dstack PopInt in
  let* v1 := on_dstack PopInt in
  on_dstack (PushInt (if negb (v0 =? 0) || negb (v1 =? 0) then 1 else 0)).

Definition opcodeNumEqual (op : parsedOpcode) : EM unit :=
  let* v0 := on_dstack PopInt in
  let* v1 := on_dstack PopInt in
  on_dstack (PushInt (if v0 =? v1 then 1 else 0)).

Definition opcodeNumEqualVerify (op : parsedOpcode) : EM unit :=
  opcodeNumEqual op ;; abstractVerify op ErrNumEqualVerify.

Definition opcodeNumNotEqual (op : parsedOpcode) : EM unit :=
  let* v0 := on_dstack PopInt in
  let* v1 := on_dstack PopInt in
  on_dstack (PushInt (if negb (v0 =? v1) then 1 else 0)).

Definition opcodeLessThan (op : parsedOpcode) : EM unit :=
  let* v0 := on_dstack PopInt in
  let* v1 := on_dstack PopInt in
  on_dstack (PushInt (if v1 <? v0 then 1 else 0)).

Definition opcodeGreaterThan (op : parsedOpcode) : EM unit :=
  let* v0 := on_dstack PopInt in
  let* v1 := on_dstack PopInt in
  on_dstack (PushInt (if v1 >? v0 then 1 else 0)).

Definition opcodeLessThanOrEqual (op : parsedOpcode) : EM unit :=
  let* v0 := on_dstack PopInt in
  let* v1 := on_dstack PopInt in
  on_dstack (PushInt (if v1 <=? v0 then 1 else 0)).

Definition opcodeGreaterThanOrEqual (op : parsedOpcode) : EM unit :=
  let* v0 := on_dstack PopInt in
  let* v1 := on_dstack PopInt in
  on_dstack (PushInt (if v1 >=? v0 then 1 else 0)).

Definition opcodeMin (op : parsedOpcode) : EM unit :=
  let* v0 := on_dstack PopInt in
  let* v1 := on_dstack PopInt in
  on_dstack (PushInt (if v1 <? v0 then v1 else v0)).

Definition opcodeMax (op : parsedOpcode) : EM unit :=
  let* v0 := on_dstack PopInt in
  let* v1 := on_dstack PopInt in
  on_dstack (PushInt (if v1 >? v0 then v1 else v0)).

Definition opcodeWithin (op : parsedOpcode) : EM unit :=
  let* maxVal := on_dstack PopInt in
  let* minVal := on_dstack PopInt in
  let* x := on_dstack PopInt in
  on_dstack (PushInt (if (x >=? minVal) && (x <? maxVal) then 1 else 0)).

(** ** Hashes *)

Definition opcodeSha256 (op : parsedOpcode) : EM unit :=
  let* buf := on_dstack PopByteArray in
  on_dstack (PushByteArray (Sum256 buf)).

Definition opcodeBlake2b (op : parsedOpcode) : EM unit :=
  let* buf := on_dstack PopByteArray in
  on_dstack (PushByteArray (blake2b_Sum256 buf)).

(** ** Signatures

    The source has a Schnorr and an ECDSA copy of each routine; the copies
    differ in what [SigKind] collects. *)

Definition checkPubKeyEncoding (pubKey : bytes) : res error unit :=
  if zlen pubKey =? 32 then Ok tt else Err (scriptError ErrPubKeyFormat).

Definition checkPubKeyEncodingECDSA (pubKey : bytes) : res error unit :=
  if zlen pubKey =? 33 then Ok tt else Err (scriptError ErrPubKeyFormat).

Definition checkSignatureLength (sig : bytes) : res error unit :=
  if negb (zlen sig =? 64) then Err (scriptError ErrSigLength) else Ok tt.

Definition checkSignatureLengthECDSA (sig : bytes) : res error unit :=
  if negb (zlen sig =? 64) then Err (scriptError ErrSigLength) else Ok tt.

Record SigKind := mk_SigKind {
  sk_scheme : SigScheme;
  sk_hash : DomainTransaction -> Z -> Z -> M error SighashReusedValues bytes;
  sk_checkPubKeyEncoding : bytes -> res error unit;
  sk_checkSignatureLength : bytes -> res error unit;
  sk_cache : Engine -> option (SigCache sk_scheme);
  sk_set_cache : option (SigCache sk_scheme) -> Engine -> Engine
}.

Definition SchnorrKind : SigKind := {|
  sk_scheme := schnorr;
  sk_hash := CalculateSignatureHashSchnorr;
  sk_checkPubKeyEncoding := checkPubKeyEncoding;
  sk_checkSignatureLength := checkSignatureLength;
  sk_cache := sigCache;
  sk_set_cache := set_sigCache
|}.

Definition ECDSAKind : SigKind := {|
  sk_scheme := ecdsa;
  sk_hash := CalculateSignatureHashECDSA;
  sk_checkPubKeyEncoding := checkPubKeyEncodingECDSA;
  sk_checkSignatureLength := checkSignatureLengthECDSA;
  sk_cache := sigCacheECDSA;
  sk_set_cache := set_sigCacheECDSA
|}.

(** Look the signature up in the cache; verify it and add it otherwise. *)
Definition verify_cached (k : SigKind) (secpHash : bytes) (signature : Signature (sk_scheme k))
    (pubKey : PublicKey (sk_scheme k)) : EM bool :=
  let* vm := get in
  match sk_cache k vm with
  | Some cache =>
      if Exists cache secpHash signature pubKey then ret true
      else if Verify (sk_scheme k) pubKey secpHash signature then
        modify (sk_set_cache k (Some (Add cache secpHash signature pubKey))) ;; ret true
      else ret false
  | None => ret (Verify (sk_scheme k) pubKey secpHash signature)
  end.

(** The result of a call whose error is handled by the caller. *)
Definition try {A} (m : EM A) : EM (option A) :=
  fun vm => match m vm with
            | (Ok a, vm') => (Ok (Some a), vm')
            | (Err _, vm') => (Ok None, vm')
            | (Panic, vm') => (Panic, vm')
            end.

Definition checkSig (k : SigKind) (op : parsedOpcode) : EM unit :=
  let* pkBytes := on_dstack PopByteArray in
  let* fullSigBytes := on_dstack PopByteArray in
  if zlen fullSigBytes <? 1 then on_dstack (PushBool false) else
  let* hashType := index fullSigBytes (zlen fullSigBytes - 1) in
  let* sigBytes := slice fullSigBytes 0 (zlen fullSigBytes - 1) in
  if negb (IsStandardSigHashType hashType) then throw (scriptError ErrInvalidSigHashType) else
  lift (sk_checkSignatureLength k sigBytes) ;;
  lift (sk_checkPubKeyEncoding k pkBytes) ;;
  let* vm := get in
  let* sigHash := try (on_reused (sk_hash k (tx vm) (txIdx vm) hashType)) in
  match sigHash with
  | None => on_dstack (PushBool false)
  | Some sigHash =>
      match DeserializePubKey (sk_scheme k) pkBytes with
      | None => on_dstack (PushBool false)
      | Some pubKey =>
          match DeserializeSignature (sk_scheme k) sigBytes with
          | None => on_dstack (PushBool false)
          | Some signature =>
              let* valid := verify_cached k sigHash signature pubKey in
              if negb valid && (zlen sigBytes >? 0) then throw (scriptError ErrNullFail)
              else on_dstack (PushBool valid)
          end
      end
  end.

Definition opcodeCheckSig (op : parsedOpcode) : EM unit := checkSig SchnorrKind op.
Definition opcodeCheckSigECDSA (op : parsedOpcode) : EM unit := checkSig ECDSAKind op.

Definition opcodeCheckSigVerify (op : parsedOpcode) : EM unit :=
  opcodeCheckSig op ;; abstractVerify op ErrCheckSigVerify.

(** [parsedSigInfo] and [parsedSigInfoECDSA] *)
Record parsedSigInfo (k : SigKind) := mk_parsedSigInfo {
  psi_signature : bytes;
  psi_parsedSignature : option (Signature (sk_scheme k));
  psi_parsed : bool
}.
Arguments mk_parsedSigInfo {k}.
Arguments psi_signature {k}.
Arguments psi_parsedSignature {k}.
Arguments psi_parsed {k}.

(** Pop [n] items, the first popped first in the result. *)
Fixpoint pop_items (n : nat) : EM (list bytes) :=
  match n with
  | O => ret []
  | S n' =>
      let* item := on_dstack PopByteArray in
      let* items := pop_items n' in
      ret (item :: items)
  end.

(** The signature part of a round: parse and check the encoding once.  [None]
    skips to the next public key. *)
Definition parse_sig_once (k : SigKind) (sigInfo : parsedSigInfo k) (hashType : Z)
    (signature : bytes) : EM (parsedSigInfo k * option (Signature (sk_scheme k))) :=
  if negb (psi_parsed sigInfo) then
    if negb (IsStandardSigHashType hashType) then throw (scriptError ErrInvalidSigHashType) else
    lift (sk_checkSignatureLength k signature) ;;
    let parsedSig := DeserializeSignature (sk_scheme k) signature in
    ret (mk_parsedSigInfo (psi_signature sigInfo) parsedSig true, parsedSig)
  else ret (sigInfo, psi_parsedSignature sigInfo).

(** A round of the loop after the counters moved: the updated signature record
    and whether the signature is valid for the key. *)
Definition multiSig_round (k : SigKind) (sigInfo : parsedSigInfo k) (pubKey : bytes)
  : EM (parsedSigInfo k * bool) :=
  let rawSig := psi_signature sigInfo in
  if zlen rawSig =? 0 then ret (sigInfo, false) else
  let* hashType := index rawSig (zlen rawSig - 1) in
  let* signature := slice rawSig 0 (zlen rawSig - 1) in
  let* (sigInfo, parsedSig) := parse_sig_once k sigInfo hashType signature in
  match parsedSig with
  | None => ret (sigInfo, false)
  | Some parsedSig =>
      lift (sk_checkPubKeyEncoding k pubKey) ;;
      match DeserializePubKey (sk_scheme k) pubKey with
      | None => ret (sigInfo, false)
      | Some parsedPubKey =>
          let* vm := get in
          let* secpHash := on_reused (sk_hash k (tx vm) (txIdx vm) hashType) in
          let* valid := verify_cached k secpHash parsedSig parsedPubKey in
          ret (sigInfo, valid)
      end
  end.

(** The loop; [pubKeyIdx] and [numPubKeys] are the values before they move.
    One unit of fuel per public key is enough; running out is a panic, which
    [checkMultiSig_spec] excludes. *)
Fixpoint multiSig_loop (k : SigKind) (pubKeys : list bytes) (fuel : nat)
    (signatures : list (parsedSigInfo k)) (numSignatures numPubKeys signatureIdx pubKeyIdx : Z)
  : EM bool :=
  if negb (numSignatures >? 0) then ret true else
  match fuel with
  | O => panic
  | S fuel' =>
      let pubKeyIdx := pubKeyIdx + 1 in
      let numPubKeys := numPubKeys - 1 in
      if numSignatures >? numPubKeys then ret false else
      let* sigInfo := index signatures signatureIdx in
      let* pubKey := index pubKeys pubKeyIdx in
      let* (sigInfo, valid) := multiSig_round k sigInfo pubKey in
      let signatures := <[Z.to_nat signatureIdx := sigInfo]> signatures in
      if (valid : bool)
      then multiSig_loop k pubKeys fuel' signatures (numSignatures - 1) numPubKeys
             (signatureIdx + 1) pubKeyIdx
      else multiSig_loop k pubKeys fuel' signatures numSignatures numPubKeys
             signatureIdx pubKeyIdx
  end.

Definition checkMultiSig (k : SigKind) (op : parsedOpcode) : EM unit :=
  let* numKeys := on_dstack PopInt in
  let numPubKeys := Int32 numKeys in
  if numPubKeys <? 0 then throw (scriptError ErrInvalidPubKeyCount) else
  if numPubKeys >? MaxPubKeysPerMultiSig then throw (scriptError ErrInvalidPubKeyCount) else
  modify (fun vm => set_numOps (numOps vm + numPubKeys) vm) ;;
  let* vm := get in
  if numOps vm >? MaxOpsPerScript then throw (scriptError ErrTooManyOperations) else
  let* pubKeys := pop_items (Z.to_nat numPubKeys) in
  let* numSigs := on_dstack PopInt in
  let numSignatures := Int32 numSigs in
  if numSignatures <? 0 then throw (scriptError ErrInvalidSignatureCount) else
  if numSignatures >? numPubKeys then throw (scriptError ErrInvalidSignatureCount) else
  let* sigs := pop_items (Z.to_nat numSignatures) in
  let signatures := map (fun s => mk_parsedSigInfo s None false) sigs in
  let* success := multiSig_loop k pubKeys (S (Z.to_nat numPubKeys)) signatures numSignatures
                    (numPubKeys + 1) 0 (-1) in
  if negb success && existsb (fun sig => zlen sig >? 0) sigs
  then throw (scriptError ErrNullFail)
  else on_dstack (PushBool success).

Definition opcodeCheckMultiSig (op : parsedOpcode) : EM unit := checkMultiSig SchnorrKind op.
Definition opcodeCheckMultiSigECDSA (op : parsedOpcode) : EM unit := checkMultiSig ECDSAKind op.

Definition opcodeCheckMultiSigVerify (op : parsedOpcode) : EM unit :=
  opcodeCheckMultiSig op ;; abstractVerify op ErrCheckMultiSigVerify.

(** ** The handler table *)

Definition opfunc_run (f : OpFunc) : parsedOpcode -> EM unit :=
  match f with
  | F_opcodeFalse => opcodeFalse
  | F_opcodePushData => opcodePushData
  | F_opcode1Negate => opcode1Negate
  | F_opcodeReserved => opcodeReserved
  | F_opcodeN => opcodeN
  | F_opcodeNop => opcodeNop
  | F_opcodeIf => opcodeIf
  | F_opcodeNotIf => opcodeNotIf
  | F_opcodeElse => opcodeElse
  | F_opcodeEndif => opcodeEndif
  | F_opcodeVerify => opcodeVerify
  | F_opcodeReturn => opcodeReturn
  | F_opcodeCheckLockTimeVerify => opcodeCheckLockTimeVerify
  | F_opcodeCheckSequenceVerify => opcodeCheckSequenceVerify
  | F_opcodeToAltStack => opcodeToAltStack
  | F_opcodeFromAltStack => opcodeFromAltStack
  | F_opcode2Drop => opcode2Drop
  | F_opcode2Dup => opcode2Dup
  | F_opcode3Dup => opcode3Dup
  | F_opcode2Over => opcode2Over
  | F_opcode2Rot => opcode2Rot
  | F_opcode2Swap => opcode2Swap
  | F_opcodeIfDup => opcodeIfDup
  | F_opcodeDepth => opcodeDepth
  | F_opcodeDrop => opcodeDrop
  | F_opcodeDup => opcodeDup
  | F_opcodeNip => opcodeNip
  | F_opcodeOver => opcodeOver
  | F_opcodePick => opcodePick
  | F_opcodeRoll => opcodeRoll
  | F_opcodeRot => opcodeRot
  | F_opcodeSwap => opcodeSwap
  | F_opcodeTuck => opcodeTuck
  | F_opcodeDisabled => opcodeDisabled
  | F_opcodeSize => opcodeSize
  | F_opcodeEqual => opcodeEqual
  | F_opcodeEqualVerify => opcodeEqualVerify
  | F_opcode1Add => opcode1Add
  | F_opcode1Sub => opcode1Sub
  | F_opcodeNegate => opcodeNegate
  | F_opcodeAbs => opcodeAbs
  | F_opcodeNot => opcodeNot
  | F_opcode0NotEqual => opcode0NotEqual
  | F_opcodeAdd => opcodeAdd
  | F_opcodeSub => opcodeSub
  | F_opcodeBoolAnd => opcodeBoolAnd
  | F_opcodeBoolOr => opcodeBoolOr
  | F_opcodeNumEqual => opcodeNumEqual
  | F_opcodeNumEqualVerify => opcodeNumEqualVerify
  | F_opcodeNumNotEqual => opcodeNumNotEqual
  | F_opcodeLessThan => opcodeLessThan
  | F_opcodeGreaterThan => opcodeGreaterThan
  | F_opcodeLessThanOrEqual => opcodeLessThanOrEqual
  | F_opcodeGreaterThanOrEqual => opcodeGreaterThanOrEqual
  | F_opcodeMin => opcodeMin
  | F_opcodeMax => opcodeMax
  | F_opcodeWithin => opcodeWithin
  | F_opcodeCheckMultiSigECDSA => opcodeCheckMultiSigECDSA
  | F_opcodeSha256 => opcodeSha256
  | F_opcodeBlake2b => opcodeBlake2b
  | F_opcodeCheckSigECDSA => opcodeCheckSigECDSA
  | F_opcodeCheckSig => opcodeCheckSig
  | F_opcodeCheckSigVerify => opcodeCheckSigVerify
  | F_opcodeCheckMultiSig => opcodeCheckMultiSig
  | F_opcodeCheckMultiSigVerify => opcodeCheckMultiSigVerify
  | F_opcodeInvalid => opcodeInvalid
  end.

(** * The interpreter *)

(** The part of [executeOpcode] that runs the handler, after the checks that
    apply in branches that are not executed as well. *)
Definition executeOpcode_run (pop : parsedOpcode) : EM unit :=
  let* vm := get in
  if negb (isBranchExecuting vm) && negb (isConditional pop) then ret tt else
  (if isBranchExecuting vm && negb (pop_value pop =? 0) && (pop_value pop <=? OpPushData4)
   then lift (checkMinimalDataPush pop) else ret tt) ;;
  opfunc_run (op_func (pop_opcode pop)) pop.

Definition executeOpcode (pop : parsedOpcode) : EM unit :=
  if isDisabled pop then throw (scriptError ErrDisabledOpcode) else
  if alwaysIllegal pop then throw (scriptError ErrReservedOpcode) else
  (if pop_value pop >? Op16 then
     modify (fun vm => set_numOps (numOps vm + 1) vm) ;;
     let* vm := get in
     if numOps vm >? MaxOpsPerScript then throw (scriptError ErrTooManyOperations) else ret tt
   else if zlen (data_of pop) >? MaxScriptElementSize
   then throw (scriptError ErrElementTooBig) else ret tt) ;;
  executeOpcode_run pop.

(** [fmt.Sprintf("%02x:%04x: %s", ...)]; script indexes are below [2^8] and
    offsets, at most [MaxScriptSize], below [2^16]. *)
Definition disasm (vm : Engine) (scriptIdx scriptOff : Z) : res error string :=
  let? script := index_res (scripts vm) scriptIdx in
  let? pop := index_res script scriptOff in
  Ok (hex_width 2 scriptIdx +:+ ":" +:+ hex_width 4 scriptOff +:+ ": " +:+ print pop false).

Definition validPC (vm : Engine) : res error unit :=
  if scriptIdx vm >=? zlen (scripts vm) then Err (scriptError ErrInvalidProgramCounter) else
  let? script := index_res (scripts vm) (scriptIdx vm) in
  if scriptOff vm >=? zlen script then Err (scriptError ErrInvalidProgramCounter) else Ok tt.

Definition curPC (vm : Engine) : res error (Z * Z) :=
  let? _ := validPC vm in Ok (scriptIdx vm, scriptOff vm).

Definition DisasmPC (vm : Engine) : res error string :=
  let? (scriptIdx, scriptOff) := curPC vm in disasm vm scriptIdx scriptOff.

Fixpoint DisasmScript_loop (vm : Engine) (idx : Z) (offs : list Z) (disstr : string)
  : res error string :=
  match offs with
  | [] => Ok disstr
  | i :: offs' =>
      let? d := disasm vm idx i in
      DisasmScript_loop vm idx offs' (disstr +:+ d +:+ String (Ascii.ascii_of_nat 10) EmptyString)
  end.

Definition DisasmScript (vm : Engine) (idx : Z) : res error string :=
  if idx <? 0 then Err (scriptError ErrInvalidIndex) else
  if idx >=? zlen (scripts vm) then Err (scriptError ErrInvalidIndex) else
  let? script := index_res (scripts vm) idx in
  DisasmScript_loop vm idx (seqZ 0 (zlen script)) EmptyString.

Definition CheckErrorCondition (finalScript : bool) : EM unit :=
  let* vm := get in
  if scriptIdx vm <? zlen (scripts vm) then throw (scriptError ErrScriptUnfinished) else
  (if finalScript then
     if Depth (dstack vm) >? 1 then throw (scriptError ErrCleanStack)
     else if Depth (dstack vm) <? 1 then throw (scriptError ErrEmptyStack)
     else ret tt
   else ret tt) ;;
  let* v := on_dstack PopBool in
  if negb v then throw (scriptError ErrEvalFalse) else ret tt.

(** [array[len(array)-i-1], _ = stack.PeekByteArray(int32(i))] for each [i];
    the array's elements start out nil. *)
Definition getStack (s : stack) : list bytes :=
  rev (map (fun i => match PeekByteArray (int32 i) s with
                     | (Ok so, _) => so
                     | _ => []
                     end) (seqZ 0 (Depth s))).

Fixpoint push_items (data : list bytes) : SM unit :=
  match data with
  | [] => ret tt
  | d :: data' => PushByteArray d ;; push_items data'
  end.

Definition setStack (data : list bytes) : SM unit :=
  let* s := get in
  ignore_error (DropN (Depth s)) ;;
  push_items data.

Definition GetStack (vm : Engine) : list bytes := getStack (dstack vm).
Definition SetStack (data : list bytes) : EM unit := on_dstack (setStack data).
Definition GetAltStack (vm : Engine) : list bytes := getStack (astack vm).
Definition SetAltStack (data : list bytes) : EM unit := on_astack (setStack data).

Definition currentScript (vm : Engine) : res error (list parsedOpcode) :=
  index_res (scripts vm) (scriptIdx vm).

(** The switch to the redeem script at the end of a pay-to-script-hash script. *)
Definition enter_redeem_script : EM unit :=
  modify (fun vm => set_pc (scriptIdx vm + 1) (scriptOff vm) vm) ;;
  CheckErrorCondition false ;;
  let* vm := get in
  let saved := savedFirstStack vm in
  let* script := index saved (zlen saved - 1) in
  match parseScript script with
  | (_, Some e) => throw e
  | (pops, None) =>
      modify (set_scripts (scripts vm ++ [pops])) ;;
      let* data := slice saved 0 (zlen saved - 1) in
      SetStack data
  end.

(** Moving to the next script. *)
Definition next_script : EM unit :=
  let* vm := get in
  if (scriptIdx vm =? 0) && isP2SH vm then
    modify (fun vm => set_pc (scriptIdx vm + 1) (scriptOff vm) vm) ;;
    modify (fun vm => set_saved (GetStack vm) vm)
  else if (scriptIdx vm =? 1) && isP2SH vm then enter_redeem_script
  else modify (fun vm => set_pc (scriptIdx vm + 1) (scriptOff vm) vm).

(** "there are zero length scripts in the wild" *)
Definition skip_empty_script : EM unit :=
  let* vm := get in
  if scriptIdx vm <? zlen (scripts vm) then
    let* script := index (scripts vm) (scriptIdx vm) in
    if scriptOff vm >=? zlen script
    then modify (fun vm => set_pc (scriptIdx vm + 1) (scriptOff vm) vm) else ret tt
  else ret tt.

(** What [Step] does when the offset is past the end of the current script. *)
Definition end_of_script : EM bool :=
  let* vm := get in
  if negb (zlen (condStack vm) =? 0) then throw (scriptError ErrUnbalancedConditional) else
  ignore_error (on_astack (DropN (Depth (astack vm)))) ;;
  modify (set_numOps 0) ;;
  modify (fun vm => set_pc (scriptIdx vm) 0 vm) ;;
  next_script ;;
  skip_empty_script ;;
  let* vm := get in
  ret (scriptIdx vm >=? zlen (scripts vm)).

(** [done]; the flag returned with an error is not used by the caller. *)
Definition Step : EM bool :=
  let* vm := get in
  lift (validPC vm) ;;
  let* script := index (scripts vm) (scriptIdx vm) in
  let* opcode := index script (scriptOff vm) in
  modify (fun vm => set_pc (scriptIdx vm) (scriptOff vm + 1) vm) ;;
  executeOpcode opcode ;;
  let* vm := get in
  let combinedStackSize := int32 (Depth (dstack vm) + Depth (astack vm)) in
  if combinedStackSize >? MaxStackSize then throw (scriptError ErrStackOverflow) else
  let* script := index (scripts vm) (scriptIdx vm) in
  if scriptOff vm >=? zlen script then end_of_script else ret false.

(** [for !done { done, err = vm.Step(); ... }]; running out of fuel is a panic. *)
Fixpoint Execute_loop (fuel : nat) : EM unit :=
  match fuel with
  | O => panic
  | S fuel' =>
      let* done := Step in
      if (done : bool) then ret tt else Execute_loop fuel'
  end.

(** The signature script and the public key script have at most
    [MaxScriptSize] opcodes, a redeem script at most [MaxScriptElementSize]. *)
Definition max_steps : nat := Z.to_nat (2 * MaxScriptSize + MaxScriptElementSize).

Definition Execute : EM unit :=
  let* vm := get in
  if scriptVersion vm >? MaxScriptPublicKeyVersion then ret tt else
  Execute_loop max_steps ;;
  CheckErrorCondition true.

Definition parseScriptAndVerifySize (script : bytes) : res error (list parsedOpcode) :=
  if zlen script >? MaxScriptSize then Err (scriptError ErrScriptTooBig) else
  match parseScript script with
  | (pops, None) => Ok pops
  | (_, Some e) => Err e
  end.

(** The zero value of the [tx] field. *)
Definition zero_tx : DomainTransaction :=
  mk_DomainTransaction 0 [] [] 0 SubnetworkIDNative 0 [] 0 0 None.

Definition NewEngine (scriptPubKey : ScriptPublicKey) (tx : DomainTransaction) (txIdx flags : Z)
    (sigCache : option SigCacheSchnorr) (sigCacheECDSA : option SigCacheECDSA)
    (sighashReusedValues : SighashReusedValues) : res error Engine :=
  if (txIdx <? 0) || (txIdx >=? zlen (Inputs tx)) then Err (scriptError ErrInvalidIndex) else
  let? txIn := index_res (Inputs tx) txIdx in
  let scriptSig := SignatureScript txIn in
  if (zlen scriptSig =? 0) && (zlen (spk_Script scriptPubKey) =? 0)
  then Err (scriptError ErrEvalFalse) else
  let version := spk_Version scriptPubKey in
  if version >? MaxScriptPublicKeyVersion then
    Ok (mk_Engine version [] 0 0 [] [] zero_tx 0 [] 0 flags sigCache sigCacheECDSA
          NoReusedValues false [])
  else
  let? parsedScriptSig := parseScriptAndVerifySize scriptSig in
  if negb (isPushOnly parsedScriptSig) then Err (scriptError ErrNotPushOnly) else
  let? parsedScriptPubKey := parseScriptAndVerifySize (spk_Script scriptPubKey) in
  let scripts := [parsedScriptSig; parsedScriptPubKey] in
  let scriptIdx := if zlen scriptSig =? 0 then 1 else 0 in
  let? isP2SH :=
    (if isScriptHash parsedScriptPubKey then
       if negb (isPushOnly parsedScriptSig) then Err (scriptError ErrNotPushOnly) else Ok true
     else Ok false) in
  Ok (mk_Engine version scripts scriptIdx 0 [] [] tx txIdx [] 0 flags sigCache sigCacheECDSA
        sighashReusedValues isP2SH []).

End engine.

Arguments mk_parsedSigInfo {_ k}.
Arguments psi_signature {_ k}.
Arguments psi_parsedSignature {_ k}.
Arguments psi_parsed {_ k}.
