(* ===== verification/EngineInv.v ===== *)
(** The invariant of the script engine: what every opcode handler, [Step] and
    [Execute] preserve, that they do not panic, and that execution terminates. *)

From S2P Require Import Prelude ScriptError ScriptNum Stack Opcodes Transaction.
From S2P Require Import Script Sha256 SigHash SigCache Engine.

(** An item that may be on a stack. *)
Definition elem (b : bytes) : Prop := zlen b <= MaxScriptElementSize /\ Forall is_byte b.

(** The errors a script can run into, as opposed to those that report a misuse
    of the engine. *)
Definition runtime_error (e : error) : bool :=
  match e with
  | ScriptError c =>
      match c with
      | ErrInternal | ErrInvalidFlags | ErrInvalidIndex | ErrInvalidProgramCounter | ErrScriptUnfinished
      | ErrUnsupportedAddress | ErrNotMultisigScript | ErrTooManyRequiredSigs
      | ErrNotPushOnly | ErrScriptTooBig | ErrSigHighS | ErrNegativeLockTime => false
      | _ => true
      end
  | _ => false
  end.

Abbreviation rt := (fun e => runtime_error e = true).

(** * Stack operations

    [stack_spec m k F]: [m] does not panic on stacks of well-formed items, adds
    at most [k] items, and returns a value satisfying [F]. *)
Definition stack_spec {A} (m : SM A) (k : Z) (F : A -> Prop) : Prop :=
  0 <= k /\ forall b, b + k < 2 ^ 31 ->
  triple (fun s => Forall elem s /\ zlen s <= b) m
    (fun a s => F a /\ Forall elem s /\ zlen s <= b + k) rt.

Lemma stack_spec_ret {A} (a : A) (F : A -> Prop) : F a -> stack_spec (ret a) 0 F.
Proof. intros Ha. split; [lia|]. intros b Hb s [Hs Hl]. repeat split; [done..|lia]. Qed.

Lemma stack_spec_throw {A} e (F : A -> Prop) : rt e -> stack_spec (throw e) 0 F.
Proof. intros He. split; [lia|]. intros b Hb s [Hs Hl]. done. Qed.

Lemma stack_spec_lift {A} (r : res error A) (F : A -> Prop) :
  match r with Ok a => F a | Err e => rt e | Panic => False end -> stack_spec (lift r) 0 F.
Proof.
  intros Hr. split; [lia|]. intros b Hb s [Hs Hl]. unfold lift. destruct r; [|done..].
  repeat split; [done..|lia].
Qed.

Lemma stack_spec_bind {A B} (m : SM A) (f : A -> SM B) k1 k2 F G :
  stack_spec m k1 F -> (forall a, F a -> stack_spec (f a) k2 G) -> 0 <= k2 ->
  stack_spec (bind m f) (k1 + k2) G.
Proof.
  intros [Hk Hm] Hf Hk2. split; [lia|]. intros b Hb s Hs.
  specialize (Hm b ltac:(lia) s Hs). unfold bind.
  destruct (m s) as [[a|e|] s']; [|done..]. destruct Hm as (Ha & Hs' & Hl).
  destruct (Hf a Ha) as [_ Hf']. specialize (Hf' (b + k1) ltac:(lia) s' (conj Hs' Hl)).
  by rewrite <- Z.add_assoc in Hf'.
Qed.

Lemma stack_spec_weaken {A} (m : SM A) k k' F G :
  stack_spec m k F -> k <= k' -> (forall a, F a -> G a) -> stack_spec m k' G.
Proof.
  intros [Hk Hm] Hle HF. split; [lia|]. intros b Hb s Hs. specialize (Hm b ltac:(lia) s Hs).
  destruct (m s) as [[a|e|] s']; [|done..]. destruct Hm as (Ha & ? & ?).
  repeat split; [by apply HF|done|lia].
Qed.

Lemma stack_spec_repeat (m : SM unit) k n :
  stack_spec m k (fun _ => True) -> stack_spec (repeatM n m) (Z.of_nat n * k) (fun _ => True).
Proof.
  intros Hm. induction n as [|n IH]; [by apply stack_spec_ret|].
  pose proof (proj1 Hm). cbn [repeatM].
  replace (Z.of_nat (S n) * k) with (k + Z.of_nat n * k) by lia.
  eapply stack_spec_bind; [done|by intros|lia].
Qed.

Lemma PushByteArray_spec so : elem so -> stack_spec (PushByteArray so) 1 (fun _ => True).
Proof.
  intros He. split; [lia|]. intros b Hb s [Hs Hl]. simpl.
  repeat split; [by apply Forall_snoc|zlia].
Qed.

Lemma nipN_spec i : stack_spec (nipN i) 0 elem.
Proof.
  split; [lia|]. intros b Hb s [Hs Hl]. destruct (decide (0 <= i < zlen s)) as [Hi|Hi].
  - destruct (split_from_end s i Hi) as (pre & x & post & -> & Hp). subst i.
    rewrite nipN_run by lia. apply Forall_app in Hs as [H1 [H2 H3]%Forall_cons].
    repeat split; [apply H2..|by apply Forall_app|zlia].
  - by rewrite nipN_out_of_range by lia.
Qed.

Lemma PeekByteArray_spec i : stack_spec (PeekByteArray i) 0 elem.
Proof.
  split; [lia|]. intros b Hb s [Hs Hl]. destruct (decide (0 <= i < zlen s)) as [Hi|Hi].
  - destruct (split_from_end s i Hi) as (pre & x & post & -> & Hp). subst i.
    rewrite PeekByteArray_run by lia. pose proof Hs as [_ [Hx _]%Forall_cons]%Forall_app.
    repeat split; [apply Hx..|done|lia].
  - by rewrite PeekByteArray_out_of_range by lia.
Qed.

Lemma PopByteArray_spec : stack_spec PopByteArray 0 elem.
Proof. apply nipN_spec. Qed.

(** Numbers the handlers compute with and push. *)
Abbreviation operand n := (Z.abs n < 2 ^ 31).

Lemma PopInt_spec : stack_spec PopInt 0 (fun n => operand n).
Proof.
  apply (stack_spec_bind _ _ 0 0 elem); [apply nipN_spec| |lia]. intros so [Hl Hb].
  apply stack_spec_lift. rewrite makeScriptNum_correct by done. case_if; [done|].
  case_if; [|done]. destruct (decide (so = [])) as [->|Hne]; [by vm_compute|].
  pose proof (num_value_range so Hb Hne). unfold defaultScriptNumLen in *.
  assert (2 ^ (8 * zlen so - 1) <= 2 ^ 31) by (apply Z.pow_le_mono_r; lia). lia.
Qed.

Lemma PopBool_spec : stack_spec PopBool 0 (fun _ => True).
Proof.
  apply (stack_spec_bind _ _ 0 0 elem); [apply nipN_spec| |lia]. intros so _.
  by apply stack_spec_ret.
Qed.

Lemma PushInt_spec n : Z.abs n < 2 ^ 39 -> stack_spec (PushInt n) 1 (fun _ => True).
Proof.
  intros Hn. apply (stack_spec_bind _ _ 0 1 elem); [|apply PushByteArray_spec|lia].
  apply stack_spec_lift. destruct (Bytes_spec n ltac:(lia)) as (v & Hv & Hb & _).
  rewrite Hv. split; [|done]. pose proof (Bytes_length n v 5 ltac:(lia) Hv).
  unfold MaxScriptElementSize. lia.
Qed.

Lemma PushBool_spec v : stack_spec (PushBool v) 1 (fun _ => True).
Proof.
  apply PushByteArray_spec. destruct v; split; vm_compute; try done; repeat constructor; done.
Qed.

Create HintDb stack_specs.
#[export] Hint Constants Opaque : stack_specs.
#[export] Hint Resolve PushByteArray_spec nipN_spec PeekByteArray_spec PopByteArray_spec
  PopInt_spec PopBool_spec PushInt_spec PushBool_spec : stack_specs.

(** Moving or copying an item to the top. *)
Lemma roll_spec i : stack_spec (let* so := nipN i in PushByteArray so) 1 (fun _ => True).
Proof. apply (stack_spec_bind _ _ 0 1 elem); eauto with stack_specs. lia. Qed.

Lemma pick_spec i : stack_spec (let* so := PeekByteArray i in PushByteArray so) 1 (fun _ => True).
Proof. apply (stack_spec_bind _ _ 0 1 elem); eauto with stack_specs. lia. Qed.

Lemma NipN_spec i : stack_spec (NipN i) 0 (fun _ => True).
Proof.
  apply (stack_spec_bind _ _ 0 0 elem); [eauto with stack_specs| |lia]. intros.
  by apply stack_spec_ret.
Qed.

Lemma Tuck_spec : stack_spec Tuck 3 (fun _ => True).
Proof.
  unfold Tuck. apply (stack_spec_bind _ _ 0 3 elem); [eauto with stack_specs| |lia].
  intros x Hx. apply (stack_spec_bind _ _ 0 3 elem); [eauto with stack_specs| |lia].
  intros y Hy. apply (stack_spec_bind _ _ 1 2 (fun _ => True)); [eauto with stack_specs| |lia].
  intros _ _. apply (stack_spec_bind _ _ 1 1 (fun _ => True)); [eauto with stack_specs| |lia].
  intros _ _.  by apply PushByteArray_spec.
Qed.

Lemma blocks_spec n :
  1 <= n ->
  stack_spec (DropN n) 0 (fun _ => True) /\ stack_spec (DupN n) n (fun _ => True) /\
  stack_spec (RotN n) n (fun _ => True) /\ stack_spec (SwapN n) n (fun _ => True) /\
  stack_spec (OverN n) n (fun _ => True).
Proof.
  intros Hn. unfold DropN, DupN, RotN, SwapN, OverN. destruct (Z.ltb_spec n 1); [lia|].
  assert (Hr : forall m, stack_spec m 1 (fun _ => True) ->
    stack_spec (repeatM (Z.to_nat n) m) n (fun _ => True)).
  { intros m Hm%(stack_spec_repeat m 1 (Z.to_nat n)).
    by replace n with (Z.of_nat (Z.to_nat n) * 1) at 2 by lia. }
  refine (conj _ (conj _ (conj _ (conj _ _)))); try (apply Hr; first [apply roll_spec | apply pick_spec]).
  pose proof (stack_spec_repeat _ 0 (Z.to_nat n) (NipN_spec 0)) as Hd.
  by rewrite Z.mul_0_r in Hd.
Qed.

Lemma DropN_spec n : 1 <= n -> stack_spec (DropN n) 0 (fun _ => True).
Proof. intros Hn. exact (proj1 (blocks_spec n Hn)). Qed.
Lemma DupN_spec n : 1 <= n -> stack_spec (DupN n) n (fun _ => True).
Proof. intros Hn. exact (proj1 (proj2 (blocks_spec n Hn))). Qed.
Lemma RotN_spec n : 1 <= n -> stack_spec (RotN n) n (fun _ => True).
Proof. intros Hn. exact (proj1 (proj2 (proj2 (blocks_spec n Hn)))). Qed.
Lemma SwapN_spec n : 1 <= n -> stack_spec (SwapN n) n (fun _ => True).
Proof. intros Hn. exact (proj1 (proj2 (proj2 (proj2 (blocks_spec n Hn))))). Qed.
Lemma OverN_spec n : 1 <= n -> stack_spec (OverN n) n (fun _ => True).
Proof. intros Hn. exact (proj2 (proj2 (proj2 (proj2 (blocks_spec n Hn))))). Qed.

Lemma elem_nil : elem [].
Proof. split; [by vm_compute|constructor]. Qed.

Lemma elem_digest d : length d = 32%nat -> Forall is_byte d -> elem d.
Proof. intros Hl Hb. split; [unfold zlen, MaxScriptElementSize; lia|done]. Qed.

(** The bound on a number a handler pushes. *)
Ltac push_bound :=
  cbv beta in *; unfold elem, MaxScriptElementSize, uint8 in *; repeat case_if;
  rewrite ?int64_id by lia; zlen_facts;
  repeat match goal with |- context [?z mod ?m] =>
    pose proof (Z.mod_pos_bound z m ltac:(lia)); generalize dependent (z mod m); intros end;
  lia.

#[export] Hint Resolve roll_spec pick_spec NipN_spec Tuck_spec DropN_spec DupN_spec RotN_spec
  SwapN_spec OverN_spec elem_nil : stack_specs.
#[export] Hint Extern 1 (Z.abs _ < _) => push_bound : stack_specs.
#[export] Hint Extern 1 (1 <= _) => lia : stack_specs.

(** * The state between two opcodes *)

Section invariant.
Context `{C : Crypto} `{!CryptoLaws C} `{IT : MapIteration}.

Definition cond_ok (c : Z) : Prop := c = OpCondFalse \/ c = OpCondTrue \/ c = OpCondSkip.

(** The input being signed refers to a known output. *)
Definition spends_known (vm : Engine) : Prop :=
  exists txIn entry,
    lookupZ (Inputs (tx vm)) (txIdx vm) = Some txIn /\ in_UTXOEntry txIn = Some entry.

(** The caches hold only what was verified, or computed for this transaction. *)
Definition caches_ok (vm : Engine) : Prop :=
  (forall c, sigCache vm = Some c -> cache_inv c) /\
  (forall c, sigCacheECDSA vm = Some c -> cache_inv c) /\
  reuse_ok (tx vm) (sigHashReusedValues vm).

(** At most [n] items on the two stacks together, all well-formed; known
    values on the conditional stack; the operation count within its limit. *)
Record data_ok (n : Z) (vm : Engine) : Prop := mk_data_ok {
  ok_dstack : Forall elem (dstack vm);
  ok_astack : Forall elem (astack vm);
  ok_depth : zlen (dstack vm) + zlen (astack vm) <= n;
  ok_cond : Forall cond_ok (condStack vm);
  ok_numOps : 0 <= numOps vm <= MaxOpsPerScript;
  ok_spends : spends_known vm;
  ok_caches : caches_ok vm
}.

(** What no handler changes. *)
Definition same_frame (vm0 vm : Engine) : Prop :=
  scriptVersion vm = scriptVersion vm0 /\ scripts vm = scripts vm0 /\
  scriptIdx vm = scriptIdx vm0 /\ scriptOff vm = scriptOff vm0 /\ tx vm = tx vm0 /\
  txIdx vm = txIdx vm0 /\ isP2SH vm = isP2SH vm0 /\ savedFirstStack vm = savedFirstStack vm0.

Section frame.
Context (vm0 : Engine).

Definition I (n : Z) (vm : Engine) : Prop := same_frame vm0 vm /\ data_ok n vm.

(** A handler step: from at most [n] items to at most [n + k]. *)
Definition handler_spec {A} (n k : Z) (m : M error Engine A) (F : A -> Prop) : Prop :=
  triple (I n) m (fun a vm => F a /\ I (n + k) vm) rt.

Lemma I_mono n n' vm : I n vm -> n <= n' -> I n' vm.
Proof. intros [Hf []] Hle. split; [done|]. split; try done. lia. Qed.

(** Two states of the same run have the same transaction. *)
Lemma I_tx n m vm vm' : I n vm -> I m vm' -> tx vm = tx vm' /\ txIdx vm = txIdx vm'.
Proof. intros [(_&_&_&_&H1&H2&_) _] [(_&_&_&_&H3&H4&_) _]. split; congruence. Qed.

Lemma on_dstack_spec {A} (m : SM A) n k F :
  stack_spec m k F -> n + k < 2 ^ 31 -> handler_spec n k (on_dstack m) F.
Proof.
  intros [Hk Hm] Hb vm [Hf [Hd Ha Hl Hc Hn Hs Hca]]. unfold on_dstack, zoom.
  assert (Hb' : zlen (dstack vm) <= n - zlen (astack vm)) by lia.
  specialize (Hm (n - zlen (astack vm)) ltac:(zlen_facts; lia) (dstack vm) (conj Hd Hb')).
  destruct (m (dstack vm)) as [[a|e|] s']; [|done..]. destruct Hm as (HF & Hs' & Hl').
  split; [done|]. split; [done|]. split; try done; simpl. lia.
Qed.

Lemma on_astack_spec {A} (m : SM A) n k F :
  stack_spec m k F -> n + k < 2 ^ 31 -> handler_spec n k (on_astack m) F.
Proof.
  intros [Hk Hm] Hb vm [Hf [Hd Ha Hl Hc Hn Hs Hca]]. unfold on_astack, zoom.
  assert (Hb' : zlen (astack vm) <= n - zlen (dstack vm)) by lia.
  specialize (Hm (n - zlen (dstack vm)) ltac:(zlen_facts; lia) (astack vm) (conj Ha Hb')).
  destruct (m (astack vm)) as [[a|e|] s']; [|done..]. destruct Hm as (HF & Hs' & Hl').
  split; [done|]. split; [done|]. split; try done; simpl. lia.
Qed.

Lemma handler_bind {A B} (m : M error Engine A) (f : A -> M error Engine B) n k1 k2 F G :
  handler_spec n k1 m F -> (forall a, F a -> handler_spec (n + k1) k2 (f a) G) ->
  handler_spec n (k1 + k2) (bind m f) G.
Proof.
  intros Hm Hf. eapply triple_bind; [exact Hm|]. intros a. simpl. apply triple_pure.
  intros Ha. specialize (Hf a Ha). unfold handler_spec in Hf. by rewrite <- Z.add_assoc in Hf.
Qed.

(** The common case: a step that adds no item, then the rest. *)
Lemma handler_bind0 {A B} (m : M error Engine A) (f : A -> M error Engine B) n k F G :
  handler_spec n 0 m F -> (forall a, F a -> handler_spec n k (f a) G) ->
  handler_spec n k (bind m f) G.
Proof.
  intros Hm Hf. change k with (0 + k). eapply handler_bind; [exact Hm|].
  rewrite Z.add_0_r. exact Hf.
Qed.

Lemma handler_ret {A} (a : A) n (F : A -> Prop) : F a -> handler_spec n 0 (ret a) F.
Proof. intros Ha vm Hi. simpl. by rewrite Z.add_0_r. Qed.

Lemma handler_throw {A} e n k (F : A -> Prop) : rt e -> handler_spec n k (throw e) F.
Proof. intros He vm Hi. done. Qed.

Lemma handler_lift {A} (r : res error A) n (F : A -> Prop) :
  match r with Ok a => F a | Err e => rt e | Panic => False end ->
  handler_spec n 0 (lift r) F.
Proof. intros Hr vm Hi. unfold lift. destruct r; [|done..]. by rewrite Z.add_0_r. Qed.

Lemma handler_get {B} (f : Engine -> M error Engine B) n k G :
  (forall vm, I n vm -> handler_spec n k (f vm) G) -> handler_spec n k (bind get f) G.
Proof. intros Hf vm Hi. by apply Hf. Qed.

Lemma handler_modify f n :
  (forall vm, I n vm -> I n (f vm)) -> handler_spec n 0 (modify f) (fun _ => True).
Proof. intros Hf vm Hi. simpl. rewrite Z.add_0_r. auto. Qed.

Lemma handler_if {A} (b : bool) (m1 m2 : M error Engine A) n k F :
  (b = true -> handler_spec n k m1 F) -> (b = false -> handler_spec n k m2 F) ->
  handler_spec n k (if b then m1 else m2) F.
Proof. destruct b; auto. Qed.

Lemma handler_weaken {A} (m : M error Engine A) n k k' (F G : A -> Prop) :
  handler_spec n k m F -> k <= k' -> (forall a, F a -> G a) -> handler_spec n k' m G.
Proof.
  intros Hm Hle HF. eapply triple_consequence; [exact Hm|done|].
  intros a vm [Ha Hi]. split; [by apply HF|]. eapply I_mono; [done|lia].
Qed.

Lemma handler_ret_le {A} (a : A) n k (F : A -> Prop) : F a -> 0 <= k -> handler_spec n k (ret a) F.
Proof. intros. eapply handler_weaken; [by apply handler_ret|done|done]. Qed.

Lemma handler_on_dstack_le {A} (m : SM A) n k k' F (G : A -> Prop) :
  stack_spec m k F -> k <= k' -> n + k < 2 ^ 31 -> (forall a, F a -> G a) ->
  handler_spec n k' (on_dstack m) G.
Proof. intros. eapply handler_weaken; [by apply on_dstack_spec|done|done]. Qed.

Lemma handler_index {A} (l : list A) i n :
  0 <= i < zlen l -> handler_spec n 0 (index l i) (fun x => lookupZ l i = Some x).
Proof.
  intros Hi. apply handler_lift. unfold index_res. destruct (lookupZ_in_range l i Hi) as [x Hx].
  by rewrite Hx.
Qed.

Lemma handler_slice {A} (l : list A) hi n :
  0 <= hi <= zlen l -> handler_spec n 0 (slice l 0 hi) (fun x => x = sliceZ l 0 hi).
Proof. intros Hi. apply handler_lift. unfold slice_res. by case_if; [|lia]. Qed.

(** Counting operations against the limit. *)
Lemma handler_count {A} p (f : M error Engine A) n k F :
  0 <= p -> handler_spec n k f F ->
  handler_spec n k
    (modify (fun vm => set_numOps (numOps vm + p) vm) ;;
     let* vm := get in
     if numOps vm >? MaxOpsPerScript then throw (scriptError ErrTooManyOperations) else f) F.
Proof.
  intros Hp Hf vm [Hfr []]. unfold bind, modify, get. cbn [numOps set_numOps].
  destruct (numOps vm + p >? MaxOpsPerScript) eqn:Hgt; [done|]. apply Hf.
  split; [done|]. split; try done. simpl. lia.
Qed.

(** One step of the symbolic execution of a handler. *)
Ltac hstep :=
  match goal with
  | |- handler_spec _ _ (bind get _) _ => eapply handler_get; intros ??
  | |- handler_spec _ _ (bind (on_dstack _) _) _ =>
      eapply handler_bind0; [eapply on_dstack_spec; [solve [eauto with stack_specs]|lia]|intros ??]
  | |- handler_spec _ _ (bind (on_astack _) _) _ =>
      eapply handler_bind0; [eapply on_astack_spec; [solve [eauto with stack_specs]|lia]|intros ??]
  | |- handler_spec _ _ (if _ then _ else _) _ => apply handler_if; intros ?
  | |- handler_spec _ _ (throw _) _ => apply handler_throw; reflexivity
  | |- handler_spec _ _ (ret _) _ => apply handler_ret_le; [done|lia]
  | |- handler_spec _ _ (on_dstack _) _ =>
      eapply handler_on_dstack_le; [solve [eauto with stack_specs]|lia|lia|done]
  end.

(** * Signature checks

    What [checkSig] and [checkMultiSig] need to know of a signature kind. *)
Class KindLaws (k : SigKind) : Prop := {
  kind_cache : forall n vm c, I n vm -> sk_cache k vm = Some c -> cache_inv c;
  kind_set_cache : forall n vm c,
    I n vm -> cache_inv c -> I n (sk_set_cache k (Some c) vm);
  kind_hash : forall tx i ht r,
    IsStandardSigHashType ht = true -> reuse_ok tx r ->
    (exists txIn entry, lookupZ (Inputs tx) i = Some txIn /\ in_UTXOEntry txIn = Some entry) ->
    exists h r', sk_hash k tx i ht r = (Ok h, r') /\ reuse_ok tx r';
  kind_pubkey : forall b e, sk_checkPubKeyEncoding k b = Err e -> rt e;
  kind_pubkey_total : forall b, sk_checkPubKeyEncoding k b <> Panic;
  kind_sig : forall b e, sk_checkSignatureLength k b = Err e -> rt e;
  kind_sig_total : forall b, sk_checkSignatureLength k b <> Panic
}.

#[global] Instance SchnorrKind_laws : KindLaws SchnorrKind.
Proof.
  split; simpl.
  - intros n vm c [_ [_ _ _ _ _ _ (H1 & _)]] Hc. by apply H1.
  - intros n vm c [Hf []] Hc. split; [done|]. split; try done.
    destruct ok_caches0 as (H1 & H2 & H3). split; [by intros c' [= <-]|done].
  - intros tx i ht r Hht Hr Hin. destruct (Schnorr_hash_ok tx i ht r Hht Hin) as (h & r' & He).
    exists h, r'. split; [done|]. pose proof (transparent_Schnorr tx i ht r Hr) as [_ Ho].
    by rewrite He in Ho.
  - intros b e. unfold checkPubKeyEncoding. by case_if; intros [= <-].
  - intros b. unfold checkPubKeyEncoding. by case_if.
  - intros b e. unfold checkSignatureLength. by case_if; intros [= <-].
  - intros b. unfold checkSignatureLength. by case_if.
Qed.

#[global] Instance ECDSAKind_laws : KindLaws ECDSAKind.
Proof.
  split; simpl.
  - intros n vm c [_ [_ _ _ _ _ _ (_ & H2 & _)]] Hc. by apply H2.
  - intros n vm c [Hf []] Hc. split; [done|]. split; try done.
    destruct ok_caches0 as (H1 & H2 & H3). split; [done|]. split; [by intros c' [= <-]|done].
  - intros tx i ht r Hht Hr Hin. destruct (Schnorr_hash_ok tx i ht r Hht Hin) as (h & r' & He).
    pose proof (transparent_ECDSA tx i ht r Hr) as [_ Ho].
    unfold CalculateSignatureHashECDSA in *. erewrite bind_ok in Ho by exact He.
    eexists _, r'. split; [by erewrite bind_ok by exact He|done].
  - intros b e. unfold checkPubKeyEncodingECDSA. by case_if; intros [= <-].
  - intros b. unfold checkPubKeyEncodingECDSA. by case_if.
  - intros b e. unfold checkSignatureLengthECDSA. by case_if; intros [= <-].
  - intros b. unfold checkSignatureLengthECDSA. by case_if.
Qed.

Lemma lift_check_spec (r : res error unit) n :
  (forall e, r = Err e -> rt e) -> r <> Panic -> handler_spec n 0 (lift r) (fun _ => True).
Proof. intros He Hp. apply handler_lift. destruct r; [done|by apply He|done]. Qed.

Section kind.
Context (k : SigKind) `{!KindLaws k}.

Lemma verify_cached_spec n h sig pk :
  handler_spec n 0 (verify_cached k h sig pk) (fun _ => True).
Proof.
  unfold verify_cached. apply handler_get. intros vm Hi.
  destruct (sk_cache k vm) as [c|] eqn:Hc; [|by apply handler_ret].
  case_if; [by apply handler_ret|]. case_if; [|by apply handler_ret].
  eapply handler_bind0; [|intros; by apply handler_ret].
  apply handler_modify. intros vm' Hi'. apply kind_set_cache; [done|].
  apply Add_inv; [by apply (kind_cache n vm)|done].
Qed.

Lemma hash_spec n vm ht :
  I n vm -> IsStandardSigHashType ht = true ->
  handler_spec n 0 (on_reused (sk_hash k (tx vm) (txIdx vm) ht)) (fun _ => True) /\
  handler_spec n 0 (try (on_reused (sk_hash k (tx vm) (txIdx vm) ht))) (fun _ => True).
Proof.
  intros Hi Hht. assert (Hrun : forall vm', I n vm' -> exists h vm'',
    on_reused (sk_hash k (tx vm) (txIdx vm) ht) vm' = (Ok h, vm'') /\ I n vm'').
  { intros vm' Hi'. destruct (I_tx _ _ _ _ Hi Hi') as [-> ->]. destruct Hi' as [Hf' []].
    destruct ok_caches0 as (H1 & H2 & H3).
    destruct (kind_hash (tx vm') (txIdx vm') ht (sigHashReusedValues vm') Hht H3 ok_spends0)
      as (h & r' & He & Ho).
    unfold on_reused, zoom. rewrite He. exists h, (set_reused r' vm'). split; [done|].
    split; [done|]. split; try done. }
  split; intros vm' Hi'; destruct (Hrun vm' Hi') as (h & vm'' & He & Hi'');
    unfold try; rewrite He, Z.add_0_r; done.
Qed.

Lemma checkSig_spec op n : n < 1000 -> handler_spec n 1 (checkSig k op) (fun _ => True).
Proof.
  intros Hn. unfold checkSig. do 3 hstep; [hstep|].
  eapply handler_bind0; [apply handler_index; zlia|]. intros ht Hht.
  eapply handler_bind0; [apply handler_slice; zlia|]. intros sig ->.
  hstep; [hstep|].
  eapply handler_bind0; [apply lift_check_spec; [apply kind_sig|apply kind_sig_total]|intros _ _].
  eapply handler_bind0; [apply lift_check_spec; [apply kind_pubkey|apply kind_pubkey_total]|intros _ _].
  hstep. eapply handler_bind0; [apply hash_spec; [done|]|].
  { by destruct (IsStandardSigHashType ht). }
  intros [h|] _; [|hstep]. destruct (DeserializePubKey _ _); [|hstep].
  destruct (DeserializeSignature _ _); [|hstep].
  eapply handler_bind0; [apply verify_cached_spec|intros v _]. hstep; hstep.
Qed.

(** A signature that counts as parsed had its hash type checked. *)
Definition psi_ok (si : parsedSigInfo k) : Prop :=
  psi_parsed si = true -> forall ht,
  lookupZ (psi_signature si) (zlen (psi_signature si) - 1) = Some ht ->
  IsStandardSigHashType ht = true.

Lemma parse_sig_once_spec si ht sig n :
  psi_ok si -> lookupZ (psi_signature si) (zlen (psi_signature si) - 1) = Some ht ->
  handler_spec n 0 (parse_sig_once k si ht sig)
    (fun r => psi_ok (fst r) /\ IsStandardSigHashType ht = true).
Proof.
  intros Hok Hht. unfold parse_sig_once. hstep.
  - hstep; [hstep|]. destruct (IsStandardSigHashType ht) eqn:Hstd; [|done].
    eapply handler_bind0; [apply lift_check_spec; [apply kind_sig|apply kind_sig_total]|intros _ _].
    apply handler_ret. split; [|done]. intros _ ht' Hht'. simpl in Hht'. congruence.
  - apply handler_ret. split; [done|]. apply Hok; [by destruct (psi_parsed si)|done].
Qed.

Lemma multiSig_round_spec si pk n :
  psi_ok si -> handler_spec n 0 (multiSig_round k si pk) (fun r => psi_ok (fst r)).
Proof.
  intros Hok. unfold multiSig_round. hstep; [hstep|].
  eapply handler_bind0; [apply handler_index; zlia|]. intros ht Hht.
  eapply handler_bind0; [apply handler_slice; zlia|]. intros sig ->.
  eapply handler_bind0; [by apply parse_sig_once_spec|]. intros [si' [sig|]] [Hok' Hstd]; [|by hstep].
  eapply handler_bind0; [apply lift_check_spec; [apply kind_pubkey|apply kind_pubkey_total]|intros _ _].
  destruct (DeserializePubKey _ _); [|by hstep].
  hstep. eapply handler_bind0; [by apply hash_spec|]. intros h _.
  eapply handler_bind0; [apply verify_cached_spec|intros v _]. by hstep.
Qed.

Lemma multiSig_loop_spec pubKeys fuel sigs numSigs numKeys sigIdx keyIdx n :
  Forall psi_ok sigs -> 0 <= sigIdx -> -1 <= keyIdx ->
  sigIdx + numSigs = zlen sigs -> keyIdx + numKeys = zlen pubKeys ->
  numSigs <= numKeys <= Z.of_nat fuel ->
  handler_spec n 0 (multiSig_loop k pubKeys fuel sigs numSigs numKeys sigIdx keyIdx) (fun _ => True).
Proof.
  revert sigs numSigs numKeys sigIdx keyIdx.
  induction fuel as [|fuel IH]; intros sigs numSigs numKeys sigIdx keyIdx Hok Hsi Hki Hs Hk Hf;
    cbn [multiSig_loop]; (hstep; [by hstep|]); [lia|].
  hstep; [by hstep|].
  eapply handler_bind0; [apply handler_index; lia|]. intros si Hsig.
  eapply handler_bind0; [apply handler_index; lia|]. intros pk _.
  eapply handler_bind0.
  { apply multiSig_round_spec. rewrite Forall_forall in Hok. apply Hok. by apply (lookupZ_elem_of _ sigIdx). }
  intros [si' v] Hsi'. simpl in Hsi'.
  assert (Hok' : Forall psi_ok (<[Z.to_nat sigIdx:=si']> sigs)) by by apply Forall_insert.
  assert (Hl : zlen (<[Z.to_nat sigIdx:=si']> sigs) = zlen sigs)
    by (unfold zlen; by rewrite length_insert).
  destruct v; apply IH; auto; lia.
Qed.

Lemma pop_items_spec m n :
  n < 1000 -> handler_spec n 0 (pop_items m) (fun l => length l = m /\ Forall elem l).
Proof.
  intros Hn. induction m as [|m IH]; cbn [pop_items]; [hstep|].
  hstep. eapply handler_bind0; [exact IH|]. intros l [Hl He]. apply handler_ret.
  split; [simpl; lia|by constructor].
Qed.

Lemma checkMultiSig_spec op n :
  n < 1000 -> handler_spec n 1 (checkMultiSig k op) (fun _ => True).
Proof.
  intros Hn. unfold checkMultiSig. hstep. do 2 (hstep; [hstep|]).
  apply handler_count; [lia|].
  eapply handler_bind0; [by apply pop_items_spec|]. intros keys [Hkeys _].
  hstep. do 2 (hstep; [hstep|]).
  eapply handler_bind0; [by apply pop_items_spec|]. intros sigs [Hsigs _].
  eapply handler_bind0.
  { apply multiSig_loop_spec; unfold zlen; rewrite ?length_map; try lia.
    apply Forall_forall. by intros si (s & -> & _)%list_elem_of_fmap. }
  intros success _. hstep; hstep.
Qed.

End kind.



(** * All handlers *)

Lemma popIfBool_spec n : n < 1000 -> handler_spec n 0 popIfBool (fun _ => True).
Proof. intros Hn. unfold popIfBool. repeat hstep. Qed.

Lemma push_cond_spec c n :
  cond_ok c -> handler_spec n 0 (modify (fun vm => set_condStack (condStack vm ++ [c]) vm)) (fun _ => True).
Proof.
  intros Hc. apply handler_modify. intros vm [Hf []]. split; [done|]. split; try done.
  by apply Forall_snoc.
Qed.

Lemma opcodeIf_spec op n : n < 1000 -> handler_spec n 0 (opcodeIf op) (fun _ => True).
Proof.
  intros Hn. unfold opcodeIf. hstep. eapply (handler_bind0 _ _ _ _ cond_ok); [|intros; by apply push_cond_spec].
  hstep; [|apply handler_ret; by (right; right)].
  eapply handler_bind0; [by apply popIfBool_spec|intros ok _]. apply handler_ret. unfold cond_ok.
  destruct ok; auto.
Qed.

Lemma opcodeNotIf_spec op n : n < 1000 -> handler_spec n 0 (opcodeNotIf op) (fun _ => True).
Proof.
  intros Hn. unfold opcodeNotIf. hstep. eapply (handler_bind0 _ _ _ _ cond_ok); [|intros; by apply push_cond_spec].
  hstep; [|apply handler_ret; by (right; right)].
  eapply handler_bind0; [by apply popIfBool_spec|intros ok _]. apply handler_ret. unfold cond_ok.
  destruct ok; auto.
Qed.

Lemma opcodeElse_spec op n : handler_spec n 0 (opcodeElse op) (fun _ => True).
Proof.
  assert (Hset : forall c, cond_ok c -> handler_spec n 0 (modify (set_last_cond c)) (fun _ => True)).
  { intros c Hc. apply handler_modify. intros vm [Hf []]. split; [done|]. split; try done.
    by apply Forall_insert. }
  unfold opcodeElse. hstep. hstep; [hstep|].
  eapply handler_bind0; [apply handler_index; zlia|]. intros c _. unfold cond_ok in Hset.
  hstep; [by apply Hset; auto|]. hstep; [by apply Hset; auto|]. hstep.
Qed.

Lemma opcodeEndif_spec op n : handler_spec n 0 (opcodeEndif op) (fun _ => True).
Proof.
  unfold opcodeEndif. apply handler_get. intros vm Hi. hstep; [hstep|].
  eapply handler_bind0; [apply handler_slice; zlia|]. intros cs ->.
  apply handler_modify. intros vm' [Hf []]. split; [done|]. split; try done. simpl.
  apply Forall_take, Forall_drop. apply Hi.
Qed.

Lemma abstractVerify_spec op c n :
  n < 1000 -> rt (scriptError c) -> handler_spec n 0 (abstractVerify op c) (fun _ => True).
Proof. intros Hn Hc. unfold abstractVerify. repeat hstep. by apply handler_throw. Qed.

Lemma then_verify_spec (m : M error Engine unit) op c n k :
  n + k < 1000 -> 0 <= k -> rt (scriptError c) -> handler_spec n k m (fun _ => True) ->
  handler_spec n k (m ;; abstractVerify op c) (fun _ => True).
Proof.
  intros Hn Hk Hc Hm. replace k with (k + 0) by lia. eapply handler_bind; [exact Hm|].
  intros _ _. by apply abstractVerify_spec.
Qed.

Lemma operand_uint64_spec b n :
  handler_spec n 0 (lift (operand_uint64 b)) (fun _ => True).
Proof. apply handler_lift. unfold operand_uint64. by case_if. Qed.

Lemma verifyLockTime_spec a b n : handler_spec n 0 (lift (verifyLockTime a b)) (fun _ => True).
Proof. apply handler_lift. unfold verifyLockTime. by case_if. Qed.

Lemma index_input_spec n vm :
  I n vm -> handler_spec n 0 (index (Inputs (tx vm)) (txIdx vm)) (fun _ => True).
Proof.
  intros [_ []]. destruct ok_spends0 as (txIn & _ & Hl & _).
  eapply handler_weaken; [apply handler_index; by eapply lookupZ_Some_range|lia|done].
Qed.

Lemma opcodeCheckLockTimeVerify_spec op n :
  n < 1000 -> handler_spec n 0 (opcodeCheckLockTimeVerify op) (fun _ => True).
Proof.
  intros Hn. unfold opcodeCheckLockTimeVerify. hstep.
  eapply handler_bind0; [apply operand_uint64_spec|intros t _]. hstep.
  eapply handler_bind0.
  { apply handler_lift with (F := fun _ => True). unfold verifyLockTimeWithThreshold,
      verifyLockTimeThreshold, verifyLockTime. by repeat case_if. }
  intros _ _. eapply handler_bind0; [by apply index_input_spec|]. intros txIn _. hstep; hstep.
Qed.

Lemma opcodeCheckSequenceVerify_spec op n :
  n < 1000 -> handler_spec n 0 (opcodeCheckSequenceVerify op) (fun _ => True).
Proof.
  intros Hn. unfold opcodeCheckSequenceVerify. hstep.
  eapply handler_bind0; [apply operand_uint64_spec|intros t _]. hstep; [hstep|]. hstep.
  eapply handler_bind0; [by apply index_input_spec|]. intros txIn _. hstep; [hstep|].
  apply verifyLockTime_spec.
Qed.

Lemma opcodeDepth_spec op n : n < 1000 -> handler_spec n 1 (opcodeDepth op) (fun _ => True).
Proof.
  intros Hn. unfold opcodeDepth. hstep. pose proof (int32_range (zlen (dstack vm))).
  unfold Depth. hstep.
Qed.

Lemma opcodeEqual_spec op n : n < 1000 -> handler_spec n 1 (opcodeEqual op) (fun _ => True).
Proof. intros Hn. unfold opcodeEqual. repeat hstep. Qed.

Lemma opcodeNumEqual_spec op n : n < 1000 -> handler_spec n 1 (opcodeNumEqual op) (fun _ => True).
Proof. intros Hn. unfold opcodeNumEqual. repeat hstep. Qed.

Lemma opcodeToAltStack_spec op n :
  n < 1000 -> handler_spec n 1 (opcodeToAltStack op) (fun _ => True).
Proof.
  intros Hn. unfold opcodeToAltStack. hstep. apply on_astack_spec; [|lia].
  by apply PushByteArray_spec.
Qed.

Lemma digest_elems :
  (forall m, elem (Sum256 m)) /\ (forall m, elem (blake2b_Sum256 m)).
Proof.
  split; intros m; apply elem_digest;
    auto using length_Sum256, Sum256_bytes, blake2b_Sum256_length, blake2b_Sum256_bytes.
Qed.

(** Every handler in the table, on at most [n] items: it returns a script error
    or leaves at most [n + 3] well-formed items. *)
Lemma opfunc_spec f op n :
  n < 900 -> (f = F_opcodePushData -> elem (data_of op)) ->
  handler_spec n 3 (opfunc_run f op) (fun _ => True).
Proof.
  intros Hn Hdata.
  assert (Hle : forall (m : M error Engine unit) k, handler_spec n k m (fun _ => True) -> k <= 3 ->
    handler_spec n 3 m (fun _ => True)).
  { intros m k Hm Hk. by eapply handler_weaken. }
  pose proof digest_elems as [Hsha Hblake].
  assert (Hcs : forall k, KindLaws k -> handler_spec n 1 (checkSig k op) (fun _ => True))
    by (intros; apply checkSig_spec; [done|lia]).
  assert (Hcm : forall k, KindLaws k -> handler_spec n 1 (checkMultiSig k op) (fun _ => True))
    by (intros; apply checkMultiSig_spec; [done|lia]).
  destruct f; cbn [opfunc_run];
    lazymatch goal with
    | |- handler_spec _ _ (opcodeIf _) _ => apply (Hle _ 0); [|lia]; apply opcodeIf_spec; lia
    | |- handler_spec _ _ (opcodeNotIf _) _ => apply (Hle _ 0); [|lia]; apply opcodeNotIf_spec; lia
    | |- handler_spec _ _ (opcodeElse _) _ => apply (Hle _ 0); [|lia]; apply opcodeElse_spec
    | |- handler_spec _ _ (opcodeEndif _) _ => apply (Hle _ 0); [|lia]; apply opcodeEndif_spec
    | |- handler_spec _ _ (opcodeVerify _) _ =>
        apply (Hle _ 0); [|lia]; apply abstractVerify_spec; [lia|done]
    | |- handler_spec _ _ (opcodeCheckLockTimeVerify _) _ =>
        apply (Hle _ 0); [|lia]; apply opcodeCheckLockTimeVerify_spec; lia
    | |- handler_spec _ _ (opcodeCheckSequenceVerify _) _ =>
        apply (Hle _ 0); [|lia]; apply opcodeCheckSequenceVerify_spec; lia
    | |- handler_spec _ _ (opcodeDepth _) _ => apply (Hle _ 1); [|lia]; apply opcodeDepth_spec; lia
    | |- handler_spec _ _ (opcodeEqual _) _ => apply (Hle _ 1); [|lia]; apply opcodeEqual_spec; lia
    | |- handler_spec _ _ (opcodeNumEqual _) _ =>
        apply (Hle _ 1); [|lia]; apply opcodeNumEqual_spec; lia
    | |- handler_spec _ _ (opcodeEqualVerify _) _ =>
        apply (Hle _ 1); [|lia]; apply then_verify_spec; [lia|lia|done|apply opcodeEqual_spec; lia]
    | |- handler_spec _ _ (opcodeNumEqualVerify _) _ =>
        apply (Hle _ 1); [|lia]; apply then_verify_spec; [lia|lia|done|apply opcodeNumEqual_spec; lia]
    | |- handler_spec _ _ (opcodeCheckSig _) _ => apply (Hle _ 1); [exact (Hcs _ _)|lia]
    | |- handler_spec _ _ (opcodeCheckSigECDSA _) _ => apply (Hle _ 1); [exact (Hcs _ _)|lia]
    | |- handler_spec _ _ (opcodeCheckMultiSig _) _ => apply (Hle _ 1); [exact (Hcm _ _)|lia]
    | |- handler_spec _ _ (opcodeCheckMultiSigECDSA _) _ => apply (Hle _ 1); [exact (Hcm _ _)|lia]
    | |- handler_spec _ _ (opcodeCheckSigVerify _) _ =>
        apply (Hle _ 1); [|lia]; apply then_verify_spec; [lia|lia|done|exact (Hcs _ _)]
    | |- handler_spec _ _ (opcodeCheckMultiSigVerify _) _ =>
        apply (Hle _ 1); [|lia]; apply then_verify_spec; [lia|lia|done|exact (Hcm _ _)]
    | |- handler_spec _ _ (opcodeToAltStack _) _ =>
        apply (Hle _ 1); [|lia]; apply opcodeToAltStack_spec; lia
    | _ => idtac
    end.
  all: unfold opcodeFalse, opcodePushData, opcode1Negate, opcodeN, opcodeNop, opcodeReserved,
    opcodeReturn, opcodeFromAltStack, opcode2Drop, opcode2Dup, opcode3Dup, opcode2Over,
    opcode2Rot, opcode2Swap, opcodeIfDup, opcodeDrop, opcodeDup, opcodeNip, opcodeOver,
    opcodePick, opcodeRoll, opcodeRot, opcodeSwap, opcodeTuck, opcodeDisabled, opcodeSize,
    opcode1Add, opcode1Sub, opcodeNegate, opcodeAbs, opcodeNot, opcode0NotEqual, opcodeAdd,
    opcodeSub, opcodeBoolAnd, opcodeBoolOr, opcodeNumNotEqual, opcodeLessThan,
    opcodeGreaterThan, opcodeLessThanOrEqual, opcodeGreaterThanOrEqual, opcodeMin, opcodeMax,
    opcodeWithin, opcodeSha256, opcodeBlake2b, opcodeInvalid, PickN, RollN; repeat hstep.
Qed.

(** * The interpreter *)

(** An opcode of the table with its data. *)
Definition pop_ok (pop : parsedOpcode) : Prop := exists b, pop_at b pop.

Lemma pop_ok_data pop : pop_ok pop -> Forall is_byte (data_of pop).
Proof.
  intros (b & _ & Hd). unfold data_of. destruct (pop_data pop) as [d|]; [|constructor].
  apply Hd.
Qed.

(** Only opcodes up to [OP_PUSHDATA4] push their data. *)
Lemma pop_ok_pushdata pop :
  pop_ok pop -> op_func (pop_opcode pop) = F_opcodePushData -> pop_value pop <= Op16.
Proof.
  intros (b & Hb & _) Hf. apply (opcodeArray_lookup
    (fun b op => negb (bool_decide (op_func op = F_opcodePushData)) || (op_value op <=? Op16))) in Hb;
    [|reflexivity].
  rewrite bool_decide_eq_true_2 in Hb by done. simpl in Hb. unfold pop_value. lia.
Qed.

Lemma checkMinimalDataPush_spec pop n :
  handler_spec n 0 (lift (checkMinimalDataPush pop)) (fun _ => True).
Proof. apply handler_lift. unfold checkMinimalDataPush. by repeat case_if. Qed.

Lemma executeOpcode_spec pop n :
  n < 900 -> pop_ok pop -> handler_spec n 3 (executeOpcode pop) (fun _ => True).
Proof.
  intros Hn Hpop. unfold executeOpcode. do 2 (hstep; [hstep|]).
  eapply (handler_bind0 _ _ _ _ (fun _ => pop_value pop > Op16 \/ elem (data_of pop))).
  - hstep.
    + eapply handler_count; [lia|]. apply handler_ret. left. lia.
    + hstep; [hstep|]. apply handler_ret. right. split; [lia|by apply pop_ok_data].
  - intros _ Hdata. unfold executeOpcode_run. hstep. hstep; [hstep|].
    eapply handler_bind0.
    { instantiate (1 := fun _ => True). hstep; [apply checkMinimalDataPush_spec|hstep]. }
    intros _ _. apply opfunc_spec; [done|]. intros Hf.
    pose proof (pop_ok_pushdata pop Hpop Hf). destruct Hdata; [lia|done].
Qed.

End frame.

End invariant.
