(* ===== verification/EngineStep.v ===== *)
(** Running the script engine: [Step] preserves the machine invariant and makes
    progress, so [Execute] returns, without a panic. *)

From S2P Require Import Prelude ScriptError ScriptNum Stack Opcodes Transaction.
From S2P Require Import Script Sha256 SigHash SigCache Engine EngineInv.

Section step.
Context `{C : Crypto} `{!CryptoLaws C} `{IT : MapIteration}.

(** * The machine invariant *)

(** Which script is running.  A plain spend runs two scripts.  A
    pay-to-script-hash spend saves the stack the signature script leaves,
    starts the public key script on it, and adds the redeem script when that
    has succeeded. *)
Inductive phase (vm : Engine) : Prop :=
| phase_sig s0 s1 :
    scripts vm = [s0; s1] -> scriptIdx vm = 0 ->
    (isP2SH vm = true -> isScriptHash s1 = true) -> phase vm
| phase_pubkey s0 s1 :
    scripts vm = [s0; s1] -> scriptIdx vm = 1 -> isP2SH vm = false -> phase vm
| phase_p2sh s0 s1 :
    scripts vm = [s0; s1] -> scriptIdx vm = 1 -> isP2SH vm = true ->
    isScriptHash s1 = true -> Forall elem (savedFirstStack vm) ->
    zlen (savedFirstStack vm) <= MaxStackSize ->
    (if scriptOff vm =? 0 then dstack vm = savedFirstStack vm else savedFirstStack vm <> []) ->
    phase vm
| phase_redeem s0 s1 s2 :
    scripts vm = [s0; s1; s2] -> scriptIdx vm = 2 -> isP2SH vm = true -> phase vm.

Record Inv (vm : Engine) : Prop := mk_Inv {
  inv_data : data_ok MaxStackSize vm;
  inv_pops : Forall (Forall pop_ok) (scripts vm);
  inv_pc : exists script,
    lookupZ (scripts vm) (scriptIdx vm) = Some script /\ 0 <= scriptOff vm < zlen script;
  inv_start : scriptOff vm = 0 -> condStack vm = [];
  inv_phase : phase vm
}.

(** The state in which [Step] reports that it is done. *)
Record Final (vm : Engine) : Prop := mk_Final {
  final_idx : zlen (scripts vm) <= scriptIdx vm;
  final_data : data_ok MaxStackSize vm
}.

(** An upper bound on the opcodes left to execute. *)
Definition remaining (vm : Engine) : Z :=
  zlen (concat (drop (Z.to_nat (scriptIdx vm)) (scripts vm))) - scriptOff vm +
  (if isP2SH vm && (scriptIdx vm <=? 1) then MaxScriptElementSize else 0).

(** * Whole stacks *)

Lemma getStack_id s : small s -> getStack s = s.
Proof.
  intros Hs. unfold getStack, Depth. zlen_facts. rewrite int32_id by lia.
  rewrite rev_alt. match goal with |- rev_append ?l [] = _ => change (rev_append l []) with (reverse l) end.
  apply list_eq. intros i. destruct (decide (i < length s)%nat) as [Hi|Hi]; cycle 1.
  { rewrite !lookup_ge_None_2; [done|lia|].
    rewrite length_reverse, length_map, length_seqZ. unfold zlen. lia. }
  rewrite reverse_lookup by (rewrite length_map, length_seqZ; unfold zlen; lia).
  rewrite length_map, length_seqZ, list_lookup_fmap, lookup_seqZ_lt by (unfold zlen; lia).
  simpl. set (j := (Z.to_nat (zlen s) - S i)%nat).
  destruct (split_from_end s (Z.of_nat j)) as (pre & x & post & -> & Hp); [unfold zlen in *; lia|].
  rewrite int32_id by (unfold zlen in *; lia).
  rewrite Z.add_0_l, <- Hp, PeekByteArray_run by done.
  assert (i = length pre) as ->; [|by rewrite list_lookup_middle].
  subst j. unfold zlen in *. rewrite length_app in *. simpl in *. lia.
Qed.

Lemma push_items_run data s : push_items data s = (Ok tt, s ++ data).
Proof.
  revert s. induction data as [|d data IH]; intros s; simpl; [by rewrite app_nil_r|].
  erewrite bind_ok by apply PushByteArray_run. rewrite IH. by app_norm.
Qed.

Lemma drop_all_run s : small s -> ignore_error (DropN (Depth s)) s = (Ok tt, []).
Proof.
  intros Hs. unfold Depth. zlen_facts. rewrite int32_id by lia.
  unfold ignore_error. destruct (decide (s = [])) as [->|Hne]; [done|].
  pose proof (DropN_run (zlen s) [] s) as Hd. cbn [app] in Hd. rewrite Hd; [done| |done|done].
  destruct s; [done|zlia].
Qed.

Lemma setStack_run data s : small s -> setStack data s = (Ok tt, data).
Proof.
  intros Hs. unfold setStack. erewrite bind_ok by reflexivity.
  erewrite bind_ok by by apply drop_all_run. apply push_items_run.
Qed.

Lemma drop_all_astack vm :
  small (astack vm) ->
  ignore_error (on_astack (DropN (Depth (astack vm)))) vm = (Ok tt, set_astack [] vm).
Proof.
  intros Hs. pose proof (drop_all_run _ Hs) as Hd. unfold ignore_error, on_astack, zoom in *.
  by destruct (DropN (Depth (astack vm)) (astack vm)) as [[[]|?|] s]; simplify_eq.
Qed.

(** * The end of a script *)

(** One opcode of the current script has been executed. *)
Record Running (vm : Engine) : Prop := mk_Running {
  run_data : data_ok MaxStackSize vm;
  run_pops : Forall (Forall pop_ok) (scripts vm);
  run_pc : exists script,
    lookupZ (scripts vm) (scriptIdx vm) = Some script /\ 1 <= scriptOff vm <= zlen script;
  run_phase : phase vm
}.

(** What is required of a step of the interpreter that started in [vm]. *)
Definition progress (bound : Z) (r : res error bool * Engine) : Prop :=
  match r with
  | (Ok true, vm') => Final vm'
  | (Ok false, vm') => Inv vm' /\ remaining vm' < bound
  | (Err e, _) => rt e
  | (Panic, _) => False
  end.

(** The stacks are small, so depths do not wrap. *)
Lemma data_ok_small n vm :
  n < 1000 -> data_ok n vm -> small (dstack vm) /\ small (astack vm).
Proof. intros Hn [_ _ Hl _ _ _ _]. zlen_facts. lia. Qed.

(** The state at the boundary between two scripts. *)
Definition boundary (vm : Engine) : Engine :=
  set_pc (scriptIdx vm) 0 (set_numOps 0 (set_astack [] vm)).

Lemma boundary_ok vm : data_ok MaxStackSize vm -> data_ok MaxStackSize (boundary vm).
Proof.
  intros []. split; try done. simpl. zlia.
Qed.

(** The last part of [end_of_script], at the first opcode of script [idx]. *)
Lemma skip_empty_last vm :
  zlen (scripts vm) <= scriptIdx vm ->
  (skip_empty_script ;; let* vm := get in ret (scriptIdx vm >=? zlen (scripts vm))) vm =
  (Ok true, vm).
Proof.
  intros Hl. unfold skip_empty_script, bind, get, ret. case_if; [lia|]. repeat f_equal. lia.
Qed.

Lemma skip_empty_start vm script :
  scriptOff vm = 0 -> lookupZ (scripts vm) (scriptIdx vm) = Some script ->
  zlen (scripts vm) = scriptIdx vm + 1 ->
  (skip_empty_script ;; let* vm := get in ret (scriptIdx vm >=? zlen (scripts vm))) vm =
  if bool_decide (script = [])
  then (Ok true, set_pc (scriptIdx vm + 1) 0 vm) else (Ok false, vm).
Proof.
  intros Hoff Hs Hl. unfold skip_empty_script, index, index_res, bind, get, ret, lift.
  destruct (scriptIdx vm <? zlen (scripts vm)) eqn:?; [|lia]. rewrite Hs, Hoff.
  destruct (decide (script = [])) as [->|Hne].
  - rewrite bool_decide_eq_true_2 by done.
    change (0 >=? zlen []) with true. cbn. rewrite Hoff. repeat f_equal. lia.
  - rewrite bool_decide_eq_false_2 by done. destruct script; [done|].
    destruct (0 >=? zlen (p :: script)) eqn:?; [zlia|]. cbn. repeat f_equal. lia.
Qed.

Lemma final_after vm idx :
  data_ok MaxStackSize vm -> zlen (scripts vm) <= idx -> Final (set_pc idx 0 vm).
Proof. intros [] Hl. split; [done|]. by split. Qed.

Lemma isScriptHash_3 s :
  isScriptHash s = true -> exists p0 p1 p2, s = [p0; p1; p2] /\ pop_value p0 = OpBlake2b.
Proof.
  destruct s as [|p0 [|p1 [|p2 []]]]; try done. simpl. intros Hh. exists p0, p1, p2.
  split; [done|]. lia.
Qed.

(** Leaving the last script. *)
Lemma finish_last vm :
  data_ok MaxStackSize vm -> scriptOff vm = 0 -> zlen (scripts vm) <= scriptIdx vm + 1 ->
  (scriptIdx vm =? 0) && isP2SH vm = false -> (scriptIdx vm =? 1) && isP2SH vm = false ->
  forall bound, progress bound
    ((next_script ;; skip_empty_script ;;
      let* vm := get in ret (scriptIdx vm >=? zlen (scripts vm))) vm).
Proof.
  intros Hd Hoff Hl H0 H1 bound. unfold next_script at 1. unfold bind at 1, bind at 1, get at 1.
  rewrite H0, H1. unfold modify at 1. rewrite skip_empty_last by done.
  rewrite Hoff. by apply final_after.
Qed.

(** The start of the public key script. *)
Definition enter_pubkey (vm : Engine) : Engine :=
  if isP2SH vm then set_saved (dstack vm) (set_pc 1 0 vm) else set_pc 1 0 vm.

Lemma next_script_sig vm :
  small (dstack vm) -> scriptIdx vm = 0 -> scriptOff vm = 0 ->
  next_script vm = (Ok tt, enter_pubkey vm).
Proof.
  intros Hsd Hidx Hoff. unfold next_script, enter_pubkey, bind, get, modify, GetStack. rewrite Hidx.
  destruct (isP2SH vm); cbn [andb Z.eqb]; rewrite ?Hidx, ?Hoff; [|done].
  cbn [dstack set_pc]. by rewrite getStack_id.
Qed.

(** From the signature script to the public key script. *)
Lemma to_pubkey_script vm s0 s1 :
  data_ok MaxStackSize vm -> scriptOff vm = 0 -> condStack vm = [] ->
  scripts vm = [s0; s1] -> scriptIdx vm = 0 -> Forall (Forall pop_ok) (scripts vm) ->
  (isP2SH vm = true -> isScriptHash s1 = true) ->
  progress (zlen s1 + (if isP2SH vm then MaxScriptElementSize else 0) + 1)
    ((next_script ;; skip_empty_script ;;
      let* vm := get in ret (scriptIdx vm >=? zlen (scripts vm))) vm).
Proof.
  intros Hd Hoff Hc Hs Hidx Hpops Hp2sh. pose proof (data_ok_small MaxStackSize _ eq_refl Hd) as [Hsd _].
  erewrite bind_ok by by apply next_script_sig. set (vm2 := enter_pubkey vm).
  assert (Hvm2 : scripts vm2 = [s0; s1] /\ scriptIdx vm2 = 1 /\ scriptOff vm2 = 0 /\
    condStack vm2 = [] /\ data_ok MaxStackSize vm2 /\ isP2SH vm2 = isP2SH vm).
  { destruct Hd. subst vm2. unfold enter_pubkey. destruct (isP2SH vm) eqn:Ep; (split_and!; [done..|by split|done]). }
  destruct Hvm2 as (Hs2 & Hi2 & Ho2 & Hc2 & Hd2 & Hp2).
  rewrite (skip_empty_start vm2 s1); [|done|by rewrite Hs2, Hi2|by rewrite Hs2, Hi2].
  case_bool_decide as He; [apply final_after; [done|by rewrite Hs2, Hi2]|].
  split; [split; try done|].
  - by rewrite Hs2, <- Hs.
  - exists s1. rewrite Hs2, Hi2, Ho2. split; [done|]. destruct s1; [done|zlia].
  - subst vm2. unfold enter_pubkey in *. destruct (isP2SH vm) eqn:Ep; cycle 1; [by apply (phase_pubkey _ s0 s1)|].
    destruct Hd. apply (phase_p2sh _ s0 s1); auto; simpl; [zlia|done].
  - unfold remaining. rewrite Hs2, Hi2, Ho2, Hp2. change (drop _ _) with [s1]. cbn [concat].
    rewrite app_nil_r. destruct (isP2SH vm); simpl; lia.
Qed.

Lemma CheckErrorCondition_spec vm0 n final :
  n < 1000 -> zlen (scripts vm0) <= scriptIdx vm0 ->
  handler_spec vm0 n 0 (CheckErrorCondition final) (fun _ => True).
Proof.
  intros Hn Hl. unfold CheckErrorCondition. apply handler_get. intros vm [Hf _].
  apply handler_if; intros Hb.
  { destruct Hf as (_ & -> & -> & _) in Hb. lia. }
  eapply handler_bind0.
  { instantiate (1 := fun _ => True). repeat (apply handler_if; intros ?);
      first [by apply handler_throw | by apply handler_ret]. }
  intros _ _. eapply handler_bind0; [apply on_dstack_spec; [apply PopBool_spec|lia]|].
  intros v _. apply handler_if; intros ?; [by apply handler_throw|by apply handler_ret].
Qed.

Lemma parse_ok script :
  Forall is_byte script ->
  match parseScript script with
  | (pops, None) => Forall pop_ok pops /\ zlen pops <= zlen script /\ (script <> [] -> pops <> [])
  | (_, Some e) => rt e
  end.
Proof.
  intros Hb. destruct (parseScript_spec script Hb) as (items & tail & err & -> & Hok & Hs & He).
  destruct He as [[-> ->]|[-> _]]; [|done]. rewrite app_nil_r in Hs. split_and!.
  - apply Forall_forall. intros pop ([b pop'] & -> & Hin)%list_elem_of_fmap.
    rewrite Forall_forall in Hok. exists b. by apply (Hok (b, pop')).
  - pose proof (encode_all_length items) as He. unfold zlen in *. rewrite length_map. subst. lia.
  - intros Hne Hnil. apply map_eq_nil in Hnil. by subst.
Qed.

(** The top of the stack is true. *)
Definition check_top (d : stack) : res error unit :=
  match last d with
  | None => Err (scriptError ErrInvalidStackOperation)
  | Some x => if asBool x then Ok tt else Err (scriptError ErrEvalFalse)
  end.

Lemma CheckErrorCondition_top vm :
  zlen (scripts vm) <= scriptIdx vm -> small (dstack vm) ->
  exists d, CheckErrorCondition false vm = (check_top (dstack vm), set_dstack d vm) /\ small d.
Proof.
  intros Hl Hs. unfold CheckErrorCondition. erewrite bind_ok by reflexivity. case_if; [lia|].
  erewrite bind_ok by reflexivity. unfold check_top.
  assert (Hp : on_dstack PopBool vm =
    match last (dstack vm) with
    | Some x => (Ok (asBool x), set_dstack (removelast (dstack vm)) vm)
    | None => (Err (scriptError ErrInvalidStackOperation), set_dstack [] vm)
    end).
  { unfold on_dstack, zoom. destruct (dstack vm) as [|x d _] using rev_ind; [done|].
    rewrite last_snoc, removelast_last. unfold PopBool.
    by erewrite bind_ok by by apply PopByteArray_run. }
  destruct (last (dstack vm)) as [x|]; [|exists []; split; [by apply bind_err|done]].
  exists (removelast (dstack vm)). split; cycle 1.
  { rewrite removelast_firstn_len. unfold zlen in *. rewrite length_take. lia. }
  erewrite bind_ok by exact Hp. by destruct (asBool x).
Qed.

(** The switch to the redeem script, the item saved last. *)
Lemma enter_redeem_eq vm saved script :
  scriptOff vm = 0 -> scriptIdx vm = 1 -> zlen (scripts vm) = 2 -> small (dstack vm) ->
  savedFirstStack vm = saved ++ [script] ->
  exists d, enter_redeem_script vm =
    match check_top (dstack vm) with
    | Ok _ =>
        match parseScript script with
        | (s2, None) =>
            (Ok tt, set_dstack saved (set_scripts (scripts vm ++ [s2]) (set_dstack d (set_pc 2 0 vm))))
        | (_, Some e) => (Err e, set_dstack d (set_pc 2 0 vm))
        end
    | Err e => (Err e, set_dstack d (set_pc 2 0 vm))
    | Panic => (Panic, set_dstack d (set_pc 2 0 vm))
    end.
Proof.
  intros Hoff Hidx Hl Hs Hsv. unfold enter_redeem_script.
  erewrite bind_ok by reflexivity. rewrite Hidx, Hoff. change (1 + 1) with 2.
  destruct (CheckErrorCondition_top (set_pc 2 0 vm)) as (d & Hrun & Hd); [simpl; lia|done|].
  cbn [dstack set_pc] in Hrun.
  exists d. destruct (check_top (dstack vm)) as [[]|e|]; cycle 1.
  { by apply bind_err. } { unfold bind. by rewrite Hrun. }
  erewrite bind_ok by exact Hrun. erewrite bind_ok by reflexivity.
  cbn [savedFirstStack scripts set_dstack set_pc]. rewrite Hsv.
  replace (zlen (saved ++ [script]) - 1) with (zlen saved) by zlia.
  erewrite bind_ok by (unfold index, lift, index_res; by rewrite lookupZ_app_r).
  destruct (parseScript script) as [s2 [e|]]; [done|].
  erewrite bind_ok by reflexivity. erewrite bind_ok; cycle 1.
  { unfold slice, lift, slice_res. zlen_facts. case_if; [|zlia].
    by rewrite (sliceZ_prefix saved). }
  unfold SetStack, on_dstack, zoom. cbn [dstack set_scripts set_dstack].
  by rewrite setStack_run.
Qed.

Lemma check_top_rt d : match check_top d with Ok _ => True | Err e => rt e | Panic => False end.
Proof. unfold check_top. destruct (last d); [|done]. by case_if. Qed.

Lemma enter_redeem_spec vm s0 s1 saved script :
  data_ok MaxStackSize vm -> scriptOff vm = 0 -> condStack vm = [] ->
  scripts vm = [s0; s1] -> scriptIdx vm = 1 -> isP2SH vm = true -> astack vm = [] ->
  savedFirstStack vm = saved ++ [script] -> Forall elem saved -> elem script ->
  zlen saved <= MaxStackSize ->
  match enter_redeem_script vm with
  | (Ok _, vm') => exists s2,
      Forall pop_ok s2 /\ zlen s2 <= MaxScriptElementSize /\ scripts vm' = [s0; s1; s2] /\
      scriptIdx vm' = 2 /\ scriptOff vm' = 0 /\ condStack vm' = [] /\ isP2SH vm' = true /\
      data_ok MaxStackSize vm'
  | (Err e, _) => rt e
  | (Panic, _) => False
  end.
Proof.
  intros Hd Hoff Hc Hs Hidx Hp Ha Hsv Hse Hsc Hsl.
  destruct (enter_redeem_eq vm saved script) as [d ->]; try done;
    [by rewrite Hs|by apply (data_ok_small MaxStackSize)|].
  pose proof (check_top_rt (dstack vm)) as Hct. destruct (check_top (dstack vm)); [|done..].
  pose proof (parse_ok script (proj2 Hsc)) as Hparse.
  destruct (parseScript script) as [s2 [e|]]; [done|]. destruct Hparse as (Hpo & Hpl & _).
  exists s2. cbn [scripts scriptIdx scriptOff condStack isP2SH set_scripts set_dstack set_pc].
  rewrite Hs. split_and!; try done; [destruct Hsc; zlia|].
  destruct Hd. split; try done. simpl. rewrite Ha. zlia.
Qed.

Lemma to_redeem_script vm s0 s1 :
  data_ok MaxStackSize vm -> scriptOff vm = 0 -> condStack vm = [] ->
  scripts vm = [s0; s1] -> scriptIdx vm = 1 -> isP2SH vm = true -> astack vm = [] ->
  Forall (Forall pop_ok) (scripts vm) -> Forall elem (savedFirstStack vm) ->
  zlen (savedFirstStack vm) <= MaxStackSize -> savedFirstStack vm <> [] ->
  progress (MaxScriptElementSize + 1)
    ((next_script ;; skip_empty_script ;;
      let* vm := get in ret (scriptIdx vm >=? zlen (scripts vm))) vm).
Proof.
  intros Hd Hoff Hc Hs Hidx Hp Ha Hpops Hsaved Hsl Hne.
  destruct (exists_last Hne) as (saved & script & Hsv). rewrite Hsv in Hsaved, Hsl.
  apply Forall_snoc in Hsaved as [Hse Hsc].
  pose proof (enter_redeem_spec vm s0 s1 saved script Hd Hoff Hc Hs Hidx Hp Ha Hsv Hse Hsc
    ltac:(zlia)) as Henter.
  unfold next_script. unfold bind at 1, bind at 1, get at 1. rewrite Hidx, Hp. cbn [andb Z.eqb Pos.eqb].
  destruct (enter_redeem_script vm) as [[[]|e|] vm']; [|done..].
  destruct Henter as (s2 & Hpo & Hpl & Hs2 & Hi2 & Ho2 & Hc2 & Hp2 & Hd2).
  rewrite (skip_empty_start vm' s2); [|done|by rewrite Hs2, Hi2|by rewrite Hs2, Hi2].
  case_bool_decide as He; [apply final_after; [done|by rewrite Hs2, Hi2]|].
  split; [split; try done|].
  - rewrite Hs2. rewrite Hs in Hpops. apply (Forall_app _ [s0; s1]). by split; [|constructor].
  - exists s2. rewrite Hs2, Hi2, Ho2. split; [done|]. destruct s2; [done|zlia].
  - by apply (phase_redeem _ s0 s1 s2).
  - unfold remaining. rewrite Hs2, Hi2, Ho2, Hp2. change (drop _ _) with [s2]. cbn [concat].
    rewrite app_nil_r. simpl. lia.
Qed.

(** At the end of a script with balanced conditionals. *)
Lemma end_of_script_boundary vm :
  small (astack vm) -> condStack vm = [] ->
  end_of_script vm =
  (next_script ;; skip_empty_script ;;
   let* vm := get in ret (scriptIdx vm >=? zlen (scripts vm))) (boundary vm).
Proof.
  intros Hs Hc. unfold end_of_script. erewrite bind_ok by reflexivity. rewrite Hc.
  change (negb (zlen [] =? 0)) with false. cbv iota.
  erewrite bind_ok by by apply drop_all_astack. by do 2 erewrite bind_ok by reflexivity.
Qed.

Lemma end_of_script_unbalanced vm :
  condStack vm <> [] -> end_of_script vm = (Err (scriptError ErrUnbalancedConditional), vm).
Proof.
  intros Hc. unfold end_of_script. erewrite bind_ok by reflexivity.
  destruct (zlen (condStack vm) =? 0) eqn:?; [|done]. destruct Hc. apply zlen_0. lia.
Qed.

Lemma end_of_script_spec vm script :
  Running vm -> lookupZ (scripts vm) (scriptIdx vm) = Some script ->
  scriptOff vm = zlen script ->
  progress (remaining vm + 1) (end_of_script vm).
Proof.
  intros [Hd Hpops Hpc Hph] Hscript Hoff.
  destruct (decide (condStack vm = [])) as [Hc|Hc]; [|by rewrite end_of_script_unbalanced].
  rewrite end_of_script_boundary by (done || by apply (data_ok_small MaxStackSize)).
  pose proof (boundary_ok vm Hd) as Hdb.
  destruct Hpc as (script' & Hs' & Hr). rewrite Hscript in Hs'. injection Hs' as <-.
  assert (Hrem : forall s, drop (Z.to_nat (scriptIdx vm)) (scripts vm) = script :: s ->
    remaining vm = zlen (concat s) + (if isP2SH vm && (scriptIdx vm <=? 1)
      then MaxScriptElementSize else 0)).
  { intros s Hdr. unfold remaining. rewrite Hdr, Hoff. cbn [concat]. rewrite zlen_app. lia. }
  destruct Hph as [s0 s1 Hs Hi Hp | s0 s1 Hs Hi Hp | s0 s1 Hs Hi Hp Hsh Hse Hsl Hne | s0 s1 s2 Hs Hi Hp];
    rewrite Hs, Hi in Hscript; injection Hscript as <-.
  - rewrite (Hrem [s1]) by by rewrite Hs, Hi. cbn [concat]. rewrite app_nil_r, Hi.
    replace (isP2SH vm && (0 <=? 1)) with (isP2SH vm) by by destruct (isP2SH vm).
    by apply (to_pubkey_script (boundary vm) s0 s1).
  - apply finish_last; try done; simpl; rewrite ?Hs, ?Hi, ?Hp; done.
  - rewrite (Hrem []) by by rewrite Hs, Hi. rewrite Hi, Hp. cbn [concat andb Z.leb].
    destruct (Z.eqb_spec (scriptOff vm) 0); [lia|].
    by apply (to_redeem_script (boundary vm) s0 s1).
  - apply finish_last; try done; simpl; rewrite ?Hs, ?Hi, ?Hp; done.
Qed.

(** * One step *)

(** [OP_BLAKE2B] outside of conditionals needs an item to hash. *)
Lemma blake2b_needs_item pop vm :
  pop_ok pop -> pop_value pop = OpBlake2b -> condStack vm = [] -> dstack vm = [] ->
  exists e vm', executeOpcode pop vm = (Err e, vm').
Proof.
  intros (b & Hb & _) Hv Hc Hd.
  assert (Hf : op_func (pop_opcode pop) = F_opcodeBlake2b).
  { apply (opcodeArray_lookup (fun b op => negb (op_value op =? OpBlake2b) ||
      bool_decide (op_func op = F_opcodeBlake2b))) in Hb; [|reflexivity].
    unfold pop_value in Hv. rewrite Hv in Hb. by apply bool_decide_eq_true in Hb. }
  unfold executeOpcode, executeOpcode_run, isDisabled, alwaysIllegal, isConditional. rewrite Hv, Hf.
  unfold bind, modify, get, throw, ret. cbn -[opfunc_run]. case_if; [eauto|].
  unfold isBranchExecuting. cbn [condStack set_numOps]. rewrite Hc. change (zlen [] =? 0) with true. cbn -[opfunc_run].
  unfold opfunc_run, opcodeBlake2b, bind, on_dstack, zoom. cbn [dstack set_numOps].
  rewrite Hd.
  rewrite PopByteArray_empty. eauto.
Qed.

(** Executing an opcode keeps what the invariant says of the scripts. *)
Lemma executeOpcode_running vm script pop :
  Inv vm -> lookupZ (scripts vm) (scriptIdx vm) = Some script ->
  lookupZ script (scriptOff vm) = Some pop ->
  match executeOpcode pop (set_pc (scriptIdx vm) (scriptOff vm + 1) vm) with
  | (Ok _, vm') =>
      scripts vm' = scripts vm /\ scriptIdx vm' = scriptIdx vm /\
      scriptOff vm' = scriptOff vm + 1 /\ remaining vm' = remaining vm - 1 /\
      data_ok (MaxStackSize + 3) vm' /\ phase vm' /\ isP2SH vm' = isP2SH vm /\
      savedFirstStack vm' = savedFirstStack vm /\ tx vm' = tx vm /\ txIdx vm' = txIdx vm
  | (Err e, _) => rt e
  | (Panic, _) => False
  end.
Proof.
  intros [Hd Hpops Hpc Hstart Hph] Hscript Hpop. set (vm1 := set_pc _ _ vm).
  assert (Hok : pop_ok pop).
  { rewrite Forall_forall in Hpops. specialize (Hpops script (lookupZ_elem_of _ _ _ Hscript)).
    rewrite Forall_forall in Hpops. by apply Hpops, (lookupZ_elem_of _ (scriptOff vm)). }
  assert (Hi1 : I vm1 MaxStackSize vm1) by (split; [done|]; destruct Hd; by split).
  pose proof (executeOpcode_spec vm1 pop MaxStackSize eq_refl Hok vm1 Hi1) as Hspec.
  destruct (executeOpcode pop vm1) as [[u|e|] vm2] eqn:Hrun; [|done..].
  destruct Hspec as (_ & (Hver & Hs & Hi & Ho & Htx & Hti & Hp & Hsv) & Hd2).
  cbn [scripts scriptIdx scriptOff isP2SH savedFirstStack tx txIdx set_pc vm1] in *.
  pose proof (lookupZ_Some_range _ _ _ Hpop) as Hr.
  split_and!; try done.
  { unfold remaining. rewrite Hs, Hi, Ho, Hp. lia. }
  destruct Hph as [s0 s1 Es Ei Ep | s0 s1 Es Ei Ep | s0 s1 Es Ei Ep Hsh Hse Hsl Hne | s0 s1 s2 Es Ei Ep].
  - apply (phase_sig _ s0 s1); [congruence..|by rewrite Hp].
  - apply (phase_pubkey _ s0 s1); congruence.
  - apply (phase_p2sh _ s0 s1); rewrite ?Hsv; try congruence. rewrite Ho.
    destruct (Z.eqb_spec (scriptOff vm + 1) 0); [lia|].
    destruct (Z.eqb_spec (scriptOff vm) 0) as [Hz|]; [|done]. intros Hnil.
    rewrite Es, Ei in Hscript. injection Hscript as <-.
    destruct (isScriptHash_3 s1 Hsh) as (p0 & p1 & p2 & -> & Hv). rewrite Hz in Hpop.
    injection Hpop as <-.
    destruct (blake2b_needs_item p0 vm1) as (e & vm' & He); [done..|by apply Hstart| |].
    { cbn. congruence. }
    congruence.
  - apply (phase_redeem _ s0 s1 s2); congruence.
Qed.

(** [Step] at a valid program counter. *)
Lemma Step_eq vm script pop :
  Inv vm -> lookupZ (scripts vm) (scriptIdx vm) = Some script ->
  lookupZ script (scriptOff vm) = Some pop ->
  Step vm =
  match executeOpcode pop (set_pc (scriptIdx vm) (scriptOff vm + 1) vm) with
  | (Ok _, vm') =>
      if zlen (dstack vm') + zlen (astack vm') >? MaxStackSize
      then (Err (scriptError ErrStackOverflow), vm')
      else if scriptOff vm + 1 >=? zlen script then end_of_script vm' else (Ok false, vm')
  | (Err e, vm') => (Err e, vm')
  | (Panic, vm') => (Panic, vm')
  end.
Proof.
  intros Hinv Hscript Hpop. pose proof (executeOpcode_running vm script pop Hinv Hscript Hpop) as Hexec.
  assert (Hvalid : validPC vm = Ok tt).
  { unfold validPC, index_res. pose proof (lookupZ_Some_range _ _ _ Hscript).
    pose proof (lookupZ_Some_range _ _ _ Hpop). rewrite Hscript. cbn [bind_res].
    do 2 (case_if; [lia|]). done. }
  unfold Step. erewrite bind_ok by reflexivity. rewrite Hvalid.
  erewrite bind_ok by reflexivity.
  erewrite bind_ok by by (unfold index, lift, index_res; rewrite Hscript).
  erewrite bind_ok by by (unfold index, lift, index_res; rewrite Hpop).
  erewrite bind_ok by reflexivity.
  destruct (executeOpcode pop _) as [[[]|e|] vm2] eqn:Hrun; cycle 1.
  { by erewrite bind_err by exact Hrun. } { done. }
  destruct Hexec as (Hs & Hi & Ho & _ & Hd2 & _).
  erewrite bind_ok by exact Hrun. erewrite bind_ok by reflexivity.
  assert (int32 (Depth (dstack vm2) + Depth (astack vm2)) =
    zlen (dstack vm2) + zlen (astack vm2)) as ->.
  { destruct Hd2. unfold Depth, MaxStackSize in *. zlen_facts. rewrite !int32_id; rewrite ?int32_id; lia. }
  case_if; [done|]. rewrite Hs, Hi, Ho.
  erewrite bind_ok by by (unfold index, lift, index_res; rewrite Hscript). by case_if.
Qed.

Lemma Step_progress vm : Inv vm -> progress (remaining vm) (Step vm).
Proof.
  intros Hinv. pose proof Hinv as [Hd Hpops (script & Hscript & Hr) Hstart Hph].
  destruct (lookupZ_in_range script (scriptOff vm) Hr) as [pop Hpop].
  rewrite (Step_eq vm script pop) by done.
  pose proof (executeOpcode_running vm script pop Hinv Hscript Hpop) as Hexec.
  destruct (executeOpcode pop _) as [[[]|e|] vm2]; [|done..].
  destruct Hexec as (Hs & Hi & Ho & Hrem & Hd2 & Hph2 & _). case_if; [done|].
  assert (Hrun2 : Running vm2).
  { destruct Hd2. split; [split; try done; lia|by rewrite Hs| |done].
    exists script. rewrite Hs, Hi, Ho. split; [done|lia]. }
  case_if.
  - replace (remaining vm) with (remaining vm2 + 1) by lia.
    apply (end_of_script_spec vm2 script Hrun2); [by rewrite Hs, Hi|lia].
  - destruct Hrun2. split; [split; try done|lia].
    + exists script. rewrite Hs, Hi, Ho. split; [done|lia].
    + lia.
Qed.

(** * Execution *)

Lemma remaining_pos vm : Inv vm -> 0 < remaining vm.
Proof.
  intros [_ _ (script & Hs & Hr) _ _]. unfold remaining.
  unfold lookupZ in Hs. destruct (0 <=? scriptIdx vm); [|done].
  rewrite (drop_S _ _ _ Hs). cbn [concat]. rewrite zlen_app. zlen_facts.
  destruct (isP2SH vm && (scriptIdx vm <=? 1)); unfold MaxScriptElementSize; lia.
Qed.

Lemma Execute_loop_spec fuel vm :
  Inv vm -> remaining vm <= Z.of_nat fuel ->
  match Execute_loop fuel vm with
  | (Ok _, vm') => Final vm'
  | (Err e, _) => rt e
  | (Panic, _) => False
  end.
Proof.
  revert vm. induction fuel as [|fuel IH]; intros vm Hinv Hf.
  { pose proof (remaining_pos vm Hinv). lia. }
  cbn [Execute_loop]. pose proof (Step_progress vm Hinv) as Hp. unfold progress in Hp.
  destruct (Step vm) as [[[]|e|] vm'] eqn:Hs.
  - erewrite bind_ok by exact Hs. done.
  - erewrite bind_ok by exact Hs. destruct Hp as [Hi Hr]. apply IH; [done|lia].
  - by erewrite bind_err by exact Hs.
  - done.
Qed.

Lemma Execute_spec vm :
  Inv vm -> remaining vm <= Z.of_nat max_steps ->
  match fst (Execute vm) with Ok _ => True | Err e => rt e | Panic => False end.
Proof.
  intros Hinv Hr. unfold Execute. erewrite bind_ok by reflexivity. case_if; [done|].
  pose proof (Execute_loop_spec max_steps vm Hinv Hr) as Hl.
  destruct (Execute_loop max_steps vm) as [[[]|e|] vm'] eqn:He.
  - erewrite bind_ok by exact He. destruct Hl as [Hidx Hd].
    pose proof (CheckErrorCondition_spec vm' MaxStackSize true eq_refl Hidx vm') as Hc.
    destruct (CheckErrorCondition true vm') as [[|?|] ?]; try done;
      apply Hc; split; done.
  - by erewrite bind_err by exact He.
  - done.
Qed.

(** * New engines *)

(** What the callers of [NewEngine] provide: scripts are byte strings, the
    output spent is attached to the input, and the caches passed in hold only
    verified signatures and hashes of this transaction. *)
Record valid_args (spk : ScriptPublicKey) (tx : DomainTransaction) (i : Z)
    (c1 : option SigCacheSchnorr) (c2 : option SigCacheECDSA) (r : SighashReusedValues) : Prop := {
  va_script : Forall is_byte (spk_Script spk);
  va_input : forall txIn, lookupZ (Inputs tx) i = Some txIn ->
    Forall is_byte (SignatureScript txIn) /\ is_Some (in_UTXOEntry txIn);
  va_cache : forall c, c1 = Some c -> cache_inv c;
  va_cacheECDSA : forall c, c2 = Some c -> cache_inv c;
  va_reused : reuse_ok tx r
}.

Lemma parseScriptAndVerifySize_spec script :
  Forall is_byte script ->
  match parseScriptAndVerifySize script with
  | Ok pops => Forall pop_ok pops /\ zlen pops <= MaxScriptSize /\ (script <> [] -> pops <> [])
  | Err e => exists c, e = ScriptError c
  | Panic => False
  end.
Proof.
  intros Hb. unfold parseScriptAndVerifySize. case_if; [by eexists|].
  pose proof (parse_ok script Hb) as Hp. destruct (parseScript script) as [pops [e|]].
  - destruct e; try done. by eexists.
  - destruct Hp as (? & ? & ?). split_and!; [done|lia|done].
Qed.

(** The state a known script version starts in. *)
Lemma NewEngine_state spk tx i flags c1 c2 r vm :
  Forall is_byte (spk_Script spk) ->
  (forall txIn, lookupZ (Inputs tx) i = Some txIn -> Forall is_byte (SignatureScript txIn)) ->
  NewEngine spk tx i flags c1 c2 r = Ok vm -> spk_Version spk <= MaxScriptPublicKeyVersion ->
  exists txIn s0 s1, lookupZ (Inputs tx) i = Some txIn /\
    Forall (Forall pop_ok) [s0; s1] /\ zlen s0 <= MaxScriptSize /\ zlen s1 <= MaxScriptSize /\
    (zlen (SignatureScript txIn) <> 0 -> s0 <> []) /\
    (zlen (SignatureScript txIn) = 0 -> s1 <> []) /\
    isPushOnly s0 = true /\
    parseScript (SignatureScript txIn) = (s0, None) /\
    parseScript (spk_Script spk) = (s1, None) /\
    vm = mk_Engine (spk_Version spk) [s0; s1]
      (if zlen (SignatureScript txIn) =? 0 then 1 else 0) 0 [] [] tx i [] 0 flags c1 c2 r
      (isScriptHash s1) [].
Proof.
  intros Hb Hin Hnew Hver. unfold NewEngine, index_res in Hnew.
  destruct ((i <? 0) || (i >=? zlen (Inputs tx))) eqn:Hi; [done|].
  destruct (lookupZ (Inputs tx) i) as [txIn|] eqn:Htx; [|done]. cbn [bind_res] in Hnew.
  specialize (Hin txIn eq_refl).
  destruct ((zlen (SignatureScript txIn) =? 0) && (zlen (spk_Script spk) =? 0)) eqn:Hempty; [done|].
  destruct (spk_Version spk >? MaxScriptPublicKeyVersion) eqn:?; [lia|].
  pose proof (parseScriptAndVerifySize_spec _ Hin) as Hps.
  destruct (parseScriptAndVerifySize (SignatureScript txIn)) as [s0| |] eqn:E0; try done.
  cbn [bind_res] in Hnew. destruct (isPushOnly s0) eqn:Hpush; [|done]. cbn [negb] in Hnew.
  pose proof (parseScriptAndVerifySize_spec _ Hb) as Hpk.
  destruct (parseScriptAndVerifySize (spk_Script spk)) as [s1| |] eqn:E1; try done.
  cbn [bind_res] in Hnew. destruct Hps as (Hpo0 & Hl0 & Hne0), Hpk as (Hpo1 & Hl1 & Hne1).
  assert (Hparse : forall b s, parseScriptAndVerifySize b = Ok s -> parseScript b = (s, None)).
  { intros b s. unfold parseScriptAndVerifySize. case_if; [done|].
    destruct (parseScript b) as [? []]; [done|]. by intros [= ->]. }
  exists txIn, s0, s1. split_and!; try done.
  - by repeat constructor.
  - intros Hz. apply Hne0. by intros Hnil; rewrite Hnil in Hz.
  - intros Hz. apply Hne1. intros Hnil. rewrite Hz, Hnil in Hempty. done.
  - by apply Hparse.
  - by apply Hparse.
  - destruct (isScriptHash s1); cbn [bind_res] in Hnew; by injection Hnew as <-.
Qed.

Lemma NewEngine_Inv spk tx i flags c1 c2 r vm :
  valid_args spk tx i c1 c2 r -> NewEngine spk tx i flags c1 c2 r = Ok vm ->
  spk_Version spk <= MaxScriptPublicKeyVersion ->
  Inv vm /\ remaining vm <= Z.of_nat max_steps.
Proof.
  intros [Hb Hin Hc1 Hc2 Hr] Hnew Hver.
  destruct (NewEngine_state spk tx i flags c1 c2 r vm) as
    (txIn & s0 & s1 & Htx & Hpo & Hl0 & Hl1 & Hne0 & Hne1 & _ & _ & _ & ->); try done.
  { intros txIn Htx. by apply Hin. }
  destruct (Hin txIn Htx) as [_ [entry Hentry]].
  unfold max_steps. rewrite Z2Nat.id by done. unfold remaining.
  destruct (Z.eqb_spec (zlen (SignatureScript txIn)) 0) as [Hz|Hz]; split.
  - split; try done; [by split; [constructor..| | | |eexists _, _| ]| |].
    + exists s1. split; [done|]. specialize (Hne1 Hz). cbn [scriptOff]. destruct s1; [done|zlia].
    + destruct (isScriptHash s1) eqn:Hsh; [|by apply (phase_pubkey _ s0 s1)].
      by apply (phase_p2sh _ s0 s1); try constructor.
  - cbn [scriptIdx scripts scriptOff isP2SH]. norm_to_nat. cbn [drop concat].
    rewrite app_nil_r. unfold MaxScriptSize, MaxScriptElementSize in *.
    destruct (isScriptHash s1); simpl; zlia.
  - split; try done; [by split; [constructor..| | | |eexists _, _| ]| |].
    + exists s0. split; [done|]. specialize (Hne0 Hz). cbn [scriptOff]. destruct s0; [done|zlia].
    + by apply (phase_sig _ s0 s1).
  - cbn [scriptIdx scripts scriptOff isP2SH]. norm_to_nat. cbn [drop concat].
    rewrite app_nil_r. unfold MaxScriptSize, MaxScriptElementSize in *.
    destruct (isScriptHash s1); simpl; zlia.
Qed.

Lemma NewEngine_future_version spk tx i flags c1 c2 r vm :
  NewEngine spk tx i flags c1 c2 r = Ok vm -> MaxScriptPublicKeyVersion < spk_Version spk ->
  scriptVersion vm > MaxScriptPublicKeyVersion.
Proof.
  intros Hnew Hv. unfold NewEngine, index_res in Hnew.
  destruct ((i <? 0) || (i >=? zlen (Inputs tx))); [done|].
  destruct (lookupZ (Inputs tx) i) as [txIn|]; [|done]. cbn [bind_res] in Hnew.
  case_match; [done|]. destruct (spk_Version spk >? MaxScriptPublicKeyVersion) eqn:?; [|lia].
  injection Hnew as <-. simpl. lia.
Qed.

(** Construction fails only with a script error. *)
Lemma NewEngine_result spk tx i flags c1 c2 r :
  valid_args spk tx i c1 c2 r ->
  match NewEngine spk tx i flags c1 c2 r with
  | Ok _ => True
  | Err e => exists c, e = ScriptError c
  | Panic => False
  end.
Proof.
  intros [Hb Hin _ _ _]. unfold NewEngine, index_res.
  destruct ((i <? 0) || (i >=? zlen (Inputs tx))) eqn:Hi; [by eexists|].
  destruct (lookupZ_in_range (Inputs tx) i) as [txIn Htx]; [lia|]. rewrite Htx. cbn [bind_res].
  destruct (Hin txIn Htx) as [Hbs _]. case_if; [by eexists|]. case_if; [done|].
  pose proof (parseScriptAndVerifySize_spec _ Hbs) as Hps.
  destruct (parseScriptAndVerifySize (SignatureScript txIn)); cbn [bind_res]; [|done..].
  destruct (isPushOnly a); cbn [negb]; [|by eexists].
  pose proof (parseScriptAndVerifySize_spec _ Hb) as Hpk.
  destruct (parseScriptAndVerifySize (spk_Script spk)); cbn [bind_res]; [|done..].
  by destruct (isScriptHash a0).
Qed.

(** Every state the engine goes through. *)
Inductive reachable (vm0 : Engine) : Engine -> Prop :=
| reachable_start : reachable vm0 vm0
| reachable_step vm vm' :
    reachable vm0 vm -> Step vm = (Ok false, vm') -> reachable vm0 vm'.

Lemma reachable_Inv vm0 vm : Inv vm0 -> reachable vm0 vm -> Inv vm.
Proof.
  intros H0. induction 1 as [|vm vm' _ IH Hs]; [done|].
  pose proof (Step_progress vm IH) as Hp. rewrite Hs in Hp. apply Hp.
Qed.

End step.

(** * Properties *)

Section properties.
Context `{C : Crypto} `{!CryptoLaws C} `{IT : MapIteration}.

(** The outcomes of construction and execution. *)
Lemma Execute_outcome spk tx i flags c1 c2 r :
  valid_args spk tx i c1 c2 r ->
  match NewEngine spk tx i flags c1 c2 r with
  | Ok vm =>
      fst (Execute vm) = Ok tt \/
      exists e, fst (Execute vm) = Err e /\ runtime_error e = true
  | Err e => exists c, e = ScriptError c
  | Panic => False
  end.
Proof.
  intros Hva. pose proof (NewEngine_result spk tx i flags c1 c2 r Hva) as Hres.
  destruct (NewEngine spk tx i flags c1 c2 r) as [vm|e|] eqn:Hnew; [|done..].
  destruct (Z.le_gt_cases (spk_Version spk) MaxScriptPublicKeyVersion) as [Hv|Hv].
  - destruct (NewEngine_Inv _ _ _ _ _ _ _ _ Hva Hnew Hv) as [Hinv Hr].
    pose proof (Execute_spec vm Hinv Hr) as He.
    destruct (fst (Execute vm)) as [[]|e|]; [by left|right; eauto|done].
  - left. apply NewEngine_future_version in Hnew; [|done]. unfold Execute.
    erewrite bind_ok by reflexivity. case_if; [done|lia].
Qed.

(** C2: Script execution always returns: an engine for a byte-string public key
    script and an input with its spent output never panics (no index out of
    range, no nil dereference) and finishes within [max_steps] opcodes, and an
    error it returns is one a script can cause, never one of the internal codes
    ([ErrInvalidProgramCounter], [ErrScriptUnfinished], [ErrInternal], ...). *)
Theorem Execute_total spk tx i flags c1 c2 r :
  valid_args spk tx i c1 c2 r ->
  match NewEngine spk tx i flags c1 c2 r with
  | Ok vm =>
      fst (Execute vm) = Ok tt \/
      exists e, fst (Execute vm) = Err e /\ runtime_error e = true
  | Err e => exists c, e = ScriptError c
  | Panic => False
  end.
Proof. apply Execute_outcome. Qed.

(** C27: The limits hold in every state the engine goes through: at most 244
    items on the two stacks together, items of at most 520 bytes, at most 201
    counted operations, and a program counter that points at an opcode. *)
Theorem engine_limits spk tx i flags c1 c2 r vm0 vm :
  valid_args spk tx i c1 c2 r -> NewEngine spk tx i flags c1 c2 r = Ok vm0 ->
  spk_Version spk <= MaxScriptPublicKeyVersion -> reachable vm0 vm ->
  zlen (dstack vm) + zlen (astack vm) <= MaxStackSize /\
  (forall item, item ∈ dstack vm ++ astack vm -> zlen item <= MaxScriptElementSize) /\
  0 <= numOps vm <= MaxOpsPerScript /\
  (forall c, c ∈ condStack vm -> c = OpCondFalse \/ c = OpCondTrue \/ c = OpCondSkip) /\
  validPC vm = Ok tt.
Proof.
  intros Hva Hnew Hv Hreach. destruct (NewEngine_Inv _ _ _ _ _ _ _ _ Hva Hnew Hv) as [Hinv _].
  apply reachable_Inv in Hreach as [[Hd Ha Hl Hc Hn _ _] _ (script & Hs & Hr) _ _]; [|done].
  split_and!; try done.
  - intros item Hin. assert (Hall : Forall elem (dstack vm ++ astack vm)) by by apply Forall_app.
    rewrite Forall_forall in Hall. by apply Hall.
  - lia.
  - lia.
  - intros c Hin. rewrite Forall_forall in Hc. exact (Hc c Hin).
  - unfold validPC, index_res. pose proof (lookupZ_Some_range _ _ _ Hs). rewrite Hs.
    cbn [bind_res]. do 2 (case_if; [lia|]). done.
Qed.

End properties.

(** * A concrete spend *)

(** One input whose signature script is given, spending [spk]. *)
Definition spend_tx (spk : ScriptPublicKey) (sigScript : bytes) : DomainTransaction :=
  mk_DomainTransaction 0
    [mk_DomainTransactionInput (mk_DomainOutpoint (replicate 32 1) 0) sigScript 5 1
       (Some (mk_UTXOEntry 1000 spk 7 false))]
    [mk_DomainTransactionOutput 900 spk] 0 SubnetworkIDNative 0 [] 0 0 None.

(** [OP_2 OP_ADD OP_5 OP_EQUAL], spent by [OP_3]. *)
Definition add_script : ScriptPublicKey :=
  mk_ScriptPublicKey [Op2; OpAdd; Op5; OpEqual] 0.

Lemma spend_tx_valid spk sigScript :
  Forall is_byte (spk_Script spk) -> Forall is_byte sigScript ->
  @valid_args test_crypto spk (spend_tx spk sigScript) 0 None None NoReusedValues.
Proof.
  intros Hb Hs. split; try done.
  intros txIn Hin. injection Hin as <-. split; [done|by eexists].
Qed.

Lemma add_spend_valid :
  @valid_args test_crypto add_script (spend_tx add_script [Op3]) 0 None None NoReusedValues.
Proof. apply spend_tx_valid; repeat constructor; unfold is_byte; vm_compute; done. Qed.

Definition add_engine : res error (@Engine test_crypto) :=
  @NewEngine test_crypto add_script (spend_tx add_script [Op3]) 0 0 None None NoReusedValues.

(** The state the engine starts in, and after one step. *)
Definition add_vm0 : @Engine test_crypto :=
  match add_engine with
  | Ok vm => vm
  | _ => @mk_Engine test_crypto 0 [] 0 0 [] [] zero_tx 0 [] 0 0 None None NoReusedValues false []
  end.

Definition add_vm1 : @Engine test_crypto := snd (@Step test_crypto test_iteration add_vm0).

Lemma add_engine_ok : add_engine = Ok add_vm0.
Proof.
  assert (Hok : match add_engine with Ok _ => true | _ => false end = true)
    by (vm_compute; reflexivity).
  unfold add_vm0. by destruct add_engine.
Qed.

Lemma add_step_ok : @Step test_crypto test_iteration add_vm0 = (Ok false, add_vm1).
Proof.
  assert (Hok : fst (@Step test_crypto test_iteration add_vm0) = Ok false)
    by (vm_compute; reflexivity).
  unfold add_vm1. rewrite <- Hok. apply surjective_pairing.
Qed.

Lemma Execute_total_witness :
  fst (@Execute test_crypto test_iteration add_vm0) = Ok tt /\
  match @NewEngine test_crypto add_script (spend_tx add_script [Op3]) 0 0 None None NoReusedValues with
  | Ok vm =>
      fst (@Execute test_crypto test_iteration vm) = Ok tt \/
      exists e, fst (@Execute test_crypto test_iteration vm) = Err e /\ runtime_error e = true
  | Err e => exists c, e = ScriptError c
  | Panic => False
  end.
Proof.
  split; [vm_compute; reflexivity|].
  exact (@Execute_total test_crypto test_crypto_laws test_iteration add_script
    (spend_tx add_script [Op3]) 0 0 None None NoReusedValues add_spend_valid).
Defined.

Lemma engine_limits_witness :
  dstack add_vm1 = [[3]] /\ zlen (dstack add_vm1) + zlen (astack add_vm1) <= MaxStackSize.
Proof.
  split; [vm_compute; reflexivity|].
  refine (proj1 (@engine_limits test_crypto test_crypto_laws test_iteration add_script
    (spend_tx add_script [Op3]) 0 0 None None NoReusedValues add_vm0 add_vm1 add_spend_valid _ _ _)).
  - exact add_engine_ok.
  - vm_compute; discriminate.
  - eapply reachable_step; [apply reachable_start|exact add_step_ok].
Defined.
