(* ===== verification/EngineSim.v ===== *)
(** The opcodes neither read the program counter nor depend on what the caches
    hold: a simulation between engines that differ only there. *)

From S2P Require Import Prelude ScriptError ScriptNum Stack Opcodes Transaction.
From S2P Require Import Script Sha256 SigHash SigCache Engine EngineInv.

Section sim.
Context `{C : Crypto} `{!CryptoLaws C} `{IT : MapIteration}.

(** Equal on what an opcode computes with. *)
Definition data_eq (vm1 vm2 : Engine) : Prop :=
  dstack vm1 = dstack vm2 /\ astack vm1 = astack vm2 /\ tx vm1 = tx vm2 /\
  txIdx vm1 = txIdx vm2 /\ condStack vm1 = condStack vm2 /\ numOps vm1 = numOps vm2.

(** The caches may differ as long as what they hold is right. *)
Definition sim (vm1 vm2 : Engine) : Prop :=
  data_eq vm1 vm2 /\ caches_ok vm1 /\ caches_ok vm2.

(** The same result, states that are again related, and the same transaction. *)
Definition rel_at {A} (vm1 vm2 : Engine) (m1 m2 : M error Engine A) : Prop :=
  fst (m1 vm1) = fst (m2 vm2) /\ sim (snd (m1 vm1)) (snd (m2 vm2)) /\
  tx (snd (m1 vm1)) = tx vm1.

Definition rel {A} (m1 m2 : M error Engine A) : Prop :=
  forall vm1 vm2, sim vm1 vm2 -> rel_at vm1 vm2 m1 m2.

Lemma rel_pure {A} (r : res error A) : rel (lift r) (lift r).
Proof. by intros vm1 vm2 Hs. Qed.

Lemma rel_ret {A} (a : A) : rel (ret a) (ret a).
Proof. by intros vm1 vm2 Hs. Qed.

Lemma rel_throw {A} e : rel (throw e : M error Engine A) (throw e).
Proof. by intros vm1 vm2 Hs. Qed.

Lemma rel_panic {A} : rel (panic : M error Engine A) panic.
Proof. by intros vm1 vm2 Hs. Qed.

Lemma rel_at_bind {A B} vm1 vm2 (m1 m2 : M error Engine A) (k1 k2 : A -> M error Engine B) :
  rel_at vm1 vm2 m1 m2 -> (forall a, rel (k1 a) (k2 a)) ->
  rel_at vm1 vm2 (bind m1 k1) (bind m2 k2).
Proof.
  intros (Hf & Hs & Ht) Hk. unfold rel_at, bind.
  destruct (m1 vm1) as [[a|e|] vm1'], (m2 vm2) as [[a'|e'|] vm2']; simpl in *; simplify_eq; try done.
  rewrite <- Ht. by apply Hk.
Qed.

Lemma rel_bind {A B} (m1 m2 : M error Engine A) (k1 k2 : A -> M error Engine B) :
  rel m1 m2 -> (forall a, rel (k1 a) (k2 a)) -> rel (bind m1 k1) (bind m2 k2).
Proof.
  intros Hm Hk vm1 vm2 Hs. apply rel_at_bind; [by apply Hm|done].
Qed.

Lemma rel_get {B} (k1 k2 : Engine -> M error Engine B) :
  (forall vm1 vm2, sim vm1 vm2 -> rel_at vm1 vm2 (k1 vm1) (k2 vm2)) ->
  rel (bind get k1) (bind get k2).
Proof. intros Hk vm1 vm2 Hs. by apply Hk. Qed.

Lemma rel_if {A} (b : bool) (m1 m2 n1 n2 : M error Engine A) :
  rel m1 m2 -> rel n1 n2 -> rel (if b then m1 else n1) (if b then m2 else n2).
Proof. by destruct b. Qed.

Lemma rel_modify f :
  (forall vm1 vm2, sim vm1 vm2 -> sim (f vm1) (f vm2) /\ tx (f vm1) = tx vm1) ->
  rel (modify f) (modify f).
Proof. intros Hf vm1 vm2 Hs. split; [done|by apply Hf]. Qed.

Lemma rel_on_dstack {A} (m : SM A) : rel (on_dstack m) (on_dstack m).
Proof.
  intros vm1 vm2 [(Hd & Ha & Ht & Hi & Hc & Hn) [H1 H2]]. unfold rel_at, on_dstack, zoom. rewrite Hd.
  by destruct (m (dstack vm2)) as [r d].
Qed.

Lemma rel_on_astack {A} (m : SM A) : rel (on_astack m) (on_astack m).
Proof.
  intros vm1 vm2 [(Hd & Ha & Ht & Hi & Hc & Hn) [H1 H2]]. unfold rel_at, on_astack, zoom. rewrite Ha.
  by destruct (m (astack vm2)) as [r d].
Qed.

Lemma rel_at_try {A} vm1 vm2 (m1 m2 : M error Engine A) :
  rel_at vm1 vm2 m1 m2 -> rel_at vm1 vm2 (try m1) (try m2).
Proof.
  intros (Hf & Hs & Ht). unfold rel_at, try.
  by destruct (m1 vm1) as [[a|e|] vm1'], (m2 vm2) as [[a'|e'|] vm2']; simpl in *; simplify_eq.
Qed.

(** * Signature checks *)

Class SimKind (k : SigKind) : Prop := {
  sim_scheme :: SchemeLaws (sk_scheme k);
  sim_cache : forall vm c, caches_ok vm -> sk_cache k vm = Some c -> cache_inv c;
  sim_set_cache : forall vm c, caches_ok vm -> cache_inv c ->
    caches_ok (sk_set_cache k (Some c) vm) /\ data_eq (sk_set_cache k (Some c) vm) vm;
  sim_hash : forall tx i ht, transparent tx (sk_hash k tx i ht)
}.

#[global] Instance SchnorrKind_sim : SimKind SchnorrKind.
Proof.
  split; [apply schnorr_laws| | |apply transparent_Schnorr]; simpl.
  - intros vm c (H1 & _) Hc. by apply H1.
  - intros vm c (H1 & H2 & H3) Hc. split; [|done]. split; [by intros c' [= <-]|done].
Qed.

#[global] Instance ECDSAKind_sim : SimKind ECDSAKind.
Proof.
  split; [apply ecdsa_laws| | |apply transparent_ECDSA]; simpl.
  - intros vm c (_ & H2 & _) Hc. by apply H2.
  - intros vm c (H1 & H2 & H3) Hc. split; [|done]. split; [done|]. split; [by intros c' [= <-]|done].
Qed.

Section kind.
Context (k : SigKind) `{!SimKind k}.

(** The cache is transparent: the answer is that of the verification. *)
Lemma verify_cached_result h sig pk vm :
  caches_ok vm ->
  exists vm', verify_cached k h sig pk vm = (Ok (Verify (sk_scheme k) pk h sig), vm') /\
    data_eq vm' vm /\ caches_ok vm'.
Proof.
  intros Hok. unfold verify_cached. erewrite bind_ok by reflexivity.
  destruct (sk_cache k vm) as [c|] eqn:Hc; [|by exists vm].
  destruct (Exists c h sig pk) eqn:He.
  - exists vm. split; [|done]. apply (Exists_sound (sk_scheme k)) in He as ->; [done..|].
    by apply (sim_cache vm).
  - destruct (Verify (sk_scheme k) pk h sig) eqn:Hv; [|by exists vm].
    destruct (sim_set_cache vm (Add c h sig pk) Hok) as [H1 H2].
    { apply Add_inv; [|done]. by apply (sim_cache vm). }
    eexists. split; [reflexivity|done].
Qed.

Lemma rel_verify_cached h sig pk : rel (verify_cached k h sig pk) (verify_cached k h sig pk).
Proof.
  intros vm1 vm2 (Hd & H1 & H2). unfold rel_at.
  destruct (verify_cached_result h sig pk vm1 H1) as (vm1' & -> & Hd1 & H1').
  destruct (verify_cached_result h sig pk vm2 H2) as (vm2' & -> & Hd2 & H2').
  split; [done|]. unfold sim, data_eq in *. simpl. intuition congruence.
Qed.

Lemma rel_hash ht vm1 vm2 :
  sim vm1 vm2 ->
  rel_at vm1 vm2 (on_reused (sk_hash k (tx vm1) (txIdx vm1) ht))
    (on_reused (sk_hash k (tx vm2) (txIdx vm2) ht)).
Proof.
  intros (Hd & (Ha1 & Hb1 & Hr1) & (Ha2 & Hb2 & Hr2)).
  assert (Htx : tx vm1 = tx vm2) by apply Hd. assert (Hti : txIdx vm1 = txIdx vm2) by apply Hd.
  rewrite <- Htx, <- Hti. set (i := txIdx vm1). unfold rel_at, on_reused, zoom.
  destruct (sim_hash (tx vm1) i ht (sigHashReusedValues vm1) Hr1) as [H1 H2].
  rewrite <- Htx in Hr2. destruct (sim_hash (tx vm1) i ht (sigHashReusedValues vm2) Hr2) as [H3 H4].
  destruct (sk_hash k (tx vm1) i ht (sigHashReusedValues vm1)) as [r1 s1].
  destruct (sk_hash k (tx vm1) i ht (sigHashReusedValues vm2)) as [r2 s2]. simpl in *.
  split; [congruence|]. split; [|done]. split; [done|]. split; [done|]. split; [done|]. split; [done|].
  simpl. by rewrite <- Htx.
Qed.

Lemma rel_checkSig op : rel (checkSig k op) (checkSig k op).
Proof.
  unfold checkSig. apply rel_bind; [apply rel_on_dstack|intros pk].
  apply rel_bind; [apply rel_on_dstack|intros sig]. apply rel_if; [apply rel_on_dstack|].
  apply rel_bind; [apply rel_pure|intros ht]. apply rel_bind; [apply rel_pure|intros sb].
  apply rel_if; [apply rel_throw|]. do 2 (apply rel_bind; [apply rel_pure|intros _]).
  apply rel_get. intros vm1 vm2 Hs. apply rel_at_bind; [by apply rel_at_try, rel_hash|].
  intros [h|]; [|apply rel_on_dstack]. destruct (DeserializePubKey _ _); [|apply rel_on_dstack].
  destruct (DeserializeSignature _ _); [|apply rel_on_dstack].
  apply rel_bind; [apply rel_verify_cached|intros v]. apply rel_if; [apply rel_throw|apply rel_on_dstack].
Qed.

Lemma rel_multiSig_round si pk : rel (multiSig_round k si pk) (multiSig_round k si pk).
Proof.
  unfold multiSig_round, parse_sig_once. apply rel_if; [apply rel_ret|].
  do 2 (apply rel_bind; [apply rel_pure|intros ?]). apply rel_bind.
  { apply rel_if; [|apply rel_ret]. apply rel_if; [apply rel_throw|].
    apply rel_bind; [apply rel_pure|intros _; apply rel_ret]. }
  intros [si' [sig|]]; [|apply rel_ret]. apply rel_bind; [apply rel_pure|intros _].
  destruct (DeserializePubKey _ _); [|apply rel_ret].
  apply rel_get. intros vm1 vm2 Hs. apply rel_at_bind; [by apply rel_hash|intros h].
  apply rel_bind; [apply rel_verify_cached|intros v; apply rel_ret].
Qed.

Lemma rel_multiSig_loop keys fuel sigs ns nk si ki :
  rel (multiSig_loop k keys fuel sigs ns nk si ki) (multiSig_loop k keys fuel sigs ns nk si ki).
Proof.
  revert sigs ns nk si ki. induction fuel as [|fuel IH]; intros sigs ns nk si ki;
    cbn [multiSig_loop]; (apply rel_if; [apply rel_ret|]); [apply rel_panic|].
  apply rel_if; [apply rel_ret|]. do 2 (apply rel_bind; [apply rel_pure|intros ?]).
  apply rel_bind; [apply rel_multiSig_round|]. intros [? []]; apply IH.
Qed.

Lemma rel_pop_items n : rel (pop_items n) (pop_items n).
Proof.
  induction n as [|n IH]; [apply rel_ret|]. cbn [pop_items].
  apply rel_bind; [apply rel_on_dstack|intros ?]. apply rel_bind; [done|intros; apply rel_ret].
Qed.

End kind.

(** Adding to the operation count and checking it. *)
Lemma rel_count {A} n (m1 m2 : M error Engine A) :
  rel m1 m2 ->
  rel (modify (fun vm => set_numOps (numOps vm + n) vm) ;;
       let* vm := get in
       if numOps vm >? MaxOpsPerScript then throw (scriptError ErrTooManyOperations) else m1)
      (modify (fun vm => set_numOps (numOps vm + n) vm) ;;
       let* vm := get in
       if numOps vm >? MaxOpsPerScript then throw (scriptError ErrTooManyOperations) else m2).
Proof.
  intros Hm. apply rel_bind.
  - apply rel_modify. intros vm1 vm2 [(Hd & Ha & Ht & Hi & Hc & Hn) Hok].
    split; [|done]. split; [|done]. unfold data_eq. simpl. by rewrite Hn.
  - intros _. apply rel_get. intros vm1 vm2 Hs. assert (numOps vm1 = numOps vm2) as -> by apply Hs.
    by apply rel_if; [apply rel_throw| |].
Qed.

Lemma rel_checkMultiSig k `{!SimKind k} op : rel (checkMultiSig k op) (checkMultiSig k op).
Proof.
  unfold checkMultiSig. apply rel_bind; [apply rel_on_dstack|intros nk].
  do 2 (apply rel_if; [apply rel_throw|]). apply rel_count.
  apply rel_bind; [apply rel_pop_items|intros keys].
  apply rel_bind; [apply rel_on_dstack|intros ns]. do 2 (apply rel_if; [apply rel_throw|]).
  apply rel_bind; [apply rel_pop_items|intros sigs].
  apply rel_bind; [by apply rel_multiSig_loop|intros ok].
  apply rel_if; [apply rel_throw|apply rel_on_dstack].
Qed.

(** * All handlers *)

Ltac rstep :=
  lazymatch goal with
  | |- rel (ret _) _ => apply rel_ret
  | |- rel (throw _) _ => apply rel_throw
  | |- rel (lift _) _ => apply rel_pure
  | |- rel (index _ _) _ => apply rel_pure
  | |- rel (slice _ _ _) _ => apply rel_pure
  | |- rel (on_dstack _) _ => apply rel_on_dstack
  | |- rel (on_astack _) _ => apply rel_on_astack
  | |- rel (bind _ _) _ => apply rel_bind; [|intros ?]
  | |- rel (if _ then _ else _) _ => apply rel_if
  end.

Lemma sim_branch vm1 vm2 : sim vm1 vm2 -> isBranchExecuting vm1 = isBranchExecuting vm2.
Proof. intros [(_ & _ & _ & _ & Hc & _) _]. unfold isBranchExecuting. by rewrite Hc. Qed.

Lemma rel_popIfBool : rel popIfBool popIfBool.
Proof. unfold popIfBool. repeat rstep. Qed.

Lemma rel_push_cond c :
  rel (modify (fun vm => set_condStack (condStack vm ++ [c]) vm))
      (modify (fun vm => set_condStack (condStack vm ++ [c]) vm)).
Proof.
  apply rel_modify. intros vm1 vm2 [(Hd & Ha & Ht & Hi & Hc & Hn) Hok].
  split; [|done]. split; [|done]. unfold data_eq. simpl. by rewrite Hc.
Qed.

Lemma rel_handlers_cond op :
  rel (opcodeIf op) (opcodeIf op) /\ rel (opcodeNotIf op) (opcodeNotIf op) /\
  rel (opcodeElse op) (opcodeElse op) /\ rel (opcodeEndif op) (opcodeEndif op).
Proof.
  assert (Hset : forall c, rel (modify (set_last_cond c)) (modify (set_last_cond c))).
  { intros c. apply rel_modify. intros vm1 vm2 [(Hd & Ha & Ht & Hi & Hc & Hn) Hok].
    split; [|done]. split; [|done]. unfold data_eq. simpl. by rewrite Hc. }
  split_and!.
  - unfold opcodeIf. apply rel_get. intros vm1 vm2 Hs. rewrite (sim_branch _ _ Hs).
    apply rel_bind; [|intros; apply rel_push_cond|done]. rstep; [|rstep].
    apply rel_bind; [apply rel_popIfBool|intros; rstep].
  - unfold opcodeNotIf. apply rel_get. intros vm1 vm2 Hs. rewrite (sim_branch _ _ Hs).
    apply rel_bind; [|intros; apply rel_push_cond|done]. rstep; [|rstep].
    apply rel_bind; [apply rel_popIfBool|intros; rstep].
  - unfold opcodeElse. apply rel_get. intros vm1 vm2 Hs.
    assert (condStack vm1 = condStack vm2) as -> by apply Hs.
    revert Hs. apply rel_if; [rstep|]. repeat (rstep; try apply Hset).
  - unfold opcodeEndif. apply rel_get. intros vm1 vm2 Hs.
    assert (condStack vm1 = condStack vm2) as -> by apply Hs.
    revert Hs. apply rel_if; [rstep|]. apply rel_bind; [rstep|intros cs].
    apply rel_modify. intros vm1' vm2' [(Hd & Ha & Ht & Hi & Hc & Hn) Hok]. done.
Qed.

Lemma rel_handlers_lock op :
  rel (opcodeCheckLockTimeVerify op) (opcodeCheckLockTimeVerify op) /\
  rel (opcodeCheckSequenceVerify op) (opcodeCheckSequenceVerify op) /\
  rel (opcodeDepth op) (opcodeDepth op).
Proof.
  split_and!.
  - unfold opcodeCheckLockTimeVerify. do 2 (apply rel_bind; [rstep|intros ?]).
    apply rel_get. intros vm1 vm2 Hs. assert (tx vm1 = tx vm2) as -> by apply Hs.
    assert (txIdx vm1 = txIdx vm2) as -> by apply Hs.
    revert Hs. apply rel_bind; [rstep|intros ?]. repeat rstep.
  - unfold opcodeCheckSequenceVerify. do 2 (apply rel_bind; [rstep|intros ?]). rstep; [rstep|].
    apply rel_get. intros vm1 vm2 Hs. assert (tx vm1 = tx vm2) as -> by apply Hs.
    assert (txIdx vm1 = txIdx vm2) as -> by apply Hs.
    revert Hs. apply rel_bind; [rstep|intros ?]. repeat rstep.
  - unfold opcodeDepth. apply rel_get. intros vm1 vm2 Hs.
    assert (dstack vm1 = dstack vm2) as -> by apply Hs. by apply rel_on_dstack.
Qed.

Lemma rel_opfunc f op : rel (opfunc_run f op) (opfunc_run f op).
Proof.
  destruct (rel_handlers_cond op) as (Hif & Hnotif & Helse & Hendif).
  destruct (rel_handlers_lock op) as (Hcltv & Hcsv & Hdepth).
  pose proof (rel_checkSig SchnorrKind op) as Hcs. pose proof (rel_checkSig ECDSAKind op) as Hcse.
  pose proof (rel_checkMultiSig SchnorrKind op) as Hms.
  pose proof (rel_checkMultiSig ECDSAKind op) as Hmse.
  destruct f; cbn [opfunc_run]; try assumption;
    unfold opcodeFalse, opcodePushData, opcode1Negate, opcodeN, opcodeNop, opcodeReserved,
    opcodeReturn, opcodeFromAltStack, opcode2Drop, opcode2Dup, opcode3Dup, opcode2Over,
    opcode2Rot, opcode2Swap, opcodeIfDup, opcodeDrop, opcodeDup, opcodeNip, opcodeOver,
    opcodePick, opcodeRoll, opcodeRot, opcodeSwap, opcodeTuck, opcodeDisabled, opcodeSize,
    opcode1Add, opcode1Sub, opcodeNegate, opcodeAbs, opcodeNot, opcode0NotEqual, opcodeAdd,
    opcodeSub, opcodeBoolAnd, opcodeBoolOr, opcodeNumNotEqual, opcodeLessThan,
    opcodeGreaterThan, opcodeLessThanOrEqual, opcodeGreaterThanOrEqual, opcodeMin, opcodeMax,
    opcodeWithin, opcodeSha256, opcodeBlake2b, opcodeInvalid, opcodeVerify, opcodeToAltStack,
    opcodeEqualVerify, opcodeEqual, opcodeNumEqualVerify, opcodeNumEqual, opcodeCheckSigVerify,
    opcodeCheckMultiSigVerify, opcodeCheckSig, opcodeCheckMultiSig, abstractVerify;
    repeat first [assumption | rstep].
Qed.

Lemma rel_executeOpcode pop : rel (executeOpcode pop) (executeOpcode pop).
Proof.
  unfold executeOpcode. do 2 (rstep; [rstep|]). apply rel_bind.
  { rstep; [apply rel_count, rel_ret|]. repeat rstep. }
  intros _. unfold executeOpcode_run. apply rel_get. intros vm1 vm2 Hs.
  rewrite (sim_branch _ _ Hs). revert Hs. apply rel_if; [rstep|].
  apply rel_bind; [repeat rstep|intros _; apply rel_opfunc].
Qed.

End sim.
