(* ===== verification/EngineSpec.v ===== *)
(** A reference semantics of spending an output, and the proof that the engine
    implements it.  The reference evaluates one script after the other on a
    stack with the engine's own opcode handlers: no program counter, no caches,
    no saved state. *)

From S2P Require Import Prelude ScriptError ScriptNum Stack Opcodes Transaction.
From S2P Require Import Script Sha256 SigHash SigCache Engine EngineInv EngineStep EngineSim.

Section spec.
Context `{C : Crypto} `{!CryptoLaws C} `{IT : MapIteration}.

(** * The reference semantics *)

(** A state with a given data stack and everything else at its start. *)
Definition fresh (tx : DomainTransaction) (i : Z) (d : stack) : Engine :=
  mk_Engine 0 [] 0 0 d [] tx i [] 0 0 None None NoReusedValues false [].

Definition check_depth : M error Engine unit :=
  let* vm := get in
  if zlen (dstack vm) + zlen (astack vm) >? MaxStackSize
  then throw (scriptError ErrStackOverflow) else ret tt.

Fixpoint run_opcodes (pops : list parsedOpcode) : M error Engine unit :=
  match pops with
  | [] => ret tt
  | pop :: pops' => executeOpcode pop ;; check_depth ;; run_opcodes pops'
  end.

(** A script takes a data stack to a data stack; its conditionals are balanced. *)
Definition eval_script (tx : DomainTransaction) (i : Z) (pops : list parsedOpcode) (d : stack)
  : res error stack :=
  match run_opcodes pops (fresh tx i d) with
  | (Ok _, vm) =>
      if zlen (condStack vm) =? 0 then Ok (dstack vm)
      else Err (scriptError ErrUnbalancedConditional)
  | (Err e, _) => Err e
  | (Panic, _) => Panic
  end.

(** Success: exactly one item is left, and it is true. *)
Definition final_check (d : stack) : res error unit :=
  match d with
  | [] => Err (scriptError ErrEmptyStack)
  | [x] => if asBool x then Ok tt else Err (scriptError ErrEvalFalse)
  | _ => Err (scriptError ErrCleanStack)
  end.

(** The redeem script on the items below it. *)
Definition eval_redeem (tx : DomainTransaction) (i : Z) (d1 : stack) : res error unit :=
  match last d1 with
  | None => Panic
  | Some redeem =>
      match parseScript redeem with
      | (_, Some e) => Err e
      | (s2, None) =>
          let? d3 := eval_script tx i s2 (removelast d1) in
          final_check d3
      end
  end.

(** The signature script, the public key script on the stack it leaves; for a
    pay-to-script-hash output then the script the signature script pushed last,
    on the items below it. *)
Definition eval_spend (tx : DomainTransaction) (i : Z) (s0 s1 : list parsedOpcode) : res error unit :=
  let? d1 := eval_script tx i s0 [] in
  let? d2 := eval_script tx i s1 d1 in
  if isScriptHash s1 then
    let? _ := check_top d2 in
    eval_redeem tx i d1
  else final_check d2.

(** * Running one script *)

(** What is left of the loop when the opcodes of a script are through. *)
Definition after_script (n : nat) : M error Engine unit :=
  let* done := end_of_script in
  if (done : bool) then ret tt else Execute_loop n.

(** The engine at the end of the opcodes of its current script. *)
Definition at_end (vm vm' : Engine) (script : list parsedOpcode) : Prop :=
  Running vm' /\ scripts vm' = scripts vm /\ scriptIdx vm' = scriptIdx vm /\
  scriptOff vm' = zlen script /\ isP2SH vm' = isP2SH vm /\
  savedFirstStack vm' = savedFirstStack vm /\ tx vm' = tx vm /\ txIdx vm' = txIdx vm.

Lemma set_pc_sim vm vmS i o : sim vm vmS -> sim (set_pc i o vm) vmS.
Proof. by intros (? & ? & ?). Qed.

(** One opcode in the loop, next to the same opcode in the reference. *)
Lemma loop_opcode vm vmS pre pop post n :
  Inv vm -> sim vm vmS -> lookupZ (scripts vm) (scriptIdx vm) = Some (pre ++ pop :: post) ->
  scriptOff vm = zlen pre ->
  match (executeOpcode pop ;; check_depth) vmS with
  | (Ok _, vmS') => exists vm', sim vm' vmS' /\
      (if bool_decide (post = []) then at_end vm vm' (pre ++ [pop])
       else Inv vm' /\ scripts vm' = scripts vm /\ scriptIdx vm' = scriptIdx vm /\
         scriptOff vm' = zlen pre + 1 /\ isP2SH vm' = isP2SH vm /\
         savedFirstStack vm' = savedFirstStack vm /\ tx vm' = tx vm /\ txIdx vm' = txIdx vm) /\
      Execute_loop (S n) vm =
        (if bool_decide (post = []) then after_script n else Execute_loop n) vm'
  | (Err e, _) => fst (Execute_loop (S n) vm) = Err e
  | (Panic, _) => False
  end.
Proof.
  intros Hinv Hsim Hscript Hoff.
  assert (Hpop : lookupZ (pre ++ pop :: post) (scriptOff vm) = Some pop) by by apply lookupZ_app_r.
  pose proof (executeOpcode_running vm _ pop Hinv Hscript Hpop) as Hexec.
  pose proof (Step_eq vm _ pop Hinv Hscript Hpop) as Hstep.
  pose proof (rel_executeOpcode pop _ _ (set_pc_sim vm vmS (scriptIdx vm) (scriptOff vm + 1) Hsim))
    as (Hres & Hsim' & _).
  assert (Hloop : forall r vm', Step vm = (r, vm') ->
    Execute_loop (S n) vm = match r with
      | Ok done => (if (done : bool) then ret tt else Execute_loop n) vm'
      | Err e => (Err e, vm') | Panic => (Panic, vm') end).
  { intros r vm' Hs. cbn [Execute_loop]. unfold bind. rewrite Hs. by destruct r. }
  destruct (executeOpcode pop (set_pc _ _ vm)) as [[[]|e|] vm2]; [| |done];
    destruct (executeOpcode pop vmS) as [[[]|e'|] vmS2] eqn:HrunS; simpl in Hres; try done; cycle 1.
  { erewrite bind_err by exact HrunS. rewrite (Hloop _ _ Hstep). simpl. congruence. }
  erewrite bind_ok by exact HrunS. simpl in Hsim'.
  destruct Hexec as (Es & Ei & Eo & Erem & Hd2 & Hph & Ep & Esv & Etx & Eti).
  assert (Hdd : zlen (dstack vm2) + zlen (astack vm2) = zlen (dstack vmS2) + zlen (astack vmS2)).
  { destruct Hsim' as [(-> & -> & _) _]. done. }
  unfold check_depth, bind, get, throw, ret. rewrite Hdd in Hstep.
  destruct (zlen (dstack vmS2) + zlen (astack vmS2) >? MaxStackSize) eqn:Hgt.
  { rewrite (Hloop _ _ Hstep). done. }
  assert (Hrun2 : Running vm2).
  { destruct Hd2, Hinv. split; [split; try done; lia|by rewrite Es| |done].
    exists (pre ++ pop :: post). rewrite Es, Ei, Eo. split; [done|zlia]. }
  exists vm2. split; [done|]. rewrite Hoff in *. case_bool_decide as Hpost.
  - subst post. split; [split_and!; try done; by rewrite Eo; zlia|].
    destruct (zlen pre + 1 >=? zlen (pre ++ [pop])) eqn:?; [|zlia].
    unfold after_script, bind. destruct (end_of_script vm2) as [r vm3] eqn:Hend.
    rewrite (Hloop r vm3) by congruence. by destruct r as [[]| |].
  - destruct (zlen pre + 1 >=? zlen (pre ++ pop :: post)) eqn:?; [destruct post; [done|zlia]|].
    split; [|by rewrite (Hloop _ _ Hstep)]. split_and!; try done. destruct Hrun2. split; try done.
    + exists (pre ++ pop :: post). rewrite Es, Ei, Eo. split; [done|zlia].
    + rewrite Eo. zlia.
Qed.

Lemma loop_script vm vmS pre post n :
  post <> [] -> Inv vm -> sim vm vmS ->
  lookupZ (scripts vm) (scriptIdx vm) = Some (pre ++ post) -> scriptOff vm = zlen pre ->
  match run_opcodes post vmS with
  | (Ok _, vmS') => exists vm',
      at_end vm vm' (pre ++ post) /\ sim vm' vmS' /\
      Execute_loop (length post + n) vm = after_script n vm'
  | (Err e, _) => fst (Execute_loop (length post + n) vm) = Err e
  | (Panic, _) => False
  end.
Proof.
  revert vm vmS pre. induction post as [|pop post IH]; [done|].
  intros vm vmS pre _ Hinv Hsim Hscript Hoff. cbn [run_opcodes length Nat.add].
  pose proof (loop_opcode vm vmS pre pop post (length post + n) Hinv Hsim Hscript Hoff) as Hop.
  assert (Hassoc : (executeOpcode pop ;; check_depth ;; run_opcodes post) vmS =
    ((executeOpcode pop ;; check_depth) ;; run_opcodes post) vmS).
  { unfold bind. by destruct (executeOpcode pop vmS) as [[]]. }
  rewrite Hassoc. clear Hassoc.
  destruct ((executeOpcode pop ;; check_depth) vmS) as [[[]|e|] vmS'] eqn:HrunS; cycle 1.
  { by erewrite bind_err by exact HrunS. } { done. }
  erewrite bind_ok by exact HrunS. destruct Hop as (vm' & Hsim' & Hst & ->).
  case_bool_decide as Hpost.
  - subst post. cbn [run_opcodes ret]. by exists vm'.
  - destruct Hst as (Hinv' & Es & Ei & Eo & Ep & Esv & Etx & Eti).
    specialize (IH vm' vmS' (pre ++ [pop]) Hpost Hinv' Hsim'). rewrite Es, Ei, Eo, <- app_assoc in IH.
    specialize (IH Hscript ltac:(zlia)).
    destruct (run_opcodes post vmS') as [[[]|e|] vmS'']; [|done..].
    destruct IH as (vm'' & (Hr & Fs & Fi & Fo & Fp & Fsv & Ftx & Fti) & Hsim'' & ->).
    exists vm''. split; [|done]. unfold at_end. split_and!; first [congruence | done].
Qed.

(** * The checks at the end *)

Lemma CheckErrorCondition_final vm :
  zlen (scripts vm) <= scriptIdx vm -> small (dstack vm) ->
  fst (CheckErrorCondition true vm) = final_check (dstack vm).
Proof.
  intros Hl Hs. unfold CheckErrorCondition. erewrite bind_ok by reflexivity. case_if; [lia|].
  unfold Depth. rewrite int32_id by (zlen_facts; lia).
  destruct (dstack vm) as [|x [|y d]] eqn:Hd; [done| |].
  - change (zlen [x] >? 1) with false. change (zlen [x] <? 1) with false. cbv iota.
    erewrite bind_ok by reflexivity.
    assert (Hp : on_dstack PopBool vm = (Ok (asBool x), set_dstack [] vm)).
    { unfold on_dstack, zoom. rewrite Hd. unfold PopBool.
      erewrite bind_ok by (apply (PopByteArray_run [] x); done). done. }
    erewrite bind_ok by exact Hp. simpl. by destruct (asBool x).
  - destruct (zlen (x :: y :: d) >? 1) eqn:?; [done|zlia].
Qed.

(** * From script to script *)

Lemma start_sim vm :
  caches_ok vm -> astack vm = [] -> condStack vm = [] -> numOps vm = 0 ->
  sim vm (fresh (tx vm) (txIdx vm) (dstack vm)).
Proof. intros Hok Ha Hc Hn. split; [done|]. split; [done|]. split; [done|]. by repeat split. Qed.

(** A script from its first opcode to its end. *)
Lemma loop_eval vm script n :
  script <> [] -> Inv vm -> astack vm = [] -> numOps vm = 0 -> scriptOff vm = 0 ->
  lookupZ (scripts vm) (scriptIdx vm) = Some script ->
  match eval_script (tx vm) (txIdx vm) script (dstack vm) with
  | Ok d => exists vm',
      at_end vm vm' script /\ condStack vm' = [] /\ dstack vm' = d /\
      Execute_loop (length script + n) vm = after_script n vm'
  | Err e => fst (Execute_loop (length script + n) vm) = Err e
  | Panic => False
  end.
Proof.
  intros Hne Hinv Ha Hn Hoff Hscript.
  assert (Hsim : sim vm (fresh (tx vm) (txIdx vm) (dstack vm))).
  { apply start_sim; try done; [apply Hinv|by apply Hinv]. }
  pose proof (loop_script vm _ [] script n Hne Hinv Hsim Hscript Hoff) as Hl.
  unfold eval_script. destruct (run_opcodes script _) as [[[]|e|] vmS]; [|done..].
  destruct Hl as (vm' & Hend & Hsim' & ->). destruct Hsim' as [(Hd & _ & _ & _ & Hc & _) _].
  destruct (zlen (condStack vmS) =? 0) eqn:Hz.
  - exists vm'. split; [done|]. split; [|done]. rewrite Hc. apply zlen_0. lia.
  - unfold after_script, bind. rewrite end_of_script_unbalanced; [done|]. rewrite Hc.
    intros Hnil. by rewrite Hnil in Hz.
Qed.

(** The end of the last script. *)
Lemma finish_eval vm n :
  data_ok MaxStackSize vm -> condStack vm = [] -> zlen (scripts vm) = scriptIdx vm + 1 ->
  (scriptIdx vm =? 0) && isP2SH vm = false -> (scriptIdx vm =? 1) && isP2SH vm = false ->
  fst ((after_script n ;; CheckErrorCondition true) vm) = final_check (dstack vm).
Proof.
  intros Hd Hc Hl H0 H1. destruct (data_ok_small MaxStackSize vm eq_refl Hd) as [Hsd Hsa].
  assert (Hend : end_of_script vm = (Ok true, set_pc (scriptIdx vm + 1) 0 (boundary vm))).
  { rewrite end_of_script_boundary by done. unfold next_script at 1.
    unfold bind at 1, bind at 1, get at 1. cbn [scriptIdx isP2SH boundary set_pc set_numOps set_astack].
    rewrite H0, H1. unfold modify at 1. rewrite skip_empty_last; [done|]. simpl. lia. }
  unfold after_script. unfold bind at 1, bind at 1. rewrite Hend. cbn [ret].
  by rewrite CheckErrorCondition_final; [|simpl; lia|].
Qed.

(** From the start of a last script to the result. *)
Lemma last_script_eval vm script n :
  Inv vm -> astack vm = [] -> numOps vm = 0 -> scriptOff vm = 0 -> script <> [] ->
  lookupZ (scripts vm) (scriptIdx vm) = Some script -> zlen (scripts vm) = scriptIdx vm + 1 ->
  (scriptIdx vm =? 0) && isP2SH vm = false -> (scriptIdx vm =? 1) && isP2SH vm = false ->
  (length script <= n)%nat ->
  fst ((Execute_loop n ;; CheckErrorCondition true) vm) =
  (let? d := eval_script (tx vm) (txIdx vm) script (dstack vm) in final_check d).
Proof.
  intros Hinv Ha Hn Ho Hne Hs Hl H0 H1 Hle.
  pose proof (loop_eval vm script (n - length script) Hne Hinv Ha Hn Ho Hs) as Heval.
  replace (length script + (n - length script))%nat with n in Heval by lia.
  destruct (eval_script _ _ _ _) as [d|e|]; [|by unfold bind; destruct (Execute_loop n vm) as [[]];
    simpl in *; simplify_eq|done]. cbn [bind_res].
  destruct Heval as (vm' & (Hr & Es & Ei & _ & Ep & _) & Hc & <- & Hloop).
  rewrite <- (finish_eval vm' (n - length script)); [| |done|congruence|congruence|congruence].
  - f_equal. by apply bind_ext.
  - by destruct Hr.
Qed.

(** The state in which a redeem script starts. *)
Definition redeem_vm (vm : Engine) (saved d : stack) (s2 : list parsedOpcode) : Engine :=
  set_dstack saved (set_scripts (scripts vm ++ [s2]) (set_dstack d (set_pc 2 0 (boundary vm)))).

Lemma end_of_script_p2sh vm saved redeem :
  data_ok MaxStackSize vm -> condStack vm = [] -> zlen (scripts vm) = 2 -> scriptIdx vm = 1 ->
  isP2SH vm = true -> savedFirstStack vm = saved ++ [redeem] ->
  exists d vm', end_of_script vm =
    match check_top (dstack vm) with
    | Ok _ =>
        match parseScript redeem with
        | (s2, None) =>
            if bool_decide (s2 = []) then (Ok true, set_pc 3 0 (redeem_vm vm saved d s2))
            else (Ok false, redeem_vm vm saved d s2)
        | (_, Some e) => (Err e, vm')
        end
    | Err e => (Err e, vm')
    | Panic => (Panic, vm')
    end.
Proof.
  intros Hd Hc Hs Hi Hp Hsv. destruct (data_ok_small MaxStackSize vm eq_refl Hd) as [Hsd Hsa].
  rewrite end_of_script_boundary by done.
  destruct (enter_redeem_eq (boundary vm) saved redeem) as [d Henter]; [done..|].
  cbn [dstack scripts boundary set_pc set_numOps set_astack] in Henter.
  exists d, (set_dstack d (set_pc 2 0 (boundary vm))).
  assert (Hnext : next_script (boundary vm) = enter_redeem_script (boundary vm)).
  { unfold next_script. erewrite bind_ok by reflexivity. simpl. by rewrite Hi, Hp. }
  rewrite Henter in Hnext. destruct (check_top (dstack vm)) as [[]|e|]; cycle 1.
  { by apply bind_err. } { unfold bind at 1. by rewrite Hnext. }
  destruct (parseScript redeem) as [s2 [e|]]; [by apply bind_err|].
  erewrite bind_ok by exact Hnext.
  rewrite (skip_empty_start _ s2); [done|done| |simpl; rewrite zlen_app, Hs; done].
  simpl. destruct (scripts vm) as [|? [|? []]]; try done; zlia.
Qed.

Lemma after_script_bind n vm r vm' :
  end_of_script vm = (r, vm') ->
  (after_script n ;; CheckErrorCondition true) vm =
  match r with
  | Ok true => CheckErrorCondition true vm'
  | Ok false => (Execute_loop n ;; CheckErrorCondition true) vm'
  | Err e => (Err e, vm')
  | Panic => (Panic, vm')
  end.
Proof. intros He. unfold after_script, bind. rewrite He. by destruct r as [[]| |]. Qed.

Lemma redeem_eval vm s0 s1 n :
  Running vm -> condStack vm = [] -> scripts vm = [s0; s1] -> scriptIdx vm = 1 ->
  scriptOff vm = zlen s1 -> isP2SH vm = true -> (Z.to_nat MaxScriptElementSize <= n)%nat ->
  fst ((after_script n ;; CheckErrorCondition true) vm) =
  (let? _ := check_top (dstack vm) in eval_redeem (tx vm) (txIdx vm) (savedFirstStack vm)).
Proof.
  intros Hr Hc Hs Hi Ho Hp Hn. pose proof (end_of_script_spec vm s1 Hr) as Hprog.
  rewrite Hs, Hi in Hprog. specialize (Hprog eq_refl Ho).
  destruct Hr as [Hd Hpops (sc & Hsc & Hoff) Hph].
  assert (Hsv : Forall elem (savedFirstStack vm) /\ savedFirstStack vm <> []).
  { destruct Hph as [| |? ? _ _ _ _ Hse _ Hne|]; try congruence.
    destruct (Z.eqb_spec (scriptOff vm) 0); [lia|done]. }
  destruct Hsv as [Hse Hne]. destruct (exists_last Hne) as (saved & redeem & Hsv).
  rewrite Hsv in Hse. apply Forall_snoc in Hse as [_ [Hrl Hrb]].
  unfold eval_redeem. rewrite Hsv, last_snoc, removelast_last.
  destruct (end_of_script_p2sh vm saved redeem) as (d & vm' & Hend); try done; [by rewrite Hs|].
  destruct (check_top (dstack vm)) as [[]|e|];
    try (by rewrite (after_script_bind _ _ _ _ Hend)). cbn [bind_res].
  pose proof (parse_ok redeem Hrb) as Hparse.
  destruct (parseScript redeem) as [s2 [e|]]; [by rewrite (after_script_bind _ _ _ _ Hend)|].
  destruct Hparse as (_ & Hpl & _). case_bool_decide as Hs2.
  - rewrite (after_script_bind _ _ _ _ Hend). subst s2. cbn [eval_script].
    rewrite CheckErrorCondition_final; simpl; [done|by rewrite Hs|].
    rewrite Hend in Hprog. destruct Hprog as [_ Hd']. by apply (data_ok_small MaxStackSize _ eq_refl Hd').
  - rewrite (after_script_bind _ _ _ _ Hend). rewrite Hend in Hprog. destruct Hprog as [Hinv _].
    apply (last_script_eval (redeem_vm vm saved d s2) s2 n); try done; simpl; rewrite ?Hs; try done.
    unfold MaxScriptElementSize, zlen in *. lia.
Qed.

(** From the start of the public key script to the result. *)
Lemma pubkey_eval vm s0 s1 n :
  Inv vm -> astack vm = [] -> numOps vm = 0 -> scriptOff vm = 0 -> scripts vm = [s0; s1] ->
  scriptIdx vm = 1 -> isP2SH vm = isScriptHash s1 -> s1 <> [] ->
  (isP2SH vm = true -> savedFirstStack vm = dstack vm) ->
  (length s1 + Z.to_nat MaxScriptElementSize <= n)%nat ->
  fst ((Execute_loop n ;; CheckErrorCondition true) vm) =
  (let? d2 := eval_script (tx vm) (txIdx vm) s1 (dstack vm) in
   if isScriptHash s1 then let? _ := check_top d2 in eval_redeem (tx vm) (txIdx vm) (dstack vm)
   else final_check d2).
Proof.
  intros Hinv Ha Hn Ho Hs Hi Hp Hne Hsv Hle.
  destruct (isScriptHash s1) eqn:Hsh; cycle 1.
  { rewrite (last_script_eval vm s1 n); try done; rewrite ?Hs, ?Hi, ?Hp; [done..|lia]. }
  assert (Hscript : lookupZ (scripts vm) (scriptIdx vm) = Some s1) by by rewrite Hs, Hi.
  pose proof (loop_eval vm s1 (n - length s1) Hne Hinv Ha Hn Ho Hscript) as Heval.
  replace (length s1 + (n - length s1))%nat with n in Heval by lia.
  destruct (eval_script _ _ _ _) as [d|e|]; [|by unfold bind; destruct (Execute_loop n vm) as [[]];
    simpl in *; simplify_eq|done]. cbn [bind_res].
  destruct Heval as (vm' & (Hr & Es & Ei & Eo & Ep & Esv & Etx & Eti) & Hc & <- & Hloop).
  rewrite <- Hsv, <- Esv, <- Etx, <- Eti by done.
  rewrite <- (redeem_eval vm' s0 s1 (n - length s1)); try done; try congruence; [|lia].
  f_equal. by apply bind_ext.
Qed.

(** From the start of the signature script to the result. *)
Lemma sig_eval vm s0 s1 n :
  Inv vm -> astack vm = [] -> numOps vm = 0 -> scriptOff vm = 0 -> scripts vm = [s0; s1] ->
  scriptIdx vm = 0 -> isP2SH vm = isScriptHash s1 -> s0 <> [] -> dstack vm = [] ->
  (length s0 + length s1 + Z.to_nat MaxScriptElementSize <= n)%nat ->
  fst ((Execute_loop n ;; CheckErrorCondition true) vm) = eval_spend (tx vm) (txIdx vm) s0 s1.
Proof.
  intros Hinv Ha Hn Ho Hs Hi Hp Hne Hds Hle. unfold eval_spend.
  assert (Hscript : lookupZ (scripts vm) (scriptIdx vm) = Some s0) by by rewrite Hs, Hi.
  pose proof (loop_eval vm s0 (n - length s0) Hne Hinv Ha Hn Ho Hscript) as Heval.
  replace (length s0 + (n - length s0))%nat with n in Heval by lia. rewrite Hds in Heval.
  destruct (eval_script (tx vm) (txIdx vm) s0 []) as [d1|e|];
    [|by unfold bind; destruct (Execute_loop n vm) as [[]]; simpl in *; simplify_eq|done].
  cbn [bind_res]. destruct Heval as (vm' & (Hr & Es & Ei & Eo & Ep & Esv & Etx & Eti) & Hc & <- & Hloop).
  rewrite (bind_ext _ (after_script (n - length s0)) _ vm vm') by done.
  pose proof (end_of_script_spec vm' s0 Hr) as Hprog. rewrite Es, Ei in Hprog.
  specialize (Hprog Hscript Eo). destruct Hr as [Hd _ _ _].
  destruct (data_ok_small MaxStackSize vm' eq_refl Hd) as [Hsd Hsa].
  assert (Hend : end_of_script vm' = if bool_decide (s1 = [])
    then (Ok true, set_pc 2 0 (enter_pubkey (boundary vm'))) else (Ok false, enter_pubkey (boundary vm'))).
  { rewrite end_of_script_boundary by done. erewrite bind_ok; cycle 1.
    { apply next_script_sig; [done|simpl; congruence|done]. }
    assert (Hep : scripts (enter_pubkey (boundary vm')) = [s0; s1] /\
      scriptIdx (enter_pubkey (boundary vm')) = 1 /\ scriptOff (enter_pubkey (boundary vm')) = 0).
    { unfold enter_pubkey. destruct (isP2SH (boundary vm')); simpl; by rewrite Es. }
    destruct Hep as (E1 & E2 & E3). rewrite (skip_empty_start _ s1); rewrite ?E1, ?E2; done. }
  rewrite <- Etx, <- Eti. case_bool_decide as Hs1.
  - rewrite (after_script_bind _ _ _ _ Hend). subst s1. simpl.
    rewrite CheckErrorCondition_final; unfold enter_pubkey;
      destruct (isP2SH (boundary vm')); simpl; rewrite ?Es, ?Hs; done.
  - rewrite (after_script_bind _ _ _ _ Hend). rewrite Hend in Hprog. destruct Hprog as [Hinv' _].
    rewrite (pubkey_eval _ s0 s1); try done; unfold enter_pubkey;
      destruct (isP2SH (boundary vm')) eqn:Eb; simpl in *; try congruence; lia.
Qed.

(** The run of an engine, through its program counter, saved stack and appended
    redeem script, is the evaluation of its scripts. *)
Lemma Execute_eval spk tx i flags c1 c2 r vm txIn :
  valid_args spk tx i c1 c2 r -> spk_Version spk <= MaxScriptPublicKeyVersion ->
  lookupZ (Inputs tx) i = Some txIn -> NewEngine spk tx i flags c1 c2 r = Ok vm ->
  fst (Execute vm) =
  eval_spend tx i (fst (parseScript (SignatureScript txIn))) (fst (parseScript (spk_Script spk))).
Proof.
  intros Hva Hver Htx Hnew. destruct (NewEngine_Inv _ _ _ _ _ _ _ _ Hva Hnew Hver) as [Hinv _].
  destruct (NewEngine_state spk tx i flags c1 c2 r vm) as
    (txIn' & s0 & s1 & Htx' & Hpo & Hl0 & Hl1 & Hne0 & Hne1 & _ & Hp0 & Hp1 & Hvm); try done.
  { apply Hva. } { intros txIn' Htx'. by apply Hva. }
  rewrite Htx in Htx'. injection Htx' as <-. rewrite Hp0, Hp1. cbn [fst].
  unfold Execute. erewrite bind_ok by reflexivity.
  destruct (scriptVersion vm >? MaxScriptPublicKeyVersion) eqn:Hgt; [rewrite Hvm in Hgt; simpl in Hgt; lia|].
  assert (Hms : (length s0 + length s1 + Z.to_nat MaxScriptElementSize <= max_steps)%nat).
  { unfold max_steps, MaxScriptSize, MaxScriptElementSize, zlen in *. lia. }
  destruct (Z.eqb_spec (zlen (SignatureScript txIn)) 0) as [Hz|Hz].
  - apply zlen_0 in Hz as Hnil. rewrite Hnil in Hp0. injection Hp0 as <-.
    rewrite (pubkey_eval vm [] s1); subst vm; try done. by apply Hne1.
  - rewrite (sig_eval vm s0 s1); subst vm; try done. by apply Hne0.
Qed.

(** * The caches after a run *)

(** Whatever happens, what the caches hold stays right. *)
Definition keeps {A} (m : M error Engine A) : Prop :=
  forall vm, caches_ok vm -> caches_ok (snd (m vm)) /\ tx (snd (m vm)) = tx vm.

Lemma keeps_rel {A} (m : M error Engine A) : rel m m -> keeps m.
Proof.
  intros Hm vm Hok. destruct (Hm vm vm) as (_ & (_ & Hok' & _) & Ht); [by split|done].
Qed.

Lemma keeps_bind {A B} (m : M error Engine A) (k : A -> M error Engine B) :
  keeps m -> (forall a, keeps (k a)) -> keeps (bind m k).
Proof.
  intros Hm Hk vm Hok. destruct (Hm vm Hok) as [Hok' Ht]. unfold bind.
  destruct (m vm) as [[a|e|] vm']; simpl in *; try done. rewrite <- Ht. by apply Hk.
Qed.

Lemma keeps_get {B} (k : Engine -> M error Engine B) : (forall vm, keeps (k vm)) -> keeps (bind get k).
Proof. intros Hk vm Hok. by apply Hk. Qed.

Lemma keeps_modify f :
  (forall vm, sigCache (f vm) = sigCache vm /\ sigCacheECDSA (f vm) = sigCacheECDSA vm /\
     sigHashReusedValues (f vm) = sigHashReusedValues vm /\ tx (f vm) = tx vm) ->
  keeps (modify f).
Proof.
  intros Hf vm Hok. destruct (Hf vm) as (E1 & E2 & E3 & E4). simpl.
  unfold caches_ok. by rewrite E1, E2, E3, E4.
Qed.

Lemma keeps_ignore (m : M error Engine unit) : keeps m -> keeps (ignore_error m).
Proof.
  intros Hm vm Hok. specialize (Hm vm Hok). unfold ignore_error.
  by destruct (m vm) as [[a|e|] vm'].
Qed.

Ltac kstep :=
  lazymatch goal with
  | |- keeps (bind get _) => apply keeps_get; intros ?
  | |- keeps (bind _ _) => apply keeps_bind; [|intros ?]
  | |- keeps (modify _) => apply keeps_modify; intros ?; done
  | |- keeps (ignore_error _) => apply keeps_ignore
  | |- keeps (if _ then _ else _) => case_if
  | |- keeps (match ?x with _ => _ end) => destruct x
  | |- keeps (executeOpcode _) => apply keeps_rel, rel_executeOpcode
  | |- keeps (on_dstack _) => apply keeps_rel, rel_on_dstack
  | |- keeps (on_astack _) => apply keeps_rel, rel_on_astack
  | |- keeps (SetStack _) => apply keeps_rel, rel_on_dstack
  | |- keeps (ret _) => apply keeps_rel, rel_ret
  | |- keeps (throw _) => apply keeps_rel, rel_throw
  | |- keeps panic => apply keeps_rel, rel_panic
  | |- keeps (lift _) => apply keeps_rel, rel_pure
  | |- keeps (index _ _) => apply keeps_rel, rel_pure
  | |- keeps (slice _ _ _) => apply keeps_rel, rel_pure
  end.

Lemma keeps_CheckErrorCondition b : keeps (CheckErrorCondition b).
Proof. unfold CheckErrorCondition. repeat kstep. Qed.

Lemma keeps_Step : keeps Step.
Proof.
  unfold Step, end_of_script, next_script, skip_empty_script, enter_redeem_script.
  repeat first [kstep | apply keeps_CheckErrorCondition].
Qed.

Lemma keeps_Execute : keeps Execute.
Proof.
  assert (Hloop : forall fuel, keeps (Execute_loop fuel)).
  { induction fuel as [|fuel IH]; cbn [Execute_loop]; [kstep|].
    apply keeps_bind; [apply keeps_Step|]. intros []; [kstep|done]. }
  unfold Execute. kstep. case_if; [kstep|]. apply keeps_bind; [apply Hloop|intros _].
  apply keeps_CheckErrorCondition.
Qed.

(** * Verifying an input *)

(** A new engine, executed. *)
Definition run_input (spk : ScriptPublicKey) (tx : DomainTransaction) (i flags : Z)
    (c1 : option SigCacheSchnorr) (c2 : option SigCacheECDSA) (r : SighashReusedValues)
  : res error unit :=
  let? vm := NewEngine spk tx i flags c1 c2 r in
  fst (Execute vm).

(** What it stands for: a script of an unknown version can be spent by anyone;
    otherwise the scripts are evaluated, if they parse within the size limit
    and the signature script only pushes. *)
Definition reference (spk : ScriptPublicKey) (tx : DomainTransaction) (i : Z) : res error unit :=
  match lookupZ (Inputs tx) i with
  | None => Err (scriptError ErrInvalidIndex)
  | Some txIn =>
      if bool_decide (SignatureScript txIn = []) && bool_decide (spk_Script spk = [])
      then Err (scriptError ErrEvalFalse)
      else if spk_Version spk >? MaxScriptPublicKeyVersion then Ok tt
      else
        let? s0 := parseScriptAndVerifySize (SignatureScript txIn) in
        if negb (isPushOnly s0) then Err (scriptError ErrNotPushOnly) else
        let? s1 := parseScriptAndVerifySize (spk_Script spk) in
        eval_spend tx i s0 s1
  end.

Lemma NewEngine_eq spk tx i flags c1 c2 r :
  match NewEngine spk tx i flags c1 c2 r with
  | Ok vm => exists txIn, lookupZ (Inputs tx) i = Some txIn /\
      (spk_Version spk > MaxScriptPublicKeyVersion -> reference spk tx i = Ok tt) /\
      (spk_Version spk <= MaxScriptPublicKeyVersion ->
       reference spk tx i =
       eval_spend tx i (fst (parseScript (SignatureScript txIn))) (fst (parseScript (spk_Script spk))))
  | Err e => reference spk tx i = Err e
  | Panic => reference spk tx i = Panic
  end.
Proof.
  unfold NewEngine, reference, index_res.
  destruct ((i <? 0) || (i >=? zlen (Inputs tx))) eqn:Hi.
  { destruct (lookupZ (Inputs tx) i) eqn:Hl; [|done]. apply lookupZ_Some_range in Hl. lia. }
  destruct (lookupZ_in_range (Inputs tx) i) as [txIn Htx]; [lia|]. rewrite Htx. cbn [bind_res].
  assert (Hz : forall l : bytes, (zlen l =? 0) = bool_decide (l = [])).
  { intros [|x l]; [done|]. apply Z.eqb_neq. zlia. }
  rewrite !Hz. destruct (_ && _); [done|].
  destruct (Z.gtb_spec (spk_Version spk) MaxScriptPublicKeyVersion).
  { exists txIn. split_and!; [done|done|intros; lia]. }
  unfold parseScriptAndVerifySize.
  destruct (zlen (SignatureScript txIn) >? MaxScriptSize); [done|].
  destruct (parseScript (SignatureScript txIn)) as [s0 [e|]] eqn:Hp0; [done|]. cbn [bind_res].
  destruct (isPushOnly s0); [|done]. cbn [negb].
  destruct (zlen (spk_Script spk) >? MaxScriptSize); [done|].
  destruct (parseScript (spk_Script spk)) as [s1 [e|]]; [done|]. cbn [bind_res].
  destruct (isScriptHash s1); cbn [bind_res]; exists txIn;
    (split_and!; [done|intros; lia|by rewrite Hp0]).
Qed.

Lemma run_input_reference spk tx i flags c1 c2 r :
  valid_args spk tx i c1 c2 r -> run_input spk tx i flags c1 c2 r = reference spk tx i.
Proof.
  intros Hva. unfold run_input. pose proof (NewEngine_eq spk tx i flags c1 c2 r) as Heq.
  destruct (NewEngine spk tx i flags c1 c2 r) as [vm|e|] eqn:Hnew; [|done..].
  destruct Heq as (txIn & Htx & Hfut & Hcur). cbn [bind_res].
  destruct (Z.leb_spec (spk_Version spk) MaxScriptPublicKeyVersion).
  - rewrite Hcur by done. by apply (Execute_eval spk tx i flags c1 c2 r vm txIn).
  - rewrite Hfut by lia. apply NewEngine_future_version in Hnew; [|done]. unfold Execute.
    erewrite bind_ok by reflexivity. case_if; [done|lia].
Qed.

(** C1: The engine implements the reference semantics.  Building an engine and
    executing it gives exactly the result of evaluating the signature script,
    then the public key script on the stack left, then for pay-to-script-hash
    the script pushed last on the items below it; the flags, the signature
    caches and the hashes computed before do not matter. *)
Theorem engine_refines spk tx i flags c1 c2 r :
  valid_args spk tx i c1 c2 r -> run_input spk tx i flags c1 c2 r = reference spk tx i.
Proof. apply run_input_reference. Qed.

End spec.

Lemma engine_refines_witness :
  @run_input test_crypto test_iteration add_script (spend_tx add_script [Op3]) 0 0 None None
    NoReusedValues = Ok tt.
Proof.
  rewrite (@engine_refines test_crypto test_crypto_laws test_iteration add_script
    (spend_tx add_script [Op3]) 0 0 None None NoReusedValues add_spend_valid).
  vm_compute. reflexivity.
Defined.
