(* ===== verification/ScriptBuilder.v ===== *)
(** Building scripts: [src/domain/consensus/utils/txscript/scriptbuilder.go],
    and that what the builder emits for a datum is what the engine pushes. *)

From S2P Require Import Prelude ScriptError ScriptNum Stack Opcodes Transaction.
From S2P Require Import Script Sha256 SigHash SigCache Engine.

Record ScriptBuilder : Set := mk_ScriptBuilder {
  sb_script : bytes;
  sb_err : option error
}.

Definition NewScriptBuilder : ScriptBuilder := mk_ScriptBuilder [] None.

Definition sb_append (b : ScriptBuilder) (s : bytes) : ScriptBuilder :=
  mk_ScriptBuilder (sb_script b ++ s) (sb_err b).

Definition sb_fail (b : ScriptBuilder) : ScriptBuilder :=
  mk_ScriptBuilder (sb_script b) (Some ScriptNotCanonical).

Definition AddOp (b : ScriptBuilder) (opcode : Z) : ScriptBuilder :=
  match sb_err b with
  | Some _ => b
  | None =>
      if zlen (sb_script b) + 1 >? MaxScriptSize then sb_fail b else sb_append b [opcode]
  end.

Definition AddOps (b : ScriptBuilder) (opcodes : bytes) : ScriptBuilder :=
  match sb_err b with
  | Some _ => b
  | None =>
      if zlen (sb_script b) + zlen opcodes >? MaxScriptSize then sb_fail b
      else sb_append b opcodes
  end.

Definition canonicalDataSize (data : bytes) : Z :=
  let dataLen := zlen data in
  let d0 := default 0 (lookupZ data 0) in
  if dataLen =? 0 then 1
  else if (dataLen =? 1) && (d0 <=? 16) then 1
  else if (dataLen =? 1) && (d0 =? 0x81) then 1
  else if dataLen <? OpPushData1 then 1 + dataLen
  else if dataLen <=? 0xff then 2 + dataLen
  else if dataLen <=? 0xffff then 3 + dataLen
  else 5 + dataLen.

Definition addData (b : ScriptBuilder) (data : bytes) : ScriptBuilder :=
  let dataLen := zlen data in
  let d0 := default 0 (lookupZ data 0) in
  if (dataLen =? 0) || ((dataLen =? 1) && (d0 =? 0)) then sb_append b [Op0]
  else if (dataLen =? 1) && (d0 <=? 16) then sb_append b [uint8 ((Op1 - 1) + d0)]
  else if (dataLen =? 1) && (d0 =? 0x81) then sb_append b [Op1Negate]
  else
    let b :=
      if dataLen <? OpPushData1 then sb_append b [uint8 ((OpData1 - 1) + dataLen)]
      else if dataLen <=? 0xff then sb_append b [OpPushData1; uint8 dataLen]
      else if dataLen <=? 0xffff then
        sb_append (sb_append b [OpPushData2]) (le_put 2 (uint16 dataLen))
      else sb_append (sb_append b [OpPushData4]) (le_put 4 (uint32 dataLen)) in
    sb_append b data.

Definition AddFullData (b : ScriptBuilder) (data : bytes) : ScriptBuilder :=
  match sb_err b with
  | Some _ => b
  | None => addData b data
  end.

Definition AddData (b : ScriptBuilder) (data : bytes) : ScriptBuilder :=
  match sb_err b with
  | Some _ => b
  | None =>
      let dataSize := canonicalDataSize data in
      if zlen (sb_script b) + dataSize >? MaxScriptSize then sb_fail b
      else if zlen data >? MaxScriptElementSize then sb_fail b
      else addData b data
  end.

(** [Panic] is the panic of [scriptNum.Bytes]. *)
Definition AddInt64 (b : ScriptBuilder) (val : Z) : res error ScriptBuilder :=
  match sb_err b with
  | Some _ => Ok b
  | None =>
      if zlen (sb_script b) + 1 >? MaxScriptSize then Ok (sb_fail b)
      else if val =? 0 then Ok (sb_append b [Op0])
      else if (val =? -1) || ((val >=? 1) && (val <=? 16))
      then Ok (sb_append b [uint8 ((Op1 - 1) + val)])
      else let? data := Bytes val in Ok (AddData b data)
  end.

(** [for buf[unpaddedSize-1] == 0 { unpaddedSize-- }], from [n]; an index of -1
    panics. *)
Fixpoint unpad_size (buf : bytes) (n : nat) : res error nat :=
  match n with
  | O => Panic
  | S n' =>
      let? x := index_res buf (Z.of_nat n') in
      if x =? 0 then unpad_size buf n' else Ok n
  end.

Definition addLockTimeOrSequence (b : ScriptBuilder) (lockTimeOrSequence : Z)
  : res error ScriptBuilder :=
  match sb_err b with
  | Some _ => Ok b
  | None =>
      let buf := le_put 8 lockTimeOrSequence in
      let? unpaddedSize := unpad_size buf 8 in
      Ok (AddData b (take unpaddedSize buf))
  end.

Definition AddLockTimeNumber (b : ScriptBuilder) (lockTime : Z) : res error ScriptBuilder :=
  addLockTimeOrSequence b lockTime.

Definition AddSequenceNumber (b : ScriptBuilder) (sequence : Z) : res error ScriptBuilder :=
  addLockTimeOrSequence b sequence.

Definition Reset (b : ScriptBuilder) : ScriptBuilder := mk_ScriptBuilder [] None.

(** [b.Script()] *)
Definition Script (b : ScriptBuilder) : bytes * option error := (sb_script b, sb_err b).

(** A built script as a result. *)
Definition Script_res (b : ScriptBuilder) : res error bytes :=
  match Script b with
  | (s, None) => Ok s
  | (_, Some e) => Err e
  end.

(** * The opcode chosen for a datum *)

(** The table entry at [b]. *)
Definition op_at (b : Z) : opcode := default zero_opcode (lookupZ opcodeArray b).

(** The opcode byte and the parsed opcode that [addData] encodes. *)
Definition push_item (data : bytes) : Z * parsedOpcode :=
  let dataLen := zlen data in
  let d0 := default 0 (lookupZ data 0) in
  let b :=
    if (dataLen =? 0) || ((dataLen =? 1) && (d0 =? 0)) then Op0
    else if (dataLen =? 1) && (d0 <=? 16) then (Op1 - 1) + d0
    else if (dataLen =? 1) && (d0 =? 0x81) then Op1Negate
    else if dataLen <? OpPushData1 then dataLen
    else if dataLen <=? 0xff then OpPushData1
    else if dataLen <=? 0xffff then OpPushData2
    else OpPushData4 in
  (b, mk_parsedOpcode (op_at b) (if op_length (op_at b) =? 1 then None else Some data)).

Lemma op_at_lookup b : is_byte b -> lookupZ opcodeArray b = Some (op_at b).
Proof. intros Hb. unfold op_at. by destruct (opcodeArray_lookup_byte b Hb) as [op ->]. Qed.

Lemma op_at_length b :
  is_byte b ->
  op_length (op_at b) =
    if (1 <=? b) && (b <=? 75) then b + 1
    else if b =? OpPushData1 then -1 else if b =? OpPushData2 then -2
    else if b =? OpPushData4 then -4 else 1.
Proof. intros Hb. apply opcodeArray_op_length. by apply op_at_lookup. Qed.

(** The cases of [addData]. *)
Inductive push_case (data : bytes) : Z -> Prop :=
| push_empty : data = [] \/ data = [0] -> push_case data Op0
| push_small d : data = [d] -> 1 <= d <= 16 -> push_case data (Op1 - 1 + d)
| push_negate : data = [0x81] -> push_case data Op1Negate
| push_data : 1 <= zlen data <= 75 -> (forall d, data = [d] -> 16 < d /\ d <> 0x81) ->
    push_case data (zlen data)
| push_data1 : 76 <= zlen data <= 255 -> push_case data OpPushData1
| push_data2 : 256 <= zlen data <= 65535 -> push_case data OpPushData2
| push_data4 : 65536 <= zlen data -> push_case data OpPushData4.

Lemma push_item_case data : Forall is_byte data -> push_case data (fst (push_item data)).
Proof.
  intros Hb. unfold push_item. cbn [fst].
  assert (Hd0 : forall d, data = [d] -> default 0 (lookupZ data 0) = d) by by intros d ->.
  assert (H1 : zlen data = 1 -> exists d, data = [d] /\ is_byte d).
  { destruct data as [|d [|]]; [done| |zlia]. intros _. exists d. split; [done|]. by apply Forall_inv in Hb. }
  destruct (Z.eqb_spec (zlen data) 0) as [Hz|Hz].
  { apply zlen_0 in Hz. constructor. by left. }
  destruct (Z.eqb_spec (zlen data) 1) as [Hl|Hl]; cbn [orb andb].
  - destruct (H1 Hl) as (d & -> & Hd). unfold is_byte in Hd. rewrite (Hd0 d eq_refl).
    destruct (Z.eqb_spec d 0) as [->|]; [constructor; by right|].
    destruct (Z.leb_spec d 16); [apply (push_small [d] d); [done|lia]|].
    destruct (Z.eqb_spec d 0x81) as [->|]; [by constructor|].
    apply push_data; [done|]. intros d' [= <-]. lia.
  - assert (Hn : forall d, data = [d] -> False) by by intros d ->.
    repeat case_if; unfold OpPushData1 in *; constructor; zlen_facts; try lia.
    intros d Hd. by destruct (Hn d).
Qed.

(** The encoded length of the chosen opcode. *)
Lemma push_case_length data b :
  push_case data b ->
  is_byte b /\
  op_length (op_at b) =
    match data with
    | [] => 1
    | [d] => if (d <=? 16) || (d =? 0x81) then 1 else 2
    | _ => if zlen data <=? 75 then zlen data + 1
           else if zlen data <=? 255 then -1 else if zlen data <=? 65535 then -2 else -4
    end.
Proof.
  intros Hc. assert (Hbyte : is_byte b).
  { destruct Hc; unfold is_byte, Op0, Op1, Op1Negate, OpPushData1, OpPushData2, OpPushData4 in *; lia. }
  split; [done|]. rewrite (op_at_length b Hbyte). clear Hbyte.
  unfold OpPushData1, OpPushData2, OpPushData4.
  destruct Hc as [[-> | ->]| d -> Hd| -> |Hd Hn|Hd|Hd|Hd]; try done.
  - unfold Op1. repeat case_if; lia.
  - destruct data as [|d [|d' data]]; [zlia| |repeat case_if; zlia].
    specialize (Hn d eq_refl). change (zlen [d]) with 1. repeat case_if; lia.
  - destruct data as [|d [|d' data]]; [zlia..|]. cbn. repeat case_if; zlia.
  - destruct data as [|d [|d' data]]; [zlia..|]. cbn. repeat case_if; zlia.
  - destruct data as [|d [|d' data]]; [zlia..|]. cbn. repeat case_if; zlia.
Qed.

Lemma push_item_at data :
  Forall is_byte data -> zlen data < 2 ^ 32 -> pop_at (fst (push_item data)) (snd (push_item data)).
Proof.
  intros Hb Hl. pose proof (push_item_case data Hb) as Hc.
  apply push_case_length in Hc as [Hbyte HL]. unfold push_item in *. cbn [fst snd] in *.
  split; [by apply op_at_lookup|]. cbn [pop_opcode pop_data]. rewrite HL. unfold data_shape.
  destruct data as [|d [|d' data]]; [done| |].
  - destruct ((d <=? 16) || (d =? 0x81)); [done|]. cbn. split; [done|]. left. done.
  - destruct (Z.leb_spec (zlen (d :: d' :: data)) 75).
    { destruct (Z.eqb_spec (zlen (d :: d' :: data) + 1) 1); [zlia|]. split; [done|]. left. zlia. }
    destruct (Z.leb_spec (zlen (d :: d' :: data)) 255).
    { cbn. split; [done|]. right. change (256 ^ 1) with 256. split; [done|zlia]. }
    destruct (Z.leb_spec (zlen (d :: d' :: data)) 65535); cbn; (split; [done|]); right; (split; [done|]);
      [change (256 ^ 2) with 65536|change (256 ^ 4) with (2 ^ 32)]; zlia.
Qed.

(** The builder appends the encoding of that opcode. *)
Lemma addData_encode bd data :
  Forall is_byte data -> zlen data < 2 ^ 32 ->
  addData bd data = sb_append bd (encode (fst (push_item data)) (snd (push_item data))).
Proof.
  intros Hb Hl. pose proof (push_item_case data Hb) as Hc.
  apply push_case_length in Hc as [Hbyte HL]. unfold push_item in *. cbn [fst snd] in *.
  unfold encode, data_of. cbn [pop_opcode pop_data]. rewrite HL. clear HL Hbyte. unfold addData, sb_append.
  destruct data as [|d [|d' data]]; [done| |].
  - change (zlen [d]) with 1. change (lookupZ [d] 0) with (Some d).
    apply Forall_inv in Hb. unfold is_byte in Hb. cbn [default from_option id orb andb Z.eqb Pos.eqb].
    destruct (Z.eqb_spec d 0) as [->|]; [done|]. destruct (Z.leb_spec d 16).
    { cbn. by rewrite uint8_id by (unfold is_byte, Op1; lia). }
    destruct (Z.eqb_spec d 0x81) as [->|]; [done|]. cbn. by rewrite <- app_assoc.
  - set (l := zlen (d :: d' :: data)) in *. assert (2 <= l) by (subst l; zlia).
    replace (l =? 0) with false by lia. replace (l =? 1) with false by lia. cbn [orb andb].
    unfold OpPushData1, OpPushData2, OpPushData4. destruct (Z.ltb_spec l 76).
    { destruct (Z.leb_spec l 75); [|lia]. destruct (Z.eqb_spec (l + 1) 1); [lia|].
      replace (Z.to_nat (- (l + 1))) with O by lia. cbn [le_put app default from_option id sb_script sb_err].
      rewrite uint8_id by (unfold is_byte, OpData1; lia). unfold OpData1.
      replace (1 - 1 + l) with l by lia. by rewrite <- app_assoc. }
    destruct (Z.leb_spec l 75); [lia|]. destruct (Z.leb_spec l 255).
    { cbn [Z.eqb Z.opp Z.to_nat Pos.to_nat]. change (Z.to_nat 1) with 1%nat.
      cbn [sb_script sb_err default from_option id]. fold l. rewrite le_put_1. by rewrite <- app_assoc. }
    destruct (Z.leb_spec l 65535).
    + cbn [Z.eqb Z.opp]. change (Z.to_nat 2) with 2%nat. cbn [sb_script sb_err default from_option id].
      fold l. unfold uint16. rewrite Z.mod_small by lia. by rewrite <- !app_assoc.
    + cbn [Z.eqb Z.opp]. change (Z.to_nat 4) with 4%nat. cbn [sb_script sb_err default from_option id].
      fold l. unfold uint32. rewrite Z.mod_small by lia. by rewrite <- !app_assoc.
Qed.

(** * The engine pushes what was added *)

Section exec.
Context `{C : Crypto} `{IT : MapIteration}.

Definition push_dstack (x : bytes) (vm : Engine) : Engine := set_dstack (dstack vm ++ [x]) vm.

(** A push opcode in an executing branch: size and minimality checks, then the
    handler. *)
Lemma executeOpcode_push pop vm :
  pop_value pop <= Op16 -> 0 <= pop_value pop -> zlen (data_of pop) <= MaxScriptElementSize ->
  isBranchExecuting vm = true ->
  (pop_value pop = 0 \/ pop_value pop > OpPushData4 \/ checkMinimalDataPush pop = Ok tt) ->
  executeOpcode pop vm = opfunc_run (op_func (pop_opcode pop)) pop vm.
Proof.
  intros Hv H0 Hd Hb Hm. unfold executeOpcode.
  assert (isDisabled pop = false) as ->.
  { unfold isDisabled, Op16 in *. cbv zeta. repeat apply orb_false_intro; apply Z.eqb_neq;
      intros Heq; by rewrite Heq in Hv. }
  assert (alwaysIllegal pop = false) as ->.
  { unfold alwaysIllegal, Op16 in *. cbv zeta. apply orb_false_intro; apply Z.eqb_neq;
      intros Heq; by rewrite Heq in Hv. }
  case_if; [lia|]. case_if; [lia|]. erewrite bind_ok by reflexivity.
  unfold executeOpcode_run. erewrite bind_ok by reflexivity. rewrite Hb. cbn [negb andb].
  unfold bind. destruct (Z.eqb_spec (pop_value pop) 0) as [|]; cbn [negb andb]; [done|].
  destruct (Z.leb_spec (pop_value pop) OpPushData4); [|done].
  destruct Hm as [?|[?| ->]]; [done|lia|done].
Qed.

Lemma op_at_value b : is_byte b -> misnumbered b = false -> op_value (op_at b) = b.
Proof.
  intros Hb Hm. rewrite (opcodeArray_value b) by by apply op_at_lookup. by rewrite Hm.
Qed.

Lemma op_at_pushdata b : 1 <= b <= 78 -> op_func (op_at b) = F_opcodePushData.
Proof.
  intros Hb. pose proof (op_at_lookup b ltac:(unfold is_byte; lia)) as Hop.
  apply (opcodeArray_lookup (fun b op => negb ((1 <=? b) && (b <=? 78)) ||
    bool_decide (op_func op = F_opcodePushData))) in Hop; [|reflexivity].
  replace ((1 <=? b) && (b <=? 78)) with true in Hop by lia. by apply bool_decide_eq_true in Hop.
Qed.

Lemma op_at_smallint b : 81 <= b <= 96 -> op_func (op_at b) = F_opcodeN.
Proof.
  intros Hb. pose proof (op_at_lookup b ltac:(unfold is_byte; lia)) as Hop.
  apply (opcodeArray_lookup (fun b op => negb ((81 <=? b) && (b <=? 96)) ||
    bool_decide (op_func op = F_opcodeN))) in Hop; [|reflexivity].
  replace ((81 <=? b) && (b <=? 96)) with true in Hop by lia. by apply bool_decide_eq_true in Hop.
Qed.

Lemma Bytes_small d : 1 <= d <= 16 -> Bytes d = Ok [d].
Proof.
  intros Hd. rewrite <- (Z2Nat.id d) by lia. assert (Hn : (1 <= Z.to_nat d <= 16)%nat) by lia.
  revert Hn. generalize (Z.to_nat d). clear. intros n Hn.
  do 17 (destruct n as [|n]; [reflexivity || lia|]). lia.
Qed.

(** A data push opcode with the shortest encoding. *)
Lemma exec_pushdata b data vm :
  1 <= b <= 78 -> zlen data <= MaxScriptElementSize -> isBranchExecuting vm = true ->
  checkMinimalDataPush (mk_parsedOpcode (op_at b) (Some data)) = Ok tt ->
  executeOpcode (mk_parsedOpcode (op_at b) (Some data)) vm = (Ok tt, push_dstack data vm).
Proof.
  intros Hb Hl Hex Hm. assert (Hv : op_value (op_at b) = b).
  { apply op_at_value; [unfold is_byte; lia|unfold misnumbered; lia]. }
  rewrite executeOpcode_push; unfold pop_value; cbn [pop_opcode]; rewrite ?Hv; try done.
  - by rewrite op_at_pushdata.
  - unfold Op16. lia.
  - lia.
  - by right; right.
Qed.

(** The shortest encodings pass the minimality check. *)
Lemma checkMinimal_long b data :
  (76 <= zlen data <= 255 /\ b = OpPushData1) \/ (256 <= zlen data <= 65535 /\ b = OpPushData2) ->
  op_length (op_at b) <> 1 /\ checkMinimalDataPush (mk_parsedOpcode (op_at b) (Some data)) = Ok tt.
Proof.
  intros Hb. unfold checkMinimalDataPush, data_of. cbn [pop_data default from_option id].
  destruct Hb as [[Hl ->]|[Hl ->]]; (split; [done|]);
    replace (zlen data =? 0) with false by lia; replace (zlen data =? 1) with false by lia;
    cbn [andb]; replace (zlen data <=? 75) with false by lia.
  - by replace (zlen data <=? 255) with true by lia.
  - replace (zlen data <=? 255) with false by lia. by replace (zlen data <=? 65535) with true by lia.
Qed.

Lemma exec_push data vm :
  Forall is_byte data -> zlen data <= MaxScriptElementSize -> data <> [0] ->
  isBranchExecuting vm = true ->
  executeOpcode (snd (push_item data)) vm = (Ok tt, push_dstack data vm).
Proof.
  intros Hb Hl H0 Hex. pose proof (push_item_case data Hb) as Hc.
  pose proof (push_case_length _ _ Hc) as [_ HL]. unfold push_item in *. cbn [fst snd] in *.
  set (b := if (zlen data =? 0) || _ then Op0 else _) in *. clearbody b.
  unfold MaxScriptElementSize in *.
  assert (Hd : 1 <= b <= 78 -> op_length (op_at b) <> 1 ->
    checkMinimalDataPush (mk_parsedOpcode (op_at b) (Some data)) = Ok tt ->
    executeOpcode (mk_parsedOpcode (op_at b) (if op_length (op_at b) =? 1 then None else Some data)) vm =
    (Ok tt, push_dstack data vm)).
  { intros Hr Hn Hm. destruct (Z.eqb_spec (op_length (op_at b)) 1); [done|]. by apply exec_pushdata. }
  assert (Hv : is_byte b -> misnumbered b = false ->
    pop_value (mk_parsedOpcode (op_at b) (Some data)) = b) by apply op_at_value.
  unfold is_byte, misnumbered in Hv.
  destruct Hc as [[-> | ->]| d -> Hd'| -> |Hd' Hn|Hd'|Hd'|Hd'].
  - by rewrite executeOpcode_push; [|done|done|done|done|left].
  - done.
  - assert (Hv' : op_value (op_at (Op1 - 1 + d)) = Op1 - 1 + d).
    { apply op_at_value; unfold is_byte, misnumbered, Op1 in *; lia. }
    rewrite HL. replace ((d <=? 16) || (d =? 0x81)) with true by lia. cbn [Z.eqb Pos.eqb].
    unfold Op1 in Hv'. rewrite executeOpcode_push; unfold pop_value; cbn [pop_opcode pop_data];
      rewrite ?Hv'; unfold Op1, Op16, OpPushData4 in *; try done; try lia.
    rewrite op_at_smallint by lia. cbn [opfunc_run]. unfold opcodeN, pop_value. cbn [pop_opcode].
    rewrite Hv'. unfold Op1. replace (81 - 1 + d - (81 - 1)) with d by lia.
    rewrite uint8_id by (unfold is_byte; lia). unfold on_dstack, zoom, PushInt.
    by rewrite Bytes_small.
  - by rewrite executeOpcode_push; [|done|done|done|done|right; left; done].
  - apply Hd; [lia| |].
    + rewrite HL. destruct data as [|d [|]]; [zlia| |case_if; zlia].
      specialize (Hn d eq_refl). by replace ((d <=? 16) || (d =? 0x81)) with false by lia.
    + unfold checkMinimalDataPush. rewrite Hv by lia. unfold data_of. cbn [pop_data default from_option id].
      destruct data as [|d [|]]; [zlia| |].
      * specialize (Hn d eq_refl). change (default 0 (lookupZ [d] 0)) with d.
        change (zlen [d]) with 1. repeat case_if; try done; lia.
      * repeat case_if; try done; zlia.
  - destruct (checkMinimal_long OpPushData1 data); [by left|]. by apply Hd.
  - destruct (checkMinimal_long OpPushData2 data); [right; split; [lia|done]|]. by apply Hd.
  - unfold zlen in *. lia.
Qed.

End exec.

Lemma zlen_encode_push data :
  Forall is_byte data -> zlen data < 2 ^ 32 ->
  zlen (encode (fst (push_item data)) (snd (push_item data))) = canonicalDataSize data.
Proof.
  intros Hb Hl. pose proof (push_item_case data Hb) as Hc.
  apply push_case_length in Hc as [_ HL]. unfold push_item in *. cbn [fst snd] in *.
  unfold encode, data_of. cbn [pop_opcode pop_data]. rewrite HL. clear HL.
  unfold canonicalDataSize, OpPushData1. rewrite zlen_cons, zlen_app, zlen_le_put.
  destruct data as [|d [|d' data]]; [done| |].
  - change (zlen [d]) with 1. change (lookupZ [d] 0) with (Some d). cbn [default from_option id].
    cbn [Z.eqb Pos.eqb andb]. destruct (Z.leb_spec d 16); [done|]. cbn [orb].
    by destruct (d =? 0x81).
  - set (l := zlen (d :: d' :: data)) in *. assert (2 <= l) by (subst l; zlia).
    replace (l =? 0) with false by lia. replace (l =? 1) with false by lia. cbn [andb].
    destruct (Z.leb_spec l 75).
    + replace (l <? 76) with true by lia. replace (l + 1 =? 1) with false by lia.
      cbn [default from_option id]. fold l. lia.
    + replace (l <? 76) with false by lia. destruct (Z.leb_spec l 255); [cbn; fold l; lia|].
      destruct (Z.leb_spec l 65535); cbn; fold l; lia.
Qed.

(** * Lock times *)

(** The loop drops the zero bytes at the end. *)
Lemma unpad_size_spec buf n :
  (n <= length buf)%nat ->
  (exists m, unpad_size buf n = Ok m /\ (1 <= m <= n)%nat /\
     take n buf = take m buf ++ replicate (n - m) 0 /\ buf !! (m - 1)%nat <> Some 0) \/
  (unpad_size buf n = Panic /\ take n buf = replicate n 0).
Proof.
  induction n as [|n IH]; intros Hn; [by right|]. cbn [unpad_size].
  destruct (lookup_lt_is_Some_2 buf n ltac:(lia)) as [x Hx].
  unfold index_res, lookupZ. rewrite Nat2Z.id, Hx.
  replace (0 <=? Z.of_nat n) with true by lia. cbn [bind_res].
  rewrite (take_S_r _ _ _ Hx). destruct (Z.eqb_spec x 0) as [->|Hne].
  - destruct IH as [(m & -> & Hm & Ht & Hl)|[-> Ht]]; [lia| |].
    + left. exists m. split_and!; [done|lia|lia| |done]. rewrite Ht, <- app_assoc. f_equal.
      rewrite Nat.sub_succ_l by lia. by rewrite replicate_S_end.
    + right. split; [done|]. rewrite Ht. by rewrite replicate_S_end.
  - left. exists (S n). split_and!; [done|lia|lia| |].
    + rewrite (take_S_r _ _ _ Hx), Nat.sub_diag, app_nil_r. done.
    + replace (S n - 1)%nat with n by lia. rewrite Hx. congruence.
Qed.

(** An operand of at most 8 bytes is its little-endian value. *)
Lemma operand_uint64_le b : zlen b <= 8 -> operand_uint64 b = Ok (le_get b).
Proof.
  intros Hl. unfold operand_uint64. case_if; [lia|]. case_if; [|done].
  unfold copy_slice. rewrite length_replicate, take_ge by (unfold zlen in *; lia).
  rewrite drop_replicate. by rewrite le_get_app_zeros.
Qed.

Lemma unpad_le_put t :
  0 < t < 2 ^ 64 ->
  exists m, unpad_size (le_put 8 t) 8 = Ok m /\ (1 <= m <= 8)%nat /\
    le_get (take m (le_put 8 t)) = t /\ take m (le_put 8 t) <> [0].
Proof.
  intros Ht. assert (Hg : le_get (le_put 8 t) = t).
  { rewrite le_get_put. apply Z.mod_small. change (256 ^ Z.of_nat 8) with (2 ^ 64). lia. }
  destruct (unpad_size_spec (le_put 8 t) 8) as [(m & Hu & Hm & Hs & Hl)|[_ Hs]].
  { by rewrite length_le_put. }
  - rewrite take_ge in Hs by by rewrite length_le_put. exists m. split_and!; [done|lia|lia| |].
    + rewrite <- (le_get_app_zeros _ (8 - m)), <- Hs. done.
    + intros H0. assert (Hg0 : le_get (take m (le_put 8 t)) = 0) by by rewrite H0.
      rewrite <- (le_get_app_zeros _ (8 - m)), <- Hs in Hg0. lia.
  - rewrite take_ge in Hs by by rewrite length_le_put.
    rewrite Hs in Hg. pose proof (le_get_app_zeros [] 8) as Hz. cbn [app] in Hz.
    rewrite Hz in Hg. simpl in Hg. lia.
Qed.

(** * Numbers *)

(** [AddInt64] adds the encoding of the number as data. *)
Lemma AddInt64_addData bd n v :
  sb_err bd = None -> zlen (sb_script bd) + 6 <= MaxScriptSize -> Bytes n = Ok v -> zlen v <= 4 ->
  AddInt64 bd n = Ok (addData bd v).
Proof.
  intros He Hs Hv Hl. unfold AddInt64. rewrite He. case_if; [lia|].
  destruct (Z.eqb_spec n 0) as [->|Hnz]; [by injection Hv as <-|].
  destruct (Z.eqb_spec n (-1)) as [->|Hn1]; [by injection Hv as <-|]. cbn [orb].
  destruct ((n >=? 1) && (n <=? 16)) eqn:Hsm.
  - rewrite Bytes_small in Hv by lia. injection Hv as <-. unfold addData.
    change (zlen [n]) with 1. change (default 0 (lookupZ [n] 0)) with n. cbn [Z.eqb Pos.eqb orb andb].
    destruct (Z.eqb_spec n 0); [lia|]. by destruct (Z.leb_spec n 16); [|lia].
  - rewrite Hv. cbn [bind_res]. unfold AddData. rewrite He.
    assert (canonicalDataSize v <= 5) by (unfold canonicalDataSize, OpPushData1; repeat case_if; lia).
    unfold MaxScriptElementSize. by do 2 (case_if; [lia|]).
Qed.

(** * Properties *)

(** What [AddData] appends is what the engine pushes: for a builder without
    an error and a datum that fits, the bytes appended are the encoding of one
    opcode, of the size [canonicalDataSize] announces, and executing that
    opcode passes the minimality check and pushes exactly the datum.  (The
    datum [0x00] is the exception: it is added as [OP_0].) *)
Theorem AddData_pushes `{C : Crypto} `{IT : MapIteration} bd data :
  sb_err bd = None -> Forall is_byte data -> zlen data <= MaxScriptElementSize -> data <> [0] ->
  zlen (sb_script bd) + canonicalDataSize data <= MaxScriptSize ->
  exists b pop,
    AddData bd data = mk_ScriptBuilder (sb_script bd ++ encode b pop) None /\
    zlen (encode b pop) = canonicalDataSize data /\ pop_at b pop /\
    forall vm, isBranchExecuting vm = true ->
      executeOpcode pop vm = (Ok tt, set_dstack (dstack vm ++ [data]) vm).
Proof.
  intros He Hb Hl H0 Hs. exists (fst (push_item data)), (snd (push_item data)).
  assert (zlen data < 2 ^ 32) by (unfold MaxScriptElementSize in *; lia). split_and!.
  - unfold AddData. rewrite He. do 2 (case_if; [lia|]). rewrite addData_encode by done.
    unfold sb_append. by rewrite He.
  - by apply zlen_encode_push.
  - by apply push_item_at.
  - intros vm Hex. by apply exec_push.
Qed.

(** The methods a caller of the builder uses. *)
Inductive builder_call : Set :=
| CallAddOp (opcode : Z)
| CallAddOps (opcodes : bytes)
| CallAddData (data : bytes)
| CallAddInt64 (val : Z)
| CallAddLockTimeNumber (t : Z)
| CallReset.

Definition builder_run (bd : ScriptBuilder) (c : builder_call) : res error ScriptBuilder :=
  match c with
  | CallAddOp o => Ok (AddOp bd o)
  | CallAddOps o => Ok (AddOps bd o)
  | CallAddData d => Ok (AddData bd d)
  | CallAddInt64 v => AddInt64 bd v
  | CallAddLockTimeNumber t => AddLockTimeNumber bd t
  | CallReset => Ok (Reset bd)
  end.

Fixpoint builder_runs (bd : ScriptBuilder) (cs : list builder_call) : res error ScriptBuilder :=
  match cs with
  | [] => Ok bd
  | c :: cs' => let? bd' := builder_run bd c in builder_runs bd' cs'
  end.

(** Arguments of the Go types. *)
Definition call_ok (c : builder_call) : Prop :=
  match c with
  | CallAddData d => Forall is_byte d
  | CallAddInt64 v => - 2 ^ 63 <= v < 2 ^ 63
  | _ => True
  end.

Lemma AddData_size bd data :
  Forall is_byte data -> zlen (sb_script bd) <= MaxScriptSize ->
  zlen (sb_script (AddData bd data)) <= MaxScriptSize.
Proof.
  intros Hb Hs. unfold AddData. destruct (sb_err bd); [done|]. case_if; [done|]. case_if; [done|].
  rewrite addData_encode by (unfold MaxScriptElementSize in *; done || lia). cbn [sb_script sb_append].
  rewrite zlen_app, zlen_encode_push by (unfold MaxScriptElementSize in *; done || lia). lia.
Qed.

Lemma builder_run_size bd c bd' :
  call_ok c -> zlen (sb_script bd) <= MaxScriptSize -> builder_run bd c = Ok bd' ->
  zlen (sb_script bd') <= MaxScriptSize.
Proof.
  intros Hc Hs. destruct c as [o|o|d|v|t|]; simpl.
  - intros [= <-]. unfold AddOp. destruct (sb_err bd); [done|]. case_if; simpl; zlia.
  - intros [= <-]. unfold AddOps. destruct (sb_err bd); [done|]. case_if; simpl; zlia.
  - intros [= <-]. by apply AddData_size.
  - unfold AddInt64. destruct (sb_err bd); [by intros [= <-]|]. case_if; [by injection 1 as <-|].
    do 2 (case_if; [intros [= <-]; simpl; zlia|]). destruct (Bytes v) as [b| |] eqn:Hv; try done.
    simpl. intros [= <-]. apply AddData_size; [|done].
    destruct (decide (- 2 ^ 63 < v < 2 ^ 63)) as [Hr|Hr].
    + destruct (Bytes_spec v Hr) as (b' & Hb' & Hbb & _). rewrite Hb' in Hv. by injection Hv as <-.
    + simpl in Hc. assert (v = - 2 ^ 63) as -> by lia. vm_compute in Hv. done.
  - unfold AddLockTimeNumber, addLockTimeOrSequence. destruct (sb_err bd); [by intros [= <-]|].
    destruct (unpad_size _ _); try done. cbn [bind_res]. intros [= <-]. apply AddData_size; [|done].
    apply Forall_take, (le_put_bytes 8 t).
  - intros [= <-]. done.
Qed.

(** No sequence of calls builds a script larger than the engine accepts. *)
Theorem builder_size_limit cs bd :
  Forall call_ok cs -> builder_runs NewScriptBuilder cs = Ok bd ->
  zlen (sb_script bd) <= MaxScriptSize.
Proof.
  assert (Hgen : forall bd0, zlen (sb_script bd0) <= MaxScriptSize ->
    Forall call_ok cs -> builder_runs bd0 cs = Ok bd -> zlen (sb_script bd) <= MaxScriptSize).
  { induction cs as [|c cs IH]; simpl; intros bd0 Hs Hc Hr; [by injection Hr as <-|].
    apply Forall_cons in Hc as [Hc Hcs]. destruct (builder_run bd0 c) as [bd1| |] eqn:H1; try done.
    simpl in Hr. apply (IH bd1); try done. by apply (builder_run_size bd0 c). }
  by apply Hgen.
Qed.

(** A positive lock time (or sequence) survives the way through the script:
    [AddLockTimeNumber] appends one opcode, and executing it pushes an operand
    that [OP_CHECKLOCKTIMEVERIFY] and [OP_CHECKSEQUENCEVERIFY] read as the same
    number. *)
Theorem AddLockTimeNumber_roundtrip `{C : Crypto} `{IT : MapIteration} bd t :
  sb_err bd = None -> 0 < t < 2 ^ 64 -> zlen (sb_script bd) + 9 <= MaxScriptSize ->
  exists b pop data,
    AddLockTimeNumber bd t = Ok (mk_ScriptBuilder (sb_script bd ++ encode b pop) None) /\
    pop_at b pop /\ operand_uint64 data = Ok t /\
    forall vm, isBranchExecuting vm = true ->
      executeOpcode pop vm = (Ok tt, set_dstack (dstack vm ++ [data]) vm).
Proof.
  intros He Ht Hs. destruct (unpad_le_put t Ht) as (m & Hu & Hm & Hg & H0).
  set (data := take m (le_put 8 t)) in *.
  assert (Hb : Forall is_byte data) by apply Forall_take, le_put_bytes.
  assert (Hl : zlen data <= 8).
  { subst data. unfold zlen. rewrite length_take, length_le_put. lia. }
  assert (Hsz : canonicalDataSize data <= 9).
  { unfold canonicalDataSize, OpPushData1. repeat case_if; lia. }
  exists (fst (push_item data)), (snd (push_item data)), data.
  assert (zlen data <= MaxScriptElementSize) by (unfold MaxScriptElementSize; lia). split_and!.
  - unfold AddLockTimeNumber, addLockTimeOrSequence. rewrite He, Hu. cbn [bind_res]. fold data.
    unfold AddData. rewrite He. do 2 (case_if; [lia|]). rewrite addData_encode by (done || lia).
    unfold sb_append. by rewrite He.
  - apply push_item_at; [done|lia].
  - rewrite operand_uint64_le by done. by rewrite Hg.
  - intros vm Hex. by apply exec_push.
Qed.

(** A lock time of zero makes [AddLockTimeNumber] panic: the loop that drops
    trailing zero bytes runs past the start of the buffer. *)
Theorem AddLockTimeNumber_zero_panics bd :
  sb_err bd = None -> AddLockTimeNumber bd 0 = Panic /\ AddSequenceNumber bd 0 = Panic.
Proof.
  intros He. unfold AddLockTimeNumber, AddSequenceNumber, addLockTimeOrSequence. by rewrite He.
Qed.

(** [AddInt64] pushes the number: executing the opcode it appends leaves the
    encoding [scriptNum.Bytes] gives, for every number in the range the engine
    computes with. *)
Theorem AddInt64_pushes `{C : Crypto} `{IT : MapIteration} bd n :
  sb_err bd = None -> Z.abs n < 2 ^ 31 -> zlen (sb_script bd) + 6 <= MaxScriptSize ->
  exists b pop v,
    AddInt64 bd n = Ok (mk_ScriptBuilder (sb_script bd ++ encode b pop) None) /\
    pop_at b pop /\ Bytes n = Ok v /\ makeScriptNum v defaultScriptNumLen = Ok n /\
    forall vm, isBranchExecuting vm = true ->
      executeOpcode pop vm = (Ok tt, set_dstack (dstack vm ++ [v]) vm).
Proof.
  intros He Hn Hs. destruct (Bytes_spec n ltac:(lia)) as (v & Hv & Hb & Hm & Hnv & _).
  pose proof (Bytes_length n v 4 ltac:(lia) Hv ltac:(lia) Hn) as Hl.
  assert (H0 : v <> [0]) by by intros ->. assert (Hl4 : zlen v < 2 ^ 32) by lia.
  exists (fst (push_item v)), (snd (push_item v)), v. split_and!; try done.
  - rewrite (AddInt64_addData bd n v) by (done || lia). rewrite addData_encode by done.
    unfold sb_append. by rewrite He.
  - by apply push_item_at.
  - rewrite makeScriptNum_correct, Hm, Hnv by done. unfold defaultScriptNumLen. by case_if; [lia|].
  - intros vm Hex. apply exec_push; try done. unfold MaxScriptElementSize. lia.
Qed.

(** * Instances *)

Lemma AddData_pushes_witness :
  sb_script (AddData NewScriptBuilder [7; 8]) = [2; 7; 8] /\
  exists b pop, AddData NewScriptBuilder [7; 8] = mk_ScriptBuilder (encode b pop) None /\
    forall vm, isBranchExecuting vm = true ->
      @executeOpcode test_crypto test_iteration pop vm = (Ok tt, set_dstack (dstack vm ++ [[7; 8]]) vm).
Proof.
  split; [reflexivity|].
  destruct (@AddData_pushes test_crypto test_iteration NewScriptBuilder [7; 8])
    as (b & pop & H1 & _ & _ & H2).
  - reflexivity.
  - repeat constructor; lia.
  - vm_compute; discriminate.
  - discriminate.
  - vm_compute; discriminate.
  - exists b, pop. split; [exact H1|exact H2].
Defined.

Lemma builder_size_limit_witness :
  exists bd, builder_runs NewScriptBuilder
      [CallAddOp OpDup; CallAddData [1; 2; 3]; CallAddInt64 1000; CallAddLockTimeNumber 70000] = Ok bd /\
    zlen (sb_script bd) <= MaxScriptSize.
Proof.
  eexists. split; [reflexivity|].
  apply (builder_size_limit
    [CallAddOp OpDup; CallAddData [1; 2; 3]; CallAddInt64 1000; CallAddLockTimeNumber 70000]);
    [|reflexivity].
  repeat constructor; simpl; try lia; vm_compute; congruence.
Defined.

Lemma AddLockTimeNumber_roundtrip_witness :
  exists b pop data,
    AddLockTimeNumber NewScriptBuilder 70000 = Ok (mk_ScriptBuilder (encode b pop) None) /\
    operand_uint64 data = Ok 70000.
Proof.
  destruct (@AddLockTimeNumber_roundtrip test_crypto test_iteration NewScriptBuilder 70000)
    as (b & pop & data & H1 & _ & H2 & _).
  - reflexivity.
  - lia.
  - vm_compute; discriminate.
  - exists b, pop, data. split; [exact H1|exact H2].
Defined.

Lemma AddLockTimeNumber_zero_panics_witness : AddLockTimeNumber NewScriptBuilder 0 = Panic.
Proof. exact (proj1 (AddLockTimeNumber_zero_panics NewScriptBuilder eq_refl)). Defined.

Lemma AddInt64_pushes_witness :
  exists b pop v,
    AddInt64 NewScriptBuilder (-1000) = Ok (mk_ScriptBuilder (encode b pop) None) /\
    Bytes (-1000) = Ok v /\ makeScriptNum v defaultScriptNumLen = Ok (-1000).
Proof.
  destruct (@AddInt64_pushes test_crypto test_iteration NewScriptBuilder (-1000))
    as (b & pop & v & H1 & _ & H2 & H3 & _).
  - reflexivity.
  - reflexivity.
  - vm_compute; discriminate.
  - exists b, pop, v. split; [exact H1|]. split; [exact H2|exact H3].
Defined.
