(* ===== verification/Bech32.v ===== *)
(** The checksummed text encoding of addresses:
    [src/util/bech32/bech32.go].  A Go string is the list of its bytes. *)

From S2P Require Import Prelude.

Definition charset : bytes := string_bytes "qpzry9x8gf2tvdw0s3jn54khce6mua7l".
Definition checksumLength : Z := 8.

Record conversionType : Set := mk_conversionType {
  fromBits : Z;
  toBits : Z;
  pad : bool
}.

Definition fiveToEightBits : conversionType := mk_conversionType 5 8 false.
Definition eightToFiveBits : conversionType := mk_conversionType 8 5 true.

Definition generator : list Z :=
  [0x98f2bc8e61; 0x79b76d99e2; 0xf33e5fb3c4; 0xae2eabe2a8; 0x1e4f43e470].

(** The errors [decode] returns, one per message. *)
Inductive decodeError : Set :=
| InvalidLength
| InvalidCharacter
| MixedCase
| InvalidColon
| InvalidBase32
| ChecksumFailed.

(** * Regrouping bits *)

(** [regrouped], [nextByte] and [filledBits] of [convertBits]. *)
Record regroup : Set := mk_regroup {
  regrouped : bytes;
  nextByte : Z;
  filledBits : Z
}.

(** [for remainingFromBits > 0 { ... }]; [None] when [fuel] rounds are not
    enough.  Each round takes at least one bit, see [convert_byte_spec]. *)
Fixpoint convert_byte (ct : conversionType) (fuel : nat) (b remainingFromBits : Z)
    (st : regroup) : option regroup :=
  if remainingFromBits >? 0 then
    match fuel with
    | O => None
    | S fuel' =>
        let remainingToBits := toBits ct - filledBits st in
        let toExtract :=
          if remainingToBits <? remainingFromBits then remainingToBits
          else remainingFromBits in
        let nextByte := Z.lor (uint8 (Z.shiftl (nextByte st) toExtract))
                              (Z.shiftr b (8 - toExtract)) in
        let b := uint8 (Z.shiftl b toExtract) in
        let filledBits := filledBits st + toExtract in
        convert_byte ct fuel' b (remainingFromBits - toExtract)
          (if filledBits =? toBits ct
           then mk_regroup (regrouped st ++ [nextByte]) 0 0
           else mk_regroup (regrouped st) nextByte filledBits)
    end
  else Some st.

Fixpoint convert_loop (ct : conversionType) (data : bytes) (st : regroup) : option regroup :=
  match data with
  | [] => Some st
  | b :: data' =>
      let b := uint8 (Z.shiftl b (8 - fromBits ct)) in
      st' ← convert_byte ct (Z.to_nat (fromBits ct)) b (fromBits ct) st;
      convert_loop ct data' st'
  end.

Definition convertBits (data : bytes) (ct : conversionType) : bytes :=
  let st := default (mk_regroup [] 0 0) (convert_loop ct data (mk_regroup [] 0 0)) in
  if pad ct && (filledBits st >? 0) then
    regrouped st ++ [uint8 (Z.shiftl (nextByte st) (toBits ct - filledBits st))]
  else regrouped st.

(** * The checksum *)

(** [for i := 0; i < len(generator); i++ { ... }] from [i]. *)
Fixpoint polyMod_reduce (topBits : Z) (gens : list Z) (i : Z) (checksum : Z) : Z :=
  match gens with
  | [] => checksum
  | g :: gens' =>
      polyMod_reduce topBits gens' (i + 1)
        (if Z.land (Z.shiftr topBits i) 1 =? 1 then Z.lxor checksum g else checksum)
  end.

Definition polyMod_step (checksum value : Z) : Z :=
  let topBits := Z.shiftr checksum 35 in
  polyMod_reduce topBits generator 0
    (Z.lxor (Z.shiftl (Z.land checksum 0x07ffffffff) 5) value).

Definition polyMod (values : list Z) : Z := Z.lxor (fold_left polyMod_step values 1) 1.

Definition prefixToUint5Array (prefix : bytes) : list Z := map (fun char => Z.land char 31) prefix.

Definition ints (payload : bytes) : list Z := payload.

Definition calculateChecksum (prefix payload : bytes) : bytes :=
  let templateZeroes := [0; 0; 0; 0; 0; 0; 0; 0] in
  let concat := prefixToUint5Array prefix ++ [0] ++ ints payload ++ templateZeroes in
  let polyModResult := polyMod concat in
  map (fun i => uint8 (Z.land (Z.shiftr polyModResult (5 * (checksumLength - 1 - i))) 31))
    (seqZ 0 checksumLength).

Definition verifyChecksum (prefix payload : bytes) : bool :=
  polyMod (prefixToUint5Array prefix ++ [0] ++ ints payload) =? 0.

(** * Characters *)

(** [strings.IndexByte] *)
Definition IndexByte (s : bytes) (c : Z) : Z :=
  match list_find (fun x => x = c) s with
  | Some (i, _) => Z.of_nat i
  | None => -1
  end.

(** [strings.LastIndexByte] *)
Definition LastIndexByte (s : bytes) (c : Z) : Z :=
  match list_find (fun x => x = c) (reverse s) with
  | Some (i, _) => zlen s - 1 - Z.of_nat i
  | None => -1
  end.

(** [strings.ToLower] and [strings.ToUpper] on ASCII. *)
Definition ToLower (s : bytes) : bytes :=
  map (fun c => if (65 <=? c) && (c <=? 90) then c + 32 else c) s.

Definition ToUpper (s : bytes) : bytes :=
  map (fun c => if (97 <=? c) && (c <=? 122) then c - 32 else c) s.

(** [None] is the error. *)
Fixpoint decodeFromBase32 (base32String : bytes) : option bytes :=
  match base32String with
  | [] => Some []
  | c :: s =>
      let index := IndexByte charset c in
      if index <? 0 then None
      else decoded ← decodeFromBase32 s; Some (uint8 index :: decoded)
  end.

(** The empty string when a value is out of range. *)
Definition encodeToBase32 (data : bytes) : bytes :=
  match mapM (fun b => lookupZ charset b) data with
  | Some result => result
  | None => []
  end.

(** * Encoding and decoding *)

Definition encode (prefix data : bytes) : bytes :=
  let checksum := calculateChecksum prefix data in
  let combined := data ++ checksum in
  prefix ++ string_bytes ":" ++ encodeToBase32 combined.

Definition decode (encoded : bytes) : res decodeError (bytes * bytes) :=
  if zlen encoded <? checksumLength + 2 then Err InvalidLength
  else if existsb (fun c => (c <? 33) || (c >? 126)) encoded then Err InvalidCharacter
  else
    let lower := ToLower encoded in
    let upper := ToUpper encoded in
    if negb (bytes_eqb encoded lower) && negb (bytes_eqb encoded upper) then Err MixedCase
    else
      let encoded := lower in
      let colonIndex := LastIndexByte encoded 58 in
      if (colonIndex <? 1) || (colonIndex + checksumLength + 1 >? zlen encoded)
      then Err InvalidColon
      else
        let prefix := sliceZ encoded 0 colonIndex in
        let data := sliceZ encoded (colonIndex + 1) (zlen encoded) in
        match decodeFromBase32 data with
        | None => Err InvalidBase32
        | Some decoded =>
            if negb (verifyChecksum prefix decoded) then Err ChecksumFailed
            else let? payload := slice_res decoded 0 (zlen decoded - checksumLength) in
                 Ok (prefix, payload)
        end.

Definition Encode (prefix payload : bytes) (version : Z) : bytes :=
  let data := version :: payload in
  let converted := convertBits data eightToFiveBits in
  encode prefix converted.

(** [Panic]: [converted[0]] of an empty slice. *)
Definition Decode (encoded : bytes) : res decodeError (bytes * bytes * Z) :=
  let? (prefix, decoded) := decode encoded in
  let converted := convertBits decoded fiveToEightBits in
  let? version := index_res converted 0 in
  let? payload := slice_res converted 1 (zlen converted) in
  Ok (prefix, payload, version).

(** * Bit streams *)

(** The [w] low bits of [x], most significant first. *)
Fixpoint bits (w : nat) (x : Z) : list bool :=
  match w with
  | O => []
  | S w' => Z.testbit x (Z.of_nat w') :: bits w' x
  end.

(** The bits of a list of [w]-bit values. *)
Definition stream (w : Z) (l : bytes) : list bool := concat (map (bits (Z.to_nat w)) l).

Definition below (n : Z) (x : Z) : Prop := 0 <= x < n.

Fixpoint bits_val (l : list bool) : Z :=
  match l with
  | [] => 0
  | b :: l' => Z.b2z b * 2 ^ zlen l' + bits_val l'
  end.

Lemma bits_length w x : length (bits w x) = w.
Proof. induction w; simpl; auto. Qed.

Lemma bits_val_bits w x : bits_val (bits w x) = x mod 2 ^ Z.of_nat w.
Proof.
  induction w as [|w IH]; [by rewrite Z.mod_1_r|]. cbn [bits bits_val].
  rewrite IH. unfold zlen. rewrite bits_length, Z.testbit_spec' by lia.
  rewrite Nat2Z.inj_succ, Z.pow_succ_r, (Z.mul_comm 2), Z.rem_mul_r by lia. lia.
Qed.

Lemma bits_inj w x y :
  below (2 ^ Z.of_nat w) x -> below (2 ^ Z.of_nat w) y -> bits w x = bits w y -> x = y.
Proof.
  intros Hx Hy H. apply (f_equal bits_val) in H. rewrite !bits_val_bits in H.
  by rewrite !Z.mod_small in H.
Qed.

Lemma stream_length w l : 0 <= w -> zlen (stream w l) = w * zlen l.
Proof.
  intros Hw. unfold stream. induction l as [|x l IH]; cbn [map concat].
  { change (zlen (@nil bool)) with 0. change (zlen (@nil Z)) with 0. lia. }
  rewrite zlen_app, IH, zlen_cons. unfold zlen at 1. rewrite bits_length. lia.
Qed.

Lemma stream_app w l1 l2 : stream w (l1 ++ l2) = stream w l1 ++ stream w l2.
Proof. unfold stream. by rewrite map_app, concat_app. Qed.

Lemma stream_inj w l1 l2 :
  0 < w -> Forall (below (2 ^ w)) l1 -> Forall (below (2 ^ w)) l2 ->
  stream w l1 = stream w l2 -> l1 = l2.
Proof.
  intros Hw H1. revert l2. induction H1 as [|x l1 Hx H1 IH]; intros [|y l2] H2 H; [done|..].
  - apply (f_equal zlen) in H. rewrite !stream_length in H by lia. zlia.
  - apply (f_equal zlen) in H. rewrite !stream_length in H by lia. zlia.
  - apply Forall_cons in H2 as [Hy H2]. unfold stream in *. cbn [map concat] in H.
    apply app_inj_1 in H as [Hb Hs]; [|by rewrite !bits_length].
    f_equal; [|by apply IH]. eapply bits_inj; [..|exact Hb]; by rewrite Z2Nat.id by lia.
Qed.

(** * One value of the input *)

Definition prepend (acc : bytes) (st : regroup) : regroup :=
  mk_regroup (acc ++ regrouped st) (nextByte st) (filledBits st).

Lemma convert_byte_acc ct fuel b r acc st :
  convert_byte ct fuel b r (prepend acc st) = prepend acc <$> convert_byte ct fuel b r st.
Proof.
  revert b r st. induction fuel as [|fuel IH]; intros b r st; cbn; [by case_if|].
  case_if; [|done]. rewrite <- IH. f_equal. unfold prepend.
  repeat case_if; try done; cbn; by rewrite app_assoc.
Qed.

(** A partly filled group of a state. *)
Definition partial_ok (ct : conversionType) (st : regroup) : Prop :=
  0 <= filledBits st < toBits ct /\ below (2 ^ filledBits st) (nextByte st) /\
  Forall (below (2 ^ toBits ct)) (regrouped st).

#[global] Instance below_dec n x : Decision (below n x).
Proof. unfold below. apply _. Defined.

#[global] Instance partial_ok_dec ct st : Decision (partial_ok ct st).
Proof. unfold partial_ok. apply _. Defined.

Definition state_bits (ct : conversionType) (st : regroup) : list bool :=
  stream (toBits ct) (regrouped st) ++ bits (Z.to_nat (filledBits st)) (nextByte st).

(** One value from a partly filled group, by evaluation over all of them. *)
Definition convert_byte_ok (ct : conversionType) (f next b : Z) : bool :=
  match convert_byte ct (Z.to_nat (fromBits ct)) (uint8 (Z.shiftl b (8 - fromBits ct)))
          (fromBits ct) (mk_regroup [] next f) with
  | Some st =>
      bool_decide (partial_ok ct st) &&
      bool_decide (state_bits ct st = bits (Z.to_nat f) next ++ bits (Z.to_nat (fromBits ct)) b)
  | None => false
  end.

Definition conversion_ok (ct : conversionType) : bool :=
  forallb (fun f => forallb (fun next => forallb (fun b => convert_byte_ok ct f next b)
    (seqZ 0 (2 ^ fromBits ct))) (seqZ 0 (2 ^ f))) (seqZ 0 (toBits ct)).

Lemma conversion_ok_eight : conversion_ok eightToFiveBits = true.
Proof. by vm_compute. Qed.

Lemma conversion_ok_five : conversion_ok fiveToEightBits = true.
Proof. by vm_compute. Qed.

Lemma forallb_seqZ P n x : forallb P (seqZ 0 n) = true -> below n x -> P x = true.
Proof.
  rewrite forallb_forall. intros H Hx. apply H, list_elem_of_In, elem_of_seqZ. unfold below in Hx. lia.
Qed.

Lemma convert_byte_spec ct b st :
  conversion_ok ct = true -> below (2 ^ fromBits ct) b -> partial_ok ct st ->
  exists st',
    convert_byte ct (Z.to_nat (fromBits ct)) (uint8 (Z.shiftl b (8 - fromBits ct)))
      (fromBits ct) st = Some st' /\
    partial_ok ct st' /\
    state_bits ct st' = state_bits ct st ++ bits (Z.to_nat (fromBits ct)) b.
Proof.
  intros Hct Hb (Hf & Hn & Hr).
  pose proof (forallb_seqZ _ _ _ Hct Hf) as H. cbv beta in H.
  pose proof (forallb_seqZ _ _ _ (forallb_seqZ _ _ _ H Hn) Hb) as Hok.
  unfold convert_byte_ok in Hok. destruct (convert_byte _ _ _ _ _) as [st'|] eqn:Hc; [|done].
  apply andb_true_iff in Hok as [Hp%bool_decide_eq_true Hs%bool_decide_eq_true].
  exists (prepend (regrouped st) st'). split; [|split].
  - replace st with (prepend (regrouped st) (mk_regroup [] (nextByte st) (filledBits st))) at 1
      by (destruct st; unfold prepend; cbn; by rewrite app_nil_r).
    by rewrite convert_byte_acc, Hc.
  - destruct Hp as (Hp1 & Hp2 & Hp3). refine (conj Hp1 (conj Hp2 _)). by apply Forall_app.
  - unfold state_bits, prepend in *. cbn [regrouped nextByte filledBits].
    rewrite stream_app, <- !app_assoc, Hs. done.
Qed.

Lemma convert_loop_spec ct data st :
  conversion_ok ct = true -> Forall (below (2 ^ fromBits ct)) data -> partial_ok ct st ->
  exists st', convert_loop ct data st = Some st' /\ partial_ok ct st' /\
    state_bits ct st' = state_bits ct st ++ stream (fromBits ct) data.
Proof.
  intros Hct Hd. revert st. induction Hd as [|b data Hb Hd IH]; intros st Hst.
  { exists st. unfold stream. cbn. by rewrite app_nil_r. }
  destruct (convert_byte_spec ct b st Hct Hb Hst) as (st1 & H1 & Hp1 & Hs1).
  destruct (IH st1 Hp1) as (st2 & H2 & Hp2 & Hs2).
  exists st2. cbn [convert_loop]. rewrite H1. cbn [mbind option_bind]. split_and!; [done..|].
  rewrite Hs2, Hs1, <- app_assoc. done.
Qed.

Definition padding_ok : bool :=
  forallb (fun f => forallb (fun n =>
    bool_decide (below 32 (uint8 (Z.shiftl n (5 - f))) /\
      bits 5 (uint8 (Z.shiftl n (5 - f))) = bits (Z.to_nat f) n ++ replicate (Z.to_nat (5 - f)) false))
    (seqZ 0 (2 ^ f))) (seqZ 0 5).

Lemma convertBits_8_5 data :
  Forall is_byte data ->
  Forall (below 32) (convertBits data eightToFiveBits) /\
  exists k, (k < 5)%nat /\
    stream 5 (convertBits data eightToFiveBits) = stream 8 data ++ replicate k false.
Proof.
  intros Hd. destruct (convert_loop_spec eightToFiveBits data (mk_regroup [] 0 0)
    conversion_ok_eight Hd) as (st & Hl & (Hf & Hn & Hr) & Hs); [by split_and!|].
  unfold convertBits. rewrite Hl. cbn [default from_option id]. cbn [pad eightToFiveBits andb].
  unfold state_bits in Hs. cbn [toBits fromBits eightToFiveBits regrouped nextByte filledBits] in *.
  change (2 ^ 5) with 32 in Hr. change (bits (Z.to_nat 0) 0) with (@nil bool) in Hs.
  change (stream 5 []) with (@nil bool) in Hs. cbn [app] in Hs.
  destruct (Z.gtb_spec (filledBits st) 0).
  - assert (Hpad : padding_ok = true) by by vm_compute.
    pose proof (forallb_seqZ _ _ _ (forallb_seqZ _ _ _ Hpad Hf) Hn) as H5. cbv beta in H5.
    apply bool_decide_eq_true in H5 as [Hlt H5]. split; [by apply Forall_snoc|].
    exists (Z.to_nat (5 - filledBits st)). split; [lia|].
    rewrite stream_app. unfold stream at 2. cbn [map concat]. change (Z.to_nat 5) with 5%nat.
    by rewrite app_nil_r, H5, app_assoc, Hs.
  - assert (filledBits st = 0) as Hz by lia. rewrite Hz in Hs. cbn [bits Z.to_nat] in Hs.
    split; [done|]. exists 0%nat. split; [lia|]. cbn [replicate]. rewrite !app_nil_r in *. done.
Qed.

Lemma convertBits_5_8 data :
  Forall (below 32) data ->
  Forall is_byte (convertBits data fiveToEightBits) /\
  exists rest, zlen rest < 8 /\
    stream 5 data = stream 8 (convertBits data fiveToEightBits) ++ rest.
Proof.
  intros Hd. destruct (convert_loop_spec fiveToEightBits data (mk_regroup [] 0 0)
    conversion_ok_five Hd) as (st & Hl & (Hf & Hn & Hr) & Hs); [by split_and!|].
  unfold convertBits. rewrite Hl. cbn [default from_option id pad fiveToEightBits andb].
  split; [exact Hr|]. exists (bits (Z.to_nat (filledBits st)) (nextByte st)).
  cbn [toBits fiveToEightBits] in Hf. split; [unfold zlen; rewrite bits_length; lia|].
  symmetry. exact Hs.
Qed.

(** The number of bytes that whole groups of five bits give. *)
Lemma convertBits_5_8_length data :
  Forall (below 32) data -> zlen (convertBits data fiveToEightBits) = 5 * zlen data / 8.
Proof.
  intros Hd. destruct (convertBits_5_8 data Hd) as (_ & rest & Hr & H).
  apply (f_equal zlen) in H. rewrite zlen_app, !stream_length in H by lia.
  apply Z.div_unique with (zlen rest); [|lia]. left. zlen_facts. lia.
Qed.

Lemma convertBits_roundtrip data :
  Forall is_byte data ->
  convertBits (convertBits data eightToFiveBits) fiveToEightBits = data.
Proof.
  intros Hd. destruct (convertBits_8_5 data Hd) as (H32 & k & Hk & H5).
  destruct (convertBits_5_8 _ H32) as (H8 & rest & Hr & H). rewrite H5 in H.
  pose proof (f_equal zlen H) as Hl. rewrite !zlen_app, !stream_length in Hl by lia.
  assert (zlen (replicate k false) = Z.of_nat k) as Hz by (unfold zlen; by rewrite length_replicate).
  apply app_inj_1 in H as [H _].
  - symmetry. by apply (stream_inj 8).
  - apply Nat2Z.inj. change (zlen (stream 8 data) =
      zlen (stream 8 (convertBits (convertBits data eightToFiveBits) fiveToEightBits))).
    rewrite !stream_length by lia. zlen_facts. lia.
Qed.

(** * The checksum is linear *)

Ltac lxor_bits :=
  apply Z.bits_inj'; intros ? ?; rewrite ?Z.lxor_spec, ?Z.bits_0;
  repeat match goal with |- context [Z.testbit ?x ?i] => destruct (Z.testbit x i) end; done.

Lemma lxor_below n a b : 0 <= n -> below (2 ^ n) a -> below (2 ^ n) b -> below (2 ^ n) (Z.lxor a b).
Proof.
  intros Hn [Ha1 Ha2] [Hb1 Hb2]. assert (0 <= Z.lxor a b) by (apply Z.lxor_nonneg; lia).
  split; [done|]. destruct (Z.eq_dec (Z.lxor a b) 0) as [->|]; [lia|].
  assert (Hlog : forall x, 0 <= x < 2 ^ n -> x = 0 \/ Z.log2 x < n).
  { intros x Hx. destruct (Z.eq_dec x 0); [by left|right]. apply Z.log2_lt_pow2; lia. }
  assert (0 < n).
  { destruct (Z.eq_dec n 0) as [->|]; [|lia]. change (2 ^ 0) with 1 in *.
    assert (a = 0) by lia. assert (b = 0) by lia. by subst. }
  apply Z.log2_lt_pow2; [lia|]. pose proof (Z.log2_lxor a b ltac:(lia) ltac:(lia)).
  destruct (Hlog a) as [->|], (Hlog b) as [->|]; try lia; change (Z.log2 0) with 0 in *; lia.
Qed.

Lemma land_1_eqb t i : 0 <= i -> (Z.land (Z.shiftr t i) 1 =? 1) = Z.testbit t i.
Proof.
  intros Hi. change 1 with (Z.ones 1) at 1. rewrite Z.land_ones by lia. change (2 ^ 1) with 2.
  rewrite <- Z.bit0_mod, Z.shiftr_spec, Z.add_0_l by lia. by destruct (Z.testbit t i).
Qed.

Lemma polyMod_reduce_lxor t u gens i c d :
  0 <= i ->
  polyMod_reduce (Z.lxor t u) gens i (Z.lxor c d) =
  Z.lxor (polyMod_reduce t gens i c) (polyMod_reduce u gens i d).
Proof.
  revert i c d. induction gens as [|g gens IH]; intros i c d Hi; [done|]. cbn [polyMod_reduce].
  rewrite !land_1_eqb, Z.lxor_spec by done.
  destruct (Z.testbit t i), (Z.testbit u i); cbn [xorb]; rewrite <- IH by lia; f_equal; lxor_bits.
Qed.

Lemma polyMod_step_lxor c d v w :
  polyMod_step (Z.lxor c d) (Z.lxor v w) = Z.lxor (polyMod_step c v) (polyMod_step d w).
Proof.
  unfold polyMod_step. rewrite Z.shiftr_lxor.
  rewrite <- polyMod_reduce_lxor by lia. f_equal.
  rewrite (Z.land_comm _ 0x07ffffffff), (Z.land_comm c), (Z.land_comm d).
  assert (Hdist : Z.land 0x07ffffffff (Z.lxor c d) =
    Z.lxor (Z.land 0x07ffffffff c) (Z.land 0x07ffffffff d)).
  { apply Z.bits_inj'. intros i Hi. rewrite Z.land_spec, !Z.lxor_spec, !Z.land_spec.
    by destruct (Z.testbit _ i), (Z.testbit c i), (Z.testbit d i). }
  rewrite Hdist, Z.shiftl_lxor. lxor_bits.
Qed.

Definition xor_all (vs ws : list Z) : list Z := zip_with Z.lxor vs ws.

Lemma polyMod_fold_lxor vs ws c d :
  length vs = length ws ->
  fold_left polyMod_step (xor_all vs ws) (Z.lxor c d) =
  Z.lxor (fold_left polyMod_step vs c) (fold_left polyMod_step ws d).
Proof.
  revert ws c d. induction vs as [|v vs IH]; intros [|w ws] c d Hl; try done.
  unfold xor_all. cbn [zip_with fold_left]. rewrite polyMod_step_lxor. apply IH. by injection Hl.
Qed.

(** * The checksum stays within forty bits *)

Lemma shiftl_35_below c : below (2 ^ 40) (Z.shiftl (Z.land c 0x07ffffffff) 5).
Proof.
  change 0x07ffffffff with (Z.ones 35). rewrite Z.land_ones, Z.shiftl_mul_pow2 by lia.
  pose proof (Z.mod_pos_bound c (2 ^ 35)). unfold below. lia.
Qed.

Lemma polyMod_reduce_below t gens i c :
  Forall (below (2 ^ 40)) gens -> below (2 ^ 40) c -> below (2 ^ 40) (polyMod_reduce t gens i c).
Proof.
  intros Hg. revert i c. induction Hg as [|g gens Hg _ IH]; intros i c Hc; [done|].
  cbn [polyMod_reduce]. apply IH. case_if; [by apply lxor_below|done].
Qed.

Lemma polyMod_step_below c v : below 32 v -> below (2 ^ 40) (polyMod_step c v).
Proof.
  intros Hv. apply polyMod_reduce_below.
  - repeat constructor; by vm_compute.
  - apply lxor_below; [done|apply shiftl_35_below|]. unfold below in *. lia.
Qed.

Lemma polyMod_fold_below vs c :
  Forall (below 32) vs -> below (2 ^ 40) c -> below (2 ^ 40) (fold_left polyMod_step vs c).
Proof.
  intros Hv. revert c. induction Hv as [|v vs Hv _ IH]; intros c Hc; [done|].
  cbn [fold_left]. by apply IH, polyMod_step_below.
Qed.

(** The generator's low bits give back the bits shifted out, so no shift loses
    information. *)
Lemma reduce_low_bits t : below 32 t -> Z.land (polyMod_reduce t generator 0 0) 31 = t.
Proof.
  intros Ht. assert (H : forallb (fun t => Z.land (polyMod_reduce t generator 0 0) 31 =? t)
    (seqZ 0 32) = true) by by vm_compute.
  exact (proj1 (Z.eqb_eq _ _) (forallb_seqZ _ 32 t H Ht)).
Qed.

Lemma polyMod_step_nonzero c : below (2 ^ 40) c -> polyMod_step c 0 = 0 -> c = 0.
Proof.
  intros [Hc0 Hc] Hz. unfold polyMod_step in Hz. rewrite Z.lxor_0_r in Hz.
  set (x := Z.shiftl (Z.land c 0x07ffffffff) 5) in *. set (t := Z.shiftr c 35) in *.
  assert (Ht : below 32 t).
  { subst t. unfold below. rewrite Z.shiftr_div_pow2 by lia.
    split; [apply Z.div_pos; lia|apply Z.div_lt_upper_bound; lia]. }
  assert (Hsplit : polyMod_reduce t generator 0 x = Z.lxor x (polyMod_reduce t generator 0 0)).
  { pose proof (polyMod_reduce_lxor 0 t generator 0 x 0 ltac:(lia)) as H.
    by rewrite Z.lxor_0_l, Z.lxor_0_r in H. }
  rewrite Hsplit in Hz. apply Z.lxor_eq in Hz.
  assert (Hx : Z.land x 31 = 0).
  { subst x. change 31 with (Z.ones 5). rewrite Z.land_ones, Z.shiftl_mul_pow2 by lia.
    apply Z.mod_mul. lia. }
  rewrite Hz, reduce_low_bits in Hx by done.
  assert (Hx0 : x = 0) by (rewrite Hz, Hx; by vm_compute).
  assert (Hlt : c < 2 ^ 35).
  { subst t. rewrite Z.shiftr_div_pow2 in Hx by lia. apply Z.div_small_iff in Hx; lia. }
  subst x. change 0x07ffffffff with (Z.ones 35) in Hx0.
  rewrite Z.land_ones, Z.mod_small, Z.shiftl_mul_pow2 in Hx0 by lia. lia.
Qed.

Lemma polyMod_zeros_nonzero n c :
  below (2 ^ 40) c -> fold_left polyMod_step (replicate n 0) c = 0 -> c = 0.
Proof.
  revert c. induction n as [|n IH]; intros c Hc H; [done|]. cbn [replicate fold_left] in H.
  apply polyMod_step_nonzero, IH; [done|by apply polyMod_step_below|done].
Qed.

Lemma polyMod_zeros n : fold_left polyMod_step (replicate n 0) 0 = 0.
Proof. induction n as [|n IH]; [done|]. cbn [replicate fold_left]. exact IH. Qed.

(** * Short messages are numbers in base 32 *)

Definition horner (ds : list Z) (c : Z) : Z := fold_left (fun a d => 32 * a + d) ds c.

Lemma polyMod_step_small c v : below (2 ^ 35) c -> below 32 v -> polyMod_step c v = 32 * c + v.
Proof.
  intros Hc Hv. unfold polyMod_step, below in *.
  rewrite Z.shiftr_div_pow2, Z.div_small by lia.
  change (polyMod_reduce 0 generator 0 ?x) with x.
  change 0x07ffffffff with (Z.ones 35). rewrite Z.land_ones, Z.mod_small by lia.
  assert (Hand : Z.land (Z.shiftl c 5) v = 0).
  { apply Z.bits_inj'. intros i Hi. rewrite Z.land_spec, Z.bits_0. destruct (Z.ltb_spec i 5).
    - by rewrite Z.shiftl_spec_low.
    - rewrite <- (Z.mod_small v (2 ^ 5)) by lia. rewrite Z.mod_pow2_bits_high by lia.
      apply andb_false_r. }
  rewrite <- Z.add_nocarry_lxor, Z.shiftl_mul_pow2 by (done || lia). lia.
Qed.

Lemma polyMod_fold_small ds c k :
  Forall (below 32) ds -> 0 <= k -> below (32 ^ k) c -> k + zlen ds <= 8 ->
  fold_left polyMod_step ds c = horner ds c.
Proof.
  intros Hd. revert c k. induction Hd as [|d ds Hd _ IH]; intros c k Hk Hc Hl; [done|].
  unfold horner. cbn [fold_left]. rewrite zlen_cons in Hl. zlen_facts.
  rewrite polyMod_step_small; [|split; [apply Hc|]|done].
  - apply (IH _ (k + 1)); [lia| |lia]. unfold below in *. rewrite Z.pow_add_r by lia.
    change (32 ^ 1) with 32. lia.
  - apply Z.lt_le_trans with (32 ^ k); [apply Hc|]. change (2 ^ 35) with (32 ^ 7).
    apply Z.pow_le_mono_r; lia.
Qed.

Lemma horner_zero ds c :
  Forall (below 32) ds -> 0 <= c -> horner ds c = 0 -> c = 0 /\ ds = replicate (length ds) 0.
Proof.
  intros Hd. revert c. induction Hd as [|d ds Hd _ IH]; intros c Hc H; [done|].
  unfold below in Hd. destruct (IH (32 * c + d)) as [H0 Hds]; [lia|exact H|].
  split; [lia|]. cbn. f_equal; [lia|exact Hds].
Qed.

(** * Checking what was calculated *)

Lemma land_31 x : Z.land x 31 = x mod 32.
Proof. apply (Z.land_ones x 5). lia. Qed.

Lemma digit_eq p n : 0 <= n -> uint8 (Z.land (Z.shiftr p n) 31) = (p / 2 ^ n) mod 32.
Proof.
  intros Hn. rewrite land_31, Z.shiftr_div_pow2 by done. apply uint8_id.
  pose proof (Z.mod_pos_bound (p / 2 ^ n) 32). unfold is_byte. lia.
Qed.

Definition digits (p : Z) : list Z :=
  map (fun i => uint8 (Z.land (Z.shiftr p (5 * (checksumLength - 1 - i))) 31))
    (seqZ 0 checksumLength).

Lemma digits_below p : Forall (below 32) (digits p).
Proof.
  unfold digits. apply Forall_map, Forall_forall. intros i Hi%elem_of_seqZ.
  cbn [compose]. rewrite digit_eq by (unfold checksumLength in *; lia).
  apply Z.mod_pos_bound. lia.
Qed.

Lemma horner_digits p : below (2 ^ 40) p -> horner (digits p) 0 = p.
Proof.
  intros [Hp0 Hp]. unfold digits, horner. change (seqZ 0 checksumLength) with [0;1;2;3;4;5;6;7].
  cbn [map fold_left]. unfold checksumLength. rewrite !digit_eq by lia.
  set (q k := p / 2 ^ (5 * k)).
  assert (Hq : forall k k', k' = k + 1 -> 0 <= k -> q k = 32 * q k' + q k mod 32).
  { intros k k' -> Hk. subst q. cbv beta. replace (5 * (k + 1)) with (5 * k + 5) by lia.
    rewrite Z.pow_add_r, <- Z.div_div by lia. apply Z.div_mod. lia. }
  assert (q 0 = p) by apply Z.div_1_r. assert (q 8 = 0) by (apply Z.div_small; lia).
  change (32 * (32 * (32 * (32 * (32 * (32 * (32 * (32 * 0 + q 7 mod 32) + q 6 mod 32) +
    q 5 mod 32) + q 4 mod 32) + q 3 mod 32) + q 2 mod 32) + q 1 mod 32) + q 0 mod 32 = p).
  pose proof (Hq 0 1 eq_refl ltac:(lia)). pose proof (Hq 1 2 eq_refl ltac:(lia)). pose proof (Hq 2 3 eq_refl ltac:(lia)).
  pose proof (Hq 3 4 eq_refl ltac:(lia)). pose proof (Hq 4 5 eq_refl ltac:(lia)). pose proof (Hq 5 6 eq_refl ltac:(lia)).
  pose proof (Hq 6 7 eq_refl ltac:(lia)). pose proof (Hq 7 8 eq_refl ltac:(lia)). clear Hq. clearbody q.
  lia.
Qed.

Lemma xor_all_zeros vs : xor_all (replicate (length vs) 0) vs = vs.
Proof. unfold xor_all. induction vs as [|v vs IH]; [done|]. cbn. f_equal. exact IH. Qed.

Lemma prefix_below prefix : Forall (below 32) (prefixToUint5Array prefix).
Proof.
  unfold prefixToUint5Array. apply Forall_map, Forall_forall. intros c _. cbn [compose].
  rewrite land_31. apply Z.mod_pos_bound. lia.
Qed.

Lemma checksum_verifies prefix payload :
  Forall (below 32) payload ->
  verifyChecksum prefix (payload ++ calculateChecksum prefix payload) = true.
Proof.
  intros Hp. unfold verifyChecksum, calculateChecksum, ints. cbv zeta.
  set (v := prefixToUint5Array prefix ++ [0] ++ payload).
  assert (Hv : Forall (below 32) v).
  { apply Forall_app. split; [apply prefix_below|by constructor]. }
  change [0; 0; 0; 0; 0; 0; 0; 0] with (replicate 8 0). rewrite !app_assoc.
  rewrite <- (app_assoc _ [0]). fold v.
  set (p := polyMod (v ++ replicate 8 0)). fold (digits p).
  assert (Hs : below (2 ^ 40) (fold_left polyMod_step v 1)) by by apply polyMod_fold_below.
  set (s := fold_left polyMod_step v 1) in *.
  assert (Hpe : p = Z.lxor (fold_left polyMod_step (replicate 8 0) s) 1).
  { subst p. unfold polyMod. by rewrite fold_left_app. }
  assert (Hpb : below (2 ^ 40) p).
  { rewrite Hpe. apply lxor_below; [done| |done].
    apply polyMod_fold_below; [by apply Forall_replicate|done]. }
  unfold polyMod. rewrite fold_left_app. fold s.
  pose proof (polyMod_fold_lxor (replicate 8 0) (digits p) s 0 eq_refl) as H.
  change 8%nat with (length (digits p)) in H at 1. rewrite xor_all_zeros, Z.lxor_0_r in H.
  rewrite (polyMod_fold_small (digits p) 0 0), horner_digits in H
    by (apply digits_below || done). rewrite H, Hpe.
  apply Z.eqb_eq. lxor_bits.
Qed.

(** * Bursts of errors *)

Lemma xor_all_below vs ws :
  Forall (below 32) vs -> Forall (below 32) ws -> Forall (below 32) (xor_all vs ws).
Proof.
  intros Hv. unfold xor_all. revert ws. induction Hv as [|v vs Hv _ IH]; intros [|w ws] Hw; try done.
  apply Forall_cons in Hw as [Hw Hws]. constructor; [by apply (lxor_below 5)|by apply IH].
Qed.

Lemma xor_all_self vs : xor_all vs vs = replicate (length vs) 0.
Proof. unfold xor_all. induction vs as [|v vs IH]; [done|]. cbn. by rewrite Z.lxor_nilpotent, IH. Qed.

Lemma xor_all_length vs ws : length vs = length ws -> length (xor_all vs ws) = length vs.
Proof. intros H. unfold xor_all. rewrite length_zip_with. lia. Qed.

Lemma xor_all_zero vs ws :
  length vs = length ws -> xor_all vs ws = replicate (length vs) 0 -> vs = ws.
Proof.
  revert ws. induction vs as [|v vs IH]; intros [|w ws] Hl H; try done.
  injection Hl as Hl. injection H as H0 H. f_equal; [by apply Z.lxor_eq|by apply IH].
Qed.

Lemma burst_verify prefix pre e1 e2 post :
  Forall (below 32) e1 -> Forall (below 32) e2 -> length e1 = length e2 -> zlen e1 <= 8 ->
  verifyChecksum prefix (pre ++ e1 ++ post) = true ->
  verifyChecksum prefix (pre ++ e2 ++ post) = true -> e1 = e2.
Proof.
  intros H1 H2 Hl H8 V1 V2. unfold verifyChecksum, ints, polyMod in *.
  apply Z.eqb_eq, Z.lxor_eq in V1, V2. rewrite !app_assoc in V1, V2.
  rewrite <- app_assoc, fold_left_app in V1. rewrite <- app_assoc, fold_left_app in V2.
  set (c := fold_left polyMod_step ((_ ++ [0]) ++ pre) 1) in *.
  pose proof (polyMod_fold_lxor (e1 ++ post) (e2 ++ post) c c) as H.
  rewrite V1, V2, !Z.lxor_nilpotent in H. unfold xor_all in H.
  rewrite zip_with_app in H by done. specialize (H ltac:(rewrite !length_app; lia)).
  fold (xor_all e1 e2) (xor_all post post) in H. rewrite xor_all_self, fold_left_app in H.
  pose proof (xor_all_length e1 e2 Hl) as Hx. pose proof (xor_all_below e1 e2 H1 H2) as Hxb.
  apply polyMod_zeros_nonzero in H; [|by apply polyMod_fold_below].
  rewrite (polyMod_fold_small _ 0 0) in H by (unfold zlen in *; rewrite ?Hx; done || lia).
  apply horner_zero in H as [_ H]; [|done|done]. rewrite Hx in H. by apply xor_all_zero.
Qed.

(** * The character set *)

(** What every character of the set satisfies. *)
Definition charset_ok (v : Z) : bool :=
  match lookupZ charset v with
  | Some c => (IndexByte charset c =? v) && (33 <=? c) && (c <=? 126) && negb (c =? 58) &&
              bool_decide (ToLower [c] = [c])
  | None => false
  end.

Lemma charset_lookup v :
  below 32 v -> exists c, lookupZ charset v = Some c /\ IndexByte charset c = v /\
    33 <= c <= 126 /\ c <> 58 /\ ToLower [c] = [c].
Proof.
  intros Hv. assert (H : forallb charset_ok (seqZ 0 32) = true) by by vm_compute.
  pose proof (forallb_seqZ _ _ _ H Hv) as Hok. unfold charset_ok in Hok.
  destruct (lookupZ charset v) as [c|]; [|done]. exists c. split; [done|].
  repeat (apply andb_true_iff in Hok as [Hok ?]).
  split_and!; try lia. by eapply bool_decide_eq_true.
Qed.

Lemma IndexByte_lookup s c : 0 <= IndexByte s c -> lookupZ s (IndexByte s c) = Some c.
Proof.
  unfold IndexByte. destruct (list_find _ s) as [[i x]|] eqn:Hf; [|done]. intros _.
  apply list_find_Some in Hf as (Hi & -> & _). unfold lookupZ.
  rewrite (proj2 (Z.leb_le _ _)) by lia. by rewrite Nat2Z.id.
Qed.

Definition good_char (c : Z) : Prop := 33 <= c <= 126 /\ c <> 58 /\ ToLower [c] = [c].

(** Values that fit are written with one good character each, and read back. *)
Lemma encodeToBase32_spec d :
  Forall (below 32) d ->
  Forall good_char (encodeToBase32 d) /\ length (encodeToBase32 d) = length d /\
  decodeFromBase32 (encodeToBase32 d) = Some d.
Proof.
  unfold encodeToBase32. induction 1 as [|v d Hv Hd (IH1 & IH2 & IH3)]; [done|].
  destruct (charset_lookup v Hv) as (c & Hc & Hi & Hgood). cbn [mapM]. rewrite Hc.
  assert (Hm : is_Some (mapM (fun b => lookupZ charset b) d)).
  { apply mapM_is_Some. eapply Forall_impl; [exact Hd|]. intros x Hx.
    destruct (charset_lookup x Hx) as (c' & Hc' & _). by exists c'. }
  destruct Hm as [cs Hcs]. rewrite Hcs in *. cbn [mbind option_bind mret option_ret] in *.
  split_and!; [by constructor|by cbn; rewrite IH2|].
  cbn [decodeFromBase32]. rewrite Hi, IH3. unfold below in Hv.
  destruct (Z.ltb_spec v 0); [lia|]. cbn. by rewrite uint8_id by (unfold is_byte; lia).
Qed.

Lemma decodeFromBase32_spec s d :
  decodeFromBase32 s = Some d ->
  Forall (below 32) d /\ length d = length s /\ encodeToBase32 d = s.
Proof.
  unfold encodeToBase32. revert d. induction s as [|c s IH]; intros d H.
  { injection H as <-. done. }
  cbn [decodeFromBase32] in H. destruct (Z.ltb_spec (IndexByte charset c) 0); [done|].
  apply IndexByte_lookup in H0 as Hl. pose proof (lookupZ_Some_range _ _ _ Hl) as Hr.
  change (zlen charset) with 32 in Hr.
  destruct (decodeFromBase32 s) as [d'|]; [|done]. injection H as <-.
  destruct (IH d' eq_refl) as (H1 & H2 & H3). rewrite uint8_id by (unfold is_byte; lia).
  split_and!; [by constructor|by cbn; rewrite H2|]. cbn [mapM]. rewrite Hl.
  destruct (mapM _ d') as [cs|] eqn:Hm; cbn in *; [by subst|]. subst s. by destruct d'.
Qed.

Lemma decodeFromBase32_app s1 s2 :
  decodeFromBase32 (s1 ++ s2) =
  d1 ← decodeFromBase32 s1; d2 ← decodeFromBase32 s2; Some (d1 ++ d2).
Proof.
  induction s1 as [|c s1 IH]; cbn [app decodeFromBase32].
  { cbn. by destruct (decodeFromBase32 s2). }
  destruct (IndexByte charset c <? 0); [done|]. rewrite IH.
  destruct (decodeFromBase32 s1); [|done]. cbn. by destruct (decodeFromBase32 s2).
Qed.

(** * Splitting at the last colon *)

Lemma LastIndexByte_split p data :
  58 ∉ data -> LastIndexByte (p ++ 58 :: data) 58 = zlen p.
Proof.
  intros Hd. unfold LastIndexByte.
  assert (Hf : list_find (fun x => x = 58) (reverse (p ++ 58 :: data)) = Some (length data, 58)).
  { apply list_find_Some. rewrite reverse_app, reverse_cons, <- app_assoc. split_and!; [|done|].
    - rewrite <- (length_reverse data). by apply list_lookup_middle.
    - intros j y Hy Hj ->. rewrite lookup_app_l in Hy by by rewrite length_reverse.
      apply list_elem_of_lookup_2 in Hy. by rewrite elem_of_reverse in Hy. }
  rewrite Hf. rewrite zlen_app, zlen_cons. unfold zlen. lia.
Qed.

Lemma ToLower_app s1 s2 : ToLower (s1 ++ s2) = ToLower s1 ++ ToLower s2.
Proof. apply map_app. Qed.

Lemma zlen_ToLower s : zlen (ToLower s) = zlen s.
Proof. unfold zlen, ToLower. by rewrite length_map. Qed.

Lemma ToLower_colon s : 58 ∉ s -> 58 ∉ ToLower s.
Proof.
  intros Hs (c & Hc & Hin)%list_elem_of_In%in_map_iff. destruct (_ && _) eqn:?; [lia|].
  subst c. by apply Hs, list_elem_of_In.
Qed.

Lemma ToLower_good s : Forall good_char s -> ToLower s = s.
Proof.
  induction 1 as [|c s (_ & _ & Hc) _ IH]; [done|]. cbn [ToLower map].
  injection Hc as Hc. rewrite Hc. f_equal. exact IH.
Qed.

(** What [decode] does after the tests of the characters. *)
Definition decode_parts (prefix data : bytes) : res decodeError (bytes * bytes) :=
  if (zlen prefix <? 1) || (zlen data <? checksumLength) then Err InvalidColon else
  match decodeFromBase32 data with
  | None => Err InvalidBase32
  | Some decoded =>
      if verifyChecksum prefix decoded
      then Ok (prefix, take (Z.to_nat (zlen decoded - checksumLength)) decoded)
      else Err ChecksumFailed
  end.

Lemma decode_split p data :
  58 ∉ data ->
  let s := p ++ 58 :: data in
  decode s =
    if zlen s <? checksumLength + 2 then Err InvalidLength
    else if existsb (fun c => (c <? 33) || (c >? 126)) s then Err InvalidCharacter
    else if negb (bytes_eqb s (ToLower s)) && negb (bytes_eqb s (ToUpper s)) then Err MixedCase
    else decode_parts (ToLower p) (ToLower data).
Proof.
  intros Hd s. unfold decode. repeat (case_if; [done|]). cbv zeta.
  assert (Hs : ToLower s = ToLower p ++ 58 :: ToLower data).
  { subst s. by rewrite ToLower_app. }
  rewrite Hs, LastIndexByte_split by by apply ToLower_colon.
  rewrite sliceZ_prefix by done. change (58 :: ToLower data) with ([58] ++ ToLower data).
  rewrite app_assoc, sliceZ_suffix by zlia. unfold decode_parts, checksumLength.
  replace (zlen (ToLower p) + 8 + 1 >? zlen ((ToLower p ++ [58]) ++ ToLower data))
    with (zlen (ToLower data) <? 8) by (rewrite !zlen_app; change (zlen [58]) with 1; lia).
  destruct (_ || _) eqn:Hg; [done|].
  destruct (decodeFromBase32 (ToLower data)) as [d|] eqn:Hdec; [|done].
  apply decodeFromBase32_spec in Hdec as (_ & Hlen & _).
  destruct (verifyChecksum (ToLower p) d); [|done]. cbn [negb].
  unfold slice_res. assert (zlen d = zlen (ToLower data)) by (unfold zlen; lia).
  replace ((0 <=? 0) && _ && _) with true by (zlen_facts; lia). cbn [bind_res]. unfold sliceZ.
  by rewrite Z.sub_0_r, drop_0.
Qed.

(** * Round trip *)

(** A prefix in lower-case printable ASCII. *)
Definition valid_prefix (prefix : bytes) : Prop :=
  prefix <> [] /\ Forall (fun c => 33 <= c <= 126) prefix /\ ToLower prefix = prefix.

#[global] Instance valid_prefix_dec prefix : Decision (valid_prefix prefix).
Proof. unfold valid_prefix. apply _. Defined.

Lemma good_char_no_colon s : Forall good_char s -> 58 ∉ s.
Proof. intros Hs Hin. rewrite Forall_forall in Hs. by destruct (Hs _ Hin) as (_ & ? & _). Qed.

Lemma printable_existsb s :
  Forall (fun c => 33 <= c <= 126) s -> existsb (fun c => (c <? 33) || (c >? 126)) s = false.
Proof.
  induction 1 as [|c s Hc _ IH]; [done|]. cbn [existsb]. rewrite IH.
  destruct (_ || _) eqn:?; [lia|done].
Qed.

Lemma decode_encode prefix d :
  valid_prefix prefix -> Forall (below 32) d -> decode (encode prefix d) = Ok (prefix, d).
Proof.
  intros (Hne & Hasc & Hlow) Hd. unfold encode.
  set (ck := calculateChecksum prefix d).
  assert (Hck : zlen ck = 8) by reflexivity.
  assert (Hall : Forall (below 32) (d ++ ck)) by (apply Forall_app; split; [done|apply digits_below]).
  destruct (encodeToBase32_spec _ Hall) as (Hgood & Hlen & Hdec).
  set (data := encodeToBase32 (d ++ ck)) in *.
  assert (Hdl : zlen data = zlen d + 8) by (unfold zlen in *; rewrite Hlen, length_app; lia).
  assert (Hp1 : 1 <= zlen prefix) by (destruct prefix; [done|zlia]).
  change (prefix ++ string_bytes ":" ++ data) with (prefix ++ 58 :: data).
  rewrite decode_split by by apply good_char_no_colon. cbv zeta.
  assert (Hself : ToLower (prefix ++ 58 :: data) = prefix ++ 58 :: data).
  { rewrite ToLower_app, Hlow. f_equal. change (58 :: data) with ([58] ++ data).
    by rewrite ToLower_app, (ToLower_good data). }
  replace (zlen (prefix ++ 58 :: data) <? checksumLength + 2) with false
    by (unfold checksumLength; zlia).
  rewrite printable_existsb.
  2:{ apply Forall_app. split; [done|]. constructor; [lia|].
      eapply Forall_impl; [exact Hgood|]. by intros c (? & _). }
  rewrite Hself, Hlow, (ToLower_good data) by done. unfold bytes_eqb at 1. rewrite bool_decide_true by done.
  cbn [negb andb]. unfold decode_parts, checksumLength.
  replace ((zlen prefix <? 1) || (zlen data <? 8)) with false by zlia.
  rewrite Hdec. subst ck. rewrite (checksum_verifies prefix d Hd). do 2 f_equal.
  set (ck := calculateChecksum prefix d) in *.
  replace (zlen (d ++ ck) - 8) with (zlen d) by zlia. unfold zlen. by rewrite Nat2Z.id, take_app_length.
Qed.

(** [Decode] is a regrouping of what [decode] returns; it panics when there is
    not a whole byte. *)
Lemma Decode_eq s :
  Decode s =
    match decode s with
    | Ok (prefix, d) =>
        match convertBits d fiveToEightBits with
        | [] => Panic
        | version :: payload => Ok (prefix, payload, version)
        end
    | Err e => Err e
    | Panic => Panic
    end.
Proof.
  unfold Decode. destruct (decode s) as [[prefix d]|e|]; [|done..]. cbn [bind_res].
  destruct (convertBits d fiveToEightBits) as [|v payload]; [done|].
  unfold index_res. change (lookupZ (v :: payload) 0) with (Some v). cbn [bind_res].
  unfold slice_res. replace ((0 <=? 1) && _ && _) with true by (rewrite zlen_cons; zlen_facts; lia).
  cbn [bind_res]. change (v :: payload) with ([v] ++ payload).
  rewrite sliceZ_suffix by (rewrite ?zlen_app; done). done.
Qed.

Lemma colon_split s : 58 ∈ s -> exists p data, s = p ++ 58 :: data /\ (58 ∉ data).
Proof.
  induction s as [|c s IH]; intros Hin; [by apply not_elem_of_nil in Hin|].
  destruct (decide (58 ∈ s)) as [Hs|Hs].
  - destruct (IH Hs) as (p & data & -> & Hd). by exists (c :: p), data.
  - apply elem_of_cons in Hin as [<-|?]; [|done]. by exists [], s.
Qed.

Lemma LastIndexByte_none s : 58 ∉ s -> LastIndexByte s 58 = -1.
Proof.
  intros Hs. unfold LastIndexByte. destruct (list_find _ _) as [[i x]|] eqn:Hf; [|done].
  apply list_find_Some in Hf as (Hi & -> & _). apply list_elem_of_lookup_2 in Hi.
  by rewrite elem_of_reverse in Hi.
Qed.

(** [decode] succeeds only on a prefix, a colon and checked characters. *)
Lemma decode_inv s prefix d :
  decode s = Ok (prefix, d) ->
  exists p data ck, s = p ++ 58 :: data /\ (58 ∉ data) /\ prefix = ToLower p /\
    decodeFromBase32 (ToLower data) = Some (d ++ ck) /\ zlen ck = checksumLength /\
    verifyChecksum prefix (d ++ ck) = true.
Proof.
  intros H. destruct (decide (58 ∈ s)) as [Hin|Hin].
  - destruct (colon_split s Hin) as (p & data & -> & Hd). rewrite decode_split in H by done.
    cbv zeta in H. repeat (case_match; [done|]). unfold decode_parts in H.
    destruct (_ || _) eqn:Hg in H; [done|].
    destruct (decodeFromBase32 (ToLower data)) as [d'|] eqn:Hdec; [|done].
    destruct (verifyChecksum (ToLower p) d') eqn:Hv; [|done]. injection H as <- <-.
    set (n := Z.to_nat (zlen d' - checksumLength)).
    exists p, data, (drop n d'). rewrite take_drop. split_and!; try done.
    apply decodeFromBase32_spec in Hdec as (_ & Hl & _).
    assert (zlen d' = zlen (ToLower data)) by (unfold zlen; lia).
    subst n. rewrite zlen_drop; unfold checksumLength in *; zlen_facts; lia.
  - unfold decode in H. do 3 (case_match; [done|]). cbv zeta in H.
    by rewrite LastIndexByte_none in H by by apply ToLower_colon.
Qed.

Lemma Decode_bytes s prefix payload version :
  Decode s = Ok (prefix, payload, version) -> Forall is_byte payload /\ is_byte version.
Proof.
  rewrite Decode_eq. destruct (decode s) as [[p d]|e|] eqn:Hd; [|done..].
  destruct (decode_inv s p d Hd) as (p0 & data & ck & _ & _ & _ & Hdec & _).
  apply decodeFromBase32_spec in Hdec as (Hb & _). apply Forall_app in Hb as [Hb _].
  apply convertBits_5_8 in Hb as [Hb _]. destruct (convertBits d fiveToEightBits); [done|].
  intros [= <- <- <-]. by apply Forall_cons in Hb as [? ?].
Qed.

Lemma decode_no_panic s : decode s <> Panic.
Proof.
  destruct (decide (58 ∈ s)) as [Hin|Hin].
  - destruct (colon_split s Hin) as (p & data & -> & Hd). rewrite decode_split by done.
    cbv zeta. unfold decode_parts. by repeat case_match.
  - unfold decode. do 3 (case_if; [done|]). cbv zeta.
    by rewrite LastIndexByte_none by by apply ToLower_colon.
Qed.

(** An address text is read back as it was written: for every lower-case
    printable prefix, every payload and every version byte, [Decode] returns
    what [Encode] was given. *)
Theorem Decode_Encode prefix payload version :
  valid_prefix prefix -> Forall is_byte payload -> is_byte version ->
  Decode (Encode prefix payload version) = Ok (prefix, payload, version).
Proof.
  intros Hp Hb Hv. assert (Hd : Forall is_byte (version :: payload)) by by constructor.
  unfold Encode. rewrite Decode_eq, decode_encode, convertBits_roundtrip; try done.
  by apply convertBits_8_5.
Qed.

Lemma Decode_Encode_witness :
  Decode (Encode (string_bytes "kaspa") [1; 2; 255] 8) = Ok (string_bytes "kaspa", [1; 2; 255], 8).
Proof.
  apply Decode_Encode; [|repeat constructor; unfold is_byte; lia|unfold is_byte; lia].
  apply (bool_decide_eq_true_1 _). by vm_compute.
Defined.

(** C36: A burst of errors in the data part is detected: when a text decodes, a
    text that differs from it, up to case, only within eight consecutive
    characters after its last colon, and has no colon there, is refused,
    whatever the length of the text.  Errors in the prefix are not covered: the
    checksum sees only the low five bits of its characters. *)
Theorem decode_detects_burst p a w1 w2 b r :
  58 ∉ a ++ w1 ++ b -> 58 ∉ w2 -> length w1 = length w2 -> (length w1 <= 8)%nat ->
  ToLower w1 <> ToLower w2 ->
  decode (p ++ 58 :: a ++ w1 ++ b) = Ok r ->
  exists e, decode (p ++ 58 :: a ++ w2 ++ b) = Err e.
Proof.
  intros H1 H2 Hl H8 Hne Hok.
  assert (H2' : 58 ∉ a ++ w2 ++ b) by (rewrite !elem_of_app in H1 |- *; tauto).
  rewrite (decode_split p _ H2'). rewrite (decode_split p _ H1) in Hok. cbv zeta in *.
  repeat (case_if; [by eexists|]).
  repeat (case_match; [done|]).
  unfold decode_parts in *. rewrite !ToLower_app, !decodeFromBase32_app in Hok |- *.
  case_if; [by eexists|]. case_match; [done|].
  destruct (decodeFromBase32 (ToLower a)) as [da|]; [|by eexists].
  destruct (decodeFromBase32 (ToLower w2)) as [d2|] eqn:D2; [|by eexists].
  destruct (decodeFromBase32 (ToLower b)) as [db|] eqn:Db; [|by eexists].
  destruct (decodeFromBase32 (ToLower w1)) as [d1|] eqn:D1; [|done]. cbn [mbind option_bind] in *.
  destruct (verifyChecksum _ (da ++ d2 ++ db)) eqn:V2; [|by eexists].
  destruct (verifyChecksum _ (da ++ d1 ++ db)) eqn:V1; [|done].
  apply decodeFromBase32_spec in D1 as (B1 & L1 & E1), D2 as (B2 & L2 & E2).
  unfold ToLower in L1, L2. rewrite length_map in L1, L2. destruct Hne. rewrite <- E1, <- E2. f_equal.
  apply (burst_verify (ToLower p) da d1 d2 db); unfold zlen; done || lia.
Qed.

Lemma decode_detects_burst_witness :
  exists e, decode (string_bytes "a:pp99546ray") = Err e.
Proof.
  apply (decode_detects_burst (string_bytes "a") (string_bytes "p") (string_bytes "q")
    (string_bytes "p") (string_bytes "99546ray") (string_bytes "a", [1; 0]));
    [apply (bool_decide_eq_true_1 _); by vm_compute..|by vm_compute].
Defined.

(** A text without a whole byte of data makes [Decode] panic. *)
Lemma Decode_panic s :
  Decode s = Panic <-> exists prefix d, decode s = Ok (prefix, d) /\ zlen d <= 1.
Proof.
  rewrite Decode_eq. pose proof (decode_no_panic s) as Hnp.
  destruct (decode s) as [[prefix d]|e|] eqn:Hd; [|by split; [|intros (? & ? & ? & ?)]|done].
  apply decode_inv in Hd as (p & data & ck & _ & _ & _ & Hdec & _).
  apply decodeFromBase32_spec in Hdec as (Hb & _). apply Forall_app in Hb as [Hb _].
  pose proof (convertBits_5_8_length d Hb) as Hl.
  split.
  - destruct (convertBits d fiveToEightBits); [|done]. intros _. exists prefix, d. split; [done|].
    change (zlen (@nil Z)) with 0 in Hl. symmetry in Hl. apply Z.div_small_iff in Hl; lia.
  - intros (? & ? & [= <- <-] & H1). rewrite Z.div_small in Hl by (zlen_facts; lia).
    apply zlen_0 in Hl. by rewrite Hl.
Qed.
