(* ===== verification/Address.v ===== *)
(** Payment addresses: [src/util/address.go] and [src/util/blake2b.go]. *)

From S2P Require Import Prelude Bech32 Sha256 SigHash.

Definition pubKeyAddrID : Z := 0x00.
Definition pubKeyECDSAAddrID : Z := 0x01.
Definition scriptHashAddrID : Z := 0x08.

(** [type Bech32Prefix int] *)
Definition Bech32PrefixUnknown : Z := 0.
Definition Bech32PrefixKaspa : Z := 1.
Definition Bech32PrefixKaspaDev : Z := 2.
Definition Bech32PrefixKaspaTest : Z := 3.
Definition Bech32PrefixKaspaSim : Z := 4.

(** The values are distinct, so no iteration order of the map shows. *)
Definition stringsToBech32Prefixes : list (bytes * Z) :=
  [(string_bytes "kaspa", Bech32PrefixKaspa);
   (string_bytes "kaspadev", Bech32PrefixKaspaDev);
   (string_bytes "kaspatest", Bech32PrefixKaspaTest);
   (string_bytes "kaspasim", Bech32PrefixKaspaSim)].

(** The errors of this file, one per message. *)
Inductive addressError : Set :=
| UnknownFormat (e : decodeError)
| PrefixNotParsed
| WrongNetwork
| ErrUnknownAddressType
| InvalidPublicKeyLength
| InvalidScriptHashLength.

Definition ParsePrefix (prefixString : bytes) : res addressError Z :=
  match list_find (fun kv => kv.1 = prefixString) stringsToBech32Prefixes with
  | Some (_, (_, prefix)) => Ok prefix
  | None => Err PrefixNotParsed
  end.

(** [Bech32Prefix.String] *)
Definition Prefix_String (prefix : Z) : bytes :=
  match list_find (fun kv => prefix = kv.2) stringsToBech32Prefixes with
  | Some (_, (key, _)) => key
  | None => []
  end.

Definition encodeAddress (prefix : Z) (payload : bytes) (version : Z) : bytes :=
  Encode (Prefix_String prefix) payload version.

Definition PublicKeySize : Z := 32.
Definition PublicKeySizeECDSA : Z := 33.
Definition blake2b_Size256 : Z := 32.

Record AddressPublicKey : Set := mk_AddressPublicKey {
  apk_prefix : Z;
  apk_publicKey : bytes
}.

Record AddressPublicKeyECDSA : Set := mk_AddressPublicKeyECDSA {
  ecdsa_prefix : Z;
  ecdsa_publicKey : bytes
}.

Record AddressScriptHash : Set := mk_AddressScriptHash {
  ash_prefix : Z;
  ash_hash : bytes
}.

(** The [Address] interface: a typed pointer, [None] when it is nil, or a value
    of a type of another package. *)
Inductive Address : Set :=
| Addr_PublicKey (a : option AddressPublicKey)
| Addr_PublicKeyECDSA (a : option AddressPublicKeyECDSA)
| Addr_ScriptHash (a : option AddressScriptHash)
| Addr_other.

(** A fresh array of [n] bytes, filled by [copy]. *)
Definition copied (n : Z) (src : bytes) : bytes := copy_slice (replicate (Z.to_nat n) 0) src.

Definition newAddressPubKey (prefix : Z) (publicKey : bytes) : res addressError AddressPublicKey :=
  if negb (zlen publicKey =? PublicKeySize) then Err InvalidPublicKeyLength
  else Ok (mk_AddressPublicKey prefix (copied PublicKeySize publicKey)).

Definition NewAddressPublicKey (publicKey : bytes) (prefix : Z) : res addressError AddressPublicKey :=
  newAddressPubKey prefix publicKey.

Definition newAddressPubKeyECDSA (prefix : Z) (publicKey : bytes)
  : res addressError AddressPublicKeyECDSA :=
  if negb (zlen publicKey =? PublicKeySizeECDSA) then Err InvalidPublicKeyLength
  else Ok (mk_AddressPublicKeyECDSA prefix (copied PublicKeySizeECDSA publicKey)).

Definition NewAddressPublicKeyECDSA (publicKey : bytes) (prefix : Z)
  : res addressError AddressPublicKeyECDSA :=
  newAddressPubKeyECDSA prefix publicKey.

Definition newAddressScriptHashFromHash (prefix : Z) (scriptHash : bytes)
  : res addressError AddressScriptHash :=
  if negb (zlen scriptHash =? blake2b_Size256) then Err InvalidScriptHashLength
  else Ok (mk_AddressScriptHash prefix (copied blake2b_Size256 scriptHash)).

Definition NewAddressScriptHashFromHash (scriptHash : bytes) (prefix : Z)
  : res addressError AddressScriptHash :=
  newAddressScriptHashFromHash prefix scriptHash.

Definition HashBlake2b `{Crypto} (buf : bytes) : bytes := blake2b_Sum256 buf.

Definition NewAddressScriptHash `{Crypto} (serializedScript : bytes) (prefix : Z)
  : res addressError AddressScriptHash :=
  newAddressScriptHashFromHash prefix (HashBlake2b serializedScript).

(** The methods of the three types. *)
Definition AddressPublicKey_EncodeAddress (a : AddressPublicKey) : bytes :=
  encodeAddress (apk_prefix a) (apk_publicKey a) pubKeyAddrID.

Definition AddressPublicKeyECDSA_EncodeAddress (a : AddressPublicKeyECDSA) : bytes :=
  encodeAddress (ecdsa_prefix a) (ecdsa_publicKey a) pubKeyECDSAAddrID.

Definition AddressScriptHash_EncodeAddress (a : AddressScriptHash) : bytes :=
  encodeAddress (ash_prefix a) (ash_hash a) scriptHashAddrID.

Definition AddressPublicKey_IsForPrefix (a : AddressPublicKey) (prefix : Z) : bool :=
  apk_prefix a =? prefix.

Definition AddressPublicKeyECDSA_IsForPrefix (a : AddressPublicKeyECDSA) (prefix : Z) : bool :=
  ecdsa_prefix a =? prefix.

Definition AddressScriptHash_IsForPrefix (a : AddressScriptHash) (prefix : Z) : bool :=
  ash_prefix a =? prefix.

(** Calls through the interface: a nil pointer panics when the method reads a
    field; what a type of another package does is not known. *)
Definition dispatch {A} (addr : Address) (f : AddressPublicKey -> A)
    (g : AddressPublicKeyECDSA -> A) (h : AddressScriptHash -> A) : option (res addressError A) :=
  match addr with
  | Addr_PublicKey (Some a) => Some (Ok (f a))
  | Addr_PublicKeyECDSA (Some a) => Some (Ok (g a))
  | Addr_ScriptHash (Some a) => Some (Ok (h a))
  | Addr_other => None
  | _ => Some Panic
  end.

Definition EncodeAddress (addr : Address) : option (res addressError bytes) :=
  dispatch addr AddressPublicKey_EncodeAddress AddressPublicKeyECDSA_EncodeAddress
    AddressScriptHash_EncodeAddress.

Definition IsForPrefix (addr : Address) (prefix : Z) : option (res addressError bool) :=
  dispatch addr (fun a => AddressPublicKey_IsForPrefix a prefix)
    (fun a => AddressPublicKeyECDSA_IsForPrefix a prefix)
    (fun a => AddressScriptHash_IsForPrefix a prefix).

Definition DecodeAddress (addr : bytes) (expectedPrefix : Z) : res addressError Address :=
  match Decode addr with
  | Panic => Panic
  | Err e => Err (UnknownFormat e)
  | Ok (prefixString, decoded, version) =>
      let? prefix := ParsePrefix prefixString in
      if negb (expectedPrefix =? Bech32PrefixUnknown) && negb (expectedPrefix =? prefix)
      then Err WrongNetwork
      else if version =? pubKeyAddrID then
        let? a := newAddressPubKey prefix decoded in Ok (Addr_PublicKey (Some a))
      else if version =? pubKeyECDSAAddrID then
        let? a := newAddressPubKeyECDSA prefix decoded in Ok (Addr_PublicKeyECDSA (Some a))
      else if version =? scriptHashAddrID then
        let? a := newAddressScriptHashFromHash prefix decoded in Ok (Addr_ScriptHash (Some a))
      else Err ErrUnknownAddressType
  end.

(** * Well-formed addresses *)

Definition known_prefix (prefix : Z) : Prop := 1 <= prefix <= 4.

Definition payload_ok (n : Z) (l : bytes) : Prop := zlen l = n /\ Forall is_byte l.

(** What the constructors make: a known network and a payload of the length its
    type has. *)
Definition address_ok (addr : Address) : Prop :=
  match addr with
  | Addr_PublicKey (Some a) => known_prefix (apk_prefix a) /\ payload_ok PublicKeySize (apk_publicKey a)
  | Addr_PublicKeyECDSA (Some a) =>
      known_prefix (ecdsa_prefix a) /\ payload_ok PublicKeySizeECDSA (ecdsa_publicKey a)
  | Addr_ScriptHash (Some a) => known_prefix (ash_prefix a) /\ payload_ok blake2b_Size256 (ash_hash a)
  | _ => False
  end.

Definition address_prefix (addr : Address) : Z :=
  match addr with
  | Addr_PublicKey (Some a) => apk_prefix a
  | Addr_PublicKeyECDSA (Some a) => ecdsa_prefix a
  | Addr_ScriptHash (Some a) => ash_prefix a
  | _ => Bech32PrefixUnknown
  end.

#[global] Instance address_ok_dec addr : Decision (address_ok addr).
Proof.
  destruct addr as [[]|[]|[]|]; cbn; unfold known_prefix, payload_ok; apply _.
Defined.

Lemma copied_id n src : 0 <= n -> zlen src = n -> copied n src = src.
Proof.
  intros Hn Hl. unfold copied. apply copy_slice_same_length.
  rewrite length_replicate. unfold zlen in Hl. lia.
Qed.

Lemma newAddressPubKey_eq prefix key :
  newAddressPubKey prefix key =
  if zlen key =? PublicKeySize then Ok (mk_AddressPublicKey prefix key) else Err InvalidPublicKeyLength.
Proof.
  unfold newAddressPubKey. destruct (Z.eqb_spec (zlen key) PublicKeySize); [|done].
  cbn [negb]. by rewrite copied_id.
Qed.

Lemma newAddressPubKeyECDSA_eq prefix key :
  newAddressPubKeyECDSA prefix key =
  if zlen key =? PublicKeySizeECDSA then Ok (mk_AddressPublicKeyECDSA prefix key) else Err InvalidPublicKeyLength.
Proof.
  unfold newAddressPubKeyECDSA. destruct (Z.eqb_spec (zlen key) PublicKeySizeECDSA); [|done].
  cbn [negb]. by rewrite copied_id.
Qed.

Lemma newAddressScriptHashFromHash_eq prefix hash :
  newAddressScriptHashFromHash prefix hash =
  if zlen hash =? blake2b_Size256 then Ok (mk_AddressScriptHash prefix hash) else Err InvalidScriptHashLength.
Proof.
  unfold newAddressScriptHashFromHash. destruct (Z.eqb_spec (zlen hash) blake2b_Size256); [|done].
  cbn [negb]. by rewrite copied_id.
Qed.

Lemma known_prefix_cases prefix :
  known_prefix prefix -> prefix = 1 \/ prefix = 2 \/ prefix = 3 \/ prefix = 4.
Proof. unfold known_prefix. lia. Qed.

(** The names of the networks are valid and parse to them. *)
Lemma Prefix_String_parse prefix :
  known_prefix prefix ->
  valid_prefix (Prefix_String prefix) /\ ParsePrefix (Prefix_String prefix) = Ok prefix.
Proof.
  intros [->|[->|[->| ->]]]%known_prefix_cases;
    (split; [apply (bool_decide_eq_true_1 _)|]; by vm_compute).
Qed.

Lemma ParsePrefix_known s prefix : ParsePrefix s = Ok prefix -> known_prefix prefix.
Proof.
  unfold ParsePrefix. destruct (list_find _ _) as [[i [k v]]|] eqn:Hf; [|done].
  intros [= ->]. apply list_find_Some in Hf as (Hi & _). unfold stringsToBech32Prefixes in Hi.
  unfold known_prefix. apply list_elem_of_lookup_2 in Hi.
  rewrite !elem_of_cons in Hi. unfold Bech32PrefixKaspa, Bech32PrefixKaspaDev,
    Bech32PrefixKaspaTest, Bech32PrefixKaspaSim in Hi.
  destruct Hi as [[= _ ->]|[[= _ ->]|[[= _ ->]|[[= _ ->]|Hi]]]]; try lia.
  by apply not_elem_of_nil in Hi.
Qed.

Lemma Decode_encodeAddress prefix payload version :
  known_prefix prefix -> Forall is_byte payload -> is_byte version ->
  Decode (encodeAddress prefix payload version) = Ok (Prefix_String prefix, payload, version).
Proof.
  intros Hp Hb Hv. apply Prefix_String_parse in Hp as [Hp _].
  unfold encodeAddress, Encode. rewrite Decode_eq.
  rewrite decode_encode, convertBits_roundtrip; try done; [by constructor|].
  apply convertBits_8_5. by constructor.
Qed.

(** C34: Every address is read back from its text, on its own network or when
    any network is accepted; on another network its text is refused. *)
Theorem DecodeAddress_EncodeAddress addr expectedPrefix :
  address_ok addr ->
  exists text, EncodeAddress addr = Some (Ok text) /\
    DecodeAddress text expectedPrefix =
      if (expectedPrefix =? Bech32PrefixUnknown) || (expectedPrefix =? address_prefix addr)
      then Ok addr else Err WrongNetwork.
Proof.
  intros Hok. destruct addr as [[[prefix key]|]|[[prefix key]|]|[[prefix key]|]|]; cbn in Hok; try done;
    destruct Hok as [Hp [Hl Hb]]; (eexists; split; [reflexivity|]);
    unfold DecodeAddress, AddressPublicKey_EncodeAddress, AddressPublicKeyECDSA_EncodeAddress,
      AddressScriptHash_EncodeAddress; cbn [apk_prefix apk_publicKey ecdsa_prefix ecdsa_publicKey
      ash_prefix ash_hash address_prefix];
    rewrite Decode_encodeAddress by done;
    rewrite (proj2 (Prefix_String_parse prefix Hp)); cbn [bind_res];
    rewrite <- negb_orb; (destruct (_ || _); [|done]); cbn -[newAddressPubKey
      newAddressPubKeyECDSA newAddressScriptHashFromHash].
  - by rewrite newAddressPubKey_eq, (proj2 (Z.eqb_eq _ _) Hl).
  - by rewrite newAddressPubKeyECDSA_eq, (proj2 (Z.eqb_eq _ _) Hl).
  - by rewrite newAddressScriptHashFromHash_eq, (proj2 (Z.eqb_eq _ _) Hl).
Qed.

Lemma DecodeAddress_EncodeAddress_witness :
  exists text,
    EncodeAddress (Addr_ScriptHash (Some (mk_AddressScriptHash 1 (replicate 32 7)))) = Some (Ok text) /\
    DecodeAddress text 3 = Err WrongNetwork.
Proof.
  apply (DecodeAddress_EncodeAddress
    (Addr_ScriptHash (Some (mk_AddressScriptHash 1 (replicate 32 7)))) 3).
  apply (bool_decide_eq_true_1 _). by vm_compute.
Defined.

(** C35: An address that was read is well formed: it is of a known network, its
    payload has the length of its type, and it is for the expected network
    when there is one. *)
Theorem DecodeAddress_sound text expectedPrefix addr :
  DecodeAddress text expectedPrefix = Ok addr ->
  address_ok addr /\
  (expectedPrefix = Bech32PrefixUnknown \/ IsForPrefix addr expectedPrefix = Some (Ok true)).
Proof.
  unfold DecodeAddress. destruct (Decode text) as [[[ps payload] version]|e|] eqn:Hd; [|done..].
  apply Decode_bytes in Hd as [Hb _]. intros H.
  destruct (ParsePrefix ps) as [prefix|e|] eqn:Hp; [|done..]. cbn [bind_res] in H.
  apply ParsePrefix_known in Hp. destruct (_ && _) eqn:Hx; [done|].
  assert (Hfor : expectedPrefix = Bech32PrefixUnknown \/ (prefix =? expectedPrefix) = true) by lia.
  rewrite newAddressPubKey_eq, newAddressPubKeyECDSA_eq, newAddressScriptHashFromHash_eq in H.
  assert (Hres : addr = Addr_PublicKey (Some (mk_AddressPublicKey prefix payload)) /\
      zlen payload = PublicKeySize \/
    addr = Addr_PublicKeyECDSA (Some (mk_AddressPublicKeyECDSA prefix payload)) /\
      zlen payload = PublicKeySizeECDSA \/
    addr = Addr_ScriptHash (Some (mk_AddressScriptHash prefix payload)) /\
      zlen payload = blake2b_Size256).
  { destruct (version =? pubKeyAddrID); [|destruct (version =? pubKeyECDSAAddrID);
      [|destruct (version =? scriptHashAddrID); [|done]]];
    destruct (zlen payload =? _) eqn:Hl in H; try done; apply Z.eqb_eq in Hl; injection H as <-; auto. }
  destruct Hres as [[-> Hl]|[[-> Hl]|[-> Hl]]]; (split; [by split|]);
    (destruct Hfor as [->|Hfor]; [by left|right]); cbn; unfold AddressPublicKey_IsForPrefix,
      AddressPublicKeyECDSA_IsForPrefix, AddressScriptHash_IsForPrefix; cbn; by rewrite Hfor.
Qed.

Lemma DecodeAddress_sound_witness :
  address_ok (Addr_PublicKey (Some (mk_AddressPublicKey 1 (replicate 32 0)))).
Proof.
  refine (proj1 (DecodeAddress_sound (string_bytes
    "kaspa:qqqqqqqqqqqqqqqqqqqqqqqqqqqqqqqqqqqqqqqqqqqqqqqqqqqqqkx9awp4e") 1 _ _)).
  by vm_compute.
Defined.

(** C40: [DecodeAddress] panics with an index out of range exactly on the texts
    that pass the checksum and carry at most one character of data, where an
    error was meant.  For every prefix a text can have there is one: the
    encoding of no data. *)
Theorem DecodeAddress_panics text expectedPrefix :
  (DecodeAddress text expectedPrefix = Panic <->
   exists prefix d, decode text = Ok (prefix, d) /\ zlen d <= 1) /\
  forall prefix, valid_prefix prefix -> DecodeAddress (encode prefix []) expectedPrefix = Panic.
Proof.
  assert (Hiff : forall s, DecodeAddress s expectedPrefix = Panic <-> Decode s = Panic).
  { intros s. unfold DecodeAddress. destruct (Decode s) as [[[ps payload] version]|e|]; [|done..].
    split; [|done]. intros Hp. destruct (ParsePrefix ps) as [prefix|e|] eqn:Hps.
    2-3: unfold ParsePrefix in *; repeat case_match; done.
    cbn [bind_res] in Hp. destruct (_ && _); [done|].
    rewrite newAddressPubKey_eq, newAddressPubKeyECDSA_eq, newAddressScriptHashFromHash_eq in Hp.
    repeat case_match; done. }
  split; [rewrite Hiff; apply Decode_panic|]. intros prefix Hp. rewrite Hiff, Decode_panic.
  exists prefix, []. split; [|done]. by apply decode_encode.
Qed.

Lemma DecodeAddress_panics_witness :
  DecodeAddress (string_bytes "kaspa:3xjng3c9") Bech32PrefixKaspa = Panic.
Proof.
  assert (Hk : encode (string_bytes "kaspa") [] = string_bytes "kaspa:3xjng3c9") by by vm_compute.
  rewrite <- Hk. apply (DecodeAddress_panics [] Bech32PrefixKaspa).
  apply (bool_decide_eq_true_1 _). by vm_compute.
Defined.
