(* ===== verification/Standard.v ===== *)
(** Standard scripts: [src/domain/consensus/utils/txscript/standard.go]. *)

From S2P Require Import Prelude ScriptError ScriptNum Opcodes Transaction Script.
From S2P Require Import Sha256 SigHash SigCache Engine Address ScriptBuilder.

(** [type ScriptClass byte] *)
Definition NonStandardTy : Z := 0.
Definition PubKeyTy : Z := 1.
Definition PubKeyECDSATy : Z := 2.
Definition ScriptHashTy : Z := 3.

Definition addressPublicKeyScriptPublicKeyVersion : Z := 0.
Definition addressPublicKeyECDSAScriptPublicKeyVersion : Z := 0.
Definition addressScriptHashScriptPublicKeyVersion : Z := 0.

Definition scriptClassToName : list string :=
  ["nonstandard"; "pubkey"; "pubkeyecdsa"; "scripthash"]%string.

(** [ScriptClass.String] *)
Definition ScriptClass_String (t : Z) : res error string :=
  if (t >? zlen scriptClassToName) || (t <? 0) then Ok "Invalid"%string
  else index_res scriptClassToName t.

Definition isPayToPubkey (pops : list parsedOpcode) : bool :=
  match pops with
  | [p0; p1] => (pop_value p0 =? OpData32) && (pop_value p1 =? OpCheckSig)
  | _ => false
  end.

Definition isPayToPubkeyECDSA (pops : list parsedOpcode) : bool :=
  match pops with
  | [p0; p1] => (pop_value p0 =? OpData33) && (pop_value p1 =? OpCheckSigECDSA)
  | _ => false
  end.

Definition typeOfScript (pops : list parsedOpcode) : Z :=
  if isPayToPubkey pops then PubKeyTy
  else if isPayToPubkeyECDSA pops then PubKeyECDSATy
  else if isScriptHash pops then ScriptHashTy
  else NonStandardTy.

Definition GetScriptClass (script : bytes) : Z :=
  match parseScript script with
  | (_, Some _) => NonStandardTy
  | (pops, None) => typeOfScript pops
  end.

Definition expectedInputs (pops : list parsedOpcode) (class : Z) : Z :=
  if class =? PubKeyTy then 1
  else if class =? ScriptHashTy then 1
  else -1.

Record ScriptInfo : Set := mk_ScriptInfo {
  ScriptPubKeyClass : Z;
  NumInputs : Z;
  ExpectedInputs : Z;
  SigOps : Z
}.

(** A parsed script, or the error of parsing it. *)
Definition parse_res (script : bytes) : res error (list parsedOpcode) :=
  match parseScript script with
  | (pops, None) => Ok pops
  | (_, Some e) => Err e
  end.

Definition CalcScriptInfo (sigScript scriptPubKey : bytes) (isP2SH : bool)
  : res error ScriptInfo :=
  let? sigPops := parse_res sigScript in
  let? scriptPubKeyPops := parse_res scriptPubKey in
  let class := typeOfScript scriptPubKeyPops in
  if negb (isPushOnly sigPops) then Err (scriptError ErrNotPushOnly) else
  let expected := expectedInputs scriptPubKeyPops class in
  let numInputs := zlen sigPops in
  if (class =? ScriptHashTy) && isP2SH then
    let? last := index_res sigPops (zlen sigPops - 1) in
    let? shPops := parse_res (data_of last) in
    let shInputs := expectedInputs shPops (typeOfScript shPops) in
    let expected := if shInputs =? -1 then -1 else expected + shInputs in
    Ok (mk_ScriptInfo class numInputs expected (getSigOpCount shPops true))
  else Ok (mk_ScriptInfo class numInputs expected (getSigOpCount scriptPubKeyPops true)).

Definition payToPubKeyScript (pubKey : bytes) : res error bytes :=
  Script_res (AddOp (AddData NewScriptBuilder pubKey) OpCheckSig).

Definition payToPubKeyScriptECDSA (pubKey : bytes) : res error bytes :=
  Script_res (AddOp (AddData NewScriptBuilder pubKey) OpCheckSigECDSA).

Definition payToScriptHashScript (scriptHash : bytes) : res error bytes :=
  Script_res (AddOp (AddData (AddOp NewScriptBuilder OpBlake2b) scriptHash) OpEqual).

Definition PayToAddrScript (addr : Address) : res error ScriptPublicKey :=
  match addr with
  | Addr_PublicKey None | Addr_PublicKeyECDSA None | Addr_ScriptHash None =>
      Err (scriptError ErrUnsupportedAddress)
  | Addr_PublicKey (Some a) =>
      let? script := payToPubKeyScript (apk_publicKey a) in
      Ok (mk_ScriptPublicKey script addressPublicKeyScriptPublicKeyVersion)
  | Addr_PublicKeyECDSA (Some a) =>
      let? script := payToPubKeyScriptECDSA (ecdsa_publicKey a) in
      Ok (mk_ScriptPublicKey script addressPublicKeyECDSAScriptPublicKeyVersion)
  | Addr_ScriptHash (Some a) =>
      let? script := payToScriptHashScript (ash_hash a) in
      Ok (mk_ScriptPublicKey script addressScriptHashScriptPublicKeyVersion)
  | Addr_other => Err (scriptError ErrUnsupportedAddress)
  end.

Definition PayToScriptHashScript `{Crypto} (redeemScript : bytes) : res error bytes :=
  let redeemScriptHash := HashBlake2b redeemScript in
  Script_res (AddOp (AddData (AddOp NewScriptBuilder OpBlake2b) redeemScriptHash) OpEqual).

Definition PayToScriptHashSignatureScript (redeemScript signature : bytes) : res error bytes :=
  let? redeemScriptAsData := Script_res (AddData NewScriptBuilder redeemScript) in
  Ok (signature ++ redeemScriptAsData).

(** A nil entry is [None]. *)
Definition PushedData (script : bytes) : res error (list (option bytes)) :=
  let? pops := parse_res script in
  Ok (omap (fun pop =>
        match pop_data pop with
        | Some data => Some (Some data)
        | None => if pop_value pop =? Op0 then Some None else None
        end) pops).

(** The address is nil ([None]) when the data of a standard script is invalid;
    [prefix] is [dagParams.Prefix].  The class is [NonStandardTy] when there
    is an error. *)
Definition ExtractScriptPubKeyAddress (scriptPubKey : ScriptPublicKey) (prefix : Z)
  : res error (Z * option Address) :=
  if spk_Version scriptPubKey >? MaxScriptPublicKeyVersion then Ok (NonStandardTy, None) else
  let? pops := parse_res (spk_Script scriptPubKey) in
  let scriptClass := typeOfScript pops in
  if scriptClass =? PubKeyTy then
    let? pop := index_res pops 0 in
    match NewAddressPublicKey (data_of pop) prefix with
    | Ok addr => Ok (scriptClass, Some (Addr_PublicKey (Some addr)))
    | _ => Ok (scriptClass, None)
    end
  else if scriptClass =? PubKeyECDSATy then
    let? pop := index_res pops 0 in
    match NewAddressPublicKeyECDSA (data_of pop) prefix with
    | Ok addr => Ok (scriptClass, Some (Addr_PublicKeyECDSA (Some addr)))
    | _ => Ok (scriptClass, None)
    end
  else if scriptClass =? ScriptHashTy then
    let? pop := index_res pops 1 in
    match NewAddressScriptHashFromHash (data_of pop) prefix with
    | Ok addr => Ok (scriptClass, Some (Addr_ScriptHash (Some addr)))
    | _ => Ok (scriptClass, None)
    end
  else if scriptClass =? NonStandardTy then Ok (NonStandardTy, None)
  else Err OtherError.

Record AtomicSwapDataPushes : Set := mk_AtomicSwapDataPushes {
  RecipientBlake2b : bytes;
  RefundBlake2b : bytes;
  SecretHash : bytes;
  SecretSize : Z;
  swap_LockTime : Z
}.

(** A number pushed by [pop], as its data or as a small-integer opcode; [None]
    where the function returns [(nil, nil)]. *)
Definition pushed_number (pop : parsedOpcode) : option Z :=
  match pop_data pop with
  | Some data =>
      match makeScriptNum data 8 with
      | Ok n => Some n
      | _ => None
      end
  | None => if isSmallInt (pop_opcode pop) then Some (asSmallInt (pop_opcode pop)) else None
  end.

(** The opcodes of the contract; [None] is a canonical push. *)
Definition atomic_swap_template : list (option Z) :=
  [Some OpIf; Some OpSize; None; Some OpEqualVerify; Some OpSHA256; Some OpData32;
   Some OpEqualVerify; Some OpDup; Some OpBlake2b; Some OpData32; Some OpElse; None;
   Some OpCheckLockTimeVerify; Some OpDup; Some OpBlake2b; Some OpData32; Some OpEndIf;
   Some OpEqualVerify; Some OpCheckSig].

Definition isAtomicSwap (pops : list parsedOpcode) : bool :=
  forallb (fun '(t, pop) =>
    match t with
    | Some v => pop_value pop =? v
    | None => canonicalPush pop
    end) (zip atomic_swap_template pops).

Definition ExtractAtomicSwapDataPushes (version : Z) (scriptPubKey : bytes)
  : res error (option AtomicSwapDataPushes) :=
  let? pops := parse_res scriptPubKey in
  if negb (zlen pops =? 19) then Ok None else
  if negb (isAtomicSwap pops) then Ok None else
  let? p2 := index_res pops 2 in
  let? p5 := index_res pops 5 in
  let? p9 := index_res pops 9 in
  let? p11 := index_res pops 11 in
  let? p15 := index_res pops 15 in
  match pushed_number p2, pushed_number p11 with
  | Some size, Some locktime =>
      Ok (Some (mk_AtomicSwapDataPushes (copied 32 (data_of p9)) (copied 32 (data_of p15))
                  (copied 32 (data_of p5)) size (uint64 locktime)))
  | _, _ => Ok None
  end.

(** * The standard forms *)

Definition p2pk_script (key : bytes) : bytes := OpData32 :: key ++ [OpCheckSig].
Definition p2pk_ecdsa_script (key : bytes) : bytes := OpData33 :: key ++ [OpCheckSigECDSA].
Definition p2sh_script (hash : bytes) : bytes := OpBlake2b :: OpData32 :: hash ++ [OpEqual].

(** The opcode at [b] without data, and with data. *)
Definition plain (b : Z) : parsedOpcode := mk_parsedOpcode (op_at b) None.
Definition data_push (b : Z) (d : bytes) : parsedOpcode := mk_parsedOpcode (op_at b) (Some d).

Definition p2pk_pops (key : bytes) : list parsedOpcode := [data_push OpData32 key; plain OpCheckSig].
Definition p2pk_ecdsa_pops (key : bytes) : list parsedOpcode :=
  [data_push OpData33 key; plain OpCheckSigECDSA].
Definition p2sh_pops (hash : bytes) : list parsedOpcode :=
  [plain OpBlake2b; data_push OpData32 hash; plain OpEqual].

Lemma data_push_at b d : 1 <= b <= 75 -> payload_ok b d -> pop_at b (data_push b d).
Proof.
  intros Hb [Hl Hd]. assert (Hbyte : is_byte b) by (unfold is_byte; lia).
  split; [by apply op_at_lookup|]. cbn [data_push pop_data pop_opcode data_shape].
  rewrite op_at_length by done. replace ((1 <=? b) && (b <=? 75)) with true by lia.
  split; [done|]. left. lia.
Qed.

Lemma data_push_encode b d : 1 <= b <= 75 -> encode b (data_push b d) = b :: d.
Proof.
  intros Hb. unfold encode. cbn [data_push pop_opcode]. rewrite op_at_length by (unfold is_byte; lia).
  replace ((1 <=? b) && (b <=? 75)) with true by lia.
  by replace (Z.to_nat (- (b + 1))) with O by lia.
Qed.

Lemma plain_at b : is_byte b -> op_length (op_at b) = 1 -> pop_at b (plain b).
Proof. intros Hb Hl. split; [by apply op_at_lookup|done]. Qed.

Lemma parse_items items s :
  items_ok items -> encode_all items = s -> parseScript s = (map snd items, None).
Proof. intros Hok <-. by apply parseScript_encode. Qed.

Lemma p2pk_parse key : payload_ok 32 key -> parseScript (p2pk_script key) = (p2pk_pops key, None).
Proof.
  intros Hk. apply (parse_items [(OpData32, data_push OpData32 key); (OpCheckSig, plain OpCheckSig)]).
  - constructor; [by apply data_push_at|]. constructor; [by apply plain_at|done].
  - unfold encode_all. cbn [map concat]. by rewrite data_push_encode, app_nil_r.
Qed.

Lemma p2pk_ecdsa_parse key :
  payload_ok 33 key -> parseScript (p2pk_ecdsa_script key) = (p2pk_ecdsa_pops key, None).
Proof.
  intros Hk. apply (parse_items
    [(OpData33, data_push OpData33 key); (OpCheckSigECDSA, plain OpCheckSigECDSA)]).
  - constructor; [by apply data_push_at|]. constructor; [by apply plain_at|done].
  - unfold encode_all. cbn [map concat]. by rewrite data_push_encode, app_nil_r.
Qed.

Lemma p2sh_parse hash : payload_ok 32 hash -> parseScript (p2sh_script hash) = (p2sh_pops hash, None).
Proof.
  intros Hk. apply (parse_items [(OpBlake2b, plain OpBlake2b);
    (OpData32, data_push OpData32 hash); (OpEqual, plain OpEqual)]).
  - constructor; [by apply plain_at|]. constructor; [by apply data_push_at|].
    constructor; [by apply plain_at|done].
  - unfold encode_all. cbn [map concat]. by rewrite data_push_encode, app_nil_r.
Qed.

(** A parsed opcode with a value outside the shifted block is at its value. *)
Lemma item_value b pop v :
  pop_at b pop -> pop_value pop = v -> v < 188 \/ 197 < v -> b = v /\ pop_opcode pop = op_at v.
Proof.
  intros [Hop _] Hv Hr. unfold pop_value in Hv. pose proof (opcodeArray_value _ _ Hop) as Hval.
  assert (b = v) as -> by (unfold misnumbered in Hval; destruct (_ && _) eqn:?; lia).
  split; [done|]. unfold op_at. by rewrite Hop.
Qed.

Lemma item_data b pop v :
  pop_at b pop -> pop_value pop = v -> 1 <= v <= 75 ->
  exists d, payload_ok v d /\ b = v /\ pop = data_push v d.
Proof.
  intros Hat Hv Hr. destruct (item_value b pop v Hat Hv) as [-> Hop]; [lia|].
  destruct Hat as [_ Hd]. rewrite Hop, op_at_length in Hd by (unfold is_byte; lia).
  replace ((1 <=? v) && (v <=? 75)) with true in Hd by lia.
  destruct pop as [op [d|]]; cbn [pop_opcode pop_data data_shape] in *; [|lia].
  destruct Hd as [Hb [Hl|Hl]]; [|lia]. exists d. subst op. split_and!; try done. split; [lia|done].
Qed.

Lemma item_plain b pop v :
  pop_at b pop -> pop_value pop = v -> v < 188 \/ 197 < v -> op_length (op_at v) = 1 ->
  b = v /\ pop = plain v.
Proof.
  intros Hat Hv Hr Hl. destruct (item_value b pop v Hat Hv Hr) as [-> Hop]. split; [done|].
  destruct Hat as [_ Hd]. rewrite Hop, Hl in Hd. destruct pop as [op [d|]]; cbn [pop_opcode pop_data data_shape] in *; [|by rewrite Hop].
  destruct Hd as [_ [Hd|Hd]]; lia.
Qed.

(** What a script of each class parses to. *)
Lemma isPayToPubkey_items items :
  items_ok items -> isPayToPubkey (map snd items) = true ->
  exists key, payload_ok 32 key /\ encode_all items = p2pk_script key /\
    map snd items = p2pk_pops key.
Proof.
  intros Hok H. destruct items as [|[b0 p0] [|[b1 p1] [|]]]; try done.
  apply Forall_cons in Hok as [Ha0 Hok]. apply Forall_inv in Hok. cbn in H.
  apply andb_true_iff in H as [H0%Z.eqb_eq H1%Z.eqb_eq].
  destruct (item_data _ _ _ Ha0 H0) as (key & Hk & -> & ->); [done|].
  destruct (item_plain _ _ _ Hok H1) as [-> ->]; [by left|done|].
  exists key. split_and!; [done| |done].
  unfold encode_all. cbn [map concat]. rewrite data_push_encode by done. by rewrite app_nil_r.
Qed.

Lemma isPayToPubkeyECDSA_items items :
  items_ok items -> isPayToPubkeyECDSA (map snd items) = true ->
  exists key, payload_ok 33 key /\ encode_all items = p2pk_ecdsa_script key /\
    map snd items = p2pk_ecdsa_pops key.
Proof.
  intros Hok H. destruct items as [|[b0 p0] [|[b1 p1] [|]]]; try done.
  apply Forall_cons in Hok as [Ha0 Hok]. apply Forall_inv in Hok. cbn in H.
  apply andb_true_iff in H as [H0%Z.eqb_eq H1%Z.eqb_eq].
  destruct (item_data _ _ _ Ha0 H0) as (key & Hk & -> & ->); [done|].
  destruct (item_plain _ _ _ Hok H1) as [-> ->]; [by left|done|].
  exists key. split_and!; [done| |done].
  unfold encode_all. cbn [map concat]. rewrite data_push_encode by done. by rewrite app_nil_r.
Qed.

Lemma isScriptHash_items items :
  items_ok items -> isScriptHash (map snd items) = true ->
  exists hash, payload_ok 32 hash /\ encode_all items = p2sh_script hash /\
    map snd items = p2sh_pops hash.
Proof.
  intros Hok H. destruct items as [|[b0 p0] [|[b1 p1] [|[b2 p2] [|]]]]; try done.
  apply Forall_cons in Hok as [Ha0 Hok]. apply Forall_cons in Hok as [Ha1 Hok].
  apply Forall_inv in Hok. cbn in H.
  apply andb_true_iff in H as [[H0%Z.eqb_eq H1%Z.eqb_eq]%andb_true_iff H2%Z.eqb_eq].
  destruct (item_plain _ _ _ Ha0 H0) as [-> ->]; [by left|done|].
  destruct (item_data _ _ _ Ha1 H1) as (hash & Hk & -> & ->); [done|].
  destruct (item_plain _ _ _ Hok H2) as [-> ->]; [by left|done|].
  exists hash. split_and!; [done| |done].
  unfold encode_all. cbn [map concat]. rewrite data_push_encode by done. by rewrite app_nil_r.
Qed.

(** The class of a script and the script it is the class of. *)
Inductive class_form : Z -> bytes -> list parsedOpcode -> Prop :=
| form_pubkey key : payload_ok 32 key -> class_form PubKeyTy (p2pk_script key) (p2pk_pops key)
| form_pubkey_ecdsa key :
    payload_ok 33 key -> class_form PubKeyECDSATy (p2pk_ecdsa_script key) (p2pk_ecdsa_pops key)
| form_script_hash hash :
    payload_ok 32 hash -> class_form ScriptHashTy (p2sh_script hash) (p2sh_pops hash).

Lemma class_form_parse class s pops :
  class_form class s pops -> parseScript s = (pops, None) /\ typeOfScript pops = class.
Proof.
  destruct 1; split; try done; [by apply p2pk_parse|by apply p2pk_ecdsa_parse|by apply p2sh_parse].
Qed.

Lemma typeOfScript_form s pops :
  Forall is_byte s -> parseScript s = (pops, None) ->
  typeOfScript pops = NonStandardTy \/ class_form (typeOfScript pops) s pops.
Proof.
  intros Hb Hp. destruct (parseScript_spec s Hb) as (items & tail & err & H & Hok & Hs & He).
  rewrite Hp in H. injection H as -> <-. destruct He as [[_ ->]|[? _]]; [|done].
  rewrite app_nil_r in Hs. subst s. unfold typeOfScript.
  destruct (isPayToPubkey _) eqn:H1.
  { destruct (isPayToPubkey_items _ Hok H1) as (key & Hk & -> & ->). right. by constructor. }
  destruct (isPayToPubkeyECDSA _) eqn:H2.
  { destruct (isPayToPubkeyECDSA_items _ Hok H2) as (key & Hk & -> & ->). right. by constructor. }
  destruct (isScriptHash _) eqn:H3; [|by left].
  destruct (isScriptHash_items _ Hok H3) as (hash & Hk & -> & ->). right. by constructor.
Qed.

(** * Building the standard forms *)

Lemma AddData_short s d :
  2 <= zlen d <= 75 -> zlen s <= 1000 ->
  AddData (mk_ScriptBuilder s None) d = mk_ScriptBuilder (s ++ zlen d :: d) None.
Proof.
  intros Hd Hs. unfold AddData, canonicalDataSize, addData, sb_append, OpPushData1,
    MaxScriptElementSize. cbn [sb_err sb_script].
  replace (zlen d =? 0) with false by lia. replace (zlen d =? 1) with false by lia. cbn [andb orb].
  replace (zlen d <? 76) with true by lia.
  replace (zlen s + (1 + zlen d) >? MaxScriptSize) with false by (change MaxScriptSize with 10000; lia).
  replace (zlen d >? 520) with false by lia. cbn [sb_script sb_err].
  rewrite <- app_assoc. cbn [app]. rewrite uint8_id by (unfold is_byte, OpData1; lia).
  unfold OpData1. by replace (1 - 1 + zlen d) with (zlen d) by lia.
Qed.

Lemma AddOp_short s op :
  zlen s <= 1000 -> AddOp (mk_ScriptBuilder s None) op = mk_ScriptBuilder (s ++ [op]) None.
Proof.
  intros Hs. unfold AddOp. cbn [sb_err sb_script].
  by replace (zlen s + 1 >? MaxScriptSize) with false by (change MaxScriptSize with 10000; lia).
Qed.

Lemma payToPubKeyScript_eq key : payload_ok 32 key -> payToPubKeyScript key = Ok (p2pk_script key).
Proof.
  intros [Hl Hb]. unfold payToPubKeyScript, NewScriptBuilder.
  rewrite AddData_short, AddOp_short by zlia. cbn. by rewrite Hl.
Qed.

Lemma payToPubKeyScriptECDSA_eq key :
  payload_ok 33 key -> payToPubKeyScriptECDSA key = Ok (p2pk_ecdsa_script key).
Proof.
  intros [Hl Hb]. unfold payToPubKeyScriptECDSA, NewScriptBuilder.
  rewrite AddData_short, AddOp_short by zlia. cbn. by rewrite Hl.
Qed.

Lemma payToScriptHashScript_eq hash :
  payload_ok 32 hash -> payToScriptHashScript hash = Ok (p2sh_script hash).
Proof.
  intros [Hl Hb]. unfold payToScriptHashScript, NewScriptBuilder.
  rewrite AddOp_short, AddData_short, AddOp_short by zlia. cbn. by rewrite Hl.
Qed.

(** The script an address pays to, and its class. *)
Definition address_script (addr : Address) : Z * bytes :=
  match addr with
  | Addr_PublicKey (Some a) => (PubKeyTy, p2pk_script (apk_publicKey a))
  | Addr_PublicKeyECDSA (Some a) => (PubKeyECDSATy, p2pk_ecdsa_script (ecdsa_publicKey a))
  | Addr_ScriptHash (Some a) => (ScriptHashTy, p2sh_script (ash_hash a))
  | _ => (NonStandardTy, [])
  end.

Lemma PayToAddrScript_eq addr :
  address_ok addr -> PayToAddrScript addr = Ok (mk_ScriptPublicKey (snd (address_script addr)) 0).
Proof.
  destruct addr as [[a|]|[a|]|[a|]|]; try done; intros [_ Hp];
    cbn [PayToAddrScript address_script snd].
  - by rewrite payToPubKeyScript_eq.
  - by rewrite payToPubKeyScriptECDSA_eq.
  - by rewrite payToScriptHashScript_eq.
Qed.

(** Extraction from the three forms. *)
Lemma Extract_form class s pops prefix :
  class_form class s pops ->
  ExtractScriptPubKeyAddress (mk_ScriptPublicKey s 0) prefix =
  Ok (class, Some
    (if class =? PubKeyTy
     then Addr_PublicKey (Some (mk_AddressPublicKey prefix (data_of (default (plain 0) (pops !! 0%nat)))))
     else if class =? PubKeyECDSATy
     then Addr_PublicKeyECDSA
            (Some (mk_AddressPublicKeyECDSA prefix (data_of (default (plain 0) (pops !! 0%nat)))))
     else Addr_ScriptHash
            (Some (mk_AddressScriptHash prefix (data_of (default (plain 0) (pops !! 1%nat))))))).
Proof.
  intros Hf. destruct (class_form_parse _ _ _ Hf) as [Hp Ht].
  unfold ExtractScriptPubKeyAddress, parse_res. cbn [spk_Version spk_Script].
  change (0 >? MaxScriptPublicKeyVersion) with false. cbv iota. rewrite Hp. cbn [bind_res]. rewrite Ht.
  unfold NewAddressPublicKey, NewAddressPublicKeyECDSA, NewAddressScriptHashFromHash.
  destruct Hf as [key [Hl _]|key [Hl _]|hash [Hl _]].
  - change (index_res (p2pk_pops key) 0) with (Ok (E := error) (data_push OpData32 key)).
    change (data_of (default (plain 0) (p2pk_pops key !! 0%nat))) with key.
    cbn [bind_res Z.eqb Pos.eqb PubKeyTy]. change (data_of (data_push OpData32 key)) with key.
    by rewrite newAddressPubKey_eq, (proj2 (Z.eqb_eq (zlen key) PublicKeySize) Hl).
  - change (index_res (p2pk_ecdsa_pops key) 0) with (Ok (E := error) (data_push OpData33 key)).
    change (data_of (default (plain 0) (p2pk_ecdsa_pops key !! 0%nat))) with key.
    cbn [bind_res Z.eqb Pos.eqb PubKeyECDSATy PubKeyTy].
    change (data_of (data_push OpData33 key)) with key.
    by rewrite newAddressPubKeyECDSA_eq, (proj2 (Z.eqb_eq (zlen key) PublicKeySizeECDSA) Hl).
  - change (index_res (p2sh_pops hash) 1) with (Ok (E := error) (data_push OpData32 hash)).
    change (data_of (default (plain 0) (p2sh_pops hash !! 1%nat))) with hash.
    cbn [bind_res Z.eqb Pos.eqb PubKeyECDSATy PubKeyTy ScriptHashTy].
    change (data_of (data_push OpData32 hash)) with hash.
    by rewrite newAddressScriptHashFromHash_eq, (proj2 (Z.eqb_eq (zlen hash) blake2b_Size256) Hl).
Qed.

(** * Properties *)

(** A script is classified by its exact bytes: pay-to-pubkey is a 32-byte
    push and [OP_CHECKSIG], the ECDSA form a 33-byte push and
    [OP_CHECKSIGECDSA], pay-to-script-hash [OP_BLAKE2B], a 32-byte push and
    [OP_EQUAL]; every other script is nonstandard. *)
Theorem GetScriptClass_exact s :
  Forall is_byte s ->
  (GetScriptClass s = PubKeyTy <-> exists key, payload_ok 32 key /\ s = p2pk_script key) /\
  (GetScriptClass s = PubKeyECDSATy <-> exists key, payload_ok 33 key /\ s = p2pk_ecdsa_script key) /\
  (GetScriptClass s = ScriptHashTy <-> exists hash, payload_ok 32 hash /\ s = p2sh_script hash) /\
  0 <= GetScriptClass s <= 3.
Proof.
  intros Hb. assert (Hof : forall class s' pops, class_form class s' pops -> GetScriptClass s' = class).
  { intros class s' pops Hf. apply class_form_parse in Hf as [Hp Ht]. unfold GetScriptClass.
    by rewrite Hp. }
  assert (Hform : GetScriptClass s = NonStandardTy \/
    exists pops, class_form (GetScriptClass s) s pops).
  { unfold GetScriptClass. destruct (parseScript s) as [pops [e|]] eqn:Hp; [by left|].
    destruct (typeOfScript_form s pops Hb Hp); [by left|right; eauto]. }
  split_and!.
  - split; [|intros (key & Hk & ->); by eapply Hof, form_pubkey].
    intros Hc. rewrite Hc in Hform. destruct Hform as [|[pops Hf]]; [done|]. inversion Hf; eauto.
  - split; [|intros (key & Hk & ->); by eapply Hof, form_pubkey_ecdsa].
    intros Hc. rewrite Hc in Hform. destruct Hform as [|[pops Hf]]; [done|]. inversion Hf; eauto.
  - split; [|intros (hash & Hk & ->); by eapply Hof, form_script_hash].
    intros Hc. rewrite Hc in Hform. destruct Hform as [|[pops Hf]]; [done|]. inversion Hf; eauto.
  - destruct Hform as [->|[pops Hf]]; [done|]. by destruct Hf.
  - destruct Hform as [->|[pops Hf]]; [done|]. by destruct Hf.
Qed.

Lemma GetScriptClass_exact_witness :
  GetScriptClass (p2pk_script (replicate 32 7)) = PubKeyTy.
Proof.
  apply (proj1 (GetScriptClass_exact (p2pk_script (replicate 32 7))
    ltac:(apply (bool_decide_eq_true_1 _); by vm_compute))).
  exists (replicate 32 7). split; [|done]. split; [done|]. apply (bool_decide_eq_true_1 _). by vm_compute.
Defined.

(** The script that pays to a valid address is classified as the kind of the
    address, and the address extracted from it is that address. *)
Theorem Extract_PayToAddrScript addr :
  address_ok addr ->
  exists spk, PayToAddrScript addr = Ok spk /\
    ExtractScriptPubKeyAddress spk (address_prefix addr) =
    Ok (fst (address_script addr), Some addr).
Proof.
  intros Hok. exists (mk_ScriptPublicKey (snd (address_script addr)) 0).
  split; [by apply PayToAddrScript_eq|].
  destruct addr as [[[pre key]|]|[[pre key]|]|[[pre key]|]|]; cbn in Hok; try done;
    destruct Hok as [_ Hp]; cbn [address_script snd fst address_prefix apk_publicKey apk_prefix
      ecdsa_publicKey ecdsa_prefix ash_hash ash_prefix].
  - by rewrite (Extract_form _ _ _ pre (form_pubkey key Hp)).
  - by rewrite (Extract_form _ _ _ pre (form_pubkey_ecdsa key Hp)).
  - by rewrite (Extract_form _ _ _ pre (form_script_hash key Hp)).
Qed.

Lemma Extract_PayToAddrScript_witness :
  exists spk,
    PayToAddrScript (Addr_PublicKeyECDSA (Some (mk_AddressPublicKeyECDSA 2 (replicate 33 9)))) = Ok spk /\
    ExtractScriptPubKeyAddress spk 2 =
    Ok (PubKeyECDSATy, Some (Addr_PublicKeyECDSA (Some (mk_AddressPublicKeyECDSA 2 (replicate 33 9))))).
Proof.
  apply (Extract_PayToAddrScript
    (Addr_PublicKeyECDSA (Some (mk_AddressPublicKeyECDSA 2 (replicate 33 9))))).
  apply (bool_decide_eq_true_1 _). by vm_compute.
Defined.

(** An address extracted from a script is a valid address of the network,
    and the script is exactly the one that pays to it. *)
Theorem PayToAddrScript_Extract spk prefix class addr :
  Forall is_byte (spk_Script spk) -> 0 <= spk_Version spk -> known_prefix prefix ->
  ExtractScriptPubKeyAddress spk prefix = Ok (class, Some addr) ->
  address_prefix addr = prefix /\ address_ok addr /\ class = fst (address_script addr) /\
  PayToAddrScript addr = Ok spk.
Proof.
  intros Hb Hv Hk He. destruct spk as [s v]. cbn [spk_Script spk_Version] in *.
  unfold ExtractScriptPubKeyAddress in He. cbn [spk_Script spk_Version] in He.
  destruct (Z.gtb_spec v MaxScriptPublicKeyVersion) as [|Hmax]; [done|].
  assert (v = 0) as -> by (unfold MaxScriptPublicKeyVersion in Hmax; lia).
  destruct (parse_res s) as [pops|e|] eqn:Hp; [|done..]. unfold parse_res in Hp.
  destruct (parseScript s) as [pops' [e|]] eqn:Hps; [done|]. injection Hp as ->.
  cbn [bind_res] in He. destruct (typeOfScript_form s pops Hb Hps) as [Ht|Hf];
    [by rewrite Ht in He|].
  assert (He' : ExtractScriptPubKeyAddress (mk_ScriptPublicKey s 0) prefix = Ok (class, Some addr)).
  { unfold ExtractScriptPubKeyAddress, parse_res. cbn [spk_Script spk_Version]. by rewrite Hps. }
  rewrite (Extract_form _ _ _ prefix Hf) in He'. clear He Hps.
  destruct Hf as [key Hl|key Hl|hash Hl]; injection He' as <- <-; (split; [done|]);
    (split; [by split|]); (split; [done|]); rewrite PayToAddrScript_eq by (by split); done.
Qed.

Lemma PayToAddrScript_Extract_witness :
  PayToAddrScript (Addr_PublicKey (Some (mk_AddressPublicKey 1 (replicate 32 7)))) =
  Ok (mk_ScriptPublicKey (p2pk_script (replicate 32 7)) 0).
Proof.
  refine (proj2 (proj2 (proj2 (PayToAddrScript_Extract
    (mk_ScriptPublicKey (p2pk_script (replicate 32 7)) 0) 1 PubKeyTy
    (Addr_PublicKey (Some (mk_AddressPublicKey 1 (replicate 32 7)))) _ _ _ _)))).
  - apply (bool_decide_eq_true_1 _). by vm_compute.
  - done.
  - by split.
  - by vm_compute.
Defined.

(** The first script class after the known ones has no name: [String]
    panics on it, where it is documented to return "Invalid". *)
Theorem ScriptClass_String_panics : ScriptClass_String (ScriptHashTy + 1) = Panic.
Proof. done. Qed.

(** [CalcScriptInfo] panics on a pay-to-script-hash output spent with an
    empty signature script; it is documented to return an error when the pair
    cannot be analysed. *)
Theorem CalcScriptInfo_panics hash :
  payload_ok 32 hash -> CalcScriptInfo [] (p2sh_script hash) true = Panic.
Proof.
  intros Hk. unfold CalcScriptInfo, parse_res. rewrite p2sh_parse by done. done.
Qed.

Lemma CalcScriptInfo_panics_witness :
  CalcScriptInfo [] (p2sh_script (replicate 32 1)) true = Panic.
Proof.
  apply CalcScriptInfo_panics. split; [done|]. apply (bool_decide_eq_true_1 _). by vm_compute.
Defined.

(** An atomic swap contract with the lock time [t], built the way
    [AddLockTimeNumber] is meant to be used before [OP_CHECKLOCKTIMEVERIFY]. *)
Definition swap_contract (recipient refund secretHash : bytes) (t : Z) : res error bytes :=
  let b := AddOps NewScriptBuilder [OpIf; OpSize; OpData1; 32; OpEqualVerify; OpSHA256] in
  let b := AddOps (AddData b secretHash) [OpEqualVerify; OpDup; OpBlake2b] in
  let b := AddOp (AddData b recipient) OpElse in
  let? b := AddLockTimeNumber b t in
  let b := AddData (AddOps b [OpCheckLockTimeVerify; OpDup; OpBlake2b]) refund in
  Script_res (AddOps b [OpEndIf; OpEqualVerify; OpCheckSig]).

(** [ExtractAtomicSwapDataPushes] reads the lock time of a contract as a
    signed script number, [OP_CHECKLOCKTIMEVERIFY] and [AddLockTimeNumber] as
    an unsigned one: for the lock time 255 it reports 2^64 - 127, the contract
    for the lock time 128 it does not recognise, and below 128 they agree on
    100. *)
Theorem atomic_swap_locktime :
  let lock t :=
    let? script := swap_contract (replicate 32 1) (replicate 32 2) (replicate 32 3) t in
    let? pushes := ExtractAtomicSwapDataPushes 0 script in
    Ok (swap_LockTime <$> pushes) in
  lock 255 = Ok (Some (2 ^ 64 - 127)) /\ operand_uint64 [255] = Ok 255 /\
  lock 128 = Ok None /\ operand_uint64 [128] = Ok 128 /\
  lock 100 = Ok (Some 100) /\ operand_uint64 [100] = Ok 100.
Proof. split_and!; by vm_compute. Qed.
