(* ===== verification/Spending.v ===== *)
(** What spending the standard outputs takes, derived from the reference
    semantics of [EngineSpec.v]. *)

From S2P Require Import Prelude ScriptError ScriptNum Stack Opcodes Transaction.
From S2P Require Import Script Sha256 SigHash SigCache Engine EngineInv EngineStep EngineSim.
From S2P Require Import EngineSpec Address ScriptBuilder Standard.

Section spending.
Context `{C : Crypto} `{!CryptoLaws C} `{IT : MapIteration}.

(** * Running single opcodes *)

Lemma run_step pop pops vm vm' :
  executeOpcode pop vm = (Ok tt, vm') -> zlen (dstack vm') + zlen (astack vm') <= MaxStackSize ->
  run_opcodes (pop :: pops) vm = run_opcodes pops vm'.
Proof.
  intros He Hd. cbn [run_opcodes]. erewrite bind_ok by exact He.
  unfold bind at 1, check_depth. cbn. by replace (_ >? MaxStackSize) with false by lia.
Qed.

(** An opcode that counts, in an executing branch. *)
Lemma exec_counted pop vm :
  isDisabled pop = false -> alwaysIllegal pop = false -> Op16 < pop_value pop ->
  numOps vm < MaxOpsPerScript -> isBranchExecuting vm = true ->
  executeOpcode pop vm =
  opfunc_run (op_func (pop_opcode pop)) pop (set_numOps (numOps vm + 1) vm).
Proof.
  intros Hd Hi Hv Hn Hb. unfold executeOpcode. rewrite Hd, Hi.
  replace (pop_value pop >? Op16) with true by lia.
  unfold bind at 1. erewrite bind_ok by reflexivity. unfold bind at 1, get.
  cbn [numOps set_numOps]. replace (_ >? MaxOpsPerScript) with false by lia. cbn [ret].
  unfold executeOpcode_run. erewrite bind_ok by reflexivity.
  change (isBranchExecuting (set_numOps _ vm)) with (isBranchExecuting vm). rewrite Hb. cbn [negb andb].
  replace (pop_value pop <=? OpPushData4) with false by (unfold Op16, OpPushData4 in *; lia).
  rewrite andb_false_r. by erewrite bind_ok by reflexivity.
Qed.

(** A direct push of [2] to [75] bytes. *)
Lemma exec_data_push n d vm :
  2 <= n <= 75 -> zlen d = n -> isBranchExecuting vm = true ->
  executeOpcode (data_push n d) vm = (Ok tt, set_dstack (dstack vm ++ [d]) vm).
Proof.
  intros Hn Hl Hb. apply exec_pushdata; [lia|unfold MaxScriptElementSize; lia|done|].
  unfold checkMinimalDataPush, data_of. cbn [pop_data default from_option id].
  assert (Hv : pop_value (mk_parsedOpcode (op_at n) (Some d)) = n).
  { apply op_at_value; [unfold is_byte; lia|unfold misnumbered; lia]. }
  rewrite Hv, Hl. replace (n =? 0) with false by lia. replace (n =? 1) with false by lia. cbn [andb].
  replace (n <=? 75) with true by lia. by rewrite Z.eqb_refl.
Qed.

(** * Checking one signature *)

(** The answer of [OP_CHECKSIG] and [OP_CHECKSIGECDSA], without the engine. *)
Definition check_signature (k : SigKind) (tx : DomainTransaction) (i : Z) (pkBytes full : bytes)
  : res error bool :=
  match last full with
  | None => Ok false
  | Some hashType =>
      let sig := removelast full in
      if negb (IsStandardSigHashType hashType) then Err (scriptError ErrInvalidSigHashType) else
      let? _ := sk_checkSignatureLength k sig in
      let? _ := sk_checkPubKeyEncoding k pkBytes in
      match fst (sk_hash k tx i hashType NoReusedValues) with
      | Panic => Panic
      | Err _ => Ok false
      | Ok h =>
          match DeserializePubKey (sk_scheme k) pkBytes, DeserializeSignature (sk_scheme k) sig with
          | Some pubKey, Some signature =>
              if Verify (sk_scheme k) pubKey h signature then Ok true
              else if zlen sig >? 0 then Err (scriptError ErrNullFail) else Ok false
          | _, _ => Ok false
          end
      end
  end.

(** An engine that differs only in the hashes it remembers. *)
Definition up_to_reuse (vm vm' : Engine) : Prop := exists r, vm' = set_reused r vm.

Lemma snoc_last {A} (l : list A) x : last (l ++ [x]) = Some x.
Proof. by rewrite last_snoc. Qed.

Lemma pop_top d x vm :
  dstack vm = d ++ [x] -> zlen d < 1000 ->
  on_dstack PopByteArray vm = (Ok x, set_dstack d vm).
Proof.
  intros Hd Hl. unfold on_dstack, zoom. rewrite Hd, PopByteArray_run by zlia. done.
Qed.

Lemma bind_lift {A B} (r : res error A) (k : A -> M error Engine B) vm :
  bind (lift r) k vm =
  match r with Ok a => k a vm | Err e => (Err e, vm) | Panic => (Panic, vm) end.
Proof. by destruct r. Qed.

Lemma checkSig_pure (k : SigKind) `{!SimKind k} op vm d full pk :
  sk_cache k (set_dstack d vm) = None -> (forall r vm, sk_cache k (set_reused r vm) = sk_cache k vm) ->
  reuse_ok (tx vm) (sigHashReusedValues vm) ->
  dstack vm = d ++ [full; pk] -> zlen d < 900 ->
  match check_signature k (tx vm) (txIdx vm) pk full with
  | Ok b => exists r, checkSig k op vm = (Ok tt, set_dstack (d ++ [fromBool b]) (set_reused r vm))
  | Err e => exists vm', checkSig k op vm = (Err e, vm')
  | Panic => exists vm', checkSig k op vm = (Panic, vm')
  end.
Proof.
  intros Hc Hcr Hr Hd Hl. unfold checkSig.
  erewrite bind_ok by (apply (pop_top (d ++ [full]) pk vm); [by rewrite Hd, <- app_assoc|zlia]).
  erewrite bind_ok by (apply (pop_top d full); [done|zlia]).
  unfold check_signature. destruct full as [|ht full _] using rev_ind.
  { exists (sigHashReusedValues vm). by destruct vm. }
  rewrite last_snoc, removelast_last. replace (zlen (full ++ [ht]) <? 1) with false by zlia.
  erewrite bind_ok.
  2:{ unfold index, lift, index_res. rewrite lookupZ_app_r; [reflexivity|zlia]. }
  erewrite bind_ok.
  2:{ unfold slice, lift, slice_res. replace (_ && _ && _) with true by zlia.
      rewrite sliceZ_prefix by zlia. reflexivity. }
  destruct (IsStandardSigHashType ht); cbn [negb]; [|by eexists].
  rewrite bind_lift. destruct (sk_checkSignatureLength k full) as [[]|e|]; cbn [bind_res]; [|by eexists..].
  rewrite bind_lift. destruct (sk_checkPubKeyEncoding k pk) as [[]|e|]; cbn [bind_res]; [|by eexists..].
  erewrite bind_ok by reflexivity. cbn [tx txIdx set_dstack].
  pose proof (sim_hash (tx vm) (txIdx vm) ht (sigHashReusedValues vm) Hr) as [Hh _].
  set (vm1 := set_dstack d _).
  destruct (sk_hash k (tx vm) (txIdx vm) ht (sigHashReusedValues vm)) as [rh r] eqn:Hrun.
  assert (Htry : try (on_reused (sk_hash k (tx vm) (txIdx vm) ht)) vm1 =
    (match rh with Ok h => Ok (Some h) | Err _ => Ok None | Panic => Panic end, set_reused r vm1)).
  { unfold try, on_reused, zoom, vm1. cbn [sigHashReusedValues set_dstack]. rewrite Hrun. by destruct rh. }
  cbn [fst] in Hh. rewrite <- Hh. subst vm1.
  destruct rh as [h|e|]; [|erewrite bind_ok by exact Htry; by exists r|].
  2:{ unfold bind. rewrite Htry. by eexists. }
  erewrite bind_ok by exact Htry. cbv beta iota.
  destruct (DeserializePubKey (sk_scheme k) pk) as [pubKey|]; [|by exists r].
  destruct (DeserializeSignature (sk_scheme k) full) as [sg|]; [|by exists r].
  erewrite bind_ok.
  2:{ unfold verify_cached. erewrite bind_ok by reflexivity. rewrite Hcr.
      change (set_dstack d (set_dstack _ vm)) with (set_dstack d vm). rewrite Hc. reflexivity. }
  destruct (Verify (sk_scheme k) pubKey h sg); cbn [negb andb]; [by exists r|].
  destruct (zlen full >? 0); [by eexists|by exists r].
Qed.

(** * Pushing a key and checking a signature *)

Lemma run_opcodes_depth pops vm vm' :
  run_opcodes pops vm = (Ok tt, vm') -> zlen (dstack vm) <= MaxStackSize ->
  zlen (dstack vm') <= MaxStackSize.
Proof.
  revert vm. induction pops as [|pop pops IH]; intros vm Hr Hd; [by injection Hr as <-|].
  cbn [run_opcodes] in Hr. apply bind_inv in Hr as ([] & vm1 & He & Hr).
  apply bind_inv in Hr as ([] & vm2 & Hc & Hr). unfold check_depth, bind, get in Hc.
  destruct (_ >? MaxStackSize) eqn:Hgt; [done|]. injection Hc as <-. apply (IH vm1); [done|].
  zlen_facts. lia.
Qed.

Lemma eval_script_depth tx i pops d d' :
  eval_script tx i pops d = Ok d' -> zlen d <= MaxStackSize -> zlen d' <= MaxStackSize.
Proof.
  intros He Hd. unfold eval_script in He.
  destruct (run_opcodes pops (fresh tx i d)) as [[[]|e|] vm] eqn:Hr; [|done..].
  destruct (_ =? 0); [|done]. injection He as <-. by apply (run_opcodes_depth pops (fresh tx i d)).
Qed.

Lemma run_last pop vm r vm' :
  executeOpcode pop vm = (r, vm') ->
  (r = Ok tt -> zlen (dstack vm') + zlen (astack vm') <= MaxStackSize) ->
  run_opcodes [pop] vm = (r, vm').
Proof.
  intros He Hd. destruct r as [[]|e|].
  - by rewrite (run_step _ _ _ vm') by auto.
  - cbn [run_opcodes]. by erewrite bind_err by exact He.
  - cbn [run_opcodes]. unfold bind at 1. by rewrite He.
Qed.

Section checksig.
Context (k : SigKind) `{!SimKind k} (n op : Z).
Context (Hn : 2 <= n <= 75).
Context (Hcache : forall tx i d, sk_cache k (fresh tx i d) = None).
Context (Hframe : forall vm x y z, sk_cache k (set_numOps x vm) = sk_cache k vm /\
  sk_cache k (set_dstack y vm) = sk_cache k vm /\ sk_cache k (set_reused z vm) = sk_cache k vm).
Context (Hop : isDisabled (plain op) = false /\ alwaysIllegal (plain op) = false /\
  Op16 < pop_value (plain op)).
Context (Hfun : opfunc_run (op_func (op_at op)) = checkSig k).

(** The script evaluates to the answer of the check. *)
Lemma eval_key_checksig tx i key d full :
  zlen key = n -> zlen d + 2 <= MaxStackSize ->
  eval_script tx i [data_push n key; plain op] (d ++ [full]) =
  let? b := check_signature k tx i key full in Ok (d ++ [fromBool b]).
Proof.
  intros Hk Hd. unfold MaxStackSize in Hd. unfold eval_script.
  set (vm0 := fresh tx i (d ++ [full])).
  rewrite (run_step _ _ _ (set_dstack (d ++ [full; key]) vm0)).
  2:{ rewrite (exec_data_push n key vm0) by done. cbn [dstack vm0 fresh]. by rewrite <- app_assoc. }
  2:{ cbn. unfold MaxStackSize. zlia. }
  set (vm1 := set_numOps 1 (set_dstack (d ++ [full; key]) vm0)).
  assert (Hexec : executeOpcode (plain op) (set_dstack (d ++ [full; key]) vm0) = checkSig k (plain op) vm1).
  { destruct Hop as (H1 & H2 & H3). rewrite exec_counted by done. cbn [plain pop_opcode]. by rewrite Hfun. }
  pose proof (checkSig_pure k (plain op) vm1 d full key) as Hp.
  assert (Hc : sk_cache k (set_dstack d vm1) = None).
  { unfold vm1. rewrite (proj1 (proj2 (Hframe _ 0 d NoReusedValues))).
    rewrite (proj1 (Hframe _ 1 d NoReusedValues)), (proj1 (proj2 (Hframe _ 0 _ NoReusedValues))). apply Hcache. }
  specialize (Hp Hc ltac:(intros; apply (Hframe _ 0 []))).
  specialize (Hp (reuse_ok_empty tx) eq_refl ltac:(lia)).
  change (Engine.tx vm1) with tx in Hp. change (txIdx vm1) with i in Hp.
  destruct (check_signature k tx i key full) as [b|e|]; cbn [bind_res].
  - destruct Hp as [r Hp]. rewrite <- Hexec in Hp. rewrite (run_last _ _ _ _ Hp); [done|].
    intros _. cbn. unfold MaxStackSize. zlia.
  - destruct Hp as [vm' Hp]. rewrite <- Hexec in Hp. by rewrite (run_last _ _ _ _ Hp).
  - destruct Hp as [vm' Hp]. rewrite <- Hexec in Hp. by rewrite (run_last _ _ _ _ Hp).
Qed.

(** It fails without an item to check, or without room for the key. *)
Lemma eval_key_checksig_inv tx i key d d' :
  zlen key = n -> zlen d <= MaxStackSize ->
  eval_script tx i [data_push n key; plain op] d = Ok d' ->
  exists e full b, d = e ++ [full] /\ check_signature k tx i key full = Ok b /\ d' = e ++ [fromBool b].
Proof.
  intros Hk Hd He. unfold MaxStackSize in Hd.
  destruct (Z.leb_spec (zlen d + 1) MaxStackSize) as [Hroom|Hfull].
  - destruct d as [|full d _] using rev_ind.
    + exfalso. unfold eval_script in He.
      rewrite (run_step _ _ _ (set_dstack [key] (fresh tx i []))) in He; [|by apply exec_data_push|done].
      assert (Hexec : executeOpcode (plain op) (set_dstack [key] (fresh tx i [])) =
        checkSig k (plain op) (set_numOps 1 (set_dstack [key] (fresh tx i [])))).
      { destruct Hop as (H1 & H2 & H3). rewrite exec_counted by done. cbn [plain pop_opcode].
        by rewrite Hfun. }
      cbn [run_opcodes] in He. erewrite bind_err in He by (rewrite Hexec; reflexivity). done.
    + rewrite zlen_app in Hroom. rewrite eval_key_checksig in He by (done || zlia).
      destruct (check_signature k tx i key full) as [b|e|] eqn:Hcs; [|done..].
      injection He as <-. by exists d, full, b.
  - exfalso. unfold eval_script in He. cbn [run_opcodes] in He.
    unfold bind at 1 in He. rewrite (exec_data_push n key) in He by done.
    unfold bind at 1, check_depth in He. cbn in He. unfold MaxStackSize in *.
    by replace (_ >? 244) with true in He by zlia.
Qed.

End checksig.

(** * Pay to public key *)

(** What an accepted signature is: the serialized signature and a standard hash
    type, where the signature verifies with the key over the hash of the
    transaction for that input and hash type. *)
Definition sig_accepts (k : SigKind) (tx : DomainTransaction) (i : Z) (key full : bytes) : Prop :=
  exists sig hashType pubKey signature h,
    full = sig ++ [hashType] /\ IsStandardSigHashType hashType = true /\ zlen sig = 64 /\
    DeserializePubKey (sk_scheme k) key = Some pubKey /\
    DeserializeSignature (sk_scheme k) sig = Some signature /\
    fst (sk_hash k tx i hashType NoReusedValues) = Ok h /\
    Verify (sk_scheme k) pubKey h signature = true.

Lemma check_signature_true k tx i key full :
  sk_checkPubKeyEncoding k key = Ok tt ->
  (forall sig, sk_checkSignatureLength k sig =
     if negb (zlen sig =? 64) then Err (scriptError ErrSigLength) else Ok tt) ->
  check_signature k tx i key full = Ok true <-> sig_accepts k tx i key full.
Proof.
  intros Hkey Hlen. unfold check_signature, sig_accepts. split.
  - destruct full as [|ht sig _] using rev_ind; [done|]. rewrite last_snoc, removelast_last, Hlen, Hkey.
    destruct (IsStandardSigHashType ht) eqn:Hst; [|done]. cbn [negb].
    destruct (Z.eqb_spec (zlen sig) 64) as [Hl64|]; [|done]. cbn [negb bind_res].
    destruct (fst (sk_hash k tx i ht NoReusedValues)) as [h|e|] eqn:Hh; [|done..].
    destruct (DeserializePubKey (sk_scheme k) key) as [pk|] eqn:Hpk; [|done].
    destruct (DeserializeSignature (sk_scheme k) sig) as [s|] eqn:Hs; [|done].
    destruct (Verify (sk_scheme k) pk h s) eqn:Hv; [|by case_if]. intros _.
    by exists sig, ht, pk, s, h.
  - intros (sig & ht & pk & s & h & -> & Hst & Hl & Hpk & Hs & Hh & Hv).
    rewrite last_snoc, removelast_last, Hlen, Hkey, Hst, Hl, Hh, Hpk, Hs. cbn. by rewrite Hv.
Qed.

Lemma final_check_snoc d b : final_check (d ++ [fromBool b]) = Ok tt <-> d = [] /\ b = true.
Proof.
  split; [|by intros [-> ->]]. destruct d as [|x [|y d]]; cbn; [|done..]. by destruct b.
Qed.

(** The items a signature script leaves: it parses within the size limit, only
    pushes, and evaluates to them. *)
Definition pushes (tx : DomainTransaction) (i : Z) (sigScript : bytes) (items : stack) : Prop :=
  exists s0, parseScriptAndVerifySize sigScript = Ok s0 /\ isPushOnly s0 = true /\
    eval_script tx i s0 [] = Ok items.

(** The reference on an output of the current version. *)
Lemma reference_spend spk tx i txIn s1 :
  lookupZ (Inputs tx) i = Some txIn -> spk_Version spk <= MaxScriptPublicKeyVersion ->
  spk_Script spk <> [] -> parseScriptAndVerifySize (spk_Script spk) = Ok s1 ->
  reference spk tx i = Ok tt <->
  exists s0, parseScriptAndVerifySize (SignatureScript txIn) = Ok s0 /\ isPushOnly s0 = true /\
    eval_spend tx i s0 s1 = Ok tt.
Proof.
  intros Htx Hv Hne Hs1. unfold reference. rewrite Htx.
  rewrite (bool_decide_false (spk_Script spk = [])) by done. rewrite andb_false_r.
  replace (spk_Version spk >? MaxScriptPublicKeyVersion) with false by lia.
  destruct (parseScriptAndVerifySize (SignatureScript txIn)) as [s0|e|]; cbn [bind_res];
    [|split; [done|by intros (s0 & ? & _)]..].
  destruct (isPushOnly s0) eqn:Hpo; cbn [negb].
  - rewrite Hs1. cbn [bind_res]. split; [by exists s0|]. by intros (s0' & [= <-] & _ & ?).
  - split; [done|]. intros (s0' & [= <-] & ? & _). congruence.
Qed.

(** Two-opcode scripts that check one signature. *)
Lemma eval_spend_checksig k tx i s0 s1 key :
  isScriptHash s1 = false -> zlen key < 100 ->
  (forall d full, zlen d + 2 <= MaxStackSize -> eval_script tx i s1 (d ++ [full]) =
     let? b := check_signature k tx i key full in Ok (d ++ [fromBool b])) ->
  (forall d d', zlen d <= MaxStackSize -> eval_script tx i s1 d = Ok d' ->
     exists e full b, d = e ++ [full] /\ check_signature k tx i key full = Ok b /\
       d' = e ++ [fromBool b]) ->
  eval_spend tx i s0 s1 = Ok tt <->
  exists full, eval_script tx i s0 [] = Ok [full] /\ check_signature k tx i key full = Ok true.
Proof.
  intros Hsh Hk Hev Hinv. unfold eval_spend. rewrite Hsh. split.
  - intros H. destruct (eval_script tx i s0 []) as [d1|e|] eqn:H1; [|done..]. cbn [bind_res] in H.
    destruct (eval_script tx i s1 d1) as [d2|e|] eqn:H2; [|done..]. cbn [bind_res] in H.
    apply Hinv in H2 as (e & full & b & -> & Hc & ->).
    2:{ by apply (eval_script_depth tx i s0 []). }
    apply final_check_snoc in H as [-> ->]. by exists full.
  - intros (full & -> & Hc). cbn [bind_res].
    pose proof (Hev [] full ltac:(done)) as H. cbn [app] in H. by rewrite H, Hc.
Qed.

Lemma spend_single k spk s1 key tx i flags c1 c2 r txIn :
  lookupZ (Inputs tx) i = Some txIn -> valid_args spk tx i c1 c2 r -> spk_Version spk = 0 ->
  spk_Script spk <> [] -> parseScriptAndVerifySize (spk_Script spk) = Ok s1 ->
  sk_checkPubKeyEncoding k key = Ok tt ->
  (forall sig, sk_checkSignatureLength k sig =
     if negb (zlen sig =? 64) then Err (scriptError ErrSigLength) else Ok tt) ->
  (forall s0, eval_spend tx i s0 s1 = Ok tt <->
     exists full, eval_script tx i s0 [] = Ok [full] /\ check_signature k tx i key full = Ok true) ->
  run_input spk tx i flags c1 c2 r = Ok tt <->
  exists full, pushes tx i (SignatureScript txIn) [full] /\ sig_accepts k tx i key full.
Proof.
  intros Htx Hva Hv Hne Hp Hkey Hlen Hiff. rewrite run_input_reference by done.
  assert (Hver : spk_Version spk <= MaxScriptPublicKeyVersion) by by rewrite Hv.
  rewrite (reference_spend spk tx i txIn s1 Htx Hver Hne Hp).
  setoid_rewrite Hiff. setoid_rewrite (check_signature_true k tx i key _ Hkey Hlen).
  unfold pushes. split.
  - intros (s0 & H1 & H2 & full & H3 & H4). exists full. split; [by exists s0|done].
  - intros (full & (s0 & H1 & H2 & H3) & H4). exists s0. split_and!; try done. by exists full.
Qed.

Lemma parse_verify_small s pops :
  zlen s <= 1000 -> parseScript s = (pops, None) -> parseScriptAndVerifySize s = Ok pops.
Proof.
  intros Hl Hp. unfold parseScriptAndVerifySize. rewrite Hp.
  by replace (_ >? MaxScriptSize) with false by (unfold MaxScriptSize; lia).
Qed.

Lemma p2pk_spend_iff key tx i flags c1 c2 r txIn :
  let spk := mk_ScriptPublicKey (p2pk_script key) 0 in
  payload_ok 32 key -> lookupZ (Inputs tx) i = Some txIn -> valid_args spk tx i c1 c2 r ->
  run_input spk tx i flags c1 c2 r = Ok tt <->
  exists full, pushes tx i (SignatureScript txIn) [full] /\ sig_accepts SchnorrKind tx i key full.
Proof.
  intros spk Hk Htx Hva. assert (Hl : zlen key = 32) by apply Hk.
  apply (spend_single SchnorrKind spk (p2pk_pops key)); try done.
  - apply parse_verify_small; [unfold spk, p2pk_script; cbn [spk_Script]; zlia|by apply p2pk_parse].
  - cbn. unfold checkPubKeyEncoding. by rewrite Hl.
  - intros s0. apply eval_spend_checksig; [done|lia| |].
    + intros d full Hd. by apply (eval_key_checksig SchnorrKind 32 OpCheckSig).
    + intros d d' Hd. by apply (eval_key_checksig_inv SchnorrKind 32 OpCheckSig).
Qed.

(** An output that pays to a public key is spent exactly by one item, a
    64-byte signature followed by a standard hash type, that verifies with the
    key over the signature hash of the input; signature script encoding,
    caches and flags make no other difference. *)
Theorem p2pk_spend key tx i flags c1 c2 r txIn :
  let spk := mk_ScriptPublicKey (p2pk_script key) 0 in
  payload_ok 32 key -> lookupZ (Inputs tx) i = Some txIn -> valid_args spk tx i c1 c2 r ->
  run_input spk tx i flags c1 c2 r = Ok tt <->
  exists full, pushes tx i (SignatureScript txIn) [full] /\ sig_accepts SchnorrKind tx i key full.
Proof. apply p2pk_spend_iff. Qed.

Lemma p2pk_ecdsa_spend_iff key tx i flags c1 c2 r txIn :
  let spk := mk_ScriptPublicKey (p2pk_ecdsa_script key) 0 in
  payload_ok 33 key -> lookupZ (Inputs tx) i = Some txIn -> valid_args spk tx i c1 c2 r ->
  run_input spk tx i flags c1 c2 r = Ok tt <->
  exists full, pushes tx i (SignatureScript txIn) [full] /\ sig_accepts ECDSAKind tx i key full.
Proof.
  intros spk Hk Htx Hva. assert (Hl : zlen key = 33) by apply Hk.
  apply (spend_single ECDSAKind spk (p2pk_ecdsa_pops key)); try done.
  - apply parse_verify_small; [unfold spk, p2pk_ecdsa_script; cbn [spk_Script]; zlia|by apply p2pk_ecdsa_parse].
  - cbn. unfold checkPubKeyEncodingECDSA. by rewrite Hl.
  - intros s0. apply eval_spend_checksig; [done|lia| |].
    + intros d full Hd. by apply (eval_key_checksig ECDSAKind 33 OpCheckSigECDSA).
    + intros d d' Hd. by apply (eval_key_checksig_inv ECDSAKind 33 OpCheckSigECDSA).
Qed.

(** The same for an output that pays to an ECDSA public key: the item is
    checked with the 33-byte key, by ECDSA, over the ECDSA signature hash. *)
Theorem p2pk_ecdsa_spend key tx i flags c1 c2 r txIn :
  let spk := mk_ScriptPublicKey (p2pk_ecdsa_script key) 0 in
  payload_ok 33 key -> lookupZ (Inputs tx) i = Some txIn -> valid_args spk tx i c1 c2 r ->
  run_input spk tx i flags c1 c2 r = Ok tt <->
  exists full, pushes tx i (SignatureScript txIn) [full] /\ sig_accepts ECDSAKind tx i key full.
Proof. apply p2pk_ecdsa_spend_iff. Qed.

(** * Pay to script hash *)

Lemma exec_blake2b vm d x :
  dstack vm = d ++ [x] -> zlen d < 900 -> numOps vm < MaxOpsPerScript -> isBranchExecuting vm = true ->
  executeOpcode (plain OpBlake2b) vm =
  (Ok tt, set_dstack (d ++ [blake2b_Sum256 x]) (set_numOps (numOps vm + 1) vm)).
Proof.
  intros Hd Hl Hn Hb. rewrite exec_counted by done.
  change (opfunc_run (op_func (pop_opcode (plain OpBlake2b)))) with opcodeBlake2b.
  unfold opcodeBlake2b. erewrite bind_ok by (by apply (pop_top d x); [|lia]). done.
Qed.

Lemma exec_equal vm d x y :
  dstack vm = d ++ [x; y] -> zlen d < 900 -> numOps vm < MaxOpsPerScript ->
  isBranchExecuting vm = true ->
  executeOpcode (plain OpEqual) vm =
  (Ok tt, set_dstack (d ++ [fromBool (bytes_eqb y x)]) (set_numOps (numOps vm + 1) vm)).
Proof.
  intros Hd Hl Hn Hb. rewrite exec_counted by done.
  change (opfunc_run (op_func (pop_opcode (plain OpEqual)))) with opcodeEqual. unfold opcodeEqual.
  erewrite bind_ok by (apply (pop_top (d ++ [x]) y); [by rewrite <- app_assoc|zlia]).
  erewrite bind_ok by (by apply (pop_top d x); [|lia]). done.
Qed.

(** The script replaces the redeem script by the comparison of its hash. *)
Lemma eval_p2sh tx i hash d x :
  zlen hash = 32 -> zlen d + 2 <= MaxStackSize ->
  eval_script tx i (p2sh_pops hash) (d ++ [x]) =
  Ok (d ++ [fromBool (bytes_eqb hash (blake2b_Sum256 x))]).
Proof.
  intros Hh Hd. unfold MaxStackSize in Hd. unfold eval_script, p2sh_pops.
  rewrite (run_step _ _ _ _ (exec_blake2b (fresh tx i (d ++ [x])) d x eq_refl ltac:(lia) eq_refl eq_refl)).
  2:{ cbn. unfold MaxStackSize. zlia. }
  erewrite run_step.
  2:{ apply (exec_data_push 32); [done|done|]. reflexivity. }
  2:{ cbn. unfold MaxStackSize. zlia. }
  erewrite run_step.
  2:{ apply (exec_equal _ d (blake2b_Sum256 x) hash); [|lia|done|done].
      cbn [dstack set_dstack]. by rewrite <- app_assoc. }
  2:{ cbn. unfold MaxStackSize. zlia. }
  done.
Qed.

Lemma eval_p2sh_inv tx i hash d d' :
  zlen hash = 32 -> zlen d <= MaxStackSize -> eval_script tx i (p2sh_pops hash) d = Ok d' ->
  exists items x, d = items ++ [x] /\ zlen items + 2 <= MaxStackSize.
Proof.
  intros Hh Hd He. unfold MaxStackSize in Hd.
  destruct d as [|x d _] using rev_ind; [done|]. exists d, x. split; [done|].
  destruct (Z.leb_spec (zlen d + 2) MaxStackSize) as [|Hfull]; [done|exfalso].
  unfold MaxStackSize in Hfull. rewrite zlen_app in Hd. change (zlen [x]) with 1 in Hd.
  unfold eval_script, p2sh_pops in He.
  rewrite (run_step _ _ _ _ (exec_blake2b (fresh tx i (d ++ [x])) d x eq_refl ltac:(lia) eq_refl eq_refl))
    in He by (cbn; unfold MaxStackSize; zlia).
  cbn [run_opcodes] in He. unfold bind at 1 in He. rewrite (exec_data_push 32) in He by done.
  unfold bind at 1, check_depth in He. cbn in He. unfold MaxStackSize in *.
  by replace (_ >? 244) with true in He by zlia.
Qed.

Lemma fromBool_top d b : check_top (d ++ [fromBool b]) = Ok tt <-> b = true.
Proof. unfold check_top. rewrite last_snoc. by destruct b. Qed.

Lemma p2sh_spend_iff hash tx i flags c1 c2 r txIn :
  let spk := mk_ScriptPublicKey (p2sh_script hash) 0 in
  payload_ok 32 hash -> lookupZ (Inputs tx) i = Some txIn -> valid_args spk tx i c1 c2 r ->
  run_input spk tx i flags c1 c2 r = Ok tt <->
  exists items redeem s2 d,
    pushes tx i (SignatureScript txIn) (items ++ [redeem]) /\ zlen items + 2 <= MaxStackSize /\
    blake2b_Sum256 redeem = hash /\ parseScript redeem = (s2, None) /\
    eval_script tx i s2 items = Ok d /\ final_check d = Ok tt.
Proof.
  intros spk Hk Htx Hva. rewrite run_input_reference by done. assert (Hl : zlen hash = 32) by apply Hk.
  assert (Hp : parseScriptAndVerifySize (p2sh_script hash) = Ok (p2sh_pops hash)).
  { apply parse_verify_small; [unfold p2sh_script; zlia|by apply p2sh_parse]. }
  rewrite (reference_spend spk tx i txIn _ Htx ltac:(done) ltac:(done) Hp). unfold pushes, eval_spend.
  change (isScriptHash (p2sh_pops hash)) with true. cbv iota. split.
  - intros (s0 & H1 & H2 & H). destruct (eval_script tx i s0 []) as [d1|e|] eqn:He; [|done..].
    cbn [bind_res] in H. assert (Hd1 : zlen d1 <= MaxStackSize) by by apply (eval_script_depth tx i s0 []).
    destruct (eval_script tx i (p2sh_pops hash) d1) as [d2|e|] eqn:Hd2; [|done..]. cbn [bind_res] in H.
    destruct (eval_p2sh_inv _ _ _ _ _ Hl Hd1 Hd2) as (items & x & -> & Hroom).
    rewrite eval_p2sh in Hd2 by done. injection Hd2 as <-.
    destruct (check_top _) as [[]|e|] eqn:Ht; [|done..]. apply fromBool_top in Ht.
    apply bool_decide_eq_true in Ht. cbn [bind_res] in H. unfold eval_redeem in H.
    rewrite last_snoc, removelast_last in H. destruct (parseScript x) as [s2 [e|]] eqn:Hps; [done|].
    destruct (eval_script tx i s2 items) as [d3|e|] eqn:H3; [|done..].
    exists items, x, s2, d3. split_and!; try done. by exists s0.
  - intros (items & x & s2 & d & (s0 & H1 & H2 & H3) & Hroom & Hhash & Hps & He & Hf).
    exists s0. split_and!; [done|done|]. rewrite H3. cbn [bind_res]. rewrite eval_p2sh by done. cbn [bind_res].
    rewrite (proj2 (fromBool_top items _)) by (apply bool_decide_eq_true; congruence). cbn [bind_res].
    unfold eval_redeem. rewrite last_snoc, removelast_last, Hps, He. done.
Qed.

(** C20: An output that pays to a script hash is spent exactly by items topped by
    a script with that hash, which parses, and run on the items below it
    leaves a single true item; the items must leave room on the stack for the
    hash the public key script pushes. *)
Theorem p2sh_spend hash tx i flags c1 c2 r txIn :
  let spk := mk_ScriptPublicKey (p2sh_script hash) 0 in
  payload_ok 32 hash -> lookupZ (Inputs tx) i = Some txIn -> valid_args spk tx i c1 c2 r ->
  run_input spk tx i flags c1 c2 r = Ok tt <->
  exists items redeem s2 d,
    pushes tx i (SignatureScript txIn) (items ++ [redeem]) /\ zlen items + 2 <= MaxStackSize /\
    blake2b_Sum256 redeem = hash /\ parseScript redeem = (s2, None) /\
    eval_script tx i s2 items = Ok d /\ final_check d = Ok tt.
Proof. apply p2sh_spend_iff. Qed.

End spending.

(** * Concrete spends *)

#[local] Existing Instance test_crypto.
#[local] Existing Instance test_crypto_laws.
#[local] Existing Instance test_iteration.

Definition test_key (n : nat) : bytes := replicate n 2.

(** The signature of the concrete scheme for a spend of [spk] by [key], pushed. *)
Definition test_sigScript (hash : DomainTransaction -> Z -> Z -> M error SighashReusedValues bytes)
    (spk : ScriptPublicKey) (key : bytes) : bytes :=
  65 :: match fst (hash (spend_tx spk []) 0 SigHashAll NoReusedValues) with
        | Ok h => h
        | _ => []
        end ++ drop (length key - 32) key ++ [SigHashAll].

Definition test_p2pk : ScriptPublicKey := mk_ScriptPublicKey (p2pk_script (test_key 32)) 0.
Definition test_p2pk_tx : DomainTransaction :=
  spend_tx test_p2pk
    (test_sigScript CalculateSignatureHashSchnorr test_p2pk (test_key 32)).

Definition test_p2pk_ecdsa : ScriptPublicKey := mk_ScriptPublicKey (p2pk_ecdsa_script (test_key 33)) 0.
Definition test_p2pk_ecdsa_tx : DomainTransaction :=
  spend_tx test_p2pk_ecdsa
    (test_sigScript CalculateSignatureHashECDSA test_p2pk_ecdsa (test_key 33)).

(** [OP_3 <add script>], the redeem script of [EngineStep.v] behind its hash. *)
Definition test_p2sh : ScriptPublicKey :=
  mk_ScriptPublicKey (p2sh_script (Sum256 (spk_Script add_script))) 0.
Definition test_p2sh_tx : DomainTransaction :=
  spend_tx test_p2sh (Op3 :: 4 :: spk_Script add_script).

Lemma p2pk_spend_witness :
  exists full, pushes test_p2pk_tx 0
      (test_sigScript CalculateSignatureHashSchnorr test_p2pk (test_key 32)) [full] /\
    sig_accepts SchnorrKind test_p2pk_tx 0 (test_key 32) full.
Proof.
  refine (proj1 (p2pk_spend (test_key 32) test_p2pk_tx 0 0
    None None NoReusedValues _ _ eq_refl _) _).
  - split; [done|]. apply (bool_decide_eq_true_1 _). vm_compute. reflexivity.
  - apply spend_tx_valid; apply (bool_decide_eq_true_1 _); vm_compute; reflexivity.
  - vm_compute. reflexivity.
Defined.

Lemma p2pk_ecdsa_spend_witness :
  exists full, pushes test_p2pk_ecdsa_tx 0
      (test_sigScript CalculateSignatureHashECDSA test_p2pk_ecdsa (test_key 33)) [full] /\
    sig_accepts ECDSAKind test_p2pk_ecdsa_tx 0 (test_key 33) full.
Proof.
  refine (proj1 (p2pk_ecdsa_spend (test_key 33)
    test_p2pk_ecdsa_tx 0 0 None None NoReusedValues _ _ eq_refl _) _).
  - split; [done|]. apply (bool_decide_eq_true_1 _). vm_compute. reflexivity.
  - apply spend_tx_valid; apply (bool_decide_eq_true_1 _); vm_compute; reflexivity.
  - vm_compute. reflexivity.
Defined.

Lemma p2sh_spend_witness :
  exists items redeem s2 d,
    pushes test_p2sh_tx 0 (Op3 :: 4 :: spk_Script add_script)
      (items ++ [redeem]) /\
    zlen items + 2 <= MaxStackSize /\
    Sum256 redeem = Sum256 (spk_Script add_script) /\ parseScript redeem = (s2, None) /\
    eval_script test_p2sh_tx 0 s2 items = Ok d /\ final_check d = Ok tt.
Proof.
  refine (proj1 (p2sh_spend
    (Sum256 (spk_Script add_script)) test_p2sh_tx 0 0 None None NoReusedValues _ _ eq_refl _) _).
  - split; [done|]. apply Sum256_bytes.
  - apply spend_tx_valid; apply (bool_decide_eq_true_1 _); vm_compute; reflexivity.
  - vm_compute. reflexivity.
Defined.
