(* ===== verification/MultiSig.v ===== *)
(** Signature thresholds: [OP_CHECKMULTISIG] and [OP_CHECKMULTISIGECDSA] accept
    exactly the signatures that can be matched, in order, with a subsequence of
    the keys. *)

From S2P Require Import Prelude ScriptError ScriptNum Stack Opcodes Transaction.
From S2P Require Import Script Sha256 SigHash SigCache Engine EngineInv EngineStep EngineSim.
From S2P Require Import EngineSpec Address ScriptBuilder Standard Spending.

(** * Greedy matching *)

Lemma sublist_reverse_mono {A} (l k : list A) :
  l `sublist_of` k -> reverse l `sublist_of` reverse k.
Proof.
  induction 1 as [|x l k _ IH|x l k _ IH]; [done|rewrite !reverse_cons; by apply sublist_app|].
  rewrite reverse_cons. by apply sublist_inserts_r.
Qed.

Section greedy.
Context {A B : Type} (valid : A -> B -> bool).

(** What the loop computes: each key is tried with the first signature left,
    and the search is given up when there are fewer keys than signatures. *)
Fixpoint greedy (sigs : list A) (keys : list B) : bool :=
  match keys with
  | [] => bool_decide (sigs = [])
  | key :: keys' =>
      match sigs with
      | [] => true
      | sig :: sigs' =>
          if zlen sigs >? zlen keys then false
          else if valid sig key then greedy sigs' keys' else greedy sigs keys'
      end
  end.

(** A subsequence of the keys, in order, one for each signature. *)
Definition matching (sigs : list A) (keys : list B) : Prop :=
  exists used, used `sublist_of` keys /\ Forall2 (fun sig key => valid sig key = true) sigs used.

Lemma matching_length sigs keys : matching sigs keys -> zlen sigs <= zlen keys.
Proof.
  intros (used & Hs & Hf). apply sublist_length in Hs. apply Forall2_length in Hf. unfold zlen. lia.
Qed.

Lemma matching_nil keys : matching [] keys.
Proof. exists []. split; [apply sublist_nil_l|constructor]. Qed.

(** If the first signature verifies with the first key, using it loses nothing. *)
Lemma matching_take sig sigs key keys :
  valid sig key = true -> matching (sig :: sigs) (key :: keys) <-> matching sigs keys.
Proof.
  intros Hv. split.
  - intros (used & Hs & Hf). inversion Hf as [|? u ? used' Hu Hf']; subst.
    exists used'. split; [|done]. inversion Hs; subst; [done|].
    etrans; [|eassumption]. by constructor.
  - intros (used & Hs & Hf). exists (key :: used). split; [by constructor|by constructor].
Qed.

Lemma matching_skip sig sigs key keys :
  valid sig key = false -> matching (sig :: sigs) (key :: keys) <-> matching (sig :: sigs) keys.
Proof.
  intros Hv. split.
  - intros (used & Hs & Hf). exists used. split; [|done].
    inversion Hf as [|? u ? used' Hu Hf']; subst. inversion Hs; subst; [congruence|done].
  - intros (used & Hs & Hf). exists used. split; [by constructor|done].
Qed.

Lemma greedy_matching sigs keys : greedy sigs keys = true <-> matching sigs keys.
Proof.
  revert sigs. induction keys as [|key keys IH]; intros sigs; cbn [greedy].
  { rewrite bool_decide_eq_true. split; [intros ->; apply matching_nil|].
    intros H. apply matching_length in H. apply zlen_0. zlen_facts. zlia. }
  destruct sigs as [|sig sigs]; [split; [intros _; apply matching_nil|done]|].
  destruct (Z.gtb_spec (zlen (sig :: sigs)) (zlen (key :: keys))).
  { split; [done|]. intros H'%matching_length. lia. }
  destruct (valid sig key) eqn:Hv.
  - rewrite IH. symmetry. by apply matching_take.
  - rewrite IH. symmetry. by apply matching_skip.
Qed.

Lemma matching_reverse sigs keys : matching (reverse sigs) (reverse keys) <-> matching sigs keys.
Proof.
  assert (H : forall s k, matching s k -> matching (reverse s) (reverse k)).
  { intros s k (used & Hs & Hf). exists (reverse used).
    split; [by apply sublist_reverse_mono|by apply Forall2_reverse]. }
  split; [|apply H]. intros Hm. apply H in Hm. by rewrite !reverse_involutive in Hm.
Qed.

End greedy.

Section multisig.
Context `{C : Crypto} `{!CryptoLaws C} `{IT : MapIteration}.
Context (k : SigKind) `{!SimKind k}.

(** The hash of an input whose output is known can be computed. *)
Context (Hhash : forall tx i ht r, IsStandardSigHashType ht = true ->
  (exists txIn entry, lookupZ (Inputs tx) i = Some txIn /\ in_UTXOEntry txIn = Some entry) ->
  exists h r', sk_hash k tx i ht r = (Ok h, r')).

(** * One signature, one key *)

(** The signature, without its hash type, verifies with the key. *)
Definition sig_valid (tx : DomainTransaction) (i : Z) (raw key : bytes) : bool :=
  match last raw with
  | None => false
  | Some hashType =>
      match fst (sk_hash k tx i hashType NoReusedValues), DeserializePubKey (sk_scheme k) key,
            DeserializeSignature (sk_scheme k) (removelast raw) with
      | Ok h, Some pubKey, Some signature => Verify (sk_scheme k) pubKey h signature
      | _, _, _ => false
      end
  end.

(** A signature of the right form: right length and standard hash type. *)
Definition raw_ok (raw : bytes) : Prop :=
  exists sig hashType, raw = sig ++ [hashType] /\ IsStandardSigHashType hashType = true /\
    sk_checkSignatureLength k sig = Ok tt.

Definition key_ok (key : bytes) : Prop := sk_checkPubKeyEncoding k key = Ok tt.

(** What the record of a signature remembers is right. *)
Definition psi_right (si : parsedSigInfo k) : Prop :=
  raw_ok (psi_signature si) /\
  (psi_parsed si = true ->
   psi_parsedSignature si = DeserializeSignature (sk_scheme k) (removelast (psi_signature si))).

(** The signature part of a round. *)
Lemma parse_sig_once_right si sig ht vm :
  psi_right si -> psi_signature si = sig ++ [ht] -> IsStandardSigHashType ht = true ->
  sk_checkSignatureLength k sig = Ok tt ->
  exists si', parse_sig_once k si ht sig vm =
      (Ok (si', DeserializeSignature (sk_scheme k) sig), vm) /\
    psi_right si' /\ psi_signature si' = psi_signature si.
Proof.
  intros [Hraw Hp] Hs Hht Hlen. unfold parse_sig_once. destruct (psi_parsed si) eqn:Hpp; cbn [negb].
  - exists si. rewrite Hp by done. rewrite Hs, removelast_last. split_and!; try done.
    split; [done|by intros _; apply Hp].
  - rewrite Hht. cbn [negb]. rewrite bind_lift, Hlen. eexists. split; [reflexivity|].
    split; [|done]. split; [exact Hraw|]. intros _. cbn. by rewrite Hs, removelast_last.
Qed.

(** The states a check goes through. *)
Definition alike (vm vm' : Engine) : Prop := data_eq vm' vm /\ caches_ok vm' /\ spends_known vm'.

Lemma alike_trans vm1 vm2 vm3 : alike vm1 vm2 -> alike vm2 vm3 -> alike vm1 vm3.
Proof. unfold alike, data_eq. intuition congruence. Qed.

Lemma alike_refl vm : caches_ok vm -> spends_known vm -> alike vm vm.
Proof. by intros. Qed.

Lemma hash_run ht vm :
  caches_ok vm -> spends_known vm -> IsStandardSigHashType ht = true ->
  exists h vm', on_reused (sk_hash k (tx vm) (txIdx vm) ht) vm = (Ok h, vm') /\
    fst (sk_hash k (tx vm) (txIdx vm) ht NoReusedValues) = Ok h /\ alike vm vm'.
Proof.
  intros Hok Hsp Hht. assert (Hr : reuse_ok (tx vm) (sigHashReusedValues vm)) by apply Hok.
  destruct (Hhash (tx vm) (txIdx vm) ht (sigHashReusedValues vm) Hht Hsp) as (h & r' & He).
  pose proof (sim_hash (tx vm) (txIdx vm) ht (sigHashReusedValues vm) Hr) as [Hh Hr'].
  exists h, (set_reused r' vm). unfold on_reused, zoom. rewrite He in *. cbn [fst snd] in *.
  split_and!; [done|done|]. split; [done|]. split; [|done].
  destruct Hok as (H1 & H2 & _). by split_and!.
Qed.

Lemma verify_run h sig pk vm :
  caches_ok vm -> spends_known vm ->
  exists vm', verify_cached k h sig pk vm = (Ok (Verify (sk_scheme k) pk h sig), vm') /\ alike vm vm'.
Proof.
  intros Hok Hsp. destruct (verify_cached_result k h sig pk vm Hok) as (vm' & He & Hd & Hok').
  exists vm'. split; [done|]. split; [done|]. split; [done|]. unfold spends_known in *.
  destruct Hd as (_ & _ & -> & -> & _). done.
Qed.

(** A round of the loop. *)
Lemma round_run si key vm :
  caches_ok vm -> spends_known vm -> psi_right si -> key_ok key ->
  exists si' vm', multiSig_round k si key vm =
      (Ok (si', sig_valid (tx vm) (txIdx vm) (psi_signature si) key), vm') /\
    alike vm vm' /\ psi_right si' /\ psi_signature si' = psi_signature si.
Proof.
  intros Hok Hsp Hsi Hkey. destruct (proj1 Hsi) as (sig & ht & Hraw & Hht & Hlen).
  unfold multiSig_round. rewrite Hraw.
  replace (zlen (sig ++ [ht]) =? 0) with false by zlia.
  erewrite bind_ok by (unfold index, lift, index_res; rewrite lookupZ_app_r; [reflexivity|zlia]).
  erewrite bind_ok.
  2:{ unfold slice, lift, slice_res. replace (_ && _ && _) with true by zlia.
      rewrite sliceZ_prefix by zlia. reflexivity. }
  destruct (parse_sig_once_right si sig ht vm Hsi Hraw Hht Hlen) as (si' & Hp & Hsi' & Hs').
  erewrite bind_ok by exact Hp. unfold sig_valid. rewrite last_snoc, removelast_last.
  destruct (hash_run ht vm Hok Hsp Hht) as (h & vm1 & Hrun & Hh & Hal). rewrite Hh.
  rewrite <- Hraw, <- Hs'. exists si'.
  destruct (DeserializeSignature (sk_scheme k) sig) as [s|] eqn:Hds.
  - rewrite bind_lift, Hkey. destruct (DeserializePubKey (sk_scheme k) key) as [pk|].
    + erewrite bind_ok by reflexivity. erewrite bind_ok by exact Hrun.
      destruct Hal as (Hd1 & Hok1 & Hsp1). destruct (verify_run h s pk vm1 Hok1 Hsp1) as (vm2 & Hv & Hal2).
      exists vm2. erewrite bind_ok by exact Hv. split; [done|]. split; [|done].
      by apply (alike_trans vm vm1).
    + exists vm. split; [done|]. split; [by apply alike_refl|done].
  - exists vm. split; [by destruct (DeserializePubKey _ _)|]. split; [by apply alike_refl|done].
Qed.

(** * The loop *)

Lemma loop_run tx0 i0 fuel pre infos kpre keys vm :
  tx vm = tx0 -> txIdx vm = i0 ->
  caches_ok vm -> spends_known vm -> Forall psi_right infos -> Forall key_ok keys ->
  (length keys < fuel)%nat ->
  exists vm', multiSig_loop k (kpre ++ keys) fuel (pre ++ infos) (zlen infos) (zlen keys + 1)
      (zlen pre) (zlen kpre - 1) vm =
      (Ok (greedy (sig_valid tx0 i0) (map psi_signature infos) keys), vm') /\ alike vm vm'.
Proof.
  revert pre infos kpre keys vm. induction fuel as [|fuel IH]; [lia|].
  intros pre infos kpre keys vm Htx Hi Hok Hsp Hinfos Hkeys Hfuel. cbn [multiSig_loop].
  destruct infos as [|si infos].
  { exists vm. split; [|by apply alike_refl]. by destruct keys. }
  replace (zlen (si :: infos) >? 0) with true by zlia. cbn [negb].
  replace (zlen keys + 1 - 1) with (zlen keys) by lia. replace (zlen kpre - 1 + 1) with (zlen kpre) by lia.
  destruct keys as [|key keys].
  { replace (zlen (si :: infos) >? zlen (@nil bytes)) with true by zlia. exists vm.
    split; [done|by apply alike_refl]. }
  assert (Hlm : zlen (psi_signature si :: map psi_signature infos) = zlen (si :: infos)).
  { unfold zlen. cbn [length]. by rewrite length_map. }
  cbn [map greedy]. rewrite Hlm. destruct (zlen (si :: infos) >? zlen (key :: keys)).
  { exists vm. split; [done|by apply alike_refl]. }
  apply Forall_cons in Hinfos as [Hsi Hinfos], Hkeys as [Hkey Hkeys].
  erewrite bind_ok by (unfold index, lift, index_res; by rewrite lookupZ_app_r).
  erewrite bind_ok by (unfold index, lift, index_res; by rewrite lookupZ_app_r).
  destruct (round_run si key vm Hok Hsp Hsi Hkey) as (si' & vm1 & Hr & Hal & Hsi' & Hsig').
  erewrite bind_ok by exact Hr. cbv beta iota.
  assert (Hins : <[Z.to_nat (zlen pre) := si']> (pre ++ si :: infos) = pre ++ si' :: infos).
  { unfold zlen. rewrite Nat2Z.id, insert_app_r_alt, Nat.sub_diag by lia. done. }
  rewrite Hins, Htx, Hi. destruct Hal as (Hd & Hok1 & Hsp1).
  assert (Htx1 : tx vm1 = tx0) by (rewrite <- Htx; apply Hd).
  assert (Hi1 : txIdx vm1 = i0) by (rewrite <- Hi; apply Hd).
  cbn [length] in Hfuel. destruct (sig_valid tx0 i0 (psi_signature si) key).
  - destruct (IH (pre ++ [si']) infos (kpre ++ [key]) keys vm1) as (vm2 & Hl & Hal2); try done; [lia|].
    exists vm2. split; [|by apply (alike_trans vm vm1)]. rewrite <- Hl, <- !app_assoc. cbn [app].
    f_equal; rewrite ?zlen_app, ?zlen_cons; change (zlen (@nil _)) with 0; lia.
  - destruct (IH pre (si' :: infos) (kpre ++ [key]) keys vm1) as (vm2 & Hl & Hal2); try done;
      [by constructor|lia|].
    exists vm2. split; [|by apply (alike_trans vm vm1)]. cbn [map] in Hl. rewrite Hsig' in Hl.
    rewrite <- Hl, <- !app_assoc. cbn [app].
    f_equal; rewrite ?zlen_app, ?zlen_cons; change (zlen (@nil _)) with 0; lia.
Qed.

(** * The opcode *)

Lemma pop_items_run items d vm :
  dstack vm = d ++ items -> zlen d + zlen items < 1000 ->
  pop_items (length items) vm = (Ok (reverse items), set_dstack d vm).
Proof.
  revert vm. induction items as [|x items IH] using rev_ind; intros vm Hd Hl.
  { rewrite app_nil_r in Hd. subst d. by destruct vm. }
  rewrite length_app, Nat.add_1_r. cbn [pop_items]. rewrite app_assoc in Hd.
  erewrite bind_ok by (apply (pop_top _ x _ Hd); zlia).
  erewrite bind_ok by (apply IH; [done|zlia]). by rewrite reverse_snoc.
Qed.

Lemma pop_int vm d x v :
  dstack vm = d ++ [x] -> zlen d < 900 -> makeScriptNum x defaultScriptNumLen = Ok v ->
  on_dstack PopInt vm = (Ok v, set_dstack d vm).
Proof.
  intros Hd Hl Hv. unfold on_dstack, zoom, PopInt. rewrite Hd.
  erewrite bind_ok by (apply PopByteArray_run; zlia). unfold lift. by rewrite Hv.
Qed.

Lemma Int32_small v : 0 <= v <= 20 -> Int32 v = v.
Proof. intros Hv. unfold Int32, maxInt32, minInt32. repeat case_if; try lia. apply int32_id. lia. Qed.

(** The two counts, the keys and the signatures on the stack. *)
Definition multisig_stack (d sigs keys : stack) (m n : bytes) : stack :=
  d ++ sigs ++ [m] ++ keys ++ [n].

(** The result of the opcode, on a stack with well-formed operands. *)
Lemma checkMultiSig_run op vm d sigs keys m n :
  caches_ok vm -> spends_known vm -> dstack vm = multisig_stack d sigs keys m n -> zlen d < 300 ->
  makeScriptNum m defaultScriptNumLen = Ok (zlen sigs) ->
  makeScriptNum n defaultScriptNumLen = Ok (zlen keys) ->
  zlen sigs <= zlen keys <= MaxPubKeysPerMultiSig -> numOps vm + zlen keys <= MaxOpsPerScript ->
  Forall raw_ok sigs -> Forall key_ok keys ->
  exists vm',
    checkMultiSig k op vm =
      (if greedy (sig_valid (tx vm) (txIdx vm)) (reverse sigs) (reverse keys)
       then Ok tt else Err (scriptError ErrNullFail), vm') /\
    (greedy (sig_valid (tx vm) (txIdx vm)) (reverse sigs) (reverse keys) = true ->
     dstack vm' = d ++ [fromBool true]).
Proof.
  intros Hok Hsp Hd Hl Hm Hn Hle Hops Hsigs Hkeys. unfold MaxPubKeysPerMultiSig in Hle. zlen_facts.
  unfold multisig_stack in Hd. rewrite !app_assoc in Hd. unfold checkMultiSig.
  erewrite bind_ok by (apply (pop_int vm _ n (zlen keys) Hd); [zlia|done]).
  rewrite Int32_small by lia. unfold MaxPubKeysPerMultiSig.
  replace (zlen keys <? 0) with false by lia. replace (zlen keys >? 20) with false by lia.
  erewrite bind_ok by reflexivity. erewrite bind_ok by reflexivity. cbn [numOps set_numOps set_dstack].
  replace (_ >? MaxOpsPerScript) with false by lia.
  replace (Z.to_nat (zlen keys)) with (length keys) by (unfold zlen; lia).
  erewrite bind_ok by (apply pop_items_run; [reflexivity|zlia]).
  erewrite bind_ok by (apply (pop_int _ (d ++ sigs) m (zlen sigs)); [reflexivity|zlia|done]).
  rewrite Int32_small by lia.
  replace (zlen sigs <? 0) with false by lia. replace (zlen sigs >? zlen keys) with false by lia.
  replace (Z.to_nat (zlen sigs)) with (length sigs) by (unfold zlen; lia).
  erewrite bind_ok by (apply pop_items_run; [reflexivity|zlia]).
  set (vm1 := set_dstack d _). set (infos := map _ (reverse sigs)).
  assert (Hi : map psi_signature infos = reverse sigs).
  { subst infos. rewrite map_map. apply map_id. }
  assert (Hli : zlen infos = zlen sigs).
  { subst infos. unfold zlen. by rewrite length_map, length_reverse. }
  assert (Hlk : zlen (reverse keys) = zlen keys) by (unfold zlen; by rewrite length_reverse).
  assert (Hright : Forall psi_right infos).
  { subst infos. apply Forall_map, Forall_reverse. eapply Forall_impl; [exact Hsigs|].
    intros raw Hraw. split; [exact Hraw|done]. }
  destruct (loop_run (tx vm) (txIdx vm) (S (length keys)) [] infos [] (reverse keys) vm1)
    as (vm2 & Hloop & (Hd2 & _) & _); try done.
  { by apply Forall_reverse. }
  { rewrite length_reverse. lia. }
  rewrite Hi, Hli, Hlk in Hloop. cbn [app] in Hloop. change (zlen (@nil (parsedSigInfo k))) with 0 in Hloop.
  change (zlen (@nil bytes) - 1) with (-1) in Hloop. erewrite bind_ok by exact Hloop.
  destruct (greedy _ _ _) eqn:Hg; cbn [negb andb].
  - eexists. split; [reflexivity|]. intros _. cbn. by rewrite Hd2.
  - replace (existsb _ _) with true; [by eexists|]. symmetry. apply existsb_exists.
    destruct (reverse sigs) as [|raw rest] eqn:Hr; [by destruct (reverse keys)|].
    exists raw. split; [by left|]. apply Forall_reverse in Hsigs. rewrite Hr in Hsigs.
    apply Forall_inv in Hsigs as (sig & ht & -> & _). zlia.
Qed.

End multisig.

Section threshold.
Context `{C : Crypto} `{!CryptoLaws C} `{IT : MapIteration}.

Lemma schnorr_hash_total tx i ht r :
  IsStandardSigHashType ht = true ->
  (exists txIn entry, lookupZ (Inputs tx) i = Some txIn /\ in_UTXOEntry txIn = Some entry) ->
  exists h r', sk_hash SchnorrKind tx i ht r = (Ok h, r').
Proof. apply Schnorr_hash_ok. Qed.

Lemma ecdsa_hash_total tx i ht r :
  IsStandardSigHashType ht = true ->
  (exists txIn entry, lookupZ (Inputs tx) i = Some txIn /\ in_UTXOEntry txIn = Some entry) ->
  exists h r', sk_hash ECDSAKind tx i ht r = (Ok h, r').
Proof.
  intros Hht Hin. destruct (Schnorr_hash_ok tx i ht r Hht Hin) as (h & r' & He).
  cbn. unfold CalculateSignatureHashECDSA. erewrite bind_ok by exact He. by eexists _, _.
Qed.

(** C19: [OP_CHECKMULTISIG] and [OP_CHECKMULTISIGECDSA] on well-formed operands
    (counts within the limits, signatures of the right length with a standard
    hash type, keys of the right length) succeed exactly when there is a subsequence of the keys, in the order of
    the signatures, such that every signature verifies with its key: the loop
    that commits to the first key that fits misses no matching.  Then a true
    item replaces the operands; otherwise the opcode fails with
    [ErrNullFail]. *)
Theorem multisig_threshold k op vm d sigs keys m n :
  k = SchnorrKind \/ k = ECDSAKind ->
  caches_ok vm -> spends_known vm -> dstack vm = multisig_stack d sigs keys m n -> zlen d < 300 ->
  makeScriptNum m defaultScriptNumLen = Ok (zlen sigs) ->
  makeScriptNum n defaultScriptNumLen = Ok (zlen keys) ->
  zlen sigs <= zlen keys <= MaxPubKeysPerMultiSig -> numOps vm + zlen keys <= MaxOpsPerScript ->
  Forall (raw_ok k) sigs -> Forall (key_ok k) keys ->
  (matching (sig_valid k (tx vm) (txIdx vm)) sigs keys ->
   exists vm', checkMultiSig k op vm = (Ok tt, vm') /\ dstack vm' = d ++ [fromBool true]) /\
  (~ matching (sig_valid k (tx vm) (txIdx vm)) sigs keys ->
   exists vm', checkMultiSig k op vm = (Err (scriptError ErrNullFail), vm')).
Proof.
  intros Hk Hok Hsp Hd Hl Hm Hn Hle Hops Hsigs Hkeys.
  assert (Hrun : exists vm',
    checkMultiSig k op vm =
      (if greedy (sig_valid k (tx vm) (txIdx vm)) (reverse sigs) (reverse keys)
       then Ok tt else Err (scriptError ErrNullFail), vm') /\
    (greedy (sig_valid k (tx vm) (txIdx vm)) (reverse sigs) (reverse keys) = true ->
     dstack vm' = d ++ [fromBool true])).
  { destruct Hk as [-> | ->].
    - exact (checkMultiSig_run SchnorrKind schnorr_hash_total op vm d sigs keys m n
        Hok Hsp Hd Hl Hm Hn Hle Hops Hsigs Hkeys).
    - exact (checkMultiSig_run ECDSAKind ecdsa_hash_total op vm d sigs keys m n
        Hok Hsp Hd Hl Hm Hn Hle Hops Hsigs Hkeys). }
  destruct Hrun as (vm' & Hrun & Htop).
  rewrite <- matching_reverse, <- greedy_matching. destruct (greedy _ _ _).
  - split; [|done]. intros _. exists vm'. split; [done|by apply Htop].
  - split; [done|]. intros _. by exists vm'.
Qed.

End threshold.

(** * A concrete check: one of two keys *)

#[local] Existing Instance test_crypto.
#[local] Existing Instance test_crypto_laws.
#[local] Existing Instance test_iteration.

Definition test_sig : bytes :=
  match fst (CalculateSignatureHashSchnorr test_p2pk_tx 0 SigHashAll NoReusedValues) with
  | Ok h => h
  | _ => []
  end ++ test_key 32.

Definition test_keys : list bytes := [replicate 32 3; test_key 32].

Definition test_multisig_vm : Engine :=
  fresh test_p2pk_tx 0 (multisig_stack [] [test_sig ++ [SigHashAll]] test_keys [1] [2]).

Lemma multisig_threshold_witness :
  exists vm', checkMultiSig SchnorrKind (plain OpCheckMultiSig) test_multisig_vm = (Ok tt, vm') /\
    dstack vm' = [fromBool true].
Proof.
  refine (proj1 (multisig_threshold SchnorrKind (plain OpCheckMultiSig) test_multisig_vm []
    [test_sig ++ [SigHashAll]] test_keys [1] [2] (or_introl eq_refl) _ _ eq_refl eq_refl eq_refl
    eq_refl _ _ _ _) _).
  - split; [done|]. split; [done|]. apply reuse_ok_empty.
  - by eexists _, _.
  - done.
  - done.
  - constructor; [|constructor]. exists test_sig, SigHashAll. split; [done|]. split; [done|].
    vm_compute. reflexivity.
  - repeat constructor.
  - apply greedy_matching. vm_compute. reflexivity.
Defined.
