(* ===== verification/Sign.v ===== *)
(** Signing: [src/domain/consensus/utils/txscript/sign.go].

    Key pairs and their signing operations are third-party code, the class
    [Signer].  The key and script databases are functions, as the closures
    [KeyClosure] and [ScriptClosure] make them. *)

From S2P Require Import Prelude ScriptError ScriptNum Stack Opcodes Transaction.
From S2P Require Import Script Sha256 SigHash SigCache Engine EngineInv EngineStep EngineSim.
From S2P Require Import EngineSpec Address ScriptBuilder Standard Spending.

(** A key pair type of [go-secp256k1] with its public key, and the serialisers
    of public keys and signatures; a signing error is [None]. *)
Class Signer (sch : SigScheme) := {
  KeyPair : Type;
  PublicKeyOf : KeyPair -> PublicKey sch;
  SerializePublicKey : PublicKey sch -> bytes;
  SignHash : KeyPair -> bytes -> option (Signature sch);
  SerializeSignature : Signature sch -> bytes
}.
Arguments KeyPair : clear implicits.
Arguments KeyPair _ {_}.

(** What the library documents: serialisation and parsing are inverse, a
    signature takes 64 bytes, and a signature made with a key verifies with the
    key's public key. *)
Class SignerLaws (sch : SigScheme) `{!Signer sch} : Prop := {
  DeserializePubKey_Serialize : forall k,
    DeserializePubKey sch (SerializePublicKey (PublicKeyOf k)) = Some (PublicKeyOf k);
  SignHash_spec : forall k h s, SignHash k h = Some s ->
    zlen (SerializeSignature s) = 64 /\ Forall is_byte (SerializeSignature s) /\
    DeserializeSignature sch (SerializeSignature s) = Some s /\ Verify sch (PublicKeyOf k) h s = true
}.

(** * Operations *)

Section sign.
Context `{C : Crypto} `{SS : !Signer schnorr} `{SE : !Signer ecdsa}.

Abbreviation RM := (M error SighashReusedValues).

Definition RawTxInSignature (tx : DomainTransaction) (idx hashType : Z) (key : KeyPair schnorr) : RM bytes :=
  let* hash := CalculateSignatureHashSchnorr tx idx hashType in
  match SignHash key hash with
  | None => throw OtherError
  | Some signature => ret (SerializeSignature signature ++ [uint8 hashType])
  end.

Definition RawTxInSignatureECDSA (tx : DomainTransaction) (idx hashType : Z) (key : KeyPair ecdsa) : RM bytes :=
  let* hash := CalculateSignatureHashECDSA tx idx hashType in
  match SignHash key hash with
  | None => throw OtherError
  | Some signature => ret (SerializeSignature signature ++ [uint8 hashType])
  end.

Definition SignatureScript_ (tx : DomainTransaction) (idx hashType : Z) (privKey : KeyPair schnorr) : RM bytes :=
  let* sig := RawTxInSignature tx idx hashType privKey in
  lift (Script_res (AddData NewScriptBuilder sig)).

Definition SignatureScriptECDSA (tx : DomainTransaction) (idx hashType : Z) (privKey : KeyPair ecdsa) : RM bytes :=
  let* sig := RawTxInSignatureECDSA tx idx hashType privKey in
  lift (Script_res (AddData NewScriptBuilder sig)).

(** The databases: [KeyDB] and [ScriptDB]. *)
Definition KeyDB : Type := option Address -> res error (KeyPair schnorr).
Definition ScriptDB : Type := option Address -> res error bytes.

(** [sign]: the script and its class; [prefix] is [dagParams.Prefix]. *)
Definition sign (prefix : Z) (tx : DomainTransaction) (idx : Z) (script : ScriptPublicKey)
    (hashType : Z) (kdb : KeyDB) (sdb : ScriptDB) : RM (bytes * Z) :=
  let* (class, address) := lift (ExtractScriptPubKeyAddress script prefix) in
  if class =? PubKeyTy then
    let* key := lift (kdb address) in
    let* signedScript := SignatureScript_ tx idx hashType key in
    ret (signedScript, class)
  else if class =? ScriptHashTy then
    let* script := lift (sdb address) in
    ret (script, class)
  else throw OtherError.

(** The [Script] field of a [*ScriptPublicKey]; nil is dereferenced. *)
Definition script_field (p : option ScriptPublicKey) : res error bytes :=
  match p with Some spk => Ok (spk_Script spk) | None => Panic end.

(** [mergeScripts], to a depth of [fuel] calls: [None] stands for a recursion
    that is deeper. *)
Fixpoint mergeScripts (fuel : nat) (prefix class : Z) (sigScript : bytes)
    (prevScript : option ScriptPublicKey) : option (res error bytes) :=
  match fuel with
  | O => None
  | S fuel =>
      if class =? ScriptHashTy then
        match parseScript sigScript with
        | (sigPops, err) =>
            if bool_decide (err <> None) || (zlen sigPops =? 0) then Some (script_field prevScript) else
            match prevScript with
            | None => Some Panic
            | Some prev =>
                match parseScript (spk_Script prev) with
                | (prevPops, err) =>
                    if bool_decide (err <> None) || (zlen prevPops =? 0) then Some (Ok sigScript) else
                    let script := default [] (last sigPops ≫= pop_data) in
                    let scriptPubKey := mk_ScriptPublicKey script (spk_Version prev) in
                    match ExtractScriptPubKeyAddress scriptPubKey prefix with
                    | Panic => Some Panic
                    | extracted =>
                        let class := match extracted with Ok (class, _) => class | _ => NonStandardTy end in
                        let bytes_of r := match r with Ok b => b | _ => [] end in
                        let sigScript := bytes_of (unparseScript sigPops) in
                        let prevScriptByte := bytes_of (unparseScript prevPops) in
                        let prevScript := mk_ScriptPublicKey prevScriptByte (spk_Version prev) in
                        match mergeScripts fuel prefix class sigScript (Some prevScript) with
                        | Some (Ok mergedScript) =>
                            Some (Script_res (AddData (AddOps NewScriptBuilder mergedScript) script))
                        | failed => failed
                        end
                    end
                end
            end
        end
      else
        match prevScript with
        | None => Some Panic
        | Some prev =>
            if zlen sigScript >? zlen (spk_Script prev) then Some (Ok sigScript)
            else Some (Ok (spk_Script prev))
        end
  end.

(** [SignTxOutput]; [fuel] bounds the recursion of [mergeScripts]. *)
Definition SignTxOutput (fuel : nat) (prefix : Z) (tx : DomainTransaction) (idx : Z)
    (scriptPublicKey : ScriptPublicKey) (hashType : Z) (kdb : KeyDB) (sdb : ScriptDB)
    (previousScript : option ScriptPublicKey) : RM (option bytes) :=
  let* (sigScript, class) := sign prefix tx idx scriptPublicKey hashType kdb sdb in
  let* sigScript :=
    (if class =? ScriptHashTy then
       let preimage := mk_ScriptPublicKey sigScript (spk_Version scriptPublicKey) in
       let* (realSigScript, _) := sign prefix tx idx preimage hashType kdb sdb in
       ret (fst (Script (AddData (AddOps NewScriptBuilder realSigScript) sigScript)))
     else ret sigScript) in
  match mergeScripts fuel prefix class sigScript previousScript with
  | None => ret None
  | Some r => let* s := lift r in ret (Some s)
  end.

End sign.

(** * Scripts that push *)

Definition push_script (items : list bytes) : bytes := encode_all (map push_item items).

(** An item a signature script can push. *)
Definition pushable (x : bytes) : Prop :=
  Forall is_byte x /\ zlen x <= MaxScriptElementSize /\ x <> [0].

Section pushing.
Context `{C : Crypto} `{!CryptoLaws C} `{IT : MapIteration}.

Lemma parse_push_script items :
  Forall pushable items -> parseScript (push_script items) = (map snd (map push_item items), None).
Proof.
  intros Hi. apply parseScript_encode, Forall_fmap. eapply Forall_impl; [exact Hi|].
  intros x (Hb & Hl & _). pose proof (push_item_at x Hb) as Hat. unfold MaxScriptElementSize in Hl.
  cbv beta. unfold compose. destruct (push_item x). apply Hat. lia.
Qed.

(** Data pushes are push opcodes. *)
Lemma push_item_value x : Forall is_byte x -> pop_value (snd (push_item x)) <= Op16.
Proof.
  intros Hb. pose proof (push_item_case x Hb) as Hc. pose proof (push_case_length _ _ Hc) as [Hbyte _].
  unfold push_item in *. cbn [fst snd] in *.
  set (b := if (zlen x =? 0) || _ then Op0 else _) in *. clearbody b.
  change (op_value (op_at b) <= Op16).
  assert (Hle : b <= Op16).
  { destruct Hc; unfold Op0, Op1, Op1Negate, OpPushData1, OpPushData2, OpPushData4, Op16 in *; lia. }
  rewrite op_at_value; [done|done|]. unfold misnumbered, Op16 in *. lia.
Qed.

(** The chosen opcode carries its own number. *)
Lemma push_item_numbered x : Forall is_byte x -> pop_value (snd (push_item x)) = fst (push_item x).
Proof.
  intros Hb. pose proof (push_item_case x Hb) as Hc. pose proof (push_case_length _ _ Hc) as [Hbyte _].
  unfold push_item in *. cbn [fst snd] in *.
  set (b := if (zlen x =? 0) || _ then Op0 else _) in *. clearbody b.
  change (op_value (op_at b) = b). apply op_at_value; [done|]. unfold misnumbered.
  destruct Hc; unfold Op0, Op1, Op1Negate, OpPushData1, OpPushData2, OpPushData4 in *; lia.
Qed.

Lemma unparse_push_script items :
  Forall pushable items -> unparseScript (map snd (map push_item items)) = Ok (push_script items).
Proof.
  intros Hi. assert (Hok : Forall (fun '(b, pop) => pop_at b pop) (map push_item items)).
  { apply Forall_fmap. eapply Forall_impl; [exact Hi|]. intros x (Hb & Hl & _).
    pose proof (push_item_at x Hb) as Hat. unfold MaxScriptElementSize in Hl.
    cbv beta. unfold compose. destruct (push_item x). apply Hat. lia. }
  rewrite unparseScript_items by done. f_equal. apply encode_all_values_eq; [done|].
  apply Forall_fmap. eapply Forall_impl; [exact Hi|]. intros x (Hb & _).
  pose proof (push_item_numbered x Hb) as Hn. cbv beta. unfold compose. by destruct (push_item x).
Qed.

Lemma isPushOnly_push_items items :
  Forall pushable items -> isPushOnly (map snd (map push_item items)) = true.
Proof.
  intros Hi. unfold isPushOnly. rewrite map_map. apply forallb_forall. intros pop Hin.
  apply in_map_iff in Hin as (x & <- & Hin). apply list_elem_of_In in Hin.
  rewrite Forall_forall in Hi. destruct (Hi x Hin) as (Hb & _). pose proof (push_item_value x Hb). lia.
Qed.

Lemma run_push_items items vm :
  Forall pushable items -> isBranchExecuting vm = true ->
  zlen (dstack vm) + zlen (astack vm) + zlen items <= MaxStackSize ->
  run_opcodes (map snd (map push_item items)) vm = (Ok tt, set_dstack (dstack vm ++ items) vm).
Proof.
  intros Hi. revert vm. induction Hi as [|x items (Hb & Hl & H0) Hi IH]; intros vm Hex Hd.
  { cbn. rewrite app_nil_r. by destruct vm. }
  rewrite zlen_cons in Hd. zlen_facts. cbn [map]. rewrite (run_step _ _ _ (push_dstack x vm)).
  - rewrite IH; [|done|].
    + change (dstack (push_dstack x vm)) with (dstack vm ++ [x]). by rewrite <- app_assoc.
    + change (dstack (push_dstack x vm)) with (dstack vm ++ [x]).
      change (astack (push_dstack x vm)) with (astack vm). zlia.
  - by apply exec_push.
  - change (dstack (push_dstack x vm)) with (dstack vm ++ [x]).
    change (astack (push_dstack x vm)) with (astack vm). zlia.
Qed.

Lemma pushes_push_script tx i items :
  Forall pushable items -> zlen items <= MaxStackSize -> zlen (push_script items) <= MaxScriptSize ->
  pushes tx i (push_script items) items.
Proof.
  intros Hi Hn Hs. exists (map snd (map push_item items)). split_and!.
  - unfold parseScriptAndVerifySize. rewrite parse_push_script by done. by case_if; [lia|].
  - by apply isPushOnly_push_items.
  - unfold eval_script. rewrite run_push_items; [done|done|done|]. cbn. zlia.
Qed.

Lemma AddData_push_script bd items x :
  sb_err bd = None -> sb_script bd = push_script items -> pushable x ->
  zlen (push_script items) + canonicalDataSize x <= MaxScriptSize ->
  AddData bd x = mk_ScriptBuilder (push_script (items ++ [x])) None.
Proof.
  intros He Hs (Hb & Hl & H0) Hsize. unfold AddData. rewrite He, Hs. do 2 (case_if; [lia|]).
  unfold MaxScriptElementSize in Hl. rewrite addData_encode by (done || lia). unfold sb_append. rewrite He, Hs.
  f_equal. unfold push_script, encode_all. rewrite !map_app, concat_app. cbn. rewrite app_nil_r.
  by destruct (push_item x).
Qed.

End pushing.

(** * A signed input can be spent *)

(** The transaction with a signature script in input [i]. *)
Definition set_sigScript (i : Z) (script : bytes) (tx : DomainTransaction) : DomainTransaction :=
  mk_DomainTransaction (Version tx)
    (alter (fun input => mk_DomainTransactionInput (PreviousOutpoint input) script (Sequence input)
                           (SigOpCount input) (in_UTXOEntry input)) (Z.to_nat i) (Inputs tx))
    (Outputs tx) (LockTime tx) (SubnetworkID tx) (Gas tx) (Payload tx) (Fee tx) (Mass tx) (tx_ID tx).

Lemma set_sigScript_lookup i script tx input :
  lookupZ (Inputs tx) i = Some input ->
  lookupZ (Inputs (set_sigScript i script tx)) i =
  Some (mk_DomainTransactionInput (PreviousOutpoint input) script (Sequence input) (SigOpCount input)
          (in_UTXOEntry input)).
Proof.
  unfold lookupZ. cbn [set_sigScript Inputs]. destruct (0 <=? i); [|done]. intros Hl.
  by rewrite list_lookup_alter_eq, Hl.
Qed.

Lemma map_set_sigScript {A} (f : DomainTransactionInput -> A) i script tx :
  (forall a b c d e s, f (mk_DomainTransactionInput a s b c d) = f (mk_DomainTransactionInput a e b c d)) ->
  map f (Inputs (set_sigScript i script tx)) = map f (Inputs tx).
Proof.
  intros Hf. cbn [set_sigScript Inputs]. generalize (Z.to_nat i) as n. generalize (Inputs tx) as l.
  induction l as [|x l IH]; intros [|n]; try done.
  - cbn. f_equal. destruct x. apply Hf.
  - cbn. f_equal. apply IH.
Qed.

Lemma same_covered_set_sigScript i ht script tx input :
  lookupZ (Inputs tx) i = Some input -> same_covered (set_sigScript i script tx) tx i ht.
Proof.
  intros Hl. split_and!; try done; try by right.
  - rewrite (set_sigScript_lookup i script tx input Hl), Hl. done.
  - right. split; by apply map_set_sigScript.
  - right. by apply map_set_sigScript.
  - by right; right.
Qed.

(** Every item of a concrete list, by assumption. *)
Ltac forall_list := repeat (apply Forall_cons; split; [done|]); apply Forall_nil_2.

Section spendable.
Context `{C : Crypto} `{!CryptoLaws C} `{IT : MapIteration}.
Context `{SS : !Signer schnorr} `{!SignerLaws schnorr}.

(** The key of a pay-to-pubkey script. *)
Definition key_bytes (key : KeyPair schnorr) : bytes := SerializePublicKey (PublicKeyOf key).

(** A raw signature is accepted in the signed transaction, whatever script is
    put in the input. *)
Lemma RawTxInSignature_accepted tx idx ht key input e r :
  lookupZ (Inputs tx) idx = Some input -> in_UTXOEntry input = Some e -> reuse_ok tx r ->
  IsStandardSigHashType ht = true ->
  (forall h, fst (CalculateSignatureHashSchnorr tx idx ht r) = Ok h -> is_Some (SignHash key h)) ->
  exists full r', RawTxInSignature tx idx ht key r = (Ok full, r') /\ reuse_ok tx r' /\
    Forall is_byte full /\ zlen full = 65 /\
    forall script, sig_accepts SchnorrKind (set_sigScript idx script tx) idx (key_bytes key) full.
Proof.
  intros Hl He Hr Hst Hsign. pose proof (lookupZ_Some_range _ _ _ Hl) as Hrange.
  destruct (Schnorr_hash_ok tx idx ht r Hst) as (h & r' & Hh); [by exists input, e|].
  destruct (transparent_Schnorr tx idx ht r Hr) as [Hfst Hr']. rewrite Hh in Hfst, Hr'. cbn [fst snd] in *.
  rewrite Hh in Hsign. destruct (Hsign h eq_refl) as [s Hs]. destruct (SignHash_spec _ _ _ Hs) as (H64 & Hsb & Hds & Hvs).
  assert (Hbyte : uint8 ht = ht /\ is_byte ht).
  { unfold IsStandardSigHashType in Hst. repeat rewrite orb_true_iff in Hst. rewrite !Z.eqb_eq in Hst.
    intuition (subst; try done). }
  exists (SerializeSignature s ++ [ht]), r'. split_and!; try done.
  - unfold RawTxInSignature. erewrite bind_ok by exact Hh. rewrite Hs. by destruct Hbyte as [-> _].
  - apply Forall_snoc. by split; [|apply Hbyte].
  - rewrite zlen_app, H64. done.
  - intros script. exists (SerializeSignature s), ht, (PublicKeyOf key), s, h. split_and!; try done.
    + apply DeserializePubKey_Serialize.
    + cbn. rewrite (sighash_same_covered _ tx idx ht) by (done || lia || by eapply same_covered_set_sigScript).
      by rewrite Hfst.
Qed.

Lemma SignatureScript_pushes tx idx ht key full r r' :
  RawTxInSignature tx idx ht key r = (Ok full, r') -> Forall is_byte full -> zlen full = 65 ->
  SignatureScript_ tx idx ht key r = (Ok (push_script [full]), r').
Proof.
  intros Hraw Hb Hl. unfold SignatureScript_. erewrite bind_ok by exact Hraw. unfold lift.
  rewrite (AddData_push_script NewScriptBuilder [] full); [done|done|done| |].
  - split_and!; [done|unfold MaxScriptElementSize; lia|]. by intros ->.
  - unfold canonicalDataSize, OpPushData1, MaxScriptSize. rewrite Hl. done.
Qed.

(** The addresses of the outputs below. *)
Definition pubkey_address (prefix : Z) (key : bytes) : option Address :=
  Some (Addr_PublicKey (Some (mk_AddressPublicKey prefix key))).
Definition script_address (prefix : Z) (hash : bytes) : option Address :=
  Some (Addr_ScriptHash (Some (mk_AddressScriptHash prefix hash))).

Lemma sign_p2pk prefix tx idx ht kdb sdb key full r r' :
  payload_ok 32 (key_bytes key) -> kdb (pubkey_address prefix (key_bytes key)) = Ok key ->
  RawTxInSignature tx idx ht key r = (Ok full, r') -> Forall is_byte full -> zlen full = 65 ->
  sign prefix tx idx (mk_ScriptPublicKey (p2pk_script (key_bytes key)) 0) ht kdb sdb r =
  (Ok (push_script [full], PubKeyTy), r').
Proof.
  intros Hk Hkdb Hraw Hb Hl. unfold sign, bind at 1, lift.
  rewrite (Extract_form PubKeyTy _ _ prefix (form_pubkey _ Hk)). cbn [Z.eqb Pos.eqb PubKeyTy].
  change (data_of (default (plain 0) (p2pk_pops (key_bytes key) !! 0%nat))) with (key_bytes key).
  unfold bind at 1. unfold pubkey_address in Hkdb. rewrite Hkdb.
  by erewrite bind_ok by (by apply SignatureScript_pushes).
Qed.

(** Nothing to merge with. *)
Lemma merge_nothing fuel prefix class sigScript ver pops :
  parseScript sigScript = (pops, None) -> pops <> [] -> 0 < zlen sigScript ->
  mergeScripts (S fuel) prefix class sigScript (Some (mk_ScriptPublicKey [] ver)) = Some (Ok sigScript).
Proof.
  intros Hp Hne Hl. cbn [mergeScripts spk_Script]. case_if.
  - rewrite Hp. rewrite bool_decide_false by (by intros []). cbn [orb].
    destruct (Z.eqb_spec (zlen pops) 0) as [Hz|_]; [by apply zlen_0 in Hz|]. done.
  - case_if; [done|]. change (@zlen Z []) with 0 in *. lia.
Qed.

Lemma zlen_push_script items :
  Forall pushable items -> zlen (push_script items) = foldr (fun x n => canonicalDataSize x + n) 0 items.
Proof.
  induction 1 as [|x items (Hb & Hl & _) Hi IH]; [done|].
  unfold push_script, encode_all in *. cbn [map concat foldr]. rewrite zlen_app, IH.
  pose proof (zlen_encode_push x Hb) as Hz. unfold MaxScriptElementSize in Hl.
  destruct (push_item x). cbn [fst snd] in Hz. by rewrite Hz by lia.
Qed.

Lemma pushable_sized x n : Forall is_byte x -> zlen x = n -> 2 <= n <= 75 ->
  pushable x /\ canonicalDataSize x = n + 1.
Proof.
  intros Hb Hl Hn. split.
  - split_and!; [done|unfold MaxScriptElementSize; lia|]. intros ->. change (zlen [0]) with 1 in Hl. lia.
  - unfold canonicalDataSize, OpPushData1. rewrite Hl. repeat case_if; lia.
Qed.

Lemma sign_p2sh prefix tx idx ht kdb sdb script r :
  sdb (script_address prefix (blake2b_Sum256 script)) = Ok script ->
  sign prefix tx idx (mk_ScriptPublicKey (p2sh_script (blake2b_Sum256 script)) 0) ht kdb sdb r =
  (Ok (script, ScriptHashTy), r).
Proof.
  intros Hsdb. assert (Hh : payload_ok 32 (blake2b_Sum256 script)).
  { split; [unfold zlen; by rewrite blake2b_Sum256_length|apply blake2b_Sum256_bytes]. }
  unfold sign, bind at 1, lift. rewrite (Extract_form ScriptHashTy _ _ prefix (form_script_hash _ Hh)).
  cbn [Z.eqb Pos.eqb PubKeyTy PubKeyECDSATy ScriptHashTy].
  change (data_of (default (plain 0) (p2sh_pops (blake2b_Sum256 script) !! 1%nat))) with (blake2b_Sum256 script).
  unfold bind. unfold script_address in Hsdb. by rewrite Hsdb.
Qed.

(** The shape of the pay-to-pubkey script. *)
Lemma p2pk_script_sized key : payload_ok 32 key -> Forall is_byte (p2pk_script key) /\ zlen (p2pk_script key) = 34.
Proof.
  intros [Hl Hb]. unfold p2pk_script. split; [|zlia]. apply Forall_cons. split; [done|].
  apply Forall_snoc. by split.
Qed.

(** What the two kinds of scripts evaluate to. *)
Lemma p2pk_spent key full tx idx input script flags c1 c2 r :
  payload_ok 32 key -> lookupZ (Inputs tx) idx = Some input -> script = push_script [full] ->
  Forall is_byte full -> zlen full = 65 -> sig_accepts SchnorrKind (set_sigScript idx script tx) idx key full ->
  let spk := mk_ScriptPublicKey (p2pk_script key) 0 in
  valid_args spk (set_sigScript idx script tx) idx c1 c2 r ->
  run_input spk (set_sigScript idx script tx) idx flags c1 c2 r = Ok tt.
Proof.
  intros Hk Hl -> Hfb Hf65 Hacc spk Hva. destruct (pushable_sized full 65) as [Hpf Hcf]; [done|done|lia|].
  apply (p2pk_spend_iff key _ idx flags c1 c2 r _ Hk (set_sigScript_lookup idx _ tx input Hl) Hva).
  exists full. split; [|done]. apply pushes_push_script; [forall_list|done|].
  rewrite zlen_push_script by forall_list. cbn [foldr]. by rewrite Hcf.
Qed.

Lemma p2sh_p2pk_spent key full tx idx input script flags c1 c2 r :
  payload_ok 32 key -> lookupZ (Inputs tx) idx = Some input ->
  script = push_script [full; p2pk_script key] -> Forall is_byte full -> zlen full = 65 ->
  sig_accepts SchnorrKind (set_sigScript idx script tx) idx key full ->
  let spk := mk_ScriptPublicKey (p2sh_script (blake2b_Sum256 (p2pk_script key))) 0 in
  valid_args spk (set_sigScript idx script tx) idx c1 c2 r ->
  run_input spk (set_sigScript idx script tx) idx flags c1 c2 r = Ok tt.
Proof.
  intros Hk Hl -> Hfb Hf65 Hacc spk Hva. destruct (pushable_sized full 65) as [Hpf Hcf]; [done|done|lia|].
  destruct (p2pk_script_sized key Hk) as [Hkb Hkl].
  destruct (pushable_sized (p2pk_script key) 34) as [Hpk Hck]; [done|done|lia|].
  assert (Hh : payload_ok 32 (blake2b_Sum256 (p2pk_script key))).
  { split; [unfold zlen; by rewrite blake2b_Sum256_length|apply blake2b_Sum256_bytes]. }
  apply (p2sh_spend_iff _ _ idx flags c1 c2 r _ Hh (set_sigScript_lookup idx _ tx input Hl) Hva).
  exists [full], (p2pk_script key), (p2pk_pops key), [fromBool true]. split_and!; try done.
  - apply pushes_push_script; [forall_list|done|].
    rewrite zlen_push_script by forall_list. cbn [foldr app]. by rewrite Hcf, Hck.
  - by apply p2pk_parse.
  - assert (Hkl32 : zlen key = 32) by apply Hk.
    assert (Hev : forall t, eval_script t idx (p2pk_pops key) ([] ++ [full]) =
      let? b := check_signature SchnorrKind t idx key full in Ok ([] ++ [fromBool b])).
    { intros t. by apply (eval_key_checksig SchnorrKind 32 OpCheckSig). }
    assert (Hcs : check_signature SchnorrKind (set_sigScript idx (push_script [full; p2pk_script key]) tx)
      idx key full = Ok true).
    { apply check_signature_true; [|done|done]. cbn. unfold checkPubKeyEncoding. by rewrite Hkl32. }
    etransitivity; [apply Hev|]. by rewrite Hcs.
Qed.

(** One round of merging two non-empty push scripts for a script hash. *)
Lemma merge_round fuel prefix items items' x x' :
  Forall pushable (items ++ [x]) -> Forall pushable (items' ++ [x']) -> 2 <= zlen x <= 75 ->
  GetScriptClass x = match ExtractScriptPubKeyAddress (mk_ScriptPublicKey x 0) prefix with
                     | Ok (class, _) => class | _ => NonStandardTy end ->
  ExtractScriptPubKeyAddress (mk_ScriptPublicKey x 0) prefix <> Panic ->
  mergeScripts (S fuel) prefix ScriptHashTy (push_script (items ++ [x]))
    (Some (mk_ScriptPublicKey (push_script (items' ++ [x'])) 0)) =
  match mergeScripts fuel prefix (GetScriptClass x) (push_script (items ++ [x]))
          (Some (mk_ScriptPublicKey (push_script (items' ++ [x'])) 0)) with
  | Some (Ok merged) => Some (Script_res (AddData (AddOps NewScriptBuilder merged) x))
  | failed => failed
  end.
Proof.
  intros Hi Hi' Hx Hclass Hnp. cbn [mergeScripts spk_Script spk_Version].
  rewrite !parse_push_script by done. change (ScriptHashTy =? ScriptHashTy) with true. cbv iota.
  rewrite !(bool_decide_false (None <> None)) by (by intros []). cbn [orb].
  assert (Hz : forall (l : list bytes) y, (zlen (map snd (map push_item (l ++ [y]))) =? 0) = false).
  { intros l y. rewrite !map_app. cbn [map]. apply Z.eqb_neq. zlia. }
  rewrite !Hz, !unparse_push_script by done.
  assert (Hlast : default [] (last (map snd (map push_item (items ++ [x]))) ≫= pop_data) = x).
  { rewrite !map_app. cbn [map]. rewrite last_snoc.
    change (default [] (pop_data (snd (push_item x))) = x).
    assert (Hb : Forall is_byte x) by (apply Forall_snoc in Hi as [_ (? & _)]; done).
    pose proof (push_item_case x Hb) as Hc. apply push_case_length in Hc as [_ HL].
    unfold push_item in *. cbn [fst snd pop_data] in *. rewrite HL.
    destruct x as [|a [|b l]]; [by zlia..|]. destruct (Z.leb_spec (zlen (a :: b :: l)) 75); [|lia].
    by case_if; [lia|]. }
  rewrite Hlast, Hclass.
  destruct (ExtractScriptPubKeyAddress (mk_ScriptPublicKey x 0) prefix) as [[class addr]|err|]; done.
Qed.

(** C21: What [SignTxOutput] signs can be spent.  For an output that pays to the
    public key of a Schnorr key in the database, and for an output that pays to
    the hash of that pay-to-pubkey script, with no previous script to merge and
    a key that signs the hash of the transaction, signing succeeds, and the engine accepts the input of the transaction with
    the script put in. *)
Theorem signed_output_spendable prefix tx idx input e ht kdb sdb key p2sh ver r :
  let keyScript := p2pk_script (key_bytes key) in
  let spk := mk_ScriptPublicKey
    (if p2sh : bool then p2sh_script (blake2b_Sum256 keyScript) else keyScript) 0 in
  payload_ok 32 (key_bytes key) ->
  kdb (pubkey_address prefix (key_bytes key)) = Ok key ->
  sdb (script_address prefix (blake2b_Sum256 keyScript)) = Ok keyScript ->
  (forall h, fst (CalculateSignatureHashSchnorr tx idx ht r) = Ok h -> is_Some (SignHash key h)) ->
  IsStandardSigHashType ht = true ->
  lookupZ (Inputs tx) idx = Some input -> in_UTXOEntry input = Some e -> reuse_ok tx r ->
  exists script r',
    SignTxOutput 1 prefix tx idx spk ht kdb sdb (Some (mk_ScriptPublicKey [] ver)) r =
      (Ok (Some script), r') /\
    forall flags c1 c2 r2, valid_args spk (set_sigScript idx script tx) idx c1 c2 r2 ->
      run_input spk (set_sigScript idx script tx) idx flags c1 c2 r2 = Ok tt.
Proof.
  intros keyScript spk Hk Hkdb Hsdb Hsign Hst Hl He Hr.
  destruct (RawTxInSignature_accepted tx idx ht key input e r Hl He Hr Hst Hsign)
    as (full & r1 & Hraw & Hr1 & Hfb & Hf65 & Hacc).
  destruct (pushable_sized full 65) as [Hpf Hcf]; [done|done|lia|].
  destruct (p2pk_script_sized _ Hk) as [Hkb Hkl].
  destruct (pushable_sized keyScript 34) as [Hpk Hck]; [done|done|lia|].
  assert (H1 : Forall pushable [full]) by forall_list.
  assert (H2 : Forall pushable [full; keyScript]) by forall_list.
  assert (Hz1 : zlen (push_script [full]) = 66) by (rewrite zlen_push_script by done; cbn [foldr]; lia).
  assert (Hz2 : zlen (push_script [full; keyScript]) = 101)
    by (rewrite zlen_push_script by done; cbn [foldr]; lia).
  destruct p2sh; cbv iota in spk.
  - exists (push_script [full; keyScript]), r1. split;
      [|intros flags c1 c2 r2 Hva; by apply (p2sh_p2pk_spent (key_bytes key) full tx idx input)].
    unfold SignTxOutput. erewrite bind_ok by (by apply sign_p2sh). cbv beta iota.
    change (ScriptHashTy =? ScriptHashTy) with true. cbv iota. unfold spk. cbn [spk_Version].
    erewrite bind_ok.
    2:{ erewrite bind_ok by (by apply sign_p2pk). cbv beta iota.
        rewrite (AddData_push_script _ [full] keyScript); [done| | |done|]; unfold AddOps; cbn [sb_err NewScriptBuilder];
          change (zlen (sb_script NewScriptBuilder)) with 0; rewrite Hz1; try done.
        rewrite Hck. done. }
    by rewrite (merge_nothing 0 prefix _ _ ver _ (parse_push_script _ H2)) by (done || lia).
  - exists (push_script [full]), r1. split;
      [|intros flags c1 c2 r2 Hva; by apply (p2pk_spent (key_bytes key) full tx idx input)].
    unfold SignTxOutput. erewrite bind_ok by (by apply sign_p2pk). cbv beta iota.
    change (PubKeyTy =? ScriptHashTy) with false. cbv iota. erewrite bind_ok by reflexivity.
    by rewrite (merge_nothing 0 prefix _ _ ver _ (parse_push_script _ H1)) by (done || lia).
Qed.

Lemma class_form_extract class x pops prefix :
  class_form class x pops ->
  GetScriptClass x = class /\
  GetScriptClass x = match ExtractScriptPubKeyAddress (mk_ScriptPublicKey x 0) prefix with
                     | Ok (class, _) => class | _ => NonStandardTy end /\
  ExtractScriptPubKeyAddress (mk_ScriptPublicKey x 0) prefix <> Panic.
Proof.
  intros Hf. destruct (class_form_parse _ _ _ Hf) as [Hp Ht]. unfold GetScriptClass.
  rewrite Hp, (Extract_form _ _ _ _ Hf). by rewrite Ht.
Qed.

(** Merging signature scripts of a pay-to-script-hash output does not give
    a solution.  The last push is never taken off before the recursion, so the
    redeem script is pushed a second time on top of the merged script; and when
    the redeem script is itself a pay-to-script-hash script the recursion gets
    the arguments it started from, and never ends. *)
Theorem mergeScripts_p2sh prefix key hash s s' :
  payload_ok 32 key -> payload_ok 32 hash -> payload_ok 65 s -> payload_ok 65 s' ->
  let prev redeem := Some (mk_ScriptPublicKey (push_script [s'; redeem]) 0) in
  mergeScripts 2 prefix ScriptHashTy (push_script [s; p2pk_script key]) (prev (p2pk_script key)) =
    Some (Ok (push_script [s'; p2pk_script key; p2pk_script key])) /\
  forall fuel, mergeScripts fuel prefix ScriptHashTy (push_script [s; p2sh_script hash])
    (prev (p2sh_script hash)) = None.
Proof.
  intros Hk Hh [Hsl Hsb] [Hsl' Hsb'] prev.
  destruct (pushable_sized s 65) as [Hps Hcs]; [done|done|lia|].
  destruct (pushable_sized s' 65) as [Hps' Hcs']; [done|done|lia|].
  destruct (p2pk_script_sized key Hk) as [Hkb Hkl].
  destruct (pushable_sized (p2pk_script key) 34) as [Hpk Hck]; [done|done|lia|].
  assert (Hpsh : pushable (p2sh_script hash)).
  { destruct Hh as [Hhl Hhb]. apply (pushable_sized _ 35); [|unfold p2sh_script; zlia|lia].
    unfold p2sh_script. do 2 (apply Forall_cons; split; [done|]). apply Forall_snoc. by split. }
  destruct (class_form_extract PubKeyTy _ _ prefix (form_pubkey key Hk)) as (Hc1 & He1 & Hn1).
  destruct (class_form_extract ScriptHashTy _ _ prefix (form_script_hash hash Hh)) as (Hc2 & He2 & Hn2).
  split.
  - assert (H2 : Forall pushable ([s] ++ [p2pk_script key])) by (cbn [app]; forall_list).
    assert (H2' : Forall pushable ([s'] ++ [p2pk_script key])) by (cbn [app]; forall_list).
    unfold prev. etransitivity; [apply (merge_round 1 prefix [s] [s'] _ _ H2 H2'); [lia|done|done]|].
    rewrite Hc1. cbn [mergeScripts app spk_Script]. change (PubKeyTy =? ScriptHashTy) with false. cbv iota.
    rewrite !zlen_push_script by forall_list. cbn [foldr]. rewrite Hcs, Hcs'. case_if; [lia|].
    rewrite (AddData_push_script _ [s'; p2pk_script key] (p2pk_script key)); [done| | |done|];
      unfold AddOps; cbn [sb_err NewScriptBuilder]; change (zlen (sb_script NewScriptBuilder)) with 0;
      rewrite zlen_push_script by forall_list; cbn [foldr]; rewrite Hcs', Hck; done.
  - assert (Hl : 2 <= zlen (p2sh_script hash) <= 75) by (destruct Hh; unfold p2sh_script; zlia).
    assert (H2 : Forall pushable ([s] ++ [p2sh_script hash])) by (cbn [app]; forall_list).
    assert (H2' : Forall pushable ([s'] ++ [p2sh_script hash])) by (cbn [app]; forall_list).
    induction fuel as [|fuel IH]; [done|].
    etransitivity; [apply (merge_round fuel prefix [s] [s'] _ _ H2 H2'); [lia|done|done]|].
    rewrite Hc2. cbn [app]. unfold prev in IH. by rewrite IH.
Qed.

End spendable.

(** * Witnesses *)

#[local] Existing Instance test_crypto.
#[local] Existing Instance test_crypto_laws.
#[local] Existing Instance test_iteration.

(** One key of the concrete scheme, that signs 32-byte hashes. *)
Definition test_signer : Signer schnorr := {|
  KeyPair := unit;
  PublicKeyOf _ := (test_key 32 : PublicKey schnorr);
  SerializePublicKey k := (k : bytes);
  SignHash _ h := if bool_decide (length h = 32%nat /\ Forall is_byte h)
                  then Some (h ++ test_key 32) else None;
  SerializeSignature s := (s : bytes)
|}.
#[local] Existing Instance test_signer.

Definition test_keypair : @KeyPair schnorr test_signer := tt.
Definition test_kdb : @KeyDB test_crypto test_signer := fun _ => Ok test_keypair.
Definition test_sdb : ScriptDB := fun _ => Ok (p2pk_script (test_key 32)).

Lemma test_signer_laws : SignerLaws schnorr.
Proof.
  split; [done|]. intros k h s Hs. cbn in Hs. case_bool_decide as Hh; [|done]. injection Hs as <-.
  destruct Hh as [Hl Hb]. assert (Hz : zlen (h ++ test_key 32) = 64).
  { unfold zlen. rewrite length_app, Hl. done. }
  split; [done|]. split; [|split].
  - apply Forall_app. split; [done|]. by apply (Forall_replicate is_byte 32 2).
  - change ((if zlen (h ++ test_key 32) =? 64 then Some (h ++ test_key 32) else None) = Some (h ++ test_key 32)).
    by rewrite Hz.
  - apply (bool_decide_eq_true_2). done.
Qed.
#[local] Existing Instance test_signer_laws.

Lemma signed_output_spendable_witness :
  exists script r',
    SignTxOutput 1 Bech32PrefixKaspa (spend_tx test_p2pk []) 0 test_p2pk SigHashAll
      test_kdb test_sdb (Some (mk_ScriptPublicKey [] 0)) NoReusedValues = (Ok (Some script), r').
Proof.
  destruct (signed_output_spendable Bech32PrefixKaspa (spend_tx test_p2pk []) 0
    (mk_DomainTransactionInput (mk_DomainOutpoint (replicate 32 1) 0) [] 5 1
       (Some (mk_UTXOEntry 1000 test_p2pk 7 false))) (mk_UTXOEntry 1000 test_p2pk 7 false)
    SigHashAll test_kdb test_sdb test_keypair false 0 NoReusedValues)
    as (script & r' & Hs & _).
  - split; [done|]. by apply (Forall_replicate is_byte 32 2).
  - done.
  - done.
  - intros h Hh.
    assert (Hb : match fst (CalculateSignatureHashSchnorr (spend_tx test_p2pk []) 0 SigHashAll NoReusedValues) with
                 | Ok h => bool_decide (length h = 32%nat /\ Forall is_byte h) | _ => true end = true)
      by (vm_compute; reflexivity).
    rewrite Hh in Hb. cbn [SignHash test_signer]. rewrite Hb. by eexists.
  - done.
  - reflexivity.
  - reflexivity.
  - apply reuse_ok_empty.
  - by exists script, r'.
Defined.

Lemma mergeScripts_p2sh_witness : forall fuel,
  mergeScripts fuel Bech32PrefixKaspa ScriptHashTy
    (push_script [replicate 65 3; p2sh_script (replicate 32 4)])
    (Some (mk_ScriptPublicKey (push_script [replicate 65 5; p2sh_script (replicate 32 4)]) 0)) = None.
Proof.
  apply (mergeScripts_p2sh Bech32PrefixKaspa (replicate 32 2) (replicate 32 4) (replicate 65 3) (replicate 65 5));
    (split; [done|by apply Forall_replicate]).
Defined.
