(* ===== verification/TxMass.v ===== *)
(** The mass of a transaction: [src/util/txmass/calculator.go].

    [CalculateTransactionMass] is the compute mass consensus bounds per block;
    [CalculateTransactionStorageMass] is the storage mass of KIP-0009, whose
    explicit panics, divisions by zero and [uint64] wrap-around are written
    out. *)

From S2P Require Import Prelude Transaction.

(** * Operations *)

Definition SubnetworkIDCoinbase : bytes := 1 :: replicate 19 0.
Definition SubnetworkIDRegistry : bytes := 2 :: replicate 19 0.
Definition DomainSubnetworkIDSize : Z := 20.
Definition SompiPerKaspa : Z := 100000000.

Definition IsBuiltIn (id : bytes) : bool :=
  bool_decide (id = SubnetworkIDCoinbase) || bool_decide (id = SubnetworkIDRegistry).

Definition IsBuiltInOrNative (id : bytes) : bool :=
  bool_decide (id = SubnetworkIDNative) || IsBuiltIn id.

Definition IsCoinBase (tx : DomainTransaction) : bool :=
  bool_decide (SubnetworkID tx = SubnetworkIDCoinbase).

Record Calculator : Set := mk_Calculator {
  massPerTxByte : Z;
  massPerScriptPubKeyByte : Z;
  massPerSigOp : Z;
  storageMassParameter : Z
}.

Definition NewCalculator (massPerTxByte massPerScriptPubKeyByte massPerSigOp : Z) : Calculator :=
  mk_Calculator massPerTxByte massPerScriptPubKeyByte massPerSigOp (SompiPerKaspa * 10000).

Definition outpointEstimatedSerializedSize : Z := uint64 (DomainHashSize + 4).

Definition transactionInputEstimatedSerializedSize (input : DomainTransactionInput) : Z :=
  uint64 (outpointEstimatedSerializedSize + 8 + zlen (SignatureScript input) + 8).

Definition TransactionOutputEstimatedSerializedSize (output : DomainTransactionOutput) : Z :=
  uint64 (8 + 2 + 8 + zlen (spk_Script (out_ScriptPublicKey output))).

(** [for _, x := range l { acc += f(x) }] on a [uint64] accumulator. *)
Definition sum_uint64 {A} (f : A -> Z) (acc : Z) (l : list A) : Z :=
  foldl (fun acc x => uint64 (acc + f x)) acc l.

Definition transactionEstimatedSerializedSize (tx : DomainTransaction) : Z :=
  if IsCoinBase tx then 0 else
  let size := 2 + 8 in
  let size := sum_uint64 transactionInputEstimatedSerializedSize size (Inputs tx) in
  let size := uint64 (size + 8) in
  let size := sum_uint64 TransactionOutputEstimatedSerializedSize size (Outputs tx) in
  uint64 (size + 8 + DomainSubnetworkIDSize + 8 + DomainHashSize + 8 + zlen (Payload tx)).

Definition CalculateTransactionMass (c : Calculator) (transaction : DomainTransaction) : Z :=
  if IsCoinBase transaction then 0 else
  let size := transactionEstimatedSerializedSize transaction in
  let massForSize := uint64 (size * massPerTxByte c) in
  let totalScriptPubKeySize :=
    sum_uint64 (fun output => 2 + zlen (spk_Script (out_ScriptPublicKey output))) 0
      (Outputs transaction) in
  let massForScriptPubKey := uint64 (totalScriptPubKeySize * massPerScriptPubKeyByte c) in
  let totalSigOpCount := sum_uint64 SigOpCount 0 (Inputs transaction) in
  let massForSigOps := uint64 (totalSigOpCount * massPerSigOp c) in
  uint64 (massForSize + massForScriptPubKey + massForSigOps).

(** [a / b] on [uint64]: division by zero is a run-time panic. *)
Definition div_uint64 (a b : Z) : res Empty_set Z := if b =? 0 then Panic else Ok (a / b).

(** The loop over the outputs, with the overflow panic. *)
Fixpoint harmonic_outs (param acc : Z) (outputs : list DomainTransactionOutput)
  : res Empty_set Z :=
  match outputs with
  | [] => Ok acc
  | output :: outputs' =>
      let? inverseOut := div_uint64 param (Value output) in
      if uint64 (acc + inverseOut) <? acc then Panic
      else harmonic_outs param (uint64 (acc + inverseOut)) outputs'
  end.

(** The loop that subtracts the inverses of the inputs. *)
Fixpoint harmonic_diff (param acc : Z) (inputs : list DomainTransactionInput) : res Empty_set Z :=
  match inputs with
  | [] => Ok acc
  | input :: inputs' =>
      match in_UTXOEntry input with
      | None => Panic
      | Some entry =>
          let? inverseIn := div_uint64 param (Amount entry) in
          harmonic_diff param (if acc <? inverseIn then 0 else acc - inverseIn) inputs'
      end
  end.

(** The loop that adds up the amounts of the inputs. *)
Fixpoint sum_ins (acc : Z) (inputs : list DomainTransactionInput) : res Empty_set Z :=
  match inputs with
  | [] => Ok acc
  | input :: inputs' =>
      match in_UTXOEntry input with
      | None => Panic
      | Some entry => sum_ins (uint64 (acc + Amount entry)) inputs'
      end
  end.

Definition CalculateTransactionStorageMass (c : Calculator) (transaction : DomainTransaction)
  : res Empty_set Z :=
  if IsCoinBase transaction then Ok 0 else
  let outsLen := zlen (Outputs transaction) in
  let insLen := zlen (Inputs transaction) in
  if insLen =? 0 then Panic else
  let? harmonicOuts := harmonic_outs (storageMassParameter c) 0 (Outputs transaction) in
  if (outsLen =? 1) || (insLen =? 1) || ((outsLen =? 2) && (insLen =? 2)) then
    harmonic_diff (storageMassParameter c) harmonicOuts (Inputs transaction)
  else
  let? sumIns := sum_ins 0 (Inputs transaction) in
  let? meanIns := div_uint64 sumIns insLen in
  let? inverseMeanIns := div_uint64 (storageMassParameter c) meanIns in
  let arithmeticIns := uint64 (insLen * inverseMeanIns) in
  if arithmeticIns <? inverseMeanIns then Ok 0
  else if harmonicOuts <? arithmeticIns then Ok 0
  else Ok (harmonicOuts - arithmeticIns).

Definition CalculateTransactionOverallMass (c : Calculator) (transaction : DomainTransaction)
  : res Empty_set Z :=
  let? storage := CalculateTransactionStorageMass c transaction in
  Ok (Z.max (CalculateTransactionMass c transaction) storage).

(** * Specification

    The same quantities in unbounded arithmetic. *)

Definition sumZ {A} (f : A -> Z) (l : list A) : Z := foldr (fun x acc => f x + acc) 0 l.

Definition amount_of (input : DomainTransactionInput) : Z :=
  match in_UTXOEntry input with Some entry => Amount entry | None => 0 end.

(** The size estimate: 94 bytes, 52 for each input and 18 for each output, and
    the variable-length data. *)
Definition size_spec (tx : DomainTransaction) : Z :=
  94 + sumZ (fun input => 52 + zlen (SignatureScript input)) (Inputs tx)
     + sumZ (fun output => 18 + zlen (spk_Script (out_ScriptPublicKey output))) (Outputs tx)
     + zlen (Payload tx).

Definition mass_spec (c : Calculator) (tx : DomainTransaction) : Z :=
  size_spec tx * massPerTxByte c +
  sumZ (fun output => 2 + zlen (spk_Script (out_ScriptPublicKey output))) (Outputs tx)
    * massPerScriptPubKeyByte c +
  sumZ SigOpCount (Inputs tx) * massPerSigOp c.

(** KIP-0009: the harmonic sum of the outputs, less the harmonic sum of the
    inputs for small transactions, less the arithmetic one for the others. *)
Definition storage_spec (param : Z) (tx : DomainTransaction) : Z :=
  let outs := sumZ (fun output => param / Value output) (Outputs tx) in
  let n := zlen (Inputs tx) in
  Z.max 0 (outs -
    (if (zlen (Outputs tx) =? 1) || (n =? 1) || ((zlen (Outputs tx) =? 2) && (n =? 2))
     then sumZ (fun input => param / amount_of input) (Inputs tx)
     else n * (param / (sumZ amount_of (Inputs tx) / n)))).

(** * Sums *)

Lemma sumZ_nonneg {A} (f : A -> Z) l : Forall (fun x => 0 <= f x) l -> 0 <= sumZ f l.
Proof. induction 1; simpl; lia. Qed.

Lemma sumZ_bound {A} (f : A -> Z) b l :
  Forall (fun x => f x <= b) l -> sumZ f l <= b * zlen l.
Proof. induction 1; [unfold zlen; simpl; lia|]. rewrite zlen_cons. simpl. lia. Qed.

Lemma sumZ_lower {A} (f : A -> Z) b l :
  Forall (fun x => b <= f x) l -> b * zlen l <= sumZ f l.
Proof. induction 1; [unfold zlen; simpl; lia|]. rewrite zlen_cons. simpl. lia. Qed.

Lemma sumZ_ext {A} (f g : A -> Z) l : Forall (fun x => f x = g x) l -> sumZ f l = sumZ g l.
Proof. induction 1; simpl; lia. Qed.

Lemma sumZ_app {A} (f : A -> Z) l1 l2 : sumZ f (l1 ++ l2) = sumZ f l1 + sumZ f l2.
Proof. induction l1; simpl; lia. Qed.

Lemma uint64_id z : 0 <= z < 2 ^ 64 -> uint64 z = z.
Proof. intros Hz. by apply Z.mod_small. Qed.

Lemma uint64_range z : 0 <= uint64 z < 2 ^ 64.
Proof. unfold uint64. by apply Z.mod_pos_bound. Qed.

(** Congruence modulo 2^64, which [uint64] arithmetic respects. *)
Record eq64 (a b : Z) : Prop := mk_eq64 { uint64_eq : uint64 a = uint64 b }.

#[global] Instance eq64_equiv : Equivalence eq64.
Proof. split; [intros ?|intros ?? []|intros ??? [] []]; constructor; congruence. Qed.

#[global] Instance eq64_add : Proper (eq64 ==> eq64 ==> eq64) Z.add.
Proof.
  intros a a' [Ha] b b' [Hb]. constructor. unfold uint64 in *. by rewrite Z.add_mod, Ha, Hb, <- Z.add_mod.
Qed.

#[global] Instance eq64_mul : Proper (eq64 ==> eq64 ==> eq64) Z.mul.
Proof.
  intros a a' [Ha] b b' [Hb]. constructor. unfold uint64 in *. by rewrite Z.mul_mod, Ha, Hb, <- Z.mul_mod.
Qed.

#[global] Instance eq64_uint64 : Proper (eq64 ==> eq) uint64.
Proof. by intros a a' [Ha]. Qed.

Lemma uint64_eq64 a : eq64 (uint64 a) a.
Proof. constructor. unfold uint64. by rewrite Z.mod_mod. Qed.

(** A [uint64] accumulator is the sum modulo 2^64. *)
Lemma sum_uint64_eq64 {A} (f : A -> Z) acc l : eq64 (sum_uint64 f acc l) (acc + sumZ f l).
Proof.
  unfold sum_uint64. revert acc. induction l as [|x l IH]; intros acc; simpl.
  - by rewrite Z.add_0_r.
  - by rewrite IH, uint64_eq64, Z.add_assoc.
Qed.

Lemma sumZ_eq64 {A} (f g : A -> Z) l : (forall x, eq64 (f x) (g x)) -> eq64 (sumZ f l) (sumZ g l).
Proof. intros Hfg. induction l as [|x l IH]; [done|]. simpl. by rewrite Hfg, IH. Qed.

(** As long as the total fits, it is the sum. *)
Lemma sum_uint64_exact {A} (f : A -> Z) acc l :
  0 <= acc -> Forall (fun x => 0 <= f x) l -> acc + sumZ f l < 2 ^ 64 ->
  sum_uint64 f acc l = acc + sumZ f l.
Proof.
  unfold sum_uint64. intros Hacc Hl. revert acc Hacc.
  induction Hl as [|x l Hx Hl IH]; intros acc Hacc Hs; simpl in *; [lia|].
  pose proof (sumZ_nonneg f l Hl). rewrite uint64_id by lia. rewrite IH; lia.
Qed.

(** * The masses are what the specification says *)

Lemma transactionEstimatedSerializedSize_eq64 tx :
  IsCoinBase tx = false -> eq64 (transactionEstimatedSerializedSize tx) (size_spec tx).
Proof.
  unfold transactionEstimatedSerializedSize, size_spec. intros ->.
  rewrite uint64_eq64, !sum_uint64_eq64, uint64_eq64.
  rewrite (sumZ_eq64 transactionInputEstimatedSerializedSize
    (fun input => 52 + zlen (SignatureScript input))).
  2:{ intros x. unfold transactionInputEstimatedSerializedSize, outpointEstimatedSerializedSize.
      rewrite uint64_eq64, uint64_eq64. apply reflexive_eq. unfold DomainHashSize. lia. }
  rewrite (sumZ_eq64 TransactionOutputEstimatedSerializedSize
    (fun output => 18 + zlen (spk_Script (out_ScriptPublicKey output)))).
  2:{ intros x. unfold TransactionOutputEstimatedSerializedSize. by rewrite uint64_eq64. }
  apply reflexive_eq. unfold DomainHashSize, DomainSubnetworkIDSize. lia.
Qed.

Lemma CalculateTransactionMass_eq64 c tx :
  IsCoinBase tx = false -> eq64 (CalculateTransactionMass c tx) (mass_spec c tx).
Proof.
  unfold CalculateTransactionMass, mass_spec. intros Hc. rewrite Hc.
  by rewrite !uint64_eq64, !sum_uint64_eq64, transactionEstimatedSerializedSize_eq64.
Qed.

(** Amounts of a populated transaction. *)
Definition populated (tx : DomainTransaction) : Prop :=
  Forall (fun input => is_Some (in_UTXOEntry input) /\ 0 < amount_of input) (Inputs tx) /\
  Forall (fun output => 0 < Value output) (Outputs tx).

Lemma div_uint64_pos a b : 0 < b -> div_uint64 a b = Ok (a / b).
Proof. intros Hb. unfold div_uint64. case_if; [lia|done]. Qed.

Lemma harmonic_outs_exact param acc outs :
  0 <= param -> 0 <= acc -> Forall (fun output => 0 < Value output) outs ->
  acc + param * zlen outs < 2 ^ 64 ->
  harmonic_outs param acc outs = Ok (acc + sumZ (fun output => param / Value output) outs).
Proof.
  intros Hp Hacc Ho. revert acc Hacc. induction Ho as [|x l Hx Hl IH]; intros acc Hacc Hb; simpl.
  { by rewrite Z.add_0_r. }
  rewrite zlen_cons in Hb. rewrite div_uint64_pos by done. cbn [bind_res].
  assert (0 <= param / Value x <= param).
  { split; [apply Z.div_pos; lia|apply Z.div_le_upper_bound; nia]. }
  pose proof (zlen_nonneg l). rewrite uint64_id by nia. case_if; [lia|].
  rewrite IH by nia. f_equal. lia.
Qed.

Lemma harmonic_diff_exact param acc ins :
  0 <= param -> 0 <= acc ->
  Forall (fun input => is_Some (in_UTXOEntry input) /\ 0 < amount_of input) ins ->
  harmonic_diff param acc ins =
    Ok (Z.max 0 (acc - sumZ (fun input => param / amount_of input) ins)).
Proof.
  intros Hp Hacc Hi. revert acc Hacc. induction Hi as [|x l [[e He] Hx] Hl IH]; intros acc Hacc; simpl.
  { f_equal. lia. }
  assert (Hs : 0 <= sumZ (fun input => param / amount_of input) l).
  { apply sumZ_nonneg. eapply Forall_impl; [exact Hl|]. intros y [_ Hy]. apply Z.div_pos; lia. }
  unfold amount_of in Hx |- * at 1. rewrite He in *. rewrite div_uint64_pos by done. cbn [bind_res].
  assert (0 <= param / Amount e) by (apply Z.div_pos; lia).
  rewrite IH by (case_if; lia). f_equal. case_if; lia.
Qed.

Lemma sum_ins_exact acc ins :
  0 <= acc -> Forall (fun input => is_Some (in_UTXOEntry input) /\ 0 < amount_of input) ins ->
  acc + sumZ amount_of ins < 2 ^ 64 -> sum_ins acc ins = Ok (acc + sumZ amount_of ins).
Proof.
  intros Hacc Hi. revert acc Hacc. induction Hi as [|x l [[e He] Hx] Hl IH]; intros acc Hacc Hb; simpl.
  { by rewrite Z.add_0_r. }
  assert (Hs : 0 <= sumZ amount_of l).
  { apply sumZ_nonneg. eapply Forall_impl; [exact Hl|]. simpl. intros y [_ Hy]. lia. }
  assert (Hx' : amount_of x = Amount e) by (unfold amount_of; by rewrite He).
  simpl in Hb. rewrite He, Hx' in *.
  rewrite uint64_id by lia. rewrite IH by lia. f_equal. lia.
Qed.

Lemma storage_mass_exact c tx :
  IsCoinBase tx = false -> populated tx -> 0 < zlen (Inputs tx) ->
  0 <= storageMassParameter c ->
  storageMassParameter c * (1 + zlen (Outputs tx)) < 2 ^ 64 ->
  storageMassParameter c * (1 + zlen (Inputs tx)) < 2 ^ 64 ->
  sumZ amount_of (Inputs tx) < 2 ^ 64 ->
  CalculateTransactionStorageMass c tx = Ok (storage_spec (storageMassParameter c) tx).
Proof.
  intros Hc [Hi Ho] Hn Hp Hbo Hbi Hs. unfold CalculateTransactionStorageMass, storage_spec. rewrite Hc.
  case_if; [lia|]. rewrite harmonic_outs_exact by (done || nia). cbn [bind_res]. rewrite Z.add_0_l.
  assert (Houts : 0 <= sumZ (fun output => storageMassParameter c / Value output) (Outputs tx)).
  { apply sumZ_nonneg. eapply Forall_impl; [exact Ho|]. simpl. intros y Hy. apply Z.div_pos; lia. }
  case_if; [by apply harmonic_diff_exact|].
  rewrite sum_ins_exact by (done || lia). cbn [bind_res]. rewrite Z.add_0_l.
  rewrite div_uint64_pos by done. cbn [bind_res].
  assert (Hlow : 1 * zlen (Inputs tx) <= sumZ amount_of (Inputs tx)).
  { apply sumZ_lower. eapply Forall_impl; [exact Hi|]. simpl. intros y [_ Hy]. lia. }
  assert (Hm : 1 <= sumZ amount_of (Inputs tx) / zlen (Inputs tx)) by (apply Z.div_le_lower_bound; lia).
  rewrite div_uint64_pos by lia. cbn [bind_res]. set (m := sumZ amount_of _ / _) in *.
  assert (0 <= storageMassParameter c / m <= storageMassParameter c).
  { split; [apply Z.div_pos; lia|apply Z.div_le_upper_bound; nia]. }
  rewrite uint64_id by nia. case_if; [nia|]. case_if; f_equal; lia.
Qed.

(** The masses of a transaction are the documented formulas.  The compute
    mass is the one of the specification modulo 2^64, and equals it when it
    fits; for a populated transaction with positive values whose number of
    inputs and outputs keeps the sums below 2^64 (17 million for the deployed
    parameter) the storage mass does not panic and is the KIP-0009 formula. *)
Theorem transaction_mass_exact c tx :
  IsCoinBase tx = false -> populated tx -> 0 < zlen (Inputs tx) ->
  0 <= storageMassParameter c ->
  storageMassParameter c * (1 + zlen (Outputs tx)) < 2 ^ 64 ->
  storageMassParameter c * (1 + zlen (Inputs tx)) < 2 ^ 64 ->
  sumZ amount_of (Inputs tx) < 2 ^ 64 ->
  eq64 (CalculateTransactionMass c tx) (mass_spec c tx) /\
  (0 <= mass_spec c tx < 2 ^ 64 -> CalculateTransactionMass c tx = mass_spec c tx) /\
  CalculateTransactionStorageMass c tx = Ok (storage_spec (storageMassParameter c) tx) /\
  CalculateTransactionOverallMass c tx =
    Ok (Z.max (CalculateTransactionMass c tx) (storage_spec (storageMassParameter c) tx)).
Proof.
  intros Hc Hp Hn Hs Ho Hi Ha. pose proof (CalculateTransactionMass_eq64 c tx Hc) as Hm.
  unfold CalculateTransactionOverallMass. rewrite storage_mass_exact by done.
  split_and!; [done| |done|done]. intros Hr. destruct Hm as [Hm]. rewrite (uint64_id _ Hr) in Hm.
  rewrite <- Hm. unfold CalculateTransactionMass. rewrite Hc. symmetry. apply uint64_id, uint64_range.
Qed.

Definition mass_test_tx : DomainTransaction :=
  let spk := mk_ScriptPublicKey (replicate 34 1) 0 in
  let input k := mk_DomainTransactionInput (mk_DomainOutpoint NewZeroHash k) (replicate 66 1) 0 1
                   (Some (mk_UTXOEntry (10 ^ 10 * (k + 1)) spk 5 false)) in
  mk_DomainTransaction 0 [input 0; input 1; input 2]
    [mk_DomainTransactionOutput (10 ^ 7) spk; mk_DomainTransactionOutput (5 * 10 ^ 10) spk] 0
    SubnetworkIDNative 0 [] 0 0 None.

Lemma transaction_mass_exact_witness :
  CalculateTransactionMass (NewCalculator 1 10 1000) mass_test_tx = 4272 /\
  CalculateTransactionStorageMass (NewCalculator 1 10 1000) mass_test_tx = Ok 99870.
Proof.
  destruct (transaction_mass_exact (NewCalculator 1 10 1000) mass_test_tx) as (_ & Hm & Hs & _);
    [by vm_compute| |by vm_compute..|].
  - split.
    + repeat (apply Forall_cons; split; [split; [by eexists|by vm_compute]|]). apply Forall_nil_2.
    + repeat (apply Forall_cons; split; [by vm_compute|]). apply Forall_nil_2.
  - rewrite Hm, Hs by (split; by vm_compute). split; by vm_compute.
Defined.
