(* ===== verification/TxHash.v ===== *)
(** Transaction serialisation for hashing, transaction hashes and identifiers:
    [src/domain/consensus/utils/consensushashing/transaction.go].

    The hash writers never fail, so a serialisation is the bytes written. *)

From S2P Require Import Prelude ScriptError Transaction Sha256 SigHash TxMass.

(** * Operations *)

Definition transcationHashDomain : string := "TransactionHash".
Definition transcationIDDomain : string := "TransactionID".

Definition txEncodingFull : Z := 0.
Definition txEncodingExcludeSignatureScript : Z := Z.shiftl 1 1.

Definition writeOutpoint (outpoint : DomainOutpoint) : bytes :=
  TransactionID outpoint ++ le_put 4 (Index outpoint).

Definition writeVarBytes (data : bytes) : bytes :=
  WriteElement (EUint64 (uint64 (zlen data))) ++ data.

Definition writeTransactionInput (encodingFlags : Z) (ti : DomainTransactionInput) : bytes :=
  writeOutpoint (PreviousOutpoint ti) ++
  (if negb (Z.land encodingFlags txEncodingExcludeSignatureScript =? txEncodingExcludeSignatureScript)
   then writeVarBytes (SignatureScript ti) ++ [SigOpCount ti]
   else writeVarBytes []) ++
  le_put 8 (Sequence ti).

Definition writeTxOut (to : DomainTransactionOutput) : bytes :=
  le_put 8 (Value to) ++ le_put 2 (spk_Version (out_ScriptPublicKey to)) ++
  writeVarBytes (spk_Script (out_ScriptPublicKey to)).

Definition serializeTransaction (tx : DomainTransaction) (encodingFlags : Z) : bytes :=
  le_put 2 (Version tx) ++
  WriteElement (EUint64 (uint64 (zlen (Inputs tx)))) ++
  concat (map (writeTransactionInput encodingFlags) (Inputs tx)) ++
  WriteElement (EUint64 (uint64 (zlen (Outputs tx)))) ++
  concat (map writeTxOut (Outputs tx)) ++
  le_put 8 (LockTime tx) ++ SubnetworkID tx ++ le_put 8 (Gas tx) ++ writeVarBytes (Payload tx).

Section hashing.
Context `{Crypto}.

Definition TransactionHash (tx : DomainTransaction) : bytes :=
  Finalize_copy (blake2b_New256 (string_bytes transcationHashDomain)
    (serializeTransaction tx txEncodingFull)).

Definition set_ID (id : bytes) (tx : DomainTransaction) : DomainTransaction :=
  mk_DomainTransaction (Version tx) (Inputs tx) (Outputs tx) (LockTime tx) (SubnetworkID tx)
    (Gas tx) (Payload tx) (Fee tx) (Mass tx) (Some id).

(** The flags [TransactionID] serialises with. *)
Definition id_flags (tx : DomainTransaction) : Z :=
  if negb (IsCoinBase tx) then txEncodingExcludeSignatureScript else txEncodingFull.

Definition computed_ID (tx : DomainTransaction) : bytes :=
  Finalize_copy (blake2b_New256 (string_bytes transcationIDDomain)
    (serializeTransaction tx (id_flags tx))).

(** [TransactionID] caches its result in the transaction. *)
Definition transaction_ID {E} : M E DomainTransaction bytes :=
  fun tx => match tx_ID tx with
            | Some id => (Ok id, tx)
            | None => (Ok (computed_ID tx), set_ID (computed_ID tx) tx)
            end.

(** The identifiers of a slice of transactions, and the transactions with their
    identifiers cached. *)
Fixpoint TransactionIDs (txs : list DomainTransaction) : list bytes * list DomainTransaction :=
  match txs with
  | [] => ([], [])
  | tx :: txs' =>
      let '(id, tx') := transaction_ID (E := Empty_set) tx in
      let '(ids, txs'') := TransactionIDs txs' in
      (match id with Ok id => id | _ => [] end :: ids, tx' :: txs'')
  end.

End hashing.

(** * Prefix-free encodings

    An encoding that can be read off the front of what follows it. *)

Definition prefix_free {A} (P : A -> Prop) (f : A -> bytes) : Prop :=
  forall x y r s, P x -> P y -> f x ++ r = f y ++ s -> x = y /\ r = s.

Lemma prefix_free_le_put n :
  prefix_free (fun z => 0 <= z < 256 ^ Z.of_nat n) (le_put n).
Proof.
  intros x y r s Hx Hy Heq. apply app_inv_length in Heq as [Heq ?]; [|by rewrite !length_le_put].
  by apply le_put_inj in Heq.
Qed.

Lemma prefix_free_fixed n : prefix_free (fun b : bytes => length b = n) id.
Proof. intros x y r s Hx Hy Heq. apply app_inv_length in Heq; [done|]. unfold id. congruence. Qed.

Lemma prefix_free_bytes : prefix_free (fun b : bytes => zlen b < 2 ^ 64) writeVarBytes.
Proof. intros x y r s Hx Hy Heq. by apply (EBytes_inv x y r s). Qed.

(** Elements of two lists of the same length. *)
Lemma prefix_free_concat {A} (P : A -> Prop) (f : A -> bytes) (l1 l2 : list A) r s :
  prefix_free P f -> Forall P l1 -> Forall P l2 -> length l1 = length l2 ->
  concat (map f l1) ++ r = concat (map f l2) ++ s -> l1 = l2 /\ r = s.
Proof.
  intros Hf H1. revert l2 r s. induction H1 as [|x l1 Hx H1 IH]; intros [|y l2] r s H2 Hl Heq; try done.
  apply Forall_cons in H2 as [Hy H2]. simpl in Heq. rewrite <- !app_assoc in Heq.
  apply (Hf x y) in Heq as [-> Heq]; [|done|done]. injection Hl as Hl.
  by destruct (IH l2 r s H2 Hl Heq) as [-> ->].
Qed.

(** A list written with its length first. *)
Lemma prefix_free_list {A} (P : A -> Prop) (f : A -> bytes) :
  prefix_free P f ->
  prefix_free (fun l => Forall P l /\ zlen l < 2 ^ 64)
    (fun l => WriteElement (EUint64 (uint64 (zlen l))) ++ concat (map f l)).
Proof.
  intros Hf x y r s [Hx Hlx] [Hy Hly] Heq. cbn [WriteElement] in Heq. rewrite <- !app_assoc in Heq.
  zlen_facts. rewrite !uint64_id in Heq by lia.
  apply prefix_free_le_put in Heq as [Hl Heq]; [|change (256 ^ Z.of_nat 8) with (2 ^ 64); lia..].
  eapply prefix_free_concat in Heq; try done. unfold zlen in Hl. lia.
Qed.

(** * What a serialisation determines *)

(** The widths of the Go types of what is written. *)
Record serial_widths (tx : DomainTransaction) : Prop := {
  sw_tx : tx_widths tx;
  sw_inputs : Forall (fun i => input_widths i /\ zlen (SignatureScript i) < 2 ^ 64) (Inputs tx);
  sw_outputs : Forall (fun o => 0 <= Value o < 2 ^ 64 /\
    0 <= spk_Version (out_ScriptPublicKey o) < 2 ^ 16 /\
    zlen (spk_Script (out_ScriptPublicKey o)) < 2 ^ 64) (Outputs tx);
  sw_lengths : zlen (Inputs tx) < 2 ^ 64 /\ zlen (Outputs tx) < 2 ^ 64 /\ zlen (Payload tx) < 2 ^ 64
}.

(** What of an input is written: without the signature script, neither it nor
    the signature operation count is. *)
Definition written_input (full : bool) (i : DomainTransactionInput) : DomainTransactionInput :=
  if full then mk_DomainTransactionInput (PreviousOutpoint i) (SignatureScript i) (Sequence i)
                 (SigOpCount i) None
  else mk_DomainTransactionInput (PreviousOutpoint i) [] (Sequence i) 0 None.

Definition is_full (flags : Z) : bool :=
  negb (Z.land flags txEncodingExcludeSignatureScript =? txEncodingExcludeSignatureScript).

Lemma writeTransactionInput_written flags i :
  writeTransactionInput flags i = writeTransactionInput flags (written_input (is_full flags) i).
Proof. unfold writeTransactionInput, written_input, is_full. by case_if. Qed.

Lemma prefix_free_outpoint :
  prefix_free (fun o => length (TransactionID o) = 32%nat /\ 0 <= Index o < 2 ^ 32) writeOutpoint.
Proof.
  intros [t1 x1] [t2 x2] r s [Ht1 Hx1] [Ht2 Hx2] Heq. unfold writeOutpoint in Heq.
  cbn [TransactionID Index] in *.
  rewrite <- !app_assoc in Heq. apply (prefix_free_fixed 32) in Heq as [-> Heq]; [|done..].
  by apply prefix_free_le_put in Heq as [-> ->].
Qed.

Lemma prefix_free_input flags :
  prefix_free (fun i => (input_widths i /\ zlen (SignatureScript i) < 2 ^ 64) /\
                        i = written_input (is_full flags) i) (writeTransactionInput flags).
Proof.
  intros [o1 s1 q1 c1 u1] [o2 s2 q2 c2 u2] r s [[(Ht1 & Hx1 & Hq1) Hs1] Hw1] [[(Ht2 & Hx2 & Hq2) Hs2] Hw2] Heq.
  unfold writeTransactionInput, written_input, is_full in *.
  cbn [PreviousOutpoint SignatureScript Sequence SigOpCount] in *. rewrite <- !app_assoc in Heq.
  apply prefix_free_outpoint in Heq as [-> Heq]; [|done..].
  destruct (Z.land flags _ =? _); cbn [negb] in *;
    injection Hw1; injection Hw2; intros; subst.
  - apply prefix_free_bytes in Heq as [_ Heq]; [|done..].
    by apply prefix_free_le_put in Heq as [-> ->].
  - rewrite <- !app_assoc in Heq. apply prefix_free_bytes in Heq as [-> Heq]; [|done..].
    apply (prefix_free_fixed 1 [c1] [c2]) in Heq as [Hc Heq]; [|done..]. injection Hc as ->.
    by apply prefix_free_le_put in Heq as [-> ->].
Qed.

Lemma prefix_free_output :
  prefix_free (fun o => 0 <= Value o < 2 ^ 64 /\ 0 <= spk_Version (out_ScriptPublicKey o) < 2 ^ 16 /\
    zlen (spk_Script (out_ScriptPublicKey o)) < 2 ^ 64) writeTxOut.
Proof.
  intros [v1 [k1 n1]] [v2 [k2 n2]] r s (Hv1 & Hn1 & Hk1) (Hv2 & Hn2 & Hk2) Heq.
  unfold writeTxOut in Heq. cbn [Value out_ScriptPublicKey spk_Version spk_Script] in *. rewrite <- !app_assoc in Heq.
  apply prefix_free_le_put in Heq as [-> Heq]; [|done..].
  apply prefix_free_le_put in Heq as [-> Heq]; [|done..].
  by apply prefix_free_bytes in Heq as [-> ->].
Qed.

(** The written parts agree. *)
Definition same_written (full : bool) (tx1 tx2 : DomainTransaction) : Prop :=
  Version tx1 = Version tx2 /\
  map (written_input full) (Inputs tx1) = map (written_input full) (Inputs tx2) /\
  Outputs tx1 = Outputs tx2 /\ LockTime tx1 = LockTime tx2 /\
  SubnetworkID tx1 = SubnetworkID tx2 /\ Gas tx1 = Gas tx2 /\ Payload tx1 = Payload tx2.

Lemma concat_written flags ins :
  concat (map (writeTransactionInput flags) ins) =
  concat (map (writeTransactionInput flags) (map (written_input (is_full flags)) ins)).
Proof.
  rewrite map_map. f_equal. apply map_ext. intros i. apply writeTransactionInput_written.
Qed.

Lemma written_inputs_widths flags ins :
  Forall (fun i => input_widths i /\ zlen (SignatureScript i) < 2 ^ 64) ins ->
  Forall (fun i => (input_widths i /\ zlen (SignatureScript i) < 2 ^ 64) /\
                   i = written_input (is_full flags) i) (map (written_input (is_full flags)) ins).
Proof.
  intros Hi. apply Forall_fmap. eapply Forall_impl; [exact Hi|]. intros i [Hw Hs]. simpl.
  unfold written_input. by destruct (is_full flags).
Qed.

Lemma serialize_same flags tx1 tx2 :
  same_written (is_full flags) tx1 tx2 -> serializeTransaction tx1 flags = serializeTransaction tx2 flags.
Proof.
  intros (Hv & Hi & Ho & Hl & Hs & Hg & Hp). unfold serializeTransaction.
  rewrite (concat_written flags (Inputs tx1)), (concat_written flags (Inputs tx2)), Hv, Hi, Ho, Hl, Hs, Hg, Hp. do 4 f_equal.
  apply (f_equal length) in Hi. rewrite !length_map in Hi. unfold zlen. by rewrite Hi.
Qed.

Lemma serialize_inj flags tx1 tx2 :
  serial_widths tx1 -> serial_widths tx2 ->
  serializeTransaction tx1 flags = serializeTransaction tx2 flags ->
  same_written (is_full flags) tx1 tx2.
Proof.
  intros [(Hv1 & Hl1 & Hg1 & Hs1) Hi1 Ho1 (Hli1 & Hlo1 & Hp1)]
    [(Hv2 & Hl2 & Hg2 & Hs2) Hi2 Ho2 (Hli2 & Hlo2 & Hp2)] Heq.
  unfold serializeTransaction in Heq. rewrite (concat_written flags (Inputs tx1)), (concat_written flags (Inputs tx2)) in Heq.
  apply prefix_free_le_put in Heq as [Ev Heq]; [|done..].
  rewrite !(app_assoc (WriteElement (EUint64 (uint64 (zlen (Inputs _)))))) in Heq.
  assert (Hz : forall tx, zlen (Inputs tx) = zlen (map (written_input (is_full flags)) (Inputs tx))).
  { intros tx. unfold zlen. by rewrite length_map. }
  rewrite !Hz in Heq. rewrite Hz in Hli1, Hli2.
  apply (prefix_free_list _ _ (prefix_free_input flags)) in Heq as [Ei Heq];
    [|split; [by apply written_inputs_widths|done]..].
  rewrite !(app_assoc (WriteElement (EUint64 (uint64 (zlen (Outputs _)))))) in Heq.
  apply (prefix_free_list _ _ prefix_free_output) in Heq as [Eo Heq]; [|done..].
  apply prefix_free_le_put in Heq as [El Heq]; [|done..].
  apply (prefix_free_fixed 20) in Heq as [Es Heq]; [|done..].
  apply prefix_free_le_put in Heq as [Eg Heq]; [|done..].
  rewrite <- (app_nil_r (writeVarBytes (Payload tx1))), <- (app_nil_r (writeVarBytes (Payload tx2))) in Heq.
  apply prefix_free_bytes in Heq as [Ep _]; [|done..]. done.
Qed.

(** C29: A transaction's hash commits to all of it, its identifier to all but the
    signature scripts and signature operation counts.  Two transactions are
    serialised to the same bytes exactly when the written fields agree: the
    version, the outputs, the lock time, the subnetwork, the gas, the payload
    and of each input the outpoint, the sequence and, in the full encoding, the
    signature script and the operation count. *)
Theorem transaction_encoding_exact `{Crypto} tx1 tx2 :
  serial_widths tx1 -> serial_widths tx2 -> IsCoinBase tx1 = IsCoinBase tx2 ->
  (serializeTransaction tx1 txEncodingFull = serializeTransaction tx2 txEncodingFull <->
   same_written true tx1 tx2) /\
  (serializeTransaction tx1 (id_flags tx1) = serializeTransaction tx2 (id_flags tx2) <->
   same_written (IsCoinBase tx1) tx1 tx2) /\
  (same_written (IsCoinBase tx1) tx1 tx2 -> computed_ID tx1 = computed_ID tx2).
Proof.
  intros H1 H2 Hc. assert (Hf : is_full (id_flags tx1) = IsCoinBase tx1).
  { unfold id_flags. by destruct (IsCoinBase tx1). }
  assert (He : id_flags tx2 = id_flags tx1) by (unfold id_flags; by rewrite Hc).
  split_and!.
  - split; [by apply serialize_inj|apply (serialize_same txEncodingFull)].
  - rewrite He, <- Hf. split; [by apply serialize_inj|apply serialize_same].
  - intros Hs. unfold computed_ID. rewrite He. do 2 f_equal. apply serialize_same. by rewrite Hf.
Qed.

(** The identifier is computed once and read from the cache afterwards. *)
Lemma transaction_ID_cached `{Crypto} {E} tx :
  tx_ID tx = None ->
  let '(id, tx') := transaction_ID (E := E) tx in
  id = Ok (computed_ID tx) /\ transaction_ID (E := E) tx' = (id, tx') /\
  computed_ID tx' = computed_ID tx.
Proof. intros Hn. unfold transaction_ID at 1. rewrite Hn. done. Qed.

(** Two transactions that differ in their signature scripts only. *)
Lemma transaction_encoding_exact_witness :
  let signed := mk_DomainTransaction 0
    [mk_DomainTransactionInput (mk_DomainOutpoint (replicate 32 1) 1) [1; 2; 3] 5 2 (Some test_entry);
     test_input 2 6] (Outputs test_tx) 100 SubnetworkIDNative 0 [] 0 0 None in
  @computed_ID test_crypto test_tx = @computed_ID test_crypto signed /\
  serializeTransaction test_tx txEncodingFull <> serializeTransaction signed txEncodingFull.
Proof.
  intros signed. destruct (@transaction_encoding_exact test_crypto test_tx signed) as (Hfull & _ & Hid).
  - split; [done| | |done].
    + repeat (apply Forall_cons; split; [done|]). apply Forall_nil_2.
    + repeat (apply Forall_cons; split; [done|]). apply Forall_nil_2.
  - split; [done| | |done].
    + repeat (apply Forall_cons; split; [done|]). apply Forall_nil_2.
    + repeat (apply Forall_cons; split; [done|]). apply Forall_nil_2.
  - done.
  - refine (conj (Hid _) _); [unfold same_written; split_and!; vm_compute; reflexivity|].
    intros Heq. apply Hfull in Heq as (_ & Hi & _). discriminate Hi.
Defined.
