(* ===== verification/TxValidator.v ===== *)
(** Transaction validation:
    [src/domain/consensus/processes/transactionvalidator/].

    The validator is a record of its configuration and its two signature
    caches, which script execution updates.  The DAA-score store it reads is an
    interface, the class [DAABlocksStore].  The checks compose the script
    engine, the signature-operation counter and the mass calculator of the
    other files. *)

From S2P Require Import Prelude ScriptError ScriptNum Stack Opcodes Transaction.
From S2P Require Import Script Sha256 SigHash SigCache Engine EngineInv EngineStep EngineSim.
From S2P Require Import EngineSpec Address Standard Spending TxMass.

(** * Data *)

Definition MaxTransactionVersion : Z := 0.
Definition MaxSompi : Z := uint64 (29000000000 * SompiPerKaspa).

(** The rule errors of the validator, and the error of a store that fails.
    Formatted messages are left out. *)
Inductive RuleError : Set :=
| ErrNoTxInputs
| ErrTxOutValueZero
| ErrBadTxOutValue
| ErrDuplicateTxInputs
| ErrBadCoinbasePayloadLen
| ErrCoinbaseWithInputs
| ErrCoinbaseTooManyOutputs
| ErrCoinbaseTooLongScriptPublicKey
| ErrInvalidGas
| ErrSubnetworkRegistry
| ErrInvalidPayload
| ErrSubnetworksDisabled
| ErrTransactionVersionIsUnknown
| ErrUnfinalizedTx
| ErrImmatureSpend
| ErrMissingTxOut (missingOutpoints : list DomainOutpoint)
| ErrSpendTooHigh
| ErrWrongSigOpCount
| ErrScriptMalformed
| ErrScriptValidation
| ErrStore.

(** What the validator uses of [model.DAABlocksStore]: the score of a block,
    or an error when the store has none. *)
Class DAABlocksStore := {
  DAAScore : bytes -> res RuleError Z
}.

Section validator.
Context `{C : Crypto} `{IT : MapIteration} `{ST : DAABlocksStore}.

Record transactionValidator := mk_transactionValidator {
  blockCoinbaseMaturity : Z;
  enableNonNativeSubnetworks : bool;
  maxCoinbasePayloadLength : Z;
  ghostdagK : Z;
  coinbasePayloadScriptPublicKeyMaxLength : Z;
  v_sigCache : SigCacheSchnorr;
  v_sigCacheECDSA : SigCacheECDSA;
  txMassCalculator : Calculator
}.

Definition sigCacheSize : Z := 10000.

Definition New (blockCoinbaseMaturity : Z) (enableNonNativeSubnetworks : bool)
    (maxCoinbasePayloadLength ghostdagK coinbasePayloadScriptPublicKeyMaxLength : Z)
    (txMassCalculator : Calculator) : transactionValidator :=
  mk_transactionValidator blockCoinbaseMaturity enableNonNativeSubnetworks
    maxCoinbasePayloadLength ghostdagK coinbasePayloadScriptPublicKeyMaxLength
    (NewSigCache schnorr sigCacheSize) (NewSigCacheECDSA sigCacheSize) txMassCalculator.

Definition set_caches (c1 : SigCacheSchnorr) (c2 : SigCacheECDSA) (v : transactionValidator)
  : transactionValidator :=
  mk_transactionValidator (blockCoinbaseMaturity v) (enableNonNativeSubnetworks v)
    (maxCoinbasePayloadLength v) (ghostdagK v) (coinbasePayloadScriptPublicKeyMaxLength v)
    c1 c2 (txMassCalculator v).

Definition set_Fee (fee : Z) (tx : DomainTransaction) : DomainTransaction :=
  mk_DomainTransaction (Version tx) (Inputs tx) (Outputs tx) (LockTime tx) (SubnetworkID tx)
    (Gas tx) (Payload tx) fee (Mass tx) (tx_ID tx).

Definition set_Mass (mass : Z) (tx : DomainTransaction) : DomainTransaction :=
  mk_DomainTransaction (Version tx) (Inputs tx) (Outputs tx) (LockTime tx) (SubnetworkID tx)
    (Gas tx) (Payload tx) (Fee tx) mass (tx_ID tx).

(** * Validation in isolation *)

Definition checkTransactionInputCount (tx : DomainTransaction) : res RuleError unit :=
  if negb (IsCoinBase tx) && (zlen (Inputs tx) =? 0) then Err ErrNoTxInputs else Ok tt.

Fixpoint amount_ranges_loop (totalSompi : Z) (outputs : list DomainTransactionOutput)
  : res RuleError unit :=
  match outputs with
  | [] => Ok tt
  | txOut :: outputs' =>
      let sompi := Value txOut in
      if sompi =? 0 then Err ErrTxOutValueZero
      else if sompi >? MaxSompi then Err ErrBadTxOutValue
      else
      let newTotalSompi := uint64 (totalSompi + sompi) in
      if newTotalSompi <? totalSompi then Err ErrBadTxOutValue
      else if newTotalSompi >? MaxSompi then Err ErrBadTxOutValue
      else amount_ranges_loop newTotalSompi outputs'
  end.

Definition checkTransactionAmountRanges (tx : DomainTransaction) : res RuleError unit :=
  amount_ranges_loop 0 (Outputs tx).

Fixpoint duplicate_inputs_loop (existingTxOut : gset DomainOutpoint)
    (inputs : list DomainTransactionInput) : res RuleError unit :=
  match inputs with
  | [] => Ok tt
  | txIn :: inputs' =>
      if bool_decide (PreviousOutpoint txIn ∈ existingTxOut) then Err ErrDuplicateTxInputs
      else duplicate_inputs_loop ({[PreviousOutpoint txIn]} ∪ existingTxOut) inputs'
  end.

Definition checkDuplicateTransactionInputs (tx : DomainTransaction) : res RuleError unit :=
  duplicate_inputs_loop ∅ (Inputs tx).

Fixpoint coinbase_outputs_loop (v : transactionValidator) (outputs : list DomainTransactionOutput)
  : res RuleError unit :=
  match outputs with
  | [] => Ok tt
  | output :: outputs' =>
      if zlen (spk_Script (out_ScriptPublicKey output)) >? coinbasePayloadScriptPublicKeyMaxLength v
      then Err ErrCoinbaseTooLongScriptPublicKey
      else coinbase_outputs_loop v outputs'
  end.

Definition checkCoinbaseInIsolation (v : transactionValidator) (tx : DomainTransaction)
  : res RuleError unit :=
  if negb (IsCoinBase tx) then Ok tt else
  if uint64 (zlen (Payload tx)) >? maxCoinbasePayloadLength v then Err ErrBadCoinbasePayloadLen else
  if negb (zlen (Inputs tx) =? 0) then Err ErrCoinbaseWithInputs else
  let outputsLimit := uint64 (ghostdagK v + 2) in
  if uint64 (zlen (Outputs tx)) >? outputsLimit then Err ErrCoinbaseTooManyOutputs else
  coinbase_outputs_loop v (Outputs tx).

Definition checkGasInBuiltInOrNativeTransactions (tx : DomainTransaction) : res RuleError unit :=
  if IsBuiltInOrNative (SubnetworkID tx) && (Gas tx >? 0) then Err ErrInvalidGas else Ok tt.

Definition checkSubnetworkRegistryTransaction (tx : DomainTransaction) : res RuleError unit :=
  if negb (bool_decide (SubnetworkID tx = SubnetworkIDRegistry)) then Ok tt else
  if negb (zlen (Payload tx) =? 8) then Err ErrSubnetworkRegistry else Ok tt.

Definition checkNativeTransactionPayload (tx : DomainTransaction) : res RuleError unit :=
  if bool_decide (SubnetworkID tx = SubnetworkIDNative) && (zlen (Payload tx) >? 0)
  then Err ErrInvalidPayload else Ok tt.

(** [localNodeSubnetworkID] is a pointer: [None] for nil. *)
Definition checkTransactionSubnetwork (v : transactionValidator) (tx : DomainTransaction)
    (localNodeSubnetworkID : option bytes) : res RuleError unit :=
  if negb (enableNonNativeSubnetworks v)
     && negb (bool_decide (SubnetworkID tx = SubnetworkIDNative))
     && negb (bool_decide (SubnetworkID tx = SubnetworkIDCoinbase))
  then Err ErrSubnetworksDisabled else
  let isLocalNodeFull := bool_decide (localNodeSubnetworkID = None) in
  let shouldTxBeFull :=
    IsBuiltIn (SubnetworkID tx) || bool_decide (localNodeSubnetworkID = Some (SubnetworkID tx)) in
  if negb isLocalNodeFull && negb shouldTxBeFull && (zlen (Payload tx) >? 0)
  then Err ErrInvalidPayload else Ok tt.

Definition ValidateTransactionInIsolation (v : transactionValidator) (tx : DomainTransaction)
    (povDAAScore : Z) : res RuleError unit :=
  let? _ := checkTransactionInputCount tx in
  let? _ := checkTransactionAmountRanges tx in
  let? _ := checkDuplicateTransactionInputs tx in
  let? _ := checkCoinbaseInIsolation v tx in
  let? _ := checkGasInBuiltInOrNativeTransactions tx in
  let? _ := checkSubnetworkRegistryTransaction tx in
  let? _ := checkNativeTransactionPayload tx in
  let? _ := checkTransactionSubnetwork v tx None in
  if Version tx >? MaxTransactionVersion then Err ErrTransactionVersionIsUnknown else Ok tt.

(** * Validation in context *)

Definition IsFinalizedTransaction (tx : DomainTransaction) (blockDAAScore blockTime : Z) : bool :=
  let lockTime := LockTime tx in
  if lockTime =? 0 then true else
  let blockTimeOrBlueScore :=
    if lockTime <? LockTimeThreshold then blockDAAScore else uint64 blockTime in
  if lockTime <? blockTimeOrBlueScore then true else
  forallb (fun input => Sequence input =? MaxTxInSequenceNum) (Inputs tx).

Definition ValidateTransactionInContextIgnoringUTXO (tx : DomainTransaction) (povBlockHash : bytes)
    (povBlockPastMedianTime : Z) : res RuleError unit :=
  let? povBlockDAAScore := DAAScore povBlockHash in
  if negb (IsFinalizedTransaction tx povBlockDAAScore povBlockPastMedianTime)
  then Err ErrUnfinalizedTx else Ok tt.

(** The end of the loops that collect missing outpoints. *)
Definition check_missing {A} (missingOutpoints : list DomainOutpoint) (a : A) : res RuleError A :=
  if zlen missingOutpoints >? 0 then Err (ErrMissingTxOut missingOutpoints) else Ok a.

Fixpoint coinbase_maturity_loop (v : transactionValidator) (povDAAScore : Z)
    (missingOutpoints : list DomainOutpoint) (inputs : list DomainTransactionInput)
  : res RuleError unit :=
  match inputs with
  | [] => check_missing missingOutpoints tt
  | input :: inputs' =>
      match in_UTXOEntry input with
      | None =>
          coinbase_maturity_loop v povDAAScore (missingOutpoints ++ [PreviousOutpoint input]) inputs'
      | Some utxoEntry =>
          if IsCoinbase utxoEntry &&
             (uint64 (BlockDAAScore utxoEntry + blockCoinbaseMaturity v) >? povDAAScore)
          then Err ErrImmatureSpend
          else coinbase_maturity_loop v povDAAScore missingOutpoints inputs'
      end
  end.

Definition checkTransactionCoinbaseMaturity (v : transactionValidator) (povBlockHash : bytes)
    (tx : DomainTransaction) : res RuleError unit :=
  let? povDAAScore := DAAScore povBlockHash in
  coinbase_maturity_loop v povDAAScore [] (Inputs tx).

Definition checkEntryAmounts (entry : UTXOEntry) (totalSompiInBefore : Z) : res RuleError Z :=
  let totalSompiInAfter := uint64 (totalSompiInBefore + Amount entry) in
  if (totalSompiInAfter <? totalSompiInBefore) || (totalSompiInAfter >? MaxSompi)
  then Err ErrBadTxOutValue else Ok totalSompiInAfter.

Fixpoint input_amounts_loop (totalSompiIn : Z) (missingOutpoints : list DomainOutpoint)
    (inputs : list DomainTransactionInput) : res RuleError Z :=
  match inputs with
  | [] => check_missing missingOutpoints totalSompiIn
  | input :: inputs' =>
      match in_UTXOEntry input with
      | None =>
          input_amounts_loop totalSompiIn (missingOutpoints ++ [PreviousOutpoint input]) inputs'
      | Some utxoEntry =>
          let? totalSompiIn := checkEntryAmounts utxoEntry totalSompiIn in
          input_amounts_loop totalSompiIn missingOutpoints inputs'
      end
  end.

Definition checkTransactionInputAmounts (tx : DomainTransaction) : res RuleError Z :=
  input_amounts_loop 0 [] (Inputs tx).

Definition checkTransactionOutputAmounts (tx : DomainTransaction) (totalSompiIn : Z)
  : res RuleError Z :=
  let totalSompiOut := sum_uint64 Value 0 (Outputs tx) in
  if totalSompiIn <? totalSompiOut then Err ErrSpendTooHigh else Ok totalSompiOut.

(** The field [BlockDAAScore] of [sequenceLock] is the model of the struct. *)
Fixpoint sequence_lock_loop (sequenceLock : Z) (missingOutpoints : list DomainOutpoint)
    (inputs : list DomainTransactionInput) : res RuleError Z :=
  match inputs with
  | [] => check_missing missingOutpoints sequenceLock
  | input :: inputs' =>
      match in_UTXOEntry input with
      | None =>
          sequence_lock_loop sequenceLock (missingOutpoints ++ [PreviousOutpoint input]) inputs'
      | Some utxoEntry =>
          let inputDAAScore := BlockDAAScore utxoEntry in
          let sequenceNum := Sequence input in
          let relativeLock := int64 (Z.land sequenceNum SequenceLockTimeMask) in
          if Z.land sequenceNum SequenceLockTimeDisabled =? SequenceLockTimeDisabled
          then sequence_lock_loop sequenceLock missingOutpoints inputs'
          else
          let blockDAAScore := int64 (int64 inputDAAScore + relativeLock - 1) in
          sequence_lock_loop (if blockDAAScore >? sequenceLock then blockDAAScore else sequenceLock)
            missingOutpoints inputs'
      end
  end.

Definition calcTxSequenceLockFromReferencedUTXOEntries (tx : DomainTransaction) : res RuleError Z :=
  if IsCoinBase tx then Ok (-1) else sequence_lock_loop (-1) [] (Inputs tx).

Definition sequenceLockActive (sequenceLock blockDAAScore : Z) : bool :=
  negb (sequenceLock >=? int64 blockDAAScore).

Definition checkTransactionSequenceLock (povBlockHash : bytes) (tx : DomainTransaction)
  : res RuleError unit :=
  let? sequenceLock := calcTxSequenceLockFromReferencedUTXOEntries tx in
  let? daaScore := DAAScore povBlockHash in
  if negb (sequenceLockActive sequenceLock daaScore) then Err ErrUnfinalizedTx else Ok tt.

(** A nil [UTXOEntry] is dereferenced. *)
Fixpoint sigop_counts_loop (inputs : list DomainTransactionInput) : res RuleError unit :=
  match inputs with
  | [] => Ok tt
  | input :: inputs' =>
      match in_UTXOEntry input with
      | None => Panic
      | Some utxoEntry =>
          let isP2SH := IsPayToScriptHash (utxo_ScriptPublicKey utxoEntry) in
          let sigOpCount :=
            GetPreciseSigOpCount (SignatureScript input) (utxo_ScriptPublicKey utxoEntry) isP2SH in
          if negb (sigOpCount =? SigOpCount input) then Err ErrWrongSigOpCount
          else sigop_counts_loop inputs'
      end
  end.

Definition validateTransactionSigOpCounts (tx : DomainTransaction) : res RuleError unit :=
  sigop_counts_loop (Inputs tx).

(** What an executed engine leaves behind the pointers it was given: the
    caches, and the hashes unless the script version is unknown, in which case
    the engine was not given the pointer. *)
Definition after_engine (spk : ScriptPublicKey) (vm : Engine)
    (s : transactionValidator * SighashReusedValues) : transactionValidator * SighashReusedValues :=
  let v := fst s in
  (set_caches (default (v_sigCache v) (Engine.sigCache vm))
     (default (v_sigCacheECDSA v) (Engine.sigCacheECDSA vm)) v,
   if spk_Version spk >? MaxScriptPublicKeyVersion then snd s else sigHashReusedValues vm).

Fixpoint scripts_loop (tx : DomainTransaction) (i : Z) (missingOutpoints : list DomainOutpoint)
    (inputs : list DomainTransactionInput)
  : M RuleError (transactionValidator * SighashReusedValues) unit :=
  match inputs with
  | [] => lift (check_missing missingOutpoints tt)
  | input :: inputs' =>
      match in_UTXOEntry input with
      | None => scripts_loop tx (i + 1) (missingOutpoints ++ [PreviousOutpoint input]) inputs'
      | Some utxoEntry =>
          let scriptPubKey := utxo_ScriptPublicKey utxoEntry in
          let* s := get in
          match NewEngine scriptPubKey tx i ScriptNoFlags (Some (v_sigCache (fst s)))
                  (Some (v_sigCacheECDSA (fst s))) (snd s) with
          | Panic => panic
          | Err _ => throw ErrScriptMalformed
          | Ok vm =>
              let '(result, vm') := Execute vm in
              modify (after_engine scriptPubKey vm') ;;
              match result with
              | Panic => panic
              | Err _ => throw ErrScriptValidation
              | Ok _ => scripts_loop tx (i + 1) missingOutpoints inputs'
              end
          end
      end
  end.

Definition validateTransactionScripts (tx : DomainTransaction)
  : M RuleError transactionValidator unit :=
  fun v => let '(r, s) := scripts_loop tx 0 [] (Inputs tx) (v, NoReusedValues) in (r, fst s).

(** The transaction is part of the state: its fee field is assigned. *)
Definition ValidateTransactionInContextAndPopulateFee (povBlockHash : bytes)
  : M RuleError (transactionValidator * DomainTransaction) unit :=
  let* (v, tx) := get in
  lift (checkTransactionCoinbaseMaturity v povBlockHash tx) ;;
  let* totalSompiIn := lift (checkTransactionInputAmounts tx) in
  let* totalSompiOut := lift (checkTransactionOutputAmounts tx totalSompiIn) in
  let tx := set_Fee (uint64 (totalSompiIn - totalSompiOut)) tx in
  put (v, tx) ;;
  lift (checkTransactionSequenceLock povBlockHash tx) ;;
  lift (validateTransactionSigOpCounts tx) ;;
  zoom fst (fun v s => (v, snd s)) (validateTransactionScripts tx).

Definition PopulateMass (v : transactionValidator) (transaction : DomainTransaction)
  : DomainTransaction :=
  if negb (Mass transaction =? 0) then transaction
  else set_Mass (CalculateTransactionMass (txMassCalculator v) transaction) transaction.

End validator.

(** * Validation in isolation accepts what it documents *)

(** The widths of the Go types, as far as the checks depend on them. *)
Record tx_typed (tx : DomainTransaction) : Prop := {
  ty_values : Forall (fun o => 0 <= Value o < 2 ^ 64) (Outputs tx);
  ty_gas : 0 <= Gas tx;
  ty_payload : zlen (Payload tx) < 2 ^ 64;
  ty_outputs : zlen (Outputs tx) < 2 ^ 64;
  ty_inputs : Forall (fun input => 0 <= Sequence input < 2 ^ 64 /\
    Forall is_byte (SignatureScript input)) (Inputs tx);
  ty_entries : Forall (fun input => forall e, in_UTXOEntry input = Some e ->
    0 <= Amount e < 2 ^ 64 /\ 0 <= BlockDAAScore e < 2 ^ 64 /\
    Forall is_byte (spk_Script (utxo_ScriptPublicKey e))) (Inputs tx)
}.

Record isolation_ok `{C : Crypto} (v : transactionValidator) (tx : DomainTransaction) : Prop := {
  iso_inputs : IsCoinBase tx = false -> Inputs tx <> [];
  iso_values : Forall (fun o => 0 < Value o) (Outputs tx);
  iso_total : sumZ Value (Outputs tx) <= MaxSompi;
  iso_distinct : NoDup (PreviousOutpoint <$> Inputs tx);
  iso_coinbase : IsCoinBase tx = true ->
    zlen (Payload tx) <= maxCoinbasePayloadLength v /\ Inputs tx = [] /\
    zlen (Outputs tx) <= ghostdagK v + 2 /\
    Forall (fun o => zlen (spk_Script (out_ScriptPublicKey o)) <=
                     coinbasePayloadScriptPublicKeyMaxLength v) (Outputs tx);
  iso_gas : IsBuiltInOrNative (SubnetworkID tx) = true -> Gas tx = 0;
  iso_registry : SubnetworkID tx = SubnetworkIDRegistry -> zlen (Payload tx) = 8;
  iso_native : SubnetworkID tx = SubnetworkIDNative -> Payload tx = [];
  iso_subnetwork : enableNonNativeSubnetworks v = true \/
    SubnetworkID tx = SubnetworkIDNative \/ SubnetworkID tx = SubnetworkIDCoinbase;
  iso_version : Version tx <= MaxTransactionVersion
}.

Lemma amount_ranges_loop_ok total outs :
  0 <= total <= MaxSompi -> Forall (fun o => 0 <= Value o < 2 ^ 64) outs ->
  amount_ranges_loop total outs = Ok tt <->
  Forall (fun o => 0 < Value o) outs /\ total + sumZ Value outs <= MaxSompi.
Proof.
  intros Ht Ho. assert (Hmax : MaxSompi = 2900000000000000000) by done.
  revert total Ht. induction Ho as [|o outs Hv Ho IH]; intros total Ht; simpl.
  { split; [split; [done|lia]|done]. }
  assert (Hs : Forall (fun o => 0 < Value o) outs -> 0 <= sumZ Value outs).
  { intros Hp. apply sumZ_nonneg. eapply Forall_impl; [exact Hp|]. simpl. lia. }
  rewrite Forall_cons. case_if; [split; [done|lia]|]. case_if; [split; [done|]|].
  { intros [[_ Hp] ?]. specialize (Hs Hp). lia. }
  rewrite uint64_id by lia. case_if; [lia|]. case_if; [split; [done|]|].
  { intros [[_ Hp] ?]. specialize (Hs Hp). lia. }
  rewrite IH by lia. intuition lia.
Qed.

Lemma duplicate_inputs_loop_ok seen ins :
  duplicate_inputs_loop seen ins = Ok tt <->
  NoDup (PreviousOutpoint <$> ins) /\ Forall (fun i => PreviousOutpoint i ∉ seen) ins.
Proof.
  revert seen. induction ins as [|i ins IH]; intros seen; simpl.
  { split; [intros _; split; constructor|done]. }
  rewrite Forall_cons, NoDup_cons. case_bool_decide; [split; [done|tauto]|].
  rewrite IH, !Forall_forall, list_elem_of_fmap. split.
  - intros [Hnd Hs]. split_and!; [|done|done|].
    + intros (j & Heq & Hj). apply (Hs j Hj). rewrite Heq. apply elem_of_union_l, elem_of_singleton. done.
    + intros j Hj ?. apply (Hs j Hj). by apply elem_of_union_r.
  - intros [[Hni Hnd] [Hi Hs]]. split; [done|]. intros j Hj Hin.
    apply elem_of_union in Hin as [Hin%elem_of_singleton|Hin]; [|by eapply Hs].
    apply Hni. by exists j.
Qed.

Lemma bind_res_unit {E B} (r : res E unit) (k : res E B) b :
  (let? _ := r in k) = Ok b <-> r = Ok tt /\ k = Ok b.
Proof. destruct r as [[]| |]; simpl; intuition congruence. Qed.

(** A guard that rejects: [if c then Err e else Ok tt]. *)
Lemma guard_ok {E} (c : bool) (e : E) (P : Prop) :
  (c = false <-> P) -> (if c then Err e else Ok tt) = Ok tt <-> P.
Proof. intros <-. destruct c; split; congruence. Qed.

Lemma zlen_pos_iff {A} (l : list A) : (zlen l >? 0) = false <-> l = [].
Proof. destruct l; [done|]. split; [|done]. rewrite zlen_cons. zlen_facts. lia. Qed.

Section isolation.
Context `{C : Crypto}.

Lemma coinbase_outputs_loop_ok v outs :
  coinbase_outputs_loop v outs = Ok tt <->
  Forall (fun o => zlen (spk_Script (out_ScriptPublicKey o)) <=
                   coinbasePayloadScriptPublicKeyMaxLength v) outs.
Proof.
  induction outs as [|o outs IH]; simpl; [split; [constructor|done]|]. rewrite Forall_cons.
  case_if; [split; [done|lia]|]. rewrite IH. intuition lia.
Qed.

Lemma checkCoinbaseInIsolation_ok v tx :
  tx_typed tx -> 0 <= ghostdagK v < 2 ^ 8 ->
  checkCoinbaseInIsolation v tx = Ok tt <->
  (IsCoinBase tx = true ->
    zlen (Payload tx) <= maxCoinbasePayloadLength v /\ Inputs tx = [] /\
    zlen (Outputs tx) <= ghostdagK v + 2 /\
    Forall (fun o => zlen (spk_Script (out_ScriptPublicKey o)) <=
                     coinbasePayloadScriptPublicKeyMaxLength v) (Outputs tx)).
Proof.
  intros [? ? ? ? _ _] Hk. unfold checkCoinbaseInIsolation.
  destruct (IsCoinBase tx); cbn [negb]; [|split; done]. zlen_facts.
  rewrite !uint64_id by lia. case_if; [split; [done|intros Hx; destruct (Hx eq_refl); zlia]|].
  destruct (Inputs tx) as [|x l] eqn:Hi.
  2:{ rewrite zlen_cons. zlen_facts. replace (_ =? 0) with false by lia. cbn [negb].
      split; [done|]. intros Hx. destruct (Hx eq_refl) as (_ & ? & _). done. }
  change (negb (zlen _ =? 0)) with false at 1. cbv iota.
  case_if; [split; [done|intros Hx; destruct (Hx eq_refl) as (_ & _ & ? & _); lia]|].
  rewrite coinbase_outputs_loop_ok. split; [intros; split_and!; done || lia|].
  intros Hx. by destruct (Hx eq_refl) as (_ & _ & _ & ?).
Qed.

Lemma checkTransactionInputCount_ok tx :
  checkTransactionInputCount tx = Ok tt <-> (IsCoinBase tx = false -> Inputs tx <> []).
Proof.
  apply guard_ok. destruct (IsCoinBase tx), (Inputs tx) as [|x l]; cbn; try (split; done).
  split; [done|]. intros Hx. by destruct (Hx eq_refl).
Qed.

Lemma checkGas_ok tx :
  0 <= Gas tx ->
  checkGasInBuiltInOrNativeTransactions tx = Ok tt <->
  (IsBuiltInOrNative (SubnetworkID tx) = true -> Gas tx = 0).
Proof. intros Hg. apply guard_ok. destruct (IsBuiltInOrNative (SubnetworkID tx)); cbn [andb]; [lia|done]. Qed.

Lemma checkSubnetworkRegistryTransaction_ok tx :
  checkSubnetworkRegistryTransaction tx = Ok tt <->
  (SubnetworkID tx = SubnetworkIDRegistry -> zlen (Payload tx) = 8).
Proof.
  unfold checkSubnetworkRegistryTransaction. case_bool_decide; cbn [negb]; [|tauto].
  apply guard_ok. rewrite negb_false_iff, Z.eqb_eq. tauto.
Qed.

Lemma checkNativeTransactionPayload_ok tx :
  checkNativeTransactionPayload tx = Ok tt <->
  (SubnetworkID tx = SubnetworkIDNative -> Payload tx = []).
Proof. apply guard_ok. case_bool_decide; cbn [andb]; [rewrite zlen_pos_iff; tauto|tauto]. Qed.

Lemma checkTransactionSubnetwork_ok v tx :
  checkTransactionSubnetwork v tx None = Ok tt <->
  enableNonNativeSubnetworks v = true \/
  SubnetworkID tx = SubnetworkIDNative \/ SubnetworkID tx = SubnetworkIDCoinbase.
Proof.
  unfold checkTransactionSubnetwork. rewrite (bool_decide_true (None = None)) by done. cbn [negb andb].
  destruct (enableNonNativeSubnetworks v); [tauto|]. repeat case_bool_decide; cbn; intuition congruence.
Qed.

Lemma ValidateTransactionInIsolation_ok v tx povDAAScore :
  tx_typed tx -> 0 <= ghostdagK v < 2 ^ 8 ->
  ValidateTransactionInIsolation v tx povDAAScore = Ok tt <-> isolation_ok v tx.
Proof.
  intros Hty Hk. unfold ValidateTransactionInIsolation. rewrite !bind_res_unit.
  unfold checkTransactionAmountRanges, checkDuplicateTransactionInputs.
  rewrite checkTransactionInputCount_ok, checkCoinbaseInIsolation_ok, checkGas_ok,
    checkSubnetworkRegistryTransaction_ok, checkNativeTransactionPayload_ok,
    checkTransactionSubnetwork_ok, amount_ranges_loop_ok, duplicate_inputs_loop_ok
    by first [apply Hty|done].
  rewrite (guard_ok _ _ (Version tx <= MaxTransactionVersion)) by lia. rewrite Z.add_0_l.
  split.
  - intros (? & [? ?] & [? ?] & ? & ? & ? & ? & ? & ?). by constructor.
  - intros []. split_and!; try done. apply Forall_true. set_solver.
Qed.

Lemma bind_res_no_panic {E A B} (r : res E A) (k : A -> res E B) :
  r <> Panic -> (forall a, k a <> Panic) -> (let? a := r in k a) <> Panic.
Proof. destruct r; simpl; auto; congruence. Qed.

Lemma ValidateTransactionInIsolation_no_panic v tx povDAAScore :
  ValidateTransactionInIsolation v tx povDAAScore <> Panic.
Proof.
  assert (Hr : forall l t, amount_ranges_loop t l <> Panic).
  { induction l as [|o l IH]; intros t; cbn; [done|]. repeat case_if; done. }
  assert (Hd : forall l t, duplicate_inputs_loop t l <> Panic).
  { induction l as [|o l IH]; intros t; cbn; [done|]. case_if; done. }
  assert (Hc : forall l, coinbase_outputs_loop v l <> Panic).
  { induction l as [|o l IH]; cbn; [done|]. by case_if. }
  unfold ValidateTransactionInIsolation.
  repeat (apply bind_res_no_panic; [|intros _]); [| | | | | | | |by case_if];
    unfold checkTransactionInputCount, checkTransactionAmountRanges, checkDuplicateTransactionInputs,
      checkCoinbaseInIsolation, checkGasInBuiltInOrNativeTransactions,
      checkSubnetworkRegistryTransaction, checkNativeTransactionPayload, checkTransactionSubnetwork;
    try done; repeat case_if; done.
Qed.

(** C24: Validation in isolation decides the documented conditions: an input
    unless it is a coinbase, positive outputs that add up to at most [MaxSompi],
    distinct inputs, the shape of a coinbase, no gas on the built-in
    subnetworks, the payload rules, the subnetwork rule and a known version. *)
Theorem isolation_validation_exact v tx povDAAScore :
  tx_typed tx -> 0 <= ghostdagK v < 2 ^ 8 ->
  ValidateTransactionInIsolation v tx povDAAScore <> Panic /\
  (ValidateTransactionInIsolation v tx povDAAScore = Ok tt <-> isolation_ok v tx).
Proof.
  intros Hty Hk. split; [apply ValidateTransactionInIsolation_no_panic|].
  by apply ValidateTransactionInIsolation_ok.
Qed.

End isolation.

(** * Validation in context accepts what it documents *)

(** The outpoints whose entries are not known. *)
Definition missing_outpoints (ins : list DomainTransactionInput) : list DomainOutpoint :=
  omap (fun i => match in_UTXOEntry i with None => Some (PreviousOutpoint i) | Some _ => None end) ins.

Definition has_entry (i : DomainTransactionInput) : Prop := is_Some (in_UTXOEntry i).

Lemma missing_outpoints_nil ins : missing_outpoints ins = [] <-> Forall has_entry ins.
Proof.
  induction ins as [|i ins IH]; [done|]. unfold missing_outpoints, has_entry in *. simpl.
  rewrite Forall_cons. destruct (in_UTXOEntry i) as [e|].
  - rewrite IH. split; [|tauto]. intros; split; [by exists e|done].
  - split; [done|]. intros [[??] _]. done.
Qed.

Lemma check_missing_ok {A} m (a b : A) : check_missing m a = Ok b <-> m = [] /\ b = a.
Proof. unfold check_missing. destruct m; cbn; split; [intros [= ->]; done|by intros [_ ->]|done|by intros []]. Qed.

Section context.
Context `{C : Crypto} `{!CryptoLaws C} `{IT : MapIteration}.

(** A coinbase output spent too early. *)
Definition immature (v : transactionValidator) (daa : Z) (i : DomainTransactionInput) : bool :=
  match in_UTXOEntry i with
  | Some e => IsCoinbase e && (uint64 (BlockDAAScore e + blockCoinbaseMaturity v) >? daa)
  | None => false
  end.

Lemma coinbase_maturity_loop_eq v daa missing ins :
  coinbase_maturity_loop v daa missing ins =
  if existsb (immature v daa) ins then Err ErrImmatureSpend
  else check_missing (missing ++ missing_outpoints ins) tt.
Proof.
  revert missing. induction ins as [|i ins IH]; intros missing; cbn [coinbase_maturity_loop existsb].
  { by rewrite app_nil_r. }
  unfold immature at 1, missing_outpoints. simpl. destruct (in_UTXOEntry i) as [e|]; simpl.
  - rewrite IH. by destruct (IsCoinbase e && _).
  - rewrite IH. by rewrite <- app_assoc.
Qed.

Lemma input_amounts_loop_ok total missing ins t :
  0 <= total <= MaxSompi ->
  Forall (fun i => forall e, in_UTXOEntry i = Some e -> 0 <= Amount e < 2 ^ 64) ins ->
  input_amounts_loop total missing ins = Ok t <->
  missing = [] /\ Forall has_entry ins /\ t = total + sumZ amount_of ins /\ t <= MaxSompi.
Proof.
  assert (Hmax : MaxSompi = 2900000000000000000) by done.
  intros Ht Hi. revert total missing Ht. induction Hi as [|i ins Ha Hi IH]; intros total missing Ht.
  { cbn [input_amounts_loop]. rewrite check_missing_ok. change (sumZ amount_of []) with 0.
    rewrite Z.add_0_r. split; [intros [-> ->]; split_and!; done || lia|]. by intros (-> & _ & -> & _). }
  cbn [input_amounts_loop]. unfold sumZ in *. cbn [foldr]. unfold amount_of at 1. rewrite Forall_cons.
  unfold has_entry at 1. destruct (in_UTXOEntry i) as [e|] eqn:He.
  - specialize (Ha e eq_refl). unfold checkEntryAmounts.
    assert (Hs : Forall (fun i => 0 <= amount_of i) ins).
    { eapply Forall_impl; [exact Hi|]. intros j Hj. unfold amount_of.
      destruct (in_UTXOEntry j) as [u|] eqn:Hu; [|done]. apply (Hj u Hu). }
    apply sumZ_nonneg in Hs. unfold sumZ in Hs.
    destruct (Z.leb_spec (total + Amount e) MaxSompi) as [Hle|Hgt].
    + rewrite uint64_id by lia. replace (_ || _) with false by lia. cbn [bind_res].
      rewrite IH by lia. rewrite Z.add_assoc. split; [|tauto].
      intros (? & ? & ? & ?). split_and!; done || by eexists.
    + assert (Hov : (uint64 (total + Amount e) <? total) || (uint64 (total + Amount e) >? MaxSompi) = true).
      { destruct (Z.ltb_spec (total + Amount e) (2 ^ 64)); [rewrite uint64_id by lia; lia|].
        replace (uint64 _) with (total + Amount e - 2 ^ 64); [lia|].
        unfold uint64. apply Z.mod_unique with 1; lia. }
      rewrite Hov. cbn [bind_res]. split; [done|]. intros (_ & _ & -> & ?). lia.
  - rewrite IH by lia. split; [intros (Hx & _); by apply app_nil in Hx as [_ ?]|].
    intros (_ & [[??] _] & _). done.
Qed.

(** ** Sequence locks *)

(** Bit 63 of a 64-bit sequence number disables the lock. *)
Lemma sequence_disabled a :
  0 <= a < 2 ^ 64 ->
  (Z.land a SequenceLockTimeDisabled =? SequenceLockTimeDisabled) = (2 ^ 63 <=? a).
Proof.
  intros Ha. unfold SequenceLockTimeDisabled. rewrite Z.shiftl_1_l.
  assert (Hl : Z.land a (2 ^ 63) = if 2 ^ 63 <=? a then 2 ^ 63 else 0); [|rewrite Hl; by case_if].
  apply Z.bits_inj'. intros n Hn. rewrite Z.land_spec, Z.pow2_bits_eqb by lia.
  destruct (Z.eqb_spec 63 n) as [<-|Hne]; rewrite ?andb_false_r, ?andb_true_r.
  - destruct (Z.leb_spec (2 ^ 63) a).
    + rewrite Z.pow2_bits_true by lia. apply Z.testbit_true; [lia|].
      by rewrite <- (Z.div_unique a (2 ^ 63) 1 (a - 2 ^ 63)) by lia.
    + rewrite Z.bits_0. apply Z.testbit_false; [lia|]. by rewrite Z.div_small by lia.
  - case_if; [|by rewrite Z.bits_0]. by rewrite Z.pow2_bits_false.
Qed.

(** The lock of an input is met when the sequence disables it, or the DAA score
    is past the one of the entry by at least the low 32 bits of the sequence. *)
Definition lock_met (daa : Z) (i : DomainTransactionInput) : Prop :=
  forall e, in_UTXOEntry i = Some e ->
    2 ^ 63 <= Sequence i \/ BlockDAAScore e + Sequence i mod 2 ^ 32 - 1 < daa.

(** DAA scores far enough from 2^63 for [int64] arithmetic. *)
Definition score_fits (i : DomainTransactionInput) : Prop :=
  forall e, in_UTXOEntry i = Some e -> 0 <= BlockDAAScore e < 2 ^ 62.

Lemma sequence_lock_loop_ok lock ins daa :
  Forall has_entry ins -> Forall score_fits ins ->
  Forall (fun i => 0 <= Sequence i < 2 ^ 64) ins ->
  exists t, sequence_lock_loop lock [] ins = Ok t /\
    (t < daa <-> lock < daa /\ Forall (lock_met daa) ins).
Proof.
  intros Hi Hf Hs. revert lock. induction Hi as [|i ins [e He] Hi IH]; intros lock.
  { exists lock. split; [done|]. split; [by intros|tauto]. }
  apply Forall_cons in Hf as [Hf1 Hf], Hs as [Hs1 Hs]. specialize (IH Hf Hs).
  cbn [sequence_lock_loop]. rewrite He, sequence_disabled by done.
  assert (Hmet : lock_met daa i <->
    2 ^ 63 <= Sequence i \/ BlockDAAScore e + Sequence i mod 2 ^ 32 - 1 < daa).
  { split; [intros Hm; by apply Hm|]. intros Hm e' He'. rewrite He in He'. by simplify_eq. }
  setoid_rewrite Forall_cons. setoid_rewrite Hmet. clear Hmet. specialize (Hf1 e He).
  destruct (Z.leb_spec (2 ^ 63) (Sequence i)).
  { destruct (IH lock) as (t & Ht & Hiff). exists t. split; [done|]. rewrite Hiff. tauto. }
  change SequenceLockTimeMask with (Z.ones 32). rewrite Z.land_ones by lia.
  pose proof (Z.mod_pos_bound (Sequence i) (2 ^ 32)) as Hm. specialize (Hm eq_refl).
  rewrite (int64_id (_ mod _)), (int64_id (BlockDAAScore e)), int64_id by lia.
  match goal with |- context [sequence_lock_loop ?l [] ins] => destruct (IH l) as (t & Ht & Hiff) end.
  exists t. split; [done|]. rewrite Hiff. case_if; intuition lia.
Qed.

(** ** Signature operations *)

(** The declared count is the counted one. *)
Definition sigops_declared (i : DomainTransactionInput) : Prop :=
  forall e, in_UTXOEntry i = Some e ->
    GetPreciseSigOpCount (SignatureScript i) (utxo_ScriptPublicKey e)
      (IsPayToScriptHash (utxo_ScriptPublicKey e)) = SigOpCount i.

Lemma sigop_counts_loop_eq ins :
  Forall has_entry ins ->
  sigop_counts_loop ins <> Panic /\ (sigop_counts_loop ins = Ok tt <-> Forall sigops_declared ins).
Proof.
  intros Hi. induction Hi as [|i ins [e He] Hi [IH1 IH2]]; [split; [done|split; [constructor|done]]|].
  cbn [sigop_counts_loop]. rewrite He, Forall_cons.
  destruct (Z.eqb_spec (GetPreciseSigOpCount (SignatureScript i) (utxo_ScriptPublicKey e)
    (IsPayToScriptHash (utxo_ScriptPublicKey e))) (SigOpCount i)) as [Heq|Hne]; cbn [negb].
  - split; [done|]. rewrite IH2. split; [|tauto]. intros; split; [|done].
    intros e' He'. rewrite He in He'. by simplify_eq.
  - split; [done|]. split; [done|]. intros [Hd _]. by destruct Hne, (Hd e He).
Qed.

(** ** Scripts *)

(** The caches of a validator hold verified signatures. *)
Definition validator_ok (v : transactionValidator) : Prop :=
  cache_inv (v_sigCache v) /\ cache_inv (v_sigCacheECDSA v).

(** Every input, counted from [i], runs to success by the reference semantics. *)
Definition scripts_accept (tx : DomainTransaction) (i : Z) (ins : list DomainTransactionInput) : Prop :=
  forall (j : nat) input e, ins !! j = Some input -> in_UTXOEntry input = Some e ->
    reference (utxo_ScriptPublicKey e) tx (i + Z.of_nat j) = Ok tt.

Definition script_bytes (i : DomainTransactionInput) : Prop :=
  Forall is_byte (SignatureScript i) /\
  forall e, in_UTXOEntry i = Some e -> Forall is_byte (spk_Script (utxo_ScriptPublicKey e)).

Lemma NewEngine_caches spk tx i flags c1 c2 r vm :
  valid_args spk tx i c1 c2 r -> NewEngine spk tx i flags c1 c2 r = Ok vm ->
  caches_ok vm /\ (spk_Version spk <= MaxScriptPublicKeyVersion -> Engine.tx vm = tx).
Proof.
  intros [Hb Hin Hc1 Hc2 Hr] Hnew. unfold NewEngine, index_res in Hnew.
  destruct ((i <? 0) || (i >=? zlen (Inputs tx))); [done|].
  destruct (lookupZ (Inputs tx) i) as [txIn|]; [|done]. cbn [bind_res] in Hnew.
  case_match; [done|]. destruct (spk_Version spk >? MaxScriptPublicKeyVersion) eqn:Hv.
  { injection Hnew as <-. split; [|intros; lia]. split_and!; [done|done|]. apply reuse_ok_empty. }
  destruct (parseScriptAndVerifySize (SignatureScript txIn)) as [s0| |]; [|done..]. cbn [bind_res] in Hnew.
  destruct (isPushOnly s0); [|done]. cbn [negb] in Hnew.
  destruct (parseScriptAndVerifySize (spk_Script spk)) as [s1| |]; [|done..]. cbn [bind_res] in Hnew.
  destruct (isScriptHash s1); cbn [bind_res] in Hnew; injection Hnew as <-; by split_and!.
Qed.

(** One input: the verdict of the reference semantics, and the state that the
    next input is verified in. *)
Lemma run_input_step spk tx i v r :
  valid_args spk tx i (Some (v_sigCache v)) (Some (v_sigCacheECDSA v)) r ->
  match NewEngine spk tx i ScriptNoFlags (Some (v_sigCache v)) (Some (v_sigCacheECDSA v)) r with
  | Ok vm =>
      fst (Execute vm) = reference spk tx i /\ fst (Execute vm) <> Panic /\
      let s := after_engine spk (snd (Execute vm)) (v, r) in
      validator_ok (fst s) /\ reuse_ok tx (snd s) /\
      fst s = set_caches (v_sigCache (fst s)) (v_sigCacheECDSA (fst s)) v
  | Err e => reference spk tx i = Err e
  | Panic => False
  end.
Proof.
  intros Hva. pose proof (run_input_reference spk tx i ScriptNoFlags _ _ _ Hva) as Href.
  pose proof (Execute_outcome spk tx i ScriptNoFlags _ _ _ Hva) as Hout. unfold run_input in Href.
  destruct (NewEngine _ _ _ _ _ _ _) as [vm|e|] eqn:Hnew; cbn [bind_res] in Href; [|done..].
  split; [done|]. split; [destruct Hout as [->|(e & -> & _)]; done|].
  destruct (NewEngine_caches _ _ _ _ _ _ _ _ Hva Hnew) as [Hok Htx].
  destruct (keeps_Execute vm Hok) as [(Hc1 & Hc2 & Hr) Htx'].
  destruct (Execute vm) as [x vm']. cbn [snd] in *. unfold after_engine. cbn [fst snd].
  split; [|split; [|done]].
  - split; cbn [v_sigCache v_sigCacheECDSA set_caches].
    + destruct (Engine.sigCache vm') as [c|]; [by apply Hc1|]. by apply (va_cache _ _ _ _ _ _ Hva).
    + destruct (Engine.sigCacheECDSA vm') as [c|]; [by apply Hc2|]. by apply (va_cacheECDSA _ _ _ _ _ _ Hva).
  - destruct (Z.gtb_spec (spk_Version spk) MaxScriptPublicKeyVersion); [apply Hva|].
    by rewrite Htx', Htx in Hr.
Qed.
Lemma scripts_accept_cons tx i input ins e :
  in_UTXOEntry input = Some e ->
  scripts_accept tx i (input :: ins) <->
  reference (utxo_ScriptPublicKey e) tx i = Ok tt /\ scripts_accept tx (i + 1) ins.
Proof.
  intros He. split.
  - intros Ha. split.
    + rewrite <- (Ha 0%nat input e); [|done|done]. f_equal. lia.
    + intros j x e' Hj He'. rewrite <- (Ha (S j) x e'); [|done|done]. f_equal. lia.
  - intros [H0 Ha] [|j] x e' Hj He'; simpl in Hj.
    + simplify_eq. by rewrite Z.add_0_r.
    + rewrite <- (Ha j x e'); [|done|done]. f_equal. lia.
Qed.

Lemma scripts_loop_spec tx pre ins v r :
  Inputs tx = pre ++ ins -> Forall has_entry (Inputs tx) -> Forall script_bytes (Inputs tx) ->
  validator_ok v -> reuse_ok tx r ->
  exists x v' r', scripts_loop tx (zlen pre) [] ins (v, r) = (x, (v', r')) /\ x <> Panic /\
    (x = Ok tt <-> scripts_accept tx (zlen pre) ins) /\ validator_ok v'.
Proof.
  intros Heq He Hb. revert pre v r Heq. induction ins as [|input ins IH]; intros pre v r Heq Hv Hr.
  { exists (Ok tt), v, r. by refine (conj eq_refl (conj _ (conj _ Hv))). }
  assert (Hin : input ∈ Inputs tx) by (rewrite Heq; apply elem_of_app; right; left).
  rewrite Forall_forall in He, Hb. destruct (He _ Hin) as [e Hen]. destruct (Hb _ Hin) as [_ Hbe].
  assert (Hva : valid_args (utxo_ScriptPublicKey e) tx (zlen pre) (Some (v_sigCache v))
                  (Some (v_sigCacheECDSA v)) r).
  { split; [by apply Hbe| |intros ? [= <-]; apply Hv|intros ? [= <-]; apply Hv|done].
    intros txIn Htx%lookupZ_elem_of. split; [apply (Hb _ Htx)|by apply He]. }
  rewrite <- Forall_forall in He, Hb.
  pose proof (run_input_step _ _ _ v r Hva) as Hstep. cbn [scripts_loop]. rewrite Hen.
  erewrite bind_ok by reflexivity. cbn [fst snd]. setoid_rewrite (scripts_accept_cons _ _ _ _ _ Hen).
  destruct (NewEngine _ _ _ _ _ _ _) as [vm|err|]; [| |done].
  2:{ exists (Err ErrScriptMalformed), v, r. refine (conj eq_refl (conj _ (conj _ Hv))); [done|]. rewrite Hstep. by split; [|intros []]. }
  destruct Hstep as (Href & Hnp & Hv' & Hr' & _). destruct (Execute vm) as [x vm'] eqn:Hex.
  cbn [fst snd] in *. rewrite <- Href. erewrite bind_ok by reflexivity.
  destruct (after_engine _ vm' (v, r)) as [v' r'] eqn:Haft. cbn [fst snd] in *.
  destruct x as [[]|err|]; [| |done].
  - replace (zlen pre + 1) with (zlen (pre ++ [input])) by zlia.
    destruct (IH (pre ++ [input]) v' r') as (x & v'' & r'' & Hx & Hp & Hiff & Hok);
      [by rewrite <- app_assoc|done|done|].
    exists x, v'', r''. split_and!; [done|done|tauto|apply Hok..].
  - exists (Err ErrScriptValidation), v', r'. refine (conj eq_refl (conj _ (conj _ Hv'))); [done|]. by split; [|intros []].
Qed.

(** An output that no block has accepted yet has the score [UnacceptedDAAScore],
    which the conversion to [int64] turns into -1: the relative lock of an input
    that spends it is counted from before the first block, and is met by almost
    any block. *)
Definition UnacceptedDAAScore : Z := 2 ^ 64 - 1.

Lemma unaccepted_lock_met tx lock input e :
  Inputs tx = [input] -> IsCoinBase tx = false -> in_UTXOEntry input = Some e ->
  BlockDAAScore e = UnacceptedDAAScore -> Sequence input = lock -> 0 <= lock < 2 ^ 32 ->
  calcTxSequenceLockFromReferencedUTXOEntries tx = Ok (Z.max (-1) (lock - 2)).
Proof.
  intros Hi Hc He Hs Hq Hl. unfold calcTxSequenceLockFromReferencedUTXOEntries.
  rewrite Hc, Hi. cbn [sequence_lock_loop]. rewrite He, Hs, Hq, sequence_disabled by lia.
  case_if; [lia|]. change SequenceLockTimeMask with (Z.ones 32). rewrite Z.land_ones by lia.
  rewrite (Z.mod_small lock) by lia. change (int64 UnacceptedDAAScore) with (-1).
  rewrite (int64_id lock), int64_id by lia. cbn. f_equal. case_if; lia.
Qed.

(** ** The whole check *)

Record context_ok (v : transactionValidator) (daa : Z) (tx : DomainTransaction) : Prop := {
  ctx_entries : Forall has_entry (Inputs tx);
  ctx_mature : Forall (fun i => forall e, in_UTXOEntry i = Some e -> IsCoinbase e = true ->
    BlockDAAScore e + blockCoinbaseMaturity v <= daa) (Inputs tx);
  ctx_in : sumZ amount_of (Inputs tx) <= MaxSompi;
  ctx_out : sumZ Value (Outputs tx) <= sumZ amount_of (Inputs tx);
  ctx_locks : Forall (lock_met daa) (Inputs tx);
  ctx_sigops : Forall sigops_declared (Inputs tx);
  ctx_scripts : scripts_accept
    (set_Fee (sumZ amount_of (Inputs tx) - sumZ Value (Outputs tx)) tx) 0 (Inputs tx)
}.

Lemma coinbase_maturity_loop_ok v daa ins :
  0 <= blockCoinbaseMaturity v < 2 ^ 63 -> Forall score_fits ins ->
  coinbase_maturity_loop v daa [] ins = Ok tt <->
  Forall has_entry ins /\
  Forall (fun i => forall e, in_UTXOEntry i = Some e -> IsCoinbase e = true ->
    BlockDAAScore e + blockCoinbaseMaturity v <= daa) ins.
Proof.
  intros Hm Hf. rewrite coinbase_maturity_loop_eq, app_nil_l, <- missing_outpoints_nil.
  assert (Hi : existsb (immature v daa) ins = false <->
    Forall (fun i => forall e, in_UTXOEntry i = Some e -> IsCoinbase e = true ->
      BlockDAAScore e + blockCoinbaseMaturity v <= daa) ins).
  { induction Hf as [|i ins Hi Hf IH]; [done|]. cbn [existsb]. rewrite Forall_cons, orb_false_iff, IH.
    apply and_iff_compat_r. unfold immature. destruct (in_UTXOEntry i) as [e|] eqn:He; [|done].
    specialize (Hi e He). rewrite uint64_id by lia. destruct (IsCoinbase e) eqn:Hcb; cbn [andb].
    - split; [intros ? e' [= <-] _; lia|]. intros Hall. specialize (Hall e eq_refl Hcb). lia.
    - split; [|done]. intros _ e' [= <-]. congruence. }
  rewrite <- Hi. destruct (existsb (immature v daa) ins); [split; [done|by intros []]|].
  rewrite check_missing_ok. tauto.
Qed.

Lemma input_loops_no_panic v daa lock total missing ins :
  coinbase_maturity_loop v daa missing ins <> Panic /\
  input_amounts_loop total missing ins <> Panic /\
  sequence_lock_loop lock missing ins <> Panic.
Proof.
  revert lock total missing. induction ins as [|i ins IH]; intros lock total missing.
  { cbn. unfold check_missing. by case_if. }
  cbn [coinbase_maturity_loop input_amounts_loop sequence_lock_loop].
  destruct (in_UTXOEntry i) as [e|]; [|apply IH]. split_and!.
  - case_if; [done|apply IH; done].
  - unfold checkEntryAmounts. case_if; [done|]. cbn [bind_res]. apply IH; done.
  - case_if; apply IH; done.
Qed.

Context `{ST : DAABlocksStore}.

Lemma checkTransactionSequenceLock_ok h daa tx :
  DAAScore h = Ok daa -> 0 <= daa < 2 ^ 63 ->
  (IsCoinBase tx = true -> Inputs tx = []) -> Forall has_entry (Inputs tx) ->
  Forall score_fits (Inputs tx) -> Forall (fun i => 0 <= Sequence i < 2 ^ 64) (Inputs tx) ->
  checkTransactionSequenceLock h tx <> Panic /\
  (checkTransactionSequenceLock h tx = Ok tt <-> Forall (lock_met daa) (Inputs tx)).
Proof.
  intros Hh Hd Hcb He Hf Hs. unfold checkTransactionSequenceLock, calcTxSequenceLockFromReferencedUTXOEntries.
  destruct (sequence_lock_loop_ok (-1) (Inputs tx) daa He Hf Hs) as (t & Ht & Hiff).
  assert (Hl : (if IsCoinBase tx then Ok (-1) else sequence_lock_loop (-1) [] (Inputs tx)) = Ok t).
  { destruct (IsCoinBase tx); [|done]. rewrite (Hcb eq_refl) in Ht. done. }
  rewrite Hl, Hh. cbn [bind_res]. unfold sequenceLockActive. rewrite negb_involutive, int64_id by lia.
  split; [by case_if|]. apply guard_ok. rewrite Z.geb_leb, Z.leb_gt, Hiff. split; [tauto|]. intros; split; [lia|done].
Qed.

(** Isolation makes the [uint64] total of the outputs exact. *)
Lemma checkTransactionOutputAmounts_eq v tx total :
  isolation_ok v tx ->
  checkTransactionOutputAmounts tx total =
  if total <? sumZ Value (Outputs tx) then Err ErrSpendTooHigh else Ok (sumZ Value (Outputs tx)).
Proof.
  intros [? Hv Ht _ _ _ _ _ _ _]. unfold checkTransactionOutputAmounts.
  assert (Hmax : MaxSompi = 2900000000000000000) by done.
  rewrite sum_uint64_exact; [done|done| |lia]. eapply Forall_impl; [exact Hv|]. simpl. lia.
Qed.

(** The amounts, before locks, counts and scripts are looked at. *)
Lemma context_amounts h v tx :
  tx_typed tx -> isolation_ok v tx ->
  let total_in := sumZ amount_of (Inputs tx) in
  let total_out := sumZ Value (Outputs tx) in
  let tx' := set_Fee (total_in - total_out) tx in
  let result := ValidateTransactionInContextAndPopulateFee h (v, tx) in
  (exists e, result = (Err e, (v, tx)) /\
     ~ (checkTransactionCoinbaseMaturity v h tx = Ok tt /\ Forall has_entry (Inputs tx) /\
        total_in <= MaxSompi /\ total_out <= total_in)) \/
  (result = (Panic, (v, tx)) /\ checkTransactionCoinbaseMaturity v h tx = Panic) \/
  (checkTransactionCoinbaseMaturity v h tx = Ok tt /\ Forall has_entry (Inputs tx) /\
   0 <= total_out <= total_in /\ total_in <= MaxSompi /\
   result = (lift (checkTransactionSequenceLock h tx') ;;
             lift (validateTransactionSigOpCounts tx') ;;
             zoom fst (fun v s => (v, snd s)) (validateTransactionScripts tx')) (v, tx')).
Proof.
  intros Hty Hiso total_in total_out tx' result. unfold result, ValidateTransactionInContextAndPopulateFee.
  erewrite bind_ok by reflexivity. unfold bind at 1, lift at 1.
  destruct (checkTransactionCoinbaseMaturity v h tx) as [[]|e|].
  2:{ left. exists e. split; [done|]. by intros []. }
  2:{ by right; left. }
  assert (Hmax : MaxSompi = 2900000000000000000) by done.
  assert (Ham : forall t, checkTransactionInputAmounts tx = Ok t <->
    Forall has_entry (Inputs tx) /\ t = total_in /\ t <= MaxSompi).
  { intros t. unfold checkTransactionInputAmounts. rewrite input_amounts_loop_ok; [|lia|].
    - rewrite Z.add_0_l. tauto.
    - eapply Forall_impl; [apply (ty_entries _ Hty)|]. intros i Hi e He. by apply Hi. }
  destruct (input_loops_no_panic v 0 0 0 [] (Inputs tx)) as (_ & Hnp & _).
  unfold bind at 1, lift at 1. destruct (checkTransactionInputAmounts tx) as [t|e|] eqn:Ht; [| |done].
  2:{ left. exists e. split; [done|]. intros (_ & He & Hle & _).
      specialize (proj2 (Ham total_in) (conj He (conj eq_refl Hle))). done. }
  destruct (proj1 (Ham t) eq_refl) as (He & -> & Hle).
  unfold bind at 1, lift at 1. rewrite (checkTransactionOutputAmounts_eq v) by done. fold total_out.
  destruct (Z.ltb_spec total_in total_out) as [Hlt|Hge].
  { left. exists ErrSpendTooHigh. split; [done|]. intros (_ & _ & _ & ?). lia. }
  assert (0 <= total_out).
  { apply sumZ_nonneg. eapply Forall_impl; [apply (iso_values _ _ Hiso)|]. simpl. lia. }
  right; right. split_and!; try done || lia. erewrite bind_ok by reflexivity. erewrite bind_ok by reflexivity.
  assert (Hout : checkTransactionOutputAmounts tx total_in = Ok total_out).
  { rewrite (checkTransactionOutputAmounts_eq v) by done. fold total_out. case_if; [lia|done]. }
  erewrite bind_ok by (unfold lift; by rewrite Hout).
  rewrite uint64_id by lia. by erewrite bind_ok by reflexivity.
Qed.

Lemma validated_amounts h p v v' tx tx' :
  tx_typed tx -> 0 <= ghostdagK v < 2 ^ 8 ->
  ValidateTransactionInIsolation v tx p = Ok tt ->
  ValidateTransactionInContextAndPopulateFee h (v, tx) = (Ok tt, (v', tx')) ->
  NoDup (PreviousOutpoint <$> Inputs tx) /\ Forall (fun o => 0 < Value o) (Outputs tx) /\
  0 <= sumZ Value (Outputs tx) /\ sumZ amount_of (Inputs tx) <= MaxSompi /\ 0 <= Fee tx' /\
  sumZ amount_of (Inputs tx) = sumZ Value (Outputs tx) + Fee tx' /\ tx' = set_Fee (Fee tx') tx.
Proof.
  intros Hty Hk Hiso Hctx. apply ValidateTransactionInIsolation_ok in Hiso; [|done|done].
  destruct (context_amounts h v tx Hty Hiso) as [(e & Heq & _)|[[Heq _]|(_ & _ & Hle & Hmax & Heq)]];
    rewrite Hctx in Heq; [done|done|].
  assert (Htx : tx' = set_Fee (sumZ amount_of (Inputs tx) - sumZ Value (Outputs tx)) tx).
  { symmetry in Heq. apply bind_inv in Heq as ([] & s1 & H1 & Heq). injection H1 as _ <-.
    apply bind_inv in Heq as ([] & s2 & H2 & Heq). injection H2 as _ <-.
    unfold zoom in Heq. destruct (validateTransactionScripts _ _) as [x v''].
    by injection Heq as _ _ <-. }
  split_and!; [apply Hiso|apply (iso_values _ _ Hiso)|lia|lia| | |by rewrite Htx];
    rewrite Htx; cbn [Fee set_Fee]; lia.
Qed.

(** C11: No value is created.  A transaction that passes validation in isolation
    and in context spends distinct outpoints, its outputs are positive and add
    up to at most [MaxSompi] without wrap-around, and so do its inputs; the fee
    it is given is exactly the difference of the two totals. *)
Theorem value_conserved h p v v' tx tx' :
  tx_typed tx -> 0 <= ghostdagK v < 2 ^ 8 ->
  ValidateTransactionInIsolation v tx p = Ok tt ->
  ValidateTransactionInContextAndPopulateFee h (v, tx) = (Ok tt, (v', tx')) ->
  NoDup (PreviousOutpoint <$> Inputs tx) /\ Forall (fun o => 0 < Value o) (Outputs tx) /\
  0 <= sumZ Value (Outputs tx) /\ sumZ amount_of (Inputs tx) <= MaxSompi /\ 0 <= Fee tx' /\
  sumZ amount_of (Inputs tx) = sumZ Value (Outputs tx) + Fee tx' /\ tx' = set_Fee (Fee tx') tx.
Proof. apply validated_amounts. Qed.

(** The checks after the fee is known. *)
Lemma context_rest h v tx daa :
  validator_ok v -> DAAScore h = Ok daa -> 0 <= daa < 2 ^ 63 ->
  (IsCoinBase tx = true -> Inputs tx = []) -> Forall has_entry (Inputs tx) ->
  Forall score_fits (Inputs tx) -> Forall (fun i => 0 <= Sequence i < 2 ^ 64) (Inputs tx) ->
  Forall script_bytes (Inputs tx) ->
  let result := (lift (checkTransactionSequenceLock h tx) ;;
                 lift (validateTransactionSigOpCounts tx) ;;
                 zoom fst (fun v s => (v, snd s)) (validateTransactionScripts tx)) (v, tx) in
  fst result <> Panic /\ validator_ok (fst (snd result)) /\
  (fst result = Ok tt <-> Forall (lock_met daa) (Inputs tx) /\ Forall sigops_declared (Inputs tx) /\
    scripts_accept tx 0 (Inputs tx)).
Proof.
  intros Hv Hh Hd Hcb He Hf Hs Hb result.
  destruct (checkTransactionSequenceLock_ok h daa tx Hh Hd Hcb He Hf Hs) as [Hnp1 Hiff1].
  destruct (sigop_counts_loop_eq (Inputs tx) He) as [Hnp2 Hiff2].
  destruct (scripts_loop_spec tx [] (Inputs tx) v NoReusedValues) as (x & v' & r' & Hx & Hnp3 & Hiff3 & Hv');
    [done|done|done|done|apply reuse_ok_empty|].
  change (@zlen DomainTransactionInput []) with 0 in Hx, Hiff3.
  unfold result, bind, lift, zoom, validateTransactionSigOpCounts, validateTransactionScripts.
  rewrite <- Hiff1, <- Hiff2. rewrite <- Hiff3.
  destruct (checkTransactionSequenceLock h tx) as [[]|e|]; [| |done].
  2:{ split; [done|]. split; [done|]. split; [done|by intros []]. }
  destruct (sigop_counts_loop (Inputs tx)) as [[]|e|]; [| |done].
  2:{ split; [done|]. split; [done|]. split; [done|by intros (_ & ? & _)]. }
  cbn [fst snd]. rewrite Hx. cbn [fst snd]. split; [done|]. split; [done|]. split; [intros ->; done|by intros (_ & _ & ?)].
Qed.

(** The check as a whole. *)
Lemma context_validation h p v tx daa :
  tx_typed tx -> 0 <= ghostdagK v < 2 ^ 8 -> validator_ok v ->
  DAAScore h = Ok daa -> 0 <= daa < 2 ^ 63 -> 0 <= blockCoinbaseMaturity v < 2 ^ 63 ->
  Forall score_fits (Inputs tx) -> ValidateTransactionInIsolation v tx p = Ok tt ->
  let result := ValidateTransactionInContextAndPopulateFee h (v, tx) in
  fst result <> Panic /\ (fst result = Ok tt <-> context_ok v daa tx) /\
  validator_ok (fst (snd result)) /\
  (missing_outpoints (Inputs tx) <> [] -> existsb (immature v daa) (Inputs tx) = false ->
   fst result = Err (ErrMissingTxOut (missing_outpoints (Inputs tx)))).
Proof.
  intros Hty Hk Hv Hh Hd Hm Hf Hiso result. apply ValidateTransactionInIsolation_ok in Hiso; [|done|done].
  assert (Hmat : checkTransactionCoinbaseMaturity v h tx = coinbase_maturity_loop v daa [] (Inputs tx)).
  { unfold checkTransactionCoinbaseMaturity. by rewrite Hh. }
  pose proof (coinbase_maturity_loop_ok v daa (Inputs tx) Hm Hf) as Hmok.
  assert (Hmiss : missing_outpoints (Inputs tx) <> [] -> existsb (immature v daa) (Inputs tx) = false ->
    fst result = Err (ErrMissingTxOut (missing_outpoints (Inputs tx)))).
  { intros Hne Him. rewrite coinbase_maturity_loop_eq, Him, app_nil_l in Hmat. unfold result,
      ValidateTransactionInContextAndPopulateFee. erewrite bind_ok by reflexivity.
    cbv beta iota. erewrite bind_err; [done|]. unfold lift. rewrite Hmat. unfold check_missing.
    case_if; [done|]. by apply zlen_pos_iff in Heqb. }
  destruct (context_amounts h v tx Hty Hiso) as [(e & Heq & Hno)|[[_ Hp]|(Hok & He & Hle & Hmax & Heq)]];
    fold result in Heq || idtac.
  - clearbody result. subst result. cbn [fst snd] in *. split; [done|]. split; [|by split].
    split; [done|]. intros []. destruct Hno. rewrite Hmat, Hmok. by split_and!.
  - destruct (input_loops_no_panic v daa 0 0 [] (Inputs tx)) as (Hnp & _). by rewrite Hmat in Hp.
  - destruct (context_rest h v (set_Fee (sumZ amount_of (Inputs tx) - sumZ Value (Outputs tx)) tx) daa)
      as (Hnp & Hv' & Hiff); try done.
    { intros Hcb. by apply (iso_coinbase _ _ Hiso). }
    { eapply Forall_impl; [apply (ty_inputs _ Hty)|]. by intros i []. }
    { pose proof (ty_entries _ Hty) as Hte. pose proof (ty_inputs _ Hty) as Hti. cbn [Inputs set_Fee].
      rewrite Forall_forall in Hte, Hti |- *. intros i Hi. split; [apply (Hti i Hi)|].
      intros e Hie. by apply (Hte i Hi e). }
    rewrite <- Heq in Hnp, Hv', Hiff. split; [done|]. split; [|by split]. rewrite Hiff.
    rewrite Hmat, Hmok in Hok. split; [intros (? & ? & ?); constructor; tauto || lia|by intros []].
Qed.

End context.

(** * Witnesses *)

#[local] Existing Instance test_crypto.
#[local] Existing Instance test_crypto_laws.
#[local] Existing Instance test_iteration.

Definition test_store : DAABlocksStore := {| DAAScore := fun _ => Ok 1000 |}.
#[local] Existing Instance test_store.

Definition test_validator : transactionValidator :=
  New 100 false 204 18 150 (NewCalculator 1 10 1000).

Lemma test_validator_ok : validator_ok test_validator.
Proof. split; by apply NewSigCache_inv. Qed.

Lemma test_p2pk_tx_typed : tx_typed test_p2pk_tx.
Proof.
  split; [repeat constructor; by vm_compute|done|done|done| |];
    (apply Forall_cons; split; [|constructor]).
  - split; [done|]. apply (bool_decide_eq_true_1 _). vm_compute. reflexivity.
  - intros e [= <-]. split_and!; try done. apply (bool_decide_eq_true_1 _). vm_compute. reflexivity.
Qed.

Lemma isolation_validation_exact_witness : isolation_ok test_validator test_p2pk_tx.
Proof.
  apply (proj2 (isolation_validation_exact test_validator test_p2pk_tx 0 test_p2pk_tx_typed
    (conj (Zle_bool_imp_le 0 18 eq_refl) eq_refl))).
  vm_compute. reflexivity.
Defined.

Lemma value_conserved_witness :
  sumZ amount_of (Inputs test_p2pk_tx) = sumZ Value (Outputs test_p2pk_tx) + 100.
Proof.
  assert (Hok : fst (ValidateTransactionInContextAndPopulateFee [] (test_validator, test_p2pk_tx)) = Ok tt)
    by (vm_compute; reflexivity).
  assert (Hfee : Fee (snd (snd (ValidateTransactionInContextAndPopulateFee []
    (test_validator, test_p2pk_tx)))) = 100) by (vm_compute; reflexivity).
  destruct (ValidateTransactionInContextAndPopulateFee [] (test_validator, test_p2pk_tx))
    as [x [v' tx']] eqn:Heq. cbn [fst snd] in Hok, Hfee. subst x. rewrite <- Hfee.
  eapply (value_conserved [] 0 test_validator v' test_p2pk_tx tx' test_p2pk_tx_typed
    (conj (Zle_bool_imp_le 0 18 eq_refl) eq_refl)); [vm_compute; reflexivity|exact Heq].
Defined.

