(* ===== verification/UtxoDiff.v ===== *)
(** UTXO collections and the algebra of UTXO diffs:
    [src/domain/consensus/utils/utxo/utxo_collection.go], [diff_algebra.go],
    [mutable_utxo_diff.go] and [utxo_entry.go].

    A collection is a finite map from outpoints to entries.  Loops that range
    over a map are folds over it; what they compute does not depend on the order.
    The functions of [diff_algebra.go] are modelled on the two maps of a diff;
    the immutable views of [immutable_utxo_diff.go] are not modelled. *)

From S2P Require Import Prelude ScriptError Transaction Sha256 SigHash SigCache TxMass TxHash.
From S2P Require Import Spending TxValidator.

(** * Collections *)

Abbreviation utxoCollection := (gmap DomainOutpoint UTXOEntry).

Definition Get (uc : utxoCollection) (outpoint : DomainOutpoint) : option UTXOEntry := uc !! outpoint.

Definition Contains (uc : utxoCollection) (outpoint : DomainOutpoint) : bool :=
  bool_decide (is_Some (uc !! outpoint)).

Definition uc_Len (uc : utxoCollection) : Z := Z.of_nat (size uc).

Definition uc_add (uc : utxoCollection) (outpoint : DomainOutpoint) (entry : UTXOEntry)
  : utxoCollection := <[outpoint := entry]> uc.

Definition uc_addMultiple (uc collectionToAdd : utxoCollection) : utxoCollection :=
  map_fold (fun outpoint entry acc => <[outpoint := entry]> acc) uc collectionToAdd.

Definition uc_remove (uc : utxoCollection) (outpoint : DomainOutpoint) : utxoCollection :=
  delete outpoint uc.

Definition uc_removeMultiple (uc collectionToRemove : utxoCollection) : utxoCollection :=
  map_fold (fun outpoint _ acc => delete outpoint acc) uc collectionToRemove.

Definition containsWithDAAScore (uc : utxoCollection) (outpoint : DomainOutpoint) (daaScore : Z)
  : bool :=
  match Get uc outpoint with
  | Some entry => BlockDAAScore entry =? daaScore
  | None => false
  end.

(** [NewUTXOEntry] clones the script public key. *)
Definition NewUTXOEntry (amount : Z) (scriptPubKey : ScriptPublicKey) (isCoinbase : bool)
    (blockDAAScore : Z) : UTXOEntry :=
  mk_UTXOEntry amount
    (mk_ScriptPublicKey (copy_slice (replicate (length (spk_Script scriptPubKey)) 0)
       (spk_Script scriptPubKey)) (spk_Version scriptPubKey))
    blockDAAScore isCoinbase.

(** * Diff algebra *)

(** The errors of the package, by their messages. *)
Inductive DiffError : Set :=
| BothRemovedAndAdded      (* this.toRemove and other.toAdd *)
| BothAddedAndRemoved      (* this.toAdd and other.toRemove *)
| RemovedWithDifferentScores
| AddedInBothRemovedInOne
| RemovedTwice             (* withDiffInPlace: both in toRemove *)
| AddedTwice               (* withDiffInPlace: both in toAdd *)
| CannotAddTwice
| CannotRemoveTwice.

Record mutableUTXODiff : Set := mk_mutableUTXODiff {
  toAdd : utxoCollection;
  toRemove : utxoCollection
}.

Definition newMutableUTXODiff : mutableUTXODiff := mk_mutableUTXODiff ∅ ∅.

(** Ranges over [collection1] until it finds an outpoint of both. *)
Definition checkIntersection (collection1 collection2 : utxoCollection) : bool :=
  existsb (fun p => Contains collection2 (fst p)) (map_to_list collection1).

(** Whether an outpoint of both satisfies the rule; which one is found first
    only shows in the message. *)
Definition checkIntersectionWithRule (collection1 collection2 : utxoCollection)
    (extraRule : DomainOutpoint -> UTXOEntry -> UTXOEntry -> bool) : bool :=
  existsb (fun p => match Get collection2 (fst p) with
                    | Some diffEntry => extraRule (fst p) (snd p) diffEntry
                    | None => false
                    end) (map_to_list collection1).

(** The new values of [result] and [remainder]. *)
Definition intersectionWithRemainderHavingDAAScoreInPlace
    (collection1 collection2 result remainder : utxoCollection) : utxoCollection * utxoCollection :=
  map_fold (fun outpoint utxoEntry acc =>
    if containsWithDAAScore collection2 outpoint (BlockDAAScore utxoEntry)
    then (uc_add (fst acc) outpoint utxoEntry, snd acc)
    else (fst acc, uc_add (snd acc) outpoint utxoEntry)) (result, remainder) collection1.

Definition subtractionHavingDAAScoreInPlace (collection1 collection2 result : utxoCollection)
  : utxoCollection :=
  map_fold (fun outpoint utxoEntry acc =>
    if negb (containsWithDAAScore collection2 outpoint (BlockDAAScore utxoEntry))
    then uc_add acc outpoint utxoEntry else acc) result collection1.

Definition subtractionWithRemainderHavingDAAScoreInPlace
    (collection1 collection2 result remainder : utxoCollection) : utxoCollection * utxoCollection :=
  map_fold (fun outpoint utxoEntry acc =>
    if negb (containsWithDAAScore collection2 outpoint (BlockDAAScore utxoEntry))
    then (uc_add (fst acc) outpoint utxoEntry, snd acc)
    else (fst acc, uc_add (snd acc) outpoint utxoEntry)) (result, remainder) collection1.

Definition isNotAddedOutputRemovedWithDAAScore (this other : mutableUTXODiff)
    (outpoint : DomainOutpoint) (utxoEntry diffEntry : UTXOEntry) : bool :=
  negb (negb (BlockDAAScore diffEntry =? BlockDAAScore utxoEntry) &&
        (containsWithDAAScore (toAdd this) outpoint (BlockDAAScore diffEntry) ||
         containsWithDAAScore (toRemove other) outpoint (BlockDAAScore utxoEntry))).

Definition isNotRemovedOutputAddedWithDAAScore (this other : mutableUTXODiff)
    (outpoint : DomainOutpoint) (utxoEntry diffEntry : UTXOEntry) : bool :=
  negb (negb (BlockDAAScore diffEntry =? BlockDAAScore utxoEntry) &&
        (containsWithDAAScore (toRemove this) outpoint (BlockDAAScore diffEntry) ||
         containsWithDAAScore (toAdd other) outpoint (BlockDAAScore utxoEntry))).

Definition diffFrom (this other : mutableUTXODiff) : res DiffError mutableUTXODiff :=
  if checkIntersectionWithRule (toRemove this) (toAdd other)
       (isNotAddedOutputRemovedWithDAAScore this other)
  then Err BothRemovedAndAdded else
  if checkIntersectionWithRule (toAdd this) (toRemove other)
       (isNotRemovedOutputAddedWithDAAScore this other)
  then Err BothAddedAndRemoved else
  if checkIntersectionWithRule (toRemove this) (toRemove other)
       (fun _ utxoEntry diffEntry => negb (BlockDAAScore utxoEntry =? BlockDAAScore diffEntry))
  then Err RemovedWithDifferentScores else
  let '(result_toRemove, inBothToAdd) :=
    subtractionWithRemainderHavingDAAScoreInPlace (toAdd this) (toAdd other) ∅ ∅ in
  if negb (Bool.eqb (checkIntersection inBothToAdd (toRemove this))
                    (checkIntersection inBothToAdd (toRemove other)))
  then Err AddedInBothRemovedInOne else
  let result_toRemove :=
    subtractionHavingDAAScoreInPlace (toRemove other) (toRemove this) result_toRemove in
  let result_toAdd := subtractionHavingDAAScoreInPlace (toRemove this) (toRemove other) ∅ in
  let result_toAdd := subtractionHavingDAAScoreInPlace (toAdd other) (toAdd this) result_toAdd in
  Ok (mk_mutableUTXODiff result_toAdd result_toRemove).

(** [this] and [other] do not share maps. *)
Definition withDiffInPlace (other : mutableUTXODiff) : M DiffError mutableUTXODiff unit :=
  let* this := get in
  if checkIntersectionWithRule (toRemove other) (toRemove this)
       (fun outpoint entryToAdd _ =>
          negb (containsWithDAAScore (toAdd this) outpoint (BlockDAAScore entryToAdd)))
  then throw RemovedTwice else
  if checkIntersectionWithRule (toAdd other) (toAdd this)
       (fun outpoint _ existingEntry =>
          negb (containsWithDAAScore (toRemove other) outpoint (BlockDAAScore existingEntry)))
  then throw AddedTwice else
  let '(intersection, this_toRemove) :=
    intersectionWithRemainderHavingDAAScoreInPlace (toRemove other) (toAdd this) ∅ (toRemove this) in
  let this_toAdd := uc_removeMultiple (toAdd this) intersection in
  let '(intersection, this_toAdd) :=
    intersectionWithRemainderHavingDAAScoreInPlace (toAdd other) this_toRemove ∅ this_toAdd in
  let this_toRemove := uc_removeMultiple this_toRemove intersection in
  put (mk_mutableUTXODiff this_toAdd this_toRemove).

Definition withDiff (this diff : mutableUTXODiff) : res DiffError mutableUTXODiff :=
  match withDiffInPlace diff this with
  | (Ok _, clone) => Ok clone
  | (Err e, _) => Err e
  | (Panic, _) => Panic
  end.

Definition addEntry (outpoint : DomainOutpoint) (entry : UTXOEntry) : M DiffError mutableUTXODiff unit :=
  let* mud := get in
  if containsWithDAAScore (toRemove mud) outpoint (BlockDAAScore entry) then
    put (mk_mutableUTXODiff (toAdd mud) (uc_remove (toRemove mud) outpoint))
  else if Contains (toAdd mud) outpoint then throw CannotAddTwice
  else put (mk_mutableUTXODiff (uc_add (toAdd mud) outpoint entry) (toRemove mud)).

(** A nil entry is dereferenced. *)
Definition removeEntry (outpoint : DomainOutpoint) (entry : option UTXOEntry)
  : M DiffError mutableUTXODiff unit :=
  match entry with
  | None => panic
  | Some entry =>
      let* mud := get in
      if containsWithDAAScore (toAdd mud) outpoint (BlockDAAScore entry) then
        put (mk_mutableUTXODiff (uc_remove (toAdd mud) outpoint) (toRemove mud))
      else if Contains (toRemove mud) outpoint then throw CannotRemoveTwice
      else put (mk_mutableUTXODiff (toAdd mud) (uc_add (toRemove mud) outpoint entry))
  end.

Fixpoint remove_inputs (inputs : list DomainTransactionInput) : M DiffError mutableUTXODiff unit :=
  match inputs with
  | [] => ret tt
  | input :: inputs' =>
      removeEntry (PreviousOutpoint input) (in_UTXOEntry input) ;;
      remove_inputs inputs'
  end.

Fixpoint add_outputs (transactionID : bytes) (isCoinbase : bool) (blockDAAScore i : Z)
    (outputs : list DomainTransactionOutput) : M DiffError mutableUTXODiff unit :=
  match outputs with
  | [] => ret tt
  | output :: outputs' =>
      addEntry (mk_DomainOutpoint transactionID (uint32 i))
        (NewUTXOEntry (Value output) (out_ScriptPublicKey output) isCoinbase blockDAAScore) ;;
      add_outputs transactionID isCoinbase blockDAAScore (i + 1) outputs'
  end.

(** [AddTransaction], for a transaction whose identifier is [transactionID]
    (which it reads through the cache of [TxHash.v]). *)
Definition AddTransaction `{Crypto} (transaction : DomainTransaction) (blockDAAScore : Z)
  : M DiffError mutableUTXODiff unit :=
  remove_inputs (Inputs transaction) ;;
  let* transactionID := lift (fst (transaction_ID transaction)) in
  add_outputs transactionID (IsCoinBase transaction) blockDAAScore 0 (Outputs transaction).

Definition Reversed (mud : mutableUTXODiff) : mutableUTXODiff :=
  mk_mutableUTXODiff (toRemove mud) (toAdd mud).

(** * Lookups *)

(** A fold whose step for key [k] changes only the value at [k] of the map
    [pr acc]. *)
Lemma map_fold_pointwise {B} (pr : B -> utxoCollection)
    (f : DomainOutpoint -> UTXOEntry -> B -> B)
    (h : DomainOutpoint -> UTXOEntry -> option UTXOEntry -> option UTXOEntry) b m o :
  (forall k e acc, pr (f k e acc) !! k = h k e (pr acc !! k)) ->
  (forall k e acc j, j <> k -> pr (f k e acc) !! j = pr acc !! j) ->
  pr (map_fold f b m) !! o =
  match m !! o with Some e => h o e (pr b !! o) | None => pr b !! o end.
Proof.
  intros Hk Hj. revert m. apply (map_fold_weak_ind (fun r m => pr r !! o =
    match m !! o with Some e => h o e (pr b !! o) | None => pr b !! o end)).
  { by rewrite lookup_empty. }
  intros k e m r Hm IH. destruct (decide (o = k)) as [->|Hne].
  - rewrite Hk, lookup_insert_eq, IH, Hm. done.
  - rewrite Hj by done. by rewrite lookup_insert_ne by done.
Qed.

(** The entry that [if p then uc_add] leaves. *)
Definition added_if (p : bool) (e : UTXOEntry) (old : option UTXOEntry) : option UTXOEntry :=
  if p then Some e else old.

Lemma lookup_removeMultiple uc c o :
  uc_removeMultiple uc c !! o = match c !! o with Some _ => None | None => uc !! o end.
Proof.
  apply (map_fold_pointwise id _ (fun _ _ _ => None)); intros; unfold id;
    [apply lookup_delete_eq|by apply lookup_delete_ne].
Qed.

Lemma lookup_addMultiple uc c o :
  uc_addMultiple uc c !! o = match c !! o with Some e => Some e | None => uc !! o end.
Proof.
  apply (map_fold_pointwise id _ (fun _ e _ => Some e)); intros; unfold id;
    [apply lookup_insert_eq|by apply lookup_insert_ne].
Qed.

(** Discharges the side conditions of [map_fold_pointwise] for the loops below. *)
Ltac fold_cases :=
  intros; unfold added_if, uc_add, id; destruct (containsWithDAAScore _ _ _); simpl;
  rewrite ?lookup_insert_eq, ?lookup_insert_ne by done; done.

Lemma lookup_intersectionWithRemainder c1 c2 result remainder o :
  let r := intersectionWithRemainderHavingDAAScoreInPlace c1 c2 result remainder in
  fst r !! o = match c1 !! o with
               | Some e => added_if (containsWithDAAScore c2 o (BlockDAAScore e)) e (result !! o)
               | None => result !! o
               end /\
  snd r !! o = match c1 !! o with
               | Some e => added_if (negb (containsWithDAAScore c2 o (BlockDAAScore e))) e (remainder !! o)
               | None => remainder !! o
               end.
Proof.
  split.
  - apply (map_fold_pointwise fst _ (fun o e => added_if (containsWithDAAScore c2 o (BlockDAAScore e)) e));
      fold_cases.
  - apply (map_fold_pointwise snd _
      (fun o e => added_if (negb (containsWithDAAScore c2 o (BlockDAAScore e))) e)); fold_cases.
Qed.

Lemma lookup_subtraction c1 c2 result o :
  subtractionHavingDAAScoreInPlace c1 c2 result !! o =
  match c1 !! o with
  | Some e => added_if (negb (containsWithDAAScore c2 o (BlockDAAScore e))) e (result !! o)
  | None => result !! o
  end.
Proof.
  apply (map_fold_pointwise id _
    (fun o e => added_if (negb (containsWithDAAScore c2 o (BlockDAAScore e))) e)); fold_cases.
Qed.

Lemma lookup_subtractionWithRemainder c1 c2 result remainder o :
  let r := subtractionWithRemainderHavingDAAScoreInPlace c1 c2 result remainder in
  fst r !! o = match c1 !! o with
               | Some e => added_if (negb (containsWithDAAScore c2 o (BlockDAAScore e))) e (result !! o)
               | None => result !! o
               end /\
  snd r !! o = match c1 !! o with
               | Some e => added_if (containsWithDAAScore c2 o (BlockDAAScore e)) e (remainder !! o)
               | None => remainder !! o
               end.
Proof.
  split.
  - apply (map_fold_pointwise fst _
      (fun o e => added_if (negb (containsWithDAAScore c2 o (BlockDAAScore e))) e)); fold_cases.
  - apply (map_fold_pointwise snd _ (fun o e => added_if (containsWithDAAScore c2 o (BlockDAAScore e)) e));
      fold_cases.
Qed.

Lemma checkIntersectionWithRule_false c1 c2 rule :
  (forall o e d, c1 !! o = Some e -> c2 !! o = Some d -> rule o e d = false) ->
  checkIntersectionWithRule c1 c2 rule = false.
Proof.
  intros Hr. unfold checkIntersectionWithRule, Get. apply not_true_is_false. intros He.
  apply existsb_exists in He as ([o e] & Hin & He). simpl in He.
  apply list_elem_of_In, elem_of_map_to_list in Hin.
  destruct (c2 !! o) as [d|] eqn:Hd; [|done]. by rewrite (Hr o e d) in He.
Qed.

Lemma checkIntersection_true c1 c2 :
  checkIntersection c1 c2 = true <-> exists o, is_Some (c1 !! o) /\ is_Some (c2 !! o).
Proof.
  unfold checkIntersection, Contains. rewrite existsb_exists. split.
  - intros ([o e] & Hin & He). apply bool_decide_eq_true in He.
    apply list_elem_of_In, elem_of_map_to_list in Hin. exists o. split; [by exists e|done].
  - intros (o & [e He] & Hd). exists (o, e). split; [|by apply bool_decide_eq_true].
    by apply list_elem_of_In, elem_of_map_to_list.
Qed.

Lemma NewUTXOEntry_eq amount spk isCoinbase daa :
  NewUTXOEntry amount spk isCoinbase daa = mk_UTXOEntry amount spk daa isCoinbase.
Proof.
  unfold NewUTXOEntry. rewrite copy_slice_same_length by (by rewrite length_replicate).
  by destruct spk.
Qed.

(** * The meaning of a diff *)

(** The UTXO set after the diff. *)
Definition apply_diff (d : mutableUTXODiff) (base : utxoCollection) : utxoCollection :=
  toAdd d ∪ (base ∖ toRemove d).

Lemma lookup_apply d base o :
  apply_diff d base !! o =
  match toAdd d !! o with
  | Some e => Some e
  | None => match toRemove d !! o with Some _ => None | None => base !! o end
  end.
Proof.
  unfold apply_diff. rewrite lookup_union, lookup_difference.
  destruct (toAdd d !! o); [by destruct (toRemove d !! o), (base !! o)|].
  by destruct (toRemove d !! o), (base !! o).
Qed.

(** A diff fits a UTXO set: it removes entries of the set, and adds outpoints
    that are not in it, or replaces a removed entry by one of another score. *)
Definition valid_on (d : mutableUTXODiff) (base : utxoCollection) : Prop :=
  (forall o e, toRemove d !! o = Some e -> base !! o = Some e) /\
  (forall o e, toAdd d !! o = Some e ->
     base !! o = None \/
     exists e', toRemove d !! o = Some e' /\ BlockDAAScore e' <> BlockDAAScore e).

(** Entries are determined by their outpoint and DAA score: the outpoint names
    the transaction output, the score the block that accepted it. *)
Definition entries_of (out : DomainOutpoint -> Z -> UTXOEntry) (m : utxoCollection) : Prop :=
  forall o e, m !! o = Some e -> e = out o (BlockDAAScore e).

(** ** The diffs at one outpoint *)

(** [containsWithDAAScore], given the entry at the outpoint. *)
Definition has_score (x : option UTXOEntry) (e : UTXOEntry) : bool :=
  match x with Some d => BlockDAAScore d =? BlockDAAScore e | None => false end.

(** What [withDiffInPlace] leaves at an outpoint, [(toAdd, toRemove)], from the
    entries of this diff ([a1], [r1]) and of the other one ([a2], [r2]). *)
Definition with_at (a1 r1 a2 r2 : option UTXOEntry) : option UTXOEntry * option UTXOEntry :=
  let '(a, r) :=
    match r2 with
    | Some e => if has_score a1 e then (None, r1) else (a1, Some e)
    | None => (a1, r1)
    end in
  match a2 with
  | Some e => if has_score r e then (a, None) else (Some e, r)
  | None => (a, r)
  end.

Definition apply_at (a r b : option UTXOEntry) : option UTXOEntry :=
  match a with Some e => Some e | None => match r with Some _ => None | None => b end end.

Definition valid_at (a r b : option UTXOEntry) : Prop :=
  (forall e, r = Some e -> b = Some e) /\
  (forall e, a = Some e -> b = None \/ exists e', r = Some e' /\ BlockDAAScore e' <> BlockDAAScore e).

(** Entries of the same score are the same. *)
Definition agree (x y : option UTXOEntry) : Prop :=
  forall e e', x = Some e -> y = Some e' -> BlockDAAScore e = BlockDAAScore e' -> e = e'.

Lemma valid_on_at d base :
  valid_on d base <-> forall o, valid_at (toAdd d !! o) (toRemove d !! o) (base !! o).
Proof.
  split; [intros [Hr Ha] o; split; eauto|]. intros H. split; intros o e He; by apply (H o).
Qed.

(** Case analysis on entries and scores. *)
Ltac scores :=
  repeat match goal with
  | H : valid_at _ _ _ |- _ => destruct H
  | H : forall e, Some ?x = Some e -> _ |- _ => specialize (H x eq_refl)
  | H : forall e, None = Some e -> _ |- _ => clear H
  | H : _ \/ _ |- _ => destruct H
  | H : exists _, _ |- _ => destruct H
  | H : _ /\ _ |- _ => destruct H
  | _ => progress simplify_eq/=
  | |- context [?a =? ?b] => destruct (Z.eqb_spec a b)
  end.

Lemma with_at_spec a1 r1 a2 r2 b a r :
  agree b a2 -> valid_at a1 r1 b -> valid_at a2 r2 (apply_at a1 r1 b) ->
  with_at a1 r1 a2 r2 = (a, r) ->
  valid_at a r b /\ apply_at a r b = apply_at a2 r2 (apply_at a1 r1 b).
Proof.
  intros Hb H1 H2. destruct a1 as [a1|], r1 as [r1|], a2 as [a2|], r2 as [r2|]; unfold with_at, has_score;
    scores; intros [= <- <-]; (split; [split; intros ? [= <-]|]); unfold apply_at in *; simplify_eq/=; eauto 6;
    f_equal; by apply Hb.
Qed.

(** What [diffFrom] gives at an outpoint. *)
Definition from_at (a1 r1 a2 r2 : option UTXOEntry) : option UTXOEntry * option UTXOEntry :=
  let minus x y old := match x with Some e => if has_score y e then old else Some e | None => old end in
  (minus a2 a1 (minus r1 r2 None), minus r2 r1 (minus a1 a2 None)).

Lemma from_at_spec a1 r1 a2 r2 b a r :
  agree a1 a2 -> valid_at a1 r1 b -> valid_at a2 r2 b ->
  from_at a1 r1 a2 r2 = (a, r) ->
  valid_at a r (apply_at a1 r1 b) /\ apply_at a r (apply_at a1 r1 b) = apply_at a2 r2 b.
Proof.
  intros Hb H1 H2. destruct a1 as [a1|], r1 as [r1|], a2 as [a2|], r2 as [r2|]; unfold from_at, has_score;
    scores; intros [= <- <-]; (split; [split; intros ? [= <-]|]); unfold apply_at in *; simplify_eq/=; eauto 6;
    try (f_equal; by apply Hb).
Qed.

Lemma containsWithDAAScore_at uc o e :
  containsWithDAAScore uc o (BlockDAAScore e) = has_score (uc !! o) e.
Proof. done. Qed.

(** ** Applying one diff after another *)

Lemma agree_entries out m1 m2 o : entries_of out m1 -> entries_of out m2 -> agree (m1 !! o) (m2 !! o).
Proof. intros H1 H2 e e' He He' Hs. rewrite (H1 _ _ He), (H2 _ _ He'). by rewrite Hs. Qed.

(** No error, when the diffs fit. *)
Lemma with_checks this other base :
  valid_on this base -> valid_on other (apply_diff this base) ->
  checkIntersectionWithRule (toRemove other) (toRemove this)
    (fun outpoint entryToAdd _ =>
       negb (containsWithDAAScore (toAdd this) outpoint (BlockDAAScore entryToAdd))) = false /\
  checkIntersectionWithRule (toAdd other) (toAdd this)
    (fun outpoint _ existingEntry =>
       negb (containsWithDAAScore (toRemove other) outpoint (BlockDAAScore existingEntry))) = false.
Proof.
  intros [Hr1 Ha1] [Hr2 Ha2]. split; apply checkIntersectionWithRule_false; intros o e d He Hd;
    rewrite containsWithDAAScore_at; unfold has_score.
  - apply Hr2 in He. rewrite lookup_apply, Hd in He. destruct (toAdd this !! o); simplify_eq. by rewrite Z.eqb_refl.
  - assert (Hx : apply_diff this base !! o = Some d) by (by rewrite lookup_apply, Hd).
    destruct (Ha2 o e He) as [Hn|(e' & He' & _)]; [congruence|].
    pose proof (Hr2 _ _ He') as Hy. rewrite Hx in Hy. injection Hy as <-. by rewrite He', Z.eqb_refl.
Qed.

Lemma withDiffInPlace_at this other d :
  withDiffInPlace other this = (Ok tt, d) -> forall o,
  with_at (toAdd this !! o) (toRemove this !! o) (toAdd other !! o) (toRemove other !! o) =
  (toAdd d !! o, toRemove d !! o).
Proof.
  unfold withDiffInPlace. erewrite bind_ok by reflexivity. do 2 (case_if; [done|]). intros Heq o.
  pose proof (lookup_intersectionWithRemainder (toRemove other) (toAdd this) ∅ (toRemove this) o) as [Hi1 Hr1].
  destruct (intersectionWithRemainderHavingDAAScoreInPlace (toRemove other) _ _ _) as [i1 rem1].
  pose proof (lookup_intersectionWithRemainder (toAdd other) rem1 ∅ (uc_removeMultiple (toAdd this) i1) o)
    as [Hi2 Ha2].
  destruct (intersectionWithRemainderHavingDAAScoreInPlace (toAdd other) _ _ _) as [i2 add2].
  injection Heq as <-. cbn [toAdd toRemove fst snd] in *. rewrite lookup_removeMultiple in *.
  rewrite lookup_empty in *. unfold with_at, added_if in *.
  change (containsWithDAAScore (toAdd this) o) with (fun s => containsWithDAAScore (toAdd this) o s) in *.
  rewrite Ha2, Hi2. clear Ha2 Hi2.
  destruct (toRemove other !! o) as [e|]; rewrite ?containsWithDAAScore_at in *.
  - rewrite Hi1. destruct (has_score (toAdd this !! o) e); cbn [negb] in *; rewrite Hr1;
      (destruct (toAdd other !! o) as [e2|]; [|done]); rewrite containsWithDAAScore_at, Hr1;
      by destruct (has_score _ e2).
  - rewrite Hi1, Hr1. destruct (toAdd other !! o) as [e2|]; [|done].
    rewrite containsWithDAAScore_at, Hr1. by destruct (has_score _ e2).
Qed.

Lemma withDiffInPlace_spec out base this other :
  entries_of out base -> entries_of out (toAdd other) ->
  valid_on this base -> valid_on other (apply_diff this base) ->
  exists d, withDiffInPlace other this = (Ok tt, d) /\ valid_on d base /\
    apply_diff d base = apply_diff other (apply_diff this base).
Proof.
  intros Hb Ha H1 H2. destruct (with_checks _ _ _ H1 H2) as [Hc1 Hc2].
  assert (exists d, withDiffInPlace other this = (Ok tt, d)) as [d Hd].
  { unfold withDiffInPlace. erewrite bind_ok by reflexivity. rewrite Hc1, Hc2.
    destruct (intersectionWithRemainderHavingDAAScoreInPlace (toRemove other) _ _ _) as [i1 rem1].
    destruct (intersectionWithRemainderHavingDAAScoreInPlace (toAdd other) _ _ _) as [i2 add2]. by eexists. }
  exists d. split; [done|]. pose proof (withDiffInPlace_at _ _ _ Hd) as Hat.
  assert (Hspec : forall o, valid_at (toAdd d !! o) (toRemove d !! o) (base !! o) /\
    apply_diff d base !! o = apply_diff other (apply_diff this base) !! o).
  { intros o. rewrite !lookup_apply. apply (with_at_spec _ _ _ _ _ _ _) with (4 := Hat o).
    - by apply (agree_entries out).
    - by apply valid_on_at.
    - pose proof (proj1 (valid_on_at _ _) H2 o) as Hv. by rewrite lookup_apply in Hv. }
  split; [apply valid_on_at; intros o; apply Hspec|]. apply map_eq. intros o. apply Hspec.
Qed.

(** ** The diff between two diffs *)

Lemma from_checks this other base :
  valid_on this base -> valid_on other base ->
  checkIntersectionWithRule (toRemove this) (toAdd other)
    (isNotAddedOutputRemovedWithDAAScore this other) = false /\
  checkIntersectionWithRule (toAdd this) (toRemove other)
    (isNotRemovedOutputAddedWithDAAScore this other) = false /\
  checkIntersectionWithRule (toRemove this) (toRemove other)
    (fun _ utxoEntry diffEntry => negb (BlockDAAScore utxoEntry =? BlockDAAScore diffEntry)) = false.
Proof.
  intros [Hr1 Ha1] [Hr2 Ha2]. split_and!; apply checkIntersectionWithRule_false; intros o e d He Hd.
  - unfold isNotAddedOutputRemovedWithDAAScore. rewrite !containsWithDAAScore_at. apply Hr1 in He.
    destruct (Ha2 o d Hd) as [Hn|(e' & He' & Hne)]; [congruence|]. pose proof (Hr2 _ _ He') as Hx.
    rewrite He in Hx. injection Hx as <-. rewrite He'. unfold has_score.
    rewrite Z.eqb_refl, orb_true_r, andb_true_r. apply not_eq_sym, Z.eqb_neq in Hne. by rewrite Hne.
  - unfold isNotRemovedOutputAddedWithDAAScore. rewrite !containsWithDAAScore_at. apply Hr2 in Hd.
    destruct (Ha1 o e He) as [Hn|(e' & He' & Hne)]; [congruence|]. pose proof (Hr1 _ _ He') as Hx.
    rewrite Hd in Hx. injection Hx as <-. rewrite He'. unfold has_score.
    rewrite Z.eqb_refl, orb_true_l, andb_true_r. apply Z.eqb_neq in Hne. by rewrite Hne.
  - apply Hr1 in He. apply Hr2 in Hd. simplify_eq. by rewrite Z.eqb_refl.
Qed.

(** An outpoint that both diffs add is removed by both or by neither. *)
Lemma from_both_removed this other base inBoth :
  valid_on this base -> valid_on other base ->
  (forall o, is_Some (inBoth !! o) -> is_Some (toAdd this !! o) /\ is_Some (toAdd other !! o)) ->
  checkIntersection inBoth (toRemove this) = checkIntersection inBoth (toRemove other).
Proof.
  intros [Hr1 Ha1] [Hr2 Ha2] Hin. apply eq_bool_prop_intro. rewrite !Is_true_true, !checkIntersection_true.
  split; intros (o & Hi & [e He]); exists o; (split; [done|]); destruct (Hin o Hi) as [[x Hx] [y Hy]].
  - apply Hr1 in He. destruct (Ha2 _ _ Hy) as [|(e' & He' & _)]; [congruence|by exists e'].
  - apply Hr2 in He. destruct (Ha1 _ _ Hx) as [|(e' & He' & _)]; [congruence|by exists e'].
Qed.

Lemma diffFrom_at this other base :
  valid_on this base -> valid_on other base ->
  exists d, diffFrom this other = Ok d /\ forall o,
  from_at (toAdd this !! o) (toRemove this !! o) (toAdd other !! o) (toRemove other !! o) =
  (toAdd d !! o, toRemove d !! o).
Proof.
  intros H1 H2. destruct (from_checks _ _ _ H1 H2) as (Hc1 & Hc2 & Hc3). unfold diffFrom.
  rewrite Hc1, Hc2, Hc3.
  pose proof (lookup_subtractionWithRemainder (toAdd this) (toAdd other) ∅ ∅) as Hsub.
  destruct (subtractionWithRemainderHavingDAAScoreInPlace _ _ _ _) as [rem both]. cbn [fst snd] in Hsub.
  rewrite (from_both_removed _ _ _ _ H1 H2).
  2:{ intros o. destruct (Hsub o) as [_ Hb]. rewrite Hb, lookup_empty. unfold added_if.
      destruct (toAdd this !! o) as [x|]; [|by intros []]. rewrite containsWithDAAScore_at.
      destruct (toAdd other !! o) as [y|]; [done|by intros []]. }
  rewrite eqb_reflx. cbn [negb]. eexists. split; [done|]. intros o. cbn [toAdd toRemove].
  rewrite !lookup_subtraction, lookup_empty. destruct (Hsub o) as [-> _]. rewrite lookup_empty.
  unfold from_at, added_if. f_equal.
  - destruct (toAdd other !! o), (toRemove this !! o); rewrite ?containsWithDAAScore_at; try done;
      repeat destruct (has_score _ _); done.
  - destruct (toRemove other !! o), (toAdd this !! o); rewrite ?containsWithDAAScore_at; try done;
      repeat destruct (has_score _ _); done.
Qed.

(** ** Adding a transaction *)

(** A change at one outpoint. *)
Lemma diffFrom_spec out base this other :
  entries_of out base -> entries_of out (toAdd this) -> entries_of out (toAdd other) ->
  valid_on this base -> valid_on other base ->
  exists d, diffFrom this other = Ok d /\ valid_on d (apply_diff this base) /\
    apply_diff d (apply_diff this base) = apply_diff other base /\ entries_of out (toAdd d).
Proof.
  intros Hb Ha1 Ha2 H1 H2. destruct (diffFrom_at this other base H1 H2) as (d & Hd & Hat).
  assert (Hspec : forall o, valid_at (toAdd d !! o) (toRemove d !! o) (apply_diff this base !! o) /\
    apply_diff d (apply_diff this base) !! o = apply_diff other base !! o).
  { intros o. rewrite !lookup_apply. apply (from_at_spec _ _ _ _ _ _ _) with (4 := Hat o).
    - by apply (agree_entries out).
    - by apply valid_on_at.
    - by apply valid_on_at. }
  exists d. split; [done|]. split; [apply valid_on_at; intros o; apply Hspec|].
  split; [apply map_eq; intros o; apply Hspec|].
  intros o e He. specialize (Hat o). unfold from_at in Hat. rewrite He in Hat. injection Hat as Hat _.
  destruct (toAdd other !! o) as [x|] eqn:Hx; [destruct (has_score _ x)|]; simplify_eq; [|by apply Ha2|];
    (destruct (toRemove this !! o) as [y|] eqn:Hy; [|done]); destruct (has_score _ y); simplify_eq;
    apply Hb, H1, Hy.
Qed.

Lemma diff_update base mud o a r x :
  valid_on mud base ->
  (forall j, j <> o -> a !! j = toAdd mud !! j /\ r !! j = toRemove mud !! j) ->
  valid_at (a !! o) (r !! o) (base !! o) -> apply_at (a !! o) (r !! o) (base !! o) = x ->
  valid_on (mk_mutableUTXODiff a r) base /\
  apply_diff (mk_mutableUTXODiff a r) base = partial_alter (fun _ => x) o (apply_diff mud base).
Proof.
  intros Hv Hj Ho Hap. pose proof (proj1 (valid_on_at _ _) Hv) as Hat. split.
  - apply valid_on_at. intros j. cbn [toAdd toRemove]. destruct (decide (j = o)) as [->|Hne]; [done|].
    destruct (Hj j Hne) as [-> ->]. apply Hat.
  - apply map_eq. intros j. rewrite lookup_apply. cbn [toAdd toRemove].
    destruct (decide (j = o)) as [->|Hne]; [by rewrite lookup_partial_alter_eq|].
    rewrite lookup_partial_alter_ne, lookup_apply by done. by destruct (Hj j Hne) as [-> ->].
Qed.

Lemma removeEntry_spec base mud o e :
  valid_on mud base -> apply_diff mud base !! o = Some e ->
  exists mud', removeEntry o (Some e) mud = (Ok tt, mud') /\ valid_on mud' base /\
    apply_diff mud' base = delete o (apply_diff mud base).
Proof.
  intros Hv He. rewrite lookup_apply in He. unfold removeEntry. erewrite bind_ok by reflexivity.
  rewrite containsWithDAAScore_at. unfold has_score, Contains.
  destruct (proj1 (valid_on_at _ _) Hv o) as [Hr Ha]. unfold uc_remove, uc_add.
  destruct (toAdd mud !! o) as [x|] eqn:Hx; [injection He as ->; rewrite Z.eqb_refl|].
  - eexists. split; [done|]. apply diff_update; [done| | |]; rewrite ?lookup_delete_eq.
    + intros j Hne. by rewrite lookup_delete_ne.
    + split; [done|intros ? [=]].
    + unfold apply_at. destruct (toRemove mud !! o); [done|].
      destruct (Ha e eq_refl) as [?|(? & ? & _)]; done.
  - destruct (toRemove mud !! o) as [y|] eqn:Hy; [done|]. rewrite bool_decide_false by (by intros []).
    eexists. split; [done|]. apply diff_update; [done| | |]; rewrite ?lookup_insert_eq, ?Hx.
    + intros j Hne. by rewrite lookup_insert_ne.
    + split; intros ? [= <-]. done.
    + done.
Qed.

Lemma addEntry_spec out base mud o e :
  entries_of out base -> e = out o (BlockDAAScore e) ->
  valid_on mud base -> apply_diff mud base !! o = None ->
  exists mud', addEntry o e mud = (Ok tt, mud') /\ valid_on mud' base /\
    apply_diff mud' base = <[o := e]> (apply_diff mud base).
Proof.
  intros Hb Ho Hv He. rewrite lookup_apply in He. unfold addEntry. erewrite bind_ok by reflexivity.
  rewrite containsWithDAAScore_at. unfold has_score, Contains.
  destruct (proj1 (valid_on_at _ _) Hv o) as [Hr Ha]. unfold uc_remove, uc_add.
  destruct (toAdd mud !! o) as [x|] eqn:Hx; [done|]. rewrite (bool_decide_false (is_Some None)) by (by intros []).
  destruct (toRemove mud !! o) as [y|] eqn:Hy; [destruct (Z.eqb_spec (BlockDAAScore y) (BlockDAAScore e)) as [Hs|Hs]|];
    (eexists; split; [done|]; apply diff_update; [done| | |]; rewrite ?lookup_insert_eq, ?lookup_delete_eq, ?Hx, ?Hy).
  all: try (intros j Hne; by rewrite ?lookup_insert_ne, ?lookup_delete_ne by done).
  all: unfold apply_at; try done.
  - rewrite (Hr y eq_refl). f_equal. rewrite Ho. rewrite <- Hs. by apply Hb, Hr.
  - split; [done|]. intros ? [= <-]. right. by exists y.
  - split; [done|]. intros ? [= <-]. by left.
Qed.

(** The UTXO set after a transaction: its inputs are spent, its outputs exist. *)
Definition spend_inputs (ins : list DomainTransactionInput) (s : utxoCollection) : utxoCollection :=
  foldl (fun s i => delete (PreviousOutpoint i) s) s ins.

Definition output_entry (isCoinbase : bool) (daa : Z) (o : DomainTransactionOutput) : UTXOEntry :=
  mk_UTXOEntry (Value o) (out_ScriptPublicKey o) daa isCoinbase.

Fixpoint create_outputs (id : bytes) (isCoinbase : bool) (daa i : Z)
    (outs : list DomainTransactionOutput) (s : utxoCollection) : utxoCollection :=
  match outs with
  | [] => s
  | o :: outs' =>
      create_outputs id isCoinbase daa (i + 1) outs'
        (<[mk_DomainOutpoint id i := output_entry isCoinbase daa o]> s)
  end.

(** The inputs are distinct, and name the entries they spend. *)
Definition spendable (ins : list DomainTransactionInput) (s : utxoCollection) : Prop :=
  NoDup (PreviousOutpoint <$> ins) /\
  Forall (fun i => exists e, in_UTXOEntry i = Some e /\ s !! PreviousOutpoint i = Some e) ins.

Lemma remove_inputs_spec base ins mud :
  valid_on mud base -> spendable ins (apply_diff mud base) ->
  exists mud', remove_inputs ins mud = (Ok tt, mud') /\ valid_on mud' base /\
    apply_diff mud' base = spend_inputs ins (apply_diff mud base).
Proof.
  revert mud. induction ins as [|i ins IH]; intros mud Hv [Hnd Hs]; [by exists mud|].
  apply Forall_cons in Hs as [(e & He & Hi) Hs]. simpl in Hnd. apply NoDup_cons in Hnd as [Hni Hnd].
  destruct (removeEntry_spec base mud _ e Hv Hi) as (mud1 & H1 & Hv1 & Ha1).
  cbn [remove_inputs]. rewrite He. erewrite bind_ok by exact H1.
  destruct (IH mud1 Hv1) as (mud2 & H2 & Hv2 & Ha2).
  { split; [done|]. rewrite Ha1, Forall_forall in *. intros j Hj. destruct (Hs j Hj) as (e' & He' & Hl).
    exists e'. split; [done|]. rewrite lookup_delete_ne; [done|]. intros Heq. apply Hni.
    rewrite Heq. by apply list_elem_of_fmap_2. }
  exists mud2. split_and!; [done|apply Hv2..|]. rewrite Ha2, Ha1. done.
Qed.

Lemma add_outputs_spec out base id cb daa i outs mud :
  entries_of out base -> valid_on mud base -> 0 <= i -> i + zlen outs <= 2 ^ 32 ->
  (forall j o, outs !! j = Some o ->
     apply_diff mud base !! mk_DomainOutpoint id (i + Z.of_nat j) = None /\
     output_entry cb daa o = out (mk_DomainOutpoint id (i + Z.of_nat j)) daa) ->
  exists mud', add_outputs id cb daa i outs mud = (Ok tt, mud') /\ valid_on mud' base /\
    apply_diff mud' base = create_outputs id cb daa i outs (apply_diff mud base).
Proof.
  intros Hb. revert i mud. induction outs as [|o outs IH]; intros i mud Hv Hi Hl Hout; [by exists mud|].
  rewrite zlen_cons in Hl. zlen_facts. destruct (Hout 0%nat o eq_refl) as [Hn Ho]. rewrite Z.add_0_r in Hn, Ho.
  cbn [add_outputs create_outputs]. rewrite NewUTXOEntry_eq. unfold uint32. rewrite Z.mod_small by lia.
  fold (output_entry cb daa o).
  destruct (addEntry_spec out base mud (mk_DomainOutpoint id i) (output_entry cb daa o)) as (mud1 & H1 & Hv1 & Ha1);
    [done..|]. erewrite bind_ok by exact H1.
  destruct (IH (i + 1) mud1 Hv1) as (mud2 & H2 & Hv2 & Ha2); [lia|lia| |].
  { intros j x Hj. destruct (Hout (S j) x Hj) as [Hn' Ho'].
    replace (i + 1 + Z.of_nat j) with (i + Z.of_nat (S j)) by lia. split; [|done].
    rewrite Ha1, lookup_insert_ne; [done|]. intros [= Heq]. lia. }
  exists mud2. split_and!; [done|apply Hv2..|]. rewrite Ha2, Ha1. done.
Qed.

Lemma spend_inputs_lookup ins s o :
  spend_inputs ins s !! o = if decide (o ∈ PreviousOutpoint <$> ins) then None else s !! o.
Proof.
  unfold spend_inputs. revert s. induction ins as [|i ins IH]; intros s; [done|]. simpl. rewrite IH.
  destruct (decide (o = PreviousOutpoint i)) as [->|Hne].
  - rewrite lookup_delete_eq. rewrite (decide_True (P := _ ∈ _ :: _)) by (by left). by case_decide.
  - rewrite lookup_delete_ne by done. case_decide as H1; case_decide as H2; try done.
    + destruct H2. by right.
    + by apply elem_of_cons in H2 as [|].
Qed.

(** ** The amount of money *)

Definition supply (s : utxoCollection) : Z := map_fold (fun _ e acc => Amount e + acc) 0 s.

Lemma supply_insert o e s : s !! o = None -> supply (<[o := e]> s) = Amount e + supply s.
Proof.
  intros Hn. apply (map_fold_insert_L (fun _ e acc => Amount e + acc)); [intros; lia|done].
Qed.

Lemma supply_delete o e s : s !! o = Some e -> supply (delete o s) = supply s - Amount e.
Proof.
  intros Hs. rewrite <- (insert_delete_id s o e Hs) at 2.
  rewrite supply_insert by apply lookup_delete_eq. lia.
Qed.

Lemma supply_spend_inputs ins s :
  spendable ins s -> supply (spend_inputs ins s) = supply s - sumZ amount_of ins.
Proof.
  revert s. induction ins as [|i ins IH]; intros s [Hnd Hs]; [simpl; lia|].
  apply Forall_cons in Hs as [(e & He & Hi) Hs]. simpl in Hnd. apply NoDup_cons in Hnd as [Hni Hnd].
  change (supply (spend_inputs ins (delete (PreviousOutpoint i) s)) = supply s - (amount_of i + sumZ amount_of ins)).
  rewrite IH.
  - rewrite (supply_delete _ e) by done. unfold amount_of at 2. rewrite He. lia.
  - split; [done|]. rewrite Forall_forall in *. intros j Hj. destruct (Hs j Hj) as (e' & He' & Hl).
    exists e'. split; [done|]. rewrite lookup_delete_ne; [done|]. intros Heq. apply Hni.
    rewrite Heq. by apply list_elem_of_fmap_2.
Qed.

Lemma supply_create_outputs id cb daa i outs s :
  (forall j, (j < length outs)%nat -> s !! mk_DomainOutpoint id (i + Z.of_nat j) = None) ->
  supply (create_outputs id cb daa i outs s) = supply s + sumZ Value outs.
Proof.
  revert i s. induction outs as [|o outs IH]; intros i s Hn; simpl; [lia|]. rewrite IH.
  - rewrite supply_insert; [simpl; lia|]. specialize (Hn 0%nat). rewrite Z.add_0_r in Hn. apply Hn. simpl. lia.
  - intros j Hj. rewrite lookup_insert_ne; [|intros [= ?]; lia].
    replace (i + 1 + Z.of_nat j) with (i + Z.of_nat (S j)) by lia. apply Hn. simpl. lia.
Qed.

(** The outputs of a transaction are new, and are what [out] says. *)
Definition fresh_outputs (out : DomainOutpoint -> Z -> UTXOEntry) (id : bytes) (daa : Z)
    (tx : DomainTransaction) (s : utxoCollection) : Prop :=
  zlen (Outputs tx) <= 2 ^ 32 /\
  forall j o, Outputs tx !! j = Some o ->
    s !! mk_DomainOutpoint id (Z.of_nat j) = None /\
    output_entry (IsCoinBase tx) daa o = out (mk_DomainOutpoint id (Z.of_nat j)) daa.

Section transactions.
Context `{C : Crypto}.

(** The identifier a transaction is added under. *)
Definition ID_of (tx : DomainTransaction) : bytes := default (computed_ID tx) (tx_ID tx).

Lemma AddTransaction_spec out base mud tx daa :
  let s := apply_diff mud base in
  entries_of out base -> valid_on mud base -> spendable (Inputs tx) s ->
  fresh_outputs out (ID_of tx) daa tx s ->
  exists mud', AddTransaction tx daa mud = (Ok tt, mud') /\ valid_on mud' base /\
    apply_diff mud' base =
      create_outputs (ID_of tx) (IsCoinBase tx) daa 0 (Outputs tx) (spend_inputs (Inputs tx) s) /\
    supply (apply_diff mud' base) = supply s - sumZ amount_of (Inputs tx) + sumZ Value (Outputs tx).
Proof.
  intros s Hb Hv Hs [Hl Hf]. destruct (remove_inputs_spec base (Inputs tx) mud Hv Hs) as (mud1 & H1 & Hv1 & Ha1).
  fold s in Ha1.
  assert (Hnone : forall j o, Outputs tx !! j = Some o ->
    apply_diff mud1 base !! mk_DomainOutpoint (ID_of tx) (0 + Z.of_nat j) = None).
  { intros j o Hj. rewrite Ha1, spend_inputs_lookup, Z.add_0_l. case_decide; [done|]. by apply (Hf j o). }
  destruct (add_outputs_spec out base (ID_of tx) (IsCoinBase tx) daa 0 (Outputs tx) mud1) as (mud2 & H2 & Hv2 & Ha2);
    [done|done|lia|lia| |].
  { intros j o Hj. split; [by apply (Hnone j o)|]. rewrite Z.add_0_l. by apply Hf. }
  exists mud2. rewrite Ha2, Ha1. split; [|split; [done|split; [done|]]].
  - unfold AddTransaction. erewrite bind_ok by exact H1. unfold ID_of in H2.
    unfold bind, lift, transaction_ID. by destruct (tx_ID tx).
  - rewrite supply_create_outputs; [by rewrite supply_spend_inputs|]. intros j Hj.
    apply lookup_lt_is_Some_2 in Hj as [o Ho]. rewrite <- Ha1. by apply (Hnone j o).
Qed.

(** The fee field plays no part. *)
Lemma AddTransaction_set_Fee fee tx daa : AddTransaction (set_Fee fee tx) daa = AddTransaction tx daa.
Proof. unfold AddTransaction, transaction_ID. cbn [tx_ID set_Fee]. by destruct (tx_ID tx). Qed.

End transactions.

(** * Properties *)

(** C12: Composing diffs is applying them in turn.  For a diff that fits a UTXO
    set and a diff that fits the set it leads to, [withDiff] succeeds, the
    result fits the first set and leads from it to the same set as the two
    diffs one after the other. *)
Theorem withDiff_composes out base this other :
  entries_of out base -> entries_of out (toAdd other) ->
  valid_on this base -> valid_on other (apply_diff this base) ->
  exists d, withDiff this other = Ok d /\ valid_on d base /\
    apply_diff d base = apply_diff other (apply_diff this base).
Proof.
  intros Hb Ha H1 H2. destruct (withDiffInPlace_spec out base this other Hb Ha H1 H2) as (d & Hd & Hs).
  exists d. unfold withDiff. by rewrite Hd.
Qed.

(** C13: [diffFrom] is the difference: for two diffs that fit one UTXO set it
    succeeds, and its result leads from the set after the first diff to the set
    after the second; composing it with the first diff gives a diff equivalent
    to the second. *)
Theorem diffFrom_connects out base this other :
  entries_of out base -> entries_of out (toAdd this) -> entries_of out (toAdd other) ->
  valid_on this base -> valid_on other base ->
  exists d, diffFrom this other = Ok d /\ valid_on d (apply_diff this base) /\
    apply_diff d (apply_diff this base) = apply_diff other base /\
    exists d', withDiff this d = Ok d' /\ apply_diff d' base = apply_diff other base.
Proof.
  intros Hb Ha1 Ha2 H1 H2. destruct (diffFrom_spec out base this other Hb Ha1 Ha2 H1 H2) as (d & Hd & Hv & Hap & Hda).
  exists d. split; [done|]. split; [done|]. split; [done|].
  destruct (withDiffInPlace_spec out base this d Hb Hda H1 Hv) as (d' & Hd' & _ & Hap').
  exists d'. unfold withDiff. rewrite Hd'. split; [done|]. by rewrite Hap'.
Qed.

(** [Reversed] undoes a diff: it fits the set the diff leads to, and leads
    back to the set the diff was applied to. *)
Theorem Reversed_undoes d base :
  valid_on d base ->
  valid_on (Reversed d) (apply_diff d base) /\ apply_diff (Reversed d) (apply_diff d base) = base.
Proof.
  intros Hv. assert (Hat : forall o, valid_at (toRemove d !! o) (toAdd d !! o) (apply_diff d base !! o) /\
    apply_diff (Reversed d) (apply_diff d base) !! o = base !! o).
  { intros o. rewrite !lookup_apply. cbn [Reversed toAdd toRemove].
    destruct (proj1 (valid_on_at _ _) Hv o) as [Hr Ha].
    destruct (toAdd d !! o) as [a|], (toRemove d !! o) as [r|].
    - rewrite (Hr r eq_refl). destruct (Ha a eq_refl) as [Hn|(e & [= <-] & Hne)].
      { by rewrite (Hr r eq_refl) in Hn. }
      split; [|done]. split; [done|]. intros ? [= <-]. right. exists a. by split; [|congruence].
    - destruct (Ha a eq_refl) as [Hn|(e & [=] & _)]. split; [by split|done].
    - rewrite (Hr r eq_refl). split; [|done]. split; [done|]. by left.
    - by split. }
  split; [apply valid_on_at; intros o; apply (Hat o)|]. apply map_eq. intros o. apply (Hat o).
Qed.

(** C22: A validated transaction moves money and burns its fee.  When a
    transaction passes validation in isolation and in context, its inputs are
    the entries of the UTXO set a diff leads to, and its outputs are new,
    [AddTransaction] succeeds; in the set the new diff leads to exactly the
    inputs are gone and the outputs are there, and the total amount of money
    has decreased by exactly the fee the validator computed. *)
Theorem validated_transaction_applies `{C : Crypto} `{!CryptoLaws C} `{IT : MapIteration}
    `{ST : DAABlocksStore} out base mud v v' tx tx' h p daa :
  tx_typed tx -> 0 <= ghostdagK v < 2 ^ 8 ->
  ValidateTransactionInIsolation v tx p = Ok tt ->
  ValidateTransactionInContextAndPopulateFee h (v, tx) = (Ok tt, (v', tx')) ->
  entries_of out base -> valid_on mud base ->
  Forall (fun i => exists e, in_UTXOEntry i = Some e /\
    apply_diff mud base !! PreviousOutpoint i = Some e) (Inputs tx) ->
  fresh_outputs out (ID_of tx) daa tx (apply_diff mud base) ->
  exists mud', AddTransaction tx' daa mud = (Ok tt, mud') /\ valid_on mud' base /\
    apply_diff mud' base =
      create_outputs (ID_of tx) (IsCoinBase tx) daa 0 (Outputs tx)
        (spend_inputs (Inputs tx) (apply_diff mud base)) /\
    supply (apply_diff mud' base) = supply (apply_diff mud base) - Fee tx' /\ 0 <= Fee tx'.
Proof.
  intros Hty Hk Hiso Hctx Hb Hv Hs Hf.
  destruct (validated_amounts h p v v' tx tx' Hty Hk Hiso Hctx) as (Hnd & _ & _ & _ & Hfee & Hsum & Htx').
  destruct (AddTransaction_spec out base mud tx daa Hb Hv (conj Hnd Hs) Hf) as (mud' & Hadd & Hv' & Hap & Hsup).
  exists mud'. rewrite Hsup. split; [by rewrite Htx', AddTransaction_set_Fee|]. split; [done|]. split; [done|]. split; [lia|done].
Qed.

(** * Witnesses *)

#[local] Existing Instance test_crypto.
#[local] Existing Instance test_crypto_laws.
#[local] Existing Instance test_iteration.
#[local] Existing Instance test_store.

Definition wit_out (o : DomainOutpoint) (daa : Z) : UTXOEntry :=
  mk_UTXOEntry (1000 + Index o) (mk_ScriptPublicKey [0x51] 0) daa false.

Definition wit_point (i : Z) : DomainOutpoint := mk_DomainOutpoint (replicate 32 1) i.

(** Two outputs exist; this diff replaces the first by one accepted later and
    adds a third, the other diff spends the second and the third. *)
Definition wit_base : utxoCollection :=
  {[wit_point 0 := wit_out (wit_point 0) 5; wit_point 1 := wit_out (wit_point 1) 5]}.

Definition wit_this : mutableUTXODiff := mk_mutableUTXODiff
  {[wit_point 0 := wit_out (wit_point 0) 9; wit_point 2 := wit_out (wit_point 2) 9]}
  {[wit_point 0 := wit_out (wit_point 0) 5]}.

Definition wit_other : mutableUTXODiff := mk_mutableUTXODiff ∅
  {[wit_point 1 := wit_out (wit_point 1) 5; wit_point 2 := wit_out (wit_point 2) 9]}.

Lemma wit_entries out (m : utxoCollection) :
  bool_decide (map_Forall (fun o e => e = out o (BlockDAAScore e)) m) = true -> entries_of out m.
Proof. intros Hb o e He. apply bool_decide_eq_true in Hb. by apply Hb. Qed.

Definition wit_valid (d : mutableUTXODiff) (base : utxoCollection) : bool :=
  bool_decide (map_Forall (fun o e => base !! o = Some e) (toRemove d)) &&
  bool_decide (map_Forall (fun o e => bool_decide (base !! o = None) ||
    match toRemove d !! o with
    | Some e' => negb (BlockDAAScore e' =? BlockDAAScore e)
    | None => false
    end = true) (toAdd d)).

Lemma wit_valid_on d base : wit_valid d base = true -> valid_on d base.
Proof.
  intros Hb. apply andb_true_iff in Hb as [H1 H2]. apply bool_decide_eq_true in H1, H2.
  split; intros o e He; [by apply H1|]. specialize (H2 o e He). simpl in H2.
  apply orb_true_iff in H2 as [H2|H2]; [left; by apply bool_decide_eq_true in H2|].
  right. destruct (toRemove d !! o) as [e'|]; [|done]. exists e'. split; [done|].
  by apply negb_true_iff, Z.eqb_neq in H2.
Qed.

Lemma withDiff_composes_witness :
  exists d, withDiff wit_this wit_other = Ok d /\ valid_on d wit_base /\
    apply_diff d wit_base = apply_diff wit_other (apply_diff wit_this wit_base).
Proof.
  apply (withDiff_composes wit_out).
  - apply wit_entries. by vm_compute.
  - apply wit_entries. by vm_compute.
  - apply wit_valid_on. by vm_compute.
  - apply wit_valid_on. by vm_compute.
Defined.

Lemma diffFrom_connects_witness :
  exists d, diffFrom wit_this (Reversed newMutableUTXODiff) = Ok d /\
    valid_on d (apply_diff wit_this wit_base) /\
    apply_diff d (apply_diff wit_this wit_base) = apply_diff newMutableUTXODiff wit_base /\
    exists d', withDiff wit_this d = Ok d' /\ apply_diff d' wit_base = apply_diff newMutableUTXODiff wit_base.
Proof.
  apply (diffFrom_connects wit_out wit_base wit_this newMutableUTXODiff).
  - apply wit_entries. by vm_compute.
  - apply wit_entries. by vm_compute.
  - apply wit_entries. by vm_compute.
  - apply wit_valid_on. by vm_compute.
  - apply wit_valid_on. by vm_compute.
Defined.

Lemma Reversed_undoes_witness : apply_diff (Reversed wit_this) (apply_diff wit_this wit_base) = wit_base.
Proof. apply (Reversed_undoes wit_this wit_base). apply wit_valid_on. by vm_compute. Defined.

(** The transaction of [TxValidator.v] spends the only output of the set. *)
Definition wit_tx_out (o : DomainOutpoint) (daa : Z) : UTXOEntry :=
  if bool_decide (TransactionID o = replicate 32 1) then mk_UTXOEntry 1000 test_p2pk daa false
  else mk_UTXOEntry 900 test_p2pk daa false.

Definition wit_tx_base : utxoCollection := {[wit_point 0 := mk_UTXOEntry 1000 test_p2pk 7 false]}.

Lemma wit_tx_id : bool_decide (ID_of test_p2pk_tx = replicate 32 1) = false.
Proof. vm_compute. reflexivity. Qed.

Lemma wit_tx_inputs :
  Forall (fun i => exists e, in_UTXOEntry i = Some e /\
    apply_diff newMutableUTXODiff wit_tx_base !! PreviousOutpoint i = Some e) (Inputs test_p2pk_tx).
Proof.
  apply Forall_cons. split; [|apply Forall_nil_2]. exists (mk_UTXOEntry 1000 test_p2pk 7 false).
  split; [reflexivity|]. rewrite lookup_apply. by vm_compute.
Qed.

Lemma wit_tx_fresh :
  fresh_outputs wit_tx_out (ID_of test_p2pk_tx) 8 test_p2pk_tx (apply_diff newMutableUTXODiff wit_tx_base).
Proof.
  pose proof wit_tx_id as Hb. revert Hb. generalize (ID_of test_p2pk_tx). intros id Hb.
  split; [by vm_compute|]. intros j o Hj. destruct j as [|j]; [|done]. injection Hj as <-. split.
  - rewrite lookup_apply. cbn [newMutableUTXODiff toAdd toRemove]. rewrite !lookup_empty.
    unfold wit_tx_base, wit_point. apply lookup_singleton_ne. intros Hid. injection Hid as Hid.
    apply bool_decide_eq_false in Hb. exact (Hb (eq_sym Hid)).
  - unfold wit_tx_out. cbn [TransactionID]. by rewrite Hb.
Qed.

Lemma validated_transaction_applies_witness :
  exists tx' mud', Inputs tx' = Inputs test_p2pk_tx /\
    AddTransaction tx' 8 newMutableUTXODiff = (Ok tt, mud') /\ supply (apply_diff mud' wit_tx_base) = 900.
Proof.
  assert (Hok : fst (ValidateTransactionInContextAndPopulateFee [] (test_validator, test_p2pk_tx)) = Ok tt)
    by (vm_compute; reflexivity).
  assert (Hfee : Fee (snd (snd (ValidateTransactionInContextAndPopulateFee []
    (test_validator, test_p2pk_tx)))) = 100) by (vm_compute; reflexivity).
  assert (Htx : Inputs (snd (snd (ValidateTransactionInContextAndPopulateFee []
    (test_validator, test_p2pk_tx)))) = Inputs test_p2pk_tx) by (vm_compute; reflexivity).
  destruct (ValidateTransactionInContextAndPopulateFee [] (test_validator, test_p2pk_tx))
    as [x [v' tx']] eqn:Heq. cbn [fst snd] in Hok, Hfee, Htx. subst x.
  destruct (validated_transaction_applies wit_tx_out wit_tx_base newMutableUTXODiff test_validator v'
    test_p2pk_tx tx' [] 0 8) as (mud' & Hadd & _ & _ & Hsup & _).
  - exact test_p2pk_tx_typed.
  - exact (conj (Zle_bool_imp_le 0 18 eq_refl) eq_refl).
  - vm_compute. reflexivity.
  - exact Heq.
  - apply wit_entries. by vm_compute.
  - apply wit_valid_on. by vm_compute.
  - exact wit_tx_inputs.
  - exact wit_tx_fresh.
  - exists tx', mud'. split; [exact Htx|]. split; [exact Hadd|]. rewrite Hsup, Hfee. by vm_compute.
Defined.
