(* ===== verification/Block.v ===== *)
(** Block hashes and block headers: the order of hashes
    ([src/domain/consensus/model/externalapi/hash.go]), the marker hashes of
    [model/virtual.go], the header interface of [externalapi/block.go] and its
    serialisation and hash in [utils/consensushashing/block.go]. *)

From S2P Require Import Prelude Transaction Sha256 SigHash TxMass TxHash.

(** * Hashes *)

(** [bytes.Compare] *)
Fixpoint bytes_Compare (a b : bytes) : comparison :=
  match a, b with
  | [], [] => Eq
  | [], _ :: _ => Lt
  | _ :: _, [] => Gt
  | x :: a', y :: b' => match x ?= y with Eq => bytes_Compare a' b' | c => c end
  end.

Definition hash_Less (hash other : bytes) : bool :=
  match bytes_Compare hash other with Lt => true | _ => false end.

Definition hash_LessOrEqual (hash other : bytes) : bool :=
  match bytes_Compare hash other with Gt => false | _ => true end.

Definition VirtualBlockHash : bytes := replicate 32 0xff.

Definition VirtualGenesisBlockHash : bytes := replicate 32 0xfe.

(** [hash.Equal] on pointers that may be nil. *)
Definition hash_Equal (hash other : option bytes) : bool := bool_decide (hash = other).

(** * Headers *)

Record BlockHeader : Set := mk_BlockHeader {
  hdr_Version : Z;
  hdr_Parents : list (list bytes);
  hdr_HashMerkleRoot : bytes;
  hdr_AcceptedIDMerkleRoot : bytes;
  hdr_UTXOCommitment : bytes;
  hdr_TimeInMilliseconds : Z;
  hdr_Bits : Z;
  hdr_Nonce : Z;
  hdr_DAAScore : Z;
  hdr_BlueScore : Z;
  hdr_BlueWork : Z;
  hdr_PruningPoint : bytes
}.

(** [len(n.Bytes())] and [n.Bytes()] of a [big.Int]: the big-endian bytes of
    the absolute value, without leading zeros. *)
Definition big_byte_len (n : Z) : Z := if n =? 0 then 0 else Z.log2 (Z.abs n) / 8 + 1.

Definition big_Bytes (n : Z) : bytes := rev (le_put (Z.to_nat (big_byte_len n)) (Z.abs n)).

Definition write_level_parents (blockLevelParents : list bytes) : bytes :=
  WriteElements [EUint64 (uint64 (zlen blockLevelParents))] ++
  concat (map (fun hash => WriteElement (EHash hash)) blockLevelParents).

Definition serializeHeader (header : BlockHeader) : bytes :=
  let timestamp := hdr_TimeInMilliseconds header in
  let blueWork := big_Bytes (hdr_BlueWork header) in
  let numParents := zlen (hdr_Parents header) in
  WriteElements [EUint16 (hdr_Version header); EUint64 (uint64 numParents)] ++
  concat (map write_level_parents (hdr_Parents header)) ++
  WriteElements [EHash (hdr_HashMerkleRoot header); EHash (hdr_AcceptedIDMerkleRoot header);
                 EHash (hdr_UTXOCommitment header); EInt64 timestamp;
                 EUint32 (hdr_Bits header); EUint64 (hdr_Nonce header);
                 EUint64 (hdr_DAAScore header); EUint64 (hdr_BlueScore header);
                 EBytes blueWork; EHash (hdr_PruningPoint header)].

Definition blockDomain : string := "BlockHash".

Definition HeaderHash `{Crypto} (header : BlockHeader) : bytes :=
  blake2b_New256 (string_bytes blockDomain) (serializeHeader header).

(** * The order of hashes *)

Lemma bytes_Compare_refl a : bytes_Compare a a = Eq.
Proof. induction a as [|x a IH]; [done|]. simpl. by rewrite Z.compare_refl. Qed.

Lemma bytes_Compare_Eq a b : bytes_Compare a b = Eq -> a = b.
Proof.
  revert b. induction a as [|x a IH]; intros [|y b]; simpl; try done.
  destruct (Z.compare_spec x y); try done. intros Heq. subst. f_equal. by apply IH.
Qed.

Lemma bytes_Compare_opp a b : bytes_Compare b a = CompOpp (bytes_Compare a b).
Proof.
  revert b. induction a as [|x a IH]; intros [|y b]; simpl; try done.
  rewrite (Z.compare_antisym x y). by destruct (x ?= y); simpl.
Qed.

Lemma bytes_Compare_Lt_trans a b c :
  bytes_Compare a b = Lt -> bytes_Compare b c = Lt -> bytes_Compare a c = Lt.
Proof.
  revert b c. induction a as [|x a IH]; intros [|y b] [|z c]; simpl; try done.
  destruct (Z.compare_spec x y); try done; subst.
  - destruct (Z.compare_spec y z); try done. apply IH.
  - intros _. destruct (Z.compare_spec y z); try done; subst.
    + intros _. by rewrite (proj2 (Z.compare_lt_iff _ _)).
    + intros _. rewrite (proj2 (Z.compare_lt_iff _ _)); [done|lia].
Qed.

Lemma hash_Less_irrefl a : hash_Less a a = false.
Proof. unfold hash_Less. by rewrite bytes_Compare_refl. Qed.

Lemma hash_Less_trans a b c : hash_Less a b = true -> hash_Less b c = true -> hash_Less a c = true.
Proof.
  unfold hash_Less. destruct (bytes_Compare a b) eqn:H1; try done.
  destruct (bytes_Compare b c) eqn:H2; try done. by rewrite (bytes_Compare_Lt_trans _ _ _ H1 H2).
Qed.

Lemma hash_Less_total a b : a <> b -> hash_Less a b = negb (hash_Less b a).
Proof.
  intros Hne. unfold hash_Less. rewrite (bytes_Compare_opp a b).
  destruct (bytes_Compare a b) eqn:H1; try done. by apply bytes_Compare_Eq in H1.
Qed.

(** * What a header's serialisation determines *)

(** The widths of the fields of a header. *)
Record header_widths (h : BlockHeader) : Prop := {
  hw_version : 0 <= hdr_Version h < 2 ^ 16;
  hw_parents : Forall (fun l => Forall (fun p : bytes => length p = 32%nat) l /\ zlen l < 2 ^ 64) (hdr_Parents h);
  hw_levels : zlen (hdr_Parents h) < 2 ^ 64;
  hw_roots : length (hdr_HashMerkleRoot h) = 32%nat /\ length (hdr_AcceptedIDMerkleRoot h) = 32%nat /\
             length (hdr_UTXOCommitment h) = 32%nat /\ length (hdr_PruningPoint h) = 32%nat;
  hw_time : - 2 ^ 63 <= hdr_TimeInMilliseconds h < 2 ^ 63;
  hw_bits : 0 <= hdr_Bits h < 2 ^ 32;
  hw_nonce : 0 <= hdr_Nonce h < 2 ^ 64;
  hw_scores : 0 <= hdr_DAAScore h < 2 ^ 64 /\ 0 <= hdr_BlueScore h < 2 ^ 64;
  hw_work : 0 <= hdr_BlueWork h /\ big_byte_len (hdr_BlueWork h) < 2 ^ 64
}.

Lemma big_byte_len_nonneg n : 0 <= big_byte_len n.
Proof.
  unfold big_byte_len. case_if; [done|]. pose proof (Z.log2_nonneg (Z.abs n)).
  assert (0 <= Z.log2 (Z.abs n) / 8) by (apply Z.div_pos; lia). lia.
Qed.

Lemma big_byte_len_bound n : Z.abs n < 256 ^ big_byte_len n.
Proof.
  unfold big_byte_len. case_if; [lia|]. assert (0 < Z.abs n) by lia.
  pose proof (Z.log2_spec (Z.abs n) ltac:(lia)) as [_ Hlt]. pose proof (Z.log2_nonneg (Z.abs n)).
  eapply Z.lt_le_trans; [exact Hlt|]. change 256 with (2 ^ 8).
  rewrite <- Z.pow_mul_r; [|lia|assert (0 <= Z.log2 (Z.abs n) / 8) by (apply Z.div_pos; lia); lia].
  apply Z.pow_le_mono_r; [lia|]. pose proof (Z.div_mod (Z.log2 (Z.abs n)) 8 ltac:(lia)).
  pose proof (Z.mod_pos_bound (Z.log2 (Z.abs n)) 8 ltac:(lia)). lia.
Qed.

Lemma zlen_big_Bytes n : zlen (big_Bytes n) = big_byte_len n.
Proof.
  unfold big_Bytes, zlen. rewrite length_rev, length_le_put.
  pose proof (big_byte_len_nonneg n). lia.
Qed.

Lemma big_Bytes_inj n m : 0 <= n -> 0 <= m -> big_Bytes n = big_Bytes m -> n = m.
Proof.
  intros Hn Hm Heq. assert (Hl : big_byte_len n = big_byte_len m) by (by rewrite <- !zlen_big_Bytes, Heq).
  unfold big_Bytes in Heq. rewrite Hl in Heq. apply (f_equal (@rev Z)) in Heq. rewrite !rev_involutive in Heq.
  pose proof (big_byte_len_bound n) as Hbn. pose proof (big_byte_len_bound m) as Hbm. rewrite Hl in Hbn.
  pose proof (big_byte_len_nonneg m). apply le_put_inj in Heq; rewrite ?Z2Nat.id by lia; lia.
Qed.

Lemma int64_bits_inj x y :
  - 2 ^ 63 <= x < 2 ^ 63 -> - 2 ^ 63 <= y < 2 ^ 63 -> uint64 x = uint64 y -> x = y.
Proof.
  intros Hx Hy Heq. rewrite <- (int64_id x Hx), <- (int64_id y Hy). unfold int64.
  rewrite <- (Z.add_mod_idemp_l x), <- (Z.add_mod_idemp_l y) by lia. unfold uint64 in Heq. by rewrite Heq.
Qed.

Lemma prefix_free_int64 :
  prefix_free (fun z => - 2 ^ 63 <= z < 2 ^ 63) (fun z => le_put 8 (uint64 z)).
Proof.
  intros x y r s Hx Hy Heq. apply prefix_free_le_put in Heq as [Heq ->];
    [split; [by apply int64_bits_inj|done]|unfold uint64; change (256 ^ Z.of_nat 8) with (2 ^ 64);
     apply Z.mod_pos_bound; lia..].
Qed.

Lemma prefix_free_level_parents :
  prefix_free (fun l => Forall (fun p : bytes => length p = 32%nat) l /\ zlen l < 2 ^ 64) write_level_parents.
Proof.
  intros x y r s Hx Hy Heq. unfold write_level_parents, WriteElements in Heq.
  cbn [map concat] in Heq. rewrite !app_nil_r in Heq.
  by apply (prefix_free_list _ _ (prefix_free_fixed 32)) in Heq.
Qed.

Lemma serializeHeader_inj h1 h2 :
  header_widths h1 -> header_widths h2 -> serializeHeader h1 = serializeHeader h2 -> h1 = h2.
Proof.
  intros [Hv1 Hp1 Hl1 (Hr1 & Ha1 & Hu1 & Hpp1) Ht1 Hb1 Hn1 [Hd1 Hs1] [Hw1 Hwl1]]
    [Hv2 Hp2 Hl2 (Hr2 & Ha2 & Hu2 & Hpp2) Ht2 Hb2 Hn2 [Hd2 Hs2] [Hw2 Hwl2]] Heq.
  destruct h1 as [v1 p1 r1 a1 u1 t1 b1 n1 d1 s1 w1 q1], h2 as [v2 p2 r2 a2 u2 t2 b2 n2 d2 s2 w2 q2].
  unfold serializeHeader, WriteElements in Heq.
  cbn [hdr_Version hdr_Parents hdr_HashMerkleRoot hdr_AcceptedIDMerkleRoot hdr_UTXOCommitment
    hdr_TimeInMilliseconds hdr_Bits hdr_Nonce hdr_DAAScore hdr_BlueScore hdr_BlueWork hdr_PruningPoint] in *.
  cbn [map concat] in Heq. rewrite !app_nil_r in Heq. rewrite <- !app_assoc in Heq.
  apply prefix_free_le_put in Heq as [-> Heq]; [|done..].
  rewrite !(app_assoc (WriteElement (EUint64 (uint64 _)))) in Heq.
  apply (prefix_free_list _ _ prefix_free_level_parents) in Heq as [-> Heq]; [|done..].
  cbn [WriteElement] in Heq. do 3 (apply (prefix_free_fixed 32) in Heq as [-> Heq]; [|done..]).
  apply prefix_free_int64 in Heq as [-> Heq]; [|done..].
  do 4 (apply prefix_free_le_put in Heq as [-> Heq]; [|done..]).
  apply prefix_free_bytes in Heq as [Hw ->]; [|by rewrite zlen_big_Bytes..].
  by apply big_Bytes_inj in Hw as ->.
Qed.

(** C30: A block's hash commits to its whole header: headers are serialised to the
    same bytes exactly when all their fields agree, the parents of every level
    included. *)
Theorem header_encoding_exact h1 h2 :
  header_widths h1 -> header_widths h2 -> (serializeHeader h1 = serializeHeader h2 <-> h1 = h2).
Proof. intros H1 H2. split; [by apply serializeHeader_inj|by intros ->]. Qed.

Definition test_header : BlockHeader :=
  mk_BlockHeader 1 [[replicate 32 5; replicate 32 6]; []] (replicate 32 1) (replicate 32 2)
    (replicate 32 3) (-5) 0x207fffff 7 8 9 1000 (replicate 32 4).

Lemma test_header_widths : header_widths test_header.
Proof.
  constructor; cbn; try done; try lia.
  repeat (apply Forall_cons; split; [split; [repeat (apply Forall_cons; split; [done|]); done|done]|]). done.
Qed.

Lemma header_encoding_exact_witness :
  serializeHeader test_header = serializeHeader test_header <-> test_header = test_header.
Proof. apply (header_encoding_exact test_header test_header); exact test_header_widths. Defined.
