(* ===== verification/Difficulty.v ===== *)
(** Difficulty: compact targets and work ([src/util/difficulty/difficulty.go])
    and the difficulty adjustment over a window of blocks
    ([src/domain/consensus/processes/difficultymanager/blockwindow.go] and
    [difficultymanager.go]).  A [big.Int] is a [Z]. *)

From S2P Require Import Prelude Transaction TxMass Block.

(** * Compact targets and work *)

Definition oneLsh256 : Z := Z.shiftl 1 256.

Definition CompactToBig (compact : Z) : Z :=
  let mantissa := Z.land compact 0x007fffff in
  let isNegative := negb (Z.land compact 0x00800000 =? 0) in
  let exponent := Z.shiftr compact 24 in
  let destination :=
    if exponent <=? 3 then Z.shiftr mantissa (8 * (3 - exponent))
    else Z.shiftl mantissa (8 * (exponent - 3)) in
  if isNegative then - destination else destination.

(** The [Bits()[0]] of the source is the lowest word of the absolute value;
    the shift of a negative number rounds down. *)
Definition BigToCompact (n : Z) : Z :=
  if n =? 0 then 0 else
  let exponent := big_byte_len n in
  let mantissa :=
    if exponent <=? 3 then uint32 (Z.shiftl (uint32 (uint64 (Z.abs n))) (8 * (3 - exponent)))
    else uint32 (uint64 (Z.abs (Z.shiftr n (8 * (exponent - 3))))) in
  let '(mantissa, exponent) :=
    if negb (Z.land mantissa 0x00800000 =? 0) then (Z.shiftr mantissa 8, exponent + 1)
    else (mantissa, exponent) in
  let compact := Z.lor (uint32 (Z.shiftl exponent 24)) mantissa in
  if n <? 0 then Z.lor compact 0x00800000 else compact.

Definition CalcWork (bits : Z) : Z :=
  let difficultyNum := CompactToBig bits in
  if difficultyNum <=? 0 then 0 else oneLsh256 / (difficultyNum + 1).

(** * Block windows *)

Record difficultyBlock : Set := mk_difficultyBlock {
  timeInMilliseconds : Z;
  db_Bits : Z;
  db_hash : bytes;
  db_blueWork : Z
}.

Definition ghostdagLess (blockA blockB : difficultyBlock) : bool :=
  match db_blueWork blockA ?= db_blueWork blockB with
  | Lt => true
  | Gt => false
  | Eq => hash_Less (db_hash blockA) (db_hash blockB)
  end.

Section windows.
Context {E : Type}.

Fixpoint minMax_loop (window rest : list difficultyBlock) (i min max minIndex : Z)
    : res E (Z * Z * Z) :=
  match rest with
  | [] => Ok (min, max, minIndex)
  | block :: rest' =>
      let? earlier :=
        if timeInMilliseconds block <? min then Ok true
        else if timeInMilliseconds block =? min then
          let? current := index_res window minIndex in
          Ok (ghostdagLess block current)
        else Ok false in
      let '(min, minIndex) :=
        if earlier : bool then (timeInMilliseconds block, i) else (min, minIndex) in
      let max := if timeInMilliseconds block >? max then timeInMilliseconds block else max in
      minMax_loop window rest' (i + 1) min max minIndex
  end.

Definition minMaxTimestamps (window : list difficultyBlock) : res E (Z * Z * Z) :=
  minMax_loop window window 0 (2 ^ 63 - 1) 0 0.

Definition window_remove (window : list difficultyBlock) (n : Z) : res E (list difficultyBlock) :=
  let? last := index_res window (zlen window - 1) in
  let? _ := index_res window n in
  Ok (take (length window - 1) (<[Z.to_nat n := last]> window)).

(** Division by zero panics. *)
Definition big_Div (a b : Z) : res E Z := if b =? 0 then Panic else Ok (a / b).

Definition averageTarget (window : list difficultyBlock) : res E Z :=
  big_Div (foldl (fun sum block => sum + CompactToBig (db_Bits block)) 0 window) (zlen window).

End windows.

(** * The difficulty manager *)

Record difficultyManager : Set := mk_difficultyManager {
  powMax : Z;
  difficultyAdjustmentWindowSize : Z;
  disableDifficultyAdjustment : bool;
  (** in nanoseconds, as a [time.Duration] *)
  targetTimePerBlock : Z;
  dm_genesisHash : bytes;
  genesisBits : Z
}.

(** [Duration.Milliseconds] *)
Definition Milliseconds (d : Z) : Z := Z.quot d 1000000.

Definition requiredDifficultyFromTargetsWindow {E} (dm : difficultyManager)
    (targetsWindow : list difficultyBlock) : res E Z :=
  if disableDifficultyAdjustment dm then Ok (genesisBits dm) else
  if (zlen targetsWindow <? 2) || (zlen targetsWindow <? difficultyAdjustmentWindowSize dm)
  then Ok (genesisBits dm) else
  let? minMax := minMaxTimestamps targetsWindow in
  let '(windowMinTimestamp, windowMaxTimeStamp, windowMinIndex) := minMax in
  let? targetsWindow := window_remove targetsWindow windowMinIndex in
  let? newTarget := averageTarget targetsWindow in
  let newTarget := newTarget * Z.max (int64 (windowMaxTimeStamp - windowMinTimestamp)) 1 in
  let? newTarget := big_Div newTarget (Milliseconds (targetTimePerBlock dm)) in
  let? newTarget := big_Div newTarget (zlen targetsWindow) in
  if newTarget >? powMax dm then Ok (BigToCompact (powMax dm)) else
  Ok (BigToCompact newTarget).

(** * Compact targets keep the leading bits *)

Lemma shiftr_256 n k : 0 <= k -> Z.shiftr n (8 * k) = n / 256 ^ k.
Proof. intros Hk. rewrite Z.shiftr_div_pow2 by lia. change 256 with (2 ^ 8). by rewrite <- Z.pow_mul_r by lia. Qed.

Lemma shiftl_256 n k : 0 <= k -> Z.shiftl n (8 * k) = n * 256 ^ k.
Proof. intros Hk. rewrite Z.shiftl_mul_pow2 by lia. change 256 with (2 ^ 8). by rewrite <- Z.pow_mul_r by lia. Qed.

Lemma sign_bit m : 0 <= m < 2 ^ 24 -> (Z.land m 0x00800000 =? 0) = (m <? 2 ^ 23).
Proof.
  intros Hm. assert (Ht : Z.testbit m 23 = negb (m <? 2 ^ 23)).
  { destruct (Z.ltb_spec m (2 ^ 23)); cbn [negb].
    - destruct (decide (m = 0)) as [->|]; [done|]. apply Z.bits_above_log2; [lia|]. apply Z.log2_lt_pow2; lia.
    - rewrite Z.testbit_true by lia. replace (m / 2 ^ 23) with 1; [done|].
      apply Z.div_unique with (m - 2 ^ 23); lia. }
  change 0x00800000 with (2 ^ 23). destruct (m <? 2 ^ 23); cbn [negb] in Ht.
  - apply Z.eqb_eq, Z.bits_inj'. intros i Hi. rewrite Z.land_spec, Z.pow2_bits_eqb, Z.bits_0 by lia.
    destruct (Z.eqb_spec 23 i); [subst; by rewrite Ht|by rewrite andb_false_r].
  - apply Z.eqb_neq. intros H0. apply (f_equal (fun z => Z.testbit z 23)) in H0.
    by rewrite Z.land_spec, Z.pow2_bits_eqb, Z.bits_0, Ht in H0.
Qed.

Lemma big_byte_len_lower n : 0 < n -> 1 <= big_byte_len n /\ 256 ^ (big_byte_len n - 1) <= n.
Proof.
  intros Hn. unfold big_byte_len. case_if; [lia|]. rewrite Z.abs_eq by lia.
  pose proof (Z.log2_spec n ltac:(lia)) as [Hlt _]. pose proof (Z.log2_nonneg n).
  assert (0 <= Z.log2 n / 8) by (apply Z.div_pos; lia). split; [lia|].
  eapply Z.le_trans; [|exact Hlt]. change 256 with (2 ^ 8). rewrite <- Z.pow_mul_r by lia.
  apply Z.pow_le_mono_r; [lia|]. pose proof (Z.mul_div_le (Z.log2 n) 8 ltac:(lia)). lia.
Qed.

Lemma uint32_id z : 0 <= z < 2 ^ 32 -> uint32 z = z.
Proof. apply Z.mod_small. Qed.

(** The mantissa before normalisation: the leading three bytes. *)
Lemma leading_bytes n : 0 < n ->
  let e := big_byte_len n in
  let m := if e <=? 3 then uint32 (Z.shiftl (uint32 (uint64 (Z.abs n))) (8 * (3 - e)))
           else uint32 (uint64 (Z.abs (Z.shiftr n (8 * (e - 3))))) in
  1 <= e /\ 2 ^ 16 <= m < 2 ^ 24 /\
  (e <= 3 /\ m = n * 256 ^ (3 - e) \/ 4 <= e /\ m = n / 256 ^ (e - 3)).
Proof.
  intros Hn. cbv zeta. destruct (big_byte_len_lower n Hn) as [He Hlo].
  pose proof (big_byte_len_bound n) as Hhi. rewrite Z.abs_eq in Hhi by lia.
  set (e := big_byte_len n) in *. split; [done|]. destruct (Z.leb_spec e 3).
  - assert (Hn24 : n * 256 ^ (3 - e) < 2 ^ 24 /\ 2 ^ 16 <= n * 256 ^ (3 - e) /\ n < 2 ^ 24).
    { assert (e = 1 \/ e = 2 \/ e = 3) as [E|[E|E]] by lia; rewrite E in *; cbn in *; lia. }
    rewrite Z.abs_eq by lia. unfold uint64. rewrite Z.mod_small, shiftl_256, !uint32_id by (rewrite ?uint32_id; lia).
    split; [lia|left; split; lia].
  - rewrite shiftr_256 by lia. assert (Hp : 0 < 256 ^ (e - 3)) by (apply Z.pow_pos_nonneg; lia).
    assert (Hm : 2 ^ 16 <= n / 256 ^ (e - 3) < 2 ^ 24).
    { split.
      - apply Z.div_le_lower_bound; [done|]. eapply Z.le_trans; [|exact Hlo].
        change (2 ^ 16) with (256 ^ 2). rewrite <- Z.pow_add_r by lia. apply Z.pow_le_mono_r; lia.
      - apply Z.div_lt_upper_bound; [done|]. change (2 ^ 24) with (256 ^ 3).
        rewrite <- Z.pow_add_r by lia. replace (e - 3 + 3) with e by lia. done. }
    rewrite Z.abs_eq by lia. unfold uint64. rewrite Z.mod_small, uint32_id by lia. split; [done|right; split; lia].
Qed.

(** A positive number's compact form: the exponent and a mantissa of 16 to 23 bits. *)
Lemma BigToCompact_parts n : 0 < n -> big_byte_len n <= 252 ->
  exists m e, BigToCompact n = e * 2 ^ 24 + m /\ 2 ^ 15 <= m < 2 ^ 23 /\ 1 <= e <= 253 /\
    (e <= 3 /\ m = n * 256 ^ (3 - e) \/ 4 <= e /\ m = n / 256 ^ (e - 3)).
Proof.
  intros Hn Hl. destruct (leading_bytes n Hn) as (He & Hm & Hcase). unfold BigToCompact.
  rewrite (proj2 (Z.eqb_neq n 0)), (proj2 (Z.ltb_ge n 0)) by lia. cbv zeta in *.
  match goal with |- context [Z.land ?x _] => set (m := x) in * end. set (e := big_byte_len n) in *.
  rewrite sign_bit by lia.
  assert (Hpack : forall x y, 0 <= x < 2 ^ 24 -> 0 <= y < 256 -> Z.lor (uint32 (Z.shiftl y 24)) x = y * 2 ^ 24 + x).
  { intros x y Hx Hy. assert (Hs : uint32 (Z.shiftl y 24) = Z.shiftl y 24).
    { apply uint32_id. rewrite Z.shiftl_mul_pow2 by lia. lia. }
    rewrite Hs, Z.lor_comm, lor_shiftl_add by lia. lia. }
  destruct (Z.ltb_spec m (2 ^ 23)); cbn [negb].
  - exists m, e. rewrite Hpack by lia. repeat split; try lia.
  - assert (H8 : Z.shiftr m 8 = m / 256) by (apply (shiftr_256 m 1); lia).
    exists (m / 256), (e + 1). rewrite H8, Hpack;
      [|split; [apply Z.div_pos; lia|apply Z.div_lt_upper_bound; lia]|lia].
    split; [done|]. split; [split; [apply Z.div_le_lower_bound; lia|apply Z.div_lt_upper_bound; lia]|].
    split; [lia|]. destruct Hcase as [[H3 Hm']|[H4 Hm']].
    + assert (e = 1 \/ e = 2 \/ e = 3) as [E|[E|E]] by lia; rewrite E in *; cbn [Z.sub] in *.
      * left. split; [lia|]. rewrite Hm'. change (256 ^ (3 - 1)) with (256 * 256). rewrite Z.mul_assoc, Z.div_mul by lia. done.
      * left. split; [lia|]. rewrite Hm'. change (256 ^ (3 - 2)) with 256. rewrite Z.div_mul by lia. lia.
      * right. split; [lia|]. rewrite Hm'. change (256 ^ (3 - 3)) with 1. rewrite Z.mul_1_r. done.
    + right. split; [lia|]. rewrite Hm', Z.div_div by (try lia; apply Z.pow_pos_nonneg; lia).
      f_equal. replace (e + 1 - 3) with (e - 3 + 1) by lia. rewrite Z.pow_add_r by lia. done.
Qed.

Lemma CompactToBig_parts m e : 0 <= m < 2 ^ 23 -> 0 <= e ->
  CompactToBig (e * 2 ^ 24 + m) =
  if e <=? 3 then m / 256 ^ (3 - e) else m * 256 ^ (e - 3).
Proof.
  intros Hm He. unfold CompactToBig.
  assert (Hlow : forall k, 0 <= k <= 24 -> (e * 2 ^ 24 + m) mod 2 ^ k = m mod 2 ^ k).
  { intros k Hk. replace 24 with (24 - k + k) by lia. rewrite Z.pow_add_r, Z.mul_assoc by lia.
    rewrite Z.add_comm, Z.mod_add; [done|]. apply Z.pow_nonzero; lia. }
  change 0x007fffff with (Z.ones 23). rewrite Z.land_ones, Hlow, (Z.mod_small m) by lia.
  assert (Hs : Z.land (e * 2 ^ 24 + m) 0x00800000 = Z.land m 0x00800000).
  { change 0x00800000 with (2 ^ 23). apply Z.bits_inj'. intros i Hi. rewrite !Z.land_spec, Z.pow2_bits_eqb by lia.
    destruct (Z.eqb_spec 23 i); [subst i|by rewrite !andb_false_r].
    rewrite <- (Z.mod_pow2_bits_low (e * 2 ^ 24 + m) 24), Hlow, Z.mod_pow2_bits_low by lia. done. }
  rewrite Hs, sign_bit, (proj2 (Z.ltb_lt m _)) by lia. cbn [negb].
  assert (Hx : Z.shiftr (e * 2 ^ 24 + m) 24 = e).
  { rewrite Z.shiftr_div_pow2, Z.div_add_l, Z.div_small by lia. lia. }
  rewrite Hx. destruct (Z.leb_spec e 3); [apply shiftr_256; lia|apply shiftl_256; lia].
Qed.

Lemma exponent_range n m e :
  2 ^ 15 <= m < 2 ^ 23 -> 4 <= e -> m = n / 256 ^ (e - 3) ->
  2 ^ 15 * 256 ^ (e - 3) <= n < 2 ^ 23 * 256 ^ (e - 3).
Proof.
  intros Hm He ->. assert (Hp : 0 < 256 ^ (e - 3)) by (apply Z.pow_pos_nonneg; lia).
  pose proof (Z.mul_div_le n _ Hp). pose proof (Z.mul_succ_div_gt n _ Hp). nia.
Qed.

Lemma exponent_unique n a b :
  4 <= a -> 4 <= b -> 2 ^ 15 * 256 ^ (a - 3) <= n -> n < 2 ^ 23 * 256 ^ (b - 3) -> a <= b.
Proof.
  intros Ha Hb H1 H2. destruct (Z.le_gt_cases a b); [done|].
  assert (Hp : 256 * 256 ^ (b - 3) <= 256 ^ (a - 3)).
  { rewrite <- (Z.pow_succ_r 256) by lia. apply Z.pow_le_mono_r; lia. }
  lia.
Qed.

Lemma big_byte_len_mono a b : 0 < a <= b -> big_byte_len a <= big_byte_len b.
Proof.
  intros Hab. unfold big_byte_len. rewrite !(proj2 (Z.eqb_neq _ 0)), !Z.abs_eq by lia.
  apply Z.add_le_mono_r, Z.div_le_mono; [lia|]. apply Z.log2_le_mono; lia.
Qed.

Lemma compact_form n :
  0 < n < 2 ^ 2016 ->
  let t := CompactToBig (BigToCompact n) in
  0 < t <= n /\ (n - t) * 2 ^ 15 < n /\ BigToCompact t = BigToCompact n /\
  0 <= BigToCompact n < 2 ^ 32.
Proof.
  intros [Hn Hmax]. assert (Hl : big_byte_len n <= 252).
  { destruct (big_byte_len_lower n Hn) as [He Hlo]. destruct (Z.le_gt_cases (big_byte_len n) 252); [done|].
    exfalso. assert (256 ^ 252 <= 256 ^ (big_byte_len n - 1)) by (apply Z.pow_le_mono_r; lia).
    change (256 ^ 252) with (2 ^ 2016) in *. lia. }
  clear Hmax.
  destruct (BigToCompact_parts n Hn Hl) as (m & e & Hc & Hm & He & Hcase). cbv zeta.
  rewrite Hc, CompactToBig_parts by lia. destruct Hcase as [[H3 Hm']|[H4 Hm']].
  - rewrite (proj2 (Z.leb_le e 3)) by lia. assert (Hp : 0 < 256 ^ (3 - e)) by (apply Z.pow_pos_nonneg; lia).
    rewrite Hm', Z.div_mul by lia. rewrite Hc, <- Hm'. lia.
  - rewrite (proj2 (Z.leb_gt e 3)) by lia. pose proof (exponent_range _ _ _ Hm H4 Hm') as Hr.
    assert (Hp : 0 < 256 ^ (e - 3)) by (apply Z.pow_pos_nonneg; lia). set (p := 256 ^ (e - 3)) in *.
    pose proof (Z.mul_div_le n p Hp). pose proof (Z.mul_succ_div_gt n p Hp).
    assert (Ht : 0 < m * p <= n) by nia. split; [done|]. split; [nia|]. split; [|lia].
    destruct (BigToCompact_parts (m * p)) as (m2 & e2 & Hc2 & Hm2 & He2 & Hcase2);
      [lia|pose proof (big_byte_len_mono (m * p) n Ht); lia|].
    rewrite Hc2. destruct Hcase2 as [[H32 Hm2']|[H42 Hm2']].
    + exfalso. assert (1 <= 256 ^ (3 - e2)) by (assert (0 < 256 ^ (3 - e2)) by (apply Z.pow_pos_nonneg; lia); lia).
      assert (256 ^ 1 <= p) by (apply Z.pow_le_mono_r; lia). nia.
    + pose proof (exponent_range _ _ _ Hm2 H42 Hm2') as Hr2.
      assert (e2 = e) as ->.
      { assert (Hmp : 2 ^ 15 * p <= m * p < 2 ^ 23 * p).
        { split; [apply Z.mul_le_mono_pos_r|apply Z.mul_lt_mono_pos_r]; lia. }
        apply Z.le_antisymm; [apply (exponent_unique (m * p) e2 e)|apply (exponent_unique (m * p) e e2)];
          first [done|apply Hmp|apply Hr2]. }
      fold p in Hm2'. rewrite Z.div_mul in Hm2' by lia. lia.
Qed.

(** The compact form of a target is the target with all but its leading 16 to
    23 bits cleared: it is positive, not above the target, within one part in
    2^15 of it, and its own compact form is the same bits. *)
Theorem compact_truncates n :
  0 < n < 2 ^ 2016 ->
  let t := CompactToBig (BigToCompact n) in
  0 < t <= n /\ (n - t) * 2 ^ 15 < n /\ BigToCompact t = BigToCompact n /\
  0 <= BigToCompact n < 2 ^ 32.
Proof. apply compact_form. Qed.

Lemma compact_truncates_witness :
  let t := CompactToBig (BigToCompact (2 ^ 255 + 12345)) in
  0 < t <= 2 ^ 255 + 12345 /\ (2 ^ 255 + 12345 - t) * 2 ^ 15 < 2 ^ 255 + 12345 /\
  BigToCompact t = BigToCompact (2 ^ 255 + 12345) /\ 0 <= BigToCompact (2 ^ 255 + 12345) < 2 ^ 32.
Proof. apply (compact_truncates (2 ^ 255 + 12345)). split; vm_compute; reflexivity. Defined.

(** A target below 2^256 has positive work. *)
Lemma CalcWork_pos bits : 0 < CompactToBig bits < 2 ^ 256 -> 0 < CalcWork bits.
Proof.
  intros Ht. unfold CalcWork. rewrite (proj2 (Z.leb_gt _ 0)) by lia.
  apply Z.div_str_pos. change oneLsh256 with (2 ^ 256). lia.
Qed.

Lemma CalcWork_nonneg bits : 0 <= CalcWork bits.
Proof.
  unfold CalcWork. case_if; [done|]. apply Z.div_pos; [done|lia].
Qed.

(** * The window's earliest block *)

Lemma ghostdagLess_irrefl a : ghostdagLess a a = false.
Proof. unfold ghostdagLess. rewrite Z.compare_refl. apply hash_Less_irrefl. Qed.

Lemma ghostdagLess_trans a b c :
  ghostdagLess a b = true -> ghostdagLess b c = true -> ghostdagLess a c = true.
Proof.
  unfold ghostdagLess. destruct (Z.compare_spec (db_blueWork a) (db_blueWork b)) as [E1|H1|H1]; try done;
    destruct (Z.compare_spec (db_blueWork b) (db_blueWork c)) as [E2|H2|H2]; try done.
  - rewrite E1, E2, Z.compare_refl. apply hash_Less_trans.
  - by rewrite E1, (proj2 (Z.compare_lt_iff _ _) H2).
  - by rewrite <- E2, (proj2 (Z.compare_lt_iff _ _) H1).
  - by rewrite (proj2 (Z.compare_lt_iff _ _) (Z.lt_trans _ _ _ H1 H2)).
Qed.

Lemma ghostdagLess_total a b :
  db_hash a <> db_hash b -> ghostdagLess a b = false -> ghostdagLess b a = true.
Proof.
  unfold ghostdagLess. intros Hne. rewrite (Z.compare_antisym (db_blueWork a)).
  destruct (db_blueWork a ?= db_blueWork b); simpl; try done.
  rewrite (hash_Less_total _ _ Hne). by destruct (hash_Less (db_hash b) (db_hash a)).
Qed.

(** The order [minMaxTimestamps] minimises. *)
Definition before (a b : difficultyBlock) : Prop :=
  timeInMilliseconds a < timeInMilliseconds b \/
  timeInMilliseconds a = timeInMilliseconds b /\ ghostdagLess a b = true.

Definition earliest (b : difficultyBlock) (l : list difficultyBlock) : Prop :=
  b ∈ l /\ forall x, x ∈ l -> x = b \/ before b x.

Lemma before_trans a b c : before a b -> before b c -> before a c.
Proof.
  intros [H1|[E1 H1]] [H2|[E2 H2]]; try (left; lia). right. split; [lia|]. by eapply ghostdagLess_trans.
Qed.

Lemma before_irrefl a : ~ before a a.
Proof. intros [H|[_ H]]; [lia|]. by rewrite ghostdagLess_irrefl in H. Qed.

Lemma earliest_unique a b l1 l2 :
  l1 ≡ₚ l2 -> earliest a l1 -> earliest b l2 -> a = b.
Proof.
  intros Hp [Ha Ha'] [Hb Hb']. destruct (Ha' b) as [|H1]; [by rewrite Hp|done|].
  destruct (Hb' a) as [|H2]; [by rewrite <- Hp|done|]. by destruct (before_irrefl a); eapply before_trans.
Qed.

Lemma earliest_snoc b l x :
  earliest b l -> db_hash x ∉ map db_hash l ->
  (earliest x (l ++ [x]) /\ before x b) \/ (earliest b (l ++ [x]) /\ ~ before x b).
Proof.
  intros [Hb Hmin] Hx. assert (Hne : db_hash x <> db_hash b).
  { intros E. apply Hx. rewrite E. by apply (list_elem_of_fmap_2 db_hash). }
  assert (Hd : before x b \/ ~ before x b /\ before b x).
  { unfold before. destruct (Z.lt_trichotomy (timeInMilliseconds x) (timeInMilliseconds b)) as [|[E|]]; [auto| |right; split; [lia|auto]].
    destruct (ghostdagLess x b) eqn:G; [auto|]. right.
    split; [intros [?|[_ ?]]; [lia|congruence]|]. right. split; [done|]. by apply ghostdagLess_total in G. }
  destruct Hd as [Hd|[Hn Hd]].
  - left. split; [|done]. split; [set_solver|]. intros y [Hy|Hy]%elem_of_app;
      [|left; by apply list_elem_of_singleton in Hy].
    right. destruct (Hmin y Hy) as [->|]; [done|]. by eapply before_trans.
  - right. split; [|done]. split; [set_solver|]. intros y [Hy|Hy]%elem_of_app; [auto|].
    apply list_elem_of_singleton in Hy as ->. auto.
Qed.

Definition latest (l : list difficultyBlock) : Z := foldl Z.max 0 (map timeInMilliseconds l).

Lemma latest_snoc l x : latest (l ++ [x]) = Z.max (latest l) (timeInMilliseconds x).
Proof. unfold latest. by rewrite map_app, foldl_app. Qed.

(** What [minMax_loop] holds after a prefix of the window. *)
Definition minMax_inv (window pre : list difficultyBlock) (min max minIndex : Z) : Prop :=
  max = latest pre /\
  (pre = [] /\ min = 2 ^ 63 - 1 /\ minIndex = 0 \/
   exists b, lookupZ window minIndex = Some b /\ min = timeInMilliseconds b /\ earliest b pre).

(** The test of the loop's first condition. *)
Definition replaces {E} (window : list difficultyBlock) (x : difficultyBlock) (min minIndex : Z) : res E bool :=
  if timeInMilliseconds x <? min then Ok true
  else if timeInMilliseconds x =? min then
    let? current := index_res window minIndex in Ok (ghostdagLess x current)
  else Ok false.

Lemma replaces_before {E} window x b minIndex :
  lookupZ window minIndex = Some b ->
  exists r, replaces (E := E) window x (timeInMilliseconds b) minIndex = Ok r /\ (r = true <-> before x b).
Proof.
  intros Hb. unfold replaces, before, index_res. rewrite Hb. cbn [bind_res].
  destruct (Z.ltb_spec (timeInMilliseconds x) (timeInMilliseconds b)); [exists true; split; [done|tauto]|].
  destruct (Z.eqb_spec (timeInMilliseconds x) (timeInMilliseconds b)).
  - eexists. split; [done|]. split; [by right|intros [?|[_ ?]]; [lia|done]].
  - exists false. split; [done|]. split; [done|intros [?|[? _]]; lia].
Qed.

Lemma minMax_step {E} window pre rest x min max minIndex :
  window = pre ++ x :: rest -> NoDup (map db_hash window) ->
  timeInMilliseconds x < 2 ^ 63 -> minMax_inv window pre min max minIndex ->
  exists r, replaces (E := E) window x min minIndex = Ok r /\
    minMax_inv window (pre ++ [x]) (if r : bool then timeInMilliseconds x else min)
      (if timeInMilliseconds x >? max then timeInMilliseconds x else max)
      (if r then zlen pre else minIndex).
Proof.
  intros Hw Hnd Ht [Hmax Hmin].
  assert (Hx : lookupZ window (zlen pre) = Some x) by (subst window; by apply lookupZ_app_r).
  assert (Hmax' : (if timeInMilliseconds x >? max then timeInMilliseconds x else max) = latest (pre ++ [x])).
  { rewrite latest_snoc, <- Hmax. destruct (Z.gtb_spec (timeInMilliseconds x) max); lia. }
  rewrite Hmax'. destruct Hmin as [(-> & -> & ->)|(b & Hb & -> & He)].
  - assert (Hself : earliest x ([] ++ [x])).
    { split; [set_solver|]. intros y Hy. apply list_elem_of_singleton in Hy. auto. }
    unfold replaces, index_res. change (lookupZ window 0 = Some x) in Hx. rewrite Hx. cbn [bind_res].
    rewrite ghostdagLess_irrefl. destruct (Z.ltb_spec (timeInMilliseconds x) (2 ^ 63 - 1)).
    + exists true. split; [done|]. split; [done|]. right. by exists x.
    + rewrite (proj2 (Z.eqb_eq _ _)) by lia. exists false. split; [done|]. split; [done|]. right. exists x.
      split; [done|]. split; [lia|done].
  - destruct (replaces_before (E := E) window x b minIndex Hb) as (r & Hr & Hiff).
    exists r. split; [done|]. split; [done|]. right.
    assert (Hfresh : db_hash x ∉ map db_hash pre).
    { subst window. rewrite map_app, NoDup_app in Hnd. destruct Hnd as (_ & Hd & _). intros Hin.
      apply (Hd _ Hin). simpl. left. }
    destruct (earliest_snoc b pre x He Hfresh) as [[He' Hbf]|[He' Hbf]].
    + rewrite (proj2 Hiff Hbf). by exists x.
    + destruct r; [by destruct Hbf; apply Hiff|]. by exists b.
Qed.

Lemma minMax_loop_spec {E} window rest : forall pre min max minIndex,
  window = pre ++ rest -> NoDup (map db_hash window) ->
  Forall (fun b => timeInMilliseconds b < 2 ^ 63) window ->
  minMax_inv window pre min max minIndex ->
  exists min' max' minIndex', minMax_loop (E := E) window rest (zlen pre) min max minIndex =
    Ok (min', max', minIndex') /\ minMax_inv window window min' max' minIndex'.
Proof.
  induction rest as [|x rest IH]; intros pre min max minIndex Hw Hnd Ht Hinv.
  - rewrite app_nil_r in Hw. subst window. by exists min, max, minIndex.
  - assert (Htx : timeInMilliseconds x < 2 ^ 63).
    { rewrite Forall_forall in Ht. apply Ht. subst window. set_solver. }
    destruct (minMax_step (E := E) _ _ _ _ _ _ _ Hw Hnd Htx Hinv) as (r & Hr & Hinv').
    cbn [minMax_loop]. fold (replaces (E := E) window x min minIndex). rewrite Hr. cbn [bind_res].
    assert (Hz : zlen pre + 1 = zlen (pre ++ [x])) by zlia.
    apply IH in Hinv'; [|by rewrite <- app_assoc|done|done]. rewrite <- Hz in Hinv'.
    by destruct r.
Qed.

Lemma minMaxTimestamps_spec {E} window :
  window <> [] -> NoDup (map db_hash window) ->
  Forall (fun b => timeInMilliseconds b < 2 ^ 63) window ->
  exists b i, minMaxTimestamps (E := E) window = Ok (timeInMilliseconds b, latest window, i) /\
    lookupZ window i = Some b /\ earliest b window.
Proof.
  intros Hne Hnd Ht. destruct (minMax_loop_spec (E := E) window window [] (2 ^ 63 - 1) 0 0)
    as (min & max & i & Hl & [-> Hinv]); [done..|by split; [|left]|].
  destruct Hinv as [[? _]|(b & Hb & -> & He)]; [done|]. by exists b, i.
Qed.

Lemma window_remove_spec {E} window i b :
  lookupZ window i = Some b ->
  exists rest, window_remove (E := E) window i = Ok rest /\ b :: rest ≡ₚ window.
Proof.
  intros Hb. pose proof (lookupZ_Some_range _ _ _ Hb) as Hr. unfold window_remove, index_res. rewrite Hb.
  destruct window as [|y l _] using rev_ind; [unfold zlen in Hr; simpl in Hr; lia|].
  assert (Hlast : lookupZ (l ++ [y]) (zlen (l ++ [y]) - 1) = Some y) by (apply lookupZ_app_r; zlia).
  rewrite Hlast. cbn [bind_res]. eexists. split; [done|]. rewrite zlen_app in Hr.
  rewrite length_app, Nat.add_sub. unfold lookupZ in Hb. rewrite (proj2 (Z.leb_le 0 i)) in Hb by lia.
  destruct (decide (Z.to_nat i < length l)%nat) as [Hi|Hi].
  - rewrite lookup_app_l in Hb by done. rewrite insert_app_l by done.
    rewrite take_app_length' by (by rewrite length_insert). rewrite insert_take_drop by done.
    rewrite <- (take_drop_middle _ _ _ Hb) at 3. solve_Permutation.
  - rewrite lookup_app_r in Hb by lia. destruct (Z.to_nat i - length l)%nat eqn:Hz; [|done].
    simpl in Hb. injection Hb as ->. rewrite insert_app_r_alt by lia. rewrite Hz. simpl.
    rewrite take_app_length. solve_Permutation.
Qed.

(** * The required difficulty *)

#[global] Instance zlen_Permutation {A} : Proper ((≡ₚ) ==> eq) (@zlen A).
Proof. intros l1 l2 Hp. unfold zlen. by rewrite Hp. Qed.

#[global] Instance sumZ_Permutation {A} (f : A -> Z) : Proper ((≡ₚ) ==> eq) (sumZ f).
Proof. intros l1 l2. induction 1; simpl; lia. Qed.

Lemma foldl_sumZ {A} (f : A -> Z) l a : foldl (fun s x => s + f x) a l = a + sumZ f l.
Proof. revert a. induction l as [|x l IH]; intros a; simpl; [lia|]. rewrite IH. lia. Qed.

(** The target that is compared with [powMax], for the earliest block [b] and
    the others. *)
Definition new_target (dm : difficultyManager) (b : difficultyBlock)
    (window rest : list difficultyBlock) : Z :=
  sumZ (fun x => CompactToBig (db_Bits x)) rest / zlen rest *
    Z.max (int64 (latest window - timeInMilliseconds b)) 1 /
    Milliseconds (targetTimePerBlock dm) / zlen rest.

Definition full_window (dm : difficultyManager) (window : list difficultyBlock) : bool :=
  negb (disableDifficultyAdjustment dm) &&
  negb ((zlen window <? 2) || (zlen window <? difficultyAdjustmentWindowSize dm)).

Lemma required_full {E} dm window :
  full_window dm window = true -> NoDup (map db_hash window) ->
  Forall (fun b => timeInMilliseconds b < 2 ^ 63) window ->
  0 < Milliseconds (targetTimePerBlock dm) ->
  exists b rest, earliest b window /\ b :: rest ≡ₚ window /\
    requiredDifficultyFromTargetsWindow (E := E) dm window =
    Ok (BigToCompact (Z.min (powMax dm) (new_target dm b window rest))).
Proof.
  intros Hf Hnd Ht Hms. unfold full_window in Hf. apply andb_prop in Hf as [Hd Hl].
  unfold requiredDifficultyFromTargetsWindow. destruct (disableDifficultyAdjustment dm); [done|].
  destruct ((zlen window <? 2) || _) eqn:Hshort; [done|]. apply orb_false_iff in Hshort as [H2 _].
  apply Z.ltb_ge in H2.
  destruct (minMaxTimestamps_spec (E := E) window) as (b & i & -> & Hb & He); [intros ->; unfold zlen in H2; simpl in H2; lia|done..|].
  cbn [bind_res]. destruct (window_remove_spec (E := E) window i b Hb) as (rest & -> & Hp).
  cbn [bind_res]. exists b, rest. split; [done|]. split; [done|].
  assert (Hlen : zlen window = zlen rest + 1) by (unfold zlen; rewrite <- Hp; simpl; lia).
  unfold averageTarget, big_Div. rewrite foldl_sumZ, Z.add_0_l.
  rewrite !(proj2 (Z.eqb_neq _ 0)) by lia. cbn [bind_res]. fold (new_target dm b window rest).
  destruct (Z.gtb_spec (new_target dm b window rest) (powMax dm)); do 2 f_equal; lia.
Qed.

#[local] Instance latest_Permutation : Proper ((≡ₚ) ==> eq) latest.
Proof.
  intros l1 l2 Hp. unfold latest. generalize 0.
  induction Hp as [| |x y l|]; intros a; simpl; auto.
  - f_equal. lia.
  - etrans; eauto.
Qed.

Lemma new_target_nonneg dm b window rest :
  Forall (fun x => 0 <= CompactToBig (db_Bits x)) rest -> 0 < Milliseconds (targetTimePerBlock dm) ->
  0 <= new_target dm b window rest.
Proof.
  intros Hb Hms. apply (sumZ_nonneg (fun x => CompactToBig (db_Bits x))) in Hb.
  assert (Hd : forall a b, 0 <= a -> 0 <= b -> 0 <= a / b).
  { intros x y Hx Hy. destruct (decide (y = 0)) as [->|]; [by rewrite Z.div_0_r|]. apply Z.div_pos; lia. }
  unfold new_target. pose proof (zlen_nonneg rest).
  repeat first [apply Hd | apply Z.mul_nonneg_nonneg]; lia.
Qed.

#[local] Instance full_window_Permutation dm : Proper ((≡ₚ) ==> eq) (full_window dm).
Proof. intros w1 w2 Hp. unfold full_window. by rewrite Hp. Qed.

Lemma required_short {E} dm window :
  full_window dm window = false ->
  requiredDifficultyFromTargetsWindow (E := E) dm window = Ok (genesisBits dm).
Proof.
  unfold full_window, requiredDifficultyFromTargetsWindow. destruct (disableDifficultyAdjustment dm); [done|].
  by destruct ((zlen window <? 2) || _).
Qed.

Lemma compact_at_most n p : 0 <= n <= p -> p < 2 ^ 2016 -> 0 <= CompactToBig (BigToCompact n) <= p.
Proof.
  intros Hn Hp. destruct (decide (n = 0)) as [->|]; [change (CompactToBig (BigToCompact 0)) with 0; lia|].
  destruct (compact_form n) as ([? ?] & _); lia.
Qed.

Lemma required_permutation {E} dm w1 w2 :
  w1 ≡ₚ w2 -> NoDup (map db_hash w1) ->
  Forall (fun b => timeInMilliseconds b < 2 ^ 63) w1 ->
  Forall (fun b => 0 < CompactToBig (db_Bits b)) w1 ->
  0 < Milliseconds (targetTimePerBlock dm) -> 0 < powMax dm < 2 ^ 2016 ->
  requiredDifficultyFromTargetsWindow (E := E) dm w1 = requiredDifficultyFromTargetsWindow dm w2 /\
  exists bits, requiredDifficultyFromTargetsWindow (E := E) dm w1 = Ok bits /\
    (bits = genesisBits dm \/ 0 <= CompactToBig bits <= powMax dm).
Proof.
  intros Hp Hnd Ht Hpos Hms Hmax.
  destruct (full_window dm w1) eqn:Hf.
  2: { rewrite !required_short by (by rewrite <- ?Hp). eauto. }
  assert (Hf2 : full_window dm w2 = true) by (by rewrite <- Hp).
  destruct (required_full (E := E) dm w1) as (b1 & r1 & He1 & Hp1 & ->); [done..|].
  destruct (required_full (E := E) dm w2) as (b2 & r2 & He2 & Hp2 & ->);
    [done|by rewrite <- (Permutation_map db_hash Hp)|by rewrite <- Hp|done|].
  assert (b2 = b1) as -> by (symmetry; exact (earliest_unique b1 b2 w1 w2 Hp He1 He2)).
  assert (Hr : r1 ≡ₚ r2) by (apply (Permutation_cons_inv (a := b1)); by rewrite Hp1, Hp2).
  assert (Hn : new_target dm b1 w2 r2 = new_target dm b1 w1 r1).
  { unfold new_target. by rewrite Hr, Hp. }
  rewrite Hn. split; [done|]. eexists. split; [done|]. right. apply compact_at_most; [|lia].
  assert (0 <= new_target dm b1 w1 r1); [|lia]. apply new_target_nonneg; [|done].
  rewrite <- Hp1, Forall_cons in Hpos. eapply Forall_impl; [apply Hpos|]. simpl. lia.
Qed.

(** The difficulty a block must meet does not depend on the order in which its
    window is listed: nodes that traverse the window differently agree on it.
    For windows with the same blocks, pairwise different, and positive targets,
    the result is the same, is never a panic, and unless it is the genesis
    difficulty its target is not above [powMax]. *)
Theorem required_difficulty_consensus {E} dm w1 w2 :
  w1 ≡ₚ w2 -> NoDup (map db_hash w1) ->
  Forall (fun b => timeInMilliseconds b < 2 ^ 63) w1 ->
  Forall (fun b => 0 < CompactToBig (db_Bits b)) w1 ->
  0 < Milliseconds (targetTimePerBlock dm) -> 0 < powMax dm < 2 ^ 2016 ->
  requiredDifficultyFromTargetsWindow (E := E) dm w1 = requiredDifficultyFromTargetsWindow dm w2 /\
  exists bits, requiredDifficultyFromTargetsWindow (E := E) dm w1 = Ok bits /\
    (bits = genesisBits dm \/ 0 <= CompactToBig bits <= powMax dm).
Proof. apply required_permutation. Qed.

Definition test_difficultyManager : difficultyManager :=
  mk_difficultyManager (2 ^ 255 - 1) 3 false 1000000000 (replicate 32 0) 0x207fffff.

Definition test_window : list difficultyBlock :=
  [mk_difficultyBlock 5000 0x1e7fffff [1] 7; mk_difficultyBlock 5000 0x1e6fffff [2] 6;
   mk_difficultyBlock 9000 0x1e5fffff [3] 9].

Lemma required_difficulty_consensus_witness :
  requiredDifficultyFromTargetsWindow (E := unit) test_difficultyManager test_window =
  requiredDifficultyFromTargetsWindow test_difficultyManager (rev test_window) /\
  exists bits, requiredDifficultyFromTargetsWindow (E := unit) test_difficultyManager test_window = Ok bits /\
    (bits = 0x207fffff \/ 0 <= CompactToBig bits <= 2 ^ 255 - 1).
Proof.
  apply (required_difficulty_consensus (E := unit) test_difficultyManager test_window (rev test_window)).
  - apply Permutation_rev.
  - apply (bool_decide_unpack _). vm_compute. exact I.
  - repeat constructor.
  - repeat constructor.
  - vm_compute. reflexivity.
  - split; vm_compute; reflexivity.
Defined.
