(* ===== verification/Ghostdag.v ===== *)
(** GHOSTDAG: colouring the blocks a new block merges.
    [src/domain/consensus/processes/ghostdagmanager/ghostdag.go], [mergeset.go],
    [compare.go] and the data type of [model/externalapi/ghostdag.go].

    The manager reads three other components through the interfaces below: the
    DAG topology (parents and ancestry), the header store and the GHOSTDAG data
    store.  The data store is a map from block hash and trusted-data flag to
    data, which is what its key type is; [Stage] inserts.  Loops whose length
    depends on the DAG take fuel, and running out of it is the error
    [OutOfFuel]; [GhostdagSpec.v] shows that as much fuel as there are blocks is
    enough.

    A hash is its bytes.  The code compares the hashes [less] returns as
    pointers; that is equality of values for the hashes it is called on, which
    are pairwise different. *)

From S2P Require Import Prelude Transaction Block Difficulty.

Inductive GhostdagError : Set :=
(** an error of a store, for example a key that is not there *)
| StoreError
| AnticoneLargerThanK
| NotInBlueSet
| OutOfFuel.

(** * Data *)

Record BlockGHOSTDAGData : Set := mk_BlockGHOSTDAGData {
  BlueScore : Z;
  BlueWork : Z;
  SelectedParent : option bytes;
  MergeSetBlues : list bytes;
  MergeSetReds : list bytes;
  BluesAnticoneSizes : gmap bytes Z
}.

Abbreviation ghostdag_store := (gmap (bytes * bool) BlockGHOSTDAGData).

(** * The components GHOSTDAG calls *)

Class DAGTopologyManager := {
  Parents : bytes -> res GhostdagError (list bytes);
  IsAncestorOf : bytes -> bytes -> res GhostdagError bool
}.

Class BlockHeaderStore := {
  header_of : bytes -> res GhostdagError BlockHeader
}.

Record ghostdagManager : Set := mk_ghostdagManager {
  gm_k : Z;
  gm_genesisHash : bytes
}.

(** A key made of a nil hash is a nil dereference. *)
Definition ghostdag_Get (st : ghostdag_store) (blockHash : option bytes) (isTrustedData : bool)
    : res GhostdagError BlockGHOSTDAGData :=
  match blockHash with
  | None => Panic
  | Some h => match st !! (h, isTrustedData) with Some d => Ok d | None => Err StoreError end
  end.

Definition ghostdag_Stage (blockHash : bytes) (d : BlockGHOSTDAGData) (isTrustedData : bool)
    (st : ghostdag_store) : ghostdag_store := <[(blockHash, isTrustedData) := d]> st.

(** * compare.go *)

Definition Less (blockHashA : bytes) (ghostdagDataA : BlockGHOSTDAGData)
    (blockHashB : bytes) (ghostdagDataB : BlockGHOSTDAGData) : bool :=
  match BlueWork ghostdagDataA ?= BlueWork ghostdagDataB with
  | Lt => true
  | Gt => false
  | Eq => hash_Less blockHashA blockHashB
  end.

Section manager.
Context `{DAGTopologyManager} `{BlockHeaderStore}.
Variable gm : ghostdagManager.
Variable st : ghostdag_store.

Fixpoint choose_loop (selectedParent : bytes) (selectedParentGHOSTDAGData : BlockGHOSTDAGData)
    (blockHashes : list bytes) : res GhostdagError bytes :=
  match blockHashes with
  | [] => Ok selectedParent
  | blockHash :: rest =>
      let? blockGHOSTDAGData := ghostdag_Get st (Some blockHash) false in
      if Less selectedParent selectedParentGHOSTDAGData blockHash blockGHOSTDAGData
      then choose_loop blockHash blockGHOSTDAGData rest
      else choose_loop selectedParent selectedParentGHOSTDAGData rest
  end.

Definition ChooseSelectedParent (blockHashes : list bytes) : res GhostdagError bytes :=
  let? selectedParent := index_res blockHashes 0 in
  let? selectedParentGHOSTDAGData := ghostdag_Get st (Some selectedParent) false in
  choose_loop selectedParent selectedParentGHOSTDAGData blockHashes.

Definition less (blockHashA blockHashB : bytes) : res GhostdagError bool :=
  let? chosenSelectedParent := ChooseSelectedParent [blockHashA; blockHashB] in
  Ok (bool_decide (chosenSelectedParent = blockHashB)).

Fixpoint findSelectedParent_loop (selectedParent : option bytes) (parentHashes : list bytes)
    : res GhostdagError (option bytes) :=
  match parentHashes with
  | [] => Ok selectedParent
  | hash :: rest =>
      match selectedParent with
      | None => findSelectedParent_loop (Some hash) rest
      | Some selected =>
          let? isHashBiggerThanSelectedParent := less selected hash in
          findSelectedParent_loop (Some (if isHashBiggerThanSelectedParent : bool then hash else selected)) rest
      end
  end.

Definition findSelectedParent (parentHashes : list bytes) : res GhostdagError (option bytes) :=
  findSelectedParent_loop None parentHashes.

(** * mergeset.go *)

(** [sort.Slice] with [less]: insertion.  The order is strict and total on
    different hashes, so every sorting algorithm gives this list. *)
Fixpoint insert_by_less (x : bytes) (l : list bytes) : res GhostdagError (list bytes) :=
  match l with
  | [] => Ok [x]
  | y :: l' =>
      let? isLess := less x y in
      if isLess : bool then Ok (x :: y :: l') else
      let? r := insert_by_less x l' in
      Ok (y :: r)
  end.

Fixpoint sortMergeSet (mergeSetSlice : list bytes) : res GhostdagError (list bytes) :=
  match mergeSetSlice with
  | [] => Ok []
  | x :: rest =>
      let? sorted := sortMergeSet rest in
      insert_by_less x sorted
  end.

(** The three collections of [mergeSetWithoutSelectedParent]: the merge set as
    a set and as a slice, and the known past of the selected parent. *)
Record mergeset_state : Set := mk_mergeset_state {
  mergeSetMap : gset bytes;
  mergeSetSlice : list bytes;
  selectedParentPast : gset bytes;
  queue : list bytes
}.

Definition add_to_mergeset (x : bytes) (s : mergeset_state) : mergeset_state :=
  mk_mergeset_state ({[x]} ∪ mergeSetMap s) (mergeSetSlice s ++ [x]) (selectedParentPast s)
    (queue s ++ [x]).

Fixpoint queue_parents (selectedParent : option bytes) (blockParents : list bytes)
    (s : mergeset_state) : mergeset_state :=
  match blockParents with
  | [] => s
  | parent :: rest =>
      if hash_Equal (Some parent) selectedParent then queue_parents selectedParent rest s
      else queue_parents selectedParent rest (add_to_mergeset parent s)
  end.

Fixpoint visit_parents (selectedParent : option bytes) (currentParents : list bytes)
    (s : mergeset_state) : res GhostdagError mergeset_state :=
  match currentParents with
  | [] => Ok s
  | parent :: rest =>
      if bool_decide (parent ∈ mergeSetMap s) then visit_parents selectedParent rest s else
      if bool_decide (parent ∈ selectedParentPast s) then visit_parents selectedParent rest s else
      let? isAncestorOfSelectedParent :=
        match selectedParent with Some sp => IsAncestorOf parent sp | None => Panic end in
      if isAncestorOfSelectedParent : bool then
        visit_parents selectedParent rest
          (mk_mergeset_state (mergeSetMap s) (mergeSetSlice s) ({[parent]} ∪ selectedParentPast s) (queue s))
      else visit_parents selectedParent rest (add_to_mergeset parent s)
  end.

Fixpoint mergeset_loop (fuel : nat) (selectedParent : option bytes) (s : mergeset_state)
    : res GhostdagError (list bytes) :=
  match queue s with
  | [] => Ok (mergeSetSlice s)
  | current :: queue' =>
      match fuel with
      | O => Err OutOfFuel
      | S fuel' =>
          let? currentParents := Parents current in
          let? s' := visit_parents selectedParent currentParents
            (mk_mergeset_state (mergeSetMap s) (mergeSetSlice s) (selectedParentPast s) queue') in
          mergeset_loop fuel' selectedParent s'
      end
  end.

Definition mergeSetWithoutSelectedParent (fuel : nat) (selectedParent : option bytes)
    (blockParents : list bytes) : res GhostdagError (list bytes) :=
  let? mergeSetSlice :=
    mergeset_loop fuel selectedParent
      (queue_parents selectedParent blockParents (mk_mergeset_state ∅ [] ∅ [])) in
  sortMergeSet mergeSetSlice.

Fixpoint merge_colours (fuel : nat) (blueMergeSet redMergeSet : list bytes)
    : res GhostdagError (list bytes) :=
  match blueMergeSet, redMergeSet with
  | currentBlue :: blues', currentRed :: reds' =>
      match fuel with
      | O => Err OutOfFuel
      | S fuel' =>
          let? currentBlueGhostdagData := ghostdag_Get st (Some currentBlue) false in
          let? currentRedGhostdagData := ghostdag_Get st (Some currentRed) false in
          if Less currentBlue currentBlueGhostdagData currentRed currentRedGhostdagData then
            let? rest := merge_colours fuel' blues' redMergeSet in Ok (currentBlue :: rest)
          else
            let? rest := merge_colours fuel' blueMergeSet reds' in Ok (currentRed :: rest)
      end
  | _, _ => Ok (blueMergeSet ++ redMergeSet)
  end.

Definition GetSortedMergeSet (current : bytes) : res GhostdagError (list bytes) :=
  let? currentGhostdagData := ghostdag_Get st (Some current) false in
  let blueMergeSet := MergeSetBlues currentGhostdagData in
  let redMergeSet := MergeSetReds currentGhostdagData in
  match blueMergeSet with
  | [] => Ok []
  | selectedParent :: blueMergeSet =>
      let? rest := merge_colours (length blueMergeSet + length redMergeSet) blueMergeSet redMergeSet in
      Ok (selectedParent :: rest)
  end.

(** * ghostdag.go *)

(** One iteration of the loop of [blueAnticoneSize] per unit of fuel. *)
Fixpoint blueAnticoneSize_loop (fuel : nat) (block : bytes) (current : BlockGHOSTDAGData)
    (isTrustedData : bool) : res GhostdagError Z :=
  match fuel with
  | O => Err OutOfFuel
  | S fuel' =>
      match BluesAnticoneSizes current !! block with
      | Some blueAnticoneSize => Ok blueAnticoneSize
      | None =>
          if hash_Equal (SelectedParent current) (Some (gm_genesisHash gm)) then Err NotInBlueSet else
          let? current := ghostdag_Get st (SelectedParent current) isTrustedData in
          if hash_Equal (SelectedParent current) (Some VirtualGenesisBlockHash) then
            let? current := ghostdag_Get st (SelectedParent current) true in
            blueAnticoneSize_loop fuel' block current true
          else blueAnticoneSize_loop fuel' block current isTrustedData
      end
  end.

Definition blueAnticoneSize (fuel : nat) (block : bytes) (context : BlockGHOSTDAGData)
    : res GhostdagError Z :=
  blueAnticoneSize_loop fuel block context false.

(** The counters [checkBlueCandidate] passes by reference. *)
Record candidate_counters : Set := mk_candidate_counters {
  candidateBluesAnticoneSizes : gmap bytes Z;
  candidateAnticoneSize : Z
}.

(** The loop over the blues of a chain block: whether a violation was found. *)
Fixpoint check_blues (fuel : nat) (newBlockData : BlockGHOSTDAGData) (blueCandidate : bytes)
    (blues : list bytes) (c : candidate_counters) : res GhostdagError (bool * candidate_counters) :=
  match blues with
  | [] => Ok (false, c)
  | block :: rest =>
      let? isAncestorOfBlueCandidate := IsAncestorOf block blueCandidate in
      if isAncestorOfBlueCandidate : bool then check_blues fuel newBlockData blueCandidate rest c else
      let? size := blueAnticoneSize fuel block newBlockData in
      let c := mk_candidate_counters (<[block := size]> (candidateBluesAnticoneSizes c))
                 (uint8 (candidateAnticoneSize c + 1)) in
      if candidateAnticoneSize c >? gm_k gm then Ok (true, c) else
      if size =? gm_k gm then Ok (true, c) else
      if size >? gm_k gm then Err AnticoneLargerThanK else
      check_blues fuel newBlockData blueCandidate rest c
  end.

(** A chain block: its hash, nil for the new block, and its data. *)
Definition checkBlueCandidateWithChainBlock (fuel : nat) (newBlockData : BlockGHOSTDAGData)
    (chainBlock : option bytes * BlockGHOSTDAGData) (blueCandidate : bytes) (c : candidate_counters)
    : res GhostdagError (bool * bool * candidate_counters) :=
  let? isAncestorOfBlueCandidate :=
    match fst chainBlock with
    | Some hash => IsAncestorOf hash blueCandidate
    | None => Ok false
    end in
  if isAncestorOfBlueCandidate : bool then Ok (true, false, c) else
  let? r := check_blues fuel newBlockData blueCandidate (MergeSetBlues (snd chainBlock)) c in
  Ok (false, fst r, snd r).

(** [None]: red.  [Some]: blue, with the counters. *)
Fixpoint checkBlueCandidate_loop (fuel : nat) (walk : nat) (newBlockData : BlockGHOSTDAGData)
    (chainBlock : option bytes * BlockGHOSTDAGData) (blueCandidate : bytes) (c : candidate_counters)
    : res GhostdagError (option candidate_counters) :=
  match walk with
  | O => Err OutOfFuel
  | S walk' =>
      let? r := checkBlueCandidateWithChainBlock fuel newBlockData chainBlock blueCandidate c in
      let '(isBlue, isRed, c) := r in
      if isBlue : bool then Ok (Some c) else
      if isRed : bool then Ok None else
      let? selectedParentGHOSTDAGData := ghostdag_Get st (SelectedParent (snd chainBlock)) false in
      checkBlueCandidate_loop fuel walk' newBlockData
        (SelectedParent (snd chainBlock), selectedParentGHOSTDAGData) blueCandidate c
  end.

Definition checkBlueCandidate (fuel : nat) (newBlockData : BlockGHOSTDAGData) (blueCandidate : bytes)
    : res GhostdagError (option candidate_counters) :=
  if uint8 (zlen (MergeSetBlues newBlockData)) =? uint8 (gm_k gm + 1) then Ok None else
  checkBlueCandidate_loop fuel fuel newBlockData (None, newBlockData) blueCandidate
    (mk_candidate_counters ∅ 0).

Definition set_blue (blueCandidate : bytes) (c : candidate_counters) (d : BlockGHOSTDAGData)
    : BlockGHOSTDAGData :=
  mk_BlockGHOSTDAGData (BlueScore d) (BlueWork d) (SelectedParent d)
    (MergeSetBlues d ++ [blueCandidate]) (MergeSetReds d)
    (((fun blueAnticoneSize => uint8 (blueAnticoneSize + 1)) <$> candidateBluesAnticoneSizes c) ∪
     <[blueCandidate := candidateAnticoneSize c]> (BluesAnticoneSizes d)).

Definition set_red (blueCandidate : bytes) (d : BlockGHOSTDAGData) : BlockGHOSTDAGData :=
  mk_BlockGHOSTDAGData (BlueScore d) (BlueWork d) (SelectedParent d)
    (MergeSetBlues d) (MergeSetReds d ++ [blueCandidate]) (BluesAnticoneSizes d).

Fixpoint colour_loop (fuel : nat) (candidates : list bytes) (newBlockData : BlockGHOSTDAGData)
    : res GhostdagError BlockGHOSTDAGData :=
  match candidates with
  | [] => Ok newBlockData
  | blueCandidate :: rest =>
      let? r := checkBlueCandidate fuel newBlockData blueCandidate in
      match r with
      | Some c => colour_loop fuel rest (set_blue blueCandidate c newBlockData)
      | None => colour_loop fuel rest (set_red blueCandidate newBlockData)
      end
  end.

Fixpoint add_work (blues : list bytes) (blueWork : Z) : res GhostdagError Z :=
  match blues with
  | [] => Ok blueWork
  | blue :: rest =>
      if hash_Equal (Some blue) (Some VirtualGenesisBlockHash) then add_work rest blueWork else
      let? header := header_of blue in
      add_work rest (blueWork + CalcWork (hdr_Bits header))
  end.

Definition set_scores (score work : Z) (d : BlockGHOSTDAGData) : BlockGHOSTDAGData :=
  mk_BlockGHOSTDAGData score work (SelectedParent d) (MergeSetBlues d) (MergeSetReds d)
    (BluesAnticoneSizes d).

(** The data of a block, before it is staged. *)
Definition ghostdag_data (fuel : nat) (blockHash : bytes) : res GhostdagError BlockGHOSTDAGData :=
  let? blockParents := Parents blockHash in
  let isGenesis := match blockParents with [] => true | _ => false end in
  let? newBlockData :=
    if isGenesis then Ok (mk_BlockGHOSTDAGData 0 0 None [] [] ∅) else
    let? selectedParent := findSelectedParent blockParents in
    match selectedParent with
    | None => Panic
    | Some sp => Ok (mk_BlockGHOSTDAGData 0 0 (Some sp) [sp] [] {[sp := 0]})
    end in
  let? candidates :=
    mergeSetWithoutSelectedParent fuel (SelectedParent newBlockData) blockParents in
  let? newBlockData := colour_loop fuel candidates newBlockData in
  if isGenesis then Ok (set_scores 0 0 newBlockData) else
  let? selectedParentGHOSTDAGData := ghostdag_Get st (SelectedParent newBlockData) false in
  let? blueWork := add_work (MergeSetBlues newBlockData) (BlueWork selectedParentGHOSTDAGData) in
  Ok (set_scores
        (uint64 (BlueScore selectedParentGHOSTDAGData + uint64 (zlen (MergeSetBlues newBlockData))))
        blueWork newBlockData).

End manager.

Definition GHOSTDAG `{DAGTopologyManager} `{BlockHeaderStore} (gm : ghostdagManager) (fuel : nat)
    (blockHash : bytes) : M GhostdagError ghostdag_store unit :=
  let* st := get in
  let* newBlockData := lift (ghostdag_data gm st fuel blockHash) in
  modify (ghostdag_Stage blockHash newBlockData false).
