(* ===== verification/GhostdagMergeSet.v ===== *)
(** What GHOSTDAG selects and merges: the order of blocks, the selected parent,
    and the merge set as the search of [mergeset.go] finds it. *)

From Stdlib Require Import Sorted.
From S2P Require Import Prelude Transaction Block Difficulty Ghostdag.

(** * The order of blocks *)

Definition as_block (h : bytes) (d : BlockGHOSTDAGData) : difficultyBlock :=
  mk_difficultyBlock 0 0 h (BlueWork d).

Lemma Less_ghostdagLess a da b db : Less a da b db = ghostdagLess (as_block a da) (as_block b db).
Proof. done. Qed.

Lemma Less_trans a da b db c dc : Less a da b db = true -> Less b db c dc = true -> Less a da c dc = true.
Proof. rewrite !Less_ghostdagLess. apply ghostdagLess_trans. Qed.

Lemma Less_irrefl a d : Less a d a d = false.
Proof. rewrite !Less_ghostdagLess. apply ghostdagLess_irrefl. Qed.

Lemma Less_total a da b db : a <> b -> Less a da b db = false -> Less b db a da = true.
Proof. rewrite !Less_ghostdagLess. apply (ghostdagLess_total (as_block a da) (as_block b db)). Qed.

Lemma Less_work a da b db : Less a da b db = true -> BlueWork da <= BlueWork db.
Proof. unfold Less. destruct (Z.compare_spec (BlueWork da) (BlueWork db)); [lia|lia|done]. Qed.

Lemma work_Less a da b db : BlueWork da < BlueWork db -> Less a da b db = true.
Proof. intros Hw. unfold Less. by rewrite (proj2 (Z.compare_lt_iff _ _) Hw). Qed.

(** [a] comes before [b]: lower blue work, or equal and a lower hash. *)
Definition lt_block (st : ghostdag_store) (a b : bytes) : Prop :=
  exists da db, st !! (a, false) = Some da /\ st !! (b, false) = Some db /\ Less a da b db = true.

Definition has_data (st : ghostdag_store) (b : bytes) : Prop := is_Some (st !! (b, false)).

Section order.
Context (st : ghostdag_store).

Lemma lt_block_trans a b c : lt_block st a b -> lt_block st b c -> lt_block st a c.
Proof.
  intros (da & db & Ha & Hb & Hab) (db' & dc & Hb' & Hc & Hbc). simplify_eq.
  exists da, dc. eauto using Less_trans.
Qed.

Lemma lt_block_irrefl a : ~ lt_block st a a.
Proof. intros (d & d' & Ha & Ha' & Hl). simplify_eq. by rewrite Less_irrefl in Hl. Qed.

Lemma lt_block_total a b : has_data st a -> has_data st b -> a <> b -> lt_block st a b \/ lt_block st b a.
Proof.
  intros [da Ha] [db Hb] Hne. destruct (Less a da b db) eqn:Hl; [left; by exists da, db|].
  right. exists db, da. eauto using Less_total.
Qed.

Lemma less_spec a b : has_data st a -> has_data st b -> a <> b ->
  exists r, less st a b = Ok r /\ (r = true -> lt_block st a b) /\ (r = false -> lt_block st b a).
Proof.
  intros [da Ha] [db Hb] Hne. unfold less, ChooseSelectedParent.
  change (index_res [a; b] 0) with (@Ok GhostdagError _ a). cbn [bind_res]. unfold ghostdag_Get.
  cbn [choose_loop]. unfold ghostdag_Get. rewrite Ha, Hb. cbn [bind_res]. rewrite Less_irrefl.
  destruct (Less a da b db) eqn:Hl; cbn [choose_loop bind_res].
  - rewrite bool_decide_true by done. exists true. split; [done|]. split; [|done]. intros _. by exists da, db.
  - rewrite bool_decide_false by done. exists false. split; [done|]. split; [done|]. intros _.
    exists db, da. eauto using Less_total.
Qed.

Lemma findSelectedParent_loop_spec l : forall p,
  has_data st p -> Forall (has_data st) l -> NoDup (p :: l) ->
  exists q, findSelectedParent_loop st (Some p) l = Ok (Some q) /\ q ∈ p :: l /\
    forall x, x ∈ p :: l -> x = q \/ lt_block st x q.
Proof.
  induction l as [|y l IH]; intros p Hp Hl Hnd; cbn [findSelectedParent_loop].
  - exists p. split; [done|]. split; [set_solver|]. intros x Hx. left. set_solver.
  - apply Forall_cons in Hl as [Hy Hl]. rewrite !NoDup_cons in Hnd. destruct Hnd as (Hpl & Hyl & Hnd).
    destruct (less_spec p y) as (r & -> & Ht & Hf); [done|done|set_solver|]. cbn [bind_res].
    destruct r.
    + destruct (IH y) as (q & -> & Hq & Hmax); [done|done|by constructor|].
      exists q. split; [done|]. split; [set_solver|]. intros x [->|Hx]%elem_of_cons; [|by apply Hmax].
      right. destruct (Hmax y ltac:(set_solver)) as [<-|]; [by apply Ht|].
      eapply lt_block_trans; [by apply Ht|done].
    + destruct (IH p) as (q & -> & Hq & Hmax); [done|done|constructor; set_solver|].
      exists q. split; [done|]. split; [set_solver|].
      intros x [->|[->|Hx]%elem_of_cons]%elem_of_cons; [apply Hmax; set_solver| |apply Hmax; set_solver].
      right. destruct (Hmax p ltac:(set_solver)) as [<-|]; [by apply Hf|].
      eapply lt_block_trans; [by apply Hf|done].
Qed.

Lemma findSelectedParent_spec l :
  l <> [] -> Forall (has_data st) l -> NoDup l ->
  exists q, findSelectedParent st l = Ok (Some q) /\ q ∈ l /\ forall x, x ∈ l -> x = q \/ lt_block st x q.
Proof.
  intros Hne Hl Hnd. destruct l as [|p l]; [done|]. apply Forall_cons in Hl as [Hp Hl].
  by apply findSelectedParent_loop_spec.
Qed.

(** * Sorting *)

Lemma insert_by_less_spec x l :
  has_data st x -> Forall (has_data st) l -> x ∉ l -> StronglySorted (lt_block st) l ->
  exists l', insert_by_less st x l = Ok l' /\ l' ≡ₚ x :: l /\ StronglySorted (lt_block st) l'.
Proof.
  intros Hx. induction l as [|y l IH]; intros Hl Hnot Hs; cbn [insert_by_less].
  - exists [x]. split; [done|]. split; [done|]. repeat constructor.
  - apply Forall_cons in Hl as [Hy Hl]. inversion Hs as [|? ? Hs' Hmin]; subst.
    destruct (less_spec x y) as (r & -> & Ht & Hf); [done|done|set_solver|]. cbn [bind_res]. destruct r.
    + exists (x :: y :: l). split; [done|]. split; [done|]. constructor; [done|].
      apply Forall_cons. split; [by apply Ht|]. eapply Forall_impl; [exact Hmin|].
      intros z Hz. eapply lt_block_trans; [by apply Ht|done].
    + destruct IH as (l' & -> & Hp & Hs''); [done|set_solver|done|]. cbn [bind_res].
      exists (y :: l'). split; [done|]. split; [rewrite Hp; solve_Permutation|]. constructor; [done|].
      rewrite Hp. apply Forall_cons. split; [by apply Hf|done].
Qed.

Lemma sortMergeSet_spec l :
  Forall (has_data st) l -> NoDup l ->
  exists l', sortMergeSet st l = Ok l' /\ l' ≡ₚ l /\ StronglySorted (lt_block st) l'.
Proof.
  induction l as [|x l IH]; intros Hl Hnd; cbn [sortMergeSet].
  - exists []. split; [done|]. split; [done|constructor].
  - apply Forall_cons in Hl as [Hx Hl]. apply NoDup_cons in Hnd as [Hnot Hnd].
    destruct IH as (l1 & -> & Hp & Hs); [done|done|]. cbn [bind_res].
    destruct (insert_by_less_spec x l1) as (l2 & -> & Hp2 & Hs2); [done|by rewrite Hp|by rewrite Hp|done|].
    exists l2. split; [done|]. split; [by rewrite Hp2, Hp|done].
Qed.

(** Merging two sorted colours gives the sorted merge set. *)
Lemma merge_colours_spec fuel bs : forall rs,
  (length bs + length rs <= fuel)%nat -> Forall (has_data st) (bs ++ rs) -> NoDup (bs ++ rs) ->
  StronglySorted (lt_block st) bs -> StronglySorted (lt_block st) rs ->
  exists l, merge_colours st fuel bs rs = Ok l /\ l ≡ₚ bs ++ rs /\ StronglySorted (lt_block st) l.
Proof.
  revert bs. induction fuel as [|fuel IH]; intros bs rs Hf Hd Hnd Hb Hr.
  - destruct bs, rs; simpl in Hf; try lia. by exists [].
  - destruct bs as [|b bs]; [by exists rs; destruct rs|].
    destruct rs as [|r rs]; [exists (b :: bs); cbn [merge_colours]; by rewrite !app_nil_r|].
    inversion Hb as [|? ? Hb' Hbmin]; subst. inversion Hr as [|? ? Hr' Hrmin]; subst.
    assert (Hdb : has_data st b) by (rewrite Forall_forall in Hd; apply Hd; set_solver).
    assert (Hdr : has_data st r) by (rewrite Forall_forall in Hd; apply Hd; set_solver).
    destruct Hdb as [db Hdb], Hdr as [dr Hdr]. cbn [merge_colours]. unfold ghostdag_Get at 1.
    rewrite Hdb. cbn [bind_res]. unfold ghostdag_Get at 1. rewrite Hdr. cbn [bind_res].
    assert (Hne : b <> r).
    { rewrite NoDup_app in Hnd. destruct Hnd as (_ & Hdisj & _). intros ->. apply (Hdisj r); set_solver. }
    destruct (Less b db r dr) eqn:Hl.
    + assert (Hlt : lt_block st b r) by (by exists db, dr).
      destruct (IH bs (r :: rs)) as (l & -> & Hp & Hs);
        [simpl in *; lia|by apply (Forall_cons _ b (bs ++ r :: rs)) in Hd as [_ ?]
        |by apply (NoDup_cons b (bs ++ r :: rs)) in Hnd as [_ ?]|done|done|].
      exists (b :: l). split; [done|]. split; [by rewrite Hp|]. constructor; [done|]. rewrite Hp.
      apply Forall_app. split; [done|]. apply Forall_cons. split; [done|].
      eapply Forall_impl; [exact Hrmin|]. intros z. by apply lt_block_trans.
    + assert (Hlt : lt_block st r b) by (exists dr, db; eauto using Less_total).
      destruct (IH (b :: bs) rs) as (l & -> & Hp & Hs); [simpl in *; lia| | |done|done|].
      { rewrite <- Permutation_middle in Hd. by apply Forall_cons in Hd as [_ ?]. }
      { rewrite <- Permutation_middle in Hnd. by apply NoDup_cons in Hnd as [_ ?]. }
      exists (r :: l). split; [done|]. split; [rewrite Hp; solve_Permutation|]. constructor; [done|]. rewrite Hp.
      apply Forall_app. split; [|done]. apply Forall_cons. split; [done|].
      eapply Forall_impl; [exact Hbmin|]. intros z. by apply lt_block_trans.
Qed.

End order.

(** * The DAG

    [par] gives the parents of the blocks of a DAG.  [anc x y]: there is a
    path from [y] down to [x], possibly empty. *)

Definition parent_of (par : bytes -> list bytes) (x y : bytes) : Prop := x ∈ par y.

Abbreviation anc par := (rtc (parent_of par)).

(** What GHOSTDAG relies on in the topology manager: it knows the parents of
    the blocks that are not below all others, and [IsAncestorOf] decides reflexive
    ancestry. *)
Record topology_ok `{DAGTopologyManager} (par : bytes -> list bytes) (known : gset bytes) : Prop := {
  top_parents : forall b x, b ∈ known -> x ∈ known -> ~ anc par b x -> Parents b = Ok (par b);
  top_closed : forall b p, b ∈ known -> p ∈ par b -> p ∈ known;
  top_ancestors : forall a b, a ∈ known -> b ∈ known ->
    exists r, IsAncestorOf a b = Ok r /\ (r = true <-> anc par a b)
}.

(** * The search for the merge set *)

Section search.
Context `{T : DAGTopologyManager} (par : bytes -> list bytes) (known : gset bytes).
Context (Htop : topology_ok par known) (sp : bytes) (Hsp : sp ∈ known) (ps : list bytes).

Definition reached (x : bytes) : Prop := exists q, q ∈ ps /\ anc par x q.

Record search_inv (processed : list bytes) (s : mergeset_state) : Prop := {
  si_slice : mergeSetSlice s = processed ++ queue s;
  si_map : mergeSetMap s = list_to_set (mergeSetSlice s);
  si_nodup : NoDup (mergeSetSlice s);
  si_sound : forall x, x ∈ mergeSetSlice s -> x ∈ known /\ reached x /\ ~ anc par x sp;
  si_past : forall x, x ∈ selectedParentPast s -> anc par x sp
}.

Lemma search_add processed s x :
  search_inv processed s -> x ∉ mergeSetSlice s -> x ∈ known -> reached x -> ~ anc par x sp ->
  search_inv processed (add_to_mergeset x s).
Proof.
  intros [Hs Hm Hnd Hok Hp] Hx Hk Hr Ha. constructor; cbn.
  - by rewrite Hs, app_assoc.
  - rewrite Hm, list_to_set_app_L. set_solver.
  - apply NoDup_app. split; [done|]. split; [|apply NoDup_singleton]. set_solver.
  - intros y [Hy|Hy]%elem_of_app; [by apply Hok|]. apply list_elem_of_singleton in Hy as ->. done.
  - done.
Qed.

Lemma queue_parents_spec l : forall s,
  search_inv [] s -> NoDup l -> (forall x, x ∈ l -> x ∉ mergeSetSlice s) ->
  (forall x, x ∈ l -> x ∈ known /\ reached x /\ (x = sp \/ ~ anc par x sp)) ->
  search_inv [] (queue_parents (Some sp) l s) /\
  (forall x, x ∈ mergeSetSlice s -> x ∈ mergeSetSlice (queue_parents (Some sp) l s)) /\
  (forall x, x ∈ l -> x = sp \/ x ∈ mergeSetSlice (queue_parents (Some sp) l s)).
Proof.
  induction l as [|y l IH]; intros s Hs Hnd Hfresh Hl; cbn [queue_parents].
  - split; [done|]. split; [done|]. set_solver.
  - apply NoDup_cons in Hnd as [Hy Hnd]. destruct (Hl y ltac:(set_solver)) as (Hk & Hr & Ha).
    unfold hash_Equal. destruct (decide (y = sp)) as [->|Hne].
    + rewrite bool_decide_true by done. destruct (IH s) as (H1 & H2 & H3); [done|done|set_solver|set_solver|].
      split; [done|]. split; [done|]. set_solver.
    + rewrite bool_decide_false by congruence. destruct Ha as [|Ha]; [done|].
      destruct (IH (add_to_mergeset y s)) as (H1 & H2 & H3).
      * apply search_add; [done|apply Hfresh; set_solver|done..].
      * done.
      * intros x Hx. cbn. rewrite elem_of_app, list_elem_of_singleton. intros [Hx'| ->]; [|done].
        apply (Hfresh x); set_solver.
      * set_solver.
      * split; [done|]. cbn in H2. split; [set_solver|]. intros x [->|Hx]%elem_of_cons; [|by apply H3].
        right. apply H2. set_solver.
Qed.

Lemma visit_parents_spec l processed : forall s,
  search_inv processed s -> (forall x, x ∈ l -> x ∈ known /\ reached x) ->
  exists s', visit_parents (Some sp) l s = Ok s' /\ search_inv processed s' /\
    (forall x, x ∈ mergeSetSlice s -> x ∈ mergeSetSlice s') /\
    (forall x, x ∈ l -> x ∈ mergeSetSlice s' \/ anc par x sp).
Proof.
  induction l as [|y l IH]; intros s Hs Hl; cbn [visit_parents].
  - exists s. split; [done|]. split; [done|]. split; [done|set_solver].
  - destruct (Hl y ltac:(set_solver)) as [Hk Hr].
    assert (Hl' : forall x, x ∈ l -> x ∈ known /\ reached x) by set_solver.
    case_bool_decide as Hin.
    { destruct (IH s Hs Hl') as (s' & -> & H1 & H2 & H3). exists s'. split; [done|]. split; [done|]. split; [done|].
      intros x [->|Hx]%elem_of_cons; [|by apply H3]. left. apply H2.
      by rewrite (si_map _ _ Hs), elem_of_list_to_set in Hin. }
    assert (Hnot : y ∉ mergeSetSlice s) by (by rewrite (si_map _ _ Hs), elem_of_list_to_set in Hin).
    case_bool_decide as Hpast.
    { destruct (IH s Hs Hl') as (s' & -> & H1 & H2 & H3). exists s'. split; [done|]. split; [done|]. split; [done|].
      intros x [->|Hx]%elem_of_cons; [|by apply H3]. right. by apply (si_past _ _ Hs). }
    destruct (top_ancestors _ _ Htop y sp Hk Hsp) as (r & -> & Hiff). cbn [bind_res]. destruct r.
    + assert (Ha : anc par y sp) by (by apply Hiff).
      destruct (IH (mk_mergeset_state (mergeSetMap s) (mergeSetSlice s) ({[y]} ∪ selectedParentPast s) (queue s)))
        as (s' & -> & H1 & H2 & H3).
      { destruct Hs as [? ? ? ? Hp]. constructor; cbn; try done.
        intros x [Hx|Hx]%elem_of_union; [apply elem_of_singleton in Hx; by subst|by apply Hp]. }
      { done. }
      exists s'. split; [done|]. split; [done|]. split; [done|].
      intros x [->|Hx]%elem_of_cons; [by right|by apply H3].
    + assert (Ha : ~ anc par y sp) by (intros Hc; by apply Hiff in Hc).
      destruct (IH (add_to_mergeset y s)) as (s' & -> & H1 & H2 & H3); [by apply search_add|done|].
      cbn in H2. exists s'. split; [done|]. split; [done|]. split; [set_solver|].
      intros x [->|Hx]%elem_of_cons; [|by apply H3]. left. apply H2. set_solver.
Qed.

(** The parents of the processed blocks have been found. *)
Definition expanded (processed : list bytes) (s : mergeset_state) : Prop :=
  forall x y, x ∈ processed -> y ∈ par x -> y ∈ mergeSetSlice s \/ anc par y sp.

Lemma known_bound (l : list bytes) : NoDup l -> (forall x, x ∈ l -> x ∈ known) -> (length l <= size known)%nat.
Proof.
  intros Hnd Hk. rewrite <- (size_list_to_set (C := gset bytes) l Hnd). apply subseteq_size.
  intros x Hx. apply Hk. by apply elem_of_list_to_set in Hx.
Qed.

Lemma mergeset_loop_spec fuel : forall processed s,
  search_inv processed s -> expanded processed s -> (size known - length processed <= fuel)%nat ->
  exists s', mergeset_loop fuel (Some sp) s = Ok (mergeSetSlice s') /\
    search_inv (mergeSetSlice s') s' /\ expanded (mergeSetSlice s') s' /\
    (forall x, x ∈ mergeSetSlice s -> x ∈ mergeSetSlice s').
Proof.
  induction fuel as [|fuel IH]; intros processed s Hs He Hf.
  all: destruct (queue s) as [|current q] eqn:Hq; cbn [mergeset_loop]; rewrite Hq.
  1, 3: assert (Hall : processed = mergeSetSlice s) by (rewrite (si_slice _ _ Hs), Hq; by rewrite app_nil_r);
    exists s; split; [done|]; rewrite <- Hall; by split; [|split].
  - exfalso. assert (Hb : (length (processed ++ current :: q) <= size known)%nat).
    { apply known_bound; rewrite <- Hq, <- (si_slice _ _ Hs); [apply Hs|]. intros x Hx. by apply (si_sound _ _ Hs). }
    rewrite length_app in Hb. simpl in Hb. lia.
  - assert (Hc : current ∈ mergeSetSlice s) by (rewrite (si_slice _ _ Hs), Hq; set_solver).
    destruct (si_sound _ _ Hs _ Hc) as (Hk & (r & Hr & Hcr) & Hnsp).
    rewrite (top_parents _ _ Htop _ sp Hk Hsp Hnsp). cbn [bind_res].
    destruct (visit_parents_spec (par current) (processed ++ [current])
      (mk_mergeset_state (mergeSetMap s) (mergeSetSlice s) (selectedParentPast s) q)) as (s' & -> & H1 & H2 & H3).
    { destruct Hs as [Hsl ? ? ? ?]. constructor; cbn; try done. rewrite Hsl, Hq, <- app_assoc. done. }
    { intros x Hx. split; [by eapply top_closed|]. exists r. split; [done|]. by eapply rtc_l. }
    cbn [bind_res]. cbn in H2. destruct (IH (processed ++ [current]) s') as (s'' & Hl & Hs'' & He'' & Hsub).
    + done.
    + intros x y [Hx|Hx]%elem_of_app Hy.
      * destruct (He x y Hx Hy); [left; by apply H2|by right].
      * apply list_elem_of_singleton in Hx as ->. by apply H3.
    + rewrite length_app. simpl. lia.
    + exists s''. split; [done|]. split; [done|]. split; [done|]. intros x Hx. by apply Hsub, H2.
Qed.

(** The search returns the blocks below the parents that are not in the past of
    the selected parent. *)
Lemma merge_search_spec fuel :
  sp ∈ ps -> NoDup ps -> (forall q, q ∈ ps -> q ∈ known) ->
  (forall q, q ∈ ps -> q <> sp -> ~ anc par q sp) -> (size known <= fuel)%nat ->
  exists l, mergeset_loop fuel (Some sp) (queue_parents (Some sp) ps (mk_mergeset_state ∅ [] ∅ [])) = Ok l /\
    NoDup l /\ forall x, x ∈ l <-> reached x /\ ~ anc par x sp.
Proof.
  intros Hin Hnd Hk Hanti Hf.
  destruct (queue_parents_spec ps (mk_mergeset_state ∅ [] ∅ [])) as (H1 & _ & H3); [|done|set_solver| |].
  { constructor; cbn; try done; try set_solver. constructor. }
  { intros x Hx. split; [by apply Hk|]. split; [exists x; by split; [|constructor]|].
    destruct (decide (x = sp)); [by left|right; by apply Hanti]. }
  set (s := queue_parents _ _ _) in *.
  destruct (mergeset_loop_spec fuel [] s H1) as (s' & -> & Hs' & He' & Hsub);
    [intros x y Hx; by apply not_elem_of_nil in Hx|lia|].
  exists (mergeSetSlice s'). split; [done|]. split; [apply Hs'|]. intros x. split.
  - intros Hx. by apply (si_sound _ _ Hs') in Hx as (_ & ? & ?).
  - intros [(q & Hq & Hxq) Hx]. assert (Hor : x ∈ mergeSetSlice s' \/ anc par x sp); [|by destruct Hor].
    clear Hx. revert x Hxq. apply (rtc_ind_l (fun x => x ∈ mergeSetSlice s' \/ anc par x sp) q).
    + destruct (H3 q Hq) as [->|]; [right; constructor|left; by apply Hsub].
    + intros x y Hxy _ [Hy|Hy]; [by apply (He' y x)|right; by eapply rtc_l].
Qed.

End search.
