(* ===== verification/GhostdagSpec.v ===== *)
(** The invariant of GHOSTDAG data and that GHOSTDAG establishes it for a new
    block: the recorded anticone sizes are the sizes of the anticones within the
    blue set, none above k; the merge set is what the block adds to the past of
    its selected parent; score and work count the blues. *)

From Stdlib Require Import Sorted.
From S2P Require Import Prelude Transaction TxMass Block Difficulty Ghostdag GhostdagMergeSet.

Definition genesis_data : BlockGHOSTDAGData := mk_BlockGHOSTDAGData 0 0 None [] [] ∅.

(** The data of the block below all others: nothing is merged, and no block is
    selected but possibly the virtual genesis. *)
Record base_data (d : BlockGHOSTDAGData) : Prop := {
  bd_score : BlueScore d = 0;
  bd_work : BlueWork d = 0;
  bd_blues : MergeSetBlues d = [];
  bd_selected : SelectedParent d = None \/ SelectedParent d = Some VirtualGenesisBlockHash
}.

Lemma base_genesis : base_data genesis_data.
Proof. constructor; try done. by left. Qed.

(** The blue set of a block: the blues it merges and, through the selected
    parent, all those of its chain. *)
Inductive blue_set (st : ghostdag_store) : bytes -> gset bytes -> Prop :=
| blue_set_genesis b d :
    st !! (b, false) = Some d -> base_data d -> blue_set st b ∅
| blue_set_step b d p s :
    st !! (b, false) = Some d -> SelectedParent d = Some p -> blue_set st p s ->
    blue_set st b (list_to_set (MergeSetBlues d) ∪ s).

Section data.
Context `{T : DAGTopologyManager} `{HS : BlockHeaderStore} (gm : ghostdagManager).
Context (par : bytes -> list bytes).

Definition is_anc (a b : bytes) : bool := match IsAncestorOf a b with Ok r => r | _ => false end.

Definition work_of (b : bytes) : Z :=
  match header_of b with Ok h => CalcWork (hdr_Bits h) | _ => 0 end.

Definition anticone_in (s : gset bytes) (b : bytes) : gset bytes :=
  filter (fun x => is_anc x b = false /\ is_anc b x = false) s.

(** The sizes recorded along the chain of [d], read with [n] units of fuel or
    more, are the anticone sizes within [s]. *)
Definition sizes_recorded (st : ghostdag_store) (d : BlockGHOSTDAGData) (s : gset bytes) (n : nat) : Prop :=
  forall x f, x ∈ s -> (n <= f)%nat ->
    blueAnticoneSize gm st f x d = Ok (Z.of_nat (size (anticone_in s x))) /\
    Z.of_nat (size (anticone_in s x)) <= gm_k gm.

(** What a block merges under its selected parent [p]. *)
Record merges (st : ghostdag_store) (b : bytes) (d : BlockGHOSTDAGData) (p : bytes) (rest : list bytes) : Prop := {
  mg_parent : SelectedParent d = Some p;
  mg_in : p ∈ par b;
  mg_max : forall q, q ∈ par b -> q = p \/ lt_block st q p;
  mg_blues : MergeSetBlues d = p :: rest;
  mg_length : zlen (MergeSetBlues d) <= gm_k gm + 1;
  mg_nodup : NoDup (rest ++ MergeSetReds d);
  mg_set : forall x, x ∈ rest ++ MergeSetReds d <-> reached par (par b) x /\ ~ anc par x p;
  mg_sorted : StronglySorted (lt_block st) rest /\ StronglySorted (lt_block st) (MergeSetReds d)
}.

(** The data of a block is right: [s] is its blue set, [n] the length of its
    selected chain. *)
Inductive data_ok (st : ghostdag_store) : bytes -> BlockGHOSTDAGData -> gset bytes -> nat -> Prop :=
| ok_genesis d :
    st !! (gm_genesisHash gm, false) = Some d -> par (gm_genesisHash gm) = [] -> base_data d ->
    data_ok st (gm_genesisHash gm) d ∅ 0
| ok_block b d p rest dp sp np :
    st !! (b, false) = Some d -> b <> gm_genesisHash gm ->
    data_ok st p dp sp np -> merges st b d p rest ->
    BlueScore d = BlueScore dp + zlen (MergeSetBlues d) ->
    BlueWork d = BlueWork dp + sumZ work_of (MergeSetBlues d) ->
    sizes_recorded st d (list_to_set (MergeSetBlues d) ∪ sp) (S np) ->
    data_ok st b d (list_to_set (MergeSetBlues d) ∪ sp) (S np).

Lemma data_ok_lookup st b d s n : data_ok st b d s n -> st !! (b, false) = Some d.
Proof. by destruct 1. Qed.

(** * Adding data keeps what is there *)

Lemma lt_block_mono st st' a b : st ⊆ st' -> lt_block st a b -> lt_block st' a b.
Proof.
  intros Hst (da & db & Ha & Hb & Hl). exists da, db. eauto using lookup_weaken.
Qed.

Lemma StronglySorted_mono {A} (R R' : A -> A -> Prop) l :
  (forall x y, R x y -> R' x y) -> StronglySorted R l -> StronglySorted R' l.
Proof. intros HR. induction 1; constructor; eauto using Forall_impl. Qed.

Lemma ghostdag_Get_mono st st' h t d : st ⊆ st' -> ghostdag_Get st h t = Ok d -> ghostdag_Get st' h t = Ok d.
Proof.
  unfold ghostdag_Get. intros Hst. destruct h as [h|]; [|done].
  destruct (st !! (h, t)) eqn:E; [|done]. by rewrite (lookup_weaken _ _ _ _ E Hst).
Qed.

Lemma bind_res_Ok {E A B} (r : res E A) (f : A -> res E B) b :
  bind_res r f = Ok b -> exists a, r = Ok a /\ f a = Ok b.
Proof. destruct r; try done. eauto. Qed.

Lemma blueAnticoneSize_loop_mono st st' x z f : st ⊆ st' -> forall d t,
  blueAnticoneSize_loop gm st f x d t = Ok z -> blueAnticoneSize_loop gm st' f x d t = Ok z.
Proof.
  intros Hst. induction f as [|f IH]; intros d t; cbn [blueAnticoneSize_loop]; [done|].
  destruct (BluesAnticoneSizes d !! x); [done|]. destruct (hash_Equal _ _); [done|].
  intros (d1 & H1 & H2)%bind_res_Ok. rewrite (ghostdag_Get_mono _ _ _ _ _ Hst H1). cbn [bind_res].
  destruct (hash_Equal (SelectedParent d1) _); [|by apply IH].
  apply bind_res_Ok in H2 as (d2 & H2 & H3). rewrite (ghostdag_Get_mono _ _ _ _ _ Hst H2). by apply IH.
Qed.

Lemma sizes_recorded_mono st st' d s n : st ⊆ st' -> sizes_recorded st d s n -> sizes_recorded st' d s n.
Proof.
  intros Hst Hs x f Hx Hf. destruct (Hs x f Hx Hf) as [H1 H2]. split; [|done].
  by eapply blueAnticoneSize_loop_mono.
Qed.

Lemma merges_mono st st' b d p rest : st ⊆ st' -> merges st b d p rest -> merges st' b d p rest.
Proof.
  intros Hst [? ? Hmax ? ? ? ? [? ?]]. constructor; try done.
  - intros q Hq. destruct (Hmax q Hq); [by left|right]. by eapply lt_block_mono.
  - split; (eapply StronglySorted_mono; [|eassumption]); intros ? ?; by apply lt_block_mono.
Qed.

Lemma data_ok_mono st st' b d s n : st ⊆ st' -> data_ok st b d s n -> data_ok st' b d s n.
Proof.
  intros Hst. induction 1 as [d Hg Hp Hbd|b d p rest dp sp np Hb Hne Hok IH Hm Hs Hw Hr].
  - apply ok_genesis; [eauto using lookup_weaken|done|done].
  - econstructor; try done; [eauto using lookup_weaken|by eapply merges_mono|by eapply sizes_recorded_mono].
Qed.

Lemma data_ok_blue_set st b d s n : data_ok st b d s n -> blue_set st b s.
Proof.
  induction 1 as [d Hg Hp Hbd|b d p rest dp sp np Hb Hne Hok IH Hm Hs Hw Hr].
  - by apply (blue_set_genesis st _ d).
  - eapply blue_set_step; [done|apply Hm|done].
Qed.

End data.

(** * Facts of a DAG whose data is right *)

Section facts.
Context `{T : DAGTopologyManager} `{HS : BlockHeaderStore} (gm : ghostdagManager).
Context (par : bytes -> list bytes) (st : ghostdag_store).

(** The blues of a block are below its parents, and known. *)
Lemma blue_reached b d s n x : data_ok gm par st b d s n -> x ∈ s -> reached par (par b) x.
Proof.
  intros Hd. revert x. induction Hd as [d Hg Hp Hbd|b d p rest dp sp np Hb Hne Hd IH Hm Hs Hw Hr]; [set_solver|].
  intros x. rewrite elem_of_union, elem_of_list_to_set, (mg_blues _ _ _ _ _ _ _ Hm), elem_of_cons.
  intros [[->|Hx]|Hx].
  - exists p. split; [apply Hm|constructor].
  - apply (mg_set _ _ _ _ _ _ _ Hm). set_solver.
  - exists p. split; [apply Hm|]. destruct (IH x Hx) as (q & Hq & Hxq). eapply rtc_r; [exact Hxq|exact Hq].
Qed.

Lemma blue_anc b d s n x : data_ok gm par st b d s n -> x ∈ s -> anc par x b.
Proof. intros Hd Hx. destruct (blue_reached b d s n x Hd Hx) as (q & Hq & Hxq). by eapply rtc_r. Qed.

Lemma genesis_anc b d s n : data_ok gm par st b d s n -> anc par (gm_genesisHash gm) b.
Proof.
  induction 1 as [d Hg Hp Hbd|b d p rest dp sp np Hb Hne Hd IH Hm Hs Hw Hr]; [constructor|].
  eapply rtc_r; [exact IH|apply Hm].
Qed.

Lemma merges_nodup b d p rest : merges gm par st b d p rest -> NoDup (MergeSetBlues d).
Proof.
  intros Hm. rewrite (mg_blues _ _ _ _ _ _ _ Hm). apply NoDup_cons. split.
  - intros Hp. assert (Hp' : p ∈ rest ++ MergeSetReds d) by set_solver.
    apply (mg_set _ _ _ _ _ _ _ Hm) in Hp' as [_ Hp']. apply Hp'. constructor.
  - pose proof (mg_nodup _ _ _ _ _ _ _ Hm) as Hnd. by apply NoDup_app in Hnd as (? & _ & _).
Qed.

Context (known : gset bytes) (Htop : topology_ok par known).

Lemma reached_known l x : (forall q, q ∈ l -> q ∈ known) -> reached par l x -> x ∈ known.
Proof.
  intros Hl (q & Hq & Hx). revert x Hx. apply (rtc_ind_l (fun x => x ∈ known) q); [by apply Hl|].
  intros x y Hxy _ Hy. by eapply top_closed.
Qed.

Lemma anc_known x b : b ∈ known -> anc par x b -> x ∈ known.
Proof. intros Hb Hx. apply (reached_known [b]); [set_solver|]. exists b. set_solver. Qed.

Lemma is_anc_spec a b : a ∈ known -> b ∈ known -> IsAncestorOf a b = Ok (is_anc a b) /\ (is_anc a b = true <-> anc par a b).
Proof. intros Ha Hb. unfold is_anc. by destruct (top_ancestors _ _ Htop a b Ha Hb) as (r & -> & Hr). Qed.

Lemma is_anc_false a b : a ∈ known -> b ∈ known -> is_anc a b = false <-> ~ anc par a b.
Proof.
  intros Ha Hb. destruct (is_anc_spec a b Ha Hb) as [_ <-]. by destruct (is_anc a b).
Qed.

Context (Hwork : forall b, b ∈ known -> 0 < work_of b).
Context (Hok : forall b, b ∈ known -> exists d s n, data_ok gm par st b d s n).

Lemma has_data_known b : b ∈ known -> has_data st b.
Proof. intros Hb. destruct (Hok b Hb) as (d & s & n & H). exists d. by eapply data_ok_lookup. Qed.

Lemma sumZ_works l : (forall x, x ∈ l -> x ∈ known) -> 0 <= sumZ work_of l.
Proof.
  intros Hl. apply sumZ_nonneg, Forall_forall. intros x Hx. pose proof (Hwork x (Hl x Hx)). lia.
Qed.

(** Blue work grows along the edges of the DAG. *)
Lemma parent_work b d q dq :
  b ∈ known -> st !! (b, false) = Some d -> q ∈ par b -> st !! (q, false) = Some dq ->
  BlueWork dq < BlueWork d.
Proof.
  intros Hb Hd Hq Hdq. destruct (Hok b Hb) as (d' & s & n & Hbd).
  assert (d' = d) as -> by (apply data_ok_lookup in Hbd; congruence).
  inversion Hbd as [d0 Hg Hp Hbase|b' d'' p rest dp sp np Hb' Hne Hpd Hm Hs Hw Hr]; subst.
  { rewrite Hp in Hq. by apply not_elem_of_nil in Hq. }
  assert (Hpk : p ∈ known) by (eapply top_closed; [done|exact Hb|apply Hm]).
  assert (Hwp : BlueWork dp < BlueWork d).
  { rewrite Hw, (mg_blues _ _ _ _ _ _ _ Hm). simpl. pose proof (Hwork p Hpk).
    assert (0 <= sumZ work_of rest); [|lia]. apply sumZ_works. intros x Hx.
    eapply reached_known; [|apply (mg_set _ _ _ _ _ _ _ Hm)]; [intros y Hy; exact (top_closed _ _ Htop b y Hb Hy)|set_solver]. }
  apply data_ok_lookup in Hpd. destruct (mg_max _ _ _ _ _ _ _ Hm q Hq) as [->|(a & c & Ha & Hc & Hl)].
  - congruence.
  - simplify_eq. apply Less_work in Hl. lia.
Qed.

Lemma anc_work a b da db :
  b ∈ known -> anc par a b -> a <> b -> st !! (a, false) = Some da -> st !! (b, false) = Some db ->
  BlueWork da < BlueWork db.
Proof.
  intros Hb Hab Hne Ha. revert b Hab Hb Hne db.
  apply (rtc_ind_r (fun b => b ∈ known -> a <> b -> forall db, st !! (b, false) = Some db -> BlueWork da < BlueWork db) a);
    [done|].
  intros b c _ Hbc IH Hc Hne dc Hdc. assert (Hbk : b ∈ known) by (by eapply top_closed).
  destruct (has_data_known b Hbk) as [db Hdb]. pose proof (parent_work c dc b db Hc Hdc Hbc Hdb).
  destruct (decide (a = b)) as [->|Hab]; [by simplify_eq|]. pose proof (IH Hbk Hab db Hdb). lia.
Qed.

Lemma anc_lt a b : b ∈ known -> anc par a b -> a <> b -> lt_block st a b.
Proof.
  intros Hb Hab Hne. assert (Ha : a ∈ known) by (by eapply anc_known).
  destruct (has_data_known a Ha) as [da Hda], (has_data_known b Hb) as [db Hdb].
  exists da, db. split; [done|]. split; [done|]. apply work_Less. exact (anc_work a b da db Hb Hab Hne Hda Hdb).
Qed.

Lemma anc_antisym a b : b ∈ known -> anc par a b -> anc par b a -> a = b.
Proof.
  intros Hb Hab Hba. destruct (decide (a = b)) as [|Hne]; [done|exfalso].
  assert (Ha : a ∈ known) by (by eapply anc_known).
  apply (lt_block_irrefl st a). apply (lt_block_trans st a b a); apply anc_lt; congruence.
Qed.

Lemma not_reached_self b : b ∈ known -> ~ reached par (par b) b.
Proof.
  intros Hb (q & Hq & Hbq). assert (Hqb : anc par q b) by (eapply rtc_l; [exact Hq|constructor]).
  assert (q = b) as -> by (by apply anc_antisym).
  destruct (has_data_known b Hb) as [d Hd]. pose proof (parent_work b d b d Hb Hd Hq Hd). lia.
Qed.

(** The blues a block merges are not in the blue set of its selected parent. *)
Lemma merges_fresh b d p rest dp sp np x :
  p ∈ known -> merges gm par st b d p rest -> data_ok gm par st p dp sp np ->
  x ∈ MergeSetBlues d -> x ∉ sp.
Proof.
  intros Hp Hm Hd Hx Hxs. rewrite (mg_blues _ _ _ _ _ _ _ Hm) in Hx. apply elem_of_cons in Hx as [->|Hx].
  - apply (not_reached_self p Hp). by eapply blue_reached.
  - assert (Hx' : x ∈ rest ++ MergeSetReds d) by set_solver.
    apply (mg_set _ _ _ _ _ _ _ Hm) in Hx' as [_ Hx']. apply Hx'. by eapply blue_anc.
Qed.

(** A selected chain is shorter than the number of blocks. *)
Lemma chain_list b d s n : b ∈ known -> data_ok gm par st b d s n ->
  exists l, length l = S n /\ NoDup l /\ forall x, x ∈ l -> anc par x b.
Proof.
  intros Hb Hd. induction Hd as [d Hg Hp Hbd|b d p rest dp sp np Hb' Hne Hd IH Hm Hs Hw Hr].
  - exists [gm_genesisHash gm]. split; [done|]. split; [apply NoDup_singleton|].
    intros x Hx%list_elem_of_singleton. subst. constructor.
  - assert (Hp : p ∈ known) by (eapply top_closed; [done|exact Hb|apply Hm]).
    destruct (IH Hp) as (l & Hl & Hnd & Ha). exists (b :: l). split; [simpl; lia|]. split.
    + apply NoDup_cons. split; [|done]. intros Hin. apply (not_reached_self b Hb). exists p.
      split; [apply Hm|by apply Ha].
    + intros x [->|Hx]%elem_of_cons; [constructor|]. eapply rtc_r; [by apply Ha|apply Hm].
Qed.

Lemma chain_short b d s n : b ∈ known -> data_ok gm par st b d s n -> (n < size known)%nat.
Proof.
  intros Hb Hd. destruct (chain_list b d s n Hb Hd) as (l & Hl & Hnd & Ha).
  assert ((length l <= size known)%nat); [|lia]. apply known_bound; [done|].
  intros x Hx. apply (anc_known x b Hb). by apply Ha.
Qed.

End facts.

(** * Colouring the merge set *)

Section colouring.
Context `{T : DAGTopologyManager} `{HS : BlockHeaderStore} (gm : ghostdagManager).
Context (par : bytes -> list bytes) (known : gset bytes) (st : ghostdag_store).
Context (Htop : topology_ok par known).
Context (Hwork : forall b, b ∈ known -> 0 < work_of b).
Context (Hok : forall b, b ∈ known -> exists d s n, data_ok gm par st b d s n).
Context (Hk : 0 <= gm_k gm < 255).

(** The selected parent of the new block. *)
Context (p : bytes) (dp : BlockGHOSTDAGData) (sp : gset bytes) (np : nat).
Context (Hp : p ∈ known) (Hpd : data_ok gm par st p dp sp np).

(** The new block's data part of the way: [s] is its blue set so far. *)
Record colouring (nd : BlockGHOSTDAGData) (s : gset bytes) : Prop := {
  cl_parent : SelectedParent nd = Some p;
  cl_set : s = list_to_set (MergeSetBlues nd) ∪ sp;
  cl_known : forall x, x ∈ s -> x ∈ known;
  cl_nodup : NoDup (MergeSetBlues nd);
  cl_fresh : forall x, x ∈ MergeSetBlues nd -> x ∉ sp;
  cl_length : zlen (MergeSetBlues nd) <= gm_k gm + 1;
  cl_sizes : sizes_recorded gm st nd s (S np)
}.

Section candidate.
Context (nd : BlockGHOSTDAGData) (s : gset bytes) (Hcol : colouring nd s).
Context (c : bytes) (Hc : c ∈ known) (Hcs : c ∉ s) (Hnew : forall x, x ∈ s -> ~ anc par c x).

(** The counters after the blues [v] have been visited. *)
Record visited (v : gset bytes) (cc : candidate_counters) : Prop := {
  vi_dom : dom (candidateBluesAnticoneSizes cc) = filter (fun x => is_anc x c = false) v;
  vi_sizes : forall x n, candidateBluesAnticoneSizes cc !! x = Some n ->
    n = Z.of_nat (size (anticone_in s x)) /\ n < gm_k gm;
  vi_count : candidateAnticoneSize cc = Z.of_nat (size (filter (fun x => is_anc x c = false) v));
  vi_bound : candidateAnticoneSize cc <= gm_k gm
}.

Lemma visited_skip v x cc : visited v cc -> is_anc x c = true -> visited ({[x]} ∪ v) cc.
Proof.
  intros [Hd Hs Hn Hb] Hx.
  assert (Hf : filter (fun x => is_anc x c = false) ({[x]} ∪ v) = filter (fun x => is_anc x c = false) v).
  { apply set_eq. intros y. rewrite !elem_of_filter, elem_of_union, elem_of_singleton.
    split; [|tauto]. intros [Hy [->|Hv]]; [congruence|done]. }
  constructor; rewrite ?Hf; done.
Qed.

Lemma visited_count v x cc n :
  visited v cc -> x ∉ v -> is_anc x c = false -> n = Z.of_nat (size (anticone_in s x)) -> n < gm_k gm ->
  candidateAnticoneSize cc < gm_k gm ->
  visited ({[x]} ∪ v) (mk_candidate_counters (<[x := n]> (candidateBluesAnticoneSizes cc))
                          (uint8 (candidateAnticoneSize cc + 1))).
Proof.
  intros [Hd Hs Hn Hb] Hxv Hx Hsz Hlt Hcnt.
  assert (Hf : filter (fun x => is_anc x c = false) ({[x]} ∪ v) = {[x]} ∪ filter (fun x => is_anc x c = false) v).
  { apply set_eq. intros y. rewrite elem_of_union, !elem_of_filter, elem_of_union, elem_of_singleton.
    split; [tauto|]. intros [->|[? ?]]; [by split; [|left]|tauto]. }
  assert (Hsize : size ({[x]} ∪ filter (fun x => is_anc x c = false) v) =
                  S (size (filter (fun x => is_anc x c = false) v))).
  { rewrite size_union, size_singleton by (intros y; set_solver). done. }
  assert (Hu : uint8 (candidateAnticoneSize cc + 1) = candidateAnticoneSize cc + 1)
    by (apply uint8_id; unfold is_byte; lia).
  constructor; cbn; rewrite ?Hf, ?Hsize, ?Hu.
  - by rewrite dom_insert_L, Hd.
  - intros y m. rewrite lookup_insert_Some. intros [[<- <-]|[_ Hy]]; [by split|by apply Hs].
  - lia.
  - lia.
Qed.

Section walk.
Context (fuel : nat) (Hfuel : (S np <= fuel)%nat).

Lemma check_blues_spec l : forall v cc,
  visited v cc -> NoDup l -> (forall x, x ∈ l -> x ∈ s /\ x ∉ v) ->
  exists r cc', check_blues gm st fuel nd c l cc = Ok (r, cc') /\
    (r = false -> visited (list_to_set l ∪ v) cc').
Proof.
  induction l as [|x l IH]; intros v cc Hv Hnd Hl; cbn [check_blues].
  - exists false, cc. split; [done|]. intros _. by rewrite list_to_set_nil, union_empty_l_L.
  - apply NoDup_cons in Hnd as [Hx Hnd]. destruct (Hl x ltac:(set_solver)) as [Hxs Hxv].
    assert (Hxk : x ∈ known) by (by apply (cl_known _ _ Hcol)).
    assert (Hstep : forall cc', visited ({[x]} ∪ v) cc' -> exists r cc'',
      check_blues gm st fuel nd c l cc' = Ok (r, cc'') /\ (r = false -> visited (list_to_set (x :: l) ∪ v) cc'')).
    { intros cc' Hv'. destruct (IH ({[x]} ∪ v) cc') as (r & cc'' & Hr & Hv''); [done|done|set_solver|].
      exists r, cc''. split; [done|]. intros ->. rewrite list_to_set_cons.
      replace ({[x]} ∪ list_to_set l ∪ v) with (list_to_set l ∪ ({[x]} ∪ v)) by set_solver. by apply Hv''. }
    destruct (is_anc_spec par known Htop x c Hxk Hc) as [-> _]. cbn [bind_res].
    destruct (is_anc x c) eqn:Hxc; [by apply Hstep, visited_skip|].
    destruct (cl_sizes _ _ Hcol x fuel Hxs Hfuel) as [-> Hle]. cbn [bind_res].
    assert (Hcnt : 0 <= candidateAnticoneSize cc) by (rewrite (vi_count _ _ Hv); lia).
    pose proof (vi_bound _ _ Hv) as Hb. cbn [candidateAnticoneSize candidateBluesAnticoneSizes].
    rewrite uint8_id by (unfold is_byte; lia).
    destruct (Z.gtb_spec (candidateAnticoneSize cc + 1) (gm_k gm)); [by eexists true, _|].
    destruct (Z.eqb_spec (Z.of_nat (size (anticone_in s x))) (gm_k gm)); [by eexists true, _|].
    destruct (Z.gtb_spec (Z.of_nat (size (anticone_in s x))) (gm_k gm)); [lia|].
    replace (candidateAnticoneSize cc + 1) with (uint8 (candidateAnticoneSize cc + 1))
      by (apply uint8_id; unfold is_byte; lia).
    apply Hstep, visited_count; try done; lia.
Qed.

(** When the walk stops at a chain block below the candidate, all blues have
    been accounted for. *)
Lemma visited_all v h sh cc :
  h ∈ known -> (forall x, x ∈ sh -> anc par x h) -> is_anc h c = true -> v ∪ sh = s ->
  visited v cc -> visited s cc.
Proof.
  intros Hh Hsh Hhc <- [Hd Hs Hn Hb].
  assert (Hall : forall x, x ∈ sh -> is_anc x c = true).
  { intros x Hx. apply (is_anc_spec par known Htop); [eapply anc_known; eauto|done|].
    etrans; [by apply Hsh|]. by apply (is_anc_spec par known Htop). }
  assert (Hf : filter (fun x => is_anc x c = false) (v ∪ sh) = filter (fun x => is_anc x c = false) v).
  { apply set_eq. intros x. rewrite !elem_of_filter, elem_of_union. split; [|tauto].
    intros [Hx [Hxv|Hxs]]; [done|]. rewrite (Hall x Hxs) in Hx. done. }
  constructor; by rewrite ?Hf.
Qed.

(** The walk down the selected chain, from a chain block. *)
Lemma chain_walk h dh sh nh : data_ok gm par st h dh sh nh -> forall v cc walk,
  h ∈ known -> visited v cc -> v ∪ sh = s -> (forall x, x ∈ sh -> x ∉ v) -> (S nh <= walk)%nat ->
  exists r, checkBlueCandidate_loop gm st fuel walk nd (Some h, dh) c cc = Ok r /\
    forall cc', r = Some cc' -> visited s cc'.
Proof.
  intros Hd. pose proof (genesis_anc gm par st) as Hgen.
  induction Hd as [Hg Hpar|h dh q rest dq sq nq Hb Hne Hd IH Hm Hs Hw Hr]; intros v cc walk Hh Hv Hvs Hdisj Hwalk;
    (destruct walk as [|walk]; [lia|]); cbn [checkBlueCandidate_loop];
    unfold checkBlueCandidateWithChainBlock; cbn [fst snd];
    destruct (is_anc_spec par known Htop _ c Hh Hc) as [-> Hiff]; cbn [bind_res].
  - destruct (Hok c Hc) as (dc & sc & nc & Hcd). rewrite (proj2 Hiff (Hgen _ _ _ _ Hcd)). cbn [bind_res].
    eexists. split; [done|]. intros cc' [= <-].
    apply (visited_all v (gm_genesisHash gm) ∅ cc); [done|set_solver|by apply Hiff, (Hgen _ _ _ _ Hcd)|done|done].
  - assert (Hblue : forall x, x ∈ list_to_set (MergeSetBlues dh) ∪ sq -> anc par x h).
    { intros x Hx. eapply blue_anc; [|exact Hx]. by econstructor. }
    destruct (is_anc h c) eqn:Hhc; cbn [bind_res].
    { eexists. split; [done|]. intros cc' [= <-]. by eapply visited_all. }
    assert (Hq : q ∈ known) by (eapply top_closed; [done|exact Hh|apply Hm]).
    destruct (check_blues_spec (MergeSetBlues dh) v cc) as (r & cc' & -> & Hv').
    { done. }
    { by eapply merges_nodup. }
    { intros x Hx. split; [rewrite <- Hvs; set_solver|apply Hdisj; set_solver]. }
    cbn [bind_res fst snd]. destruct r; [by eexists|].
    rewrite (mg_parent _ _ _ _ _ _ _ Hm). unfold ghostdag_Get. rewrite (data_ok_lookup _ _ _ _ _ _ _ Hd).
    cbn [bind_res]. apply (IH (list_to_set (MergeSetBlues dh) ∪ v)); [done|by apply Hv'|
      by rewrite <- Hvs, union_assoc_L, (union_comm_L v)| |lia].
    intros x Hx [Hx'|Hx']%elem_of_union.
    + apply elem_of_list_to_set in Hx'.
      by eapply (merges_fresh gm par st known Htop Hwork Hok h dh q rest dq sq nq x).
    + apply (Hdisj x); set_solver.
Qed.

Lemma new_block_walk walk : (S (S np) <= walk)%nat ->
  exists r, checkBlueCandidate_loop gm st fuel walk nd (None, nd) c (mk_candidate_counters ∅ 0) = Ok r /\
    forall cc, r = Some cc -> visited s cc.
Proof.
  intros Hw. destruct walk as [|walk]; [lia|]. cbn [checkBlueCandidate_loop].
  unfold checkBlueCandidateWithChainBlock. cbn [fst snd bind_res].
  destruct (check_blues_spec (MergeSetBlues nd) ∅ (mk_candidate_counters ∅ 0)) as (r & cc & -> & Hv).
  { constructor; cbn.
    - set_solver.
    - intros x n Hn. by rewrite lookup_empty in Hn.
    - replace (filter _ _) with (∅ : gset bytes) by set_solver. done.
    - lia. }
  { apply Hcol. }
  { intros x Hx. rewrite (cl_set _ _ Hcol), elem_of_union, elem_of_list_to_set. set_solver. }
  cbn [bind_res fst snd]. destruct r; [by exists None|].
  rewrite (cl_parent _ _ Hcol). unfold ghostdag_Get. rewrite (data_ok_lookup _ _ _ _ _ _ _ Hpd). cbn [bind_res].
  apply (chain_walk p dp sp np Hpd (list_to_set (MergeSetBlues nd) ∪ ∅) cc walk).
  - done.
  - by apply Hv.
  - rewrite union_empty_r_L. symmetry. apply Hcol.
  - intros x Hx. rewrite union_empty_r_L, elem_of_list_to_set. intros Hx'. by apply (cl_fresh _ _ Hcol x Hx').
  - lia.
Qed.

Lemma checkBlueCandidate_spec : (S (S np) <= fuel)%nat ->
  exists r, checkBlueCandidate gm st fuel nd c = Ok r /\
    forall cc, r = Some cc -> visited s cc /\ zlen (MergeSetBlues nd) <= gm_k gm.
Proof.
  intros Hf. unfold checkBlueCandidate. pose proof (cl_length _ _ Hcol) as Hlen. zlen_facts.
  rewrite !uint8_id by (unfold is_byte; lia).
  destruct (Z.eqb_spec (zlen (MergeSetBlues nd)) (gm_k gm + 1)); [by exists None|].
  destruct (new_block_walk fuel Hf) as (r & -> & Hv). exists r. split; [done|].
  intros cc Hcc. split; [by apply Hv|lia].
Qed.

End walk.

(** What adding the candidate does to the anticones. *)
Lemma candidate_not_below x : x ∈ s -> is_anc c x = false.
Proof.
  intros Hx. apply (is_anc_false par known Htop); [done|by apply (cl_known _ _ Hcol)|by apply Hnew].
Qed.

Lemma anticone_blue x : x ∈ s ->
  anticone_in ({[c]} ∪ s) x = if is_anc x c then anticone_in s x else {[c]} ∪ anticone_in s x.
Proof.
  intros Hx. pose proof (candidate_not_below x Hx) as Hcx. apply set_eq. intros y. unfold anticone_in.
  destruct (is_anc x c) eqn:Hxc; rewrite ?elem_of_union, !elem_of_filter, elem_of_union, elem_of_singleton.
  - split; [|tauto]. intros [[H1 H2] [->|Hy]]; [congruence|tauto].
  - split; [tauto|]. intros [->|[? ?]]; [by split; [|left]|tauto].
Qed.

Lemma anticone_candidate : anticone_in ({[c]} ∪ s) c = filter (fun x => is_anc x c = false) s.
Proof.
  apply set_eq. intros y. unfold anticone_in. rewrite !elem_of_filter, elem_of_union, elem_of_singleton. split.
  - intros [[H1 _] [->|Hy]]; [|done]. exfalso.
    assert (is_anc c c = true); [|congruence]. apply (is_anc_spec par known Htop); [done|done|constructor].
  - intros [H1 Hy]. split; [|by right]. split; [done|by apply candidate_not_below].
Qed.

Lemma blueAnticoneSize_same nd1 nd2 x f :
  BluesAnticoneSizes nd1 !! x = BluesAnticoneSizes nd2 !! x -> SelectedParent nd1 = SelectedParent nd2 ->
  blueAnticoneSize gm st f x nd1 = blueAnticoneSize gm st f x nd2.
Proof.
  intros H1 H2. unfold blueAnticoneSize. destruct f; [done|]. cbn [blueAnticoneSize_loop]. by rewrite H1, H2.
Qed.

Lemma set_blue_sizes cc : visited s cc -> sizes_recorded gm st (set_blue c cc nd) ({[c]} ∪ s) (S np).
Proof.
  intros Hv x f Hx Hf. apply elem_of_union in Hx as [Hx|Hx].
  - apply elem_of_singleton in Hx as ->. destruct f as [|f]; [lia|].
    rewrite anticone_candidate, <- (vi_count _ _ Hv). split; [|apply Hv].
    unfold blueAnticoneSize. cbn [blueAnticoneSize_loop set_blue BluesAnticoneSizes].
    assert (Hn : candidateBluesAnticoneSizes cc !! c = None).
    { apply not_elem_of_dom. rewrite (vi_dom _ _ Hv). set_solver. }
    by rewrite lookup_union_r, lookup_insert_eq by (by rewrite lookup_fmap, Hn).
  - assert (Hne : x <> c) by congruence. destruct (cl_sizes _ _ Hcol x f Hx Hf) as [Hsz Hle].
    rewrite (anticone_blue x Hx). destruct (is_anc x c) eqn:Hxc.
    + split; [|done]. rewrite <- Hsz. apply blueAnticoneSize_same; [|done].
      assert (Hn : candidateBluesAnticoneSizes cc !! x = None).
      { apply not_elem_of_dom. rewrite (vi_dom _ _ Hv), elem_of_filter. intros [? _]. congruence. }
      cbn. by rewrite lookup_union_r, lookup_insert_ne by (done || by rewrite lookup_fmap, Hn).
    + assert (Hd : x ∈ dom (candidateBluesAnticoneSizes cc)) by (rewrite (vi_dom _ _ Hv); by apply elem_of_filter).
      apply elem_of_dom in Hd as [n Hn]. destruct (vi_sizes _ _ Hv x n Hn) as [Hn' Hlt].
      rewrite size_union, size_singleton by (unfold anticone_in; set_solver). split; [|lia].
      destruct f as [|f]; [lia|]. unfold blueAnticoneSize.
      cbn [blueAnticoneSize_loop set_blue BluesAnticoneSizes].
      rewrite (lookup_union_Some_l _ _ x (uint8 (n + 1))) by (by rewrite lookup_fmap, Hn).
      rewrite uint8_id by (unfold is_byte; lia). f_equal. lia.
Qed.

Lemma colouring_blue cc :
  visited s cc -> zlen (MergeSetBlues nd) <= gm_k gm -> c ∉ sp -> colouring (set_blue c cc nd) ({[c]} ∪ s).
Proof.
  intros Hv Hlen Hcsp. pose proof (set_blue_sizes cc Hv) as Hsizes. destruct Hcol as [Hpar Hset Hkn Hnd Hfr _ _].
  constructor; cbn [set_blue SelectedParent MergeSetBlues]; try done.
  - rewrite Hset, list_to_set_app_L. set_solver.
  - intros x [Hx|Hx]%elem_of_union; [by apply elem_of_singleton in Hx as ->|by apply Hkn].
  - apply NoDup_app. split; [done|]. split; [|apply NoDup_singleton].
    intros x Hx Hxc%list_elem_of_singleton. subst x. apply Hcs. rewrite Hset. set_solver.
  - intros x [Hx|Hx]%elem_of_app; [by apply Hfr|]. by apply list_elem_of_singleton in Hx as ->.
  - zlia.
Qed.

Lemma colouring_red : colouring (set_red c nd) s.
Proof.
  destruct Hcol as [Hpar Hset Hkn Hnd Hfr Hlen Hsz]. constructor; try done.
  intros x f Hx Hf. rewrite (blueAnticoneSize_same _ nd); [by apply Hsz|done|done].
Qed.

End candidate.

Lemma StronglySorted_snoc {A} (R : A -> A -> Prop) l x :
  StronglySorted R l -> (forall y, y ∈ l -> R y x) -> StronglySorted R (l ++ [x]).
Proof.
  induction 1 as [|y l Hs IH Hmin]; intros Hx; [repeat constructor|]. simpl. constructor.
  - apply IH. set_solver.
  - apply Forall_app. split; [done|]. apply Forall_singleton. apply Hx. left.
Qed.

(** The candidates come in order: what was coloured before is not above. *)
Lemma candidate_new nd s rest c :
  colouring nd s -> MergeSetBlues nd = p :: rest -> (forall x, x ∈ rest -> lt_block st x c) ->
  ~ anc par c p -> forall x, x ∈ s -> ~ anc par c x.
Proof.
  intros Hcol Hb Hlt Hcp x Hx Hcx. pose proof (cl_known _ _ Hcol x Hx) as Hxk.
  rewrite (cl_set _ _ Hcol), Hb, elem_of_union, elem_of_list_to_set, elem_of_cons in Hx.
  destruct Hx as [[->|Hx]|Hx].
  - done.
  - apply (lt_block_irrefl st c). destruct (decide (c = x)) as [->|Hne]; [by apply Hlt|].
    eapply lt_block_trans; [|by apply Hlt]. by apply (anc_lt gm par st known Htop Hwork Hok).
  - apply Hcp. etrans; [exact Hcx|]. by eapply blue_anc.
Qed.

Lemma colour_loop_spec fuel l : (S (S np) <= fuel)%nat -> forall nd s rest,
  colouring nd s -> MergeSetBlues nd = p :: rest ->
  StronglySorted (lt_block st) rest -> StronglySorted (lt_block st) (MergeSetReds nd) ->
  StronglySorted (lt_block st) l ->
  (forall x y, x ∈ rest ++ MergeSetReds nd -> y ∈ l -> lt_block st x y) ->
  (forall x, x ∈ l -> x ∈ known /\ ~ anc par x p) ->
  exists nd' s' rest', colour_loop gm st fuel l nd = Ok nd' /\ colouring nd' s' /\
    MergeSetBlues nd' = p :: rest' /\ rest' ++ MergeSetReds nd' ≡ₚ (rest ++ MergeSetReds nd) ++ l /\
    StronglySorted (lt_block st) rest' /\ StronglySorted (lt_block st) (MergeSetReds nd').
Proof.
  intros Hf. induction l as [|c l IH]; intros nd s rest Hcol Hb Hs1 Hs2 Hs Hlt Hl; cbn [colour_loop].
  - exists nd, s, rest. rewrite app_nil_r. done.
  - destruct (Hl c ltac:(set_solver)) as [Hc Hcp]. inversion Hs as [|? ? Hs' Hmin]; subst.
    rewrite Forall_forall in Hmin.
    assert (Hnew : forall x, x ∈ s -> ~ anc par c x).
    { eapply candidate_new; try done. intros x Hx. apply Hlt; set_solver. }
    assert (Hcs : c ∉ s) by (intros Hcs; by apply (Hnew c Hcs)).
    destruct (checkBlueCandidate_spec nd s Hcol c Hc Hcs Hnew fuel ltac:(lia) Hf) as (r & -> & Hr). cbn [bind_res].
    destruct r as [cc|].
    + destruct (Hr cc eq_refl) as [Hv Hlen].
      destruct (IH (set_blue c cc nd) ({[c]} ∪ s) (rest ++ [c])) as (nd' & s' & rest' & -> & H1 & H2 & H3 & H4 & H5).
      * apply (colouring_blue nd s Hcol c Hc Hcs Hnew); [done|done|].
        intros Hsp. apply Hcs. rewrite (cl_set _ _ Hcol). set_solver.
      * cbn. by rewrite Hb.
      * apply StronglySorted_snoc; [done|]. intros y Hy. apply Hlt; set_solver.
      * done.
      * done.
      * cbn. intros x y Hx Hy. rewrite <- app_assoc, !elem_of_app, list_elem_of_singleton in Hx.
        destruct Hx as [Hx|[->|Hx]]; [apply Hlt; set_solver|by apply Hmin|apply Hlt; set_solver].
      * set_solver.
      * exists nd', s', rest'. split; [done|]. split; [done|]. split; [done|]. split; [|done].
        rewrite H3. cbn. solve_Permutation.
    + destruct (IH (set_red c nd) s rest) as (nd' & s' & rest' & -> & H1 & H2 & H3 & H4 & H5).
      * by apply colouring_red.
      * done.
      * done.
      * cbn. apply StronglySorted_snoc; [done|]. intros y Hy. apply Hlt; set_solver.
      * done.
      * cbn. intros x y Hx Hy. rewrite !elem_of_app, list_elem_of_singleton in Hx.
        destruct Hx as [Hx|[Hx| ->]]; [apply Hlt; set_solver|apply Hlt; set_solver|by apply Hmin].
      * set_solver.
      * exists nd', s', rest'. split; [done|]. split; [done|]. split; [done|]. split; [|done].
        rewrite H3. cbn. solve_Permutation.
Qed.

(** Before the first candidate only the selected parent is blue. *)
Lemma parent_anticone x : x ∈ sp -> anticone_in ({[p]} ∪ sp) x = anticone_in sp x.
Proof.
  intros Hx. assert (Hxp : anc par x p) by (by eapply blue_anc).
  assert (Hxp' : is_anc x p = true).
  { apply (is_anc_spec par known Htop); [by eapply anc_known|done|done]. }
  apply set_eq. intros y. unfold anticone_in. rewrite !elem_of_filter, elem_of_union, elem_of_singleton.
  split; [|tauto]. intros [[H1 H2] [->|Hy]]; [congruence|tauto].
Qed.

Lemma parent_anticone_empty : anticone_in ({[p]} ∪ sp) p = ∅.
Proof.
  apply set_eq. intros y. unfold anticone_in. rewrite elem_of_filter, elem_of_union, elem_of_singleton.
  split; [|by intros ?%elem_of_empty]. intros [[H1 _] Hy]. exfalso.
  assert (Hyp : anc par y p) by (destruct Hy as [->|Hy]; [constructor|by eapply blue_anc]).
  assert (is_anc y p = true); [|congruence].
  apply (is_anc_spec par known Htop); [by eapply anc_known|done|done].
Qed.

Lemma colouring_start :
  VirtualGenesisBlockHash ∉ known ->
  colouring (mk_BlockGHOSTDAGData 0 0 (Some p) [p] [] {[p := 0]}) ({[p]} ∪ sp).
Proof.
  intros Hvg. assert (Hpsp : p ∉ sp).
  { intros Hin. apply (not_reached_self gm par st known Htop Hwork Hok p Hp). by eapply blue_reached. }
  constructor; cbn; try done.
  - by rewrite union_empty_r_L.
  - intros x [Hx|Hx]%elem_of_union; [by apply elem_of_singleton in Hx as ->|].
    apply (anc_known par known Htop x p Hp). by eapply blue_anc.
  - apply NoDup_singleton.
  - intros x Hx%list_elem_of_singleton. by subst.
  - unfold zlen. simpl. lia.
  - intros x f [Hx|Hx]%elem_of_union Hf; (destruct f as [|f]; [lia|]);
      unfold blueAnticoneSize; cbn [blueAnticoneSize_loop BluesAnticoneSizes SelectedParent].
    + apply elem_of_singleton in Hx as ->. rewrite lookup_singleton_eq, parent_anticone_empty, size_empty.
      split; [done|lia].
    + rewrite (parent_anticone x Hx), lookup_singleton_ne by (intros ->; done).
      inversion Hpd as [Hg Hpar|p' d' q rest dq sq nq Hb Hne Hd Hm Hs Hw Hr]; subst; [set_solver|].
      unfold hash_Equal. rewrite bool_decide_false by congruence. unfold ghostdag_Get at 1. rewrite Hb. cbn [bind_res].
      rewrite (mg_parent _ _ _ _ _ _ _ Hm), bool_decide_false.
      * apply Hr; [done|lia].
      * intros [= ->]. apply Hvg. eapply top_closed; [done|exact Hp|apply Hm].
Qed.

End colouring.

(** * The data of a new block *)

Section insertion.
Context `{T : DAGTopologyManager} `{HS : BlockHeaderStore} (gm : ghostdagManager).
Context (par : bytes -> list bytes) (known : gset bytes) (st : ghostdag_store).
Context (Htop : topology_ok par known).
Context (Hheaders : forall b, b ∈ known -> exists h, header_of b = Ok h /\ 0 < CalcWork (hdr_Bits h)).
Context (Hok : forall b, b ∈ known -> exists d s n, data_ok gm par st b d s n).
Context (Hk : 0 <= gm_k gm < 255) (Hvg : VirtualGenesisBlockHash ∉ known).
Context (Hsmall : Z.of_nat (size known) < 2 ^ 63).

Lemma works_pos b : b ∈ known -> 0 < work_of b.
Proof. intros Hb. unfold work_of. by destruct (Hheaders b Hb) as (h & -> & Hh). Qed.

Lemma add_work_spec l : forall w, (forall x, x ∈ l -> x ∈ known) -> add_work l w = Ok (w + sumZ work_of l).
Proof.
  induction l as [|x l IH]; intros w Hl; cbn [add_work]; [simpl; f_equal; lia|].
  assert (Hx : x ∈ known) by (apply Hl; set_solver). unfold hash_Equal.
  rewrite bool_decide_false by (intros [= ->]; done). destruct (Hheaders x Hx) as (h & Hh & _).
  rewrite Hh. cbn [bind_res]. rewrite IH by set_solver. simpl. unfold work_of at 2. rewrite Hh. f_equal. lia.
Qed.

(** The blue score is the size of the blue set. *)
Lemma score_size b d s n : b ∈ known -> data_ok gm par st b d s n -> BlueScore d = Z.of_nat (size s).
Proof.
  intros Hb Hd. induction Hd as [d Hg Hp Hbd|b d p rest dp sp np Hb' Hne Hd IH Hm Hs Hw Hr]; [by rewrite (bd_score _ Hbd)|].
  assert (Hp : p ∈ known) by (eapply top_closed; [done|exact Hb|apply Hm]).
  rewrite Hs, (IH Hp), size_union.
  - rewrite size_list_to_set by (by eapply merges_nodup). unfold zlen. lia.
  - intros x Hx%elem_of_list_to_set.
    eapply (merges_fresh gm par st known Htop works_pos Hok b d p rest dp sp np); done.
Qed.

Lemma blue_set_known b d s n : b ∈ known -> data_ok gm par st b d s n -> s ⊆ known.
Proof.
  intros Hb Hd x Hx. apply (anc_known par known Htop x b Hb). by eapply blue_anc.
Qed.

Context (b : bytes) (Hnew : b ∉ known) (Hst : st !! (b, false) = None) (Hgen : b <> gm_genesisHash gm).
Context (Hpar : Parents b = Ok (par b)) (Hne : par b <> []) (Hnd : NoDup (par b)).
Context (Hknown : forall q, q ∈ par b -> q ∈ known).
Context (Hanti : forall q r, q ∈ par b -> r ∈ par b -> anc par q r -> q = r).
Context (fuel : nat) (Hfuel : (size known < fuel)%nat).

Lemma mergeSet_spec p : p ∈ par b ->
  exists l, mergeSetWithoutSelectedParent st fuel (Some p) (par b) = Ok l /\ NoDup l /\
    StronglySorted (lt_block st) l /\ forall x, x ∈ l <-> reached par (par b) x /\ ~ anc par x p.
Proof.
  intros Hp. unfold mergeSetWithoutSelectedParent.
  destruct (merge_search_spec par known Htop p (Hknown p Hp) (par b) fuel) as (l & -> & Hl & Hset);
    [done|done|done| |lia|].
  { intros q Hq Hqp Hanc. apply Hqp. by apply Hanti. }
  cbn [bind_res]. destruct (sortMergeSet_spec st l) as (l' & -> & Hp' & Hs).
  { apply Forall_forall. intros x [Hx _]%Hset. apply (has_data_known gm par st known Hok).
    by apply (reached_known par known Htop (par b)). }
  { done. }
  exists l'. split; [done|]. split; [by rewrite Hp'|]. split; [done|]. intros x. by rewrite Hp'.
Qed.

(** Once the merge set is coloured the data is right. *)
Lemma coloured_data_ok p dp sp np nd s rest l score work :
  p ∈ par b -> (forall q, q ∈ par b -> q = p \/ lt_block st q p) -> data_ok gm par st p dp sp np ->
  (forall x, x ∈ l <-> reached par (par b) x /\ ~ anc par x p) -> NoDup l ->
  colouring gm known st p sp np nd s -> MergeSetBlues nd = p :: rest -> rest ++ MergeSetReds nd ≡ₚ l ->
  StronglySorted (lt_block st) rest -> StronglySorted (lt_block st) (MergeSetReds nd) ->
  score = BlueScore dp + zlen (MergeSetBlues nd) -> work = BlueWork dp + sumZ work_of (MergeSetBlues nd) ->
  data_ok gm par (<[(b, false) := set_scores score work nd]> st) b (set_scores score work nd)
    (list_to_set (MergeSetBlues nd) ∪ sp) (S np).
Proof.
  intros Hp Hmax Hpd Hset Hlnd Hcol Hb Hperm Hs1 Hs2 Hscore Hwork. set (d := set_scores score work nd).
  assert (Hsub : st ⊆ <[(b, false) := d]> st) by (by apply insert_subseteq).
  apply (ok_block gm par _ b d p rest dp sp np); try done.
  - by rewrite lookup_insert_eq.
  - by eapply data_ok_mono.
  - apply (merges_mono gm par st); [done|].
    constructor; cbn [d set_scores SelectedParent MergeSetBlues MergeSetReds]; try done.
    + apply Hcol.
    + apply Hcol.
    + by rewrite Hperm.
    + intros x. by rewrite Hperm.
  - change (MergeSetBlues d) with (MergeSetBlues nd). rewrite <- (cl_set _ _ _ _ _ _ _ _ Hcol).
    apply (sizes_recorded_mono gm st); [done|]. intros x f Hx Hf.
    rewrite (blueAnticoneSize_same gm st d nd) by done. by apply (cl_sizes _ _ _ _ _ _ _ _ Hcol).
Qed.

Lemma ghostdag_data_block : exists d s n,
  ghostdag_data gm st fuel b = Ok d /\ data_ok gm par (<[(b, false) := d]> st) b d s n.
Proof.
  unfold ghostdag_data. rewrite Hpar. cbn [bind_res].
  destruct (findSelectedParent_spec st (par b)) as (p & Hfp & Hp & Hmax); [done| |done|].
  { apply Forall_forall. intros q Hq. apply (has_data_known gm par st known Hok). by apply Hknown. }
  assert (Hng : match par b with [] => true | _ => false end = false) by (destruct (par b); done).
  rewrite Hfp, Hng. cbn [bind_res].
  destruct (Hok p (Hknown p Hp)) as (dp & sp & np & Hpd).
  destruct (mergeSet_spec p Hp) as (l & Hl & Hlnd & Hls & Hset). cbn [SelectedParent]. rewrite Hl. cbn [bind_res].
  pose proof (chain_short gm par st known Htop works_pos Hok p dp sp np (Hknown p Hp) Hpd) as Hshort.
  pose proof (colouring_start gm par known st Htop works_pos Hok Hk p dp sp np (Hknown p Hp) Hpd Hvg) as Hstart.
  destruct (colour_loop_spec gm par known st Htop works_pos Hok Hk p dp sp np (Hknown p Hp) Hpd fuel l ltac:(lia)
    _ _ [] Hstart) as (nd & s & rest & -> & Hcol & Hb & Hperm & Hs1 & Hs2).
  { done. }
  { constructor. }
  { constructor. }
  { done. }
  { intros x y Hx. by apply not_elem_of_nil in Hx. }
  { intros x [Hx Hxp]%Hset. split; [|done]. by apply (reached_known par known Htop (par b)). }
  cbn in Hperm. cbn [bind_res]. rewrite (cl_parent _ _ _ _ _ _ _ _ Hcol). unfold ghostdag_Get.
  rewrite (data_ok_lookup _ _ _ _ _ _ _ Hpd). cbn [bind_res].
  assert (Hbk : forall x, x ∈ MergeSetBlues nd -> x ∈ known).
  { intros x Hx. apply (cl_known _ _ _ _ _ _ _ _ Hcol). rewrite (cl_set _ _ _ _ _ _ _ _ Hcol). set_solver. }
  rewrite add_work_spec by done. cbn [bind_res].
  pose proof (cl_length _ _ _ _ _ _ _ _ Hcol) as Hlen. zlen_facts.
  assert (Hscore : 0 <= BlueScore dp < 2 ^ 63).
  { rewrite (score_size p dp sp np (Hknown p Hp) Hpd).
    pose proof (subseteq_size _ _ (blue_set_known p dp sp np (Hknown p Hp) Hpd)). lia. }
  rewrite !uint64_id by (rewrite ?uint64_id; lia).
  eexists _, _, (S np). split; [done|]. by eapply coloured_data_ok.
Qed.

End insertion.
