(* ===== verification/GhostdagDag.v ===== *)
(** What GHOSTDAG computes on a DAG: the blue set of every block is a k-cluster,
    the merge set is the past of the block without that of its selected parent,
    in topological order, and blue score and blue work count the blue set.
    Proved for every DAG whose blocks are processed in order from the genesis,
    with more fuel than there are blocks. *)

From Stdlib Require Import Sorted.
From S2P Require Import Prelude Transaction TxMass Block Difficulty Ghostdag GhostdagMergeSet GhostdagSpec.

(** * A whole DAG *)

(** Running GHOSTDAG on the blocks of a DAG, in order. *)
Fixpoint ghostdag_all `{DAGTopologyManager} `{BlockHeaderStore} (gm : ghostdagManager) (fuel : nat)
    (blocks : list bytes) : M GhostdagError ghostdag_store unit :=
  match blocks with
  | [] => ret tt
  | b :: rest => GHOSTDAG gm fuel b ;; ghostdag_all gm fuel rest
  end.

(** The blocks of a DAG in an order in which parents come first.  As block
    validation demands, the parents of a block are pairwise different and none
    is an ancestor of another. *)
Record dag_in_order (genesis : bytes) (par : bytes -> list bytes) (blocks : list bytes) : Prop := {
  dag_genesis : head blocks = Some genesis;
  dag_genesis_parents : par genesis = [];
  dag_nodup : NoDup blocks;
  dag_parents : forall pre b post, blocks = pre ++ b :: post -> b <> genesis ->
    par b <> [] /\ NoDup (par b) /\ (forall q, q ∈ par b -> q ∈ pre) /\
    (forall q r, q ∈ par b -> r ∈ par b -> anc par q r -> q = r)
}.

(** The DAG and the components GHOSTDAG calls. *)
Record ghostdag_env `{DAGTopologyManager} `{BlockHeaderStore} (gm : ghostdagManager)
    (par : bytes -> list bytes) (blocks : list bytes) : Prop := {
  env_order : dag_in_order (gm_genesisHash gm) par blocks;
  env_topology : topology_ok par (list_to_set blocks);
  env_parents : forall b, b ∈ blocks -> Parents b = Ok (par b);
  env_headers : forall b, b ∈ blocks -> exists h, header_of b = Ok h /\ 0 < CalcWork (hdr_Bits h);
  env_k : 0 <= gm_k gm < 255;
  env_virtual : VirtualGenesisBlockHash ∉ blocks;
  env_small : zlen blocks < 2 ^ 63
}.

Section run.
Context `{T : DAGTopologyManager} `{HS : BlockHeaderStore} (gm : ghostdagManager).
Context (par : bytes -> list bytes) (blocks : list bytes) (Henv : ghostdag_env gm par blocks).

Lemma topology_prefix pre post : blocks = pre ++ post -> topology_ok par (list_to_set pre).
Proof.
  intros Hb. destruct (env_topology _ _ _ Henv) as [Hp _ Ha]. constructor.
  - intros b x Hin%elem_of_list_to_set Hx%elem_of_list_to_set. apply Hp; apply elem_of_list_to_set; rewrite Hb; set_solver.
  - intros b q Hin%elem_of_list_to_set Hq. apply elem_of_list_to_set.
    apply list_elem_of_split in Hin as (l1 & l2 & ->).
    destruct (decide (b = gm_genesisHash gm)) as [->|Hne].
    + rewrite (dag_genesis_parents _ _ _ (env_order _ _ _ Henv)) in Hq. by apply not_elem_of_nil in Hq.
    + destruct (dag_parents _ _ _ (env_order _ _ _ Henv) l1 b (l2 ++ post)) as (_ & _ & Hin & _);
        [by rewrite Hb, <- app_assoc|done|]. apply elem_of_app. left. by apply Hin.
  - intros a b Ha'%elem_of_list_to_set Hb'%elem_of_list_to_set.
    apply Ha; apply elem_of_list_to_set; rewrite Hb; set_solver.
Qed.

(** What holds after the blocks [pre]. *)
Definition run_inv (pre : list bytes) (st : ghostdag_store) : Prop :=
  (forall b, b ∈ pre -> exists d s n, data_ok gm par st b d s n) /\
  (forall b, is_Some (st !! (b, false)) -> b ∈ pre).

Lemma dag_insert pre st b d s n :
  run_inv pre st -> b ∉ pre -> data_ok gm par (<[(b, false) := d]> st) b d s n ->
  run_inv (pre ++ [b]) (<[(b, false) := d]> st).
Proof.
  intros [Hok Hdom] Hb Hd. assert (Hsub : st ⊆ <[(b, false) := d]> st).
  { apply insert_subseteq. destruct (st !! (b, false)) eqn:E; [|done]. by destruct Hb; apply Hdom. }
  split.
  - intros x [Hx|Hx]%elem_of_app.
    + destruct (Hok x Hx) as (dx & sx & nx & Hx'). exists dx, sx, nx. by eapply data_ok_mono.
    + apply list_elem_of_singleton in Hx as ->. eauto.
  - intros x [dx Hx]. apply elem_of_app. destruct (decide (x = b)) as [->|Hne]; [right; set_solver|].
    left. apply Hdom. rewrite lookup_insert_ne in Hx by congruence. eauto.
Qed.

Lemma dag_step pre b post st fuel :
  blocks = pre ++ b :: post -> run_inv pre st -> (length blocks < fuel)%nat ->
  exists d, GHOSTDAG gm fuel b st = (Ok tt, <[(b, false) := d]> st) /\
    run_inv (pre ++ [b]) (<[(b, false) := d]> st).
Proof.
  intros Hb Hinv Hf. pose proof (env_order _ _ _ Henv) as Hord. pose proof (dag_nodup _ _ _ Hord) as Hnd.
  assert (Hbp : b ∉ pre).
  { rewrite Hb, NoDup_app in Hnd. destruct Hnd as (_ & Hd & _). intros Hin. apply (Hd b Hin). left. }
  assert (Hpar : Parents b = Ok (par b)).
  { apply (env_parents _ _ _ Henv). rewrite Hb. set_solver. }
  assert (Hdata : exists d s n, ghostdag_data gm st fuel b = Ok d /\ data_ok gm par (<[(b, false) := d]> st) b d s n).
  { destruct (decide (b = gm_genesisHash gm)) as [->|Hne].
    - pose proof (dag_genesis_parents _ _ _ Hord) as Hgp. exists genesis_data, ∅, 0%nat. split.
      + unfold ghostdag_data. rewrite Hpar, Hgp. cbn [bind_res].
        unfold mergeSetWithoutSelectedParent. cbn [queue_parents]. by destruct fuel.
      + apply ok_genesis; [by rewrite lookup_insert_eq|done|apply base_genesis].
    - destruct (dag_parents _ _ _ Hord pre b post Hb Hne) as (H1 & H2 & H3 & H4).
      destruct Hinv as [Hok Hdom].
      assert (Hsize : size (list_to_set pre : gset bytes) = length pre).
      { apply size_list_to_set. rewrite Hb, NoDup_app in Hnd. apply Hnd. }
      assert (Hlen : (length pre < length blocks)%nat) by (rewrite Hb, length_app; simpl; lia).
      pose proof (env_small _ _ _ Henv) as Hsmall. unfold zlen in Hsmall.
      apply (ghostdag_data_block gm par (list_to_set pre) st (topology_prefix pre (b :: post) Hb));
        try done; try (rewrite Hsize; lia).
      + intros x Hx%elem_of_list_to_set. apply (env_headers _ _ _ Henv). rewrite Hb. set_solver.
      + intros x Hx%elem_of_list_to_set. by apply Hok.
      + apply (env_k _ _ _ Henv).
      + rewrite elem_of_list_to_set. intros Hv. apply (env_virtual _ _ _ Henv). rewrite Hb. set_solver.
      + by rewrite elem_of_list_to_set.
      + destruct (st !! (b, false)) eqn:E; [|done]. destruct Hbp. apply Hdom. eauto.
      + intros q Hq. apply elem_of_list_to_set. by apply H3. }
  destruct Hdata as (d & s & n & Hd & Hdok). exists d. split; [|by eapply dag_insert].
  unfold GHOSTDAG. erewrite bind_ok by reflexivity. erewrite bind_ok by (unfold lift; rewrite Hd; reflexivity). done.
Qed.

Lemma dag_run fuel post : (length blocks < fuel)%nat -> forall pre st,
  blocks = pre ++ post -> run_inv pre st ->
  exists st', ghostdag_all gm fuel post st = (Ok tt, st') /\ run_inv blocks st'.
Proof.
  intros Hf. induction post as [|b post IH]; intros pre st Hb Hinv.
  - exists st. split; [done|]. by rewrite app_nil_r in Hb; rewrite Hb.
  - destruct (dag_step pre b post st fuel Hb Hinv Hf) as (d & Hg & Hinv'). cbn [ghostdag_all].
    erewrite bind_ok by exact Hg. apply (IH (pre ++ [b])); [by rewrite <- app_assoc|done].
Qed.

Lemma ghostdag_all_ok fuel : (length blocks < fuel)%nat ->
  exists st, ghostdag_all gm fuel blocks ∅ = (Ok tt, st) /\
    forall b, b ∈ blocks -> exists d s n, data_ok gm par st b d s n.
Proof.
  intros Hf. destruct (dag_run fuel blocks Hf [] ∅) as (st & Hr & Hinv & _); [done| |eauto].
  split; [intros b Hb; by apply not_elem_of_nil in Hb|]. intros b. rewrite lookup_empty. by intros [? ?].
Qed.

End run.

(** * The properties *)

Section properties.
Context `{T : DAGTopologyManager} `{HS : BlockHeaderStore} (gm : ghostdagManager).
Context (par : bytes -> list bytes) (blocks : list bytes).
Context (st : ghostdag_store) (Henv : ghostdag_env gm par blocks).
Context (Hok : forall b, b ∈ blocks -> exists d s n, data_ok gm par st b d s n).

Abbreviation known := (list_to_set blocks : gset bytes).

Lemma all_headers b : b ∈ known -> exists h, header_of b = Ok h /\ 0 < CalcWork (hdr_Bits h).
Proof. intros Hb%elem_of_list_to_set. by apply (env_headers _ _ _ Henv). Qed.

Lemma all_ok b : b ∈ known -> exists d s n, data_ok gm par st b d s n.
Proof. intros Hb%elem_of_list_to_set. by apply Hok. Qed.

Lemma all_works b : b ∈ known -> 0 < work_of b.
Proof. apply works_pos. exact all_headers. Qed.

(** A block of the anticone within the blue set is counted. *)
Lemma anticone_counted b d s n x l :
  b ∈ blocks -> data_ok gm par st b d s n -> x ∈ s -> NoDup l ->
  (forall y, y ∈ l -> y ∈ s /\ ~ anc par x y /\ ~ anc par y x) -> zlen l <= gm_k gm.
Proof.
  intros Hb Hd Hx Hnd Hl. pose proof (env_topology _ _ _ Henv) as Htop.
  assert (Hs : s ⊆ known) by (apply (blue_set_known gm par known st Htop b d s n); [by apply elem_of_list_to_set|done]).
  assert (Hsz : Z.of_nat (size (anticone_in s x)) <= gm_k gm).
  { inversion Hd as [|b' d' p rest dp sp np Hb' Hne Hpd Hm Hsc Hw Hr]; subst; [set_solver|]. by apply (Hr x (S np)). }
  assert (Hsub : list_to_set l ⊆ anticone_in s x).
  { intros y Hy%elem_of_list_to_set. destruct (Hl y Hy) as (Hys & H1 & H2). apply elem_of_filter.
    split; [|done]. split; apply (is_anc_false par known Htop); auto. }
  apply subseteq_size in Hsub. rewrite size_list_to_set in Hsub by done. unfold zlen. lia.
Qed.

(** Blue work is the work of the blue set. *)
Lemma work_sum b d s n : b ∈ known -> data_ok gm par st b d s n ->
  exists l, NoDup l /\ list_to_set l = s /\ BlueWork d = sumZ work_of l.
Proof.
  intros Hb Hd. pose proof (env_topology _ _ _ Henv) as Htop.
  induction Hd as [d Hg Hp Hbd|b d p rest dp sp np Hb' Hne Hd IH Hm Hs Hw Hr]; [exists []; split; [constructor|]; split; [done|apply Hbd]|].
  assert (Hp : p ∈ known) by (eapply top_closed; [done|exact Hb|apply Hm]).
  destruct (IH Hp) as (l & Hnd & Hl & Hwl). exists (MergeSetBlues d ++ l).
  split; [|split; [by rewrite list_to_set_app_L, Hl|rewrite sumZ_app; lia]].
  apply NoDup_app. split; [by eapply merges_nodup|]. split; [|done]. intros x Hx Hxl.
  eapply (merges_fresh gm par st known Htop all_works all_ok b d p rest dp sp np x); try done.
  rewrite <- Hl. by apply elem_of_list_to_set.
Qed.

Lemma reached_strict b x : b ∈ known -> reached par (par b) x <-> anc par x b /\ x <> b.
Proof.
  intros Hb. pose proof (env_topology _ _ _ Henv) as Htop. split.
  - intros Hx. split.
    + destruct Hx as (q & Hq & Hxq). by eapply rtc_r.
    + intros ->. by apply (not_reached_self gm par st known Htop all_works all_ok b Hb).
  - intros [Hx Hne]. apply rtc_inv_r in Hx as [->|(y & Hxy & Hy)]; [done|]. by exists y.
Qed.

(** In a sorted merge set no block is above an earlier one. *)
Lemma sorted_topological l p l1 x l2 y l3 :
  (forall z, z ∈ l -> z ∈ known /\ ~ anc par z p) -> StronglySorted (lt_block st) l ->
  p :: l = l1 ++ x :: l2 ++ y :: l3 -> ~ anc par y x.
Proof.
  intros Hl Hs Heq Hyx. pose proof (env_topology _ _ _ Henv) as Htop.
  destruct l1 as [|z l1]; simplify_eq/=.
  - destruct (Hl y) as [_ Hyp]; [set_solver|done].
  - assert (Hxy : lt_block st x y).
    { clear Hl. induction l1 as [|w l1 IH]; simpl in Hs; inversion Hs as [|? ? Hs' Hmin]; subst; [|by apply IH].
      rewrite Forall_forall in Hmin. apply Hmin. set_solver. }
    apply (lt_block_irrefl st x). eapply lt_block_trans; [exact Hxy|].
    apply (anc_lt gm par st known Htop all_works all_ok); [apply Hl; set_solver|done|].
    intros ->. by apply (lt_block_irrefl st x).
Qed.

Lemma sorted_merge_set b d p rest :
  b ∈ known -> st !! (b, false) = Some d -> merges gm par st b d p rest ->
  exists l, GetSortedMergeSet st b = Ok (p :: l) /\ l ≡ₚ rest ++ MergeSetReds d /\
    StronglySorted (lt_block st) l.
Proof.
  intros Hb Hd Hm. unfold GetSortedMergeSet, ghostdag_Get. rewrite Hd. cbn [bind_res].
  rewrite (mg_blues _ _ _ _ _ _ _ Hm). pose proof (env_topology _ _ _ Henv) as Htop.
  destruct (merge_colours_spec st (length rest + length (MergeSetReds d)) rest (MergeSetReds d))
    as (l & -> & Hp & Hs).
  - done.
  - apply Forall_forall. intros x Hx. apply (has_data_known gm par st known all_ok).
    apply (mg_set _ _ _ _ _ _ _ Hm) in Hx as [Hx _]. apply (reached_known par known Htop (par b)); [|done].
    intros q Hq. by eapply top_closed.
  - apply Hm.
  - apply Hm.
  - apply Hm.
  - by exists l.
Qed.

End properties.

(** C3: The blue set of every block is a k-cluster.  GHOSTDAG succeeds on the blocks
    of any DAG, in order, and gives every block a blue set in which no block has
    more than k others in its anticone; a block has at most k + 1 blues of its
    own, its selected parent among them. *)
Theorem ghostdag_k_cluster `{DAGTopologyManager} `{BlockHeaderStore} gm par blocks fuel :
  ghostdag_env gm par blocks -> (length blocks < fuel)%nat ->
  exists st, ghostdag_all gm fuel blocks ∅ = (Ok tt, st) /\
    forall b, b ∈ blocks -> exists d s, st !! (b, false) = Some d /\ blue_set st b s /\
      zlen (MergeSetBlues d) <= gm_k gm + 1 /\
      forall x l, x ∈ s -> NoDup l -> (forall y, y ∈ l -> y ∈ s /\ ~ anc par x y /\ ~ anc par y x) ->
        zlen l <= gm_k gm.
Proof.
  intros Henv Hf. destruct (ghostdag_all_ok gm par blocks Henv fuel Hf) as (st & Hr & Hok).
  exists st. split; [done|]. intros b Hb. destruct (Hok b Hb) as (d & s & n & Hd). exists d, s.
  split; [by eapply data_ok_lookup|]. split; [by eapply data_ok_blue_set|]. split.
  - destruct Hd as [d Hg Hp Hbd|b d p rest dp sp np Hb' Hne Hpd Hm Hs Hw Hr']; [|apply Hm].
    pose proof (env_k _ _ _ Henv). rewrite (bd_blues _ Hbd). unfold zlen. simpl. lia.
  - intros x l Hx Hnd Hl. by eapply (anticone_counted gm par blocks st Henv Hok b d s n).
Qed.


(** C25: The blue score of a block is the number of blocks of its blue set and its
    blue work the sum of their work, and blue work grows from every block
    to its descendants. *)
Theorem ghostdag_scores `{DAGTopologyManager} `{BlockHeaderStore} gm par blocks fuel :
  ghostdag_env gm par blocks -> (length blocks < fuel)%nat ->
  exists st, ghostdag_all gm fuel blocks ∅ = (Ok tt, st) /\
    (forall b, b ∈ blocks -> exists d l, st !! (b, false) = Some d /\ NoDup l /\
      blue_set st b (list_to_set l) /\ BlueScore d = zlen l /\ BlueWork d = sumZ work_of l) /\
    (forall a b da db, b ∈ blocks -> anc par a b -> a <> b ->
      st !! (a, false) = Some da -> st !! (b, false) = Some db -> BlueWork da < BlueWork db).
Proof.
  intros Henv Hf. destruct (ghostdag_all_ok gm par blocks Henv fuel Hf) as (st & Hr & Hok).
  pose proof (env_topology _ _ _ Henv) as Htop. exists st. split; [done|]. split.
  - intros b Hb. destruct (Hok b Hb) as (d & s & n & Hd).
    assert (Hbk : b ∈ (list_to_set blocks : gset bytes)) by (by apply elem_of_list_to_set).
    destruct (work_sum gm par blocks st Henv Hok b d s n Hbk Hd) as (l & Hnd & Hl & Hw). exists d, l.
    split; [by eapply data_ok_lookup|]. split; [done|]. split; [rewrite Hl; by eapply data_ok_blue_set|].
    split; [|done].
    rewrite (score_size gm par (list_to_set blocks) st Htop (all_headers gm par blocks Henv)
      (all_ok gm par blocks st Hok) b d s n Hbk Hd), <- Hl, size_list_to_set by done. done.
  - intros a b da db Hb Hab Hne Ha Hdb.
    eapply (anc_work gm par st (list_to_set blocks) Htop (all_works gm par blocks Henv)
      (all_ok gm par blocks st Hok) a b); try done. by apply elem_of_list_to_set.
Qed.

(** * A concrete DAG

    A genesis, two blocks on it, a block that merges them and one on top, with
    k = 1 and headers of the easiest difficulty. *)

Definition test_hash (i : Z) : bytes := replicate 32 i.

Definition test_par (b : bytes) : list bytes :=
  if decide (b = test_hash 2) then [test_hash 1] else
  if decide (b = test_hash 3) then [test_hash 1] else
  if decide (b = test_hash 4) then [test_hash 2; test_hash 3] else
  if decide (b = test_hash 5) then [test_hash 4] else [].

Definition test_blocks : list bytes := map test_hash [1; 2; 3; 4; 5].

Fixpoint search_anc (fuel : nat) (a b : bytes) : bool :=
  bool_decide (a = b) ||
  match fuel with O => false | S fuel' => existsb (search_anc fuel' a) (test_par b) end.

Definition test_topology : DAGTopologyManager :=
  {| Parents := fun b => Ok (test_par b); IsAncestorOf := fun a b => Ok (search_anc 5 a b) |}.

Definition test_headers : BlockHeaderStore := {| header_of := fun _ => Ok test_header |}.

#[local] Existing Instance test_topology.
#[local] Existing Instance test_headers.

Definition test_gm : ghostdagManager := mk_ghostdagManager 1 (test_hash 1).

Lemma search_anc_sound fuel a : forall b, search_anc fuel a b = true -> anc test_par a b.
Proof.
  induction fuel as [|fuel IH]; intros b; cbn [search_anc]; intros [Hab%bool_decide_eq_true_1|Hp]%orb_prop;
    try (subst; constructor); [done|].
  apply existsb_exists in Hp as (y & Hy & Hay). eapply rtc_r; [by apply IH|]. by apply list_elem_of_In.
Qed.

(** Ancestors found from a block are closed under parents. *)
Definition closed_search : bool :=
  forallb (fun b => forallb (fun y => negb (search_anc 5 y b) ||
    forallb (fun x => search_anc 5 x b && bool_decide (x ∈ test_blocks)) (test_par y)) test_blocks) test_blocks.

Lemma closed_search_true : closed_search = true.
Proof. vm_compute. reflexivity. Qed.

Lemma search_step b y x : b ∈ test_blocks -> y ∈ test_blocks -> search_anc 5 y b = true -> x ∈ test_par y ->
  search_anc 5 x b = true /\ x ∈ test_blocks.
Proof.
  intros Hb Hy Hs Hx. pose proof closed_search_true as Hc. unfold closed_search in Hc.
  rewrite forallb_forall in Hc. specialize (Hc b (proj1 (list_elem_of_In _ _) Hb)).
  rewrite forallb_forall in Hc. specialize (Hc y (proj1 (list_elem_of_In _ _) Hy)). rewrite Hs in Hc.
  cbn [negb orb] in Hc. rewrite forallb_forall in Hc. specialize (Hc x (proj1 (list_elem_of_In _ _) Hx)).
  apply andb_prop in Hc as [H1 H2]. split; [done|]. by apply bool_decide_eq_true_1 in H2.
Qed.

Lemma search_anc_complete a b : b ∈ test_blocks -> anc test_par a b -> search_anc 5 a b = true /\ a ∈ test_blocks.
Proof.
  intros Hb Ha. revert a Ha.
  apply (rtc_ind_l (fun a => search_anc 5 a b = true /\ a ∈ test_blocks) b).
  - split; [|done]. cbn [search_anc]. by rewrite bool_decide_true.
  - intros x y Hxy _ [Hs Hy]. by eapply search_step.
Qed.

Lemma test_topology_ok : topology_ok test_par (list_to_set test_blocks).
Proof.
  constructor.
  - done.
  - intros b p Hb%elem_of_list_to_set Hp. apply elem_of_list_to_set.
    apply (search_step b b p Hb Hb); [|done]. cbn [search_anc]. by rewrite bool_decide_true.
  - intros a b _ Hb%elem_of_list_to_set. eexists. split; [done|]. split; [apply search_anc_sound|].
    intros Ha. by apply search_anc_complete.
Qed.

Lemma test_antichain b q r : b ∈ test_blocks -> q ∈ test_par b -> r ∈ test_par b -> anc test_par q r -> q = r.
Proof.
  intros Hb Hq Hr Hqr. assert (Hrk : r ∈ test_blocks).
  { apply (search_step b b r Hb Hb); [|done]. cbn [search_anc]. by rewrite bool_decide_true. }
  apply search_anc_complete in Hqr as [Hs _]; [|done].
  assert (Hcheck : forallb (fun b => forallb (fun q => forallb (fun r =>
    negb (search_anc 5 q r) || bool_decide (q = r)) (test_par b)) (test_par b)) test_blocks = true)
    by (vm_compute; reflexivity).
  rewrite forallb_forall in Hcheck. specialize (Hcheck b (proj1 (list_elem_of_In _ _) Hb)).
  rewrite forallb_forall in Hcheck. specialize (Hcheck q (proj1 (list_elem_of_In _ _) Hq)).
  rewrite forallb_forall in Hcheck. specialize (Hcheck r (proj1 (list_elem_of_In _ _) Hr)).
  rewrite Hs in Hcheck. cbn [negb orb] in Hcheck. by apply bool_decide_eq_true_1 in Hcheck.
Qed.

(** The blocks come after their parents. *)
Definition order_check : bool :=
  forallb (fun i => let b := nth i test_blocks [] in bool_decide (b = test_hash 1) ||
    (match test_par b with [] => false | _ => true end && bool_decide (NoDup (test_par b)) &&
     forallb (fun q => bool_decide (q ∈ take i test_blocks)) (test_par b))) (seq 0 5).

Lemma order_check_true : order_check = true.
Proof. vm_compute. reflexivity. Qed.

Lemma test_env : ghostdag_env test_gm test_par test_blocks.
Proof.
  constructor.
  - constructor; [done|done|apply (bool_decide_unpack _); vm_compute; exact I|].
    intros pre b post Heq Hne. assert (Hb : b ∈ test_blocks) by (rewrite Heq; set_solver).
    assert (H4 : forall q r, q ∈ test_par b -> r ∈ test_par b -> anc test_par q r -> q = r)
      by (intros q r; by apply test_antichain).
    pose proof order_check_true as Hpre. unfold order_check in Hpre. rewrite forallb_forall in Hpre.
    assert (Hi : (length pre < 5)%nat).
    { apply (f_equal length) in Heq. rewrite length_app in Heq. cbn in Heq. lia. }
    specialize (Hpre (length pre)). rewrite Heq, app_nth2, Nat.sub_diag, take_app_length in Hpre by lia.
    cbn [nth] in Hpre. destruct (orb_prop _ _ (Hpre ltac:(apply in_seq; lia))) as [H1|H1].
    + by apply bool_decide_eq_true_1 in H1.
    + apply andb_prop in H1 as [H1 H3]. apply andb_prop in H1 as [H1 H2]. rewrite forallb_forall in H3.
      apply bool_decide_eq_true_1 in H2. split; [by destruct (test_par b)|]. split; [done|]. split; [|done].
      intros q Hq%list_elem_of_In. apply H3 in Hq. by apply bool_decide_eq_true_1 in Hq.
  - exact test_topology_ok.
  - done.
  - intros b _. exists test_header. split; [done|]. vm_compute. reflexivity.
  - cbn. lia.
  - apply (bool_decide_unpack _). vm_compute. exact I.
  - vm_compute. reflexivity.
Qed.

Lemma ghostdag_k_cluster_witness :
  exists st, ghostdag_all test_gm 6 test_blocks ∅ = (Ok tt, st) /\
    forall b, b ∈ test_blocks -> exists d s, st !! (b, false) = Some d /\ blue_set st b s /\
      zlen (MergeSetBlues d) <= 1 + 1 /\
      forall x l, x ∈ s -> NoDup l ->
        (forall y, y ∈ l -> y ∈ s /\ ~ anc test_par x y /\ ~ anc test_par y x) -> zlen l <= 1.
Proof. apply (ghostdag_k_cluster test_gm test_par test_blocks 6 test_env). cbn. lia. Defined.


Lemma ghostdag_scores_witness :
  exists st, ghostdag_all test_gm 6 test_blocks ∅ = (Ok tt, st) /\
    (forall b, b ∈ test_blocks -> exists d l, st !! (b, false) = Some d /\ NoDup l /\
      blue_set st b (list_to_set l) /\ BlueScore d = zlen l /\ BlueWork d = sumZ work_of l) /\
    (forall a b da db, b ∈ test_blocks -> anc test_par a b -> a <> b ->
      st !! (a, false) = Some da -> st !! (b, false) = Some db -> BlueWork da < BlueWork db).
Proof. apply (ghostdag_scores test_gm test_par test_blocks 6 test_env). cbn. lia. Defined.
