(* ===== verification/ReachInterval.v ===== *)
(** Intervals of the reachability tree.
    [src/domain/consensus/processes/reachabilitymanager/interval.go] and the type of
    [model/reachabilitydata.go].

    An interval is a pair of [uint64] and every operation wraps as the code does.
    Two functions compute with [float64]: the numbers are those of Rocq's
    [SpecFloat] with the parameters of binary64, so rounding is the one of the
    machine.  Converting a float that is not in the range of [uint64] gives a
    value the language leaves to the implementation; it is a parameter, and
    nothing below depends on it. *)

From Stdlib Require Import SpecFloat.
From S2P Require Import Prelude TxMass.

(** The errors of the reachability manager. *)
Inductive ReachError : Set :=
| ErrNotFound
| ErrFraction
| ErrEmptyInterval
| ErrSizesSum
| ErrSizesSumTooBig
| ErrAncestorIsDescendant
| ErrNotAncestor
| ErrNotPivot
| ErrMissingTreeParent
| ErrReindexRootCapacity
| ErrBlueScore
| ErrIntervalEmpty
| ErrIntervalGap
| ErrIntervalLeft
| ErrIntervalRight
(** the loop did not end within the fuel *)
| ReachFuel.

Record ReachabilityInterval : Set := newReachabilityInterval {
  Start : Z;
  End : Z
}.

#[export] Instance ReachabilityInterval_eq_dec : EqDecision ReachabilityInterval.
Proof. solve_decision. Defined.

(** * Floating-point numbers *)

Abbreviation float64 := spec_float.

Definition prec64 : Z := 53.
Definition emax64 : Z := 1024.

(** [float64(n)] *)
Definition float_of_uint64 (n : Z) : float64 := binary_normalize prec64 emax64 n 0 false.

Definition float_mul : float64 -> float64 -> float64 := SFmul prec64 emax64.
Definition float_add : float64 -> float64 -> float64 := SFadd prec64 emax64.
Definition float_div : float64 -> float64 -> float64 := SFdiv prec64 emax64.

Definition float_zero : float64 := S754_zero false.
Definition float_one : float64 := float_of_uint64 1.
(** [0.5] *)
Definition float_half : float64 := S754_finite false (2 ^ 52) (-53).

(** [math.Ceil] and [math.Round], as integers; [None] for infinities and NaN. *)
Definition math_Ceil (f : float64) : option Z :=
  match f with
  | S754_zero _ => Some 0
  | S754_finite s m e =>
      let z := if s then Zneg m else Zpos m in
      Some (if 0 <=? e then z * 2 ^ e else - ((- z) / 2 ^ (- e)))
  | _ => None
  end.

Definition math_Round (f : float64) : option Z :=
  match f with
  | S754_zero _ => Some 0
  | S754_finite s m e =>
      let a := if 0 <=? e then Zpos m * 2 ^ e else (Zpos m + 2 ^ (- e - 1)) / 2 ^ (- e) in
      Some (if s then - a else a)
  | _ => None
  end.

(** [math.Pow(2, float64(k))]: a power of two is exact up to the largest
    exponent, and [+Inf] above. *)
Definition math_Pow2 (k : Z) : float64 :=
  if k <? emax64 then S754_finite false (2 ^ 52) (k - 52) else S754_infinity false.

(** The conversion of a float that is out of range. *)
Class FloatConversion := { conversion_out_of_range : option Z -> Z }.

(** [uint64(f)] for [f] an integral float. *)
Definition uint64_of_float `{FloatConversion} (f : option Z) : Z :=
  match f with
  | Some z => if (0 <=? z) && (z <? 2 ^ 64) then z else uint64 (conversion_out_of_range f)
  | None => uint64 (conversion_out_of_range f)
  end.

(** * interval.go *)

Definition intervalSize (ri : ReachabilityInterval) : Z := uint64 (uint64 (End ri - Start ri) + 1).

Definition intervalIncrease (ri : ReachabilityInterval) (offset : Z) : ReachabilityInterval :=
  newReachabilityInterval (uint64 (Start ri + offset)) (uint64 (End ri + offset)).

Definition intervalDecrease (ri : ReachabilityInterval) (offset : Z) : ReachabilityInterval :=
  newReachabilityInterval (uint64 (Start ri - offset)) (uint64 (End ri - offset)).

Definition intervalIncreaseStart (ri : ReachabilityInterval) (offset : Z) : ReachabilityInterval :=
  newReachabilityInterval (uint64 (Start ri + offset)) (End ri).

Definition intervalDecreaseStart (ri : ReachabilityInterval) (offset : Z) : ReachabilityInterval :=
  newReachabilityInterval (uint64 (Start ri - offset)) (End ri).

Definition intervalIncreaseEnd (ri : ReachabilityInterval) (offset : Z) : ReachabilityInterval :=
  newReachabilityInterval (Start ri) (uint64 (End ri + offset)).

Definition intervalDecreaseEnd (ri : ReachabilityInterval) (offset : Z) : ReachabilityInterval :=
  newReachabilityInterval (Start ri) (uint64 (End ri - offset)).

Definition intervalContains (ri other : ReachabilityInterval) : bool :=
  (Start ri <=? Start other) && (End other <=? End ri).

Definition intervalSplitFraction `{FloatConversion} (ri : ReachabilityInterval) (fraction : float64)
    : res ReachError (ReachabilityInterval * ReachabilityInterval) :=
  if SFltb fraction float_zero || SFltb float_one fraction then Err ErrFraction else
  if intervalSize ri =? 0 then Err ErrEmptyInterval else
  let allocationSize :=
    uint64_of_float (math_Ceil (float_mul (float_of_uint64 (intervalSize ri)) fraction)) in
  Ok (newReachabilityInterval (Start ri) (uint64 (uint64 (Start ri + allocationSize) - 1)),
      newReachabilityInterval (uint64 (Start ri + allocationSize)) (End ri)).

Definition intervalSplitInHalf `{FloatConversion} (ri : ReachabilityInterval)
    : res ReachError (ReachabilityInterval * ReachabilityInterval) :=
  intervalSplitFraction ri float_half.

Fixpoint split_from (start : Z) (sizes : list Z) : list ReachabilityInterval :=
  match sizes with
  | [] => []
  | size :: rest =>
      newReachabilityInterval start (uint64 (uint64 (start + size) - 1)) ::
      split_from (uint64 (start + size)) rest
  end.

Definition intervalSplitExact (ri : ReachabilityInterval) (sizes : list Z)
    : res ReachError (list ReachabilityInterval) :=
  if sum_uint64 id 0 sizes =? intervalSize ri then Ok (split_from (Start ri) sizes)
  else Err ErrSizesSum.

Definition maxSize_of (sizes : list Z) : Z :=
  foldl (fun maxSize size => if size >? maxSize then size else maxSize) 0 sizes.

Definition exponentialFractions (sizes : list Z) : list float64 :=
  let maxSize := maxSize_of sizes in
  let fractions := map (fun size => float_div float_one (math_Pow2 (uint64 (maxSize - size)))) sizes in
  let fractionsSum := foldl float_add float_zero fractions in
  map (fun fraction => float_div fraction fractionsSum) fractions.

(** The loop over the fractions, with [sizes[i]] beside [fractions[i]]. *)
Fixpoint add_bias `{FloatConversion} (totalBias remainingBias : Z) (sizes : list Z)
    (fractions : list float64) : list Z :=
  match sizes, fractions with
  | size :: sizes', fraction :: fractions' =>
      let bias :=
        match fractions' with
        | [] => remainingBias
        | _ =>
            let bias := uint64_of_float (math_Round (float_mul (float_of_uint64 totalBias) fraction)) in
            if bias >? remainingBias then remainingBias else bias
        end in
      uint64 (size + bias) :: add_bias totalBias (uint64 (remainingBias - bias)) sizes' fractions'
  | _, _ => []
  end.

Definition intervalSplitWithExponentialBias `{FloatConversion} (ri : ReachabilityInterval) (sizes : list Z)
    : res ReachError (list ReachabilityInterval) :=
  let intervalSize := intervalSize ri in
  let sizesSum := sum_uint64 id 0 sizes in
  if sizesSum >? intervalSize then Err ErrSizesSumTooBig else
  if sizesSum =? intervalSize then intervalSplitExact ri sizes else
  let totalBias := uint64 (intervalSize - sizesSum) in
  intervalSplitExact ri (add_bias totalBias totalBias sizes (exponentialFractions sizes)).

(** * Lengths and tilings *)

(** The number of elements, without the wrap-around. *)
Definition len (i : ReachabilityInterval) : Z := End i - Start i + 1.

(** The intervals of a tree lie between 1 and [math.MaxUint64-1], and the only
    empty ones end just before their start. *)
Definition in_range (i : ReachabilityInterval) : Prop :=
  1 <= Start i /\ Start i <= End i + 1 /\ End i < 2 ^ 64 - 1.

(** [ivs] follow each other without gaps, from [s] up to but not including [e]. *)
Fixpoint tiles (s : Z) (ivs : list ReachabilityInterval) (e : Z) : Prop :=
  match ivs with
  | [] => s = e
  | i :: ivs' => Start i = s /\ s <= End i + 1 /\ tiles (End i + 1) ivs' e
  end.

Lemma tiles_app s ivs1 ivs2 e : tiles s (ivs1 ++ ivs2) e <-> exists m, tiles s ivs1 m /\ tiles m ivs2 e.
Proof.
  revert s. induction ivs1 as [|i ivs1 IH]; intros s; cbn [app tiles].
  - split; [intros H; by exists s|]. by intros (m & -> & H).
  - rewrite IH. naive_solver.
Qed.

Lemma tiles_le s ivs e : tiles s ivs e -> s <= e.
Proof. revert s. induction ivs as [|i ivs IH]; intros s; cbn [tiles]; [lia|]. intros (<- & H1 & H2%IH). lia. Qed.

Lemma tiles_len s ivs e : tiles s ivs e -> e - s = sumZ len ivs.
Proof.
  revert s. induction ivs as [|i ivs IH]; intros s; cbn [tiles]; [cbn; lia|].
  intros (<- & H1 & H2%IH). cbn [sumZ foldr]. unfold sumZ in H2. unfold len. unfold len in H2. lia.
Qed.

Lemma tiles_elem s ivs e i : tiles s ivs e -> i ∈ ivs -> s <= Start i /\ Start i <= End i + 1 /\ End i < e.
Proof.
  intros Ht Hi. apply list_elem_of_split in Hi as (l1 & l2 & ->).
  apply tiles_app in Ht as (m & H1%tiles_le & <- & H2 & H3%tiles_le). lia.
Qed.

(** * The operations without wrap-around *)

Lemma intervalSize_len i : in_range i -> intervalSize i = len i.
Proof.
  intros (H1 & H2 & H3). unfold intervalSize, len. destruct (decide (Start i = End i + 1)) as [E|E].
  - rewrite E. replace (End i - (End i + 1)) with (-1) by lia.
    replace (End i - (End i + 1) + 1) with 0 by lia. reflexivity.
  - rewrite (uint64_id (End i - Start i)) by lia. apply uint64_id. lia.
Qed.

Lemma split_from_spec sizes : forall start, 1 <= start -> Forall (fun n => 0 <= n) sizes ->
  start + sumZ id sizes < 2 ^ 64 ->
  map len (split_from start sizes) = sizes /\ tiles start (split_from start sizes) (start + sumZ id sizes).
Proof.
  induction sizes as [|n sizes IH]; intros start Hs Hn Hb; [cbn; split; [done|lia]|].
  apply Forall_cons in Hn as [Hn Hr]. cbn [sumZ foldr] in Hb. unfold id in Hb at 1. fold (sumZ id sizes) in Hb.
  pose proof (sumZ_nonneg id sizes Hr). cbn [split_from]. rewrite (uint64_id (start + n)) by lia.
  rewrite uint64_id by lia. destruct (IH (start + n)) as [IH1 IH2]; [lia|done|lia|].
  cbn [map tiles Start End]. replace (start + n - 1 + 1) with (start + n) by lia. split.
  - rewrite IH1. unfold len. cbn. f_equal. lia.
  - split; [done|]. split; [lia|]. cbn [sumZ foldr]. unfold id at 1. fold (sumZ id sizes).
    by replace (start + (n + sumZ id sizes)) with (start + n + sumZ id sizes) by lia.
Qed.

(** Splitting into given sizes. *)
Lemma intervalSplitExact_spec ri sizes : in_range ri -> Forall (fun n => 0 <= n) sizes ->
  sumZ id sizes = len ri ->
  exists ivs, intervalSplitExact ri sizes = Ok ivs /\ map len ivs = sizes /\ tiles (Start ri) ivs (End ri + 1).
Proof.
  intros Hr Hn Hs. exists (split_from (Start ri) sizes). unfold intervalSplitExact.
  assert (Hr' := Hr). destruct Hr' as (H1 & H2 & H3). unfold len in Hs.
  rewrite sum_uint64_exact, intervalSize_len by (try done; try lia; cbn; lia).
  unfold len. rewrite (proj2 (Z.eqb_eq _ _)) by lia.
  split; [done|]. destruct (split_from_spec sizes (Start ri)) as [Ha Hb]; [done|done|lia|].
  split; [done|]. by replace (End ri + 1) with (Start ri + sumZ id sizes) by lia.
Qed.

Lemma add_bias_spec `{FloatConversion} total sizes : forall fractions remaining,
  length fractions = length sizes -> sizes <> [] -> 0 <= remaining ->
  Forall (fun n => 0 <= n) sizes -> sumZ id sizes + remaining < 2 ^ 64 ->
  Forall2 Z.le sizes (add_bias total remaining sizes fractions) /\
  sumZ id (add_bias total remaining sizes fractions) = sumZ id sizes + remaining.
Proof.
  induction sizes as [|n sizes IH]; intros [|f fs] remaining Hl Hne Hr Hn Hb; try done.
  apply Forall_cons in Hn as [Hn Hns]. cbn [sumZ foldr] in Hb. unfold id in Hb at 1. fold (sumZ id sizes) in Hb.
  pose proof (sumZ_nonneg id sizes Hns). cbn [add_bias].
  set (bias := match fs with [] => _ | _ => _ end).
  assert (Hbias : 0 <= bias <= remaining).
  { unfold bias. destruct fs; [lia|]. set (u := uint64_of_float _).
    assert (0 <= u).
    { unfold u, uint64_of_float. destruct (math_Round _); [destruct (_ && _) eqn:E; [lia|]|]; apply uint64_range. }
    destruct (u >? remaining) eqn:E; lia. }
  rewrite !uint64_id by lia. cbn [sumZ foldr]. fold (sumZ id sizes). unfold id at 1 3.
  destruct sizes as [|n' sizes].
  - destruct fs; [|done]. cbn. unfold bias. split; [constructor; [lia|constructor]|lia].
  - destruct (IH fs (remaining - bias)) as [H1 H2]; [by injection Hl|done|lia|done|lia|].
    split; [constructor; [lia|exact H1]|]. fold (sumZ id (add_bias total (remaining - bias) (n' :: sizes) fs)).
    rewrite H2. lia.
Qed.

Lemma length_exponentialFractions sizes : length (exponentialFractions sizes) = length sizes.
Proof. unfold exponentialFractions. by rewrite !length_map. Qed.

(** Splitting with the exponential bias: whatever the fractions are, every part
    has at least the size asked for, and the parts tile the interval. *)
Lemma intervalSplitWithExponentialBias_spec `{FloatConversion} ri sizes : in_range ri -> sizes <> [] ->
  Forall (fun n => 0 <= n) sizes -> sumZ id sizes <= len ri ->
  exists ivs, intervalSplitWithExponentialBias ri sizes = Ok ivs /\
    Forall2 Z.le sizes (map len ivs) /\ tiles (Start ri) ivs (End ri + 1).
Proof.
  intros Hr Hne Hn Hs. assert (Hr' := Hr). destruct Hr' as (H1 & H2 & H3).
  pose proof (sumZ_nonneg id sizes Hn). unfold intervalSplitWithExponentialBias.
  rewrite sum_uint64_exact, intervalSize_len by (try done; unfold len in *; lia). rewrite Z.add_0_l.
  destruct (sumZ id sizes >? len ri) eqn:E1; [lia|]. destruct (sumZ id sizes =? len ri) eqn:E2.
  - destruct (intervalSplitExact_spec ri sizes Hr Hn) as (ivs & -> & Hm & Ht); [lia|].
    exists ivs. split; [done|]. split; [|done]. rewrite Hm. apply Forall_Forall2_diag, Forall_true. lia.
  - rewrite uint64_id by (unfold len in *; lia).
    destruct (add_bias_spec (len ri - sumZ id sizes) sizes (exponentialFractions sizes) (len ri - sumZ id sizes))
      as [Ha Hb]; [apply length_exponentialFractions|done|lia|done|unfold len in *; lia|].
    destruct (intervalSplitExact_spec ri (add_bias (len ri - sumZ id sizes) (len ri - sumZ id sizes) sizes
      (exponentialFractions sizes)) Hr) as (ivs & -> & Hm & Ht).
    + rewrite Forall_lookup. intros i x Hx. destruct (Forall2_lookup_r _ _ _ _ _ Ha Hx) as (y & Hy & Hle).
      apply Forall_lookup with (2 := Hy) in Hn. lia.
    + lia.
    + exists ivs. split; [done|]. by rewrite Hm.
Qed.

(** * Half of an interval

    Bounds on the rounding of [SpecFloat], in the range where no exponent is
    out of bounds. *)

Lemma digits2_log2 m : Zdigits2 (Zpos m) = Z.log2 (Zpos m) + 1.
Proof.
  cbn [Zdigits2]. induction m as [m IH|m IH|]; cbn [digits2_pos]; [| |done].
  - rewrite Pos2Z.inj_succ, IH. rewrite Pos2Z.inj_xI, Z.log2_succ_double by done. lia.
  - rewrite Pos2Z.inj_succ, IH. rewrite Pos2Z.inj_xO, Z.log2_double by done. lia.
Qed.

Lemma shr_1_half mrs : 0 <= shr_m mrs -> shr_m (shr_1 mrs) = shr_m mrs / 2 /\ 0 <= shr_m (shr_1 mrs).
Proof.
  destruct mrs as [m r s]. cbn [shr_m]. intros Hm.
  assert (H : shr_m (shr_1 {| shr_m := m; shr_r := r; shr_s := s |}) = m / 2); [|split; [done|rewrite H; by apply Z.div_pos]].
  destruct m as [|[p|p|]|p]; cbn; try done.
  - rewrite Pos2Z.inj_xI. apply (Z.div_unique _ 2 _ 1); lia.
  - rewrite Pos2Z.inj_xO. apply (Z.div_unique _ 2 _ 0); lia.
Qed.

Lemma shr_iter p : forall mrs, 0 <= shr_m mrs ->
  shr_m (SpecFloat.iter_pos shr_1 p mrs) = shr_m mrs / 2 ^ Zpos p /\ 0 <= shr_m (SpecFloat.iter_pos shr_1 p mrs).
Proof.
  induction p as [p IH|p IH|]; intros mrs Hm; cbn [SpecFloat.iter_pos].
  - destruct (shr_1_half mrs Hm) as [E0 H0]. destruct (IH _ H0) as [E1 H1]. destruct (IH _ H1) as [E2 H2].
    split; [|done]. rewrite E2, E1, E0, !Z.div_div by lia. f_equal.
    rewrite Pos2Z.inj_xI, Z.pow_add_r, Z.pow_mul_r, Z.pow_1_r by lia. rewrite (Z.pow_2_r 2).
    replace (2 * 2) with (2 ^ 2) by done. rewrite <- Z.pow_mul_r by lia.
    rewrite (Z.mul_comm 2 (Zpos p)), Z.pow_mul_r by lia. lia.
  - destruct (IH _ Hm) as [E1 H1]. destruct (IH _ H1) as [E2 H2].
    split; [|done]. rewrite E2, E1, Z.div_div by lia. f_equal. rewrite <- Z.pow_add_r by lia. f_equal. lia.
  - by apply shr_1_half.
Qed.

Lemma shr_fexp_spec m e : 0 < m -> -1000 <= e ->
  let k := Z.max 0 (Z.log2 m - 52) in
  shr_m (fst (shr_fexp prec64 emax64 m e loc_Exact)) = m / 2 ^ k /\
  snd (shr_fexp prec64 emax64 m e loc_Exact) = e + k.
Proof.
  intros Hm He k. unfold shr_fexp. destruct m as [|p|p]; try lia. rewrite digits2_log2.
  unfold fexp, emin, prec64, emax64.
  assert (Hk : Z.max (Z.log2 (Z.pos p) + 1 + e - 53) (3 - 1024 - 53) - e = Z.log2 (Zpos p) - 52 \/
    (Z.max (Z.log2 (Z.pos p) + 1 + e - 53) (3 - 1024 - 53) - e <= 0 /\ k = 0)) by lia.
  destruct (Z.max _ _ - e) as [|n|n] eqn:E; cbn [shr fst snd].
  - assert (k = 0) as -> by lia. cbn [shr_m]. rewrite Z.div_1_r. split; [done|lia].
  - assert (k = Zpos n) as -> by lia. destruct (shr_iter n (shr_record_of_loc (Zpos p) loc_Exact)) as [H _]; [done|].
    by rewrite H.
  - assert (k = 0) as -> by lia. cbn [shr_m]. rewrite Z.div_1_r. split; [done|lia].
Qed.

Lemma round_nearest_even_bounds m l : m <= round_nearest_even m l <= m + 1.
Proof. destruct l as [|[]]; cbn [round_nearest_even]; try destruct (Z.even m); lia. Qed.

(** Rounding to 53 bits moves a number by less than a unit in the last place. *)
Lemma binary_round_aux_bounds m e : 0 < m -> -1000 <= e -> Z.log2 m + e < 900 ->
  let k := Z.max 0 (Z.log2 m - 52) in
  exists m' e', binary_round_aux prec64 emax64 false m e loc_Exact = S754_finite false m' e' /\
    e <= e' <= e + k + 1 /\ m / 2 ^ k * 2 ^ k <= Zpos m' * 2 ^ (e' - e) <= (m / 2 ^ k + 1) * 2 ^ k.
Proof.
  intros Hm He Hb k. destruct (shr_fexp_spec m e Hm He) as [Hq He1]. fold k in Hq, He1.
  unfold binary_round_aux. destruct (shr_fexp prec64 emax64 m e loc_Exact) as [mrs e1]. cbn [fst snd] in Hq, He1.
  pose proof (round_nearest_even_bounds (shr_m mrs) (loc_of_shr_record mrs)) as Hr.
  set (r := round_nearest_even _ _) in *. rewrite Hq in Hr. clearbody r.
  assert (Hlm : 0 <= Z.log2 m) by apply Z.log2_nonneg.
  assert (Hk : 0 < 2 ^ k) by lia. pose proof (Z.log2_spec m Hm) as [Hl1 Hl2].
  assert (Hq1 : 1 <= m / 2 ^ k).
  { apply Z.div_le_lower_bound; [lia|]. rewrite Z.mul_1_r. etransitivity; [|exact Hl1].
    apply Z.pow_le_mono_r; lia. }
  assert (Hq2 : m / 2 ^ k < 2 ^ 53).
  { apply Z.div_lt_upper_bound; [lia|]. eapply Z.lt_le_trans; [exact Hl2|].
    rewrite <- Z.pow_add_r by lia. apply Z.pow_le_mono_r; lia. }
  assert (Hlr : Z.log2 r <= 53).
  { apply Z.lt_succ_r, Z.log2_lt_pow2; [lia|]. change (Z.succ 53) with 54.
    assert (2 ^ 53 < 2 ^ 54) by (by apply Z.pow_lt_mono_r). lia. }
  destruct (shr_fexp_spec r e1) as [Hq' He2]; [lia|lia|].
  destruct (shr_fexp prec64 emax64 r e1 loc_Exact) as [mrs2 e2]. cbn [fst snd] in Hq', He2.
  destruct (decide (Z.log2 r <= 52)) as [Hs|Hs].
  - rewrite Z.max_l in Hq', He2 by lia. rewrite Z.pow_0_r, Z.div_1_r in Hq'. rewrite Hq'.
    destruct r as [|r|r]; [lia| |lia].
    assert (He2b : (e2 <=? emax64 - prec64) = true) by (unfold emax64, prec64; lia). rewrite He2b.
    exists r, e2. split; [done|]. split; [lia|].
    replace (e2 - e) with k by lia. split; apply Z.mul_le_mono_nonneg_r; lia.
  - assert (Hr53 : r = 2 ^ 53).
    { assert (2 ^ 53 <= r); [|lia]. transitivity (2 ^ Z.log2 r); [apply Z.pow_le_mono_r; lia|]. apply Z.log2_spec. lia. }
    subst r. rewrite Z.log2_pow2 in Hq', He2 by lia. change (2 ^ 53 / 2 ^ Z.max 0 (53 - 52)) with (Zpos (2 ^ 52)) in Hq'.
    rewrite Hq'. assert (He2b : (e2 <=? emax64 - prec64) = true) by (unfold emax64, prec64; lia). rewrite He2b.
    exists (2 ^ 52)%positive, e2. split; [done|]. split; [lia|].
    replace (e2 - e) with (1 + k) by lia. rewrite Z.pow_add_r, Z.mul_assoc by lia.
    change (Z.pos (2 ^ 52) * 2 ^ 1) with (2 ^ 53). split; apply Z.mul_le_mono_nonneg_r; lia.
Qed.

(** A mantissa of at least 53 bits grows by at most a quarter. *)
Lemma binary_round_aux_grows m e : 2 ^ 52 <= m -> -1000 <= e -> Z.log2 m + e < 900 ->
  exists m' e', binary_round_aux prec64 emax64 false m e loc_Exact = S754_finite false m' e' /\
    e <= e' <= e + Z.log2 m + 1 /\ 4 * (Zpos m' * 2 ^ (e' - e)) <= 5 * m.
Proof.
  intros Hm He Hb. destruct (binary_round_aux_bounds m e) as (m' & e' & Hr & Hee & Hv); [lia|done|done|].
  assert (H52 : 52 <= Z.log2 m) by (by apply Z.log2_le_pow2; lia).
  exists m', e'. split; [done|]. set (k := Z.max 0 (Z.log2 m - 52)) in *. split; [lia|].
  pose proof (Z.mul_div_le m (2 ^ k)). pose proof (Z.log2_spec m ltac:(lia)) as [Hl _].
  assert (Hk : 2 ^ k * 2 ^ 52 <= m) by (rewrite <- Z.pow_add_r by lia; by replace (k + 52) with (Z.log2 m) by lia).
  assert (0 < 2 ^ k) by lia. lia.
Qed.

Lemma iter_xO n d : Zpos (Pos.iter xO n d) = Zpos n * 2 ^ Zpos d.
Proof.
  induction d as [|d IH] using Pos.peano_ind; [cbn; lia|].
  rewrite Pos.iter_succ, Pos2Z.inj_xO, IH, Pos2Z.inj_succ, Z.pow_succ_r by lia. lia.
Qed.

Lemma float_of_uint64_spec n : 1 <= n < 2 ^ 64 ->
  exists m e ez i, float_of_uint64 n = S754_finite false m e /\ e = ez + i /\ -52 <= ez <= 0 /\ 0 <= i <= 65 /\
    4 * (Zpos m * 2 ^ i) <= 5 * (n * 2 ^ (- ez)).
Proof.
  intros [H1 H2]. unfold float_of_uint64, binary_normalize. destruct n as [|n|n]; try lia.
  assert (Hl : 0 <= Z.log2 (Zpos n) < 64) by (split; [apply Z.log2_nonneg|by apply Z.log2_lt_pow2]).
  unfold binary_round. change (Zpos (digits2_pos n)) with (Zdigits2 (Zpos n)). rewrite digits2_log2.
  unfold shl_align, fexp at 1, emin. cbn [prec64 emax64].
  pose proof (Z.log2_spec (Zpos n) ltac:(lia)) as [Hl1 Hl2].
  destruct (decide (Z.log2 (Zpos n) < 52)) as [Hs|Hs].
  - set (d := Z.to_pos (52 - Z.log2 (Zpos n))).
    replace (Z.max _ _ - 0) with (Zneg d) by (unfold prec64, emax64; lia).
    replace (fexp prec64 emax64 _) with (Zneg d) by (unfold fexp, emin, prec64, emax64; lia).
    assert (Hm : Zpos (Pos.iter xO n d) = Zpos n * 2 ^ Zpos d).
    { apply iter_xO. }
    assert (Hm52 : 2 ^ 52 <= Zpos n * 2 ^ Zpos d).
    { transitivity (2 ^ Z.log2 (Zpos n) * 2 ^ Zpos d); [|apply Z.mul_le_mono_nonneg_r; lia].
      rewrite <- Z.pow_add_r by lia. by replace (Z.log2 (Zpos n) + Zpos d) with 52 by lia. }
    assert (Hlm : Z.log2 (Zpos n * 2 ^ Zpos d) = 52) by (rewrite Z.log2_mul_pow2; lia).
    destruct (binary_round_aux_grows (Zpos n * 2 ^ Zpos d) (Zneg d)) as (m & e & Hr & He & Hv); [lia|lia|lia|].
    rewrite Hm. exists m, e, (Zneg d), (e - Zneg d). split; [exact Hr|].
    split; [lia|]. split; [lia|]. split; [lia|]. exact Hv.
  - assert (Hd : exists z, Z.max (Z.log2 (Z.pos n) + 1 + 0 - prec64) (3 - emax64 - prec64) - 0 = z /\ 0 <= z)
      by (eexists; split; [reflexivity|unfold prec64, emax64; lia]).
    destruct Hd as (z & -> & Hz).
    assert (Hm52 : 2 ^ 52 <= Zpos n) by (etransitivity; [|exact Hl1]; apply Z.pow_le_mono_r; lia).
    destruct (binary_round_aux_grows (Zpos n) 0) as (m & e & Hr & He & Hv); [done|lia|lia|].
    exists m, e, 0, e. destruct z as [|z|z]; [| |lia]; (split; [exact Hr|]); rewrite ?Z.sub_0_r in *;
      (split; [lia|]; split; [lia|]; split; [lia|]; cbn [Z.opp]; lia).
Qed.

(** The size [intervalSplitInHalf] allocates. *)
Lemma half_bounds `{FloatConversion} n : 1 <= n < 2 ^ 64 ->
  1 <= uint64_of_float (math_Ceil (float_mul (float_of_uint64 n) float_half)) <= n.
Proof.
  intros Hn. destruct (float_of_uint64_spec n Hn) as (m & e & ez & i & -> & He & Hez & Hi & Hv).
  unfold float_half, float_mul, SFmul. cbn [xorb]. rewrite Pos2Z.inj_mul.
  assert (Hlm : Z.log2 (Zpos m * Zpos (2 ^ 52)) < 300).
  { apply Z.log2_lt_pow2; [lia|]. assert (2 ^ (- ez) <= 2 ^ 52) by (apply Z.pow_le_mono_r; lia).
    assert (0 < 2 ^ i) by lia. nia. }
  destruct (binary_round_aux_grows (Zpos m * Zpos (2 ^ 52)) (e + -53)) as (m2 & e2 & -> & He2 & Hv2); [lia|lia|lia|].
  set (j := e2 - (e + -53)) in *.
  assert (Hb : Zpos m2 * 2 ^ (i + j) <= n * 2 ^ (53 - ez)).
  { rewrite Z.pow_add_r by lia. replace (53 - ez) with (53 + - ez) by lia. rewrite (Z.pow_add_r 2 53) by lia.
    change (Zpos (2 ^ 52)) with (2 ^ 52) in Hv2. change (2 ^ 53) with (2 * 2 ^ 52).
    assert (0 < 2 ^ i) by lia. assert (0 < 2 ^ j) by lia. assert (0 < 2 ^ (-ez)) by lia. nia. }
  assert (Hc : exists c, math_Ceil (S754_finite false m2 e2) = Some c /\ 1 <= c <= n).
  { eexists. split; [reflexivity|]. destruct (0 <=? e2) eqn:E.
    - replace (i + j) with (e2 + (53 - ez)) in Hb by lia.
      rewrite (Z.pow_add_r 2 e2) in Hb by lia.
      assert (0 < 2 ^ e2) by lia. assert (0 < 2 ^ (53 - ez)) by lia. split; [lia|].
      apply (Z.mul_le_mono_pos_r _ _ (2 ^ (53 - ez))); [done|]. by rewrite <- Z.mul_assoc.
    - assert (0 < 2 ^ (- e2)) by lia. assert (Zpos m2 <= n * 2 ^ (- e2)).
      { replace (53 - ez) with (- e2 + (i + j)) in Hb by lia.
        rewrite (Z.pow_add_r 2 (- e2)) in Hb by lia.
        apply (Z.mul_le_mono_pos_r _ _ (2 ^ (i + j))); [lia|].
        by rewrite <- Z.mul_assoc. }
      split.
      + assert (- Zpos m2 / 2 ^ (- e2) < 0); [|lia].
        apply Z.div_lt_upper_bound; [done|]. rewrite Z.mul_0_r. done.
      + assert (- n <= - Zpos m2 / 2 ^ (- e2)); [|lia]. apply Z.div_le_lower_bound; [done|].
        clear - H1. lia. }
  destruct Hc as (c & -> & Hc). unfold uint64_of_float. rewrite (proj2 (andb_true_iff _ _)) by lia. done.
Qed.

Lemma intervalSplitInHalf_spec `{FloatConversion} ri : in_range ri -> 1 <= len ri ->
  exists a, 1 <= a <= len ri /\
    intervalSplitInHalf ri = Ok (newReachabilityInterval (Start ri) (Start ri + a - 1),
                                 newReachabilityInterval (Start ri + a) (End ri)).
Proof.
  intros Hr Hl. assert (Hr' := Hr). destruct Hr' as (H1 & H2 & H3).
  unfold intervalSplitInHalf, intervalSplitFraction. rewrite (intervalSize_len ri Hr).
  change (SFltb float_half float_zero || SFltb float_one float_half) with false. cbn [orb].
  rewrite (proj2 (Z.eqb_neq _ _)) by lia. destruct (half_bounds (len ri)) as [Ha Hb]; [unfold len in *; lia|].
  set (a := uint64_of_float _) in *. clearbody a. exists a. split; [lia|]. unfold len in Hb.
  rewrite (uint64_id (Start ri + a)), uint64_id by lia. done.
Qed.
