(* ===== verification/Reachability.v ===== *)
(** The reachability manager: the tree of selected parents with an interval for
    every block, and for every block the future covering set.
    [src/domain/consensus/processes/reachabilitymanager/fetch.go], [stage.go],
    [tree.go], [ordered_tree_node_set.go], [future_covering_set.go],
    [reachability.go], [reachabilitymanager.go], [reindex_context.go] and
    [src/domain/consensus/utils/reachabilitydata/reachability_data.go].

    The staging area over the reachability data store is a map from hash to
    data and the hash of the reindex root.  Data read from the store is cloned
    before it is changed ([CloneMutable]), so records are values.  A nil pointer
    that is dereferenced is a panic.  Loops whose length depends on the tree take
    fuel, and running out of it is the error [ReachFuel]. *)

From S2P Require Import Prelude Transaction Block Difficulty TxMass Ghostdag ReachInterval.

(** * Reachability data *)

Record reachabilityData : Set := mk_reachabilityData {
  Children : list bytes;
  Parent : option bytes;
  Interval : option ReachabilityInterval;
  FutureCoveringSet : list bytes
}.

Definition EmptyReachabilityData : reachabilityData := mk_reachabilityData [] None None [].

Definition AddChild (child : bytes) (rd : reachabilityData) : reachabilityData :=
  mk_reachabilityData (Children rd ++ [child]) (Parent rd) (Interval rd) (FutureCoveringSet rd).

Definition SetParent (parent : bytes) (rd : reachabilityData) : reachabilityData :=
  mk_reachabilityData (Children rd) (Some parent) (Interval rd) (FutureCoveringSet rd).

Definition SetInterval (interval : ReachabilityInterval) (rd : reachabilityData) : reachabilityData :=
  mk_reachabilityData (Children rd) (Parent rd) (Some interval) (FutureCoveringSet rd).

Definition SetFutureCoveringSet (futureCoveringSet : list bytes) (rd : reachabilityData) : reachabilityData :=
  mk_reachabilityData (Children rd) (Parent rd) (Interval rd) futureCoveringSet.

(** [*p] *)
Definition deref {A} (p : option A) : res ReachError A :=
  match p with Some a => Ok a | None => Panic end.

(** Cloning dereferences the interval. *)
Definition CloneMutable (rd : reachabilityData) : res ReachError reachabilityData :=
  let? _ := deref (Interval rd) in Ok rd.

(** * The store and the manager *)

Record reach_store : Set := mk_reach_store {
  rs_data : gmap bytes reachabilityData;
  rs_reindexRoot : option bytes
}.

Record reachabilityManager : Set := mk_reachabilityManager {
  reindexSlack : Z;
  reindexWindow : Z
}.

Definition defaultReindexWindow : Z := 200.
Definition defaultReindexSlack : Z := Z.shiftl 1 12.

Definition New : reachabilityManager := mk_reachabilityManager defaultReindexSlack defaultReindexWindow.

Abbreviation RM := (M ReachError reach_store).

(** Reading the store. *)
Definition view {A} (f : reach_store -> res ReachError A) : RM A := fun st => (f st, st).

Definition ReachabilityData (st : reach_store) (blockHash : bytes) : res ReachError reachabilityData :=
  match rs_data st !! blockHash with Some d => Ok d | None => Err ErrNotFound end.

Definition stageData (blockHash : bytes) (data : reachabilityData) : RM unit :=
  modify (fun st => mk_reach_store (<[blockHash := data]> (rs_data st)) (rs_reindexRoot st)).

Definition stageReindexRoot (blockHash : bytes) : RM unit :=
  modify (fun st => mk_reach_store (rs_data st) (Some blockHash)).

(** * fetch.go *)

Definition reachabilityDataForInsertion (st : reach_store) (blockHash : bytes) : res ReachError reachabilityData :=
  match ReachabilityData st blockHash with
  | Ok data => CloneMutable data
  | Err ErrNotFound => Ok EmptyReachabilityData
  | Err e => Err e
  | Panic => Panic
  end.

Definition futureCoveringSet (st : reach_store) (blockHash : bytes) : res ReachError (list bytes) :=
  let? data := ReachabilityData st blockHash in Ok (FutureCoveringSet data).

Definition interval (st : reach_store) (blockHash : bytes) : res ReachError (option ReachabilityInterval) :=
  let? data := ReachabilityData st blockHash in Ok (Interval data).

Definition children (st : reach_store) (blockHash : bytes) : res ReachError (list bytes) :=
  let? data := ReachabilityData st blockHash in Ok (Children data).

Definition parent (st : reach_store) (blockHash : bytes) : res ReachError (option bytes) :=
  let? data := ReachabilityData st blockHash in Ok (Parent data).

Definition reindexRoot (st : reach_store) : res ReachError bytes :=
  match rs_reindexRoot st with Some h => Ok h | None => Err ErrNotFound end.

(** * stage.go *)

Definition stageFutureCoveringSet (blockHash : bytes) (set : list bytes) : RM unit :=
  let* data := view (fun st => reachabilityDataForInsertion st blockHash) in
  stageData blockHash (SetFutureCoveringSet set data).

Definition stageAddChild (node child : bytes) : RM unit :=
  let* nodeData := view (fun st => reachabilityDataForInsertion st node) in
  stageData node (AddChild child nodeData).

Definition stageParent (node parent : bytes) : RM unit :=
  let* nodeData := view (fun st => reachabilityDataForInsertion st node) in
  stageData node (SetParent parent nodeData).

Definition stageInterval (node : bytes) (interval : ReachabilityInterval) : RM unit :=
  let* nodeData := view (fun st => reachabilityDataForInsertion st node) in
  stageData node (SetInterval interval nodeData).

(** * tree.go: intervals *)

Definition MaxUint64 : Z := 2 ^ 64 - 1.

Definition newReachabilityTreeData : reachabilityData :=
  mk_reachabilityData [] None (Some (newReachabilityInterval 1 (MaxUint64 - 1))) [].

Definition intervalRangeForChildAllocation (st : reach_store) (node : bytes) : res ReachError ReachabilityInterval :=
  let? interval := interval st node in
  let? interval := deref interval in
  Ok (newReachabilityInterval (Start interval) (uint64 (End interval - 1))).

Definition remainingIntervalBefore (st : reach_store) (node : bytes) : res ReachError ReachabilityInterval :=
  let? childrenRange := intervalRangeForChildAllocation st node in
  let? children := children st node in
  match children with
  | [] => Ok childrenRange
  | firstChild :: _ =>
      let? firstChildInterval := interval st firstChild in
      let? firstChildInterval := deref firstChildInterval in
      Ok (newReachabilityInterval (Start childrenRange) (uint64 (Start firstChildInterval - 1)))
  end.

Definition remainingIntervalAfter (st : reach_store) (node : bytes) : res ReachError ReachabilityInterval :=
  let? childrenRange := intervalRangeForChildAllocation st node in
  let? children := children st node in
  match last children with
  | None => Ok childrenRange
  | Some lastChild =>
      let? lastChildInterval := interval st lastChild in
      let? lastChildInterval := deref lastChildInterval in
      Ok (newReachabilityInterval (uint64 (End lastChildInterval + 1)) (End childrenRange))
  end.

Definition remainingSlackBefore (st : reach_store) (node : bytes) : res ReachError Z :=
  let? interval := remainingIntervalBefore st node in Ok (intervalSize interval).

Definition remainingSlackAfter (st : reach_store) (node : bytes) : res ReachError Z :=
  let? interval := remainingIntervalAfter st node in Ok (intervalSize interval).

Definition hasSlackIntervalBefore (st : reach_store) (node : bytes) : res ReachError bool :=
  let? interval := remainingIntervalBefore st node in Ok (intervalSize interval >? 0).

Definition hasSlackIntervalAfter (st : reach_store) (node : bytes) : res ReachError bool :=
  let? interval := remainingIntervalAfter st node in Ok (intervalSize interval >? 0).

(** * ordered_tree_node_set.go *)

(** The binary search: the first index in [low, high) whose interval starts
    after [end], if the intervals are ordered.  One iteration per unit of fuel. *)
Fixpoint find_index_loop (fuel : nat) (st : reach_store) (tns : list bytes) (end_ : Z) (low high : Z)
    : res ReachError Z :=
  if low <? high then
    match fuel with
    | O => Err ReachFuel
    | S fuel' =>
        let middle := (low + high) / 2 in
        let? node := index_res tns middle in
        let? middleInterval := interval st node in
        let? middleInterval := deref middleInterval in
        if end_ <? Start middleInterval then find_index_loop fuel' st tns end_ low middle
        else find_index_loop fuel' st tns end_ (middle + 1) high
    end
  else Ok low.

(** [None]: no ancestor, the [false] of the code. *)
Definition findAncestorIndexOfNode (st : reach_store) (tns : list bytes) (node : bytes)
    : res ReachError (option Z) :=
  let? blockInterval := interval st node in
  let? blockInterval := deref blockInterval in
  let? low := find_index_loop (length tns) st tns (End blockInterval) 0 (zlen tns) in
  Ok (if low =? 0 then None else Some (low - 1)).

(** Errors of the search are not found. *)
Definition findAncestorOfNode (st : reach_store) (tns : list bytes) (node : bytes)
    : res ReachError (option bytes) :=
  match findAncestorIndexOfNode st tns node with
  | Panic => Panic
  | Err _ => Ok None
  | Ok None => Ok None
  | Ok (Some ancestorIndex) => let? ancestor := index_res tns ancestorIndex in Ok (Some ancestor)
  end.

(** * tree.go: queries *)

Definition IsReachabilityTreeAncestorOf (st : reach_store) (node other : bytes) : res ReachError bool :=
  let? nodeInterval := interval st node in
  let? otherInterval := interval st other in
  let? nodeInterval := deref nodeInterval in
  let? otherInterval := deref otherInterval in
  Ok (intervalContains nodeInterval otherInterval).

Definition FindNextAncestor (st : reach_store) (descendant ancestor : bytes) : res ReachError bytes :=
  if bytes_eqb ancestor descendant then Err ErrAncestorIsDescendant else
  let? childrenOfAncestor := children st ancestor in
  let? nextAncestor := findAncestorOfNode st childrenOfAncestor descendant in
  match nextAncestor with
  | None => Err ErrNotAncestor
  | Some nextAncestor => Ok nextAncestor
  end.

Definition isStrictAncestorOf (st : reach_store) (node other : bytes) : res ReachError bool :=
  if bytes_eqb node other then Ok false else IsReachabilityTreeAncestorOf st node other.

Fixpoint findCommonAncestor (fuel : nat) (st : reach_store) (node root : bytes) : res ReachError bytes :=
  match fuel with
  | O => Err ReachFuel
  | S fuel' =>
      let? isAncestorOf := IsReachabilityTreeAncestorOf st node root in
      if isAncestorOf : bool then Ok node else
      let? current := parent st node in
      let? current := deref current in
      findCommonAncestor fuel' st current root
  end.

Fixpoint split_at (pivot : bytes) (before children : list bytes) : res ReachError (list bytes * list bytes) :=
  match children with
  | [] => Err ErrNotPivot
  | child :: rest => if bytes_eqb child pivot then Ok (before, rest) else split_at pivot (before ++ [child]) rest
  end.

Definition splitChildren (st : reach_store) (node pivot : bytes) : res ReachError (list bytes * list bytes) :=
  let? children := children st node in split_at pivot [] children.

(** The checks of one node of [validateIntervals]: its children follow each
    other, inside its own interval.  [previous] is the sibling before. *)
Fixpoint validate_children (st : reach_store) (currentInterval : ReachabilityInterval)
    (previous : option bytes) (children : list bytes) : res ReachError unit :=
  match children with
  | [] => Ok tt
  | child :: rest =>
      let? childInterval := interval st child in
      let? _ :=
        match previous with
        | None => Ok tt
        | Some sibling =>
            let? siblingInterval := interval st sibling in
            let? siblingInterval := deref siblingInterval in
            let? childInterval := deref childInterval in
            if negb (uint64 (End siblingInterval + 1) =? Start childInterval) then Err ErrIntervalGap else Ok tt
        end in
      let? childInterval := deref childInterval in
      if Start childInterval <? Start currentInterval then Err ErrIntervalLeft else
      if End currentInterval <=? End childInterval then Err ErrIntervalRight else
      validate_children st currentInterval (Some child) rest
  end.

Fixpoint validate_loop (fuel : nat) (st : reach_store) (queue : list bytes) : res ReachError unit :=
  match queue with
  | [] => Ok tt
  | current :: queue =>
      match fuel with
      | O => Err ReachFuel
      | S fuel' =>
          let? children := children st current in
          let queue := queue ++ children in
          let? currentInterval := interval st current in
          let? currentInterval := deref currentInterval in
          if End currentInterval <? Start currentInterval then Err ErrIntervalEmpty else
          let? _ := validate_children st currentInterval None children in
          validate_loop fuel' st queue
      end
  end.

Definition validateIntervals (fuel : nat) (st : reach_store) (root : bytes) : res ReachError unit :=
  validate_loop fuel st [root].

Fixpoint getAllNodes_loop (fuel : nat) (st : reach_store) (queue nodes : list bytes) : res ReachError (list bytes) :=
  match queue with
  | [] => Ok nodes
  | current :: queue =>
      match fuel with
      | O => Err ReachFuel
      | S fuel' =>
          let? children := children st current in
          getAllNodes_loop fuel' st (queue ++ children) (nodes ++ children)
      end
  end.

Definition getAllNodes (fuel : nat) (st : reach_store) (root : bytes) : res ReachError (list bytes) :=
  getAllNodes_loop fuel st [root] [root].

(** * future_covering_set.go *)

Definition insertToFutureCoveringSet (node futureNode : bytes) : RM unit :=
  let* reachabilityData := view (fun st => reachabilityDataForInsertion st node) in
  let futureCoveringSet := FutureCoveringSet reachabilityData in
  let* ancestorIndex := view (fun st => findAncestorIndexOfNode st futureCoveringSet futureNode) in
  match ancestorIndex with
  | None => stageData node (SetFutureCoveringSet (futureNode :: futureCoveringSet) reachabilityData)
  | Some ancestorIndex =>
      let* candidate := index futureCoveringSet ancestorIndex in
      let* candidateIsAncestorOfFutureNode :=
        view (fun st => IsReachabilityTreeAncestorOf st candidate futureNode) in
      if candidateIsAncestorOfFutureNode : bool then ret tt else
      let* futureNodeIsAncestorOfCandidate :=
        view (fun st => IsReachabilityTreeAncestorOf st futureNode candidate) in
      if futureNodeIsAncestorOfCandidate : bool then
        stageFutureCoveringSet node (<[Z.to_nat ancestorIndex := futureNode]> futureCoveringSet)
      else
        let* left_ := slice futureCoveringSet 0 (ancestorIndex + 1) in
        let* right_ := slice futureCoveringSet (ancestorIndex + 1) (zlen futureCoveringSet) in
        stageData node (SetFutureCoveringSet (left_ ++ futureNode :: right_) reachabilityData)
  end.

Definition futureCoveringSetHasAncestorOf (st : reach_store) (this other : bytes) : res ReachError bool :=
  let? futureCoveringSet := futureCoveringSet st this in
  let? ancestorIndex := findAncestorIndexOfNode st futureCoveringSet other in
  match ancestorIndex with
  | None => Ok false
  | Some ancestorIndex =>
      let? candidate := index_res futureCoveringSet ancestorIndex in
      IsReachabilityTreeAncestorOf st candidate other
  end.

(** * reachability.go *)

Definition IsDAGAncestorOf (st : reach_store) (blockHashA blockHashB : bytes) : res ReachError bool :=
  let? isReachabilityTreeAncestor := IsReachabilityTreeAncestorOf st blockHashA blockHashB in
  if isReachabilityTreeAncestor : bool then Ok true else
  futureCoveringSetHasAncestorOf st blockHashA blockHashB.
