(* ===== verification/Reindex.v ===== *)
(** Reindexing the reachability tree, and the operations that need it.
    [src/domain/consensus/processes/reachabilitymanager/reindex_context.go], the
    rest of [tree.go], [reachability.go] and [reachabilitymanager.go].

    A reindex context is the store and the cache of subtree sizes.  [fuel] bounds
    every loop over the tree; as much fuel as there are blocks is enough. *)

From S2P Require Import Prelude Transaction Block Difficulty TxMass Ghostdag ReachInterval Reachability.

Record reindexContext : Set := mk_reindexContext {
  rc_manager : reach_store;
  subTreeSizesCache : gmap bytes Z
}.

Abbreviation RC := (M ReachError reindexContext).

(** A method of the manager called in a reindex context. *)
Definition manager {A} (m : RM A) : RC A :=
  zoom rc_manager (fun st rc => mk_reindexContext st (subTreeSizesCache rc)) m.

Definition mview {A} (f : reach_store -> res ReachError A) : RC A := manager (view f).

(** A run with [newReindexContext]. *)
Definition newReindexContext {A} (m : RC A) : RM A :=
  fun st => let '(r, rc) := m (mk_reindexContext st ∅) in (r, rc_manager rc).

Definition cached (node : bytes) : RC (option Z) := fun rc => (Ok (subTreeSizesCache rc !! node), rc).

(** [rc.subTreeSizesCache[node]], zero if there is none. *)
Definition cache_value (node : bytes) : RC Z := fun rc => (Ok (default 0 (subTreeSizesCache rc !! node)), rc).

Definition set_cache (node : bytes) (size : Z) : RC unit :=
  modify (fun rc => mk_reindexContext (rc_manager rc) (<[node := size]> (subTreeSizesCache rc))).

Fixpoint cache_values (nodes : list bytes) : RC (list Z) :=
  match nodes with
  | [] => ret []
  | node :: rest => let* size := cache_value node in let* sizes := cache_values rest in ret (size :: sizes)
  end.

(** * Counting subtrees *)

(** The inner loop of [countSubtrees]: from a node that is counted towards
    [node], as long as all children of the parent are counted. *)
Fixpoint push_up (fuel : nat) (node current : bytes) (calculatedChildrenCount : gmap bytes Z)
    : RC (gmap bytes Z) :=
  if bytes_eqb current node then ret calculatedChildrenCount else
  match fuel with
  | O => throw ReachFuel
  | S fuel' =>
      let* current := mview (fun st => parent st current) in
      match current with
      | None => ret calculatedChildrenCount
      | Some current =>
          let count := uint64 (default 0 (calculatedChildrenCount !! current) + 1) in
          let calculatedChildrenCount := <[current := count]> calculatedChildrenCount in
          let* children := mview (fun st => children st current) in
          if negb (count =? uint64 (zlen children)) then ret calculatedChildrenCount else
          let* sizes := cache_values children in
          set_cache current (uint64 (sum_uint64 id 0 sizes + 1)) ;;
          push_up fuel' node current calculatedChildrenCount
      end
  end.

Fixpoint count_loop (walk fuel : nat) (node : bytes) (queue : list bytes)
    (calculatedChildrenCount : gmap bytes Z) : RC unit :=
  match queue with
  | [] => ret tt
  | current :: queue =>
      match fuel with
      | O => throw ReachFuel
      | S fuel' =>
          let* children := mview (fun st => children st current) in
          let* known := cached current in
          match children, known with
          | _ :: _, None => count_loop walk fuel' node (queue ++ children) calculatedChildrenCount
          | _, _ =>
              (match children with [] => set_cache current 1 | _ => ret tt end) ;;
              let* calculatedChildrenCount := push_up walk node current calculatedChildrenCount in
              count_loop walk fuel' node queue calculatedChildrenCount
          end
      end
  end.

Definition countSubtrees (fuel : nat) (node : bytes) : RC unit :=
  let* known := cached node in
  match known with
  | Some _ => ret tt
  | None => count_loop fuel fuel node [node] ∅
  end.

(** * Propagating intervals *)

(** [for i, child := range children { stageInterval(child, intervals[i]) }] *)
Fixpoint stage_intervals (children : list bytes) (intervals : list ReachabilityInterval) : RC unit :=
  match children with
  | [] => ret tt
  | child :: children' =>
      let* childInterval := index intervals 0 in
      manager (stageInterval child childInterval) ;;
      stage_intervals children' (tail intervals)
  end.

Section manager.
Context `{FloatConversion}.
Variable rt : reachabilityManager.
Variable fuel : nat.

Fixpoint propagate_loop (fuel : nat) (queue : list bytes) : RC unit :=
  match queue with
  | [] => ret tt
  | current :: queue =>
      match fuel with
      | O => throw ReachFuel
      | S fuel' =>
          let* children := mview (fun st => children st current) in
          match children with
          | [] => propagate_loop fuel' queue
          | _ =>
              let* sizes := cache_values children in
              let* interval := mview (fun st => intervalRangeForChildAllocation st current) in
              let* intervals := lift (intervalSplitWithExponentialBias interval sizes) in
              stage_intervals children intervals ;;
              propagate_loop fuel' (queue ++ children)
          end
      end
  end.

Definition propagateInterval (node : bytes) : RC unit :=
  countSubtrees fuel node ;;
  propagate_loop fuel [node].

(** * Reclaiming slack along the chain to the reindex root *)

(** [for i := len(siblingsBefore) - 1; i >= 0; i--], on the reversed slice. *)
Fixpoint offset_before_loop (allocationNode : bytes) (offset : Z) (siblings : list bytes) : RC unit :=
  match siblings with
  | [] => ret tt
  | sibling :: rest =>
      if bytes_eqb sibling allocationNode then
        let* previousInterval := mview (fun st => interval st allocationNode) in
        let* previousInterval := lift (deref previousInterval) in
        manager (stageInterval allocationNode (intervalIncreaseEnd previousInterval offset)) ;;
        propagateInterval allocationNode
      else
        let* previousInterval := mview (fun st => interval st sibling) in
        let* previousInterval := lift (deref previousInterval) in
        manager (stageInterval sibling (intervalIncrease previousInterval offset)) ;;
        propagateInterval sibling ;;
        offset_before_loop allocationNode offset rest
  end.

Definition offsetSiblingsBefore (allocationNode current : bytes) (offset : Z) : RC unit :=
  let* parent := mview (fun st => parent st current) in
  let* parent := lift (deref parent) in
  let* split := mview (fun st => splitChildren st parent current) in
  offset_before_loop allocationNode offset (rev (fst split)).

Fixpoint offset_after_loop (allocationNode : bytes) (offset : Z) (siblings : list bytes) : RC unit :=
  match siblings with
  | [] => ret tt
  | sibling :: rest =>
      if bytes_eqb sibling allocationNode then
        let* previousInterval := mview (fun st => interval st allocationNode) in
        let* previousInterval := lift (deref previousInterval) in
        manager (stageInterval allocationNode (intervalDecreaseStart previousInterval offset)) ;;
        propagateInterval allocationNode
      else
        let* previousInterval := mview (fun st => interval st sibling) in
        let* previousInterval := lift (deref previousInterval) in
        manager (stageInterval sibling (intervalDecrease previousInterval offset)) ;;
        propagateInterval sibling ;;
        offset_after_loop allocationNode offset rest
  end.

Definition offsetSiblingsAfter (allocationNode current : bytes) (offset : Z) : RC unit :=
  let* parent := mview (fun st => parent st current) in
  let* parent := lift (deref parent) in
  let* split := mview (fun st => splitChildren st parent current) in
  offset_after_loop allocationNode offset (snd split).

(** The walk towards the reindex root: where it ends, and the slack to leave on
    the way back. *)
Fixpoint reclaim_before_up (fuel : nat) (allocationNode current reindexRoot : bytes)
    (requiredAllocation slackSum pathLen : Z) : RC (bytes * Z) :=
  match fuel with
  | O => throw ReachFuel
  | S fuel' =>
      if bytes_eqb current reindexRoot then
        let* previousInterval := mview (fun st => interval st current) in
        let* previousInterval := lift (deref previousInterval) in
        let offset := uint64 (uint64 (requiredAllocation + uint64 (reindexSlack rt * pathLen)) - slackSum) in
        manager (stageInterval current (intervalIncreaseStart previousInterval offset)) ;;
        propagateInterval current ;;
        offsetSiblingsBefore allocationNode current offset ;;
        ret (current, reindexSlack rt)
      else
        let* slackBeforeCurrent := mview (fun st => remainingSlackBefore st current) in
        let slackSum := uint64 (slackSum + slackBeforeCurrent) in
        if slackSum >=? requiredAllocation then
          let* previousInterval := mview (fun st => interval st current) in
          let* previousInterval := lift (deref previousInterval) in
          let offset := uint64 (slackBeforeCurrent - uint64 (slackSum - requiredAllocation)) in
          manager (stageInterval current (intervalIncreaseStart previousInterval offset)) ;;
          offsetSiblingsBefore allocationNode current offset ;;
          ret (current, 0)
        else
          let* current := mview (fun st => FindNextAncestor st reindexRoot current) in
          reclaim_before_up fuel' allocationNode current reindexRoot requiredAllocation slackSum (uint64 (pathLen + 1))
  end.

(** The walk back to the common ancestor. *)
Fixpoint reclaim_before_down (fuel : nat) (allocationNode current commonAncestor : bytes)
    (pathSlackAlloc : Z) : RC unit :=
  match fuel with
  | O => throw ReachFuel
  | S fuel' =>
      let* current := mview (fun st => parent st current) in
      if hash_Equal current (Some commonAncestor) then ret tt else
      let* current := lift (deref current) in
      let* originalInterval := mview (fun st => interval st current) in
      let* slackBeforeCurrent := mview (fun st => remainingSlackBefore st current) in
      let offset := uint64 (slackBeforeCurrent - pathSlackAlloc) in
      let* originalInterval := lift (deref originalInterval) in
      manager (stageInterval current (intervalIncreaseStart originalInterval offset)) ;;
      offsetSiblingsBefore allocationNode current offset ;;
      reclaim_before_down fuel' allocationNode current commonAncestor pathSlackAlloc
  end.

Definition reclaimIntervalBefore (allocationNode commonAncestor chosenChild reindexRoot : bytes)
    (requiredAllocation : Z) : RC unit :=
  let* r := reclaim_before_up fuel allocationNode chosenChild reindexRoot requiredAllocation 0 0 in
  reclaim_before_down fuel allocationNode (fst r) commonAncestor (snd r).

Fixpoint reclaim_after_up (fuel : nat) (allocationNode current reindexRoot : bytes)
    (requiredAllocation slackSum pathLen : Z) : RC (bytes * Z) :=
  match fuel with
  | O => throw ReachFuel
  | S fuel' =>
      if bytes_eqb current reindexRoot then
        let* previousInterval := mview (fun st => interval st current) in
        let* previousInterval := lift (deref previousInterval) in
        let offset := uint64 (uint64 (requiredAllocation + uint64 (reindexSlack rt * pathLen)) - slackSum) in
        manager (stageInterval current (intervalDecreaseEnd previousInterval offset)) ;;
        propagateInterval current ;;
        offsetSiblingsAfter allocationNode current offset ;;
        ret (current, reindexSlack rt)
      else
        let* slackAfterCurrent := mview (fun st => remainingSlackAfter st current) in
        let slackSum := uint64 (slackSum + slackAfterCurrent) in
        if slackSum >=? requiredAllocation then
          let* previousInterval := mview (fun st => interval st current) in
          let* previousInterval := lift (deref previousInterval) in
          let offset := uint64 (slackAfterCurrent - uint64 (slackSum - requiredAllocation)) in
          manager (stageInterval current (intervalDecreaseEnd previousInterval offset)) ;;
          offsetSiblingsAfter allocationNode current offset ;;
          ret (current, 0)
        else
          let* current := mview (fun st => FindNextAncestor st reindexRoot current) in
          reclaim_after_up fuel' allocationNode current reindexRoot requiredAllocation slackSum (uint64 (pathLen + 1))
  end.

Fixpoint reclaim_after_down (fuel : nat) (allocationNode current commonAncestor : bytes)
    (pathSlackAlloc : Z) : RC unit :=
  match fuel with
  | O => throw ReachFuel
  | S fuel' =>
      let* current := mview (fun st => parent st current) in
      if hash_Equal current (Some commonAncestor) then ret tt else
      let* current := lift (deref current) in
      let* originalInterval := mview (fun st => interval st current) in
      let* slackAfterCurrent := mview (fun st => remainingSlackAfter st current) in
      let offset := uint64 (slackAfterCurrent - pathSlackAlloc) in
      let* originalInterval := lift (deref originalInterval) in
      manager (stageInterval current (intervalDecreaseEnd originalInterval offset)) ;;
      offsetSiblingsAfter allocationNode current offset ;;
      reclaim_after_down fuel' allocationNode current commonAncestor pathSlackAlloc
  end.

Definition reclaimIntervalAfter (allocationNode commonAncestor chosenChild reindexRoot : bytes)
    (requiredAllocation : Z) : RC unit :=
  let* r := reclaim_after_up fuel allocationNode chosenChild reindexRoot requiredAllocation 0 0 in
  reclaim_after_down fuel allocationNode (fst r) commonAncestor (snd r).

Definition reindexIntervalsEarlierThanRoot (allocationNode reindexRoot commonAncestor : bytes)
    (requiredAllocation : Z) : RC unit :=
  let* chosenChild := mview (fun st => FindNextAncestor st reindexRoot commonAncestor) in
  let* nodeInterval := mview (fun st => interval st allocationNode) in
  let* chosenInterval := mview (fun st => interval st chosenChild) in
  let* nodeInterval := lift (deref nodeInterval) in
  let* chosenInterval := lift (deref chosenInterval) in
  if Start nodeInterval <? Start chosenInterval then
    reclaimIntervalBefore allocationNode commonAncestor chosenChild reindexRoot requiredAllocation
  else reclaimIntervalAfter allocationNode commonAncestor chosenChild reindexRoot requiredAllocation.

(** * Reindexing for a new child *)

Fixpoint reindex_loop (walk : nat) (current reindexRoot : bytes) : RC unit :=
  match walk with
  | O => throw ReachFuel
  | S walk' =>
      let* currentInterval := mview (fun st => interval st current) in
      let* currentInterval := lift (deref currentInterval) in
      let currentIntervalSize := intervalSize currentInterval in
      countSubtrees fuel current ;;
      let* currentSubtreeSize := cache_value current in
      if currentIntervalSize >=? currentSubtreeSize then propagateInterval current else
      let* parent := mview (fun st => parent st current) in
      match parent with
      | None => throw ErrMissingTreeParent
      | Some parent =>
          if bytes_eqb current reindexRoot then throw ErrReindexRootCapacity else
          let* isParentStrictAncestorOfRoot := mview (fun st => isStrictAncestorOf st parent reindexRoot) in
          if isParentStrictAncestorOfRoot : bool then
            reindexIntervalsEarlierThanRoot current reindexRoot parent currentSubtreeSize
          else reindex_loop walk' parent reindexRoot
      end
  end.

Definition reindexIntervals (newChild reindexRoot : bytes) : RC unit := reindex_loop fuel newChild reindexRoot.

(** * Moving the reindex root *)

(** The sizes and their sum; an error of [countSubtrees] gives nothing and zero. *)
Fixpoint count_children_loop (children : list bytes) (sizes : list Z) (sum : Z) : RC (list Z * Z) :=
  match children with
  | [] => ret (sizes, sum)
  | node :: rest => fun rc =>
      match countSubtrees fuel node rc with
      | (Panic, rc) => (Panic, rc)
      | (Err _, rc) => (Ok ([], 0), rc)
      | (Ok _, rc) =>
          let subtreeSize := default 0 (subTreeSizesCache rc !! node) in
          count_children_loop rest (sizes ++ [subtreeSize]) (uint64 (sum + subtreeSize)) rc
      end
  end.

Definition countChildrenSubtrees (children : list bytes) : RC (list Z * Z) := count_children_loop children [] 0.

Fixpoint propagate_children_loop (children : list bytes) (childIntervals : list ReachabilityInterval) : RC unit :=
  match children with
  | [] => ret tt
  | child :: children' =>
      let* childInterval := index childIntervals 0 in
      manager (stageInterval child childInterval) ;;
      propagateInterval child ;;
      propagate_children_loop children' (tail childIntervals)
  end.

Definition propagateChildrenIntervals (interval : ReachabilityInterval) (children : list bytes) (sizes : list Z)
    : RC unit :=
  let* childIntervals := lift (intervalSplitExact interval sizes) in
  propagate_children_loop children childIntervals.

Definition tightenIntervalsBefore (reindexRoot : bytes) (siblingsBeforeChosen : list bytes) : RC Z :=
  let* counted := countChildrenSubtrees siblingsBeforeChosen in
  let '(siblingSubtreeSizes, sizesSum) := counted in
  let* rootInterval := mview (fun st => interval st reindexRoot) in
  let* rootInterval := lift (deref rootInterval) in
  let intervalBeforeChosen := newReachabilityInterval
    (uint64 (Start rootInterval + reindexSlack rt))
    (uint64 (uint64 (uint64 (Start rootInterval + reindexSlack rt) + sizesSum) - 1)) in
  propagateChildrenIntervals intervalBeforeChosen siblingsBeforeChosen siblingSubtreeSizes ;;
  ret sizesSum.

Definition tightenIntervalsAfter (reindexRoot : bytes) (siblingsAfterChosen : list bytes) : RC Z :=
  let* counted := countChildrenSubtrees siblingsAfterChosen in
  let '(siblingSubtreeSizes, sizesSum) := counted in
  let* rootInterval := mview (fun st => interval st reindexRoot) in
  let* rootInterval := lift (deref rootInterval) in
  let intervalAfterChosen := newReachabilityInterval
    (uint64 (uint64 (End rootInterval - reindexSlack rt) - sizesSum))
    (uint64 (uint64 (End rootInterval - reindexSlack rt) - 1)) in
  propagateChildrenIntervals intervalAfterChosen siblingsAfterChosen siblingSubtreeSizes ;;
  ret sizesSum.

Definition expandIntervalToChosen (reindexRoot chosenChild : bytes) (sizesSumBefore sizesSumAfter : Z)
    (isFinalReindexRoot : bool) : RC unit :=
  let* rootInterval := mview (fun st => interval st reindexRoot) in
  let* rootInterval := lift (deref rootInterval) in
  let newChosenInterval := newReachabilityInterval
    (uint64 (uint64 (Start rootInterval + sizesSumBefore) + reindexSlack rt))
    (uint64 (uint64 (uint64 (End rootInterval - sizesSumAfter) - reindexSlack rt) - 1)) in
  let* currentChosenInterval := mview (fun st => interval st chosenChild) in
  (if isFinalReindexRoot then
     let* currentChosenInterval := lift (deref currentChosenInterval) in
     if negb (intervalContains newChosenInterval currentChosenInterval) then
       manager (stageInterval chosenChild (newReachabilityInterval
         (uint64 (Start newChosenInterval + reindexSlack rt))
         (uint64 (End newChosenInterval - reindexSlack rt)))) ;;
       propagateInterval chosenChild
     else ret tt
   else ret tt) ;;
  manager (stageInterval chosenChild newChosenInterval).

Definition concentrateInterval (reindexRoot chosenChild : bytes) (isFinalReindexRoot : bool) : RC unit :=
  let* split := mview (fun st => splitChildren st reindexRoot chosenChild) in
  let '(siblingsBeforeChosen, siblingsAfterChosen) := split in
  let* siblingsBeforeSizesSum := tightenIntervalsBefore reindexRoot siblingsBeforeChosen in
  let* siblingsAfterSizesSum := tightenIntervalsAfter reindexRoot siblingsAfterChosen in
  expandIntervalToChosen reindexRoot chosenChild siblingsBeforeSizesSum siblingsAfterSizesSum isFinalReindexRoot.

(** * tree.go: adding a child *)

Definition addChild (node child reindexRoot : bytes) : RM unit :=
  let* remaining := view (fun st => remainingIntervalAfter st node) in
  stageAddChild node child ;;
  stageParent child node ;;
  if intervalSize remaining =? 0 then
    stageInterval child remaining ;;
    newReindexContext (reindexIntervals child reindexRoot)
  else
    let* split := lift (intervalSplitInHalf remaining) in
    stageInterval child (fst split).

(** * tree.go: the reindex root *)

Variable gd : ghostdag_store.

(** [ghostdagDataStore.Get(..., false)] *)
Definition ghostdagData (blockHash : bytes) : res ReachError BlockGHOSTDAGData :=
  match gd !! (blockHash, false) with Some d => Ok d | None => Err ErrNotFound end.

Fixpoint next_root_loop (walk : nat) (st : reach_store) (selectedTip : bytes)
    (selectedTipGHOSTDAGData : BlockGHOSTDAGData) (newReindexRoot : bytes) : res ReachError bytes :=
  match walk with
  | O => Err ReachFuel
  | S walk' =>
      let? chosenChild := FindNextAncestor st selectedTip newReindexRoot in
      let? chosenChildGHOSTDAGData := ghostdagData chosenChild in
      if BlueScore selectedTipGHOSTDAGData <? BlueScore chosenChildGHOSTDAGData then Err ErrBlueScore else
      if uint64 (BlueScore selectedTipGHOSTDAGData - BlueScore chosenChildGHOSTDAGData) <? reindexWindow rt
      then Ok newReindexRoot
      else next_root_loop walk' st selectedTip selectedTipGHOSTDAGData chosenChild
  end.

(** The ancestor to concentrate from and the new reindex root. *)
Definition findNextReindexRoot (st : reach_store) (currentReindexRoot selectedTip : bytes)
    : res ReachError (bytes * bytes) :=
  let? selectedTipGHOSTDAGData := ghostdagData selectedTip in
  let? isCurrentAncestorOfTip := IsReachabilityTreeAncestorOf st currentReindexRoot selectedTip in
  let? start :=
    if isCurrentAncestorOfTip : bool then Ok (Some currentReindexRoot) else
    let? currentRootGHOSTDAGData := ghostdagData currentReindexRoot in
    if (BlueScore selectedTipGHOSTDAGData <? BlueScore currentRootGHOSTDAGData) ||
       (uint64 (BlueScore selectedTipGHOSTDAGData - BlueScore currentRootGHOSTDAGData) <? reindexSlack rt)
    then Ok None else
    let? commonAncestor := findCommonAncestor fuel st selectedTip currentReindexRoot in
    Ok (Some commonAncestor) in
  match start with
  | None => Ok (currentReindexRoot, currentReindexRoot)
  | Some reindexRootAncestor =>
      let? newReindexRoot :=
        next_root_loop fuel st selectedTip selectedTipGHOSTDAGData reindexRootAncestor in
      Ok (reindexRootAncestor, newReindexRoot)
  end.

Fixpoint concentrate_loop (walk : nat) (selectedTip reindexRootAncestor newReindexRoot : bytes) : RC unit :=
  match walk with
  | O => throw ReachFuel
  | S walk' =>
      let* chosenChild := mview (fun st => FindNextAncestor st selectedTip reindexRootAncestor) in
      let isFinalReindexRoot := bytes_eqb chosenChild newReindexRoot in
      concentrateInterval reindexRootAncestor chosenChild isFinalReindexRoot ;;
      if isFinalReindexRoot then ret tt else concentrate_loop walk' selectedTip chosenChild newReindexRoot
  end.

Definition updateReindexRoot (selectedTip : bytes) : RM unit :=
  let* currentReindexRoot := view reindexRoot in
  let* roots := view (fun st => findNextReindexRoot st currentReindexRoot selectedTip) in
  let '(reindexRootAncestor, newReindexRoot) := roots in
  if bytes_eqb currentReindexRoot newReindexRoot then ret tt else
  (if negb (bytes_eqb newReindexRoot reindexRootAncestor)
   then newReindexContext (concentrate_loop fuel selectedTip reindexRootAncestor newReindexRoot)
   else ret tt) ;;
  stageReindexRoot newReindexRoot.

Definition UpdateReindexRoot (selectedTip : bytes) : RM unit := updateReindexRoot selectedTip.

(** * reachabilitymanager.go *)

Fixpoint insert_into_all (mergeSet : list bytes) (blockHash : bytes) : RM unit :=
  match mergeSet with
  | [] => ret tt
  | current :: rest => insertToFutureCoveringSet current blockHash ;; insert_into_all rest blockHash
  end.

Definition AddBlock (blockHash : bytes) : RM unit :=
  stageData blockHash newReachabilityTreeData ;;
  let* ghostdagData := lift (ghostdagData blockHash) in
  let* reindexRoot := view reindexRoot in
  let* selectedParent := lift (deref (SelectedParent ghostdagData)) in
  addChild selectedParent blockHash reindexRoot ;;
  insert_into_all (MergeSetBlues ghostdagData ++ MergeSetReds ghostdagData) blockHash.

Definition Init : RM unit :=
  let* st := get in
  match rs_data st !! VirtualGenesisBlockHash with
  | Some _ => ret tt
  | None =>
      stageData VirtualGenesisBlockHash newReachabilityTreeData ;;
      stageReindexRoot VirtualGenesisBlockHash
  end.

End manager.
