(* ===== verification/ReachTree.v ===== *)
(** The reachability tree as a mathematical object: finite trees of hashes, what
    it means that the store holds such a tree, and that the intervals of the
    store are nested like the tree.  From this the queries of the manager are
    answered: an interval contains another exactly when the node is an ancestor,
    and the binary search finds the child on the way to a descendant. *)

From Stdlib Require Import Sorted.
From S2P Require Import Prelude Transaction Block Difficulty TxMass Ghostdag ReachInterval Reachability.

(** * Trees *)

Inductive tree : Set := Node (hash : bytes) (subs : list tree).

Definition troot (t : tree) : bytes := let '(Node h _) := t in h.
Definition tsubs (t : tree) : list tree := let '(Node _ cs) := t in cs.

Section tree_ind.
Variable P : tree -> Prop.
Hypothesis HP : forall h cs, (forall c, c ∈ cs -> P c) -> P (Node h cs).

Fixpoint tree_induction (t : tree) : P t :=
  match t with
  | Node h cs => HP h cs ((fix go (l : list tree) : forall c, c ∈ l -> P c :=
      match l with
      | [] => fun c Hc => False_ind _ (not_elem_of_nil c Hc)
      | x :: l' => fun c Hc =>
          match proj1 (elem_of_cons l' c x) Hc with
          | or_introl E => eq_ind_r P (tree_induction x) E
          | or_intror H => go l' c H
          end
      end) cs)
  end.
End tree_ind.

Fixpoint subtrees (t : tree) : list tree :=
  let '(Node _ cs) := t in t :: concat (map subtrees cs).

Definition nodes (t : tree) : list bytes := map troot (subtrees t).

Definition tsize (t : tree) : Z := zlen (subtrees t).

Lemma subtrees_eq t : subtrees t = t :: concat (map subtrees (tsubs t)).
Proof. by destruct t. Qed.

Lemma elem_of_concat_map {A B} (f : A -> list B) l y : y ∈ concat (map f l) <-> exists x, x ∈ l /\ y ∈ f x.
Proof.
  induction l as [|x l IH]; cbn [map concat].
  - split; [by intros ?%not_elem_of_nil|]. by intros (? & ?%not_elem_of_nil & _).
  - rewrite elem_of_app, IH. setoid_rewrite elem_of_cons. naive_solver.
Qed.

Lemma subtrees_inv t x : x ∈ subtrees t <-> x = t \/ exists c, c ∈ tsubs t /\ x ∈ subtrees c.
Proof. rewrite subtrees_eq, elem_of_cons, elem_of_concat_map. done. Qed.

Lemma subtrees_self t : t ∈ subtrees t.
Proof. apply subtrees_inv. by left. Qed.

Lemma subtrees_child t c : c ∈ tsubs t -> c ∈ subtrees t.
Proof. intros Hc. apply subtrees_inv. right. exists c. split; [done|apply subtrees_self]. Qed.

Lemma subtrees_trans t x y : y ∈ subtrees x -> x ∈ subtrees t -> y ∈ subtrees t.
Proof.
  intros Hy. induction t as [h cs IH] using tree_induction. intros [->|(c & Hc & Hx)]%subtrees_inv; [done|].
  apply subtrees_inv. right. exists c. split; [done|]. by apply IH.
Qed.

Lemma subtrees_down t x c : x ∈ subtrees t -> c ∈ tsubs x -> c ∈ subtrees t.
Proof. intros Hx Hc. apply (subtrees_trans t x); [by apply subtrees_child|done]. Qed.

Lemma nodes_subtrees t h : h ∈ nodes t <-> exists s, s ∈ subtrees t /\ troot s = h.
Proof. unfold nodes. rewrite list_elem_of_fmap. naive_solver. Qed.

Lemma nodes_eq t : nodes t = troot t :: concat (map nodes (tsubs t)).
Proof.
  unfold nodes. rewrite subtrees_eq. cbn [map]. f_equal. induction (tsubs t) as [|c cs IH]; [done|].
  cbn [map concat]. by rewrite map_app, IH.
Qed.

Lemma zlen_nodes t : zlen (nodes t) = tsize t.
Proof. unfold nodes, tsize, zlen. by rewrite length_map. Qed.

Lemma tsize_eq t : tsize t = 1 + sumZ tsize (tsubs t).
Proof.
  unfold tsize at 1. rewrite subtrees_eq, zlen_cons, Z.add_comm. f_equal.
  induction (tsubs t) as [|c cs IH]; [done|]. cbn [map concat sumZ foldr]. rewrite zlen_app, IH. done.
Qed.

Lemma tsize_pos t : 1 <= tsize t.
Proof. unfold tsize. rewrite subtrees_eq, zlen_cons. zlia. Qed.

Lemma sumZ_tsize_nonneg l : 0 <= sumZ tsize l.
Proof. apply sumZ_nonneg, Forall_forall. intros t _. pose proof (tsize_pos t). lia. Qed.

Lemma tsize_child t c : c ∈ tsubs t -> tsize c < tsize t.
Proof.
  intros Hc. rewrite (tsize_eq t). apply list_elem_of_split in Hc as (l1 & l2 & ->).
  rewrite sumZ_app. cbn [sumZ foldr]. fold (sumZ tsize l2).
  pose proof (sumZ_tsize_nonneg l1). pose proof (sumZ_tsize_nonneg l2). lia.
Qed.

Lemma tsize_subtree t x : x ∈ subtrees t -> tsize x <= tsize t.
Proof.
  induction t as [h cs IH] using tree_induction. intros [->|(c & Hc & Hx)]%subtrees_inv; [done|].
  pose proof (tsize_child (Node h cs) c Hc). specialize (IH c Hc Hx). lia.
Qed.

Lemma subtrees_parent t x : x ∈ subtrees t -> x <> t -> exists y, y ∈ subtrees t /\ x ∈ tsubs y.
Proof.
  induction t as [h cs IH] using tree_induction. intros [->|(c & Hc & Hx)]%subtrees_inv Hne; [done|].
  apply subtrees_inv in Hx as Hx'. destruct Hx' as [->|(c' & Hc' & Hx')].
  - exists (Node h cs). split; [apply subtrees_self|done].
  - destruct (IH c Hc Hx) as (y & Hy & Hxy).
    + intros ->. pose proof (tsize_child c c' Hc'). pose proof (tsize_subtree c' c Hx'). lia.
    + exists y. split; [|done]. apply (subtrees_trans _ c); [done|by apply subtrees_child].
Qed.

(** * Trees without repetition *)

Lemma nodup_child t c : NoDup (nodes t) -> c ∈ tsubs t -> NoDup (nodes c).
Proof.
  rewrite nodes_eq. intros [_ Hnd]%NoDup_cons Hc. apply list_elem_of_split in Hc as (l1 & l2 & E).
  rewrite E, map_app, concat_app in Hnd. apply NoDup_app in Hnd as (_ & _ & Hnd). cbn [map concat] in Hnd.
  by apply NoDup_app in Hnd as (Hnd & _).
Qed.

Lemma nodup_children t : NoDup (nodes t) -> NoDup (map troot (tsubs t)).
Proof.
  rewrite nodes_eq. intros [_ Hnd]%NoDup_cons. induction (tsubs t) as [|a l IH]; [constructor|].
  cbn [map concat] in *. apply NoDup_app in Hnd as (_ & Hd & Hnd). constructor; [|by apply IH].
  intros (b & E & Hb)%list_elem_of_fmap. apply (Hd (troot a)).
  - apply nodes_subtrees. exists a. split; [apply subtrees_self|done].
  - apply elem_of_concat_map. exists b. split; [done|]. rewrite E. apply nodes_subtrees. exists b.
    split; [apply subtrees_self|done].
Qed.

Lemma nodup_subtree t x : NoDup (nodes t) -> x ∈ subtrees t -> NoDup (nodes x).
Proof.
  induction t as [h cs IH] using tree_induction. intros Hnd [->|(c & Hc & Hx)]%subtrees_inv; [done|].
  apply (IH c Hc); [|done]. by apply (nodup_child (Node h cs)).
Qed.

Lemma nodup_root t c x : NoDup (nodes t) -> c ∈ tsubs t -> x ∈ subtrees c -> troot x <> troot t.
Proof.
  rewrite nodes_eq. intros [Hr _]%NoDup_cons Hc Hx E. apply Hr. apply elem_of_concat_map. exists c.
  split; [done|]. apply nodes_subtrees. eauto.
Qed.

(** Different positions among the children have no node in common. *)
Lemma nodup_siblings t l1 c l2 c' x x' : NoDup (nodes t) -> tsubs t = l1 ++ c :: l2 ->
  c' ∈ l1 ++ l2 -> x ∈ subtrees c -> x' ∈ subtrees c' -> troot x <> troot x'.
Proof.
  rewrite nodes_eq. intros [_ Hnd]%NoDup_cons E Hc' Hx Hx' Eq. rewrite E, map_app, concat_app in Hnd.
  cbn [map concat] in Hnd. assert (H1 : troot x ∈ nodes c) by (apply nodes_subtrees; eauto).
  assert (H2 : troot x ∈ nodes c') by (apply nodes_subtrees; eauto).
  apply NoDup_app in Hnd as (_ & Hd1 & Hnd). apply NoDup_app in Hnd as (_ & Hd2 & _).
  apply elem_of_app in Hc' as [Hc'|Hc'].
  - apply (Hd1 (troot x)); [|apply elem_of_app; by left]. apply elem_of_concat_map. eauto.
  - apply (Hd2 (troot x) H1). apply elem_of_concat_map. eauto.
Qed.

(** A hash is the root of one subtree. *)
Lemma subtree_unique t x y : NoDup (nodes t) -> x ∈ subtrees t -> y ∈ subtrees t -> troot x = troot y -> x = y.
Proof.
  induction t as [h cs IH] using tree_induction. intros Hnd Hx Hy E.
  apply subtrees_inv in Hx as [->|(c & Hc & Hx)]; apply subtrees_inv in Hy as [->|(c' & Hc' & Hy)].
  - done.
  - by destruct (nodup_root _ c' y Hnd Hc' Hy).
  - by destruct (nodup_root _ c x Hnd Hc Hx).
  - apply list_elem_of_split in Hc as Hs. destruct Hs as (l1 & l2 & El). cbn in El. subst cs.
    cbn [tsubs] in Hc'. rewrite elem_of_app, elem_of_cons in Hc'.
    assert (Hcc : c' = c \/ c' ∈ l1 ++ l2) by (rewrite elem_of_app; naive_solver).
    destruct Hcc as [->|Hcc].
    + apply (IH c Hc); [|done|done|done]. by apply (nodup_child _ c Hnd).
    + by destruct (nodup_siblings _ l1 c l2 c' x y Hnd eq_refl Hcc Hx Hy).
Qed.

Lemma nodes_sub t x h : x ∈ subtrees t -> h ∈ nodes x -> h ∈ nodes t.
Proof. intros Hx (u & Hu & <-)%nodes_subtrees. apply nodes_subtrees. exists u. split; [by eapply subtrees_trans|done]. Qed.

Lemma subtrees_antisym t x : x ∈ subtrees t -> t ∈ subtrees x -> x = t.
Proof.
  intros Hx Ht. apply subtrees_inv in Ht as [->|(v & Hv & Htv)]; [done|].
  pose proof (tsize_child x v Hv). pose proof (tsize_subtree v t Htv). pose proof (tsize_subtree t x Hx). lia.
Qed.

(** Being a subtree is a matter of the root. *)
Lemma subtree_by_root t x z : NoDup (nodes t) -> x ∈ subtrees t -> z ∈ subtrees t -> troot z ∈ nodes x <-> z ∈ subtrees x.
Proof.
  intros Hnd Hx Hz. split; [|intros Hzx; apply nodes_subtrees; eauto].
  intros (u & Hu & E)%nodes_subtrees. apply (subtree_unique t) in E as ->; [done|done|by eapply subtrees_trans|done].
Qed.

(** A node is in one child. *)
Lemma child_unique t w w' h : NoDup (nodes t) -> w ∈ tsubs t -> w' ∈ tsubs t -> h ∈ nodes w -> h ∈ nodes w' -> w = w'.
Proof.
  intros Hnd Hw Hw' (z & Hz & <-)%nodes_subtrees (z' & Hz' & E)%nodes_subtrees.
  destruct (decide (troot w = troot w')) as [Er|Er].
  - apply (subtree_unique t); [done|by apply subtrees_child..|done].
  - exfalso. apply list_elem_of_split in Hw as (k1 & k2 & Ek).
    eapply (nodup_siblings t k1 w k2 w' z z'); [done|done| |done|done|done].
    rewrite Ek in Hw'. rewrite elem_of_app, elem_of_cons in Hw'. rewrite elem_of_app. naive_solver.
Qed.

(** A subtree is the child of one node. *)
Lemma parent_unique t x y c : NoDup (nodes t) -> x ∈ subtrees t -> y ∈ subtrees t ->
  c ∈ tsubs x -> c ∈ tsubs y -> x = y.
Proof.
  intros Hnd. induction t as [h cs IH] using tree_induction. intros Hx Hy Hcx Hcy.
  assert (Haux : forall d z, d ∈ cs -> z ∈ subtrees d -> c ∈ cs -> c ∈ tsubs z -> False).
  { intros d z Hd Hz Hc Hcz. apply list_elem_of_split in Hd as Hs. destruct Hs as (l1 & l2 & ->).
    assert (Hcd : c = d \/ c ∈ l1 ++ l2) by (rewrite elem_of_app in Hc |- *; rewrite elem_of_cons in Hc; naive_solver).
    assert (Hcz' : c ∈ subtrees d) by (eapply subtrees_trans; [by apply subtrees_child|done]).
    destruct Hcd as [->|Hcd].
    - pose proof (tsize_child z d Hcz). pose proof (tsize_subtree d z Hz). lia.
    - by eapply (nodup_siblings (Node h (l1 ++ d :: l2)) l1 d l2 c c c Hnd eq_refl Hcd Hcz' (subtrees_self c)). }
  apply subtrees_inv in Hx as [->|(a & Ha & Hx)]; apply subtrees_inv in Hy as [->|(b & Hb & Hy)].
  - done.
  - by destruct (Haux b y Hb Hy Hcx Hcy).
  - by destruct (Haux a x Ha Hx Hcy Hcx).
  - apply list_elem_of_split in Ha as Hs. destruct Hs as (l1 & l2 & El). cbn in El. subst cs.
    cbn [tsubs] in Hb. assert (Hab : b = a \/ b ∈ l1 ++ l2)
      by (rewrite elem_of_app in Hb |- *; rewrite elem_of_cons in Hb; naive_solver).
    destruct Hab as [->|Hab].
    + apply (IH a Ha); [|done|done|done|done]. by apply (nodup_child _ a Hnd).
    + destruct (nodup_siblings _ l1 a l2 b c c Hnd eq_refl Hab); [| |done].
      * by apply (subtrees_down a x).
      * by apply (subtrees_down b y).
Qed.

(** * Nested intervals *)

Section nested.
Variable f : bytes -> ReachabilityInterval.

(** The interval of a node is not empty, and those of its children follow each
    other inside it, without its last element. *)
Record local_ok (t : tree) : Prop := {
  lo_start : 1 <= Start (f (troot t));
  lo_nonempty : Start (f (troot t)) <= End (f (troot t));
  lo_end : End (f (troot t)) < 2 ^ 64 - 1;
  lo_children : exists s e, Start (f (troot t)) <= s /\ e <= End (f (troot t)) /\
    tiles s (map (fun c => f (troot c)) (tsubs t)) e
}.

Definition nested (t : tree) : Prop := forall x, x ∈ subtrees t -> local_ok x.

Lemma nested_subtree t x : nested t -> x ∈ subtrees t -> nested x.
Proof. intros Hn Hx y Hy. apply Hn. by eapply subtrees_trans. Qed.

Lemma nested_child t c : nested t -> c ∈ tsubs t -> nested c.
Proof. intros Hn Hc. apply (nested_subtree t); [done|]. by apply subtrees_child. Qed.

Lemma nested_in_range t : nested t -> in_range (f (troot t)).
Proof. intros Hn. destruct (Hn t (subtrees_self t)). unfold in_range. lia. Qed.

Lemma nested_node h cs : local_ok (Node h cs) -> (forall c, c ∈ cs -> nested c) -> nested (Node h cs).
Proof. intros Hl Hc x [->|(c & Hin & Hx)]%subtrees_inv; [done|]. by apply (Hc c). Qed.

Lemma child_within t c : local_ok t -> c ∈ tsubs t ->
  Start (f (troot t)) <= Start (f (troot c)) /\ End (f (troot c)) < End (f (troot t)).
Proof.
  intros [_ _ _ (s & e & Hs & He & Ht)] Hc. apply (tiles_elem _ _ _ (f (troot c))) in Ht as (H1 & _ & H2); [lia|].
  apply list_elem_of_fmap. eauto.
Qed.

Lemma nested_within t x : nested t -> x ∈ subtrees t ->
  Start (f (troot t)) <= Start (f (troot x)) /\ End (f (troot x)) <= End (f (troot t)) /\
  (x = t \/ End (f (troot x)) < End (f (troot t))).
Proof.
  induction t as [h cs IH] using tree_induction. intros Hn [->|(c & Hc & Hx)]%subtrees_inv; [split_and!; [lia|lia|by left]|].
  destruct (IH c Hc) as (H1 & H2 & _); [|done|].
  - by apply (nested_child (Node h cs)).
  - destruct (child_within (Node h cs) c) as [H3 H4]; [apply Hn, subtrees_self|done|].
    split_and!; [lia|lia|right; lia].
Qed.

(** A nested interval has room for the subtree. *)
Lemma nested_size t : nested t -> tsize t <= len (f (troot t)).
Proof.
  induction t as [h cs IH] using tree_induction. intros Hn. rewrite tsize_eq. cbn [tsubs].
  destruct (Hn _ (subtrees_self _)) as [H1 H2 H3 (s & e & Hs & He & Ht)]. cbn [troot tsubs] in *.
  apply tiles_len in Ht. unfold len at 1. enough (sumZ tsize cs <= sumZ len (map (fun c => f (troot c)) cs)) by lia.
  assert (Hc : forall c, c ∈ cs -> tsize c <= len (f (troot c))).
  { intros c Hc. apply IH; [done|]. by apply (nested_child (Node h cs)). }
  clear - Hc. induction cs as [|c cs IH]; [done|]. cbn [map sumZ foldr]. fold (sumZ tsize cs).
  fold (sumZ len (map (fun c => f (troot c)) cs)). pose proof (Hc c ltac:(set_solver)).
  assert (sumZ tsize cs <= sumZ len (map (fun c => f (troot c)) cs)) by (apply IH; set_solver). lia.
Qed.

Lemma siblings_order t l1 c l2 c' : local_ok t -> tsubs t = l1 ++ c :: l2 -> c' ∈ l2 ->
  End (f (troot c)) < Start (f (troot c')).
Proof.
  intros [_ _ _ (s & e & Hs & He & Ht)] E Hc'. rewrite E, map_app in Ht. cbn [map] in Ht.
  apply tiles_app in Ht as (m & _ & <- & _ & Ht). apply (tiles_elem _ _ _ (f (troot c'))) in Ht; [lia|].
  apply list_elem_of_fmap. eauto.
Qed.

(** Containment of intervals is ancestry. *)
Lemma contains_ancestor t x y : NoDup (nodes t) -> nested t -> x ∈ subtrees t -> y ∈ subtrees t ->
  Start (f (troot x)) <= Start (f (troot y)) -> End (f (troot y)) <= End (f (troot x)) -> y ∈ subtrees x.
Proof.
  induction t as [h cs IH] using tree_induction. intros Hnd Hn Hx Hy Hs He.
  apply subtrees_inv in Hx as Hx'. destruct Hx' as [->|(a & Ha & Hxa)]; [done|].
  assert (Hax : End (f (troot x)) < End (f (troot (Node h cs)))).
  { destruct (nested_within _ x Hn Hx) as (_ & _ & [->|?]); [|done].
    by destruct (nodup_root _ a (Node h cs) Hnd Ha Hxa). }
  apply subtrees_inv in Hy as Hy'. destruct Hy' as [->|(b & Hb & Hyb)]; [lia|].
  pose proof (nested_child _ a Hn Ha) as Hna. pose proof (nested_child _ b Hn Hb) as Hnb.
  destruct (nested_within a x Hna Hxa) as (Ha1 & Ha2 & _).
  destruct (nested_within b y Hnb Hyb) as (Hb1 & Hb2 & _).
  destruct (Hn y Hy) as [_ Hne _ _]. cbn [tsubs] in Ha, Hb.
  apply list_elem_of_split in Ha as Hs'. destruct Hs' as (l1 & l2 & ->).
  rewrite elem_of_app, elem_of_cons in Hb. destruct Hb as [Hb|[->|Hb]].
  - apply list_elem_of_split in Hb as (k1 & k2 & ->).
    pose proof (siblings_order (Node h ((k1 ++ b :: k2) ++ a :: l2)) k1 b (k2 ++ a :: l2) a
      (Hn _ (subtrees_self _)) ltac:(by rewrite <- app_assoc) ltac:(set_solver)). lia.
  - apply (IH a Ha); try done. by apply (nodup_child _ a Hnd).
  - pose proof (siblings_order _ l1 a l2 b (Hn _ (subtrees_self _)) eq_refl Hb). lia.
Qed.

Lemma intervalContains_iff t x y : NoDup (nodes t) -> nested t -> x ∈ subtrees t -> y ∈ subtrees t ->
  intervalContains (f (troot x)) (f (troot y)) = true <-> y ∈ subtrees x.
Proof.
  intros Hnd Hn Hx Hy. unfold intervalContains. rewrite andb_true_iff, !Z.leb_le. split.
  - intros [H1 H2]. by apply (contains_ancestor t).
  - intros Hyx. destruct (nested_within x y) as (H1 & H2 & _); [by eapply nested_subtree|done|done].
Qed.

End nested.

(** Only the intervals of the nodes matter. *)
Lemma local_ok_ext f g t : (forall h, h = troot t \/ h ∈ map troot (tsubs t) -> f h = g h) ->
  local_ok f t -> local_ok g t.
Proof.
  intros E [H1 H2 H3 H4]. rewrite (E (troot t)) in * by (by left). constructor; [done..|].
  destruct H4 as (s & e & Hs & He & Ht). exists s, e. split; [done|]. split; [done|].
  erewrite map_ext_in; [exact Ht|]. intros c Hc%list_elem_of_In. cbn. symmetry. apply E. right.
  apply list_elem_of_fmap. eauto.
Qed.

Lemma nested_ext f g t : (forall h, h ∈ nodes t -> f h = g h) -> nested f t -> nested g t.
Proof.
  intros E Hn x Hx. apply (local_ok_ext f); [|by apply Hn]. intros h Hh. apply E, nodes_subtrees.
  destruct Hh as [->|Hh]; [eauto|]. apply list_elem_of_fmap in Hh as (c & -> & Hc). exists c.
  split; [|done]. by apply (subtrees_down t x).
Qed.

(** * Trees in the store *)

(** The interval of a hash. *)
Definition iv (d : gmap bytes reachabilityData) (h : bytes) : ReachabilityInterval :=
  default (newReachabilityInterval 0 0) (d !! h ≫= Interval).

Record shaped (d : gmap bytes reachabilityData) (t : tree) : Prop := {
  sh_nodup : NoDup (nodes t);
  sh_data : forall x, x ∈ subtrees t -> exists rd i,
    d !! troot x = Some rd /\ Children rd = map troot (tsubs x) /\ Interval rd = Some i;
  sh_parent : forall x c, x ∈ subtrees t -> c ∈ tsubs x ->
    exists rd, d !! troot c = Some rd /\ Parent rd = Some (troot x);
  sh_root : exists rd, d !! troot t = Some rd /\ Parent rd = None
}.

(** Data with its interval forgotten. *)
Definition erase (rd : reachabilityData) : reachabilityData :=
  mk_reachabilityData (Children rd) (Parent rd)
    (match Interval rd with Some _ => Some (newReachabilityInterval 0 0) | None => None end)
    (FutureCoveringSet rd).

Lemma erase_fields a b : erase a = erase b -> Children a = Children b /\ Parent a = Parent b /\
  FutureCoveringSet a = FutureCoveringSet b /\ (is_Some (Interval a) <-> is_Some (Interval b)).
Proof.
  unfold erase. intros [= -> -> Hi ->]. split_and!; try done.
  destruct (Interval a), (Interval b); try done; split; intros; eauto.
Qed.

(** Stores that differ in intervals only. *)
Definition same_shape (d d' : gmap bytes reachabilityData) : Prop := erase <$> d = erase <$> d'.

#[export] Instance same_shape_equiv : Equivalence same_shape.
Proof. unfold same_shape. split; [done|by intros ??|intros ??? -> ->; done]. Qed.

Lemma same_shape_lookup d d' h rd : same_shape d d' -> d !! h = Some rd ->
  exists rd', d' !! h = Some rd' /\ erase rd' = erase rd.
Proof.
  unfold same_shape. intros E Hh. apply (f_equal (.!! h)) in E. rewrite !lookup_fmap, Hh in E. cbn in E.
  destruct (d' !! h) as [rd'|]; [|done]. exists rd'. split; [done|]. cbn in E. congruence.
Qed.

Lemma shaped_same d d' t : same_shape d d' -> shaped d t -> shaped d' t.
Proof.
  intros E [H1 H2 H3 H4]. constructor; [done| | |].
  - intros x Hx. destruct (H2 x Hx) as (rd & i & Hd & Hc & Hi).
    destruct (same_shape_lookup _ _ _ _ E Hd) as (rd' & Hd' & (Er & _ & _ & Ei)%erase_fields).
    destruct (proj2 Ei) as [i' Hi']; [eauto|]. exists rd', i'. split; [done|]. split; [congruence|done].
  - intros x c Hx Hc. destruct (H3 x c Hx Hc) as (rd & Hd & Hp).
    destruct (same_shape_lookup _ _ _ _ E Hd) as (rd' & Hd' & (_ & Er & _)%erase_fields).
    exists rd'. split; [done|]. congruence.
  - destruct H4 as (rd & Hd & Hp). destruct (same_shape_lookup _ _ _ _ E Hd) as (rd' & Hd' & (_ & Er & _)%erase_fields).
    exists rd'. split; [done|]. congruence.
Qed.

(** Changing one interval. *)
Definition set_iv (h : bytes) (i : ReachabilityInterval) (d : gmap bytes reachabilityData)
    : gmap bytes reachabilityData := alter (SetInterval i) h d.

Definition with_data (st : reach_store) (d : gmap bytes reachabilityData) : reach_store :=
  mk_reach_store d (rs_reindexRoot st).

Definition has_interval (d : gmap bytes reachabilityData) (h : bytes) : Prop :=
  exists rd i, d !! h = Some rd /\ Interval rd = Some i.

Lemma shaped_has d t h : shaped d t -> h ∈ nodes t -> has_interval d h.
Proof.
  intros Hs (x & Hx & <-)%nodes_subtrees. destruct (sh_data _ _ Hs x Hx) as (rd & i & Hd & _ & Hi).
  by exists rd, i.
Qed.

Lemma has_interval_set d h h' i : has_interval d h -> has_interval (set_iv h' i d) h.
Proof.
  intros (rd & j & Hd & Hi). unfold set_iv, has_interval. rewrite lookup_alter.
  case_decide; subst; rewrite Hd; cbn; eauto.
Qed.

Lemma iv_set_eq d h i : has_interval d h -> iv (set_iv h i d) h = i.
Proof. intros (rd & j & Hd & _). unfold iv, set_iv. by rewrite lookup_alter_eq, Hd. Qed.

Lemma iv_set_ne d h h' i : h <> h' -> iv (set_iv h i d) h' = iv d h'.
Proof. intros Hne. unfold iv, set_iv. by rewrite lookup_alter_ne. Qed.

Lemma set_iv_same d h i : has_interval d h -> same_shape d (set_iv h i d).
Proof.
  intros (rd & j & Hd & Hi). unfold same_shape, set_iv. apply map_eq. intros h'. rewrite !lookup_fmap, lookup_alter.
  case_decide as E; [|done]. subst h'. rewrite Hd. cbn. f_equal. unfold erase. cbn. by rewrite Hi.
Qed.

Section reads.
Variable st : reach_store.

Lemma interval_ok h : has_interval (rs_data st) h -> interval st h = Ok (Some (iv (rs_data st) h)).
Proof. intros (rd & i & Hd & Hi). unfold interval, ReachabilityData, iv. rewrite Hd. cbn. by rewrite Hi. Qed.

Lemma stageInterval_ok h i : has_interval (rs_data st) h ->
  stageInterval h i st = (Ok tt, with_data st (set_iv h i (rs_data st))).
Proof.
  intros (rd & j & Hd & Hi). unfold stageInterval, bind, view, reachabilityDataForInsertion, ReachabilityData.
  rewrite Hd. unfold CloneMutable. rewrite Hi. cbn. unfold stageData, modify, with_data, set_iv. do 2 f_equal.
  apply map_eq. intros h'. rewrite lookup_alter, lookup_insert. case_decide as E; [|done]. subst. by rewrite Hd.
Qed.

Context (t : tree) (Hsh : shaped (rs_data st) t).

Lemma children_ok x : x ∈ subtrees t -> children st (troot x) = Ok (map troot (tsubs x)).
Proof.
  intros Hx. destruct (sh_data _ _ Hsh x Hx) as (rd & i & Hd & Hc & _).
  unfold children, ReachabilityData. by rewrite Hd, <- Hc.
Qed.

Lemma node_interval x : x ∈ subtrees t -> has_interval (rs_data st) (troot x).
Proof. intros Hx. apply (shaped_has _ t); [done|]. apply nodes_subtrees. eauto. Qed.

Lemma parent_ok x c : x ∈ subtrees t -> c ∈ tsubs x -> parent st (troot c) = Ok (Some (troot x)).
Proof.
  intros Hx Hc. destruct (sh_parent _ _ Hsh x c Hx Hc) as (rd & Hd & Hp).
  unfold parent, ReachabilityData. rewrite Hd. cbn. by rewrite Hp.
Qed.

Lemma parent_root_ok : parent st (troot t) = Ok None.
Proof.
  destruct (sh_root _ _ Hsh) as (rd & Hd & Hp). unfold parent, ReachabilityData. rewrite Hd. cbn. by rewrite Hp.
Qed.

(** [IsReachabilityTreeAncestorOf] compares intervals, and that is ancestry. *)
Lemma tree_ancestor_intervals x y : x ∈ subtrees t -> y ∈ subtrees t ->
  IsReachabilityTreeAncestorOf st (troot x) (troot y) =
  Ok (intervalContains (iv (rs_data st) (troot x)) (iv (rs_data st) (troot y))).
Proof.
  intros Hx Hy. unfold IsReachabilityTreeAncestorOf.
  by rewrite !interval_ok by (by apply node_interval).
Qed.

Lemma tree_ancestor_ok x y : nested (iv (rs_data st)) t -> x ∈ subtrees t -> y ∈ subtrees t ->
  exists b, IsReachabilityTreeAncestorOf st (troot x) (troot y) = Ok b /\ (b = true <-> y ∈ subtrees x).
Proof.
  intros Hn Hx Hy. eexists. split; [by apply tree_ancestor_intervals|].
  apply (intervalContains_iff _ t); try done. apply Hsh.
Qed.

End reads.

(** * The binary search *)

Lemma lookupZ_app {A} (l1 l2 : list A) i x : lookupZ (l1 ++ l2) i = Some x ->
  (i < zlen l1 /\ x ∈ l1) \/ (zlen l1 <= i /\ x ∈ l2).
Proof.
  unfold lookupZ, zlen. destruct (Z.leb_spec 0 i); [|done]. intros Hl.
  apply lookup_app_Some in Hl as [Hl|[Hge Hl]].
  - left. pose proof (lookup_lt_Some _ _ _ Hl). split; [lia|]. by eapply list_elem_of_lookup_2.
  - right. split; [lia|]. by eapply list_elem_of_lookup_2.
Qed.

Section search.
Variable st : reach_store.
Context (l1 l2 : list bytes) (end_ : Z).
Hypothesis Hdata : forall h, h ∈ l1 ++ l2 -> has_interval (rs_data st) h.
Hypothesis Hl1 : forall h, h ∈ l1 -> Start (iv (rs_data st) h) <= end_.
Hypothesis Hl2 : forall h, h ∈ l2 -> end_ < Start (iv (rs_data st) h).

Lemma find_index_loop_ok fuel : forall low high, 0 <= low <= zlen l1 -> zlen l1 <= high <= zlen (l1 ++ l2) ->
  high - low <= Z.of_nat fuel -> find_index_loop fuel st (l1 ++ l2) end_ low high = Ok (zlen l1).
Proof.
  induction fuel as [|fuel IH]; intros low high Hlow Hhigh Hf; cbn [find_index_loop].
  - destruct (Z.ltb_spec low high); [lia|]. f_equal. lia.
  - destruct (Z.ltb_spec low high) as [Hlt|]; [|f_equal; lia].
    set (middle := (low + high) / 2).
    assert (Hm : low <= middle < high) by (unfold middle; split; [apply Z.div_le_lower_bound|apply Z.div_lt_upper_bound]; lia).
    destruct (lookupZ_in_range (l1 ++ l2) middle) as [h Hh]; [lia|]. unfold index_res. rewrite Hh. cbn [bind_res].
    rewrite interval_ok by (by apply Hdata; eapply lookupZ_elem_of). cbn [bind_res deref].
    destruct (lookupZ_app _ _ _ _ Hh) as [[Hi Hin]|[Hi Hin]].
    + pose proof (Hl1 h Hin). destruct (Z.ltb_spec end_ (Start (iv (rs_data st) h))); [lia|]. apply IH; lia.
    + pose proof (Hl2 h Hin). destruct (Z.ltb_spec end_ (Start (iv (rs_data st) h))); [|lia]. apply IH; lia.
Qed.

Lemma findAncestorIndexOfNode_ok x : has_interval (rs_data st) x -> End (iv (rs_data st) x) = end_ ->
  findAncestorIndexOfNode st (l1 ++ l2) x = Ok (if zlen l1 =? 0 then None else Some (zlen l1 - 1)).
Proof.
  intros Hx He. unfold findAncestorIndexOfNode. rewrite interval_ok by done. cbn [bind_res deref]. rewrite He.
  rewrite find_index_loop_ok; [done|zlia|zlia|]. unfold zlen. lia.
Qed.

End search.

(** The child on the way to a descendant, from the intervals of the children
    alone. *)
Lemma FindNextAncestor_ok st a descendant l1 c l2 s e :
  a <> descendant -> children st a = Ok (l1 ++ c :: l2) ->
  (forall h, h ∈ descendant :: l1 ++ c :: l2 -> has_interval (rs_data st) h) ->
  tiles s (map (iv (rs_data st)) (l1 ++ c :: l2)) e ->
  Start (iv (rs_data st) c) <= End (iv (rs_data st) descendant) <= End (iv (rs_data st) c) ->
  FindNextAncestor st descendant a = Ok c.
Proof.
  intros Hne Hc Hd Ht Hin. unfold FindNextAncestor, bytes_eqb. rewrite bool_decide_false, Hc by done. cbn [bind_res].
  rewrite map_app in Ht. cbn [map] in Ht. apply tiles_app in Ht as (m & H1 & <- & H2 & H3).
  assert (Hs : l1 ++ c :: l2 = (l1 ++ [c]) ++ l2) by (by rewrite <- app_assoc).
  unfold findAncestorOfNode. rewrite Hs, (findAncestorIndexOfNode_ok st (l1 ++ [c]) l2 (End (iv (rs_data st) descendant))).
  - destruct (Z.eqb_spec (zlen (l1 ++ [c])) 0) as [E|E]; [zlia|]. unfold index_res.
    rewrite <- Hs. rewrite lookupZ_app_r by zlia. done.
  - intros h Hh. apply Hd. rewrite Hs. by right.
  - intros h [Hh|Hh]%elem_of_app; [|apply list_elem_of_singleton in Hh as ->; lia].
    apply (tiles_elem _ _ _ (iv (rs_data st) h)) in H1; [lia|]. apply list_elem_of_fmap. eauto.
  - intros h Hh. apply (tiles_elem _ _ _ (iv (rs_data st) h)) in H3; [lia|]. apply list_elem_of_fmap. eauto.
  - apply Hd. left.
  - done.
Qed.

Lemma FindNextAncestor_tree st t x l1 c l2 y : shaped (rs_data st) t -> x ∈ subtrees t ->
  nested (iv (rs_data st)) x -> tsubs x = l1 ++ c :: l2 -> y ∈ subtrees c ->
  FindNextAncestor st (troot y) (troot x) = Ok (troot c).
Proof.
  intros Hsh Hx Hn Hc Hy. assert (Hcx : c ∈ tsubs x) by (rewrite Hc; set_solver).
  destruct (Hn x (subtrees_self x)) as [_ _ _ (s & e & _ & _ & Ht)]. rewrite Hc, <- map_map in Ht.
  destruct (nested_within (iv (rs_data st)) c y) as (H1 & H2 & _); [by apply (nested_child _ x)|done|].
  assert (Hyx : y ∈ subtrees x) by (apply (subtrees_trans x c); [done|by apply subtrees_child]).
  destruct (Hn y Hyx) as [_ Hne _ _].
  eapply (FindNextAncestor_ok st _ _ (map troot l1) (troot c) (map troot l2) s e).
  - intros E. symmetry in E. by apply (nodup_root x c y (nodup_subtree t x (sh_nodup _ _ Hsh) Hx)) in E.
  - rewrite (children_ok st t Hsh x Hx), Hc, map_app. done.
  - intros h Hh. apply (shaped_has (rs_data st) t h Hsh). rewrite elem_of_cons in Hh. apply nodes_subtrees.
    destruct Hh as [->|Hh]; [exists y; split; [by apply (subtrees_trans t x)|done]|].
    change (map troot l1 ++ troot c :: map troot l2) with (map troot l1 ++ map troot (c :: l2)) in Hh.
    rewrite <- map_app in Hh. apply list_elem_of_fmap in Hh as (z & -> & Hz). exists z. split; [|done].
    apply (subtrees_down t x); [done|]. by rewrite Hc.
  - rewrite map_app in Ht. exact Ht.
  - lia.
Qed.
