(* ===== verification/ReindexCount.v ===== *)
(** [countSubtrees]: the breadth-first search that pushes sizes from the leaves
    towards the root computes the size of every subtree, within as many
    iterations as there are nodes. *)

From S2P Require Import Prelude Transaction Block Difficulty TxMass Ghostdag ReachInterval Reachability Reindex ReachTree.

(** The sizes in the cache are right, and a cached node has its whole subtree
    cached. *)
Definition cache_ok (t : tree) (c : gmap bytes Z) : Prop :=
  forall x, x ∈ subtrees t -> is_Some (c !! troot x) -> forall y, y ∈ subtrees x -> c !! troot y = Some (tsize y).

Definition counted (c : gmap bytes Z) (x : tree) : Prop := is_Some (c !! troot x).

(** The number of children in a set. *)
Definition children_in (fin : gset bytes) (x : tree) : Z :=
  zlen (filter (fun c => troot c ∈ fin) (tsubs x)).

Lemma children_in_le fin x : children_in fin x <= zlen (tsubs x).
Proof. unfold children_in, zlen. apply inj_le, length_filter. Qed.

Lemma children_in_all fin x : children_in fin x = zlen (tsubs x) -> forall c, c ∈ tsubs x -> troot c ∈ fin.
Proof.
  unfold children_in, zlen. intros E c Hc. apply Nat2Z.inj in E.
  assert (Hf : filter (fun c => troot c ∈ fin) (tsubs x) = tsubs x).
  { clear Hc. induction (tsubs x) as [|a l IH]; [done|]. rewrite filter_cons in E |- *. case_decide.
    - cbn [length] in E. f_equal. apply IH. lia.
    - pose proof (length_filter (fun c => troot c ∈ fin) l). cbn [length] in E. lia. }
  rewrite <- Hf in Hc. by apply list_elem_of_filter in Hc as [? _].
Qed.

Lemma children_in_eq fin fin' x : (forall c, c ∈ tsubs x -> troot c ∈ fin <-> troot c ∈ fin') ->
  children_in fin x = children_in fin' x.
Proof.
  intros E. unfold children_in. f_equal. induction (tsubs x) as [|a l IH]; [done|].
  rewrite !filter_cons. pose proof (E a ltac:(set_solver)).
  rewrite IH by set_solver. do 2 case_decide; tauto.
Qed.

Lemma children_in_none fin x : (forall c, c ∈ tsubs x -> troot c ∉ fin) -> children_in fin x = 0.
Proof.
  unfold children_in. intros Hn. induction (tsubs x) as [|a l IH]; [done|].
  rewrite filter_cons, decide_False by set_solver. apply IH. set_solver.
Qed.

(** One more child. *)
Lemma children_in_add fin x z : NoDup (nodes x) -> z ∈ tsubs x -> troot z ∉ fin ->
  children_in ({[troot z]} ∪ fin) x = children_in fin x + 1.
Proof.
  intros Hnd Hz Hf. apply list_elem_of_split in Hz as (l1 & l2 & E). unfold children_in.
  assert (Ho : forall c, c ∈ l1 ++ l2 -> troot c ∈ ({[troot z]} ∪ fin : gset bytes) <-> troot c ∈ fin).
  { intros c Hc. rewrite elem_of_union, elem_of_singleton. split; [|by right]. intros [Eq|?]; [|done].
    symmetry in Eq. by destruct (nodup_siblings x l1 z l2 c z c Hnd E Hc (subtrees_self z) (subtrees_self c)). }
  rewrite E, !filter_app, !zlen_app, !filter_cons. rewrite decide_True by set_solver. rewrite decide_False by done.
  rewrite zlen_cons. assert (Hl : forall l : list tree, (forall c, c ∈ l -> c ∈ l1 ++ l2) ->
    filter (fun c => troot c ∈ ({[troot z]} ∪ fin : gset bytes)) l = filter (fun c => troot c ∈ fin) l).
  { intros l Hl. induction l as [|a l IH]; [done|]. rewrite !filter_cons. pose proof (Ho a ltac:(set_solver)).
    rewrite IH by set_solver. do 2 case_decide; tauto. }
  rewrite !Hl by set_solver. lia.
Qed.

Lemma cache_values_ok st c l : (forall z, z ∈ l -> c !! troot z = Some (tsize z)) ->
  cache_values (map troot l) (mk_reindexContext st c) = (Ok (map tsize l), mk_reindexContext st c).
Proof.
  induction l as [|z l IH]; intros Hl; [done|]. cbn [map cache_values]. unfold bind at 1, cache_value.
  cbn [subTreeSizesCache]. rewrite (Hl z) by set_solver. cbn [default].
  unfold bind. rewrite IH by set_solver. done.
Qed.

Lemma mview_ok {A} st (f : reach_store -> res ReachError A) c a : f st = Ok a ->
  mview f (mk_reindexContext st c) = (Ok a, mk_reindexContext st c).
Proof. intros E. unfold mview, manager, zoom, view. cbn. by rewrite E. Qed.

Lemma sum_sizes l : 1 + sumZ tsize l < 2 ^ 64 -> uint64 (sum_uint64 id 0 (map tsize l) + 1) = 1 + sumZ tsize l.
Proof.
  intros Hl. assert (E : sumZ id (map tsize l) = sumZ tsize l).
  { induction l as [|a l IH]; [done|]. cbn [map sumZ foldr] in *. unfold id at 1. f_equal.
    pose proof (tsize_pos a). fold (sumZ tsize l) in *. apply IH. lia. }
  pose proof (sumZ_tsize_nonneg l). rewrite sum_uint64_exact, E.
  - rewrite uint64_id by lia. lia.
  - lia.
  - apply Forall_forall. intros n (z & -> & _)%list_elem_of_fmap. pose proof (tsize_pos z). unfold id. lia.
  - lia.
Qed.

Section count.
Variable t : tree.
Variable st : reach_store.
Context (Hsh : shaped (rs_data st) t) (Hsmall : tsize t < 2 ^ 64).
Variable x0 : tree.
Hypothesis Hx0 : x0 ∈ subtrees t.

Lemma nd_sub x : x ∈ subtrees t -> NoDup (nodes x).
Proof. apply nodup_subtree. apply Hsh. Qed.

Lemma below_t x : x ∈ subtrees x0 -> x ∈ subtrees t.
Proof. intros Hx. by eapply subtrees_trans. Qed.

(** The invariant of the search: [seen] are the nodes taken from the queue,
    [fin] those that were counted for their parent, and [pending] is one that is
    counted but not yet for its parent. *)
Record count_inv (seen fin : gset bytes) (pending : option bytes) (queue : list bytes)
    (count : gmap bytes Z) (c : gmap bytes Z) : Prop := {
  ci_cache : cache_ok t c;
  ci_nodes : forall h, h ∈ seen \/ h ∈ queue -> h ∈ nodes x0;
  ci_queue : NoDup queue /\ forall h, h ∈ queue -> h ∉ seen;
  ci_expanded : forall y, y ∈ subtrees x0 -> troot y ∈ seen -> ~ counted c y ->
    forall z, z ∈ tsubs y -> troot z ∈ seen \/ troot z ∈ queue;
  ci_count : forall y, y ∈ subtrees x0 -> ~ counted c y ->
    default 0 (count !! troot y) = children_in fin y /\
    (troot y ∈ seen -> children_in fin y < zlen (tsubs y));
  ci_parent : forall y z, y ∈ subtrees x0 -> z ∈ tsubs y -> troot z ∈ seen \/ troot z ∈ queue ->
    troot y ∈ seen /\ (counted c y -> forall z', z' ∈ tsubs y -> troot z' ∈ fin);
  ci_fin : forall h, h ∈ fin -> h ∈ seen /\ is_Some (c !! h);
  ci_pushed : forall y, y ∈ subtrees x0 -> troot y ∈ seen -> counted c y ->
    Some (troot y) = pending \/ y = x0 \/ troot y ∈ fin;
  ci_start : troot x0 ∈ seen \/ troot x0 ∈ queue
}.

(** When the queue is empty everything seen is counted. *)
Lemma count_done seen fin count c : count_inv seen fin None [] count c -> counted c x0.
Proof.
  intros Hi. assert (Hall : forall y, y ∈ subtrees x0 -> troot y ∈ seen -> counted c y).
  { intros y. induction y as [h cs IH] using tree_induction. intros Hy Hseen.
    destruct (c !! h) as [n|] eqn:E; [by exists n|]. exfalso.
    assert (Hun : ~ counted c (Node h cs)) by (unfold counted; cbn; rewrite E; by intros [? ?]).
    destruct (ci_count _ _ _ _ _ _ Hi _ Hy Hun) as [_ Hlt]. specialize (Hlt Hseen).
    assert (Hfull : forall z, z ∈ cs -> troot z ∈ fin).
    { intros z Hz. assert (Hzx : z ∈ subtrees x0) by (by apply (subtrees_down x0 (Node h cs))).
      destruct (ci_expanded _ _ _ _ _ _ Hi _ Hy Hseen Hun z Hz) as [Hz'|Hz']; [|by apply not_elem_of_nil in Hz'].
      destruct (ci_pushed _ _ _ _ _ _ Hi z Hzx Hz' (IH z Hz Hzx Hz')) as [?|[->|?]]; [done| |done].
      pose proof (tsize_child (Node h cs) x0 Hz). pose proof (tsize_subtree x0 _ Hy). lia. }
    assert (E2 : children_in fin (Node h cs) = zlen cs); [|cbn [tsubs] in Hlt; lia].
    unfold children_in. cbn [tsubs]. f_equal. clear - Hfull. induction cs as [|a l IH]; [done|].
    rewrite filter_cons, decide_True by set_solver. f_equal. apply IH. set_solver. }
  apply Hall; [apply subtrees_self|]. destruct (ci_start _ _ _ _ _ _ Hi) as [?|Hq]; [done|].
  by apply not_elem_of_nil in Hq.
Qed.

Lemma counted_dec c y : counted c y \/ ~ counted c y.
Proof. unfold counted. destruct (c !! troot y); [left; eauto|right; by intros [? ?]]. Qed.

(** Adding to the cache the size of a node whose children are cached. *)
Lemma cache_ok_insert c y : y ∈ subtrees t -> cache_ok t c -> (forall z, z ∈ tsubs y -> counted c z) ->
  cache_ok t (<[troot y := tsize y]> c).
Proof.
  intros Hy Hc Hz x Hx Hcx w Hw.
  assert (Hyall : forall w, w ∈ subtrees y -> <[troot y := tsize y]> c !! troot w = Some (tsize w)).
  { intros v [->|(z & Hzy & Hv)]%subtrees_inv; [by rewrite lookup_insert_eq|].
    rewrite lookup_insert_ne by (intros E; symmetry in E; by apply (nodup_root y z v (nd_sub y Hy) Hzy Hv)).
    apply (Hc z); [by apply (subtrees_down t y)|by apply Hz|done]. }
  destruct (decide (troot x = troot y)) as [E|E].
  - apply subtree_unique with (t := t) in E as ->; [by apply Hyall|apply Hsh|done|done].
  - rewrite lookup_insert_ne in Hcx by done. pose proof (Hc x Hx Hcx w Hw) as Hcw.
    destruct (decide (troot y = troot w)) as [E'|E']; [|by rewrite lookup_insert_ne].
    apply subtree_unique with (t := t) in E' as <-; [by rewrite lookup_insert_eq|apply Hsh|done|].
    by eapply subtrees_trans.
Qed.

Lemma other_parent fin y y' z : y ∈ subtrees x0 -> y' ∈ subtrees x0 -> z ∈ tsubs y -> y' <> y ->
  children_in ({[troot z]} ∪ fin) y' = children_in fin y'.
Proof.
  intros Hy Hy' Hz Hne. apply children_in_eq. intros c Hc. rewrite elem_of_union, elem_of_singleton.
  split; [|by right]. intros [E|?]; [|done]. destruct Hne.
  apply below_t in Hy, Hy'. apply (parent_unique t y' y z); [apply Hsh|done|done| |done].
  apply (subtree_unique t) in E as <-; [done|apply Hsh|by apply (subtrees_down t y')|by apply (subtrees_down t y)].
Qed.

Lemma zlen_subs_small y : y ∈ subtrees x0 -> zlen (tsubs y) < 2 ^ 64.
Proof.
  intros Hy. pose proof (tsize_subtree t y (below_t y Hy)). rewrite tsize_eq in H.
  assert (zlen (tsubs y) <= sumZ tsize (tsubs y)); [|lia].
  rewrite <- (Z.mul_1_l (zlen (tsubs y))). apply sumZ_lower, Forall_forall. intros c _. apply tsize_pos.
Qed.

(** Counting [z] for its parent [y], when other children of [y] are missing. *)
Lemma count_one seen fin queue count c y z :
  count_inv seen fin (Some (troot z)) queue count c -> y ∈ subtrees x0 -> z ∈ tsubs y ->
  troot z ∈ seen -> counted c z -> troot z ∉ fin -> ~ counted c y ->
  children_in ({[troot z]} ∪ fin) y <> zlen (tsubs y) ->
  count_inv seen ({[troot z]} ∪ fin) None queue
    (<[troot y := children_in ({[troot z]} ∪ fin) y]> count) c.
Proof.
  intros Hi Hy Hz Hseen Hcz Hf Hun Hne. destruct Hi as [H1 H2 H3 H4 H5 H6 H7 H8 H9]. constructor; try done.
  - intros y' Hy' Hun'. destruct (decide (troot y' = troot y)) as [E|E].
    + apply (subtree_unique x0) in E as ->; [|by apply nd_sub|done|done]. rewrite lookup_insert_eq. split; [done|].
      intros _. pose proof (children_in_le ({[troot z]} ∪ fin) y). lia.
    + rewrite lookup_insert_ne by done. rewrite (other_parent fin y y' z) by (try done; by intros ->). by apply H5.
  - intros y' z' Hy' Hz' Hs. destruct (H6 y' z' Hy' Hz' Hs) as [Ha Hb]. split; [done|].
    intros Hc z'' Hz''. apply elem_of_union. right. by apply Hb.
  - intros h [->%elem_of_singleton|Hh]%elem_of_union; [done|by apply H7].
  - intros y' Hy' Hs Hc. destruct (H8 y' Hy' Hs Hc) as [[= ->]|[?|?]]; [set_solver|by right; left|set_solver].
Qed.

(** Counting the last child of [y] counts [y]. *)
Lemma count_last seen fin queue count c n y z :
  count_inv seen fin (Some (troot z)) queue count c -> y ∈ subtrees x0 -> z ∈ tsubs y ->
  troot z ∈ seen -> counted c z -> ~ counted c y -> troot y ∈ seen ->
  (forall z', z' ∈ tsubs y -> troot z' ∈ ({[troot z]} ∪ fin : gset bytes)) ->
  count_inv seen ({[troot z]} ∪ fin) (Some (troot y)) queue
    (<[troot y := n]> count) (<[troot y := tsize y]> c).
Proof.
  intros Hi Hy Hz Hseen Hcz Hun Hys Hall. destruct Hi as [H1 H2 H3 H4 H5 H6 H7 H8 H9].
  assert (Hold : forall y', y' ∈ subtrees x0 -> counted (<[troot y := tsize y]> c) y' -> y' = y \/ counted c y').
  { intros y' Hy' Hc. destruct (decide (troot y' = troot y)) as [E|E].
    - left. by apply (subtree_unique x0) in E; [|apply nd_sub|..].
    - right. unfold counted in *. by rewrite lookup_insert_ne in Hc. }
  assert (Hnew : forall h, is_Some (c !! h) -> is_Some (<[troot y := tsize y]> c !! h)).
  { intros h Hh. rewrite lookup_insert. case_decide; [by eexists|done]. }
  constructor; try done.
  - apply cache_ok_insert; [by apply below_t|done|]. intros z' Hz'. specialize (Hall z' Hz').
    apply elem_of_union in Hall as [E%elem_of_singleton|Hf]; [|by apply H7]. unfold counted. by rewrite E.
  - intros y' Hy' Hs Hun'. apply H4; [done|done|]. intros Hc. apply Hun'. by apply Hnew.
  - intros y' Hy' Hun'. assert (Hne : y' <> y) by (intros ->; apply Hun'; unfold counted; rewrite lookup_insert_eq; eauto).
    assert (Hunc : ~ counted c y') by (intros Hc; apply Hun'; by apply Hnew).
    rewrite lookup_insert_ne.
    + rewrite (other_parent fin y y' z) by done. by apply H5.
    + intros E. apply Hne. apply (subtree_unique x0); [by apply nd_sub|done|done|done].
  - intros y' z' Hy' Hz' Hs. destruct (H6 y' z' Hy' Hz' Hs) as [Ha Hb]. split; [done|].
    intros Hc z'' Hz''. destruct (Hold y' Hy' Hc) as [->|Hc']; [by apply Hall|].
    apply elem_of_union. right. by apply Hb.
  - intros h [->%elem_of_singleton|Hh]%elem_of_union; [split; [done|by apply Hnew]|].
    destruct (H7 h Hh). split; [done|by apply Hnew].
  - intros y' Hy' Hs Hc. destruct (Hold y' Hy' Hc) as [->|Hc']; [by left|].
    destruct (H8 y' Hy' Hs Hc') as [[= ->]|[?|?]]; [set_solver|by right; left|set_solver].
Qed.

Lemma push_up_ok walk : forall z seen fin queue count c,
  count_inv seen fin (Some (troot z)) queue count c -> z ∈ subtrees x0 ->
  troot z ∈ seen -> counted c z -> troot z ∉ fin -> tsize x0 - tsize z <= Z.of_nat walk ->
  exists fin' count' c', push_up walk (troot x0) (troot z) count (mk_reindexContext st c) =
      (Ok count', mk_reindexContext st c') /\ count_inv seen fin' None queue count' c'.
Proof.
  induction walk as [|walk IH]; intros z seen fin queue count c Hi Hz Hseen Hcz Hf Hw.
  all: cbn [push_up]; unfold bytes_eqb; destruct (decide (troot z = troot x0)) as [E|E];
    [rewrite bool_decide_true by done; exists fin, count, c; split; [done|];
     apply (subtree_unique x0) in E as ->; [|by apply nd_sub|done|apply subtrees_self];
     destruct Hi as [H1 H2 H3 H4 H5 H6 H7 H8 H9]; constructor; try done;
     intros y Hy Hs Hc; destruct (H8 y Hy Hs Hc) as [[= E]|?]; [|by right];
     right; left; apply (subtree_unique x0); [by apply nd_sub|done|apply subtrees_self|done]|].
  all: destruct (subtrees_parent x0 z Hz) as (y & Hy & Hzy); [by intros ->|].
  all: pose proof (tsize_child y z Hzy); pose proof (tsize_subtree x0 y Hy).
  { lia. }
  rewrite bool_decide_false by done.
  destruct (ci_parent _ _ _ _ _ _ Hi y z Hy Hzy (or_introl Hseen)) as [Hys Hyc].
  assert (Hun : ~ counted c y) by (intros Hc; apply Hf; by apply Hyc).
  destruct (ci_count _ _ _ _ _ _ Hi y Hy Hun) as [Hcount _].
  erewrite bind_ok by (apply mview_ok, (parent_ok st t Hsh y z); [by apply below_t|done]).
  cbv beta iota zeta.
  erewrite bind_ok by (apply mview_ok, (children_ok st t Hsh y); by apply below_t).
  pose proof (children_in_le fin y). pose proof (zlen_subs_small y Hy).
  pose proof (children_in_add fin y z (nd_sub y (below_t y Hy)) Hzy Hf) as Hadd.
  pose proof (children_in_le ({[troot z]} ∪ fin) y).
  assert (0 <= children_in fin y) by (unfold children_in; zlia).
  rewrite Hcount, <- Hadd. unfold zlen at 1. rewrite length_map. fold (zlen (tsubs y)).
  rewrite !uint64_id by lia.
  destruct (Z.eqb_spec (children_in ({[troot z]} ∪ fin) y) (zlen (tsubs y))) as [Eq|Ne]; cbn [negb].
  - pose proof (children_in_all _ _ Eq) as Hall.
    assert (Hcc : forall z', z' ∈ tsubs y -> c !! troot z' = Some (tsize z')).
    { intros z' Hz'. apply (ci_cache _ _ _ _ _ _ Hi z'); [by apply (subtrees_down t y), Hz'; apply below_t| |apply subtrees_self].
      specialize (Hall z' Hz'). apply elem_of_union in Hall as [->%elem_of_singleton|Hh]; [done|].
      by apply (ci_fin _ _ _ _ _ _ Hi). }
    erewrite bind_ok by (by apply cache_values_ok).
    rewrite sum_sizes by (rewrite <- tsize_eq; pose proof (tsize_subtree t y (below_t y Hy)); lia).
    rewrite <- tsize_eq. erewrite bind_ok by reflexivity. cbn [rc_manager subTreeSizesCache].
    apply (IH y seen ({[troot z]} ∪ fin)); try done.
    + by apply count_last.
    + unfold counted. rewrite lookup_insert_eq. eauto.
    + intros [E'%elem_of_singleton|Hh]%elem_of_union.
      * apply Hun. unfold counted. by rewrite E'.
      * apply Hun. by apply (ci_fin _ _ _ _ _ _ Hi).
    + lia.
  - exists ({[troot z]} ∪ fin), (<[troot y := children_in ({[troot z]} ∪ fin) y]> count), c. split; [done|].
    by apply count_one.
Qed.

(** Taking an uncounted inner node from the queue. *)
Lemma count_expand seen fin queue count c y :
  count_inv seen fin None (troot y :: queue) count c -> y ∈ subtrees x0 -> tsubs y <> [] -> ~ counted c y ->
  count_inv ({[troot y]} ∪ seen) fin None (queue ++ map troot (tsubs y)) count c.
Proof.
  intros Hi Hy Hne Hun. destruct Hi as [H1 H2 [H3 H3'] H4 H5 H6 H7 H8 H9].
  assert (Hys : troot y ∉ seen) by (apply H3'; left).
  assert (Hfresh : forall z, z ∈ tsubs y -> troot z ∉ seen /\ troot z ∉ troot y :: queue).
  { intros z Hz. split; intros Hin; destruct (H6 y z Hy Hz) as [? _]; auto. }
  apply NoDup_cons in H3 as [Hyq H3].
  constructor; try done.
  - intros h [[->%elem_of_singleton|Hh]%elem_of_union|[Hh|Hh]%elem_of_app].
    + apply nodes_subtrees. eauto.
    + apply H2. by left.
    + apply H2. right. by right.
    + apply list_elem_of_fmap in Hh as (z & -> & Hz). apply nodes_subtrees. exists z. split; [|done].
      by apply (subtrees_down x0 y).
  - split.
    + apply NoDup_app. split; [done|]. split.
      * intros h Hh (z & -> & Hz)%list_elem_of_fmap. destruct (Hfresh z Hz) as [_ Hq]. apply Hq. by right.
      * by apply nodup_children, nd_sub, below_t.
    + intros h [Hh|Hh]%elem_of_app Hs.
      * apply elem_of_union in Hs as [->%elem_of_singleton|Hs]; [done|]. apply (H3' h); [by right|done].
      * apply list_elem_of_fmap in Hh as (z & -> & Hz). destruct (Hfresh z Hz) as [Ha Hb].
        apply elem_of_union in Hs as [E%elem_of_singleton|Hs]; [|done]. apply Hb. rewrite E. left.
  - intros y' Hy' Hs Hun' z Hz. apply elem_of_union in Hs as [E%elem_of_singleton|Hs].
    + apply (subtree_unique x0) in E as ->; [|by apply nd_sub|done|done].
      right. apply elem_of_app. right. apply list_elem_of_fmap. eauto.
    + destruct (H4 y' Hy' Hs Hun' z Hz) as [?|Hq]; [set_solver|]. rewrite elem_of_cons in Hq. set_solver.
  - intros y' Hy' Hun'. destruct (H5 y' Hy' Hun') as [Ha Hb]. split; [done|].
    intros [E%elem_of_singleton|Hs]%elem_of_union; [|by apply Hb].
    apply (subtree_unique x0) in E as ->; [|by apply nd_sub|done|done].
    rewrite children_in_none; [destruct (tsubs y); [done|zlia]|].
    intros z Hz Hf. destruct (Hfresh z Hz) as [Hz1 _]. by destruct (H7 _ Hf).
  - intros y' z Hy' Hz Hs.
    assert (Hcase : (troot z ∈ seen \/ troot z ∈ troot y :: queue) \/ troot z ∈ map troot (tsubs y)).
    { rewrite elem_of_union, elem_of_singleton, elem_of_app in Hs. rewrite elem_of_cons. naive_solver. }
    destruct Hcase as [Hs'|(w & E & Hw)%list_elem_of_fmap].
    + destruct (H6 y' z Hy' Hz Hs') as [Ha Hb]. split; [set_solver|done].
    + assert (y' = y) as ->; [|split; [set_solver|done]].
      apply below_t in Hy, Hy'. apply (parent_unique t y' y z); [apply Hsh|done|done|done|].
      apply (subtree_unique t) in E as ->; [done|apply Hsh|by apply (subtrees_down t y')|by apply (subtrees_down t y)].
  - intros h Hh. destruct (H7 h Hh). split; [set_solver|done].
  - intros y' Hy' [E%elem_of_singleton|Hs]%elem_of_union Hc; [|by apply H8].
    apply (subtree_unique x0) in E as ->; [done|by apply nd_sub|done|done].
  - destruct H9 as [?|Hq]; [set_solver|]. rewrite elem_of_cons in Hq. set_solver.
Qed.

(** Taking a leaf or an already counted node from the queue. *)
Lemma count_ready seen fin queue count c c' y :
  count_inv seen fin None (troot y :: queue) count c -> y ∈ subtrees x0 ->
  cache_ok t c' -> counted c' y -> (forall h, h <> troot y -> c' !! h = c !! h) ->
  count_inv ({[troot y]} ∪ seen) fin (Some (troot y)) queue count c'.
Proof.
  intros Hi Hy Hok Hcy Hext. destruct Hi as [H1 H2 [H3 H3'] H4 H5 H6 H7 H8 H9].
  assert (Hys : troot y ∉ seen) by (apply H3'; left).
  assert (Hold : forall y', y' ∈ subtrees x0 -> y' = y \/ (counted c' y' <-> counted c y')).
  { intros y' Hy'. destruct (decide (troot y' = troot y)) as [E|E].
    - left. by apply (subtree_unique x0) in E; [|apply nd_sub|..].
    - right. unfold counted. by rewrite Hext. }
  apply NoDup_cons in H3 as [Hyq H3]. constructor; try done.
  - intros h [[->%elem_of_singleton|Hh]%elem_of_union|Hh]; apply H2; [right; left|by left|right; by right].
  - split; [done|]. intros h Hh [->%elem_of_singleton|Hs]%elem_of_union; [done|].
    apply (H3' h); [by right|done].
  - intros y' Hy' Hs Hun z Hz. destruct (Hold y' Hy') as [->|Hc]; [done|].
    apply elem_of_union in Hs as [E%elem_of_singleton|Hs].
    { apply (subtree_unique x0) in E as ->; [done|by apply nd_sub|done|done]. }
    rewrite Hc in Hun. destruct (H4 y' Hy' Hs Hun z Hz) as [?|Hq]; [set_solver|]. rewrite elem_of_cons in Hq. set_solver.
  - intros y' Hy' Hun. destruct (Hold y' Hy') as [->|Hc]; [done|]. rewrite Hc in Hun.
    destruct (H5 y' Hy' Hun) as [Ha Hb]. split; [done|]. intros [E%elem_of_singleton|Hs]%elem_of_union; [|by apply Hb].
    apply (subtree_unique x0) in E as ->; [|by apply nd_sub|done|done]. by rewrite Hc in Hcy.
  - intros y' z Hy' Hz Hs.
    assert (Hs' : troot z ∈ seen \/ troot z ∈ troot y :: queue) by (rewrite elem_of_cons; set_solver).
    destruct (H6 y' z Hy' Hz Hs') as [Ha Hb]. split; [set_solver|]. intros Hc.
    destruct (Hold y' Hy') as [->|Hc']; [done|]. apply Hb. by rewrite <- Hc'.
  - intros h Hh. destruct (H7 h Hh) as [Ha Hb]. split; [set_solver|]. rewrite Hext; [done|]. by intros ->.
  - intros y' Hy' Hs Hc. destruct (Hold y' Hy') as [->|Hc']; [by left|]. rewrite Hc' in Hc.
    apply elem_of_union in Hs as [E%elem_of_singleton|Hs]; [rewrite E; by left|].
    destruct (H8 y' Hy' Hs Hc) as [?|?]; [done|by right].
  - destruct H9 as [?|Hq]; [set_solver|]. rewrite elem_of_cons in Hq. set_solver.
Qed.

Lemma seen_size (seen : gset bytes) : (forall h, h ∈ seen -> h ∈ nodes x0) -> Z.of_nat (size seen) <= tsize x0.
Proof.
  intros Hs. rewrite <- zlen_nodes. unfold zlen. apply inj_le.
  rewrite <- (size_list_to_set (C := gset bytes) (nodes x0)) by (by apply nd_sub).
  apply subseteq_size. intros h Hh. apply elem_of_list_to_set. by apply Hs.
Qed.

Lemma count_loop_ok walk fuel : tsize x0 <= Z.of_nat walk -> forall seen fin queue count c,
  count_inv seen fin None queue count c -> tsize x0 - Z.of_nat (size seen) <= Z.of_nat fuel ->
  exists c', count_loop walk fuel (troot x0) queue count (mk_reindexContext st c) =
      (Ok tt, mk_reindexContext st c') /\ cache_ok t c' /\ counted c' x0.
Proof.
  intros Hw. induction fuel as [|fuel IH]; intros seen fin queue count c Hi Hf.
  all: destruct queue as [|h queue];
    [exists c; split; [done|]; split; [apply Hi|by eapply count_done]|].
  all: destruct (proj1 (nodes_subtrees x0 h)) as (y & Hy & <-); [apply (ci_nodes _ _ _ _ _ _ Hi); right; left|].
  all: assert (Hys : troot y ∉ seen) by (apply (ci_queue _ _ _ _ _ _ Hi); left).
  all: assert (Hsz : Z.of_nat (size ({[troot y]} ∪ seen)) = 1 + Z.of_nat (size seen))
    by (rewrite size_union by set_solver; rewrite size_singleton; lia).
  all: assert (Hle : Z.of_nat (size ({[troot y]} ∪ seen)) <= tsize x0)
    by (apply seen_size; intros h [->%elem_of_singleton|Hh]%elem_of_union;
        [apply nodes_subtrees; eauto|apply (ci_nodes _ _ _ _ _ _ Hi); by left]).
  { lia. }
  cbn [count_loop]. erewrite bind_ok by (apply mview_ok, (children_ok st t Hsh y); by apply below_t).
  erewrite bind_ok by reflexivity. cbn [subTreeSizesCache].
  assert (Hready : forall c', cache_ok t c' -> counted c' y -> (forall h, h <> troot y -> c' !! h = c !! h) ->
    exists c'', bind (push_up walk (troot x0) (troot y) count)
        (fun cnt => count_loop walk fuel (troot x0) queue cnt) (mk_reindexContext st c') =
      (Ok tt, mk_reindexContext st c'') /\ cache_ok t c'' /\ counted c'' x0).
  { intros c' Hok Hcy Hext. pose proof (count_ready _ _ _ _ _ c' y Hi Hy Hok Hcy Hext) as Hi'.
    pose proof (tsize_pos y).
    destruct (push_up_ok walk y _ _ _ _ _ Hi' Hy) as (fin' & cnt & c2 & Hp & Hi2); [set_solver|done| |lia|].
    - intros Hfin. by destruct (ci_fin _ _ _ _ _ _ Hi _ Hfin).
    - erewrite bind_ok by exact Hp. apply (IH _ _ _ _ _ Hi2). lia. }
  destruct (tsubs y) as [|a l] eqn:Es; cbn [map].
  - erewrite bind_ok by reflexivity. cbn [rc_manager subTreeSizesCache].
    assert (H1 : tsize y = 1) by (by rewrite tsize_eq, Es).
    rewrite <- H1. apply Hready.
    + apply cache_ok_insert; [by apply below_t|apply Hi|]. rewrite Es. by intros z ?%not_elem_of_nil.
    + unfold counted. rewrite lookup_insert_eq. eauto.
    + intros h Hh. by rewrite lookup_insert_ne.
  - destruct (c !! troot y) as [n|] eqn:Ec.
    + erewrite bind_ok by reflexivity. apply Hready; [apply Hi|by exists n|done].
    + change (troot a :: map troot l) with (map troot (a :: l)). rewrite <- Es. apply (IH ({[troot y]} ∪ seen) fin).
      * apply count_expand; [done|done|by rewrite Es|]. unfold counted. rewrite Ec. by intros [? ?].
      * lia.
Qed.

End count.

(** [countSubtrees] puts the size of the whole subtree in the cache. *)
Lemma countSubtrees_ok t st x fuel c : shaped (rs_data st) t -> tsize t < 2 ^ 64 -> x ∈ subtrees t ->
  tsize x <= Z.of_nat fuel -> cache_ok t c ->
  exists c', countSubtrees fuel (troot x) (mk_reindexContext st c) = (Ok tt, mk_reindexContext st c') /\
    cache_ok t c' /\ forall y, y ∈ subtrees x -> c' !! troot y = Some (tsize y).
Proof.
  intros Hsh Hsm Hx Hf Hc. unfold countSubtrees. erewrite bind_ok by reflexivity. cbn [subTreeSizesCache].
  destruct (c !! troot x) as [n|] eqn:E.
  - exists c. split; [done|]. split; [done|]. apply Hc; [done|]. by rewrite E.
  - assert (Hi : count_inv t x ∅ ∅ None [troot x] ∅ c).
    { constructor; try done.
      - intros h [Hh|Hh%list_elem_of_singleton]; [set_solver|]. subst h. apply nodes_subtrees. exists x.
        split; [apply subtrees_self|done].
      - split; [apply NoDup_singleton|set_solver].
      - intros y _ _. rewrite lookup_empty, children_in_none by set_solver. split; [done|set_solver].
      - intros y z Hy Hz [Hh|Hh%list_elem_of_singleton]; [set_solver|].
        assert (z = x) as ->.
        { apply (subtree_unique t); [apply Hsh| |done|done]. apply (subtrees_down t y); [by eapply subtrees_trans|done]. }
        pose proof (tsize_child y x Hz). pose proof (tsize_subtree x y Hy). lia.
      - right. by apply list_elem_of_singleton. }
    destruct (count_loop_ok t st Hsh Hsm x Hx fuel fuel Hf _ _ _ _ _ Hi) as (c' & Hr & Hok & Hcx).
    + rewrite size_empty. lia.
    + exists c'. split; [done|]. split; [done|]. by apply Hok.
Qed.
