(* ===== verification/ReindexPropagate.v ===== *)
(** [propagateInterval]: given an interval with room for the subtree, the
    breadth-first search gives every descendant a nested interval and changes
    nothing else. *)

From S2P Require Import Prelude Transaction Block Difficulty TxMass Ghostdag ReachInterval Reachability Reindex ReachTree.
From S2P Require Import ReindexCount.

Lemma mview_ctx {A} (f : reach_store -> res ReachError A) rc a : f (rc_manager rc) = Ok a ->
  mview f rc = (Ok a, rc).
Proof. intros E. destruct rc. by apply mview_ok. Qed.

Lemma stage_ok h i rc : has_interval (rs_data (rc_manager rc)) h ->
  manager (stageInterval h i) rc =
  (Ok tt, mk_reindexContext (with_data (rc_manager rc) (set_iv h i (rs_data (rc_manager rc)))) (subTreeSizesCache rc)).
Proof. intros Hh. unfold manager, zoom. by rewrite stageInterval_ok. Qed.

Lemma with_data_twice st d d' : with_data (with_data st d) d' = with_data st d'.
Proof. done. Qed.

Lemma has_interval_same d d' h : same_shape d d' -> has_interval d h -> has_interval d' h.
Proof.
  intros E (rd & i & Hd & Hi). destruct (same_shape_lookup _ _ _ _ E Hd) as (rd' & Hd' & (_ & _ & _ & Er)%erase_fields).
  destruct (proj2 Er) as [i' Hi']; [by rewrite Hi|]. by exists rd', i'.
Qed.

Lemma stage_intervals_ok hs : forall ivs st c, NoDup hs -> length ivs = length hs ->
  (forall h, h ∈ hs -> has_interval (rs_data st) h) ->
  exists d', stage_intervals hs ivs (mk_reindexContext st c) = (Ok tt, mk_reindexContext (with_data st d') c) /\
    same_shape (rs_data st) d' /\ (forall h, h ∉ hs -> iv d' h = iv (rs_data st) h) /\ map (iv d') hs = ivs.
Proof.
  induction hs as [|h hs IH]; intros [|i ivs] st c Hnd Hl Hh; try done.
  - exists (rs_data st). split; [by destruct st|]. done.
  - apply NoDup_cons in Hnd as [Hn Hnd]. cbn [stage_intervals]. erewrite bind_ok by reflexivity.
    erewrite bind_ok by (apply stage_ok, Hh; left). cbn [rc_manager subTreeSizesCache tail].
    destruct (IH ivs (with_data st (set_iv h i (rs_data st))) c) as (d' & Hr & Hs & Hf & Hm); [done|by injection Hl| |].
    + intros h' Hh'. apply has_interval_set, Hh. by right.
    + rewrite with_data_twice in Hr. exists d'. split; [exact Hr|]. cbn [rs_data with_data] in *. split_and!.
      * etransitivity; [|exact Hs]. apply set_iv_same, Hh. left.
      * intros h' Hh'. rewrite elem_of_cons in Hh'. rewrite Hf by tauto. apply iv_set_ne. naive_solver.
      * cbn [map]. rewrite Hf, iv_set_eq by (first [done|apply Hh; left]). by rewrite Hm.
Qed.

Lemma Forall2_len_sizes cs ivs : Forall2 Z.le (map tsize cs) (map len ivs) ->
  length ivs = length cs /\ forall i c v, cs !! i = Some c -> ivs !! i = Some v -> tsize c <= len v.
Proof.
  intros H. split.
  - apply Forall2_length in H. rewrite !length_map in H. done.
  - intros i c v Hc Hv. eapply Forall2_lookup_lr in H; [exact H| |].
    + change (map tsize cs) with (tsize <$> cs). by rewrite list_lookup_fmap, Hc.
    + change (map len ivs) with (len <$> ivs). by rewrite list_lookup_fmap, Hv.
Qed.

Section propagate.
Context `{FloatConversion}.
Variable t : tree.
Variable st0 : reach_store.
Context (Hsh : shaped (rs_data st0) t) (Hsmall : tsize t < 2 ^ 64).
Variable x : tree.
Hypothesis Hx : x ∈ subtrees t.
Variable c : gmap bytes Z.
Hypothesis Hcache : forall y, y ∈ subtrees x -> c !! troot y = Some (tsize y).

Definition roomy (d : gmap bytes reachabilityData) (y : tree) : Prop :=
  in_range (iv d (troot y)) /\ tsize y <= len (iv d (troot y)).

Record prop_inv (d : gmap bytes reachabilityData) (queue : list tree) : Prop := {
  pi_same : same_shape (rs_data st0) d;
  pi_frame : forall h, h ∉ nodes x \/ h = troot x -> iv d h = iv (rs_data st0) h;
  pi_queue : forall q, q ∈ queue -> q ∈ subtrees x /\ roomy d q;
  pi_disjoint : NoDup (concat (map nodes queue));
  pi_nested : forall y, y ∈ subtrees x -> (exists q, q ∈ queue /\ y ∈ subtrees q) \/ local_ok (iv d) y
}.

Lemma concat_disjoint (q : tree) (qs : list tree) (y z q' : tree) : NoDup (concat (map nodes (q :: qs))) ->
  q' ∈ qs -> y ∈ subtrees q -> z ∈ subtrees q' -> troot y <> troot z.
Proof.
  cbn [map concat]. intros (_ & Hd & _)%NoDup_app Hq Hy Hz E. apply (Hd (troot y)).
  - apply nodes_subtrees. eauto.
  - apply elem_of_concat_map. exists q'. split; [done|]. apply nodes_subtrees. eauto.
Qed.

(** The children of [q] received intervals that tile that of [q]. *)
Lemma prop_step d d' q queue ivs :
  prop_inv d (q :: queue) -> same_shape d d' ->
  (forall h, h ∉ map troot (tsubs q) -> iv d' h = iv d h) -> map (iv d') (map troot (tsubs q)) = ivs ->
  Forall2 Z.le (map tsize (tsubs q)) (map len ivs) ->
  tsubs q = [] \/ tiles (Start (iv d (troot q))) ivs (End (iv d (troot q))) ->
  prop_inv d' (queue ++ tsubs q).
Proof.
  intros [H1 H2 H3 H4 H5] Hs Hf Hm Hl Ht.
  destruct (H3 q) as [Hqx [Hqr Hqs]]; [left|].
  assert (Hqt : q ∈ subtrees t) by (by eapply subtrees_trans).
  assert (Hqnd : NoDup (nodes q)) by (eapply nodup_subtree; [apply Hsh|done]).
  assert (Hnotc : forall y, y ∉ subtrees q \/ y = q -> y ∈ subtrees x -> troot y ∉ map troot (tsubs q)).
  { intros y Hy Hyx (z & E & Hz)%list_elem_of_fmap.
    apply (subtree_unique t) in E as ->; [|apply Hsh|by eapply subtrees_trans|by apply (subtrees_down t q)].
    destruct Hy as [Hy|Hy]; [by apply Hy, subtrees_child|].
    subst. pose proof (tsize_child q q Hz). lia. }
  assert (Hlocal : local_ok (iv d') q).
  { pose proof (tsize_pos q). assert (Eq : iv d' (troot q) = iv d (troot q)) by (apply Hf, Hnotc; [by right|done]).
    destruct Hqr as (Hr1 & Hr2 & Hr3). unfold len in Hqs. constructor; rewrite ?Eq; [lia|lia|lia|].
    destruct Ht as [E|Ht].
    - exists (Start (iv d (troot q))), (Start (iv d (troot q))). rewrite E. split; [lia|]. split; [lia|done].
    - exists (Start (iv d (troot q))), (End (iv d (troot q))). split; [lia|]. split; [lia|].
      rewrite map_map in Hm. by rewrite Hm. }
  constructor.
  - by etransitivity.
  - intros h Hh. rewrite Hf; [by apply H2|]. intros (z & -> & Hz)%list_elem_of_fmap.
    assert (Hzx : z ∈ subtrees x) by (by apply (subtrees_down x q)).
    destruct Hh as [Hh|Hh]; [apply Hh, nodes_subtrees; eauto|].
    apply (subtree_unique t) in Hh as ->; [|apply Hsh|by eapply subtrees_trans|done].
    pose proof (tsize_child q x Hz). pose proof (tsize_subtree x q Hqx). lia.
  - intros y [Hy|Hy]%elem_of_app.
    + destruct (H3 y) as [Hyx Hyr]; [by right|]. split; [done|]. unfold roomy. rewrite Hf; [done|].
      apply Hnotc; [|done]. left. intros Hyq.
      by apply (concat_disjoint q queue y y y H4 Hy Hyq (subtrees_self y)).
    + split; [by apply (subtrees_down x q)|]. destruct (Forall2_len_sizes _ _ Hl) as [Hlen Hsz].
      apply list_elem_of_lookup in Hy as Hy'. destruct Hy' as [i Hi]. rewrite map_map in Hm.
      assert (Hv : ivs !! i = Some (iv d' (troot y))).
      { rewrite <- Hm. change (map ?g (tsubs q)) with (g <$> tsubs q). by rewrite list_lookup_fmap, Hi. }
      split; [|by eapply Hsz]. destruct Ht as [E|Ht]; [by rewrite E in Hy; apply not_elem_of_nil in Hy|].
      apply list_elem_of_lookup_2 in Hv. destruct (tiles_elem _ _ _ _ Ht Hv) as (Ha & Hb & Hc).
      destruct Hqr as (Hr1 & Hr2 & Hr3). unfold in_range. lia.
  - cbn [map concat] in H4. rewrite nodes_eq in H4. cbn [app] in H4. apply NoDup_cons in H4 as [_ H4].
    rewrite map_app, concat_app. eapply NoDup_Permutation_proper; [|exact H4]. apply Permutation_app_comm.
  - intros y Hy. destruct (H5 y Hy) as [(q' & Hq' & Hyq')|Hok].
    + rewrite elem_of_cons in Hq'. destruct Hq' as [->|Hq']; [|left; exists q'; split; [apply elem_of_app; by left|done]].
      apply subtrees_inv in Hyq' as [->|(z & Hz & Hyz)]; [by right|]. left. exists z. split; [apply elem_of_app; by right|done].
    + assert (Hcase : y ∈ subtrees q \/ y ∉ subtrees q).
      { destruct (decide (troot y ∈ nodes q)) as [Hin|Hout].
        - left. apply nodes_subtrees in Hin as (w & Hw & E). apply (subtree_unique x) in E as <-; [done| |by eapply subtrees_trans|done].
          eapply nodup_subtree; [apply Hsh|done].
        - right. intros Hyq. apply Hout, nodes_subtrees. eauto. }
      destruct Hcase as [Hyq|Hyq].
      * apply subtrees_inv in Hyq as [->|(z & Hz & Hyz)]; [by right|]. left. exists z. split; [apply elem_of_app; by right|done].
      * right. apply (local_ok_ext (iv d)); [|done]. intros h [->|(w & -> & Hw)%list_elem_of_fmap]; symmetry; apply Hf.
        -- apply Hnotc; [by left|done].
        -- intros (z & E & Hz)%list_elem_of_fmap.
           apply (subtree_unique x) in E as ->; [|eapply nodup_subtree; [apply Hsh|done]|by apply (subtrees_down x y)|by apply (subtrees_down x q)].
           apply Hyq. rewrite (parent_unique x y q z); [apply subtrees_self|eapply nodup_subtree; [apply Hsh|done]|done..].
Qed.

Lemma propagate_loop_ok fuel : forall d queue, prop_inv d queue -> sumZ tsize queue <= Z.of_nat fuel ->
  exists d', propagate_loop fuel (map troot queue) (mk_reindexContext (with_data st0 d) c) =
      (Ok tt, mk_reindexContext (with_data st0 d') c) /\ prop_inv d' [].
Proof.
  induction fuel as [|fuel IH]; intros d [|q queue] Hi Hf; [by exists d| |by exists d|].
  { cbn [sumZ foldr] in Hf. fold (sumZ tsize queue) in Hf. pose proof (tsize_pos q).
    pose proof (sumZ_tsize_nonneg queue). lia. }
  cbn [sumZ foldr] in Hf. fold (sumZ tsize queue) in Hf. rewrite tsize_eq in Hf.
  destruct (pi_queue _ _ Hi q) as [Hqx [Hqr Hqs]]; [left|].
  assert (Hqt : q ∈ subtrees t) by (by eapply subtrees_trans).
  pose proof (shaped_same _ _ _ (pi_same _ _ Hi) Hsh) as Hshd.
  cbn [map propagate_loop]. erewrite bind_ok by (apply mview_ctx, (children_ok (with_data st0 d) t Hshd q Hqt)).
  destruct (tsubs q) as [|a l] eqn:Es.
  - cbn [map]. apply IH; [|cbn in Hf; lia]. rewrite <- (app_nil_r queue), <- Es.
    apply (prop_step d d q queue []); [done|done|done|by rewrite Es|rewrite Es; constructor|by left].
  - cbn [map]. change (troot a :: map troot l) with (map troot (a :: l)). rewrite <- Es in *.
    assert (Hne : tsubs q <> []) by (by rewrite Es). clear a l Es.
    erewrite bind_ok by (apply cache_values_ok; intros z Hz; apply Hcache; by apply (subtrees_down x q)).
    assert (Hqi : has_interval d (troot q)) by (by apply (node_interval (with_data st0 d) t Hshd)).
    unfold intervalRangeForChildAllocation.
    erewrite bind_ok by (apply mview_ctx; cbn [rc_manager]; rewrite (interval_ok (with_data st0 d)) by done; reflexivity).
    cbn [rs_data with_data]. set (i := iv d (troot q)) in *. destruct Hqr as (Hr1 & Hr2 & Hr3). unfold len in Hqs.
    pose proof (tsize_pos q). rewrite uint64_id by lia.
    destruct (intervalSplitWithExponentialBias_spec (newReachabilityInterval (Start i) (End i - 1)) (map tsize (tsubs q)))
      as (ivs & Hsplit & Hle & Ht).
    + unfold in_range. cbn. lia.
    + by intros E%map_eq_nil.
    + apply Forall_forall. intros n (z & -> & _)%list_elem_of_fmap. pose proof (tsize_pos z). lia.
    + assert (E : sumZ id (map tsize (tsubs q)) = sumZ tsize (tsubs q)).
      { clear. induction (tsubs q) as [|a l IH]; [done|]. cbn [map sumZ foldr]. by f_equal. }
      rewrite E. rewrite tsize_eq in Hqs. unfold len. cbn. lia.
    + erewrite bind_ok by (unfold lift; rewrite Hsplit; reflexivity).
      destruct (Forall2_len_sizes _ _ Hle) as [Hlen _].
      destruct (stage_intervals_ok (map troot (tsubs q)) ivs (with_data st0 d) c) as (d' & Hst & Hs & Hfr & Hm).
      * eapply nodup_children, nodup_subtree; [apply Hsh|done].
      * by rewrite length_map.
      * intros h (z & -> & Hz)%list_elem_of_fmap. apply (node_interval (with_data st0 d) t Hshd). by apply (subtrees_down t q).
      * erewrite bind_ok by exact Hst. rewrite with_data_twice, <- map_app. apply IH.
        -- apply (prop_step d d' q queue ivs); try done. right. cbn [Start End] in Ht. by replace (End i - 1 + 1) with (End i) in Ht by lia.
        -- rewrite sumZ_app. lia.
Qed.

End propagate.

(** [propagateInterval] lays out the subtree of a node whose interval has room
    for it. *)
Lemma propagateInterval_ok `{FloatConversion} t st x fuel c : shaped (rs_data st) t -> tsize t < 2 ^ 64 -> x ∈ subtrees t ->
  tsize x <= Z.of_nat fuel -> cache_ok t c -> roomy (rs_data st) x ->
  exists d' c', propagateInterval fuel (troot x) (mk_reindexContext st c) =
      (Ok tt, mk_reindexContext (with_data st d') c') /\
    same_shape (rs_data st) d' /\ cache_ok t c' /\
    (forall h, h ∉ nodes x \/ h = troot x -> iv d' h = iv (rs_data st) h) /\ nested (iv d') x.
Proof.
  intros Hsh Hsm Hx Hf Hc Hr. unfold propagateInterval.
  destruct (countSubtrees_ok t st x fuel c Hsh Hsm Hx Hf Hc) as (c' & Hcount & Hok & Hall).
  erewrite bind_ok by exact Hcount.
  assert (Hi : prop_inv st x (rs_data st) [x]).
  { constructor; try done.
    - intros q Hq%list_elem_of_singleton. subst. split; [apply subtrees_self|done].
    - cbn. rewrite app_nil_r. eapply nodup_subtree; [apply Hsh|done].
    - intros y Hy. left. exists x. split; [by apply list_elem_of_singleton|done]. }
  destruct (propagate_loop_ok t st Hsh x Hx c' Hall fuel (rs_data st) [x] Hi) as (d' & Hp & Hi').
  { cbn. lia. }
  exists d', c'. split; [by destruct st|]. destruct Hi' as [H1 H2 _ _ H5]. split_and!; try done.
  intros y Hy. destruct (H5 y Hy) as [(q & Hq & _)|?]; [by apply not_elem_of_nil in Hq|done].
Qed.
