(* ===== verification/ReindexReclaim.v ===== *)
(** [reclaimIntervalBefore] and [reclaimIntervalAfter]: taking slack along the
    chain from the common ancestor to the reindex root and giving it to another
    child of the common ancestor.

    The two functions are mirror images; they are shown to be instances of one,
    and the properties are proved for both sides at once. *)

From S2P Require Import Prelude Transaction Block Difficulty TxMass Ghostdag ReachInterval Reachability Reindex ReachTree.
From S2P Require Import ReindexCount ReindexPropagate.

(** * The two sides *)

Inductive side : Set := Before | After.

(** A sibling moves by the offset, the allocation node grows by it, and a node of
    the chain shrinks by it. *)
Definition sd_shift (sd : side) : ReachabilityInterval -> Z -> ReachabilityInterval :=
  match sd with Before => intervalIncrease | After => intervalDecrease end.

Definition sd_grow (sd : side) : ReachabilityInterval -> Z -> ReachabilityInterval :=
  match sd with Before => intervalIncreaseEnd | After => intervalDecreaseStart end.

Definition sd_shrink (sd : side) : ReachabilityInterval -> Z -> ReachabilityInterval :=
  match sd with Before => intervalIncreaseStart | After => intervalDecreaseEnd end.

Definition sd_slack (sd : side) : reach_store -> bytes -> res ReachError Z :=
  match sd with Before => remainingSlackBefore | After => remainingSlackAfter end.

(** The siblings in the order they are visited. *)
Definition sd_siblings {A} (sd : side) (split : list A * list A) : list A :=
  match sd with Before => rev (fst split) | After => snd split end.

Section generic.
Context `{FloatConversion}.
Variable sd : side.
Variable rt : reachabilityManager.
Variable fuel : nat.

Fixpoint offset_loop (allocationNode : bytes) (offset : Z) (siblings : list bytes) : RC unit :=
  match siblings with
  | [] => ret tt
  | sibling :: rest =>
      if bytes_eqb sibling allocationNode then
        let* previousInterval := mview (fun st => interval st allocationNode) in
        let* previousInterval := lift (deref previousInterval) in
        manager (stageInterval allocationNode (sd_grow sd previousInterval offset)) ;;
        propagateInterval fuel allocationNode
      else
        let* previousInterval := mview (fun st => interval st sibling) in
        let* previousInterval := lift (deref previousInterval) in
        manager (stageInterval sibling (sd_shift sd previousInterval offset)) ;;
        propagateInterval fuel sibling ;;
        offset_loop allocationNode offset rest
  end.

Definition offsetSiblings (allocationNode current : bytes) (offset : Z) : RC unit :=
  let* parent := mview (fun st => parent st current) in
  let* parent := lift (deref parent) in
  let* split := mview (fun st => splitChildren st parent current) in
  offset_loop allocationNode offset (sd_siblings sd split).

Fixpoint reclaim_up (walk : nat) (allocationNode current reindexRoot : bytes)
    (requiredAllocation slackSum pathLen : Z) : RC (bytes * Z) :=
  match walk with
  | O => throw ReachFuel
  | S walk' =>
      if bytes_eqb current reindexRoot then
        let* previousInterval := mview (fun st => interval st current) in
        let* previousInterval := lift (deref previousInterval) in
        let offset := uint64 (uint64 (requiredAllocation + uint64 (reindexSlack rt * pathLen)) - slackSum) in
        manager (stageInterval current (sd_shrink sd previousInterval offset)) ;;
        propagateInterval fuel current ;;
        offsetSiblings allocationNode current offset ;;
        ret (current, reindexSlack rt)
      else
        let* slack := mview (fun st => sd_slack sd st current) in
        let slackSum := uint64 (slackSum + slack) in
        if slackSum >=? requiredAllocation then
          let* previousInterval := mview (fun st => interval st current) in
          let* previousInterval := lift (deref previousInterval) in
          let offset := uint64 (slack - uint64 (slackSum - requiredAllocation)) in
          manager (stageInterval current (sd_shrink sd previousInterval offset)) ;;
          offsetSiblings allocationNode current offset ;;
          ret (current, 0)
        else
          let* current := mview (fun st => FindNextAncestor st reindexRoot current) in
          reclaim_up walk' allocationNode current reindexRoot requiredAllocation slackSum (uint64 (pathLen + 1))
  end.

Fixpoint reclaim_down (walk : nat) (allocationNode current commonAncestor : bytes)
    (pathSlackAlloc : Z) : RC unit :=
  match walk with
  | O => throw ReachFuel
  | S walk' =>
      let* current := mview (fun st => parent st current) in
      if hash_Equal current (Some commonAncestor) then ret tt else
      let* current := lift (deref current) in
      let* originalInterval := mview (fun st => interval st current) in
      let* slack := mview (fun st => sd_slack sd st current) in
      let offset := uint64 (slack - pathSlackAlloc) in
      let* originalInterval := lift (deref originalInterval) in
      manager (stageInterval current (sd_shrink sd originalInterval offset)) ;;
      offsetSiblings allocationNode current offset ;;
      reclaim_down walk' allocationNode current commonAncestor pathSlackAlloc
  end.

Definition reclaim (allocationNode commonAncestor chosenChild reindexRoot : bytes)
    (requiredAllocation : Z) : RC unit :=
  let* r := reclaim_up fuel allocationNode chosenChild reindexRoot requiredAllocation 0 0 in
  reclaim_down fuel allocationNode (fst r) commonAncestor (snd r).

End generic.

Lemma bind_cong {E S A B} (m m' : M E S A) (k k' : A -> M E S B) s :
  (forall s, m s = m' s) -> (forall a s, k a s = k' a s) -> bind m k s = bind m' k' s.
Proof. intros Hm Hk. unfold bind. rewrite Hm. destruct (m' s) as [[a| |] s']; [apply Hk|done..]. Qed.

Ltac mirror :=
  repeat first [reflexivity | progress intros | apply bind_cong | case_match | progress (subst; cbn beta iota)].

Section mirror.
Context `{FloatConversion}.
Variable rt : reachabilityManager.
Variable fuel : nat.

Lemma offset_before_generic a off l rc : offset_before_loop fuel a off l rc = offset_loop Before fuel a off l rc.
Proof.
  revert rc. induction l as [|x l IH]; intros rc; [done|]. cbn [offset_before_loop offset_loop].
  mirror; apply IH.
Qed.

Lemma offset_after_generic a off l rc : offset_after_loop fuel a off l rc = offset_loop After fuel a off l rc.
Proof.
  revert rc. induction l as [|x l IH]; intros rc; [done|]. cbn [offset_after_loop offset_loop].
  mirror; apply IH.
Qed.

Lemma offsetSiblingsBefore_generic a x off rc : offsetSiblingsBefore fuel a x off rc = offsetSiblings Before fuel a x off rc.
Proof. unfold offsetSiblingsBefore, offsetSiblings. mirror; apply offset_before_generic. Qed.

Lemma offsetSiblingsAfter_generic a x off rc : offsetSiblingsAfter fuel a x off rc = offsetSiblings After fuel a x off rc.
Proof. unfold offsetSiblingsAfter, offsetSiblings. mirror; apply offset_after_generic. Qed.

Lemma reclaim_before_up_generic walk : forall a x r req s k rc,
  reclaim_before_up rt fuel walk a x r req s k rc = reclaim_up Before rt fuel walk a x r req s k rc.
Proof.
  induction walk as [|walk IH]; intros; [done|]. cbn [reclaim_before_up reclaim_up].
  mirror; first [apply offsetSiblingsBefore_generic | apply IH].
Qed.

Lemma reclaim_after_up_generic walk : forall a x r req s k rc,
  reclaim_after_up rt fuel walk a x r req s k rc = reclaim_up After rt fuel walk a x r req s k rc.
Proof.
  induction walk as [|walk IH]; intros; [done|]. cbn [reclaim_after_up reclaim_up].
  mirror; first [apply offsetSiblingsAfter_generic | apply IH].
Qed.

Lemma reclaim_before_down_generic walk : forall a x ca s rc,
  reclaim_before_down fuel walk a x ca s rc = reclaim_down Before fuel walk a x ca s rc.
Proof.
  induction walk as [|walk IH]; intros; [done|]. cbn [reclaim_before_down reclaim_down].
  mirror; first [apply offsetSiblingsBefore_generic | apply IH].
Qed.

Lemma reclaim_after_down_generic walk : forall a x ca s rc,
  reclaim_after_down fuel walk a x ca s rc = reclaim_down After fuel walk a x ca s rc.
Proof.
  induction walk as [|walk IH]; intros; [done|]. cbn [reclaim_after_down reclaim_down].
  mirror; first [apply offsetSiblingsAfter_generic | apply IH].
Qed.

Lemma reclaimIntervalBefore_generic a ca x r req rc :
  reclaimIntervalBefore rt fuel a ca x r req rc = reclaim Before rt fuel a ca x r req rc.
Proof.
  unfold reclaimIntervalBefore, reclaim.
  apply bind_cong; intros; [apply reclaim_before_up_generic|apply reclaim_before_down_generic].
Qed.

Lemma reclaimIntervalAfter_generic a ca x r req rc :
  reclaimIntervalAfter rt fuel a ca x r req rc = reclaim After rt fuel a ca x r req rc.
Proof.
  unfold reclaimIntervalAfter, reclaim.
  apply bind_cong; intros; [apply reclaim_after_up_generic|apply reclaim_after_down_generic].
Qed.

End mirror.

(** * The moves without wrap-around *)

Definition zshift (sd : side) (off : Z) (i : ReachabilityInterval) : ReachabilityInterval :=
  match sd with
  | Before => newReachabilityInterval (Start i + off) (End i + off)
  | After => newReachabilityInterval (Start i - off) (End i - off)
  end.

Definition zgrow (sd : side) (off : Z) (i : ReachabilityInterval) : ReachabilityInterval :=
  match sd with
  | Before => newReachabilityInterval (Start i) (End i + off)
  | After => newReachabilityInterval (Start i - off) (End i)
  end.

Definition zshrink (sd : side) (off : Z) (i : ReachabilityInterval) : ReachabilityInterval :=
  match sd with
  | Before => newReachabilityInterval (Start i + off) (End i)
  | After => newReachabilityInterval (Start i) (End i - off)
  end.

Lemma sd_shift_z sd i off : in_range (zshift sd off i) -> sd_shift sd i off = zshift sd off i.
Proof.
  destruct sd, i; unfold in_range; cbn; intros (H1 & H2 & H3); unfold intervalIncrease, intervalDecrease; cbn;
    rewrite !uint64_id by lia; done.
Qed.

Lemma sd_grow_z sd i off : in_range (zgrow sd off i) -> sd_grow sd i off = zgrow sd off i.
Proof.
  destruct sd, i; unfold in_range; cbn; intros (H1 & H2 & H3); unfold intervalIncreaseEnd, intervalDecreaseStart; cbn;
    rewrite !uint64_id by lia; done.
Qed.

Lemma sd_shrink_z sd i off : in_range (zshrink sd off i) -> sd_shrink sd i off = zshrink sd off i.
Proof.
  destruct sd, i; unfold in_range; cbn; intros (H1 & H2 & H3); unfold intervalIncreaseStart, intervalDecreaseEnd; cbn;
    rewrite !uint64_id by lia; done.
Qed.

Lemma len_zshift sd off i : len (zshift sd off i) = len i.
Proof. destruct sd; unfold len; cbn; lia. Qed.

Lemma len_zgrow sd off i : len (zgrow sd off i) = len i + off.
Proof. destruct sd; unfold len; cbn; lia. Qed.

Lemma len_zshrink sd off i : len (zshrink sd off i) = len i - off.
Proof. destruct sd; unfold len; cbn; lia. Qed.

(** * Laying out a node again *)

Section layout.
Context `{FloatConversion}.
Variable t : tree.
Variable st0 : reach_store.
Variable fuel : nat.
Context (Hsh : shaped (rs_data st0) t) (Hsmall : tsize t < 2 ^ 64) (Hfuel : tsize t <= Z.of_nat fuel).

Definition ctx (d : gmap bytes reachabilityData) (c : gmap bytes Z) : reindexContext :=
  mk_reindexContext (with_data st0 d) c.

(** What every step of a reindex keeps. *)
Definition good (d : gmap bytes reachabilityData) (c : gmap bytes Z) : Prop :=
  same_shape (rs_data st0) d /\ cache_ok t c.

Lemma good_shaped d c : good d c -> shaped (rs_data (with_data st0 d)) t.
Proof. intros [Hs _]. by eapply shaped_same. Qed.

Lemma good_has d c x : good d c -> x ∈ subtrees t -> has_interval d (troot x).
Proof. intros Hg Hx. apply (node_interval (with_data st0 d) t); [by eapply good_shaped|done]. Qed.

Lemma good_set d c x i : good d c -> x ∈ subtrees t -> good (set_iv (troot x) i d) c.
Proof. intros Hg Hx. split; [|apply Hg]. etransitivity; [apply Hg|]. apply set_iv_same. by eapply good_has. Qed.

Lemma stage_ctx d c x i : good d c -> x ∈ subtrees t ->
  manager (stageInterval (troot x) i) (ctx d c) = (Ok tt, ctx (set_iv (troot x) i d) c).
Proof. intros Hg Hx. unfold ctx. rewrite stage_ok by (by eapply good_has). done. Qed.

Lemma interval_ctx d c x : good d c -> x ∈ subtrees t ->
  mview (fun st => interval st (troot x)) (ctx d c) = (Ok (Some (iv d (troot x))), ctx d c).
Proof. intros Hg Hx. apply mview_ctx. apply (interval_ok (with_data st0 d)). by eapply good_has. Qed.

Lemma propagate_ctx d c x : good d c -> x ∈ subtrees t -> roomy d x ->
  exists d' c', propagateInterval fuel (troot x) (ctx d c) = (Ok tt, ctx d' c') /\ good d' c' /\
    iv d' (troot x) = iv d (troot x) /\ nested (iv d') x /\ (forall h, h ∉ nodes x -> iv d' h = iv d h).
Proof.
  intros Hg Hx Hr. pose proof (tsize_subtree t x Hx).
  destruct (propagateInterval_ok t (with_data st0 d) x fuel c) as (d' & c' & Hp & Hs & Hc & Hf & Hn).
  - by eapply good_shaped.
  - done.
  - done.
  - lia.
  - apply Hg.
  - done.
  - exists d', c'. rewrite with_data_twice in Hp. split; [exact Hp|]. split_and!; [split; [|done]; etransitivity; [apply Hg|done]| |done|].
    + apply Hf. by right.
    + intros h Hh. apply Hf. by left.
Qed.

(** Staging an interval and propagating it. *)
Lemma relayout d c x i : good d c -> x ∈ subtrees t -> in_range i -> tsize x <= len i ->
  exists d' c', propagateInterval fuel (troot x) (ctx (set_iv (troot x) i d) c) = (Ok tt, ctx d' c') /\ good d' c' /\
    iv d' (troot x) = i /\ nested (iv d') x /\ (forall h, h ∉ nodes x -> iv d' h = iv d h).
Proof.
  intros Hg Hx Hi Hs. assert (E : iv (set_iv (troot x) i d) (troot x) = i) by (apply iv_set_eq; by eapply good_has).
  destruct (propagate_ctx (set_iv (troot x) i d) c x) as (d' & c' & Hp & Hg' & Hix & Hn & Hf).
  - by apply good_set.
  - done.
  - unfold roomy. by rewrite E.
  - exists d', c'. split_and!; try done; [congruence|]. intros h Hh. rewrite Hf by done. apply iv_set_ne.
    intros <-. apply Hh, nodes_subtrees. exists x. split; [apply subtrees_self|done].
Qed.

(** * Moving the siblings *)

Variable sd : side.
Variable a : bytes.
Variable off : Z.

Definition shiftable (d : gmap bytes reachabilityData) (w : tree) : Prop :=
  w ∈ subtrees t /\ troot w <> a /\ nested (iv d) w /\ in_range (zshift sd off (iv d (troot w))).

Definition shifted (d d' : gmap bytes reachabilityData) (w : tree) : Prop :=
  iv d' (troot w) = zshift sd off (iv d (troot w)) /\ nested (iv d') w.

Lemma disjoint_nodes (w w' : tree) l h : NoDup (concat (map nodes (w :: l))) -> w' ∈ l -> h ∈ nodes w' -> h ∉ nodes w.
Proof.
  cbn [map concat]. intros (_ & Hd & _)%NoDup_app Hw' Hh' Hh. apply (Hd h Hh). apply elem_of_concat_map. eauto.
Qed.

Lemma self_node w : troot w ∈ nodes w.
Proof. apply nodes_subtrees. exists w. split; [apply subtrees_self|done]. Qed.

Lemma offset_siblings_ok (sibs : list tree) : forall d c rest, good d c ->
  (forall w, w ∈ sibs -> shiftable d w) -> NoDup (concat (map nodes sibs)) ->
  exists d' c', offset_loop sd fuel a off (map troot sibs ++ rest) (ctx d c) =
      offset_loop sd fuel a off rest (ctx d' c') /\ good d' c' /\
    (forall w, w ∈ sibs -> shifted d d' w) /\
    (forall h, (forall w, w ∈ sibs -> h ∉ nodes w) -> iv d' h = iv d h).
Proof.
  induction sibs as [|w sibs IH]; intros d c rest Hg Hw Hnd.
  { exists d, c. split_and!; try done. intros w Hw'. by apply not_elem_of_nil in Hw'. }
  destruct (Hw w ltac:(left)) as (Hwt & Hwa & Hwn & Hwr).
  cbn [map app offset_loop]. unfold bytes_eqb. rewrite bool_decide_false by done.
  erewrite bind_ok by (by apply interval_ctx). erewrite bind_ok by reflexivity.
  erewrite bind_ok by (by apply stage_ctx). rewrite sd_shift_z by done.
  destruct (relayout d c w (zshift sd off (iv d (troot w)))) as (d1 & c1 & Hp & Hg1 & Hi1 & Hn1 & Hf1); try done.
  { rewrite len_zshift. by apply nested_size. }
  erewrite bind_ok by exact Hp.
  assert (Hsame : forall w' h, w' ∈ sibs -> h ∈ nodes w' -> iv d1 h = iv d h).
  { intros w' h Hw' Hh. apply Hf1. by eapply disjoint_nodes. }
  destruct (IH d1 c1 rest Hg1) as (d' & c' & Hl & Hg' & Hsh' & Hf').
  - intros w' Hw'. destruct (Hw w' ltac:(by right)) as (H1 & H2 & H3 & H4). split_and!; [done|done| |].
    + apply (nested_ext (iv d)); [|done]. intros h Hh. symmetry. by eapply Hsame.
    + by rewrite (Hsame w' _ Hw' (self_node w')).
  - cbn [map concat] in Hnd. by apply NoDup_app in Hnd as (_ & _ & Hnd).
  - assert (Hkeep : forall h, h ∈ nodes w -> iv d' h = iv d1 h).
    { intros h Hh. apply Hf'. intros w' Hw' Hh'. by eapply disjoint_nodes. }
    exists d', c'. split_and!; [exact Hl|done| |].
    + intros w' Hw'. rewrite elem_of_cons in Hw'. destruct Hw' as [->|Hw'].
      * split; [rewrite Hkeep by apply self_node; done|]. apply (nested_ext (iv d1)); [|done].
        intros h Hh. symmetry. by apply Hkeep.
      * destruct (Hsh' w' Hw') as [H1 H2]. split; [|done]. by rewrite H1, (Hsame w' _ Hw' (self_node w')).
    + intros h Hh. rewrite Hf' by (intros w' Hw'; apply Hh; by right). apply Hf1, Hh. left.
Qed.

(** The allocation node grows, and the loop ends. *)
Lemma offset_alloc_ok d c x rest : good d c -> x ∈ subtrees t -> troot x = a ->
  in_range (zgrow sd off (iv d a)) -> tsize x <= len (iv d a) + off ->
  exists d' c', offset_loop sd fuel a off (a :: rest) (ctx d c) = (Ok tt, ctx d' c') /\ good d' c' /\
    iv d' a = zgrow sd off (iv d a) /\ nested (iv d') x /\ (forall h, h ∉ nodes x -> iv d' h = iv d h).
Proof.
  intros Hg Hx Ha Hr Hs. cbn [offset_loop]. unfold bytes_eqb. rewrite bool_decide_true by done. rewrite <- Ha in *.
  erewrite bind_ok by (by apply interval_ctx). erewrite bind_ok by reflexivity.
  erewrite bind_ok by (by apply stage_ctx). rewrite sd_grow_z by done.
  apply relayout; try done. by rewrite len_zgrow.
Qed.

End layout.

(** * The geometry of a move *)

Definition sd_left (sd : side) (off : Z) (l : list ReachabilityInterval) : list ReachabilityInterval :=
  match sd with Before => map (zshift Before off) l | After => l end.

Definition sd_right (sd : side) (off : Z) (l : list ReachabilityInterval) : list ReachabilityInterval :=
  match sd with Before => l | After => map (zshift After off) l end.

(** How the room the children leave at the two ends changes. *)
Definition sd_lo (sd : side) (off s : Z) : Z := match sd with Before => s + off | After => s end.
Definition sd_hi (sd : side) (off e : Z) : Z := match sd with Before => e | After => e - off end.

Definition slack_of (sd : side) (i : ReachabilityInterval) (s e : Z) : Z :=
  match sd with Before => s - Start i | After => End i - e end.

Lemma tiles_shift_up off l : forall s e, tiles s l e -> tiles (s + off) (map (zshift Before off) l) (e + off).
Proof.
  induction l as [|i l IH]; intros s e; cbn [tiles map]; [lia|]. intros (H1 & H2 & H3%IH). cbn [zshift Start End].
  split; [lia|]. split; [lia|]. by replace (End i + off + 1) with (End i + 1 + off) by lia.
Qed.

Lemma tiles_shift_down off l : forall s e, tiles s l e -> tiles (s - off) (map (zshift After off) l) (e - off).
Proof.
  induction l as [|i l IH]; intros s e; cbn [tiles map]; [lia|]. intros (H1 & H2 & H3%IH). cbn [zshift Start End].
  split; [lia|]. split; [lia|]. by replace (End i - off + 1) with (End i + 1 - off) by lia.
Qed.

(** The chain node shrinks and the siblings of one side follow it. *)
Lemma tiles_move sd off s l y r e : tiles s (l ++ y :: r) e -> 0 <= off <= len y ->
  tiles (sd_lo sd off s) (sd_left sd off l ++ zshrink sd off y :: sd_right sd off r) (sd_hi sd off e).
Proof.
  intros (m & Hl & Hs & Hy & Hr)%tiles_app Ho. unfold len in Ho. apply tiles_app. destruct sd; cbn.
  - exists (m + off). split; [by apply tiles_shift_up|]. split; [lia|]. split; [lia|done].
  - exists m. split; [done|]. split; [lia|]. split; [lia|].
    replace (End y - off + 1) with (End y + 1 - off) by lia. by apply tiles_shift_down.
Qed.

(** The chain node shrinks, the siblings up to the allocation node follow, and
    the allocation node takes what is free. *)
Lemma tiles_alloc_before off s l1 x l2 y r e : tiles s (l1 ++ x :: l2 ++ y :: r) e -> 0 <= off <= len y ->
  tiles s (l1 ++ zgrow Before off x :: map (zshift Before off) l2 ++ zshrink Before off y :: r) e.
Proof.
  intros (m & Hl & Hs & Hx & (n & Hl2 & Hy1 & Hy2 & Hr)%tiles_app)%tiles_app Ho. unfold len in Ho.
  apply tiles_app. exists m. split; [done|]. cbn. split; [done|]. split; [lia|]. apply tiles_app. exists (n + off).
  split; [|cbn; split; [lia|]; split; [lia|done]].
  replace (End x + off + 1) with (End x + 1 + off) by lia. by apply tiles_shift_up.
Qed.

Lemma tiles_alloc_after off s l y r1 x r2 e : tiles s (l ++ y :: r1 ++ x :: r2) e -> 0 <= off <= len y ->
  tiles s (l ++ zshrink After off y :: map (zshift After off) r1 ++ zgrow After off x :: r2) e.
Proof.
  intros (m & Hl & Hs & Hy & (n & Hr1 & Hx1 & Hx2 & Hr)%tiles_app)%tiles_app Ho. unfold len in Ho.
  apply tiles_app. exists m. split; [done|]. cbn. split; [done|]. split; [lia|]. apply tiles_app. exists (n - off).
  split; [|cbn; split; [lia|]; split; [lia|done]].
  replace (End y - off + 1) with (End y + 1 - off) by lia. by apply tiles_shift_down.
Qed.

Lemma sibling_range sd off s l y r e w : tiles s (l ++ y :: r) e -> 1 <= s -> e < 2 ^ 64 -> 0 <= off <= len y ->
  w ∈ sd_siblings sd (l, r) -> in_range (zshift sd off w).
Proof.
  intros (m & Hl & Hs & Hy & Hr)%tiles_app H1 He Ho Hw. unfold len in Ho. unfold in_range. destruct sd; cbn in *.
  - apply list_elem_of_In, in_rev, list_elem_of_In in Hw. destruct (tiles_elem _ _ _ _ Hl Hw) as (Ha & Hb & Hc).
    pose proof (tiles_le _ _ _ Hr). lia.
  - destruct (tiles_elem _ _ _ _ Hr Hw) as (Ha & Hb & Hc). pose proof (tiles_le _ _ _ Hl). lia.
Qed.

Lemma tiles_last s l i e : tiles s (l ++ [i]) e -> e = End i + 1.
Proof. intros (m & _ & _ & _ & <-)%tiles_app. done. Qed.

(** The slack the code reads. *)
Lemma slack_ok sd st t q s e : shaped (rs_data st) t -> q ∈ subtrees t -> tsubs q <> [] ->
  in_range (iv (rs_data st) (troot q)) -> Start (iv (rs_data st) (troot q)) <= s -> e <= End (iv (rs_data st) (troot q)) ->
  tiles s (map (fun c => iv (rs_data st) (troot c)) (tsubs q)) e ->
  sd_slack sd st (troot q) = Ok (slack_of sd (iv (rs_data st) (troot q)) s e).
Proof.
  intros Hsh Hq Hne Hr Hs He Ht. pose proof (tiles_le _ _ _ Ht) as Hse. destruct Hr as (Hr1 & Hr2 & Hr3).
  set (i := iv (rs_data st) (troot q)) in *.
  assert (Hrange : intervalRangeForChildAllocation st (troot q) = Ok (newReachabilityInterval (Start i) (End i - 1))).
  { unfold intervalRangeForChildAllocation. rewrite (interval_ok st) by (by apply (node_interval st t)). cbn [bind_res deref].
    fold i. by rewrite uint64_id by lia. }
  destruct sd; cbn [sd_slack slack_of].
  - unfold remainingSlackBefore, remainingIntervalBefore. rewrite Hrange, (children_ok st t Hsh q Hq). cbn [bind_res].
    destruct (tsubs q) as [|c cs] eqn:Ec; [done|]. cbn [map]. cbn [map tiles] in Ht. destruct Ht as (Hc & _ & _).
    rewrite (interval_ok st) by (apply (node_interval st t Hsh), (subtrees_down t q); [done|rewrite Ec; left]).
    cbn [bind_res deref Start]. rewrite Hc, uint64_id by lia.
    rewrite intervalSize_len by (unfold in_range; cbn; lia). unfold len. cbn. f_equal. lia.
  - unfold remainingSlackAfter, remainingIntervalAfter. rewrite Hrange, (children_ok st t Hsh q Hq). cbn [bind_res].
    destruct (exists_last Hne) as (cs & c & Ec). rewrite Ec, map_app in Ht |- *. cbn [map] in Ht |- *.
    rewrite last_snoc. apply tiles_last in Ht as Hc.
    rewrite (interval_ok st) by (apply (node_interval st t Hsh), (subtrees_down t q); [done|rewrite Ec; set_solver]).
    cbn [bind_res deref End]. rewrite <- Hc, uint64_id by lia.
    rewrite intervalSize_len by (unfold in_range; cbn; lia). unfold len. cbn. f_equal. lia.
Qed.

(** [splitChildren] at a child. *)
Lemma splitChildren_ok st t q l y r : shaped (rs_data st) t -> q ∈ subtrees t -> tsubs q = l ++ y :: r ->
  splitChildren st (troot q) (troot y) = Ok (map troot l, map troot r).
Proof.
  intros Hsh Hq E. unfold splitChildren. rewrite (children_ok st t Hsh q Hq), E. cbn [bind_res].
  assert (Hnd : NoDup (map troot (tsubs q))) by (eapply nodup_children, nodup_subtree; [apply Hsh|done]).
  rewrite E, map_app in Hnd. rewrite map_app. cbn [map] in Hnd |- *.
  enough (Haux : forall k, split_at (troot y) k (map troot l ++ troot y :: map troot r) = Ok (k ++ map troot l, map troot r))
    by apply (Haux []).
  clear E. induction l as [|w l IH]; intros k; cbn [map app split_at]; unfold bytes_eqb.
  - rewrite bool_decide_true by done. by rewrite app_nil_r.
  - cbn [map app] in Hnd. apply NoDup_cons in Hnd as [Hn Hnd]. rewrite bool_decide_false by (intros Eq; apply Hn; set_solver).
    rewrite IH by done. by rewrite <- app_assoc.
Qed.
