(* ===== verification/ReindexChain.v ===== *)
(** Reclaiming slack, continued: the walk along the chain to the reindex root and
    back. *)

From S2P Require Import Prelude Transaction Block Difficulty TxMass Ghostdag ReachInterval Reachability Reindex ReachTree.
From S2P Require Import ReindexCount ReindexPropagate ReindexReclaim.

Lemma bind_assoc {E S A B C} (m : M E S A) (k : A -> M E S B) (h : B -> M E S C) s :
  bind (bind m k) h s = bind m (fun x => bind (k x) h) s.
Proof. unfold bind. by destruct (m s) as [[]]. Qed.

Lemma siblings_map sd (l r : list tree) : sd_siblings sd (map troot l, map troot r) = map troot (sd_siblings sd (l, r)).
Proof. destruct sd; cbn; [by rewrite map_rev|done]. Qed.

Lemma siblings_elem sd (l r : list tree) w : w ∈ sd_siblings sd (l, r) -> w ∈ l ++ r.
Proof. rewrite elem_of_app. destruct sd; cbn; [|by right]. intros Hw. left. by apply list_elem_of_In, in_rev, list_elem_of_In in Hw. Qed.

Lemma siblings_nodup sd q l y r : NoDup (nodes q) -> tsubs q = l ++ y :: r ->
  NoDup (concat (map nodes (sd_siblings sd (l, r)))).
Proof.
  rewrite nodes_eq. intros [_ Hnd]%NoDup_cons E. rewrite E, map_app, concat_app in Hnd. cbn [map concat] in Hnd.
  apply NoDup_app in Hnd as (Hl & _ & Hnd). apply NoDup_app in Hnd as (_ & _ & Hr). destruct sd; cbn; [|done].
  eapply NoDup_Permutation_proper; [|exact Hl]. rewrite <- !flat_map_concat_map. apply Permutation_flat_map.
  symmetry. apply Permutation_rev.
Qed.

(** Nodes of different children. *)
Lemma other_child q l y r w h : NoDup (nodes q) -> tsubs q = l ++ y :: r -> w ∈ l ++ r -> h ∈ nodes w -> h ∉ nodes y.
Proof.
  intros Hnd E Hw (x & Hx & <-)%nodes_subtrees (z & Hz & Eq)%nodes_subtrees.
  by apply (nodup_siblings q l y r w z x Hnd E Hw Hz Hx).
Qed.

Section moves.
Context `{FloatConversion}.
Variable t : tree.
Variable st0 : reach_store.
Variable fuel : nat.
Context (Hsh : shaped (rs_data st0) t) (Hsmall : tsize t < 2 ^ 64) (Hfuel : tsize t <= Z.of_nat fuel).
Variable sd : side.
Variable a : bytes.

Abbreviation good := (good t st0).
Abbreviation ctx := (ctx st0).

Lemma offsetSiblings_ctx d c q l y r off : good d c -> q ∈ subtrees t -> tsubs q = l ++ y :: r ->
  offsetSiblings sd fuel a (troot y) off (ctx d c) =
  offset_loop sd fuel a off (map troot (sd_siblings sd (l, r))) (ctx d c).
Proof.
  intros Hg Hq E. pose proof (good_shaped t st0 Hsh d c Hg) as Hs. unfold offsetSiblings.
  erewrite bind_ok by (apply mview_ctx, (parent_ok (with_data st0 d) t Hs q y); [done|rewrite E; set_solver]).
  erewrite bind_ok by reflexivity.
  erewrite bind_ok by (apply mview_ctx, (splitChildren_ok (with_data st0 d) t q l y r); done).
  by rewrite siblings_map.
Qed.

Context (q : tree) (l : list tree) (y : tree) (r : list tree) (Hq : q ∈ subtrees t) (Hsubs : tsubs q = l ++ y :: r).
Context (d d1 : gmap bytes reachabilityData) (c1 : gmap bytes Z) (s e off : Z).
Hypothesis Hg1 : good d1 c1.
Hypothesis Htiles : tiles s (map (fun w => iv d (troot w)) (tsubs q)) e.
Hypothesis Hs1 : 1 <= s.
Hypothesis He : e < 2 ^ 64.
Hypothesis Hoff : 0 <= off <= len (iv d (troot y)).
(** The chain node has already been changed. *)
Hypothesis Hy1 : iv d1 (troot y) = zshrink sd off (iv d (troot y)).
Hypothesis Hyn : nested (iv d1) y.
Hypothesis Hframe1 : forall h, h ∉ nodes y -> iv d1 h = iv d h.

Lemma nodup_q : NoDup (nodes q).
Proof. eapply nodup_subtree; [apply Hsh|done]. Qed.

Lemma sibling_same w h : w ∈ l ++ r -> h ∈ nodes w -> iv d1 h = iv d h.
Proof. intros Hw Hh. apply Hframe1. eapply other_child; [apply nodup_q|done|done|done]. Qed.

Lemma child_of w : w ∈ l ++ r -> w ∈ tsubs q.
Proof. rewrite Hsubs. set_solver. Qed.

Lemma tiles_list : tiles s (map (fun w => iv d (troot w)) l ++ iv d (troot y) :: map (fun w => iv d (troot w)) r) e.
Proof. rewrite Hsubs, map_app in Htiles. done. Qed.

Lemma sibs_shiftable w : w ∈ sd_siblings sd (l, r) -> nested (iv d) w -> troot w <> a -> shiftable t sd a off d1 w.
Proof.
  intros Hw Hn Ha. pose proof (siblings_elem sd l r w Hw) as Hlr. split_and!.
  - apply (subtrees_down t q); [done|]. by apply child_of.
  - done.
  - apply (nested_ext (iv d)); [|done]. intros h Hh. symmetry. by apply (sibling_same w).
  - rewrite (sibling_same w) by (try done; apply self_node).
    eapply sibling_range; [apply tiles_list|done|done|done|].
    assert (Hin : iv d (troot w) ∈ map (fun w => iv d (troot w)) (sd_siblings sd (l, r))) by (apply list_elem_of_fmap; eauto).
    destruct sd; cbn in *; [|done]. by rewrite <- map_rev.
Qed.

Lemma frame_y d2 : (forall h, (forall w, w ∈ sd_siblings sd (l, r) -> h ∉ nodes w) -> iv d2 h = iv d1 h) ->
  forall h, h ∈ nodes y -> iv d2 h = iv d1 h.
Proof.
  intros Hf h Hh. apply Hf. intros w Hw Hhw. apply siblings_elem in Hw.
  by eapply other_child; [apply nodup_q|done|done|done|done].
Qed.

(** A child of [q] that is neither the chain node nor on the side that moves. *)
Lemma other_side d2 w : (forall h, (forall w, w ∈ sd_siblings sd (l, r) -> h ∉ nodes w) -> iv d2 h = iv d1 h) ->
  w ∈ l ++ r -> w ∉ sd_siblings sd (l, r) -> forall h, h ∈ nodes w -> iv d2 h = iv d h.
Proof.
  intros Hf Hw Hns h Hh. rewrite Hf; [by apply (sibling_same w)|]. intros w' Hw' Hh'.
  assert (Hw2 : w' ∈ l ++ r) by (by eapply siblings_elem).
  by rewrite (child_unique q w w' h nodup_q (child_of w Hw) (child_of w' Hw2) Hh Hh') in Hns.
Qed.

(** No allocation node among the siblings: they all move. *)
Lemma move_plain : (forall w, w ∈ l ++ r -> nested (iv d) w /\ troot w <> a) ->
  exists d2 c2, offsetSiblings sd fuel a (troot y) off (ctx d1 c1) = (Ok tt, ctx d2 c2) /\ good d2 c2 /\
    tiles (sd_lo sd off s) (map (fun w => iv d2 (troot w)) (tsubs q)) (sd_hi sd off e) /\
    (forall w, w ∈ tsubs q -> nested (iv d2) w) /\
    (forall w, w ∈ l ++ r -> len (iv d2 (troot w)) = len (iv d (troot w))) /\
    (forall h, h ∈ nodes y -> iv d2 h = iv d1 h) /\
    (forall h, (forall w, w ∈ tsubs q -> h ∉ nodes w) -> iv d2 h = iv d h).
Proof.
  intros Hw. rewrite (offsetSiblings_ctx d1 c1 q l y r off Hg1 Hq Hsubs).
  rewrite <- (app_nil_r (map troot _)).
  destruct (offset_siblings_ok t st0 fuel Hsh Hsmall Hfuel sd a off (sd_siblings sd (l, r)) d1 c1 [] Hg1)
    as (d2 & c2 & Hl & Hg2 & Hsf & Hf).
  { intros w Hws. destruct (Hw w (siblings_elem _ _ _ _ Hws)). by apply sibs_shiftable. }
  { eapply siblings_nodup; [apply nodup_q|done]. }
  exists d2, c2. split; [exact Hl|]. split; [done|].
  pose proof (frame_y d2 Hf) as Hfy.
  assert (Hsib : forall w, w ∈ sd_siblings sd (l, r) -> iv d2 (troot w) = zshift sd off (iv d (troot w)) /\ nested (iv d2) w).
  { intros w Hws. destruct (Hsf w Hws) as [E1 E2]. split; [|done].
    by rewrite E1, (sibling_same w) by (try apply self_node; by eapply siblings_elem). }
  assert (Hdec : forall w, w ∈ l ++ r -> w ∈ sd_siblings sd (l, r) \/ (w ∉ sd_siblings sd (l, r) /\ iv d2 (troot w) = iv d (troot w) /\ nested (iv d2) w)).
  { intros w Hlr. assert (Hd : w ∈ sd_siblings sd (l, r) \/ w ∉ sd_siblings sd (l, r)).
    { destruct (decide (troot w ∈ map troot (sd_siblings sd (l, r)))) as [(w' & E & Hw')%list_elem_of_fmap|Hn].
      - left. apply (subtree_unique q) in E as ->; [done|apply nodup_q|by apply subtrees_child, child_of|].
        apply subtrees_child, child_of. by eapply siblings_elem.
      - right. intros Hin. apply Hn, list_elem_of_fmap. eauto. }
    destruct Hd as [?|Hns]; [by left|right]. split; [done|]. pose proof (other_side d2 w Hf Hlr Hns) as Ho.
    split; [apply Ho, self_node|]. apply (nested_ext (iv d)); [|by apply Hw]. intros h Hh. symmetry. by apply Ho. }
  split_and!; [| | |done|].
  - pose proof (tiles_move sd off s _ _ _ e tiles_list Hoff) as Ht. rewrite Hsubs, map_app. cbn [map].
    rewrite (Hfy _ (self_node y)), Hy1. destruct sd; cbn [sd_left sd_right sd_siblings fst snd] in *.
    + rewrite map_map in Ht. erewrite map_ext_in; [erewrite (map_ext_in _ _ r); [exact Ht|]|]; intros w Hin%list_elem_of_In; cbn.
      * destruct (Hdec w) as [Hws|(_ & E & _)]; [set_solver| |done].
        apply list_elem_of_In, in_rev, list_elem_of_In in Hws.
        exfalso. pose proof (nodup_children q nodup_q) as Hnd. rewrite Hsubs, map_app in Hnd.
        apply NoDup_app in Hnd as (_ & Hd & _). apply (Hd (troot w)); [apply list_elem_of_fmap; eauto|]. cbn [map]. right.
        apply list_elem_of_fmap. eauto.
      * apply Hsib. by apply list_elem_of_In, in_rev; rewrite rev_involutive; apply list_elem_of_In.
    + rewrite map_map in Ht. erewrite map_ext_in; [erewrite (map_ext_in _ _ r); [exact Ht|]|]; intros w Hin%list_elem_of_In; cbn.
      * by apply Hsib.
      * destruct (Hdec w) as [Hws|(_ & E & _)]; [set_solver| |done].
        exfalso. pose proof (nodup_children q nodup_q) as Hnd. rewrite Hsubs, map_app in Hnd.
        apply NoDup_app in Hnd as (_ & Hd & _). apply (Hd (troot w)); [apply list_elem_of_fmap; eauto|]. cbn [map]. right.
        apply list_elem_of_fmap. eauto.
  - intros w Hin. rewrite Hsubs, elem_of_app, elem_of_cons in Hin.
    assert (Hc : w = y \/ w ∈ l ++ r) by (rewrite elem_of_app; naive_solver). destruct Hc as [->|Hc].
    + apply (nested_ext (iv d1)); [|done]. intros h Hh. symmetry. by apply Hfy.
    + destruct (Hdec w Hc) as [Hws|(_ & _ & ?)]; [by apply Hsib|done].
  - intros w Hc. destruct (Hdec w Hc) as [Hws|(_ & -> & _)]; [|done]. destruct (Hsib w Hws) as [-> _]. apply len_zshift.
  - intros h Hh. rewrite Hf.
    + apply Hframe1, Hh. rewrite Hsubs. set_solver.
    + intros w Hws. apply Hh, child_of. by eapply siblings_elem.
Qed.

Lemma grow_range x : x ∈ sd_siblings sd (l, r) -> in_range (zgrow sd off (iv d (troot x))).
Proof.
  intros Hx. pose proof tiles_list as Ht. unfold len in Hoff.
  apply tiles_app in Ht as (m & Hl & Hys & Hye & Hr). unfold in_range. destruct sd; cbn in *.
  - apply list_elem_of_In, in_rev, list_elem_of_In in Hx.
    apply (tiles_elem _ _ _ (iv d (troot x))) in Hl; [|apply list_elem_of_fmap; eauto].
    pose proof (tiles_le _ _ _ Hr). lia.
  - apply (tiles_elem _ _ _ (iv d (troot x))) in Hr; [|apply list_elem_of_fmap; eauto].
    pose proof (tiles_le _ _ _ Hl). lia.
Qed.

Lemma map_iv_ext d' g (k : list tree) : (forall w, w ∈ k -> iv d' (troot w) = g (iv d (troot w))) ->
  map (fun w => iv d' (troot w)) k = map g (map (fun w => iv d (troot w)) k).
Proof. intros Hk. rewrite map_map. apply map_ext_in. intros w Hw%list_elem_of_In. by apply Hk. Qed.

Lemma map_iv_id d' (k : list tree) : (forall w, w ∈ k -> iv d' (troot w) = iv d (troot w)) ->
  map (fun w => iv d' (troot w)) k = map (fun w => iv d (troot w)) k.
Proof. intros Hk. apply map_ext_in. intros w Hw%list_elem_of_In. by apply Hk. Qed.

Lemma tiles_alloc d2 pre x post : sd_siblings sd (l, r) = pre ++ x :: post ->
  (forall w, w ∈ pre -> iv d2 (troot w) = zshift sd off (iv d (troot w))) ->
  iv d2 (troot x) = zgrow sd off (iv d (troot x)) ->
  (forall w, w ∈ l ++ r -> w ∉ pre ++ [x] -> iv d2 (troot w) = iv d (troot w)) ->
  iv d2 (troot y) = zshrink sd off (iv d (troot y)) ->
  tiles s (map (fun w => iv d2 (troot w)) (tsubs q)) e.
Proof.
  intros Es Hpre Hx Hother Hy2. pose proof tiles_list as Ht.
  assert (Hnd : NoDup (l ++ r)).
  { pose proof (nodup_children q nodup_q) as Hnd. rewrite Hsubs in Hnd. apply NoDup_fmap_1 in Hnd.
    rewrite NoDup_app in Hnd |- *. destruct Hnd as (H1 & H2 & H3). apply NoDup_cons in H3 as [_ H3].
    split; [done|]. split; [|done]. intros w Hw Hw'. apply (H2 w Hw). by right. }
  destruct sd; cbn in Es.
  - assert (El : l = rev post ++ x :: rev pre).
    { apply (f_equal (@rev tree)) in Es. rewrite rev_involutive, rev_app_distr in Es. cbn in Es. by rewrite <- app_assoc in Es. }
    rewrite El in Ht, Hnd, Hother. rewrite <- app_assoc in Hnd. apply NoDup_app in Hnd as (_ & Hd1 & Hnd). cbn [app] in Hnd.
    apply NoDup_cons in Hnd as [Hx1 Hnd]. apply NoDup_app in Hnd as (_ & Hd2 & _).
    rewrite map_app in Ht. cbn [map] in Ht. rewrite <- app_assoc in Ht. cbn [app] in Ht.
    apply (tiles_alloc_before off) in Ht; [|done].
    rewrite Hsubs, El, !map_app. cbn [map]. rewrite <- app_assoc. cbn [app].
    rewrite Hx, Hy2, (map_iv_ext d2 (zshift Before off) (rev pre)), (map_iv_id d2 (rev post)), (map_iv_id d2 r).
    + exact Ht.
    + intros w Hw. apply Hother; [set_solver|]. intros [Hp|Hp%list_elem_of_singleton]%elem_of_app; [|subst w].
      * apply (Hd2 w); [|done]. by apply list_elem_of_In, in_rev; rewrite rev_involutive; apply list_elem_of_In.
      * apply Hx1. set_solver.
    + intros w Hw. apply Hother; [set_solver|]. intros Hp. apply (Hd1 w Hw). cbn [app].
      apply elem_of_app in Hp as [Hp|Hp%list_elem_of_singleton]; [|subst w; left].
      right. apply elem_of_app. left. by apply list_elem_of_In, in_rev; rewrite rev_involutive; apply list_elem_of_In.
    + intros w Hw. apply Hpre. by apply list_elem_of_In, in_rev, list_elem_of_In in Hw.
  - rewrite Es in Ht, Hnd, Hother. apply NoDup_app in Hnd as (_ & Hd1 & Hnd). apply NoDup_app in Hnd as (_ & Hd2 & Hnd).
    apply NoDup_cons in Hnd as [Hx1 _].
    rewrite map_app in Ht. cbn [map] in Ht. apply (tiles_alloc_after off) in Ht; [|done].
    rewrite Hsubs, Es, !map_app. cbn [map]. rewrite !map_app. cbn [map].
    rewrite Hx, Hy2, (map_iv_ext d2 (zshift After off) pre), (map_iv_id d2 l), (map_iv_id d2 post).
    + exact Ht.
    + intros w Hw. apply Hother; [set_solver|]. intros [Hp|Hp%list_elem_of_singleton]%elem_of_app; [|by subst w].
      apply (Hd2 w Hp). by right.
    + intros w Hw. apply Hother; [set_solver|]. intros Hp. apply (Hd1 w Hw). set_solver.
    + done.
Qed.

(** The allocation node [x] is a sibling on the side that moves. *)
Lemma move_alloc pre x post : sd_siblings sd (l, r) = pre ++ x :: post -> troot x = a ->
  tsize x <= len (iv d a) + off -> (forall w, w ∈ l ++ r -> w <> x -> nested (iv d) w) ->
  exists d2 c2, offsetSiblings sd fuel a (troot y) off (ctx d1 c1) = (Ok tt, ctx d2 c2) /\ good d2 c2 /\
    tiles s (map (fun w => iv d2 (troot w)) (tsubs q)) e /\
    (forall w, w ∈ tsubs q -> nested (iv d2) w) /\
    (forall w, w ∈ l ++ r -> w <> x -> len (iv d2 (troot w)) = len (iv d (troot w))) /\
    len (iv d2 a) = len (iv d a) + off /\
    (forall h, h ∈ nodes y -> iv d2 h = iv d1 h) /\
    (forall h, (forall w, w ∈ tsubs q -> h ∉ nodes w) -> iv d2 h = iv d h).
Proof.
  intros Es Hxa Hxs Hw. rewrite (offsetSiblings_ctx d1 c1 q l y r off Hg1 Hq Hsubs), Es, map_app. cbn [map].
  assert (Hsibs : forall w, w ∈ pre ++ [x] -> w ∈ sd_siblings sd (l, r)) by (rewrite Es; set_solver).
  assert (Hlr : forall w, w ∈ pre ++ [x] -> w ∈ l ++ r) by (intros w Hp; eapply siblings_elem, Hsibs, Hp).
  assert (Hxq : x ∈ tsubs q) by (apply child_of, Hlr; set_solver).
  assert (Hnd : NoDup (concat (map nodes (pre ++ x :: post)))) by (rewrite <- Es; eapply siblings_nodup; [apply nodup_q|done]).
  assert (Hprex : forall w h, w ∈ pre -> h ∈ nodes w -> h ∉ nodes x).
  { intros w h Hp Hh Hhx. rewrite map_app, concat_app in Hnd. cbn [map concat] in Hnd.
    apply NoDup_app in Hnd as (_ & Hd & _). apply (Hd h); [apply elem_of_concat_map; eauto|]. apply elem_of_app. by left. }
  assert (Hpx : forall w, w ∈ pre -> w <> x) by (intros w Hp ->; by apply (Hprex x (troot x) Hp (self_node x) (self_node x))).
  destruct (offset_siblings_ok t st0 fuel Hsh Hsmall Hfuel sd a off pre d1 c1 (troot x :: map troot post) Hg1)
    as (d2 & c2 & Hl & Hg2 & Hsf & Hf).
  { intros w Hp. apply sibs_shiftable; [apply Hsibs; set_solver|apply Hw; [apply Hlr; set_solver|by apply Hpx]|].
    intros E. apply (Hprex w (troot w) Hp (self_node w)). rewrite E, <- Hxa. apply self_node. }
  { rewrite map_app, concat_app in Hnd. by apply NoDup_app in Hnd as (Hnd & _). }
  assert (Hx2 : iv d2 a = iv d a).
  { rewrite <- Hxa, Hf by (intros w Hp Hh; by apply (Hprex w _ Hp Hh (self_node x))).
    apply (sibling_same x); [apply Hlr; set_solver|apply self_node]. }
  destruct (offset_alloc_ok t st0 fuel Hsh Hsmall Hfuel sd a off d2 c2 x (map troot post) Hg2)
    as (d3 & c3 & Hl3 & Hg3 & Hi3 & Hn3 & Hf3).
  { by apply (subtrees_down t q). }
  { done. }
  { rewrite Hx2, <- Hxa. apply grow_range, Hsibs. set_solver. }
  { by rewrite Hx2. }
  exists d3, c3. split; [by rewrite Hl, Hxa|]. split; [done|].
  assert (Hpre3 : forall w, w ∈ pre -> iv d3 (troot w) = zshift sd off (iv d (troot w)) /\ nested (iv d3) w).
  { intros w Hp. destruct (Hsf w Hp) as [E1 E2]. split.
    - rewrite Hf3 by (by apply (Hprex w), self_node). rewrite E1.
      by rewrite (sibling_same w) by (try apply self_node; apply Hlr; set_solver).
    - apply (nested_ext (iv d2)); [|done]. intros h Hh. symmetry. apply Hf3. by apply (Hprex w). }
  assert (Hkeep : forall h, (forall w, w ∈ pre ++ [x] -> h ∉ nodes w) -> iv d3 h = iv d1 h).
  { intros h Hh. rewrite Hf3 by (apply Hh; set_solver). apply Hf. intros w Hp. apply Hh. set_solver. }
  assert (Hother : forall w, w ∈ l ++ r -> w ∉ pre ++ [x] -> forall h, h ∈ nodes w -> iv d3 h = iv d h).
  { intros w Hin Hnot h Hh. rewrite Hkeep; [by apply (sibling_same w)|]. intros w' Hw' Hh'.
    apply Hnot. by rewrite (child_unique q w w' h nodup_q (child_of w Hin) (child_of w' (Hlr w' Hw')) Hh Hh'). }
  assert (Hy3 : forall h, h ∈ nodes y -> iv d3 h = iv d1 h).
  { intros h Hh. apply Hkeep. intros w Hp Hhw. by eapply other_child; [apply nodup_q|done|by apply Hlr|done|done]. }
  assert (Hdec : forall w, w ∈ l ++ r -> w = x \/ w ∈ pre \/ w ∉ pre ++ [x]).
  { intros w Hin. destruct (decide (troot w ∈ map troot (pre ++ [x]))) as [(w' & E & Hw')%list_elem_of_fmap|Hn].
    - apply (subtree_unique q) in E as ->; [|apply nodup_q|by apply subtrees_child, child_of|by apply subtrees_child, child_of, Hlr].
      apply elem_of_app in Hw' as [?|?%list_elem_of_singleton]; [by right; left|by left].
    - right. right. intros Hp. apply Hn, list_elem_of_fmap. eauto. }
  split_and!; [| | | |done|].
  - apply (tiles_alloc d3 pre x post); try done.
    + intros w Hp. by apply Hpre3.
    + by rewrite Hxa, Hi3, Hx2.
    + intros w Hin Hnot. apply (Hother w); [done|done|apply self_node].
    + rewrite Hy3 by apply self_node. done.
  - intros w Hin. rewrite Hsubs, elem_of_app, elem_of_cons in Hin.
    assert (Hc : w = y \/ w ∈ l ++ r) by (rewrite elem_of_app; naive_solver). destruct Hc as [->|Hc].
    + apply (nested_ext (iv d1)); [|done]. intros h Hh. symmetry. by apply Hy3.
    + destruct (Hdec w Hc) as [->|[Hp|Hn]]; [done|by apply Hpre3|].
      assert (w <> x) by (intros ->; set_solver).
      apply (nested_ext (iv d)); [|by apply Hw]. intros h Hh. symmetry. by apply (Hother w).
  - intros w Hc Hne. destruct (Hdec w Hc) as [->|[Hp|Hn]]; [done| |].
    + destruct (Hpre3 w Hp) as [-> _]. apply len_zshift.
    + by rewrite (Hother w Hc Hn) by apply self_node.
  - by rewrite Hi3, Hx2, len_zgrow.
  - intros h Hh. rewrite Hkeep by (intros w Hp; apply Hh, child_of, Hlr, Hp). apply Hframe1, Hh. rewrite Hsubs. set_solver.
Qed.

End moves.

(** * Room along the chain

    A node above the reindex root [r] leaves at most the slack free at each end,
    and its children that are not on the chain have at most the slack and twice
    the size of their subtree. *)

Definition local_cap (slk : Z) (f : bytes -> ReachabilityInterval) (r : bytes) (z : tree) : Prop :=
  exists s e, Start (f (troot z)) <= s <= Start (f (troot z)) + slk /\
    End (f (troot z)) - slk <= e <= End (f (troot z)) /\
    tiles s (map (fun w => f (troot w)) (tsubs z)) e /\
    forall w, w ∈ tsubs z -> r ∉ nodes w -> len (f (troot w)) <= slk + 2 * tsize w.

Definition capped (slk : Z) (f : bytes -> ReachabilityInterval) (r : bytes) (y : tree) : Prop :=
  forall z, z ∈ subtrees y -> r ∈ nodes z -> troot z <> r -> local_cap slk f r z.

Lemma local_cap_ext slk f g r z : (forall h, h = troot z \/ h ∈ map troot (tsubs z) -> f h = g h) ->
  local_cap slk f r z -> local_cap slk g r z.
Proof.
  intros E (s & e & H1 & H2 & H3 & H4). exists s, e. rewrite <- (E (troot z)) by (by left). split_and!; [lia..| |].
  - erewrite map_ext_in; [exact H3|]. intros w Hw%list_elem_of_In. symmetry. apply E. right. apply list_elem_of_fmap. eauto.
  - intros w Hw Hr. rewrite <- E by (right; apply list_elem_of_fmap; eauto). by apply H4.
Qed.

Lemma capped_ext slk f g r y : (forall h, h ∈ nodes y -> f h = g h) -> capped slk f r y -> capped slk g r y.
Proof.
  intros E Hc z Hz Hr Hne. apply (local_cap_ext slk f); [|by apply Hc]. intros h Hh. apply E, nodes_subtrees.
  destruct Hh as [->|(w & -> & Hw)%list_elem_of_fmap]; [eauto|]. exists w. split; [by apply (subtrees_down y z)|done].
Qed.

Lemma capped_child slk f r y w : capped slk f r y -> w ∈ tsubs y -> capped slk f r w.
Proof. intros Hc Hw z Hz. apply Hc. apply (subtrees_trans y w); [done|by apply subtrees_child]. Qed.

(** The reindex root keeps all of the interval but the slack and twice the
    blocks outside its subtree. *)
Lemma capped_root slk f y x : 0 <= slk -> NoDup (nodes y) -> nested f y -> capped slk f (troot x) y -> x ∈ subtrees y ->
  len (f (troot y)) - (2 * slk + 2) * (tsize y - tsize x) <= len (f (troot x)).
Proof.
  intros Hslk. induction y as [h cs IH] using tree_induction. intros Hnd Hn Hc Hx.
  apply subtrees_inv in Hx as Hx'. destruct Hx' as [->|(w & Hw & Hxw)]; [lia|].
  assert (Hxn : forall v, x ∈ subtrees v -> troot x ∈ nodes v) by (intros v Hv; apply nodes_subtrees; eauto).
  assert (Hne : troot (Node h cs) <> troot x) by (intros E; symmetry in E; by apply (nodup_root _ w x Hnd Hw Hxw)).
  destruct (Hc _ (subtrees_self _) (Hxn _ Hx) Hne) as (s & e & Hs & He & Ht & Hl).
  specialize (IH w Hw (nodup_child _ w Hnd Hw) (nested_child _ _ w Hn Hw) (capped_child _ _ _ _ w Hc Hw) Hxw).
  cbn [tsubs] in *. apply list_elem_of_split in Hw as Hs'. destruct Hs' as (l1 & l2 & ->).
  apply tiles_len in Ht. rewrite map_app in Ht. cbn [map] in Ht. rewrite sumZ_app in Ht. cbn [sumZ foldr] in Ht.
  fold (sumZ len (map (fun w => f (troot w)) l2)) in Ht. rewrite (tsize_eq (Node h _)). cbn [tsubs].
  rewrite sumZ_app. cbn [sumZ foldr]. fold (sumZ tsize l2).
  assert (Hside : forall k, (forall v, v ∈ k -> v ∈ l1 ++ l2) ->
    sumZ len (map (fun w => f (troot w)) k) <= (slk + 2) * sumZ tsize k).
  { intros k Hk. induction k as [|v k IHk]; [cbn; lia|]. cbn [map sumZ foldr].
    fold (sumZ len (map (fun w => f (troot w)) k)). fold (sumZ tsize k).
    assert (Hv : len (f (troot v)) <= slk + 2 * tsize v).
    { apply Hl; [specialize (Hk v ltac:(left)); set_solver|]. intros Hr.
      by apply (other_child (Node h (l1 ++ w :: l2)) l1 w l2 v (troot x) Hnd eq_refl (Hk v ltac:(left)) Hr), Hxn. }
    pose proof (tsize_pos v). assert (sumZ len (map (fun w => f (troot w)) k) <= (slk + 2) * sumZ tsize k).
    { apply IHk. intros v' Hv'. apply Hk. by right. }
    nia. }
  pose proof (Hside l1 ltac:(set_solver)). pose proof (Hside l2 ltac:(set_solver)).
  pose proof (tsize_subtree w x Hxw). pose proof (sumZ_tsize_nonneg l1). pose proof (sumZ_tsize_nonneg l2).
  unfold len at 1. nia.
Qed.

(** Changing the interval of the root of a subtree. *)
Section set_root.
Variable d : gmap bytes reachabilityData.
Variable y : tree.
Variable i : ReachabilityInterval.
Context (Hnd : NoDup (nodes y)) (Hhas : has_interval d (troot y)).

Lemma set_root_below h w : w ∈ tsubs y -> h ∈ nodes w -> iv (set_iv (troot y) i d) h = iv d h.
Proof.
  intros Hw (z & Hz & <-)%nodes_subtrees. apply iv_set_ne. intros E. symmetry in E. by apply (nodup_root y w z Hnd Hw Hz).
Qed.

Lemma set_root_map : map (fun w => iv (set_iv (troot y) i d) (troot w)) (tsubs y) = map (fun w => iv d (troot w)) (tsubs y).
Proof. apply map_ext_in. intros w Hw%list_elem_of_In. apply (set_root_below _ w); [done|apply self_node]. Qed.

Lemma nested_set s e : (forall w, w ∈ tsubs y -> nested (iv d) w) ->
  tiles s (map (fun w => iv d (troot w)) (tsubs y)) e -> Start i <= s -> e <= End i ->
  1 <= Start i <= End i -> End i < 2 ^ 64 - 1 -> nested (iv (set_iv (troot y) i d)) y.
Proof.
  intros Hw Ht Hs He Hi Hi2 z [->|(w & Hwy & Hz)]%subtrees_inv.
  - constructor; rewrite ?iv_set_eq by done; [lia..|]. exists s, e. rewrite set_root_map. done.
  - apply (nested_ext (iv d) _ w); [|by apply Hw|done]. intros h Hh. symmetry. by apply (set_root_below _ w).
Qed.

Lemma capped_set slk r s e w : w ∈ tsubs y -> r ∈ nodes w -> capped slk (iv d) r w ->
  tiles s (map (fun w => iv d (troot w)) (tsubs y)) e -> Start i <= s <= Start i + slk -> End i - slk <= e <= End i ->
  (forall v, v ∈ tsubs y -> r ∉ nodes v -> len (iv d (troot v)) <= slk + 2 * tsize v) ->
  capped slk (iv (set_iv (troot y) i d)) r y.
Proof.
  intros Hw Hr Hc Ht Hs He Hl z [->|(v & Hv & Hz)]%subtrees_inv Hrz Hne.
  - exists s, e. rewrite iv_set_eq, set_root_map by done. split_and!; [lia..|done|]. intros v Hv Hrv.
    rewrite (set_root_below _ v) by (done || apply self_node). by apply Hl.
  - pose proof (nodes_sub v z r Hz Hrz) as Hrv.
    assert (v = w) as -> by (by apply (child_unique y v w r)).
    apply (capped_ext slk (iv d) _ r w); [|done|done|done|done]. intros h Hh. symmetry. by apply (set_root_below _ w).
Qed.

End set_root.

(** * The walk *)

Section walk.
Context `{FloatConversion}.
Variable t : tree.
Variable st0 : reach_store.
Variable rt : reachabilityManager.
Variable fuel : nat.
Context (Hsh : shaped (rs_data st0) t) (Hsmall : tsize t < 2 ^ 64) (Hfuel : tsize t <= Z.of_nat fuel).
Variable sd : side.
Variables a ca : bytes.
Variable xr : tree.
Variables req bound : Z.
Abbreviation slk := (reindexSlack rt).
Context (Hslk : 0 <= slk) (Hbound : 0 <= bound < 2 ^ 63) (Hreq : 0 < req) (Hfits : req + slk * bound + slk < 2 ^ 64).

Abbreviation good := (good t st0).
Abbreviation ctx := (ctx st0).

(** The state in which a walk arrives at [y] with a sum of slacks and a path
    length. *)
Record arrives (y : tree) (d : gmap bytes reachabilityData) (c : gmap bytes Z) (slackSum pathLen : Z) : Prop := {
  ar_in : y ∈ subtrees t;
  ar_root : xr ∈ subtrees y;
  ar_off : forall z, z ∈ subtrees y -> troot z <> ca /\ troot z <> a;
  ar_good : good d c;
  ar_nested : nested (iv d) y;
  ar_capped : capped slk (iv d) (troot xr) y;
  ar_sum : 0 <= slackSum < req;
  ar_len : 0 <= pathLen /\ pathLen + (tsize y - tsize xr) <= bound;
  ar_room : tsize xr + req + slk * bound <= len (iv d (troot xr))
}.

(** What the walk did below [y]: the node gives up [off] of its interval. *)
Record gives (y : tree) (d d1 : gmap bytes reachabilityData) (c1 : gmap bytes Z)
    (slackSum pathLen off alloc : Z) : Prop := {
  gv_good : good d1 c1;
  gv_alloc : 0 <= alloc <= slk;
  gv_off : off = req + alloc * pathLen - slackSum;
  gv_range : 0 <= off <= len (iv d (troot y));
  gv_interval : iv d1 (troot y) = zshrink sd off (iv d (troot y));
  gv_nested : nested (iv d1) y;
  gv_capped : capped slk (iv d1) (troot xr) y;
  gv_frame : forall h, h ∉ nodes y -> iv d1 h = iv d h
}.

Definition up_and_down (walk back : nat) (y : tree) (slackSum pathLen : Z) : RC unit :=
  bind (reclaim_up sd rt fuel walk a (troot y) (troot xr) req slackSum pathLen)
    (fun p => reclaim_down sd fuel back a (fst p) ca (snd p)).

Definition rest (back : nat) (y : tree) (off alloc : Z) : RC unit :=
  bind (offsetSiblings sd fuel a (troot y) off) (fun _ => reclaim_down sd fuel back a (troot y) ca alloc).

Lemma nodup_below y : y ∈ subtrees t -> NoDup (nodes y).
Proof. apply nodup_subtree, Hsh. Qed.

(** The reindex root itself. *)
Lemma walk_root walk back d c slackSum pathLen : arrives xr d c slackSum pathLen ->
  exists d1 c1, up_and_down (S walk) back xr slackSum pathLen (ctx d c) =
      rest back xr (req + slk * pathLen - slackSum) slk (ctx d1 c1) /\
    gives xr d d1 c1 slackSum pathLen (req + slk * pathLen - slackSum) slk.
Proof.
  intros [H1 H2 H3 H4 H5 H6 H7 [H8 H8'] H9]. set (off := req + slk * pathLen - slackSum).
  assert (Hp : slk * pathLen <= slk * bound) by (apply Z.mul_le_mono_nonneg_l; lia).
  assert (Hp0 : 0 <= slk * pathLen) by lia.
  pose proof (tsize_pos xr). pose proof (nested_in_range _ xr H5) as Hr. set (i := iv d (troot xr)) in *.
  assert (Hoff : 0 <= off <= len i - tsize xr) by lia.
  assert (Hi : in_range (zshrink sd off i)).
  { destruct Hr as (Hr1 & Hr2 & Hr3). unfold in_range, len in *. destruct sd; cbn; lia. }
  destruct (relayout t st0 fuel Hsh Hsmall Hfuel d c xr (zshrink sd off i)) as (d1 & c1 & Hpr & Hg1 & Hi1 & Hn1 & Hf1);
    [done|done|done|rewrite len_zshrink; lia|].
  exists d1, c1. split.
  - unfold up_and_down, rest. cbn [reclaim_up]. unfold bytes_eqb. rewrite bool_decide_true by done. rewrite !bind_assoc.
    erewrite bind_ok by (by apply (interval_ctx t)). rewrite !bind_assoc. erewrite bind_ok by reflexivity.
    fold i. rewrite (uint64_id (slk * pathLen)), (uint64_id (req + slk * pathLen)), (uint64_id (_ - slackSum)) by (fold off; lia).
    fold off. rewrite sd_shrink_z by done. rewrite !bind_assoc. erewrite bind_ok by (by apply (stage_ctx t)).
    rewrite !bind_assoc. erewrite bind_ok by exact Hpr. rewrite !bind_assoc. apply bind_cong; done.
  - constructor; try done; try (fold i; lia).
    intros z Hz Hrz Hne. exfalso. apply subtrees_inv in Hz as [->|(w & Hw & Hz)]; [done|].
    apply nodes_subtrees in Hrz as (u & Hu & E). apply (nodup_root xr w u (nodup_below xr H1) Hw); [by eapply subtrees_trans|done].
Qed.

(** A node with enough slack. *)
Lemma walk_stop walk back y d c slackSum pathLen s e :
  arrives y d c slackSum pathLen -> troot y <> troot xr ->
  tiles s (map (fun w => iv d (troot w)) (tsubs y)) e ->
  Start (iv d (troot y)) <= s <= Start (iv d (troot y)) + slk -> End (iv d (troot y)) - slk <= e <= End (iv d (troot y)) ->
  tsubs y <> [] -> req <= slackSum + slack_of sd (iv d (troot y)) s e ->
  exists d1, up_and_down (S walk) back y slackSum pathLen (ctx d c) = rest back y (req - slackSum) 0 (ctx d1 c) /\
    gives y d d1 c slackSum pathLen (req - slackSum) 0.
Proof.
  intros [H1 H2 H3 H4 H5 H6 H7 [H8 H8'] H9] Hne Ht Hs He Hsub Hen.
  pose proof (nested_in_range _ y H5) as Hr. pose proof (good_shaped t st0 Hsh d c H4) as Hshd.
  pose proof (slack_ok sd (with_data st0 d) t y s e Hshd H1 Hsub Hr (proj1 Hs) (proj2 He) Ht) as Hslack.
  cbn [rs_data with_data] in Hslack. set (i := iv d (troot y)) in *. set (sl := slack_of sd i s e) in *.
  pose proof (tiles_le _ _ _ Ht) as Hse. destruct Hr as (Hr1 & Hr2 & Hr3).
  assert (Hsl : 0 <= sl <= slk) by (unfold sl, slack_of; destruct sd; lia).
  set (off := req - slackSum). assert (Hoff : 0 <= off <= sl) by lia.
  assert (Hz : 1 <= Start (zshrink sd off i) <= End (zshrink sd off i) /\ End (zshrink sd off i) < 2 ^ 64 - 1 /\
    Start (zshrink sd off i) <= s <= Start (zshrink sd off i) + slk /\
    End (zshrink sd off i) - slk <= e <= End (zshrink sd off i)).
  { unfold sl, slack_of in *. pose proof (lo_nonempty _ _ (H5 y (subtrees_self y))) as Hnonempty. fold i in Hnonempty.
    destruct sd; cbn; lia. }
  assert (0 <= slk * bound) by lia.
  exists (set_iv (troot y) (zshrink sd off i) d). split.
  - unfold up_and_down, rest. cbn [reclaim_up]. unfold bytes_eqb. rewrite bool_decide_false by done. rewrite !bind_assoc.
    erewrite bind_ok by (apply mview_ctx; exact Hslack). rewrite (uint64_id (slackSum + sl)) by lia.
    rewrite (proj2 (Z.geb_le _ _)) by lia. rewrite !bind_assoc. erewrite bind_ok by (by apply (interval_ctx t)).
    rewrite !bind_assoc. erewrite bind_ok by reflexivity. rewrite (uint64_id (slackSum + sl - req)) by lia.
    replace (sl - (slackSum + sl - req)) with off by lia. rewrite (uint64_id off) by lia. fold i.
    rewrite sd_shrink_z by (unfold in_range; lia). rewrite !bind_assoc. erewrite bind_ok by (by apply (stage_ctx t)).
    rewrite !bind_assoc. apply bind_cong; done.
  - assert (Hhas : has_interval d (troot y)) by (by apply (good_has t st0 Hsh d c)).
    constructor.
    + by apply good_set.
    + lia.
    + lia.
    + fold i. unfold sl, slack_of, len in *. destruct sd; lia.
    + by rewrite iv_set_eq.
    + apply (nested_set d y _ (nodup_below y H1) Hhas s e); try lia; [|done].
      intros w Hw. by apply (nested_child _ y).
    + apply subtrees_inv in H2 as [->|(w & Hw & Hxw)]; [done|].
      assert (Hrw : troot xr ∈ nodes w) by (apply nodes_subtrees; eauto).
      apply (capped_set d y _ (nodup_below y H1) Hhas slk (troot xr) s e w); try done; try lia.
      * by apply (capped_child _ _ _ y).
      * intros v Hv Hrv. destruct (H6 y (subtrees_self y)) as (_ & _ & _ & _ & _ & Hl); [|done|by apply Hl].
        apply nodes_subtrees. exists xr. split; [|done]. apply (subtrees_trans y w); [done|by apply subtrees_child].
    + intros h Hh. apply iv_set_ne. intros <-. apply Hh, self_node.
Qed.

(** The way back through [y], after its child [y'] on the chain gave up [off']. *)
Lemma walk_back back y l y' r d d1 c1 slackSum pathLen s e off' alloc :
  y ∈ subtrees t -> tsubs y = l ++ y' :: r -> xr ∈ subtrees y' ->
  (forall z, z ∈ subtrees y -> troot z <> ca /\ troot z <> a) -> nested (iv d) y -> 0 <= slackSum ->
  0 <= pathLen -> slackSum + slack_of sd (iv d (troot y)) s e < req -> pathLen <= bound ->
  tiles s (map (fun w => iv d (troot w)) (tsubs y)) e ->
  Start (iv d (troot y)) <= s <= Start (iv d (troot y)) + slk -> End (iv d (troot y)) - slk <= e <= End (iv d (troot y)) ->
  (forall w, w ∈ tsubs y -> troot xr ∉ nodes w -> len (iv d (troot w)) <= slk + 2 * tsize w) ->
  gives y' d d1 c1 (slackSum + slack_of sd (iv d (troot y)) s e) (pathLen + 1) off' alloc ->
  exists d3 c3, rest (S back) y' off' alloc (ctx d1 c1) =
      rest back y (req + alloc * pathLen - slackSum) alloc (ctx d3 c3) /\
    gives y d d3 c3 slackSum pathLen (req + alloc * pathLen - slackSum) alloc.
Proof.
  intros Hy Hsubs Hxr Hoffc Hn Hss Hpl Hins Hpb Ht Hs He Hl [G1 G2 G3 G4 G5 G6 G7 G8].
  set (i := iv d (troot y)) in *. set (sl := slack_of sd i s e) in *.
  pose proof (nested_in_range _ y Hn) as (Hr1 & Hr2 & Hr3). pose proof (tiles_le _ _ _ Ht) as Hse.
  pose proof (lo_nonempty _ _ (Hn y (subtrees_self y))) as Hnonempty. fold i in Hr1, Hr2, Hr3, Hnonempty.
  pose proof (nodup_below y Hy) as Hnd.
  assert (Hcy' : y' ∈ tsubs y) by (rewrite Hsubs; set_solver).
  destruct (move_plain t st0 fuel Hsh Hsmall Hfuel sd a y l y' r Hy Hsubs d d1 c1 s e off' G1 Ht) as
    (d2 & c2 & Hmv & Hg2 & Ht2 & Hn2 & Hl2 & Hy2 & Hf2); [lia|lia|done|done|done|done| |].
  { intros w Hw. assert (Hwy : w ∈ tsubs y) by (rewrite Hsubs; set_solver). split; [by apply (nested_child _ y)|].
    apply Hoffc. by apply subtrees_child. }
  assert (Eiy : iv d2 (troot y) = i).
  { apply Hf2. intros w Hw Hh. apply nodes_subtrees in Hh as (z & Hz & E). by apply (nodup_root y w z Hnd Hw Hz). }
  set (s2 := sd_lo sd off' s) in *. set (e2 := sd_hi sd off' e) in *.
  pose proof (tiles_le _ _ _ Ht2) as Hse2. set (off := req + alloc * pathLen - slackSum).
  assert (Hsl0 : 0 <= sl <= slk) by (unfold sl, slack_of; destruct sd; lia).
  assert (Hsl2 : slack_of sd i s2 e2 = sl + off') by (unfold sl, s2, e2, slack_of, sd_lo, sd_hi; destruct sd; lia).
  assert (Hoff : off = sl + off' - alloc) by (unfold off; lia).
  assert (Hs2 : Start i <= s2 /\ e2 <= End i) by (unfold s2, e2, sd_lo, sd_hi; destruct sd; lia).
  assert (Hge : 0 <= off) by (unfold off; assert (0 <= alloc * pathLen) by lia; lia).
  assert (Hz : 1 <= Start (zshrink sd off i) <= End (zshrink sd off i) /\ End (zshrink sd off i) < 2 ^ 64 - 1 /\
    Start (zshrink sd off i) <= s2 <= Start (zshrink sd off i) + slk /\
    End (zshrink sd off i) - slk <= e2 <= End (zshrink sd off i)).
  { unfold s2, e2, sl, slack_of, sd_lo, sd_hi in *. destruct sd; cbn; lia. }
  pose proof (good_shaped t st0 Hsh d2 c2 Hg2) as Hshd2.
  assert (Hslack : sd_slack sd (with_data st0 d2) (troot y) = Ok (sl + off')).
  { rewrite <- Hsl2, <- Eiy. apply (slack_ok sd (with_data st0 d2) t y s2 e2 Hshd2 Hy); cbn [rs_data with_data]; rewrite ?Eiy.
    - by rewrite Hsubs; destruct l.
    - unfold in_range. lia.
    - apply Hs2.
    - apply Hs2.
    - done. }
  assert (Hfit : off <= req + slk * bound).
  { assert (alloc * pathLen <= slk * bound) by (apply Z.mul_le_mono_nonneg; lia). lia. }
  exists (set_iv (troot y) (zshrink sd off i) d2), c2. split.
  - unfold rest. erewrite bind_ok by exact Hmv. cbn [reclaim_down].
    erewrite bind_ok by (apply mview_ctx, (parent_ok (with_data st0 d2) t Hshd2 y y' Hy Hcy')).
    destruct (Hoffc y (subtrees_self y)) as [Hca _].
    assert (Hhe : hash_Equal (Some (troot y)) (Some ca) = false).
    { unfold hash_Equal. apply bool_decide_eq_false. congruence. }
    rewrite Hhe. erewrite bind_ok by reflexivity. erewrite bind_ok by (by apply (interval_ctx t)).
    erewrite bind_ok by (apply mview_ctx; exact Hslack). replace (sl + off' - alloc) with off by lia.
    rewrite uint64_id by lia. erewrite bind_ok by reflexivity. rewrite Eiy, sd_shrink_z by (unfold in_range; lia).
    erewrite bind_ok by (by apply (stage_ctx t)). done.
  - assert (Hhas : has_interval d2 (troot y)) by (by apply (good_has t st0 Hsh d2 c2)).
    constructor.
    + by apply good_set.
    + done.
    + done.
    + fold i. unfold len, sl, slack_of, s2, e2, sd_lo, sd_hi in *. destruct sd; cbn in Hz; lia.
    + by rewrite iv_set_eq.
    + apply (nested_set d2 y _ Hnd Hhas s2 e2); try lia; done.
    + assert (Hry' : troot xr ∈ nodes y') by (apply nodes_subtrees; eauto).
      apply (capped_set d2 y _ Hnd Hhas slk (troot xr) s2 e2 y'); try done; try lia.
      * apply (capped_ext slk (iv d1)); [|done]. intros h Hh. symmetry. by apply Hy2.
      * intros v Hv Hrv. assert (Hvl : v ∈ l ++ r).
        { rewrite Hsubs, elem_of_app, elem_of_cons in Hv. rewrite elem_of_app. naive_solver. }
        rewrite Hl2 by done. by apply Hl.
    + intros h Hh. rewrite iv_set_ne by (intros <-; apply Hh, self_node). apply Hf2. intros w Hw Hhw. apply Hh.
      apply nodes_subtrees in Hhw as (z & Hz' & <-). apply nodes_subtrees. exists z. split; [|done].
      apply (subtrees_trans y w); [done|by apply subtrees_child].
Qed.

Lemma walk_ok y : forall walk back d c slackSum pathLen, arrives y d c slackSum pathLen ->
  tsize y - tsize xr < Z.of_nat walk -> tsize y - tsize xr <= Z.of_nat back ->
  exists off alloc back' d1 c1, up_and_down walk back y slackSum pathLen (ctx d c) = rest back' y off alloc (ctx d1 c1) /\
    gives y d d1 c1 slackSum pathLen off alloc /\ Z.of_nat back - (tsize y - tsize xr) <= Z.of_nat back'.
Proof.
  induction y as [h cs IH] using tree_induction. intros walk back d c slackSum pathLen Har Hw Hb.
  set (y := Node h cs) in *. pose proof (tsize_subtree y xr (ar_root _ _ _ _ _ Har)).
  destruct walk as [|walk]; [lia|].
  destruct (decide (troot y = troot xr)) as [E|E].
  { assert (Exr : y = xr).
    { apply (subtree_unique y); [by apply nodup_below, (ar_in _ _ _ _ _ Har)|apply subtrees_self|apply Har|done]. }
    rewrite Exr in *. destruct (walk_root walk back d c slackSum pathLen Har) as (d1 & c1 & Hr & Hgv).
    exists (req + slk * pathLen - slackSum), slk, back, d1, c1. split_and!; [done|done|lia]. }
  pose proof Har as [H1 H2 H3 H4 H5 H6 H7 [H8 H8'] H9].
  assert (Hrn : troot xr ∈ nodes y) by (apply nodes_subtrees; eauto).
  destruct (H6 y (subtrees_self y) Hrn E) as (s & e & Hs & He & Ht & Hl).
  apply subtrees_inv in H2 as H2'. destruct H2' as [E2|(y' & Hy' & Hxr)]; [by rewrite E2 in E|].
  apply list_elem_of_split in Hy' as Hsp. destruct Hsp as (l & r & Hsubs).
  destruct (Z.le_gt_cases req (slackSum + slack_of sd (iv d (troot y)) s e)) as [Hen|Hins].
  { destruct (walk_stop walk back y d c slackSum pathLen s e Har E Ht Hs He) as (d1 & Hr & Hgv); [by rewrite Hsubs; destruct l|done|].
    exists (req - slackSum), 0, back, d1, c. split_and!; [done|done|lia]. }
  pose proof (tsize_child y y' Hy') as Hty. set (sl := slack_of sd (iv d (troot y)) s e) in *.
  pose proof (nested_in_range _ y H5) as Hr. pose proof (good_shaped t st0 Hsh d c H4) as Hshd.
  assert (Hsl : 0 <= sl) by (unfold sl, slack_of; destruct sd; lia).
  assert (Har' : arrives y' d c (slackSum + sl) (pathLen + 1)).
  { constructor; try done; [by apply (subtrees_down t y)| |by apply (nested_child _ y)|by apply (capped_child _ _ _ y)|lia|lia].
    intros z Hz. apply H3. apply (subtrees_trans y y'); [done|by apply subtrees_child]. }
  destruct (IH y' Hy' walk back d c (slackSum + sl) (pathLen + 1) Har') as (off' & alloc & back' & d1 & c1 & Hrun & Hgv & Hbk); [lia|lia|].
  destruct back' as [|back']; [lia|].
  destruct (walk_back back' y l y' r d d1 c1 slackSum pathLen s e off' alloc) as (d3 & c3 & Hrun3 & Hgv3);
    try done; try lia.
  exists (req + alloc * pathLen - slackSum), alloc, back', d3, c3. split_and!; [|done|lia].
  rewrite <- Hrun3, <- Hrun. unfold up_and_down at 1. cbn [reclaim_up]. unfold bytes_eqb. rewrite bool_decide_false by done.
  rewrite bind_assoc. erewrite bind_ok.
  2:{ apply mview_ctx. apply (slack_ok sd (with_data st0 d) t y s e Hshd H1); try done; [by rewrite Hsubs; destruct l|apply Hs|apply He]. }
  cbn [rs_data with_data]. fold sl. rewrite (uint64_id (slackSum + sl)) by lia.
  destruct (Z.geb_spec (slackSum + sl) req) as [?|_]; [lia|]. rewrite bind_assoc.
  assert (0 <= slk * bound) by lia. pose proof (tsize_pos xr).
  erewrite bind_ok.
  2:{ apply mview_ctx, (FindNextAncestor_tree (with_data st0 d) t y l y' r xr); done. }
  rewrite (uint64_id (pathLen + 1)) by lia. done.
Qed.

(** * Reclaiming for a child of the common ancestor *)

Lemma reclaim_ok tc l y r pre x post d c s e :
  tc ∈ subtrees t -> troot tc = ca -> tsubs tc = l ++ y :: r -> xr ∈ subtrees y ->
  sd_siblings sd (l, r) = pre ++ x :: post -> troot x = a -> tsize x <= len (iv d a) + req ->
  good d c -> nested (iv d) y -> (forall w, w ∈ l ++ r -> w <> x -> nested (iv d) w) ->
  tiles s (map (fun w => iv d (troot w)) (tsubs tc)) e ->
  1 <= Start (iv d ca) <= s -> e <= End (iv d ca) < 2 ^ 64 - 1 -> Start (iv d ca) <= End (iv d ca) ->
  capped slk (iv d) (troot xr) y -> tsize t <= bound -> tsize xr + req + slk * bound <= len (iv d (troot xr)) ->
  exists d' c', reclaim sd rt fuel a ca (troot y) (troot xr) req (ctx d c) = (Ok tt, ctx d' c') /\ good d' c' /\
    nested (iv d') tc /\ capped slk (iv d') (troot xr) y /\
    tiles s (map (fun w => iv d' (troot w)) (tsubs tc)) e /\
    (forall w, w ∈ l ++ r -> w <> x -> len (iv d' (troot w)) = len (iv d (troot w))) /\
    len (iv d' a) = len (iv d a) + req /\
    (forall h, h ∉ nodes tc \/ h = ca -> iv d' h = iv d h).
Proof.
  intros Htc Hca Hsubs Hxr Es Hxa Hxs Hg Hny Hnw Ht Hs He Hne Hcap Hbd Hroom.
  pose proof (nodup_below tc Htc) as Hnd. assert (Hytc : y ∈ tsubs tc) by (rewrite Hsubs; set_solver).
  assert (Hxlr : x ∈ l ++ r) by (apply (siblings_elem sd); rewrite Es; set_solver).
  pose proof (subtrees_down t tc y Htc Hytc) as Hyt. pose proof (tsize_child tc y Hytc) as Hts.
  pose proof (tsize_subtree t tc Htc) as Htt. pose proof (tsize_subtree y xr Hxr) as Hxy. pose proof (tsize_pos xr).
  assert (Har : arrives y d c 0 0).
  { constructor; try done; try lia. intros z Hz. split; intros E.
    - rewrite <- Hca in E. by apply (nodup_root tc y z Hnd Hytc Hz).
    - apply (nodup_siblings tc l y r x z x Hnd Hsubs Hxlr Hz (subtrees_self x)). congruence. }
  destruct (walk_ok y fuel fuel d c 0 0 Har) as (off & alloc & back & d1 & c1 & Hrun & [G1 G2 G3 G4 G5 G6 G7 G8] & Hbk); [lia|lia|].
  rewrite Z.mul_0_r, Z.add_0_r, Z.sub_0_r in G3. subst off.
  destruct (move_alloc t st0 fuel Hsh Hsmall Hfuel sd a tc l y r Htc Hsubs d d1 c1 s e req G1 Ht) with (pre := pre) (x := x) (post := post)
    as (d2 & c2 & Hmv & Hg2 & Ht2 & Hn2 & Hl2 & Ha2 & Hy2 & Hf2); try done; [lia|lia|].
  assert (Eca : iv d2 ca = iv d ca).
  { apply Hf2. intros w Hw (z & Hz & E)%nodes_subtrees. rewrite <- Hca in E. by apply (nodup_root tc w z Hnd Hw Hz). }
  exists d2, c2. split_and!; try done.
  - unfold reclaim. change (up_and_down fuel fuel y 0 0 (ctx d c) = (Ok tt, ctx d2 c2)). rewrite Hrun. unfold rest.
    erewrite bind_ok by exact Hmv. destruct back as [|back]; [lia|]. cbn [reclaim_down].
    pose proof (good_shaped t st0 Hsh d2 c2 Hg2) as Hshd2.
    erewrite bind_ok by (apply mview_ctx, (parent_ok (with_data st0 d2) t Hshd2 tc y Htc Hytc)).
    assert (Hhe : hash_Equal (Some (troot tc)) (Some ca) = true) by (unfold hash_Equal; apply bool_decide_eq_true; congruence).
    by rewrite Hhe.
  - intros z [->|(w & Hw & Hz)]%subtrees_inv; [|by apply (Hn2 w)].
    constructor; rewrite Hca, Eca; [lia..|]. exists s, e. split; [lia|]. split; [lia|done].
  - apply (capped_ext slk (iv d1)); [|done]. intros h Hh. symmetry. by apply Hy2.
  - intros h [Hh| ->]; [|done]. apply Hf2. intros w Hw Hhw. apply Hh.
    apply nodes_subtrees in Hhw as (z & Hz & <-). apply nodes_subtrees. exists z. split; [|done].
    apply (subtrees_trans tc w); [done|by apply subtrees_child].
Qed.

End walk.
