(* ===== verification/ReindexAdd.v ===== *)
(** [addChild]: a new leaf gets an interval from the space left at its parent,
    and if there is none the tree is reindexed.  In both cases the intervals stay
    nested and the reindex root keeps its room. *)

From S2P Require Import Prelude Transaction Block Difficulty TxMass Ghostdag ReachInterval Reachability Reindex ReachTree.
From S2P Require Import ReindexCount ReindexPropagate ReindexReclaim ReindexChain.

(** * Adding a leaf to a tree *)

Section insert.
Variables p b : bytes.

Definition leaf : tree := Node b [].

Fixpoint insert_child (t : tree) : tree :=
  let '(Node h cs) := t in
  Node h (map insert_child cs ++ if decide (h = p) then [leaf] else []).

Lemma troot_insert t : troot (insert_child t) = troot t.
Proof. by destruct t. Qed.

Lemma tsubs_insert t : tsubs (insert_child t) =
  map insert_child (tsubs t) ++ if decide (troot t = p) then [leaf] else [].
Proof. by destruct t. Qed.

Lemma subtrees_leaf x : x ∈ subtrees leaf <-> x = leaf.
Proof. rewrite subtrees_inv. cbn. split; [|by left]. intros [->|(c & Hc & _)]; [done|by apply not_elem_of_nil in Hc]. Qed.

Lemma subtrees_insert t x : x ∈ subtrees (insert_child t) <->
  (exists y, y ∈ subtrees t /\ x = insert_child y) \/ (x = leaf /\ p ∈ nodes t).
Proof.
  induction t as [h cs IH] using tree_induction. rewrite subtrees_inv, tsubs_insert. cbn [tsubs troot]. split.
  - intros [->|(c & Hc & Hx)].
    + left. exists (Node h cs). split; [apply subtrees_self|done].
    + apply elem_of_app in Hc as [Hc|Hc].
      * apply list_elem_of_fmap in Hc as (c' & -> & Hc'). apply (IH c' Hc') in Hx as [(y & Hy & ->)|[-> Hp]].
        -- left. exists y. split; [|done]. apply (subtrees_trans _ c'); [done|by apply subtrees_child].
        -- right. split; [done|]. apply nodes_subtrees in Hp as (z & Hz & <-). apply nodes_subtrees. exists z.
           split; [|done]. apply (subtrees_trans _ c'); [done|by apply subtrees_child].
      * right. case_decide as E; [|by apply not_elem_of_nil in Hc]. apply list_elem_of_singleton in Hc. subst c.
        apply subtrees_leaf in Hx. split; [done|]. apply nodes_subtrees. exists (Node h cs). split; [apply subtrees_self|done].
  - intros [(y & Hy & ->)|[-> Hp]].
    + apply subtrees_inv in Hy as [->|(c & Hc & Hy)]; [by left|]. right. exists (insert_child c). split.
      * apply elem_of_app. left. apply list_elem_of_fmap. eauto.
      * apply (IH c Hc). left. eauto.
    + apply nodes_subtrees in Hp as (z & Hz & E). apply subtrees_inv in Hz as [->|(c & Hc & Hz)].
      * right. exists leaf. cbn [troot] in E. subst h. rewrite decide_True by done. split; [set_solver|by apply subtrees_leaf].
      * right. exists (insert_child c). split; [apply elem_of_app; left; apply list_elem_of_fmap; eauto|].
        apply (IH c Hc). right. split; [done|]. apply nodes_subtrees. eauto.
Qed.

Lemma insert_other t : p ∉ nodes t -> insert_child t = t.
Proof.
  induction t as [h cs IH] using tree_induction. rewrite nodes_eq. cbn [troot tsubs insert_child]. intros Hp.
  apply not_elem_of_cons in Hp as [Hne Hp]. rewrite decide_False by done. rewrite app_nil_r. f_equal.
  rewrite <- (map_id cs) at 2. apply map_ext_in. intros c Hc%list_elem_of_In. apply (IH c Hc).
  intros Hin. apply Hp, elem_of_concat_map. eauto.
Qed.

Lemma map_concat_perm {A B} (f g : A -> list B) (l : list A) : (forall x, x ∈ l -> f x ≡ₚ g x) ->
  concat (map f l) ≡ₚ concat (map g l).
Proof.
  induction l as [|x l IH]; intros Hl; [done|]. cbn [map concat]. rewrite (Hl x) by set_solver.
  rewrite IH by set_solver. done.
Qed.

(** The nodes are the old ones and the leaf. *)
Lemma nodes_insert t : NoDup (nodes t) -> p ∈ nodes t -> nodes (insert_child t) ≡ₚ b :: nodes t.
Proof.
  induction t as [h cs IH] using tree_induction. intros Hnd Hp.
  rewrite (nodes_eq (insert_child _)), troot_insert, tsubs_insert, (nodes_eq (Node h cs)) in *. cbn [troot tsubs] in *.
  rewrite map_app, concat_app, map_map. apply elem_of_cons in Hp as [Hp|Hp].
  - subst h. rewrite decide_True by done. cbn. apply NoDup_cons in Hnd as [Hn Hnd].
    rewrite (map_ext_in _ nodes cs); [rewrite <- Permutation_cons_append; apply perm_swap|].
    intros c Hc%list_elem_of_In. rewrite insert_other; [done|]. intros Hin. apply Hn, elem_of_concat_map. eauto.
  - apply NoDup_cons in Hnd as [Hn Hnd]. apply elem_of_concat_map in Hp as (c & Hc & Hp).
    rewrite decide_False by (intros ->; apply Hn, elem_of_concat_map; eauto). cbn. rewrite app_nil_r.
    etransitivity; [|apply perm_swap]. constructor. apply list_elem_of_split in Hc as (l1 & l2 & ->).
    rewrite !map_app, !concat_app in *. cbn [map concat] in *.
    apply NoDup_app in Hnd as (Hl1 & Hd1 & Hnd). apply NoDup_app in Hnd as (Hc & Hd2 & Hl2).
    rewrite (IH c) by (set_solver || done). cbn [app].
    rewrite (map_ext_in _ nodes l1), (map_ext_in _ nodes l2).
    + symmetry. apply Permutation_middle.
    + intros v Hv%list_elem_of_In. rewrite insert_other; [done|]. intros Hin.
      apply (Hd2 p Hp). apply elem_of_concat_map. eauto.
    + intros v Hv%list_elem_of_In. rewrite insert_other; [done|]. intros Hin.
      apply (Hd1 p); [apply elem_of_concat_map; eauto|]. apply elem_of_app. by left.
Qed.

Lemma tsize_insert t : NoDup (nodes t) -> tsize t <= tsize (insert_child t) <= tsize t + 1.
Proof.
  intros Hnd. destruct (decide (p ∈ nodes t)) as [Hp|Hp]; [|rewrite insert_other by done; lia].
  rewrite <- !zlen_nodes. unfold zlen. rewrite (nodes_insert t Hnd Hp). cbn. lia.
Qed.

Lemma tsize_insert_in t : NoDup (nodes t) -> p ∈ nodes t -> tsize (insert_child t) = tsize t + 1.
Proof. intros Hnd Hp. rewrite <- !zlen_nodes. unfold zlen. rewrite (nodes_insert t Hnd Hp). cbn. lia. Qed.

Lemma nodes_insert_in t h : NoDup (nodes t) -> p ∈ nodes t -> h ∈ nodes (insert_child t) <-> h = b \/ h ∈ nodes t.
Proof. intros Hnd Hp. rewrite (nodes_insert t Hnd Hp). apply elem_of_cons. Qed.

Lemma nodup_insert t : NoDup (nodes t) -> p ∈ nodes t -> b ∉ nodes t -> NoDup (nodes (insert_child t)).
Proof. intros Hnd Hp Hb. rewrite (nodes_insert t Hnd Hp). by constructor. Qed.

(** A node other than the new one is in a subtree exactly when it was. *)
Lemma nodes_insert_old t h : NoDup (nodes t) -> h <> b -> h ∈ nodes (insert_child t) <-> h ∈ nodes t.
Proof.
  intros Hnd Hb. destruct (decide (p ∈ nodes t)) as [Hp|Hp]; [|by rewrite insert_other].
  rewrite nodes_insert_in by done. naive_solver.
Qed.

End insert.

(** * Putting pieces together *)

(** The root and the children of a subtree that is not inside [x] are not
    strictly inside [x]. *)
Lemma outside_strict t x z h : NoDup (nodes t) -> x ∈ subtrees t -> z ∈ subtrees t -> z ∉ subtrees x ->
  h = troot z \/ h ∈ map troot (tsubs z) -> h ∉ nodes x \/ h = troot x.
Proof.
  intros Hnd Hx Hz Hzx Hh. destruct (decide (h ∈ nodes x)) as [Hin|]; [|by left]. right.
  apply nodes_subtrees in Hin as (u & Hu & E). assert (Hut : u ∈ subtrees t) by (by eapply subtrees_trans).
  destruct Hh as [->|(w & -> & Hw)%list_elem_of_fmap].
  - apply (subtree_unique t) in E as ->; done.
  - apply (subtree_unique t) in E as ->; [|done|done|by apply (subtrees_down t z)].
    destruct (subtrees_inv x w) as [Hi _]. destruct (Hi Hu) as [->|(v & Hv & Hwv)]; [done|].
    destruct (subtrees_parent x w Hu) as (y & Hy & Hwy).
    + intros ->. pose proof (tsize_child x v Hv). pose proof (tsize_subtree v x Hwv). lia.
    + rewrite (parent_unique t z y w) in Hzx; [done|done|done|by eapply subtrees_trans|done|done].
Qed.

(** Everything outside a subtree is as before, and the subtree is nested. *)
Lemma nested_replace f g t x : NoDup (nodes t) -> x ∈ subtrees t ->
  (forall h, h ∉ nodes x \/ h = troot x -> g h = f h) -> nested g x ->
  (forall z, z ∈ subtrees t -> z ∉ subtrees x -> local_ok f z) -> nested g t.
Proof.
  intros Hnd Hx Hfr Hn Hout z Hz.
  destruct (decide (troot z ∈ nodes x)) as [Hzx|Hzx]; rewrite (subtree_by_root t) in Hzx by done; [by apply Hn|].
  apply (local_ok_ext f); [|by apply Hout]. intros h Hh. symmetry. apply Hfr. by apply (outside_strict t x z).
Qed.

Lemma capped_replace slk f g r t x : NoDup (nodes t) -> x ∈ subtrees t ->
  (forall h, h ∉ nodes x \/ h = troot x -> g h = f h) -> capped slk g r x -> capped slk f r t -> capped slk g r t.
Proof.
  intros Hnd Hx Hfr Hc Hout z Hz Hrz Hne.
  destruct (decide (troot z ∈ nodes x)) as [Hzx|Hzx]; rewrite (subtree_by_root t) in Hzx by done; [by apply Hc|].
  apply (local_cap_ext slk f); [|by apply Hout]. intros h Hh. symmetry. apply Hfr. by apply (outside_strict t x z).
Qed.

(** A subtree with no proper ancestor of the reindex root has nothing to keep. *)
Lemma capped_free slk f r x : NoDup (nodes x) -> (r ∈ nodes x -> troot x = r) -> capped slk f r x.
Proof.
  intros Hnd Hr z Hz Hrz Hne. exfalso. apply Hne.
  specialize (Hr (nodes_sub x z r Hz Hrz)). apply subtrees_inv in Hz as [->|(w & Hw & Hz)]; [done|]. exfalso.
  apply nodes_subtrees in Hrz as (u & Hu & E). apply (nodup_root x w u Hnd Hw); [by eapply subtrees_trans|congruence].
Qed.

(** * Reindexing for the new leaf *)

Section reindex.
Context `{FloatConversion}.
Variable t : tree.
Variable st0 : reach_store.
Variable rt : reachabilityManager.
Variable fuel : nat.
Variable b : bytes.
Variable xr : tree.
Abbreviation slk := (reindexSlack rt).
Abbreviation d0 := (rs_data st0).

(** The tree with the new leaf, whose interval is empty and at the end of that of
    its parent. *)
Record reindexable : Prop := {
  ri_shaped : shaped d0 t;
  ri_small : (3 * slk + 4) * tsize t <= 2 ^ 64 - 2;
  ri_fuel : tsize t <= Z.of_nat fuel;
  ri_slack : 0 <= slk;
  ri_leaf : leaf b ∈ subtrees t;
  ri_empty : in_range (iv d0 b) /\ len (iv d0 b) = 0;
  ri_last : forall z l y r, z ∈ subtrees t -> tsubs z = l ++ y :: r -> leaf b ∉ l;
  ri_local : forall z, z ∈ subtrees t -> troot z <> b -> local_ok (iv d0) z;
  ri_top : iv d0 (troot t) = newReachabilityInterval 1 (MaxUint64 - 1);
  ri_root : xr ∈ subtrees t /\ troot xr <> b;
  ri_query : forall z, z ∈ subtrees t -> troot z <> b ->
    intervalContains (iv d0 (troot z)) (iv d0 (troot xr)) = true <-> xr ∈ subtrees z;
  ri_capped : capped slk (iv d0) (troot xr) t;
  ri_room : (slk + 2) * tsize t <= len (iv d0 (troot xr))
}.

Hypothesis Hri : reindexable.

Abbreviation good := (good t st0).
Abbreviation ctx := (ctx st0).

Lemma ri_tsize : tsize t < 2 ^ 64.
Proof. destruct Hri as [_ H2 _ H4 _ _ _ _ _ _ _ _ _]. pose proof (tsize_pos t). nia. Qed.

Lemma ri_nodup x : x ∈ subtrees t -> NoDup (nodes x).
Proof. apply nodup_subtree. apply (sh_nodup _ _ (ri_shaped Hri)). Qed.

Lemma ri_nested x : x ∈ subtrees t -> b ∉ nodes x -> nested (iv d0) x.
Proof.
  intros Hx Hb z Hz. apply (ri_local Hri); [by eapply subtrees_trans|]. intros E. apply Hb, nodes_subtrees. eauto.
Qed.

Lemma is_leaf y : y ∈ subtrees t -> troot y = b -> y = leaf b.
Proof. intros Hy E. apply (subtree_unique t); [apply (sh_nodup _ _ (ri_shaped Hri))|done|apply (ri_leaf Hri)|done]. Qed.

Lemma ri_range y : y ∈ subtrees t -> in_range (iv d0 (troot y)).
Proof.
  intros Hy. destruct (decide (troot y = b)) as [->|Hne]; [apply (ri_empty Hri)|].
  destruct (ri_local Hri y Hy Hne). unfold in_range. lia.
Qed.

Lemma ri_nodup_t : NoDup (nodes t).
Proof. apply (sh_nodup _ _ (ri_shaped Hri)). Qed.

(** What a reindex achieves, when it changes a subtree [x] with the new leaf and
    not the interval of its root. *)
Lemma reindex_outcome x d' c' : x ∈ subtrees t -> b ∈ nodes x -> good d' c' -> nested (iv d') x ->
  capped slk (iv d') (troot xr) x -> (forall h, h ∉ nodes x \/ h = troot x -> iv d' h = iv d0 h) ->
  good d' c' /\ nested (iv d') t /\ capped slk (iv d') (troot xr) t /\ iv d' (troot t) = iv d0 (troot t).
Proof.
  intros Hx Hb Hg Hn Hc Hfr. split_and!; [done| | |].
  - apply (nested_replace (iv d0) _ t x); [apply ri_nodup_t|done|done|done|].
    intros z Hz Hzx. apply (ri_local Hri); [done|]. intros E. apply Hzx, (subtree_by_root t); [apply ri_nodup_t|done|done|congruence].
  - apply (capped_replace slk (iv d0) _ (troot xr) t x); [apply ri_nodup_t|done|done|done|apply (ri_capped Hri)].
  - apply Hfr. destruct (decide (troot t ∈ nodes x)) as [Ht|]; [|by left]. right.
    apply (subtree_by_root t) in Ht; [|apply ri_nodup_t|done|apply subtrees_self]. by rewrite (subtrees_antisym t x).
Qed.

(** Propagating from a node with room. *)
Lemma reindex_propagate y c : y ∈ subtrees t -> b ∈ nodes y -> (troot xr ∈ nodes y -> troot y = troot xr) ->
  cache_ok t c -> tsize y <= len (iv d0 (troot y)) ->
  exists d' c', propagateInterval fuel (troot y) (ctx d0 c) = (Ok tt, ctx d' c') /\ good d' c' /\
    nested (iv d') t /\ capped slk (iv d') (troot xr) t /\ iv d' (troot t) = iv d0 (troot t).
Proof.
  intros Hy Hb Hxr Hc Hs.
  destruct (propagate_ctx t st0 fuel (ri_shaped Hri) ri_tsize (ri_fuel Hri) d0 c y) as (d' & c' & Hp & Hg & Hiy & Hn & Hf).
  - by split.
  - done.
  - split; [by apply ri_range|done].
  - exists d', c'. split; [done|]. apply (reindex_outcome y); try done.
    + apply capped_free; [by apply ri_nodup|done].
    + intros h [Hh| ->]; auto.
Qed.

(** A proper ancestor [z] of the reindex root: [y0] is its child towards the
    root, and the new leaf is below another child [y]. *)
Section fork.
Context (y z : tree) (l : list tree) (y0 : tree) (r : list tree).
Context (Hz : z ∈ subtrees t) (Hsubs : tsubs z = l ++ y0 :: r) (Hylr : y ∈ l ++ r) (Hb : b ∈ nodes y).
Context (Hxy0 : xr ∈ subtrees y0).

Lemma fork_child w : w ∈ l ++ r -> w ∈ tsubs z.
Proof. rewrite Hsubs, !elem_of_app, elem_of_cons. tauto. Qed.

Lemma fork_y0 : y0 ∈ tsubs z.
Proof. rewrite Hsubs, elem_of_app, elem_of_cons. tauto. Qed.

Lemma fork_zb : troot z <> b.
Proof.
  intros E. apply nodes_subtrees in Hb as (u & Hu & Eu). rewrite <- Eu in E. symmetry in E.
  by apply (nodup_root z y u (ri_nodup z Hz) (fork_child y Hylr) Hu).
Qed.

Lemma fork_ne : troot z <> troot xr.
Proof. intros E. symmetry in E. by apply (nodup_root z y0 xr (ri_nodup z Hz) fork_y0 Hxy0). Qed.

Lemma fork_nested w : w ∈ tsubs z -> w <> y -> nested (iv d0) w.
Proof.
  intros Hw Hwy. apply ri_nested; [by apply (subtrees_down t z)|]. intros Hbw. apply Hwy.
  apply (child_unique z w y b); [by apply ri_nodup|done|by apply fork_child|done|done].
Qed.

Lemma fork_y_y0 : y0 <> y.
Proof.
  intros E. pose proof (nodup_children z (ri_nodup z Hz)) as Hnd. rewrite Hsubs in Hnd. apply NoDup_fmap_1, NoDup_app in Hnd.
  destruct Hnd as (_ & Hd & Hnd). apply NoDup_cons in Hnd as [Hn _]. subst y0.
  apply elem_of_app in Hylr as [Hy|Hy]; [|done]. apply (Hd y Hy). left.
Qed.

Lemma fork_cap : local_cap slk (iv d0) (troot xr) z.
Proof.
  apply (ri_capped Hri); [done| |apply fork_ne]. apply (nodes_sub z y0); [by apply subtrees_child, fork_y0|].
  apply nodes_subtrees. eauto.
Qed.

(** After reclaiming, the fork has room as before. *)
Lemma fork_capped d' s e : tiles s (map (fun w => iv d0 (troot w)) (tsubs z)) e ->
  tiles s (map (fun w => iv d' (troot w)) (tsubs z)) e -> iv d' (troot z) = iv d0 (troot z) ->
  (forall w, w ∈ l ++ r -> w <> y -> len (iv d' (troot w)) = len (iv d0 (troot w))) ->
  len (iv d' (troot y)) <= slk + 2 * tsize y -> capped slk (iv d') (troot xr) y0 -> capped slk (iv d') (troot xr) z.
Proof.
  intros Ht Ht' Hiz Hlens Hly Hc0 w [->|(v & Hv & Hw)]%subtrees_inv Hrw Hnew.
  - destruct fork_cap as (s' & e' & Hs' & He' & Htc & Hlc). exists s, e. rewrite Hiz.
    assert (Eq : s' = s /\ e' = e).
    { pose proof (tiles_len _ _ _ Ht). pose proof (tiles_len _ _ _ Htc).
      destruct (tsubs z) as [|v vs]; [by destruct l|]. cbn [map tiles] in Ht, Htc. lia. }
    destruct Eq as [-> ->]. split_and!; [lia..|done|]. intros v Hv Hrv.
    assert (Hvl : v ∈ l ++ r \/ v = y0) by (rewrite Hsubs, elem_of_app, elem_of_cons in Hv; rewrite elem_of_app; naive_solver).
    destruct Hvl as [Hvl| ->]; [|exfalso; apply Hrv, nodes_subtrees; eauto].
    destruct (decide (troot v = troot y)) as [Ev|Ev].
    + assert (v = y) as ->; [|done].
      apply (subtree_unique z); [by apply ri_nodup|by apply subtrees_child|by apply subtrees_child, fork_child|done].
    + rewrite Hlens by (try done; by intros ->). by apply Hlc.
  - assert (v = y0) as ->; [|by apply Hc0].
    apply (child_unique z v y0 (troot xr)); [by apply ri_nodup|done|apply fork_y0|by eapply nodes_sub|apply nodes_subtrees; eauto].
Qed.

Lemma fork_reclaim sd pre post c : sd_siblings sd (l, r) = pre ++ y :: post -> cache_ok t c -> len (iv d0 (troot y)) <= tsize y ->
  exists d' c', reclaim sd rt fuel (troot y) (troot z) (troot y0) (troot xr) (tsize y) (ctx d0 c) = (Ok tt, ctx d' c') /\
    good d' c' /\ nested (iv d') t /\ capped slk (iv d') (troot xr) t /\ iv d' (troot t) = iv d0 (troot t).
Proof.
  intros Es Hc Hls. destruct (ri_local Hri z Hz fork_zb) as [Hl1 Hl2 Hl3 (s & e & Hs & He & Ht)].
  pose proof (subtrees_down t z y Hz (fork_child y Hylr)) as Hyt.
  pose proof (tsize_pos t). pose proof (tsize_pos y). pose proof (tsize_subtree t y Hyt).
  pose proof (tsize_subtree t xr (proj1 (ri_root Hri))). pose proof (ri_slack Hri). pose proof (ri_small Hri). pose proof (ri_room Hri).
  destruct (reclaim_ok t st0 rt fuel (ri_shaped Hri) ri_tsize (ri_fuel Hri) sd (troot y) (troot z) xr (tsize y) (tsize t))
    with (tc := z) (l := l) (y := y0) (r := r) (pre := pre) (x := y) (post := post) (d := d0) (c := c) (s := s) (e := e)
    as (d' & c' & Hrun & Hg & Hnz & Hcy0 & Ht' & Hlens & Hly & Hfr); try done; try lia; try nia.
  - destruct (ri_range y Hyt) as (R1 & R2 & R3). unfold len. lia.
  - apply fork_nested; [apply fork_y0|apply fork_y_y0].
  - intros w Hw Hwy. apply fork_nested; [by apply fork_child|done].
  - intros w Hw. apply (ri_capped Hri). apply (subtrees_trans t y0); [done|apply (subtrees_down t z); [done|apply fork_y0]].
  - exists d', c'. split; [done|]. apply (reindex_outcome z); try done.
    + apply (nodes_sub z y); [by apply subtrees_child, fork_child|done].
    + apply (fork_capped d' s e); try done; [by apply Hfr; right|rewrite Hly; lia].
Qed.

End fork.

(** Reclaiming for a child [y] of a proper ancestor [z] of the reindex root. *)
Lemma reindex_reclaim y z c : z ∈ subtrees t -> y ∈ tsubs z -> b ∈ nodes y -> troot xr ∉ nodes y ->
  xr ∈ subtrees z -> troot z <> troot xr -> cache_ok t c -> len (iv d0 (troot y)) <= tsize y ->
  exists d' c', reindexIntervalsEarlierThanRoot rt fuel (troot y) (troot xr) (troot z) (tsize y) (ctx d0 c) =
      (Ok tt, ctx d' c') /\ good d' c' /\
    nested (iv d') t /\ capped slk (iv d') (troot xr) t /\ iv d' (troot t) = iv d0 (troot t).
Proof.
  intros Hz Hyz Hb Hxr Hxz Hne Hc Hls.
  apply subtrees_inv in Hxz as [->|(y0 & Hy0 & Hxy0)]; [done|].
  assert (Hyy0 : y <> y0) by (intros ->; apply Hxr, nodes_subtrees; eauto).
  apply list_elem_of_split in Hy0 as Hsp. destruct Hsp as (l & r & Hsubs).
  assert (Hylr : y ∈ l ++ r) by (rewrite Hsubs, elem_of_app, elem_of_cons in Hyz; rewrite elem_of_app; naive_solver).
  pose proof (fork_zb y z l y0 r Hz Hsubs Hylr Hb) as Hzb.
  pose proof (fork_nested y z l y0 r Hz Hsubs Hylr Hb y0 Hy0 (not_eq_sym Hyy0)) as Hn0.
  destruct (ri_local Hri z Hz Hzb) as [Hl1 Hl2 Hl3 (s & e & Hs & He & Ht)].
  assert (Hg0 : good d0 c) by (by split). pose proof (subtrees_down t z y Hz Hyz) as Hyt.
  pose proof (subtrees_down t z y0 Hz Hy0) as Hy0t.
  unfold reindexIntervalsEarlierThanRoot. erewrite bind_ok.
  2:{ apply mview_ctx. apply (FindNextAncestor_ok (with_data st0 d0) (troot z) (troot xr) (map troot l) (troot y0) (map troot r) s e).
      - done.
      - cbn [rc_manager]. rewrite (children_ok (with_data st0 d0) t (ri_shaped Hri) z Hz), Hsubs, map_app. done.
      - intros k Hk. apply (shaped_has d0 t k (ri_shaped Hri)). apply nodes_subtrees. rewrite elem_of_cons in Hk.
        destruct Hk as [->|Hk]; [exists xr; split; [apply (ri_root Hri)|done]|].
        change (map troot l ++ troot y0 :: map troot r) with (map troot l ++ map troot (y0 :: r)) in Hk.
        rewrite <- map_app, <- Hsubs in Hk. apply list_elem_of_fmap in Hk as (w & -> & Hw).
        exists w. split; [by apply (subtrees_down t z)|done].
      - change (map troot l ++ troot y0 :: map troot r) with (map troot l ++ map troot (y0 :: r)).
        rewrite <- map_app, <- Hsubs, map_map. done.
      - cbn [rs_data with_data]. destruct (nested_within (iv d0) y0 xr Hn0 Hxy0) as (Ha & Hb' & _).
        destruct (Hn0 xr Hxy0) as [_ Hnx _ _]. lia. }
  do 2 (erewrite bind_ok by (by apply (interval_ctx t st0 (ri_shaped Hri)))).
  do 2 (erewrite bind_ok by reflexivity). rewrite Hsubs, map_app in Ht. cbn [map] in Ht.
  apply tiles_app in Ht as (m & Htl & Hy0s & Hy0e & Htr). destruct (Hn0 y0 (subtrees_self y0)) as [_ Hy0n _ _].
  apply elem_of_app in Hylr as Hside. destruct Hside as [Hyl|Hyr].
  - assert (Hyb : troot y <> b).
    { intros E. apply (is_leaf y Hyt) in E as ->. by apply (ri_last Hri z l y0 r Hz Hsubs). }
    destruct (ri_local Hri y Hyt Hyb) as [_ Hyn _ _].
    apply (tiles_elem _ _ _ (iv d0 (troot y))) in Htl; [|apply list_elem_of_fmap; eauto].
    rewrite (proj2 (Z.ltb_lt _ _)) by lia. rewrite reclaimIntervalBefore_generic.
    apply list_elem_of_split in Hyl as (l1 & l2 & El).
    apply (fork_reclaim y z l y0 r Hz Hsubs Hylr Hb Hxy0 Before (rev l2) (rev l1)); try done.
    cbn. by rewrite El, rev_app_distr; cbn; rewrite <- app_assoc.
  - apply (tiles_elem _ _ _ (iv d0 (troot y))) in Htr; [|apply list_elem_of_fmap; eauto].
    rewrite (proj2 (Z.ltb_ge _ _)) by lia. rewrite reclaimIntervalAfter_generic.
    apply list_elem_of_split in Hyr as (r1 & r2 & Er).
    apply (fork_reclaim y z l y0 r Hz Hsubs Hylr Hb Hxy0 After r1 r2); done.
Qed.

(** The climb from the new leaf. *)
Lemma reindex_loop_ok walk : forall y c, y ∈ subtrees t -> b ∈ nodes y -> (troot xr ∈ nodes y -> troot y = troot xr) ->
  cache_ok t c -> tsize t - tsize y < Z.of_nat walk ->
  exists d' c', reindex_loop rt fuel walk (troot y) (troot xr) (ctx d0 c) = (Ok tt, ctx d' c') /\ good d' c' /\
    nested (iv d') t /\ capped slk (iv d') (troot xr) t /\ iv d' (troot t) = iv d0 (troot t).
Proof.
  induction walk as [|walk IH]; intros y c Hy Hb Hxr Hc Hw; pose proof (tsize_subtree t y Hy) as Hyt; [lia|].
  assert (Hg0 : forall c, cache_ok t c -> good d0 c) by (by split). pose proof (ri_fuel Hri) as Hfuel.
  cbn [reindex_loop]. erewrite bind_ok by (apply (interval_ctx t st0 (ri_shaped Hri)); [by apply Hg0|done]).
  erewrite bind_ok by reflexivity.
  destruct (countSubtrees_ok t (with_data st0 d0) y fuel c) as (c' & Hcount & Hc' & Hall);
    [apply (ri_shaped Hri)|apply ri_tsize|done|lia|done|].
  erewrite bind_ok by exact Hcount. erewrite bind_ok.
  2:{ unfold cache_value. cbn [subTreeSizesCache]. rewrite (Hall y (subtrees_self y)). reflexivity. }
  rewrite intervalSize_len by (by apply ri_range). change (default 0 (Some (tsize y))) with (tsize y). fold (ctx d0 c').
  destruct (Z.geb_spec (len (iv d0 (troot y))) (tsize y)) as [Hge|Hlt]; [by apply reindex_propagate|].
  pose proof (tsize_pos t). pose proof (ri_small Hri). pose proof (ri_slack Hri). pose proof (ri_room Hri).
  assert (Hyt' : y <> t).
  { intros ->. rewrite (ri_top Hri) in Hlt. unfold len, MaxUint64 in Hlt. cbn [Start End] in Hlt. nia. }
  destruct (subtrees_parent t y Hy Hyt') as (z & Hz & Hyz).
  erewrite bind_ok by (apply mview_ctx, (parent_ok (with_data st0 d0) t (ri_shaped Hri) z y Hz Hyz)).
  assert (Hyr : troot y <> troot xr) by (intros E; rewrite E in Hlt; nia).
  unfold bytes_eqb. rewrite bool_decide_false by done.
  assert (Hbz : b ∈ nodes z) by (apply (nodes_sub z y); [by apply subtrees_child|done]).
  assert (Hzb : troot z <> b).
  { intros E. apply nodes_subtrees in Hb as (u & Hu & Eu). rewrite <- Eu in E. symmetry in E.
    by apply (nodup_root z y u (ri_nodup z Hz) Hyz Hu). }
  assert (Hq : isStrictAncestorOf (with_data st0 d0) (troot z) (troot xr) =
    Ok (bool_decide (troot z <> troot xr /\ troot xr ∈ nodes z))).
  { unfold isStrictAncestorOf, bytes_eqb. destruct (decide (troot z = troot xr)) as [E|E].
    - rewrite (bool_decide_true (_ = _)), bool_decide_false by naive_solver. done.
    - rewrite (bool_decide_false (_ = _)) by done.
      rewrite (tree_ancestor_intervals (with_data st0 d0) t (ri_shaped Hri) z xr Hz (proj1 (ri_root Hri))). f_equal.
      cbn [rs_data with_data]. pose proof (ri_query Hri z Hz Hzb) as Hq.
      rewrite <- (subtree_by_root t z xr ri_nodup_t Hz (proj1 (ri_root Hri))) in Hq.
      destruct (intervalContains _ _); [rewrite bool_decide_true by naive_solver|rewrite bool_decide_false by naive_solver]; done. }
  erewrite bind_ok by (apply mview_ctx; exact Hq).
  destruct (decide (troot z <> troot xr /\ troot xr ∈ nodes z)) as [[Hzr Hrz]|Hno].
  - rewrite bool_decide_true by done.
    apply reindex_reclaim; try done; [naive_solver| |lia]. apply (subtree_by_root t); [apply ri_nodup_t|done|apply (ri_root Hri)|done].
  - rewrite bool_decide_false by done. pose proof (tsize_child z y Hyz).
    apply (IH z c'); try done; [|lia]. intros Hrz. destruct (decide (troot z = troot xr)); [done|]. exfalso. naive_solver.
Qed.

End reindex.
