(* ===== verification/ReachAdd.v ===== *)
(** [addChild] and the invariant of the reachability tree. *)

From S2P Require Import Prelude Transaction Block Difficulty TxMass Ghostdag ReachInterval Reachability Reindex ReachTree.
From S2P Require Import ReindexCount ReindexPropagate ReindexReclaim ReindexChain ReindexAdd.

(** The invariant: the store holds the tree, its intervals are nested inside the
    full range, and the nodes above the reindex root leave it its room. *)
Record reach_ok (rt : reachabilityManager) (st : reach_store) (t : tree) : Prop := {
  ro_shaped : shaped (rs_data st) t;
  ro_dom : forall h, is_Some (rs_data st !! h) -> h ∈ nodes t;
  ro_nested : nested (iv (rs_data st)) t;
  ro_top : iv (rs_data st) (troot t) = newReachabilityInterval 1 (MaxUint64 - 1);
  ro_root : exists xr, rs_reindexRoot st = Some (troot xr) /\ xr ∈ subtrees t /\
    capped (reindexSlack rt) (iv (rs_data st)) (troot xr) t
}.

(** Slack of [2 * slack + 2] for every block outside the subtree of the reindex
    root, and room for as much again. *)
Definition fits (rt : reachabilityManager) (n : Z) : Prop :=
  0 <= reindexSlack rt /\ (3 * reindexSlack rt + 4) * n <= 2 ^ 64 - 2.

Lemma root_room rt st t xr : reach_ok rt st t -> 0 <= reindexSlack rt -> rs_reindexRoot st = Some (troot xr) ->
  xr ∈ subtrees t ->
  2 ^ 64 - 2 - (2 * reindexSlack rt + 2) * (tsize t - tsize xr) <= len (iv (rs_data st) (troot xr)).
Proof.
  intros [H1 _ H2 H3 (xr' & E & Hx' & Hc)] Hs Hr Hx. assert (xr' = xr) as ->.
  { apply (subtree_unique t); [apply H1|done|done|congruence]. }
  pose proof (capped_root _ _ t xr Hs (sh_nodup _ _ H1) H2 Hc Hx) as Hl. rewrite H3 in Hl.
  unfold len at 1 in Hl. unfold MaxUint64 in Hl. cbn [Start End] in Hl. lia.
Qed.

(** The data after a leaf [b] with interval [i] is added to [p]. *)
Definition add_data (p b : bytes) (i : ReachabilityInterval) (d : gmap bytes reachabilityData)
    : gmap bytes reachabilityData :=
  <[b := mk_reachabilityData [] (Some p) (Some i) []]> (alter (AddChild b) p d).

Section add.
Variable t : tree.
Variable d : gmap bytes reachabilityData.
Variables p b : bytes.
Variable xp : tree.
Context (Hsh : shaped d t) (Hp : xp ∈ subtrees t) (Exp : troot xp = p) (Hb : b ∉ nodes t).

Abbreviation ins := (insert_child p b).

Lemma p_in : p ∈ nodes t.
Proof. apply nodes_subtrees. eauto. Qed.

Lemma p_b : p <> b.
Proof. intros E. apply Hb. rewrite <- E. apply p_in. Qed.

Lemma old_b x : x ∈ subtrees t -> troot x <> b.
Proof. intros Hx E. apply Hb, nodes_subtrees. eauto. Qed.

Lemma leaf_in : leaf b ∈ subtrees (ins t).
Proof. apply subtrees_insert. right. split; [done|apply p_in]. Qed.

Lemma nodup_new : NoDup (nodes (ins t)).
Proof. apply nodup_insert; [apply Hsh|apply p_in|done]. Qed.

Lemma iv_add i h : iv (add_data p b i d) h = if decide (h = b) then i else iv d h.
Proof.
  unfold iv, add_data. rewrite lookup_insert. destruct (decide (b = h)) as [<-|Hne].
  - by rewrite decide_True.
  - rewrite decide_False by done. rewrite lookup_alter. case_decide as E; [|done]. subst h.
    by destruct (d !! p).
Qed.

Lemma add_lookup_old i x rd : x ∈ subtrees t -> d !! troot x = Some rd ->
  add_data p b i d !! troot x = Some (if decide (troot x = p) then AddChild b rd else rd).
Proof.
  intros Hx Hd. unfold add_data. rewrite lookup_insert_ne by (intros E; by apply (old_b x Hx)).
  rewrite lookup_alter. destruct (decide (p = troot x)) as [E|E].
  - rewrite decide_True, E, Hd by done. done.
  - by rewrite decide_False, Hd.
Qed.

Lemma add_shaped i : shaped (add_data p b i d) (ins t).
Proof.
  constructor.
  - apply nodup_new.
  - intros x [(y & Hy & ->)|[-> _]]%subtrees_insert.
    + destruct (sh_data _ _ Hsh y Hy) as (rd & j & Hd & Hc & Hi). rewrite troot_insert.
      rewrite (add_lookup_old i y rd Hy Hd), tsubs_insert, map_app, map_map.
      assert (E : map (fun c => troot (ins c)) (tsubs y) = Children rd).
      { rewrite Hc. apply map_ext. intros c. apply troot_insert. }
      rewrite E. case_decide.
      * exists (AddChild b rd), j. split_and!; [done|by cbn|done].
      * exists rd, j. split_and!; [done|by rewrite app_nil_r|done].
    + exists (mk_reachabilityData [] (Some p) (Some i) []), i. split_and!; [|done|done].
      unfold add_data. by rewrite lookup_insert_eq.
  - intros x c Hx Hc. apply subtrees_insert in Hx as [(y & Hy & ->)|[-> _]]; [|by apply not_elem_of_nil in Hc].
    rewrite tsubs_insert in Hc. apply elem_of_app in Hc as [Hc|Hc].
    + apply list_elem_of_fmap in Hc as (c' & -> & Hc'). rewrite !troot_insert.
      destruct (sh_parent _ _ Hsh y c' Hy Hc') as (rd & Hd & Hpar).
      rewrite (add_lookup_old i c' rd (subtrees_down t y c' Hy Hc') Hd). eexists. split; [done|]. case_decide; done.
    + case_decide as E; [|by apply not_elem_of_nil in Hc]. apply list_elem_of_singleton in Hc as ->.
      rewrite troot_insert, E. eexists. split; [unfold add_data; by rewrite lookup_insert_eq|done].
  - destruct (sh_root _ _ Hsh) as (rd & Hd & Hpar). rewrite troot_insert.
    rewrite (add_lookup_old i t rd (subtrees_self t) Hd). eexists. split; [done|]. case_decide; done.
Qed.

(** [e] is where the intervals of the children of [xp] end; that of the leaf
    begins there. *)
Variables s e : Z.
Variable i : ReachabilityInterval.
Hypothesis Htiles : tiles s (map (fun c => iv d (troot c)) (tsubs xp)) e.
Hypothesis Hs : Start (iv d p) <= s.
Hypothesis Hi : Start i = e /\ e <= End i + 1 /\ End i + 1 <= End (iv d p).

Lemma map_add y : y ∈ subtrees t ->
  map (fun c => iv (add_data p b i d) (troot c)) (tsubs (ins y)) =
  map (fun c => iv d (troot c)) (tsubs y) ++ if decide (troot y = p) then [i] else [].
Proof.
  intros Hy. rewrite tsubs_insert, map_app, map_map. f_equal.
  - apply map_ext_in. intros c Hc%list_elem_of_In. rewrite troot_insert, iv_add, decide_False; [done|].
    apply old_b. by apply (subtrees_down t y).
  - case_decide; [|done]. cbn. rewrite iv_add, decide_True; done.
Qed.

Lemma add_tiles_xp : tiles s (map (fun c => iv (add_data p b i d) (troot c)) (tsubs (ins xp))) (End i + 1).
Proof.
  rewrite map_add by done. rewrite decide_True by done. apply tiles_app. exists e. split; [done|]. cbn. lia.
Qed.

Lemma is_xp y : y ∈ subtrees t -> troot y = p -> y = xp.
Proof. intros Hy E. apply (subtree_unique t); [apply Hsh|done|done|congruence]. Qed.

Lemma add_local y : y ∈ subtrees t -> local_ok (iv d) y -> local_ok (iv (add_data p b i d)) (ins y).
Proof.
  intros Hy [H1 H2 H3 H4]. constructor; rewrite ?troot_insert, ?iv_add, ?decide_False by (by apply old_b); try done.
  destruct (decide (troot y = p)) as [E|E].
  - rewrite (is_xp y Hy E) in *. exists s, (End i + 1). rewrite Exp. split; [done|]. split; [lia|apply add_tiles_xp].
  - destruct H4 as (s' & e' & Hs' & He' & Ht'). exists s', e'. split; [done|]. split; [done|].
    rewrite map_add by done. rewrite decide_False by done. by rewrite app_nil_r.
Qed.

Lemma add_cap slk r y : y ∈ subtrees t -> r <> b -> r ∈ nodes y -> troot y <> r -> 0 <= slk ->
  (r ∈ nodes xp -> p <> r -> len i <= slk + 2) ->
  local_cap slk (iv d) r y -> local_cap slk (iv (add_data p b i d)) r (ins y).
Proof.
  intros Hy Hrb Hr Hne Hslk Hlen (s' & e' & Hs' & He' & Ht' & Hl').
  assert (Hold : forall w, w ∈ tsubs y -> r ∉ nodes (ins w) -> len (iv (add_data p b i d) (troot (ins w))) <= slk + 2 * tsize (ins w)).
  { intros w Hw Hrw. pose proof (subtrees_down t y w Hy Hw) as Hwt.
    pose proof (nodup_subtree t w (sh_nodup _ _ Hsh) Hwt) as Hnd.
    rewrite troot_insert, iv_add, decide_False by (by apply old_b).
    pose proof (tsize_insert p b w Hnd). rewrite nodes_insert_old in Hrw by done. specialize (Hl' w Hw Hrw). lia. }
  unfold local_cap. rewrite troot_insert, iv_add, decide_False by (by apply old_b).
  destruct (decide (troot y = p)) as [E|E].
  - rewrite (is_xp y Hy E) in *. exists s, (End i + 1). rewrite Exp in *.
    assert (Hsub : tsubs xp <> []).
    { intros Es. rewrite nodes_eq, Es in Hr. cbn in Hr. apply list_elem_of_singleton in Hr. congruence. }
    assert (Eq : s' = s /\ e' = e).
    { pose proof (tiles_len _ _ _ Htiles). pose proof (tiles_len _ _ _ Ht').
      destruct (tsubs xp) as [|v vs]; [done|]. cbn [map tiles] in Htiles, Ht'. lia. }
    destruct Eq as [-> ->]. split_and!; [lia..|apply add_tiles_xp|].
    intros w Hw. rewrite tsubs_insert in Hw. apply elem_of_app in Hw as [(w' & -> & Hw')%list_elem_of_fmap|Hw]; [by apply Hold|].
    rewrite decide_True in Hw by done. apply list_elem_of_singleton in Hw. subst w. intros _.
    rewrite iv_add, decide_True by done. pose proof (tsize_pos (leaf b)). specialize (Hlen Hr Hne). lia.
  - exists s', e'. split_and!; [lia..| |].
    + rewrite map_add by done. rewrite decide_False by done. by rewrite app_nil_r.
    + intros w Hw. rewrite tsubs_insert, decide_False, app_nil_r in Hw by done.
      apply list_elem_of_fmap in Hw as (w' & -> & Hw'). by apply Hold.
Qed.

Lemma add_capped slk r : r <> b -> 0 <= slk -> (r ∈ nodes xp -> p <> r -> len i <= slk + 2) ->
  capped slk (iv d) r t -> capped slk (iv (add_data p b i d)) r (ins t).
Proof.
  intros Hrb Hslk Hlen Hc z [(y & Hy & ->)|[-> _]]%subtrees_insert Hrz Hne.
  - pose proof (nodup_subtree t y (sh_nodup _ _ Hsh) Hy) as Hnd.
    rewrite nodes_insert_old in Hrz by done. rewrite troot_insert in Hne. apply add_cap; try done. by apply Hc.
  - exfalso. rewrite nodes_eq in Hrz. cbn in Hrz. by apply list_elem_of_singleton in Hrz.
Qed.

End add.

(** * addChild *)

Lemma update_ok (f : reachabilityData -> reachabilityData) st h rd i : rs_data st !! h = Some rd -> Interval rd = Some i ->
  (let* data := view (fun st => reachabilityDataForInsertion st h) in stageData h (f data)) st =
    (Ok tt, with_data st (alter f h (rs_data st))).
Proof.
  intros Hd Hi. unfold view, reachabilityDataForInsertion, ReachabilityData, bind. rewrite Hd. unfold CloneMutable. rewrite Hi. cbn.
  unfold stageData, modify, with_data. do 2 f_equal. apply map_eq. intros k. destruct (decide (k = h)) as [->|Hk].
  - by rewrite lookup_insert_eq, lookup_alter_eq, Hd.
  - by rewrite lookup_insert_ne, lookup_alter_ne by done.
Qed.

(** The room after the last child. *)
Lemma remainingIntervalAfter_ok st t q : shaped (rs_data st) t -> q ∈ subtrees t -> local_ok (iv (rs_data st)) q ->
  exists s e, Start (iv (rs_data st) (troot q)) <= s /\ s <= e <= End (iv (rs_data st) (troot q)) /\
    tiles s (map (fun c => iv (rs_data st) (troot c)) (tsubs q)) e /\
    remainingIntervalAfter st (troot q) = Ok (newReachabilityInterval e (End (iv (rs_data st) (troot q)) - 1)).
Proof.
  intros Hsh Hq [H1 H2 H3 (s & e & Hs & He & Ht)]. pose proof (tiles_le _ _ _ Ht) as Hse.
  unfold remainingIntervalAfter, intervalRangeForChildAllocation.
  rewrite (interval_ok st) by (by apply (node_interval st t)). cbn [bind_res deref]. rewrite (uint64_id (_ - 1)) by lia.
  rewrite (children_ok st t Hsh q Hq). cbn [bind_res].
  destruct (decide (tsubs q = [])) as [E|E].
  - rewrite E. exists (Start (iv (rs_data st) (troot q))), (Start (iv (rs_data st) (troot q))). split_and!; [lia..|done|done].
  - exists s, e. destruct (exists_last E) as (cs & c & Ec). split_and!; [lia..|done|].
    rewrite Ec, map_app in Ht |- *. cbn [map] in Ht |- *. rewrite last_snoc. apply tiles_last in Ht as Hc.
    rewrite (interval_ok st) by (apply (node_interval st t Hsh), (subtrees_down t q); [done|rewrite Ec; apply elem_of_app; right; left]).
    cbn [bind_res deref End]. rewrite <- Hc, uint64_id by lia. done.
Qed.

Lemma add_leaf_last p b t z l y r : NoDup (nodes (insert_child p b t)) -> b ∉ nodes t -> p ∈ nodes t ->
  z ∈ subtrees (insert_child p b t) -> tsubs z = l ++ y :: r -> leaf b ∉ l.
Proof.
  intros Hnd Hb Hp Hz E Hl. pose proof (nodup_children z (nodup_subtree _ z Hnd Hz)) as Hn.
  apply subtrees_insert in Hz as [(z0 & Hz0 & ->)|[-> _]]; [|by destruct l].
  rewrite tsubs_insert in E. case_decide as Ez.
  - assert (Hr : leaf b ∈ y :: r).
    { destruct (exists_last (l := y :: r)) as (r' & u & Er); [done|]. rewrite Er, app_assoc in E.
      apply app_inj_tail in E as [_ ->]. rewrite Er. apply elem_of_app. right. left. }
    rewrite tsubs_insert, decide_True, E, map_app in Hn by done. apply NoDup_app in Hn as (_ & Hd & _).
    apply (Hd b); apply list_elem_of_fmap; exists (leaf b); done.
  - rewrite app_nil_r in E. assert (Hin : leaf b ∈ map (insert_child p b) (tsubs z0)) by (rewrite E; apply elem_of_app; by left).
    apply list_elem_of_fmap in Hin as (w & Ew & Hw). apply (f_equal troot) in Ew. rewrite troot_insert in Ew. cbn in Ew.
    apply Hb, nodes_subtrees. exists w. split; [by apply (subtrees_down t z0)|done].
Qed.

Section add_child.
Context `{FloatConversion}.
Variable rt : reachabilityManager.
Variable fuel : nat.
Variable st : reach_store.
Variable t : tree.
Variables p b : bytes.
Variable xp : tree.
Abbreviation d := (rs_data st).
Abbreviation ins := (insert_child p b).
Context (Hok : reach_ok rt st t) (Hp : xp ∈ subtrees t) (Exp : troot xp = p) (Hb : b ∉ nodes t).
Context (Hfits : fits rt (tsize t + 1)) (Hfuel : tsize t + 1 <= Z.of_nat fuel).

(** The store once the data of [b] is staged. *)
Definition staged : reach_store := with_data st (<[b := newReachabilityTreeData]> d).

Lemma staged_other h : h <> b -> rs_data staged !! h = d !! h.
Proof. intros Hh. cbn. by rewrite lookup_insert_ne. Qed.

Lemma staged_iv h : h <> b -> iv (rs_data staged) h = iv d h.
Proof. intros Hh. unfold iv. by rewrite staged_other. Qed.

Lemma staged_shaped : shaped (rs_data staged) t.
Proof.
  destruct Hok as [[H1 H2 H3 H4] _ _ _ _]. constructor; [done| | |].
  - intros x Hx. rewrite staged_other by (by apply (old_b t b)). by apply H2.
  - intros x c Hx Hc. rewrite staged_other by (by apply (old_b t b Hb), (subtrees_down t x)). by apply (H3 x c).
  - rewrite staged_other by (apply (old_b t b Hb), subtrees_self). done.
Qed.

Lemma staged_nested : nested (iv (rs_data staged)) t.
Proof.
  apply (nested_ext (iv d)); [|apply Hok]. intros h Hh. symmetry. apply staged_iv. intros ->. by apply Hb.
Qed.

(** The two nodes linked. *)
Definition linked : reach_store := with_data st (alter (SetParent p) b (alter (AddChild b) p (rs_data staged))).

Lemma linked_ok : exists st', stageAddChild p b staged = (Ok tt, st') /\ stageParent b p st' = (Ok tt, linked).
Proof.
  assert (Hpb : p <> b) by (by apply (p_b t _ _ xp)).
  destruct (sh_data _ _ (ro_shaped _ _ _ Hok) xp Hp) as (rd & j & Hd & Hc & Hi). rewrite Exp in Hd.
  eexists. split.
  - apply (update_ok (AddChild b) _ _ rd j); [|done]. by rewrite staged_other.
  - unfold linked, stageParent. cbn [staged with_data rs_data]. rewrite (update_ok (SetParent p) _ _ newReachabilityTreeData (newReachabilityInterval 1 (MaxUint64 - 1))); [done| |done].
    cbn. rewrite lookup_alter_ne, lookup_insert_eq by done. done.
Qed.

Lemma linked_interval i : stageInterval b i linked = (Ok tt, with_data st (add_data p b i d)).
Proof.
  assert (Hpb : p <> b) by (by apply (p_b t _ _ xp)).
  unfold stageInterval. rewrite (update_ok (SetInterval i) _ _ (SetParent p newReachabilityTreeData) (newReachabilityInterval 1 (MaxUint64 - 1))); [|by cbn; rewrite lookup_alter_eq, lookup_alter_ne, lookup_insert_eq by done|done].
  f_equal. unfold linked, add_data, with_data. cbn. f_equal. apply map_eq. intros h. destruct (decide (h = b)) as [->|Hh].
  - rewrite lookup_insert_eq, !lookup_alter_eq, lookup_alter_ne, lookup_insert_eq by done. done.
  - rewrite lookup_insert_ne by done. rewrite !(lookup_alter_ne _ _ b) by done.
    destruct (decide (h = p)) as [->|Hhp]; [rewrite !lookup_alter_eq|rewrite !lookup_alter_ne by done]; by rewrite lookup_insert_ne by done.
Qed.

(** What adding the leaf achieves. *)
Definition child_added (d' : gmap bytes reachabilityData) : Prop :=
  reach_ok rt (with_data st d') (ins t) /\ exists i, same_shape (add_data p b i d) d'.

Lemma add_dom i h : is_Some (add_data p b i d !! h) -> h ∈ nodes (ins t).
Proof.
  unfold add_data. rewrite lookup_insert, lookup_alter. intros Hh.
  apply nodes_insert_in; [apply Hok|by apply (p_in t _ xp)|]. case_decide as E; [by left|]. right. apply (ro_dom _ _ _ Hok).
  case_decide; [|done]. subst h. by rewrite fmap_is_Some in Hh.
Qed.

Lemma added d' i : same_shape (add_data p b i d) d' -> nested (iv d') (ins t) ->
  (forall xr, rs_reindexRoot st = Some (troot xr) -> xr ∈ subtrees t -> capped (reindexSlack rt) (iv d') (troot xr) (ins t)) ->
  iv d' (troot t) = iv d (troot t) -> child_added d'.
Proof.
  intros Hs Hn Hc Ht. split; [|eauto]. destruct (ro_root _ _ _ Hok) as (xr & Hr & Hxr & _). constructor.
  - cbn. eapply shaped_same; [exact Hs|]. by apply (add_shaped t d p b xp (ro_shaped _ _ _ Hok) Hp Exp Hb).
  - intros h Hh. apply (add_dom i). cbn in Hh. destruct Hh as [rd Hh].
    destruct (same_shape_lookup d' (add_data p b i d) h rd) as (rd' & -> & _); [by symmetry|done|done].
  - done.
  - rewrite troot_insert. cbn. rewrite Ht. apply Hok.
  - exists (ins xr). rewrite troot_insert. split; [done|]. split; [apply subtrees_insert; left; eauto|by apply Hc].
Qed.

(** The leaf gets a part of the room. *)
Section placed.
Variables (s e : Z) (i : ReachabilityInterval).
Hypothesis Htiles : tiles s (map (fun c => iv d (troot c)) (tsubs xp)) e.
Hypothesis Hs : Start (iv d p) <= s.
Hypothesis Hi : Start i = e /\ e <= End i + 1 /\ End i + 1 <= End (iv d p).

Lemma placed_capped xr : rs_reindexRoot st = Some (troot xr) -> xr ∈ subtrees t ->
  capped (reindexSlack rt) (iv (add_data p b i d)) (troot xr) (ins t).
Proof.
  intros Hr Hxr. destruct (ro_root _ _ _ Hok) as (xr' & Hr' & Hx' & Hc).
  rewrite (subtree_unique t xr xr' (sh_nodup _ _ (ro_shaped _ _ _ Hok)) Hxr Hx') in * by congruence.
  apply (add_capped t d p b xp (ro_shaped _ _ _ Hok) Hp Exp Hb s e i Htiles Hs Hi); [by apply (old_b t b)|apply Hfits| |done].
  intros Hin Hne. rewrite <- Exp in Hne. destruct (Hc xp Hp Hin Hne) as (s' & e' & Hs' & He' & Ht' & _).
  assert (Eq : e' = e).
  { pose proof (tiles_len _ _ _ Htiles). pose proof (tiles_len _ _ _ Ht').
    destruct (tsubs xp) as [|v vs] eqn:Ev; [|cbn [map tiles] in Htiles, Ht'; lia].
    exfalso. rewrite nodes_eq, Ev in Hin. cbn in Hin. apply list_elem_of_singleton in Hin. congruence. }
  unfold len. rewrite Exp in He'. lia.
Qed.

Lemma placed_local y : y ∈ subtrees t -> local_ok (iv (add_data p b i d)) (ins y).
Proof.
  intros Hy. apply (add_local t d p b xp (ro_shaped _ _ _ Hok) Hp Exp Hb s e i Htiles Hs Hi y Hy). by apply (ro_nested _ _ _ Hok).
Qed.

Lemma placed_top : iv (add_data p b i d) (troot t) = iv d (troot t).
Proof. rewrite iv_add. rewrite decide_False; [done|]. apply (old_b t b Hb), subtrees_self. Qed.

(** If it is not empty, that is all. *)
Lemma placed_ok : Start i <= End i -> child_added (add_data p b i d).
Proof.
  intros Hne. apply (added _ i); [done| |apply placed_capped|apply placed_top].
  intros z [(y & Hy & ->)|[-> _]]%subtrees_insert; [by apply placed_local|].
  destruct (nested_in_range _ _ (nested_subtree _ _ _ (ro_nested _ _ _ Hok) Hp)) as (R1 & R2 & R3). rewrite Exp in *.
  pose proof (tiles_le _ _ _ Htiles).
  constructor; cbn [troot leaf]; rewrite iv_add, decide_True by done; [lia..|].
  exists (Start i), (Start i). split_and!; [lia..|done].
Qed.

(** If it is, the tree has to be reindexed. *)
Lemma placed_reindexable xr : rs_reindexRoot st = Some (troot xr) -> xr ∈ subtrees t -> len i = 0 ->
  reindexable (ins t) (with_data st (add_data p b i d)) rt fuel b (ins xr).
Proof.
  intros Hr Hxr Hlen. pose proof (ro_shaped _ _ _ Hok) as Hsh. pose proof (sh_nodup _ _ Hsh) as Hnd.
  assert (Hpt : p ∈ nodes t) by (by apply (p_in t _ xp)). assert (Hsz : tsize (ins t) = tsize t + 1) by (by apply tsize_insert_in).
  destruct Hfits as [Hslk Hbig].
  assert (Hold : forall y, y ∈ subtrees t -> iv (add_data p b i d) (troot (ins y)) = iv d (troot y)).
  { intros y Hy. rewrite troot_insert, iv_add, decide_False; [done|by apply (old_b t b)]. }
  constructor; cbn [rs_data with_data]; rewrite ?Hsz.
  - by apply (add_shaped t d p b xp).
  - lia.
  - done.
  - done.
  - by apply (leaf_in t p b xp).
  - rewrite iv_add, decide_True by done. split; [|done]. pose proof (tiles_le _ _ _ Htiles).
    destruct (nested_in_range _ _ (nested_subtree _ _ _ (ro_nested _ _ _ Hok) Hp)) as (R1 & R2 & R3). rewrite Exp in *.
    unfold in_range. lia.
  - intros z l y r. apply add_leaf_last; [by apply nodup_insert|done|done].
  - intros z [(y & Hy & ->)|[-> _]]%subtrees_insert Hz; [by apply placed_local|done].
  - rewrite troot_insert, placed_top. apply Hok.
  - split; [apply subtrees_insert; left; eauto|]. rewrite troot_insert. by apply (old_b t b).
  - intros z [(y & Hy & ->)|[-> _]]%subtrees_insert Hz; [|done]. rewrite !Hold by done.
    rewrite (intervalContains_iff (iv d) t y xr Hnd (ro_nested _ _ _ Hok) Hy Hxr).
    rewrite <- (subtree_by_root t y xr) by done. rewrite <- (nodes_insert_old p b y) by (try (by apply (old_b t b)); by eapply nodup_subtree).
    rewrite <- (troot_insert p b xr). apply (subtree_by_root (ins t)); [by apply nodup_insert|apply subtrees_insert; left; eauto..].
  - rewrite troot_insert. by apply placed_capped.
  - rewrite Hold by done. pose proof (root_room rt st t xr Hok Hslk Hr Hxr). pose proof (tsize_subtree t xr Hxr). pose proof (tsize_pos xr). nia.
Qed.

Lemma placed_reindex : len i = 0 -> forall r, rs_reindexRoot st = Some r ->
  exists d', newReindexContext (reindexIntervals rt fuel b r) (with_data st (add_data p b i d)) = (Ok tt, with_data st d') /\
    child_added d'.
Proof.
  intros Hlen r Hr. destruct (ro_root _ _ _ Hok) as (xr & Hr' & Hxr & _). rewrite Hr in Hr'. injection Hr' as ->.
  pose proof (placed_reindexable xr Hr Hxr Hlen) as Hri.
  pose proof (tsize_insert_in p b t (sh_nodup _ _ (ro_shaped _ _ _ Hok)) (p_in t _ xp Hp Exp)) as Hsz.
  destruct (reindex_loop_ok (ins t) (with_data st (add_data p b i d)) rt fuel b (ins xr) Hri fuel (leaf b) ∅)
    as (d' & c' & Hrun & [Hg _] & Hn & Hc & Ht).
  - by apply (leaf_in t p b xp).
  - rewrite nodes_eq. left.
  - rewrite troot_insert. rewrite nodes_eq. cbn. intros Hx%list_elem_of_singleton. done.
  - intros x _ [? Hx]. by rewrite lookup_empty in Hx.
  - pose proof (tsize_pos (leaf b)). lia.
  - exists d'. split.
    + unfold newReindexContext, reindexIntervals. rewrite troot_insert in Hrun. unfold ctx, with_data in Hrun. cbn in Hrun.
      unfold with_data. rewrite Hrun. done.
    + rewrite troot_insert in *. cbn [rs_data with_data] in *. apply (added _ i); [done|done| |by rewrite Ht; apply placed_top].
      intros xr' Hr' Hxr'. rewrite (subtree_unique t xr' xr) by (try done; try apply Hok; congruence). done.
Qed.

End placed.

(** Adding a child to a node of the tree always succeeds. *)
Lemma addChild_ok r : rs_reindexRoot st = Some r ->
  exists d', addChild rt fuel p b r staged = (Ok tt, with_data st d') /\ child_added d'.
Proof.
  intros Hr. assert (Hpb : p <> b) by (by apply (p_b t _ _ xp)).
  destruct (remainingIntervalAfter_ok staged t xp staged_shaped Hp (staged_nested xp Hp)) as (s & e & Hs & He & Ht & Hrem).
  rewrite Exp, staged_iv in * by done.
  assert (Ht' : tiles s (map (fun c => iv d (troot c)) (tsubs xp)) e).
  { erewrite map_ext_in; [exact Ht|]. intros c Hc%list_elem_of_In. symmetry. apply staged_iv.
    by apply (old_b t b Hb), (subtrees_down t xp). }
  destruct (nested_in_range _ _ (nested_subtree _ _ _ (ro_nested _ _ _ Hok) Hp)) as (R1 & R2 & R3). rewrite Exp in *.
  destruct linked_ok as (st' & Hl1 & Hl2). unfold addChild.
  erewrite bind_ok by (unfold view; rewrite Hrem; reflexivity). cbv beta. erewrite bind_ok by exact Hl1.
  erewrite bind_ok by exact Hl2. set (rem := newReachabilityInterval e (End (iv d p) - 1)).
  assert (Hrr : in_range rem) by (unfold in_range, rem; cbn; lia). rewrite intervalSize_len by done.
  destruct (Z.eqb_spec (len rem) 0) as [E|E].
  - erewrite bind_ok by apply linked_interval.
    apply (placed_reindex s e rem Ht' Hs); [unfold rem; cbn; lia|done|done].
  - destruct (intervalSplitInHalf_spec rem Hrr) as (a & Ha & Hsplit); [unfold len, rem in *; cbn in *; lia|].
    erewrite bind_ok by (unfold lift; rewrite Hsplit; reflexivity). cbv beta. cbn [fst].
    eexists. split; [apply linked_interval|]. unfold len, rem in *; cbn in *.
    apply (placed_ok s e); [done|done|cbn; lia|cbn; lia].
Qed.

End add_child.
