(* ===== verification/ReachFuture.v ===== *)
(** Future covering sets: what the reachability manager answers about the DAG.
    Together with the tree, the sets decide ancestry, and [AddBlock] keeps them. *)

From Stdlib Require Import Sorted.
From S2P Require Import Prelude Transaction Block Difficulty TxMass Ghostdag GhostdagMergeSet ReachInterval Reachability.
From S2P Require Import Reindex ReachTree ReindexCount ReindexPropagate ReindexReclaim ReindexChain ReindexAdd ReachAdd.

(** Membership in lists put together from pieces. *)
Ltac mem := repeat rewrite ?elem_of_app, ?elem_of_cons, ?list_elem_of_singleton; tauto.

Lemma slice_left {E S A} (l1 l2 : list A) (s : S) : slice (E := E) (l1 ++ l2) 0 (zlen l1) s = (Ok l1, s).
Proof.
  unfold slice, lift, slice_res. pose proof (zlen_nonneg l1). pose proof (zlen_nonneg l2). rewrite zlen_app.
  rewrite !(proj2 (Z.leb_le _ _)) by lia. cbn [andb]. by rewrite sliceZ_prefix.
Qed.

Lemma slice_right {E S A} (l1 l2 : list A) (s : S) : slice (E := E) (l1 ++ l2) (zlen l1) (zlen (l1 ++ l2)) s = (Ok l2, s).
Proof.
  unfold slice, lift, slice_res. pose proof (zlen_nonneg l1). pose proof (zlen_nonneg l2). rewrite zlen_app.
  rewrite !(proj2 (Z.leb_le _ _)) by lia. cbn [andb]. by rewrite sliceZ_suffix.
Qed.

(** * Order of the tree *)

(** [B] is in the subtree of [x]. *)
Definition tree_anc (t : tree) (x B : bytes) : Prop := exists u, u ∈ subtrees t /\ troot u = x /\ B ∈ nodes u.

(** [y] and [z] are below different children of a node, that of [y] first. *)
Definition precedes (t : tree) (y z : bytes) : Prop :=
  exists q l1 c1 l2 c2 l3, q ∈ subtrees t /\ tsubs q = l1 ++ c1 :: l2 ++ c2 :: l3 /\ y ∈ nodes c1 /\ z ∈ nodes c2.

Lemma tree_anc_sub t c x B : c ∈ tsubs t -> tree_anc c x B -> tree_anc t x B.
Proof.
  intros Hc (u & Hu & E & HB). exists u. split; [|done]. apply (subtrees_trans t c); [done|by apply subtrees_child].
Qed.

Lemma precedes_sub t c y z : c ∈ tsubs t -> precedes c y z -> precedes t y z.
Proof.
  intros Hc (q & l1 & c1 & l2 & c2 & l3 & Hq & H). exists q, l1, c1, l2, c2, l3. split; [|done].
  apply (subtrees_trans t c); [done|by apply subtrees_child].
Qed.

(** Two nodes are related by ancestry or by order. *)
Lemma tree_order t y z : y ∈ nodes t -> z ∈ nodes t ->
  tree_anc t y z \/ tree_anc t z y \/ precedes t y z \/ precedes t z y.
Proof.
  induction t as [h cs IH] using tree_induction. intros Hy Hz.
  assert (Hroot : forall x, x ∈ nodes (Node h cs) -> tree_anc (Node h cs) h x).
  { intros x Hx. exists (Node h cs). split; [apply subtrees_self|done]. }
  rewrite nodes_eq, elem_of_cons in Hy, Hz. cbn [troot tsubs] in Hy, Hz.
  destruct Hy as [->|Hy]; [left; apply Hroot; rewrite nodes_eq, elem_of_cons; tauto|].
  destruct Hz as [->|Hz]; [right; left; apply Hroot; rewrite nodes_eq, elem_of_cons; tauto|].
  apply elem_of_concat_map in Hy as (c1 & Hc1 & Hy). apply elem_of_concat_map in Hz as (c2 & Hc2 & Hz).
  apply list_elem_of_split in Hc1 as Hs. destruct Hs as (l & r & E).
  assert (Hc : c2 ∈ l \/ c2 = c1 \/ c2 ∈ r) by (rewrite E, elem_of_app, elem_of_cons in Hc2; tauto).
  destruct Hc as [Hc|[->|Hc]].
  - apply list_elem_of_split in Hc as (l1 & l2 & ->). right; right; right.
    exists (Node h cs), l1, c2, l2, c1, r. split; [apply subtrees_self|]. cbn [tsubs]. by rewrite E, <- app_assoc.
  - destruct (IH c1 Hc1 Hy Hz) as [?|[?|[?|?]]].
    + left. by apply (tree_anc_sub _ c1).
    + right; left. by apply (tree_anc_sub _ c1).
    + right; right; left. by apply (precedes_sub _ c1).
    + right; right; right. by apply (precedes_sub _ c1).
  - apply list_elem_of_split in Hc as (r1 & r2 & ->). right; right; left.
    exists (Node h cs), l, c1, r1, c2, r2. split; [apply subtrees_self|done].
Qed.

Lemma precedes_nodes t y z : precedes t y z -> y ∈ nodes t /\ z ∈ nodes t.
Proof.
  intros (q & l1 & c1 & l2 & c2 & l3 & Hq & E & Hy & Hz).
  split; [apply (nodes_sub t c1)|apply (nodes_sub t c2)]; try done; apply (subtrees_down t q); try done;
    rewrite E; mem.
Qed.

Lemma tree_anc_nodes t x B : tree_anc t x B -> x ∈ nodes t /\ B ∈ nodes t.
Proof. intros (u & Hu & <- & HB). split; [apply nodes_subtrees; eauto|by apply (nodes_sub t u)]. Qed.

Lemma tree_anc_trans t x y z : NoDup (nodes t) -> tree_anc t x y -> tree_anc t y z -> tree_anc t x z.
Proof.
  intros Hnd (u & Hu & Eu & Hy) (v & Hv & Ev & Hz). exists u. split_and!; try done.
  rewrite <- Ev in Hy. apply (subtree_by_root t) in Hy; [|done..]. by apply (nodes_sub u v).
Qed.

(** Reachability of blocks by intervals. *)
Section intervals.
Variable f : bytes -> ReachabilityInterval.
Variable t : tree.
Context (Hnd : NoDup (nodes t)) (Hn : nested f t).

Lemma node_bounds x : x ∈ nodes t -> Start (f x) <= End (f x).
Proof. intros (u & Hu & <-)%nodes_subtrees. apply (Hn u Hu). Qed.

Lemma tree_anc_bounds x B : tree_anc t x B -> Start (f x) <= Start (f B) /\ End (f B) <= End (f x).
Proof.
  intros (u & Hu & <- & (v & Hv & <-)%nodes_subtrees).
  destruct (nested_within f u v (nested_subtree _ _ _ Hn Hu) Hv) as (H1 & H2 & _). lia.
Qed.

Lemma precedes_bounds y z : precedes t y z -> End (f y) < Start (f z).
Proof.
  intros (q & l1 & c1 & l2 & c2 & l3 & Hq & E & Hy & Hz).
  pose proof (siblings_order f q l1 c1 (l2 ++ c2 :: l3) c2 (Hn q Hq) E) as Hlt.
  assert (H1 : c1 ∈ subtrees t) by (apply (subtrees_down t q); [done|rewrite E; mem]).
  assert (H2 : c2 ∈ subtrees t).
  { apply (subtrees_down t q); [done|rewrite E; mem]. }
  destruct (tree_anc_bounds (troot c1) y) as [_ Hb1]; [by exists c1|].
  destruct (tree_anc_bounds (troot c2) z) as [Hb2 _]; [by exists c2|].
  specialize (Hlt ltac:(mem)). lia.
Qed.

End intervals.

(** Adding a leaf keeps the order of the other nodes. *)
Section leaf.
Variable t : tree.
Variables p b : bytes.
Context (Hnd : NoDup (nodes t)) (Hp : p ∈ nodes t) (Hb : b ∉ nodes t).
Abbreviation ins := (insert_child p b).

Lemma nodes_grow u h : h ∈ nodes u -> h ∈ nodes (ins u).
Proof.
  intros (v & Hv & <-)%nodes_subtrees. apply nodes_subtrees. exists (ins v). split; [|apply troot_insert].
  apply subtrees_insert. left. eauto.
Qed.

Lemma precedes_insert y z : precedes t y z -> precedes (ins t) y z.
Proof.
  intros (q & l1 & c1 & l2 & c2 & l3 & Hq & E & Hy & Hz).
  exists (ins q), (map ins l1), (ins c1), (map ins l2), (ins c2),
    (map ins l3 ++ if decide (troot q = p) then [leaf b] else []).
  split; [apply subtrees_insert; left; eauto|]. split; [|by split; apply nodes_grow].
  rewrite tsubs_insert, E, !map_app. cbn [map]. rewrite map_app. cbn [map]. rewrite <- !app_assoc. cbn [app].
  by rewrite <- !app_assoc.
Qed.

Lemma tree_anc_insert x B : x <> b -> B <> b -> tree_anc (ins t) x B <-> tree_anc t x B.
Proof.
  intros Hx HB. split.
  - intros (u & Hu & Eu & Hin). apply subtrees_insert in Hu as [(v & Hv & ->)|[-> _]]; [|done].
    rewrite troot_insert in Eu. exists v. split_and!; try done.
    apply (nodes_insert_old p b v B) in Hin; [done|by eapply nodup_subtree|done].
  - intros (u & Hu & Eu & Hin). exists (ins u). split; [apply subtrees_insert; left; eauto|].
    rewrite troot_insert. split; [done|by apply nodes_grow].
Qed.

Lemma tree_anc_leaf x : tree_anc (ins t) x b <-> x = b \/ tree_anc t x p.
Proof.
  assert (Hleaf : leaf b ∈ subtrees (ins t)) by (apply subtrees_insert; by right).
  split.
  - intros (u & Hu & Eu & Hin). apply subtrees_insert in Hu as [(v & Hv & ->)|[-> _]]; [|by left].
    rewrite troot_insert in Eu. right. exists v. split_and!; try done.
    destruct (decide (p ∈ nodes v)) as [|Hpv]; [done|]. rewrite insert_other in Hin by done. exfalso.
    apply Hb. by apply (nodes_sub t v).
  - intros [->|(v & Hv & Ev & Hin)].
    + exists (leaf b). split_and!; [done|done|]. rewrite nodes_eq. left.
    + exists (ins v). split; [apply subtrees_insert; left; eauto|]. rewrite troot_insert. split; [done|].
      apply nodes_insert_in; [by eapply nodup_subtree|done|by left].
Qed.

(** The leaf has nothing below it. *)
Lemma leaf_only B : tree_anc (ins t) b B -> B = b.
Proof.
  intros (u & Hu & Eu & Hin). apply subtrees_insert in Hu as [(v & Hv & ->)|[-> _]].
  - exfalso. rewrite troot_insert in Eu. apply Hb, nodes_subtrees. eauto.
  - rewrite nodes_eq in Hin. cbn in Hin. by apply list_elem_of_singleton in Hin.
Qed.

End leaf.

(** * The set of a block *)

Definition fcs (d : gmap bytes reachabilityData) (x : bytes) : list bytes :=
  match d !! x with Some rd => FutureCoveringSet rd | None => [] end.

(** A sorted set, split at the end of a block. *)
Lemma split_ordered t f l B : NoDup (nodes t) -> nested f t -> StronglySorted (precedes t) l -> 
  (forall y, y ∈ l -> y ∈ nodes t) ->
  exists l1 l2, l = l1 ++ l2 /\ (forall y, y ∈ l1 -> Start (f y) <= End (f B)) /\ (forall y, y ∈ l2 -> End (f B) < Start (f y)).
Proof.
  intros Hnd Hn Hs Hin. induction Hs as [|y l Hs IH Hy]; [by exists [], []; split_and!; [|intros y Hy; by apply not_elem_of_nil in Hy..]|].
  destruct IH as (l1 & l2 & -> & H1 & H2); [intros z Hz; apply Hin; by right|].
  destruct (Z.le_gt_cases (Start (f y)) (End (f B))) as [Hle|Hgt].
  - exists (y :: l1), l2. split; [done|]. split; [|done]. intros z [->|Hz]%elem_of_cons; auto.
  - exists [], (y :: l1 ++ l2). split; [done|]. split; [intros z Hz; by apply not_elem_of_nil in Hz|].
    intros z [->|Hz]%elem_of_cons; [lia|]. rewrite Forall_forall in Hy.
    pose proof (precedes_bounds f t Hn y z (Hy z Hz)). pose proof (node_bounds f t Hn y (Hin y ltac:(left))). lia.
Qed.

(** Of the members that start before the end of [B] only the last can be an
    ancestor of it. *)
Lemma last_covers t f l1 c l2 B y : NoDup (nodes t) -> nested f t -> StronglySorted (precedes t) (l1 ++ [c] ++ l2) ->
  (forall z, z ∈ l1 ++ [c] -> Start (f z) <= End (f B)) -> (forall z, z ∈ l2 -> End (f B) < Start (f z)) ->
  B ∈ nodes t -> y ∈ l1 ++ [c] ++ l2 -> tree_anc t y B -> y = c.
Proof.
  intros Hnd Hn Hs H1 H2 HB Hy Ha. destruct (tree_anc_bounds f t Hn y B Ha) as [Ha1 Ha2].
  pose proof (node_bounds f t Hn B HB). rewrite !elem_of_app, list_elem_of_singleton in Hy.
  destruct Hy as [Hy|[->|Hy]]; [|done|].
  - assert (Hp : precedes t y c).
    { clear -Hs Hy. induction l1 as [|z l1 IH]; [by apply not_elem_of_nil in Hy|]. cbn in Hs.
      apply StronglySorted_inv in Hs as [Hs Hf]. apply elem_of_cons in Hy as [->|Hy]; [|by apply IH].
      rewrite Forall_forall in Hf. apply Hf. mem. }
    pose proof (precedes_bounds f t Hn y c Hp). specialize (H1 c ltac:(mem)). lia.
  - specialize (H2 y Hy). lia.
Qed.

(** * Ancestry *)

Section dag.
Variable par : bytes -> list bytes.

(** The sets of the blocks of [t]: later blocks, sorted, and for every pair in
    [R] that the tree does not relate a member that covers it. *)
Record fcs_ok (t : tree) (R : bytes -> bytes -> Prop) (d : gmap bytes reachabilityData) : Prop := {
  fc_sound : forall x y, y ∈ fcs d x -> y ∈ nodes t /\ anc par x y;
  fc_sorted : forall x, StronglySorted (precedes t) (fcs d x);
  fc_cover : forall x B, x ∈ nodes t -> B ∈ nodes t -> R x B ->
    tree_anc t x B \/ exists y, y ∈ fcs d x /\ tree_anc t y B
}.

(** The tree is made of edges of the DAG. *)
Definition tree_edges (t : tree) : Prop := forall u c, u ∈ subtrees t -> c ∈ tsubs u -> troot u ∈ par (troot c).

Lemma tree_edges_sound t x B : tree_edges t -> tree_anc t x B -> anc par x B.
Proof.
  intros He (u & Hu & <- & (v & Hv & <-)%nodes_subtrees).
  assert (Heu : tree_edges u) by (intros w c Hw; apply He; by eapply subtrees_trans). clear He Hu t.
  induction u as [h cs IH] using tree_induction. apply subtrees_inv in Hv as [->|(c & Hc & Hv)]; [constructor|].
  cbn [tsubs] in Hc. eapply rtc_l; [apply (Heu (Node h cs) c); [apply subtrees_self|done]|]. apply (IH c Hc); [done|].
  intros w e Hw. apply Heu. apply (subtrees_trans _ c); [done|by apply subtrees_child].
Qed.

Lemma futureCoveringSet_ok st x : is_Some (rs_data st !! x) -> futureCoveringSet st x = Ok (fcs (rs_data st) x).
Proof. intros [rd Hrd]. unfold futureCoveringSet, ReachabilityData, fcs. rewrite Hrd. done. Qed.

Lemma shaped_some d t h : shaped d t -> h ∈ nodes t -> is_Some (d !! h).
Proof. intros Hs Hh. destruct (shaped_has d t h Hs Hh) as (rd & i & Hd & _). eauto. Qed.

Lemma tree_query rt st t x B : reach_ok rt st t -> x ∈ nodes t -> B ∈ nodes t ->
  exists r, IsReachabilityTreeAncestorOf st x B = Ok r /\ (r = true <-> tree_anc t x B).
Proof.
  intros Hok (u & Hu & <-)%nodes_subtrees (v & Hv & <-)%nodes_subtrees.
  pose proof (ro_shaped _ _ _ Hok) as Hsh.
  rewrite (tree_ancestor_intervals st t Hsh u v Hu Hv). eexists. split; [done|].
  rewrite (intervalContains_iff _ t u v (sh_nodup _ _ Hsh) (ro_nested _ _ _ Hok) Hu Hv).
  rewrite <- (subtree_by_root t u v (sh_nodup _ _ Hsh) Hu Hv). split.
  - intros Hin. by exists u.
  - intros (w & Hw & Ew & Hin). by rewrite (subtree_unique t u w (sh_nodup _ _ Hsh) Hu Hw (eq_sym Ew)).
Qed.

(** The search in a sorted set: the members up to the candidate start before
    the end of [B]. *)
Lemma set_search rt st t l B : reach_ok rt st t -> StronglySorted (precedes t) l -> (forall y, y ∈ l -> y ∈ nodes t) ->
  B ∈ nodes t -> exists l1 l2, l = l1 ++ l2 /\
    findAncestorIndexOfNode st l B = Ok (if zlen l1 =? 0 then None else Some (zlen l1 - 1)) /\
    (forall y, y ∈ l1 -> Start (iv (rs_data st) y) <= End (iv (rs_data st) B)) /\
    (forall y, y ∈ l2 -> End (iv (rs_data st) B) < Start (iv (rs_data st) y)).
Proof.
  intros Hok Hs Hin HB. pose proof (ro_shaped _ _ _ Hok) as Hsh.
  destruct (split_ordered t (iv (rs_data st)) l B (sh_nodup _ _ Hsh) (ro_nested _ _ _ Hok) Hs Hin) as (l1 & l2 & -> & H1 & H2).
  exists l1, l2. split_and!; try done.
  apply (findAncestorIndexOfNode_ok st l1 l2 (End (iv (rs_data st) B))); try done; [|by apply (shaped_has _ t)].
  intros h Hh. by apply (shaped_has _ t), Hin.
Qed.

(** The set answers whether a member covers [B]. *)
Lemma set_query rt st t R x B : reach_ok rt st t -> fcs_ok t R (rs_data st) -> x ∈ nodes t -> B ∈ nodes t ->
  exists r, futureCoveringSetHasAncestorOf st x B = Ok r /\
    (r = true <-> exists y, y ∈ fcs (rs_data st) x /\ tree_anc t y B).
Proof.
  intros Hok Hf Hx HB. pose proof (ro_shaped _ _ _ Hok) as Hsh. pose proof (sh_nodup _ _ Hsh) as Hnd.
  pose proof (ro_nested _ _ _ Hok) as Hn.
  unfold futureCoveringSetHasAncestorOf. rewrite futureCoveringSet_ok by (by eapply shaped_some). cbn [bind_res].
  pose proof (fc_sorted _ _ _ Hf x) as Hs. assert (Hin : forall y, y ∈ fcs (rs_data st) x -> y ∈ nodes t) by (intros y; apply Hf).
  destruct (set_search rt st t _ B Hok Hs Hin HB) as (l1 & l2 & El & -> & H1 & H2). rewrite El in *. cbn [bind_res].
  destruct (Z.eqb_spec (zlen l1) 0) as [E|E].
  - exists false. split; [done|]. split; [done|]. intros (y & Hy & Ha). exfalso. destruct l1; [|zlia].
    destruct (tree_anc_bounds _ t Hn y B Ha). pose proof (node_bounds _ t Hn B HB). specialize (H2 y Hy). lia.
  - destruct (exists_last (l := l1)) as (l0 & c & ->); [by intros ->|].
    unfold index_res. rewrite <- app_assoc. cbn [app]. rewrite lookupZ_app_r by zlia. cbn [bind_res].
    destruct (tree_query rt st t c B Hok) as (r & -> & Hr); [apply Hin; mem|done|].
    exists r. split; [done|]. rewrite Hr. split.
    + intros Ha. exists c. split; [mem|done].
    + intros (y & Hy & Ha). rewrite <- app_assoc in Hs. 
      by rewrite <- (last_covers t (iv (rs_data st)) l0 c l2 B y Hnd Hn Hs H1 H2 HB Hy Ha).
Qed.

Lemma IsDAGAncestorOf_ok rt st t R x B : reach_ok rt st t -> tree_edges t -> fcs_ok t R (rs_data st) ->
  x ∈ nodes t -> B ∈ nodes t -> (anc par x B -> R x B) ->
  exists r, IsDAGAncestorOf st x B = Ok r /\ (r = true <-> anc par x B).
Proof.
  intros Hok He Hf Hx HB HR. unfold IsDAGAncestorOf.
  destruct (tree_query rt st t x B Hok Hx HB) as (r & -> & Hr). cbn [bind_res].
  destruct (set_query rt st t R x B Hok Hf Hx HB) as (r' & Hq & Hr').
  destruct r; [exists true; split; [done|]; split; [intros _; apply (tree_edges_sound t); tauto|done]|].
  exists r'. split; [done|]. rewrite Hr'. split.
  - intros (y & Hy & Ha). destruct (fc_sound _ _ _ Hf x y Hy) as [_ Hxy]. etransitivity; [exact Hxy|].
    by apply (tree_edges_sound t).
  - intros Ha. destruct (fc_cover _ _ _ Hf x B Hx HB (HR Ha)) as [Ht|?]; [|done]. apply Hr in Ht. done.
Qed.

(** * Changing a set *)

Definition set_fcs (x : bytes) (l : list bytes) (d : gmap bytes reachabilityData) : gmap bytes reachabilityData :=
  alter (SetFutureCoveringSet l) x d.

Lemma fcs_set x l d y : is_Some (d !! x) -> fcs (set_fcs x l d) y = if decide (y = x) then l else fcs d y.
Proof.
  intros [rd Hrd]. unfold fcs, set_fcs. case_decide as E.
  - subst y. rewrite lookup_alter_eq, Hrd. done.
  - by rewrite lookup_alter_ne.
Qed.

Lemma iv_set_fcs x l d h : iv (set_fcs x l d) h = iv d h.
Proof. unfold iv, set_fcs. rewrite lookup_alter. case_decide; [subst|done]. by destruct (d !! h). Qed.

Lemma set_fcs_lookup x l d h rd : d !! h = Some rd -> exists rd', set_fcs x l d !! h = Some rd' /\
  Children rd' = Children rd /\ Parent rd' = Parent rd /\ Interval rd' = Interval rd.
Proof.
  intros Hd. unfold set_fcs. rewrite lookup_alter, Hd. case_decide; [|eauto]. subst h.
  exists (SetFutureCoveringSet l rd). by rewrite Hd.
Qed.

Lemma reach_ok_fcs rt st t x l : reach_ok rt st t -> reach_ok rt (with_data st (set_fcs x l (rs_data st))) t.
Proof.
  intros [[S1 S2 S3 S4] H2 H3 H4 (xr & H5 & H6 & H7)]. constructor; cbn [rs_data with_data rs_reindexRoot].
  - constructor; [done| | |].
    + intros u Hu. destruct (S2 u Hu) as (rd & i & Hd & Hc & Hi).
      destruct (set_fcs_lookup x l _ _ _ Hd) as (rd' & -> & E1 & E2 & E3). exists rd', i. split_and!; [done|congruence..].
    + intros u c Hu Hc. destruct (S3 u c Hu Hc) as (rd & Hd & Hp).
      destruct (set_fcs_lookup x l _ _ _ Hd) as (rd' & -> & E1 & E2 & E3). exists rd'. split; [done|congruence].
    + destruct S4 as (rd & Hd & Hp). destruct (set_fcs_lookup x l _ _ _ Hd) as (rd' & -> & E1 & E2 & E3).
      exists rd'. split; [done|congruence].
  - intros h Hh. apply H2. unfold set_fcs in Hh. rewrite lookup_alter in Hh. case_decide; [subst|done].
    by rewrite fmap_is_Some in Hh.
  - apply (nested_ext (iv (rs_data st))); [|done]. intros h _. by rewrite iv_set_fcs.
  - by rewrite iv_set_fcs.
  - exists xr. split_and!; try done. apply (capped_ext _ (iv (rs_data st))); [|done]. intros h _. by rewrite iv_set_fcs.
Qed.

Lemma sorted_insert {A} (P : A -> A -> Prop) l1 b l2 : StronglySorted P (l1 ++ l2) ->
  (forall y, y ∈ l1 -> P y b) -> (forall y, y ∈ l2 -> P b y) -> StronglySorted P (l1 ++ b :: l2).
Proof.
  intros Hs H1 H2. induction l1 as [|y l1 IH]; cbn [app] in *.
  - constructor; [done|]. by apply Forall_forall.
  - apply StronglySorted_inv in Hs as [Hs Hf]. constructor.
    + apply IH; [done|]. intros z Hz. apply H1. by right.
    + rewrite Forall_forall in Hf |- *. intros z Hz.
      assert (Hz' : z ∈ l1 ++ l2 \/ z = b) by (revert Hz; repeat rewrite ?elem_of_app, ?elem_of_cons; tauto).
      destruct Hz' as [Hz'| ->]; [by apply Hf|]. apply H1. left.
Qed.

(** Inserting a block [b] with nothing below it: unless a member covers it, it
    is put where it keeps the set sorted. *)
Section future.
Variable rt : reachabilityManager.
Variable st : reach_store.
Variable t : tree.
Variable R : bytes -> bytes -> Prop.
Variables x b : bytes.
Context (Hok : reach_ok rt st t) (Hf : fcs_ok t R (rs_data st)) (Hx : x ∈ nodes t) (Hb : b ∈ nodes t).
Context (Hleaf : forall B, tree_anc t b B -> B = b).
Abbreviation d := (rs_data st).
Abbreviation l := (fcs d x).

Lemma x_data : exists rd i, d !! x = Some rd /\ Interval rd = Some i /\ FutureCoveringSet rd = l.
Proof.
  destruct (shaped_has d t x (ro_shaped _ _ _ Hok) Hx) as (rd & i & Hd & Hi). exists rd, i. unfold fcs. by rewrite Hd.
Qed.

Lemma later z : z ∈ l -> End (iv d b) < Start (iv d z) -> precedes t b z.
Proof.
  intros Hz Hlt. destruct (fc_sound _ _ _ Hf x z Hz) as [Hzt _]. pose proof (ro_nested _ _ _ Hok) as Hn.
  pose proof (node_bounds _ t Hn b Hb). pose proof (node_bounds _ t Hn z Hzt).
  destruct (tree_order t b z Hb Hzt) as [Ha|[Ha|[Ha|Ha]]]; [| |done|].
  - apply Hleaf in Ha as ->. lia.
  - apply (tree_anc_bounds _ t Hn) in Ha. lia.
  - apply (precedes_bounds _ t Hn) in Ha. lia.
Qed.

Lemma earlier z : z ∈ l -> Start (iv d z) <= End (iv d b) -> ~ tree_anc t z b -> precedes t z b.
Proof.
  intros Hz Hle Hna. destruct (fc_sound _ _ _ Hf x z Hz) as [Hzt _]. pose proof (ro_nested _ _ _ Hok) as Hn.
  destruct (tree_order t b z Hb Hzt) as [Ha|[Ha|[Ha|Ha]]]; [| done| |done].
  - apply Hleaf in Ha as ->. destruct Hna. apply nodes_subtrees in Hb as (u & Hu & <-). exists u. split_and!; try done.
    rewrite nodes_eq. left.
  - apply (precedes_bounds _ t Hn) in Ha. lia.
Qed.

Definition inserted (l' : list bytes) : Prop :=
  (l' = l /\ exists y, y ∈ l /\ tree_anc t y b) \/
  (exists l1 l2, l = l1 ++ l2 /\ l' = l1 ++ b :: l2 /\ StronglySorted (precedes t) l').

Lemma store_set l' rd i : d !! x = Some rd -> Interval rd = Some i ->
  stageData x (SetFutureCoveringSet l' rd) st = (Ok tt, with_data st (set_fcs x l' d)).
Proof.
  intros Hd Hi. unfold stageData, modify, with_data, set_fcs. do 2 f_equal. apply map_eq. intros h.
  destruct (decide (h = x)) as [->|Hh]; [by rewrite lookup_insert_eq, lookup_alter_eq, Hd|].
  by rewrite lookup_insert_ne, lookup_alter_ne.
Qed.

Lemma set_fcs_same : set_fcs x l d = d.
Proof.
  destruct x_data as (rd & i & Hd & Hi & Hl). apply map_eq. intros h. unfold set_fcs. rewrite lookup_alter.
  case_decide; [subst|done]. rewrite Hd. cbn. f_equal. rewrite <- Hl. by destruct rd.
Qed.

Lemma insertToFutureCoveringSet_ok : exists l',
  insertToFutureCoveringSet x b st = (Ok tt, with_data st (set_fcs x l' d)) /\ inserted l'.
Proof.
  destruct x_data as (rd & i & Hd & Hi & Hl). pose proof (fc_sorted _ _ _ Hf x) as Hs. pose proof (sh_nodup _ _ (ro_shaped _ _ _ Hok)) as Hnd.
  assert (Hin : forall y, y ∈ l -> y ∈ nodes t) by (intros y; apply Hf). pose proof (ro_nested _ _ _ Hok) as Hn.
  unfold insertToFutureCoveringSet. erewrite bind_ok.
  2:{ unfold view, reachabilityDataForInsertion, ReachabilityData, CloneMutable. rewrite Hd, Hi. reflexivity. }
  cbv beta. rewrite Hl. destruct (set_search rt st t l b Hok Hs Hin Hb) as (l1 & l2 & El & Hsearch & H1 & H2).
  erewrite bind_ok by (unfold view; rewrite Hsearch; reflexivity). cbv beta.
  assert (Hlate : forall z, z ∈ l2 -> precedes t b z) by (intros z Hz; apply later; [rewrite El; mem|by apply H2]).
  destruct (Z.eqb_spec (zlen l1) 0) as [E|E]; cbv iota.
  - destruct l1; [|zlia]. eexists. split; [by apply (store_set _ rd i)|]. right. exists [], l2. rewrite El. split_and!; try done.
    rewrite El in Hs. apply (sorted_insert _ []); [done|intros y Hy; by apply not_elem_of_nil in Hy|done].
  - destruct (exists_last (l := l1)) as (l0 & c & ->); [by intros ->|].
    assert (Hc : c ∈ l) by (rewrite El; mem). erewrite bind_ok.
    2:{ unfold index, index_res, lift. rewrite El, <- app_assoc. cbn [app]. rewrite lookupZ_app_r by zlia. reflexivity. }
    cbv beta. destruct (tree_query rt st t c b Hok (Hin c Hc) Hb) as (r & Hr & Hriff).
    erewrite bind_ok by (unfold view; rewrite Hr; reflexivity). cbv beta. destruct r.
    + exists l. rewrite set_fcs_same. split; [by destruct st|]. left. split; [done|]. exists c. tauto.
    + destruct (tree_query rt st t b c Hok Hb (Hin c Hc)) as (r' & Hr' & Hriff').
      erewrite bind_ok by (unfold view; rewrite Hr'; reflexivity). cbv beta. destruct r'.
      { exfalso. assert (Hcb : c = b) by (apply Hleaf; tauto). assert (tree_anc t c b) by (rewrite Hcb in *; tauto). 
        assert (false = true) by tauto. done. }
      assert (Hnc : ~ tree_anc t c b) by (rewrite <- Hriff; done).
      assert (Hnone : forall z, z ∈ l0 ++ [c] -> ~ tree_anc t z b).
      { intros z Hz Ha. apply Hnc. rewrite El, <- app_assoc in Hs.
        rewrite <- (last_covers t (iv d) l0 c l2 b z Hnd Hn Hs H1 H2 Hb); [done|revert Hz; mem|done]. }
      replace (zlen (l0 ++ [c]) - 1 + 1) with (zlen (l0 ++ [c])) by lia. rewrite El.
      erewrite bind_ok by apply slice_left. cbv beta. erewrite bind_ok by apply slice_right. cbv beta.
      eexists. split; [by apply (store_set _ rd i)|]. right. exists (l0 ++ [c]), l2. split_and!; [done..|].
      rewrite El in Hs. apply sorted_insert; [done| |done]. intros z Hz. apply earlier; [rewrite El; revert Hz; mem|by apply H1|by apply Hnone].
Qed.

End future.

Lemma fcs_weaken t (R R' : bytes -> bytes -> Prop) d : (forall x B, x ∈ nodes t -> B ∈ nodes t -> R' x B -> R x B) ->
  fcs_ok t R d -> fcs_ok t R' d.
Proof. intros HR [H1 H2 H3]. constructor; [done|done|]. intros x B Hx HB Hr. apply H3; auto. Qed.

Lemma fcs_inserted st t R x b l' : fcs_ok t R (rs_data st) -> is_Some (rs_data st !! x) -> b ∈ nodes t -> anc par x b ->
  tree_anc t b b -> inserted st t x b l' ->
  fcs_ok t (fun y B => R y B \/ y = x /\ B = b) (set_fcs x l' (rs_data st)).
Proof.
  intros [H1 H2 H3] Hx Hb Ha Hbb Hl. unfold inserted in Hl. set (d := rs_data st) in *.
  assert (Hmem : forall y, y ∈ l' -> y ∈ fcs d x \/ y = b).
  { intros y Hy. destruct Hl as [[-> _]|(l1 & l2 & -> & -> & _)]; [by left|]. revert Hy. mem. }
  assert (Hkeep : forall y, y ∈ fcs d x -> y ∈ l').
  { intros y Hy. destruct Hl as [[-> _]|(l1 & l2 & E & -> & _)]; [done|]. rewrite E in Hy. revert Hy. mem. }
  constructor.
  - intros u y. rewrite fcs_set by done. case_decide; [subst u|apply H1]. intros Hy.
    destruct (Hmem y Hy) as [Hy'| ->]; [by apply H1|done].
  - intros u. rewrite fcs_set by done. case_decide; [|apply H2]. destruct Hl as [[-> _]|(l1 & l2 & _ & _ & Hs)]; [apply H2|done].
  - intros u B Hu HB [Hr|[-> ->]].
    + destruct (H3 u B Hu HB Hr) as [?|(y & Hy & Hay)]; [by left|]. right. exists y. split; [|done].
      rewrite fcs_set by done. case_decide; [subst u; by apply Hkeep|done].
    + right. rewrite fcs_set, decide_True by done. destruct Hl as [[-> (y & Hy & Hay)]|(l1 & l2 & _ & -> & _)]; [eauto|].
      exists b. split; [mem|done].
Qed.

(** The whole merge set. *)
Lemma insert_into_all_ok rt t b : b ∈ nodes t -> (forall B, tree_anc t b B -> B = b) -> tree_anc t b b ->
  forall ms st R, reach_ok rt st t -> fcs_ok t R (rs_data st) -> (forall x, x ∈ ms -> x ∈ nodes t /\ anc par x b) ->
  exists d', insert_into_all ms b st = (Ok tt, with_data st d') /\ reach_ok rt (with_data st d') t /\
    fcs_ok t (fun x B => R x B \/ x ∈ ms /\ B = b) d'.
Proof.
  intros Hb Hleaf Hbb. induction ms as [|x ms IH]; intros st R Hok Hf Hms.
  - exists (rs_data st). split; [by destruct st|]. split; [by destruct st|]. apply (fcs_weaken t R); [|done].
    intros x B _ _ [?|[Hx _]]; [done|by apply not_elem_of_nil in Hx].
  - destruct (Hms x) as [Hx Hxb]; [left|].
    destruct (insertToFutureCoveringSet_ok rt st t R x b Hok Hf Hx Hb Hleaf) as (l' & Hrun & Hl').
    pose proof (fcs_inserted st t R x b l' Hf (shaped_some _ _ _ (ro_shaped _ _ _ Hok) Hx) Hb Hxb Hbb Hl') as Hf'.
    destruct (IH (with_data st (set_fcs x l' (rs_data st))) _ (reach_ok_fcs rt st t x l' Hok) Hf') as (d' & Hrun' & Hok' & Hf'').
    + intros y Hy. apply Hms. by right.
    + exists d'. cbn [insert_into_all]. erewrite bind_ok by exact Hrun. split; [exact Hrun'|]. split; [exact Hok'|].
      apply (fcs_weaken t _ _ _) with (2 := Hf''). intros y B _ _. rewrite elem_of_cons. tauto.
Qed.

(** * AddBlock *)

(** What GHOSTDAG says of a block: a parent is selected, and the merge set is in
    the past of the block and holds what the past of that parent does not. *)
Record merged (gd : ghostdag_store) (b p : bytes) (dd : BlockGHOSTDAGData) : Prop := {
  me_data : gd !! (b, false) = Some dd;
  me_selected : SelectedParent dd = Some p;
  me_parent : p ∈ par b;
  me_past : forall x, x ∈ MergeSetBlues dd ++ MergeSetReds dd -> anc par x b /\ x <> b;
  me_complete : forall x, anc par x b -> x = b \/ anc par x p \/ x ∈ MergeSetBlues dd ++ MergeSetReds dd
}.

(** The invariant of the manager for the blocks of [t]. *)
Record dag_ok (rt : reachabilityManager) (st : reach_store) (t : tree) : Prop := {
  da_reach : reach_ok rt st t;
  da_edges : tree_edges t;
  da_fcs : fcs_ok t (anc par) (rs_data st);
  da_closed : forall y q, y ∈ nodes t -> q ∈ par y -> q ∈ nodes t
}.

Lemma past_closed t x y : (forall y q, y ∈ nodes t -> q ∈ par y -> q ∈ nodes t) -> y ∈ nodes t -> anc par x y -> x ∈ nodes t.
Proof. intros Hc Hy Ha. induction Ha as [|x z y Hxz Ha IH]; [done|]. by apply (Hc z); [apply IH|]. Qed.

Lemma fcs_same_shape d d' x : same_shape d d' -> fcs d' x = fcs d x.
Proof.
  intros Hs. unfold fcs. destruct (d !! x) as [rd|] eqn:E.
  - destruct (same_shape_lookup _ _ _ _ Hs E) as (rd' & -> & (_ & _ & Er & _)%erase_fields). done.
  - destruct (d' !! x) as [rd'|] eqn:E'; [|done]. symmetry in Hs.
    destruct (same_shape_lookup _ _ _ _ Hs E') as (? & Hd & _). congruence.
Qed.

Lemma fcs_add p b i d x : fcs (add_data p b i d) x = if decide (x = b) then [] else fcs d x.
Proof.
  unfold fcs, add_data. case_decide as E; [subst; by rewrite lookup_insert_eq|]. rewrite lookup_insert_ne by done.
  rewrite lookup_alter. case_decide; [subst|done]. by destruct (d !! x).
Qed.

Lemma sorted_mono {A} (P Q : A -> A -> Prop) l : (forall x y, P x y -> Q x y) -> StronglySorted P l -> StronglySorted Q l.
Proof.
  intros HPQ. induction 1 as [|x l Hs IH Hf]; constructor; [done|]. eapply Forall_impl; [exact Hf|]. cbn. auto.
Qed.

Section add_block.
Context `{FloatConversion}.
Variable rt : reachabilityManager.
Variable fuel : nat.
Variable gd : ghostdag_store.
Variable st : reach_store.
Variable t : tree.
Variables b p : bytes.
Variable dd : BlockGHOSTDAGData.
Context (Hdag : dag_ok rt st t) (Hb : b ∉ nodes t) (Hm : merged gd b p dd).
Context (Hpar : forall q, q ∈ par b -> q ∈ nodes t).
Context (Hfits : fits rt (tsize t + 1)) (Hfuel : tsize t + 1 <= Z.of_nat fuel).
Abbreviation ins := (insert_child p b).

Lemma new_parent : p ∈ nodes t.
Proof. apply Hpar, (me_parent _ _ _ _ Hm). Qed.

Lemma new_nodup : NoDup (nodes t).
Proof. apply Hdag. Qed.

Lemma new_past x : anc par x b -> x <> b -> x ∈ nodes t.
Proof.
  intros Ha Hne. apply rtc_inv_r in Ha as [->|(q & Hxq & Hq)]; [done|].
  apply (past_closed t x q (da_closed _ _ _ Hdag)); [by apply Hpar|done].
Qed.

Lemma new_future B : B ∈ nodes t -> ~ anc par b B.
Proof. intros HB Ha. by apply Hb, (past_closed t b B (da_closed _ _ _ Hdag)). Qed.

(** Before the merge set is visited, what the parent has is covered. *)
Lemma added_fcs i d' : same_shape (add_data p b i (rs_data st)) d' ->
  fcs_ok (ins t) (fun x B => anc par x B /\ (B = b -> x = b \/ anc par x p)) d'.
Proof.
  intros Hs. pose proof (da_fcs _ _ _ Hdag) as [H1 H2 H3].
  assert (Hfcs : forall x, fcs d' x = if decide (x = b) then [] else fcs (rs_data st) x).
  { intros x. rewrite (fcs_same_shape _ _ x Hs). apply fcs_add. }
  pose proof new_nodup as Hnd. pose proof new_parent as Hp.
  constructor.
  - intros x y. rewrite Hfcs. case_decide; [by intros Hy%not_elem_of_nil|]. intros Hy. split; [|by apply H1].
    apply nodes_grow. by apply (H1 x).
  - intros x. rewrite Hfcs. case_decide; [constructor|]. eapply sorted_mono; [|apply H2]. apply precedes_insert.
  - intros x B Hx HB [Ha HR]. apply nodes_insert_in in Hx, HB; try done. rewrite Hfcs.
    assert (Hcase : forall B', B' ∈ nodes t -> x <> b -> anc par x B' ->
      tree_anc t x B' \/ exists y, y ∈ fcs (rs_data st) x /\ y <> b /\ tree_anc t y B').
    { intros B' HB' Hxb Ha'. destruct Hx as [?|Hx]; [done|]. destruct (H3 x B' Hx HB' Ha') as [?|(y & Hy & Hay)]; [by left|].
      right. exists y. split_and!; try done. intros ->. by apply Hb, (H1 x b). }
    destruct (decide (B = b)) as [->|HBb]; [destruct (HR eq_refl) as [->|Hxp]|].
    + left. apply tree_anc_leaf; [done..|by left].
    + destruct (decide (x = b)) as [->|Hxb]; [exfalso; by apply (new_future p)|].
      destruct (Hcase p Hp Hxb Hxp) as [?|(y & Hy & Hyb & Hay)].
      * left. apply tree_anc_leaf; [done..|by right].
      * right. exists y. split; [done|]. apply tree_anc_leaf; [done..|by right].
    + destruct HB as [?|HB]; [done|]. destruct (decide (x = b)) as [->|Hxb]; [exfalso; by apply (new_future B)|].
      destruct (Hcase B HB Hxb Ha) as [?|(y & Hy & Hyb & Hay)].
      * left. by apply tree_anc_insert.
      * right. exists y. split; [done|]. by apply tree_anc_insert.
Qed.

Lemma new_edges : tree_edges (ins t).
Proof.
  intros u c Hu Hc. apply subtrees_insert in Hu as [(v & Hv & ->)|[-> _]]; [|by apply not_elem_of_nil in Hc].
  rewrite tsubs_insert in Hc. apply elem_of_app in Hc as [(w & -> & Hw)%list_elem_of_fmap|Hc].
  - rewrite !troot_insert. by apply (da_edges _ _ _ Hdag).
  - case_decide as E; [|by apply not_elem_of_nil in Hc]. apply list_elem_of_singleton in Hc as ->.
    rewrite troot_insert, E. apply (me_parent _ _ _ _ Hm).
Qed.

Lemma AddBlock_ok : exists st', AddBlock rt fuel gd b st = (Ok tt, st') /\ dag_ok rt st' (ins t) /\
  rs_reindexRoot st' = rs_reindexRoot st.
Proof.
  pose proof (da_reach _ _ _ Hdag) as Hok. pose proof new_parent as Hp. pose proof new_nodup as Hnd.
  destruct (ro_root _ _ _ Hok) as (xr & Hr & _). pose proof Hp as Hp'. apply nodes_subtrees in Hp' as (xp & Hxp & Exp).
  destruct (addChild_ok rt fuel st t p b xp Hok Hxp Exp Hb Hfits Hfuel (troot xr) Hr) as (d' & Hadd & Hok' & i & Hs).
  assert (Hbt : b ∈ nodes (ins t)) by (apply nodes_insert_in; [done|done|by left]).
  destruct (insert_into_all_ok rt (ins t) b Hbt (leaf_only t p b Hb)) with (ms := MergeSetBlues dd ++ MergeSetReds dd)
    (st := with_data st d') (R := fun x B => anc par x B /\ (B = b -> x = b \/ anc par x p)) as (d'' & Hins & Hok'' & Hf'').
  - apply tree_anc_leaf; [done..|by left].
  - done.
  - by apply (added_fcs i).
  - intros x Hx. destruct (me_past _ _ _ _ Hm x Hx) as [Ha Hne]. split; [|done]. apply nodes_grow. by apply new_past.
  - exists (with_data st d''). split; [|split; [|done]].
    + unfold AddBlock. erewrite bind_ok by reflexivity.
      erewrite bind_ok by (unfold lift, ghostdagData; rewrite (me_data _ _ _ _ Hm); reflexivity). cbv beta.
      rewrite (bind_ok _ _ _ (troot xr) (staged st b)) by (unfold view, reindexRoot; f_equal; cbn; by rewrite Hr).
      erewrite bind_ok by (unfold lift, deref; rewrite (me_selected _ _ _ _ Hm); reflexivity). cbv beta.
      erewrite bind_ok by exact Hadd. exact Hins.
    + constructor; [done|apply new_edges| |].
      * apply (fcs_weaken _ _ _ _) with (2 := Hf''). intros x B Hx HB Ha. destruct (decide (B = b)) as [->|]; [|by left].
        destruct (me_complete _ _ _ _ Hm x Ha) as [?|[?|?]]; [left|left|right]; tauto.
      * intros y q Hy Hq. apply nodes_grow. apply nodes_insert_in in Hy as [->|Hy]; [by apply Hpar| |done|done].
        by apply (da_closed _ _ _ Hdag y).
Qed.

End add_block.
End dag.
