(* ===== verification/ReachConcentrate.v ===== *)
(** Moving the reindex root: the intervals are concentrated along the chain from
    the common ancestor of the old and the new root, and the new root gets the
    room. *)

From S2P Require Import Prelude Transaction Block Difficulty TxMass Ghostdag ReachInterval Reachability Reindex ReachTree.
From S2P Require Import ReindexCount ReindexPropagate ReindexReclaim ReindexChain ReindexAdd ReachAdd.

(** * One step *)

Section step.
Context `{FloatConversion}.
Variable t : tree.
Variable st0 : reach_store.
Variable rt : reachabilityManager.
Variable fuel : nat.
Context (Hsh : shaped (rs_data st0) t) (Hsmall : tsize t < 2 ^ 64) (Hfuel : tsize t <= Z.of_nat fuel).
Abbreviation slk := (reindexSlack rt).
Abbreviation ctx := (ctx st0).
Abbreviation good := (good t st0).

Lemma count_children_ok (ws : list tree) : forall d c sizes sum, good d c -> (forall w, w ∈ ws -> w ∈ subtrees t) ->
  0 <= sum -> sum + sumZ tsize ws < 2 ^ 64 ->
  exists c', count_children_loop fuel (map troot ws) sizes sum (ctx d c) =
      (Ok (sizes ++ map tsize ws, sum + sumZ tsize ws), ctx d c') /\ good d c'.
Proof.
  induction ws as [|w ws IH]; intros d c sizes sum Hg Hw Hs Hb; cbn [map count_children_loop sumZ foldr].
  - exists c. by rewrite app_nil_r, Z.add_0_r.
  - fold (sumZ tsize ws). cbn [sumZ foldr] in Hb. fold (sumZ tsize ws) in Hb. pose proof (sumZ_tsize_nonneg ws).
    assert (Hwt : w ∈ subtrees t) by (apply Hw; left). pose proof (tsize_subtree t w Hwt). pose proof (tsize_pos w).
    destruct (countSubtrees_ok t (with_data st0 d) w fuel c) as (c1 & Hc1 & Hok & Hall);
      [by eapply good_shaped|done|done|lia|apply Hg|]. unfold ctx. rewrite Hc1. cbn [subTreeSizesCache].
    rewrite (Hall w (subtrees_self w)). change (default 0 (Some (tsize w))) with (tsize w). rewrite uint64_id by lia.
    destruct (IH d c1 (sizes ++ [tsize w]) (sum + tsize w)) as (c' & Hr & Hg'); [split; [apply Hg|done]|by intros v Hv; apply Hw; right|lia|lia|].
    exists c'. unfold ctx in Hr. rewrite Hr, <- app_assoc. split; [|done]. do 3 f_equal. lia.
Qed.

Lemma countChildrenSubtrees_ok (ws : list tree) d c : good d c -> (forall w, w ∈ ws -> w ∈ subtrees t) ->
  sumZ tsize ws < 2 ^ 64 ->
  exists c', countChildrenSubtrees fuel (map troot ws) (ctx d c) = (Ok (map tsize ws, sumZ tsize ws), ctx d c') /\ good d c'.
Proof. intros Hg Hw Hb. by apply (count_children_ok ws d c [] 0). Qed.

(** Intervals given to subtrees that have nothing in common. *)
Lemma propagate_children_ok (ws : list tree) : forall (ivs : list ReachabilityInterval) d c, good d c ->
  (forall w, w ∈ ws -> w ∈ subtrees t) -> NoDup (concat (map nodes ws)) ->
  Forall2 (fun w i => in_range i /\ len i = tsize w) ws ivs ->
  exists d' c', propagate_children_loop fuel (map troot ws) ivs (ctx d c) = (Ok tt, ctx d' c') /\ good d' c' /\
    map (fun w => iv d' (troot w)) ws = ivs /\ (forall w, w ∈ ws -> nested (iv d') w) /\
    (forall h, (forall w, w ∈ ws -> h ∉ nodes w) -> iv d' h = iv d h).
Proof.
  induction ws as [|w ws IH]; intros ivs d c Hg Hw Hnd Hf.
  { inversion Hf; subst. exists d, c. split_and!; try done. intros w Hw'. by apply not_elem_of_nil in Hw'. }
  apply Forall2_cons_inv_l in Hf as (i & ivs' & [Hi Hl] & Hf & ->).
  assert (Hwt : w ∈ subtrees t) by (apply Hw; left).
  cbn [map propagate_children_loop tail]. erewrite bind_ok by reflexivity. cbv beta.
  erewrite bind_ok by (by apply (stage_ctx t st0 Hsh)).
  destruct (relayout t st0 fuel Hsh Hsmall Hfuel d c w i Hg Hwt Hi) as (d1 & c1 & Hp & Hg1 & Hi1 & Hn1 & Hf1); [lia|].
  erewrite bind_ok by exact Hp.
  destruct (IH ivs' d1 c1 Hg1) as (d' & c' & Hrun & Hg' & Hm & Hn' & Hf'); [by intros v Hv; apply Hw; right| |done|].
  { cbn [map concat] in Hnd. by apply NoDup_app in Hnd as (_ & _ & Hnd). }
  assert (Hkeep : forall h, h ∈ nodes w -> iv d' h = iv d1 h).
  { intros h Hh. apply Hf'. intros w' Hw' Hh'. by eapply disjoint_nodes. }
  exists d', c'. split_and!; [exact Hrun|done| | |].
  - cbn [map]. f_equal; [|done]. by rewrite Hkeep by apply self_node.
  - intros v [->|Hv]%elem_of_cons; [|by apply Hn']. apply (nested_ext (iv d1)); [|done]. intros h Hh. symmetry. by apply Hkeep.
  - intros h Hh. rewrite Hf' by (intros v Hv; apply Hh; by right). apply Hf1, Hh. left.
Qed.

(** Siblings laid out tightly in an interval of the size of their subtrees. *)
Lemma propagateChildrenIntervals_ok (ws : list tree) d c i : good d c -> (forall w, w ∈ ws -> w ∈ subtrees t) ->
  NoDup (concat (map nodes ws)) -> in_range i -> len i = sumZ tsize ws ->
  exists d' c', propagateChildrenIntervals fuel i (map troot ws) (map tsize ws) (ctx d c) = (Ok tt, ctx d' c') /\ good d' c' /\
    tiles (Start i) (map (fun w => iv d' (troot w)) ws) (End i + 1) /\
    (forall w, w ∈ ws -> nested (iv d') w /\ len (iv d' (troot w)) = tsize w) /\
    (forall h, (forall w, w ∈ ws -> h ∉ nodes w) -> iv d' h = iv d h).
Proof.
  intros Hg Hw Hnd Hi Hl. assert (Hsum : sumZ id (map tsize ws) = sumZ tsize ws).
  { clear. induction ws as [|w ws IH]; [done|]. unfold sumZ in *. cbn [map foldr]. by rewrite IH. }
  destruct (intervalSplitExact_spec i (map tsize ws) Hi) as (ivs & Hsplit & Hlens & Ht).
  { apply Forall_forall. intros n (w & -> & _)%list_elem_of_fmap. pose proof (tsize_pos w). lia. }
  { congruence. }
  destruct (propagate_children_ok ws ivs d c Hg Hw Hnd) as (d' & c' & Hrun & Hg' & Hm & Hn & Hf).
  - apply Forall2_same_length_lookup_2.
    { apply (f_equal length) in Hlens. rewrite !length_map in Hlens. done. }
    intros k w j Hwk Hjk. assert (Hj : j ∈ ivs) by (by eapply list_elem_of_lookup_2).
    destruct (tiles_elem _ _ _ j Ht Hj) as (T1 & T2 & T3). destruct Hi as (R1 & R2 & R3). split; [unfold in_range; lia|].
    apply (f_equal (.!! k)) in Hlens. change (map len ivs) with (len <$> ivs) in Hlens. change (map tsize ws) with (tsize <$> ws) in Hlens.
    rewrite !list_lookup_fmap, Hwk, Hjk in Hlens. by injection Hlens.
  - exists d', c'. unfold propagateChildrenIntervals. erewrite bind_ok by (unfold lift; rewrite Hsplit; reflexivity).
    split_and!; [exact Hrun|done|by rewrite Hm| |done]. intros w Hwin. split; [by apply Hn|].
    apply list_elem_of_lookup_1 in Hwin as (k & Hk). apply (f_equal (.!! k)) in Hlens, Hm.
    change (map len ivs) with (len <$> ivs) in Hlens. change (map tsize ws) with (tsize <$> ws) in Hlens.
    rewrite list_lookup_fmap in Hlens. change (map (fun w => iv d' (troot w)) ws) with ((fun w => iv d' (troot w)) <$> ws) in Hm.
    rewrite list_lookup_fmap, Hk in Hm. cbn in Hm. rewrite <- Hm in Hlens. rewrite list_lookup_fmap, Hk in Hlens. cbn in Hlens. by injection Hlens.
Qed.

(** Concentrating the interval of [y] on its child [ch]. *)
Section concentrate.
Variables (y : tree) (l : list tree) (ch : tree) (r : list tree).
Context (Hy : y ∈ subtrees t) (Hsubs : tsubs y = l ++ ch :: r).

Definition below (ws : list tree) : list bytes := concat (map nodes ws).

Lemma not_below (ws : list tree) h : h ∉ below ws -> forall w, w ∈ ws -> h ∉ nodes w.
Proof. intros Hn w Hw Hh. apply Hn, elem_of_concat_map. eauto. Qed.

Lemma split_nodes : NoDup (below l) /\ NoDup (below r) /\
  (forall h, h ∈ below l -> h ∉ nodes ch /\ h ∉ below r /\ h <> troot y) /\
  (forall h, h ∈ below r -> h ∉ nodes ch /\ h ∉ below l /\ h <> troot y) /\ troot y ∉ nodes ch.
Proof.
  pose proof (nodup_subtree t y (sh_nodup _ _ Hsh) Hy) as Hnd. rewrite nodes_eq, Hsubs, map_app, concat_app in Hnd.
  cbn [map concat] in Hnd. fold (below l) (below r) in Hnd. apply NoDup_cons in Hnd as [Hr Hnd].
  apply NoDup_app in Hnd as (Hl & Hd1 & Hnd). apply NoDup_app in Hnd as (Hc & Hd2 & Hr').
  split_and!; [done|done| | |intros Hin; apply Hr; rewrite !elem_of_app; tauto].
  - intros h Hh. specialize (Hd1 h Hh). rewrite elem_of_app in Hd1. split_and!; [tauto|tauto|].
    intros ->. apply Hr. rewrite !elem_of_app. tauto.
  - intros h Hh. split_and!.
    + intros Hin. by apply (Hd2 h).
    + intros Hin. apply (Hd1 h Hin). rewrite elem_of_app. tauto.
    + intros ->. apply Hr. rewrite !elem_of_app. tauto.
Qed.

Lemma y_child w : w ∈ l ++ ch :: r -> w ∈ subtrees t.
Proof. intros Hw. apply (subtrees_down t y); [done|by rewrite Hsubs]. Qed.

Lemma y_size : tsize y = 1 + sumZ tsize l + tsize ch + sumZ tsize r.
Proof. rewrite tsize_eq, Hsubs, sumZ_app. cbn [sumZ foldr]. fold (sumZ tsize r). lia. Qed.

(** The siblings on one side laid out in [i]. *)
Definition laid_out (ws : list tree) (i : ReachabilityInterval) (d d' : gmap bytes reachabilityData) : Prop :=
  tiles (Start i) (map (fun w => iv d' (troot w)) ws) (End i + 1) /\
  (forall w, w ∈ ws -> nested (iv d') w /\ len (iv d' (troot w)) = tsize w) /\
  (forall h, h ∉ below ws -> iv d' h = iv d h).

Lemma lay_out (ws : list tree) d c i : good d c -> (forall w, w ∈ ws -> w ∈ l ++ ch :: r) -> NoDup (below ws) ->
  in_range i -> len i = sumZ tsize ws ->
  exists d' c', propagateChildrenIntervals fuel i (map troot ws) (map tsize ws) (ctx d c) = (Ok tt, ctx d' c') /\ good d' c' /\
    laid_out ws i d d'.
Proof.
  intros Hg Hw Hnd Hi Hl.
  destruct (propagateChildrenIntervals_ok ws d c i Hg) as (d' & c' & Hrun & Hg' & Ht & Hn & Hf); try done.
  - intros w Hin. by apply y_child, Hw.
  - exists d', c'. split_and!; try done. split_and!; try done. intros h Hh. apply Hf. by apply not_below.
Qed.

Variable d : gmap bytes reachabilityData.
Abbreviation ys := (Start (iv d (troot y))).
Abbreviation ye := (End (iv d (troot y))).
Abbreviation Sl := (sumZ tsize l).
Abbreviation Sr := (sumZ tsize r).
Context (Hrange : in_range (iv d (troot y))) (Hslk : 0 <= slk) (Hroom : 4 * slk + tsize y <= len (iv d (troot y))).

Definition i_before : ReachabilityInterval := newReachabilityInterval (ys + slk) (ys + slk + Sl - 1).
Definition i_after : ReachabilityInterval := newReachabilityInterval (ye - slk - Sr) (ye - slk - 1).
Definition i_chosen : ReachabilityInterval := newReachabilityInterval (ys + Sl + slk) (ye - Sr - slk - 1).

Lemma sizes : 0 <= Sl /\ 0 <= Sr /\ 1 <= tsize ch /\ 1 <= ys /\ ye < 2 ^ 64 - 1 /\ Sl + Sr + tsize ch + 1 + 4 * slk <= ye - ys + 1 /\ tsize y < 2 ^ 64.
Proof.
  pose proof (sumZ_tsize_nonneg l). pose proof (sumZ_tsize_nonneg r). pose proof (tsize_pos ch). pose proof y_size.
  pose proof (tsize_subtree t y Hy). destruct Hrange as (R1 & R2 & R3). unfold len in Hroom. lia.
Qed.

Lemma tightenIntervalsBefore_ok c : good d c -> exists d1 c1,
  tightenIntervalsBefore rt fuel (troot y) (map troot l) (ctx d c) = (Ok Sl, ctx d1 c1) /\ good d1 c1 /\ laid_out l i_before d d1.
Proof.
  intros Hg. pose proof sizes as (S1 & S2 & S3 & S4 & S5 & S6 & S7). pose proof y_size. destruct split_nodes as (N1 & N2 & N3 & N4 & N5).
  destruct (countChildrenSubtrees_ok l d c Hg) as (c1 & Hc1 & Hg1); [intros w Hw; apply y_child, elem_of_app; by left|lia|].
  unfold tightenIntervalsBefore. erewrite bind_ok by exact Hc1. cbv beta iota.
  erewrite bind_ok by (by apply (interval_ctx t st0 Hsh)). cbv beta. erewrite bind_ok by reflexivity. cbv beta zeta.
  rewrite (uint64_id (ys + slk)), (uint64_id (ys + slk + Sl)), uint64_id by lia.
  destruct (lay_out l d c1 i_before Hg1) as (d1 & c2 & Hrun & Hg2 & Hlay); [intros w Hw; apply elem_of_app; by left|done| | |].
  - unfold in_range, i_before. cbn. lia.
  - unfold len, i_before. cbn. lia.
  - exists d1, c2. erewrite bind_ok by exact Hrun. done.
Qed.

Lemma tightenIntervalsAfter_ok d1 c1 : good d1 c1 -> iv d1 (troot y) = iv d (troot y) -> exists d2 c2,
  tightenIntervalsAfter rt fuel (troot y) (map troot r) (ctx d1 c1) = (Ok Sr, ctx d2 c2) /\ good d2 c2 /\ laid_out r i_after d1 d2.
Proof.
  intros Hg E. pose proof sizes as (S1 & S2 & S3 & S4 & S5 & S6 & S7). pose proof y_size. destruct split_nodes as (N1 & N2 & N3 & N4 & N5).
  assert (Hin : forall w, w ∈ r -> w ∈ l ++ ch :: r) by (intros w Hw; rewrite elem_of_app, elem_of_cons; tauto).
  destruct (countChildrenSubtrees_ok r d1 c1 Hg) as (c2 & Hc2 & Hg2); [intros w Hw; by apply y_child, Hin|lia|].
  unfold tightenIntervalsAfter. erewrite bind_ok by exact Hc2. cbv beta iota.
  erewrite bind_ok by (by apply (interval_ctx t st0 Hsh)). cbv beta. erewrite bind_ok by reflexivity. cbv beta zeta. rewrite E.
  rewrite (uint64_id (ye - slk)), (uint64_id (ye - slk - Sr)), uint64_id by lia.
  destruct (lay_out r d1 c2 i_after Hg2 Hin) as (d2 & c3 & Hrun & Hg3 & Hlay); [done| | |].
  - unfold in_range, i_after. cbn. lia.
  - unfold len, i_after. cbn. lia.
  - exists d2, c3. erewrite bind_ok by exact Hrun. done.
Qed.

(** What a step achieves. *)
Record concentrated (final : bool) (d' : gmap bytes reachabilityData) : Prop := {
  cc_chosen : iv d' (troot ch) = i_chosen;
  cc_siblings : forall w, w ∈ l ++ r -> nested (iv d') w /\ len (iv d' (troot w)) = tsize w;
  cc_tiles : tiles (ys + slk) (map (fun w => iv d' (troot w)) (tsubs y)) (ye - slk);
  cc_outside : forall h, h ∉ nodes y \/ h = troot y -> iv d' h = iv d h;
  cc_inside : final = false -> forall h, h ∈ nodes ch -> h <> troot ch -> iv d' h = iv d h;
  cc_nested : final = true -> nested (iv d) ch -> nested (iv d') ch
}.

Lemma outside_y h : h ∉ nodes y \/ h = troot y -> h ∉ below l /\ h ∉ nodes ch /\ h ∉ below r.
Proof.
  destruct split_nodes as (N1 & N2 & N3 & N4 & N5). intros [Hh| ->].
  - rewrite nodes_eq, Hsubs, map_app, concat_app in Hh. cbn [map concat] in Hh. fold (below l) (below r) in Hh.
    rewrite elem_of_cons, !elem_of_app in Hh. tauto.
  - split_and!; [intros Hin; by apply N3 in Hin as (_ & _ & ?)|done|intros Hin; by apply N4 in Hin as (_ & _ & ?)].
Qed.

Lemma step_done final d1 d2 d3 : laid_out l i_before d d1 -> laid_out r i_after d1 d2 -> iv d3 (troot ch) = i_chosen ->
  (forall h, h ∉ nodes ch -> iv d3 h = iv d2 h) ->
  (final = false -> forall h, h ∈ nodes ch -> h <> troot ch -> iv d3 h = iv d2 h) ->
  (final = true -> nested (iv d2) ch -> nested (iv d3) ch) -> concentrated final d3.
Proof.
  intros (Ht1 & Hn1 & Hf1) (Ht2 & Hn2 & Hf2) Hch Hout Hin Hnest. pose proof sizes as (S1 & S2 & S3 & S4 & S5 & S6 & S7).
  destruct split_nodes as (N1 & N2 & N3 & N4 & N5).
  assert (Hbl : forall w h, w ∈ l -> h ∈ nodes w -> h ∈ below l) by (intros w h Hw Hh; apply elem_of_concat_map; eauto).
  assert (Hbr : forall w h, w ∈ r -> h ∈ nodes w -> h ∈ below r) by (intros w h Hw Hh; apply elem_of_concat_map; eauto).
  assert (HL : forall w h, w ∈ l -> h ∈ nodes w -> iv d3 h = iv d1 h).
  { intros w h Hw Hh. destruct (N3 h (Hbl w h Hw Hh)) as (M1 & M2 & _). by rewrite Hout, Hf2. }
  assert (HR : forall w h, w ∈ r -> h ∈ nodes w -> iv d3 h = iv d2 h).
  { intros w h Hw Hh. destruct (N4 h (Hbr w h Hw Hh)) as (M1 & M2 & _). by rewrite Hout. }
  assert (HC : forall h, h ∈ nodes ch -> iv d2 h = iv d h).
  { intros h Hh. rewrite Hf2, Hf1; [done| |]; intros Hb; [by apply N3 in Hb as (? & _)|by apply N4 in Hb as (? & _)]. }
  constructor.
  - done.
  - intros w [Hw|Hw]%elem_of_app.
    + destruct (Hn1 w Hw) as [M1 M2]. rewrite (HL w) by (done || apply self_node). split; [|done].
      apply (nested_ext (iv d1)); [|done]. intros h Hh. symmetry. by apply (HL w).
    + destruct (Hn2 w Hw) as [M1 M2]. rewrite (HR w) by (done || apply self_node). split; [|done].
      apply (nested_ext (iv d2)); [|done]. intros h Hh. symmetry. by apply (HR w).
  - rewrite Hsubs, map_app. cbn [map]. apply tiles_app. exists (ys + Sl + slk). split; [|split; [by rewrite Hch|split]].
    + rewrite (map_ext_in _ (fun w => iv d1 (troot w))) by (intros w Hw%list_elem_of_In; apply (HL w); [done|apply self_node]).
      unfold i_before in Ht1. cbn in Ht1. replace (ys + Sl + slk) with (ys + slk + Sl - 1 + 1) by lia. done.
    + rewrite Hch. unfold i_chosen. cbn. lia.
    + rewrite Hch. unfold i_chosen. cbn [End].
      rewrite (map_ext_in _ (fun w => iv d2 (troot w))) by (intros w Hw%list_elem_of_In; apply (HR w); [done|apply self_node]).
      unfold i_after in Ht2. cbn in Ht2. replace (ye - Sr - slk - 1 + 1) with (ye - slk - Sr) by lia.
      by replace (ye - slk - 1 + 1) with (ye - slk) in Ht2 by lia.
  - intros h Hh. apply outside_y in Hh as (M1 & M2 & M3). by rewrite Hout, Hf2, Hf1.
  - intros Ef h Hh Hne. by rewrite Hin, HC.
  - intros Ef Hn. apply Hnest; [done|]. apply (nested_ext (iv d)); [|done]. intros h Hh. symmetry. by apply HC.
Qed.

(** ys larger interval for a nested subtree. *)
Lemma nested_enlarge d2 i : has_interval d2 (troot ch) -> nested (iv d2) ch -> Start i <= Start (iv d2 (troot ch)) ->
  End (iv d2 (troot ch)) <= End i -> 1 <= Start i -> End i < 2 ^ 64 - 1 -> nested (iv (set_iv (troot ch) i d2)) ch.
Proof.
  intros Hi Hn H1 H2 H3 H4. destruct (Hn ch (subtrees_self ch)) as [L1 L2 L3 (s & e & L4 & L5 & L6)].
  apply (nested_set d2 ch i) with (s := s) (e := e); try done; try lia.
  - apply (nodup_subtree t); [apply Hsh|]. apply y_child. rewrite elem_of_app, elem_of_cons. tauto.
  - intros w Hw. by eapply nested_child.
Qed.

Lemma chosen_frame d2 i h : h ∉ nodes ch \/ h <> troot ch -> iv (set_iv (troot ch) i d2) h = iv d2 h.
Proof. intros Hh. apply iv_set_ne. intros <-. destruct Hh as [Hh|]; [apply Hh, self_node|done]. Qed.

Lemma expandIntervalToChosen_ok final d1 d2 c2 : laid_out l i_before d d1 -> laid_out r i_after d1 d2 -> good d2 c2 ->
  exists d3 c3, expandIntervalToChosen rt fuel (troot y) (troot ch) Sl Sr final (ctx d2 c2) = (Ok tt, ctx d3 c3) /\
    good d3 c3 /\ concentrated final d3.
Proof.
  intros Hl1 Hl2 Hg. pose proof sizes as (S1 & S2 & S3 & S4 & S5 & S6 & S7).
  assert (Hcht : ch ∈ subtrees t) by (apply y_child; rewrite elem_of_app, elem_of_cons; tauto).
  assert (Ey : iv d2 (troot y) = iv d (troot y)).
  { destruct (outside_y (troot y)) as (M1 & M2 & M3); [by right|]. destruct Hl1 as (_ & _ & Hf1), Hl2 as (_ & _ & Hf2).
    by rewrite Hf2, Hf1. }
  unfold expandIntervalToChosen. erewrite bind_ok by (by apply (interval_ctx t st0 Hsh)). cbv beta.
  erewrite bind_ok by reflexivity. cbv beta zeta. rewrite Ey.
  rewrite (uint64_id (ys + Sl)), (uint64_id (ys + Sl + slk)), (uint64_id (ye - Sr)), (uint64_id (ye - Sr - slk)), (uint64_id (ye - Sr - slk - 1)) by lia.
  fold i_chosen. erewrite bind_ok by (by apply (interval_ctx t st0 Hsh)). cbv beta.
  assert (Hplain : (final = true -> intervalContains i_chosen (iv d2 (troot ch)) = true) ->
    concentrated final (set_iv (troot ch) i_chosen d2)).
  { intros Hc. apply (step_done final d1 d2); try done.
    - apply iv_set_eq. by eapply good_has.
    - intros h Hh. apply chosen_frame. by left.
    - intros _ h _ Hne. apply chosen_frame. by right.
    - intros Ef Hn. specialize (Hc Ef). unfold intervalContains in Hc. apply andb_prop in Hc as [C1 C2].
      apply nested_enlarge; [by eapply good_has|done|..]; unfold i_chosen in *; cbn in *; lia. }
  destruct final; [erewrite bind_assoc; erewrite bind_ok by reflexivity; cbv beta;
    destruct (intervalContains i_chosen (iv d2 (troot ch))) eqn:Ec; cbn [negb]|].
  - erewrite bind_ok by reflexivity. eexists _, _. split; [by apply (stage_ctx t st0 Hsh)|]. split; [by apply good_set|by apply Hplain].
  - cbn [Start End i_chosen]. rewrite (uint64_id (ys + Sl + slk + slk)), (uint64_id (ye - Sr - slk - 1 - slk)) by lia.
    set (i := newReachabilityInterval (ys + Sl + slk + slk) (ye - Sr - slk - 1 - slk)).
    destruct (relayout t st0 fuel Hsh Hsmall Hfuel d2 c2 ch i Hg Hcht) as (d' & c' & Hp & Hg' & Hi' & Hn' & Hf').
    { unfold in_range, i. cbn. lia. }
    { unfold len, i. cbn. lia. }
    rewrite bind_assoc. erewrite bind_ok by (by apply (stage_ctx t st0 Hsh)). erewrite bind_ok by exact Hp.
    eexists _, _. split; [by apply (stage_ctx t st0 Hsh)|]. split; [by apply good_set|].
    apply (step_done true d1 d2); try done.
    + apply iv_set_eq. by eapply good_has.
    + intros h Hh. rewrite chosen_frame by (by left). by apply Hf'.
    + intros _ _. apply nested_enlarge; [by eapply good_has|done|..]; rewrite ?Hi'; unfold i_chosen, i; cbn; lia.
  - erewrite bind_ok by reflexivity. eexists _, _. split; [by apply (stage_ctx t st0 Hsh)|]. split; [by apply good_set|by apply Hplain].
Qed.

Lemma concentrateInterval_ok final c : good d c ->
  exists d' c', concentrateInterval rt fuel (troot y) (troot ch) final (ctx d c) = (Ok tt, ctx d' c') /\ good d' c' /\
    concentrated final d'.
Proof.
  intros Hg. unfold concentrateInterval.
  erewrite bind_ok by (apply mview_ctx, (splitChildren_ok (with_data st0 d) t y l ch r); [by eapply good_shaped|done|done]). cbv beta iota.
  destruct (tightenIntervalsBefore_ok c Hg) as (d1 & c1 & Hrun1 & Hg1 & Hl1). erewrite bind_ok by exact Hrun1. cbv beta.
  destruct (tightenIntervalsAfter_ok d1 c1 Hg1) as (d2 & c2 & Hrun2 & Hg2 & Hl2).
  { destruct (outside_y (troot y)) as (M1 & _); [by right|]. by apply Hl1. }
  erewrite bind_ok by exact Hrun2. cbv beta. by apply (expandIntervalToChosen_ok final d1 d2).
Qed.

End concentrate.
End step.

(** * The chain to the new root *)

Section chain.
Context `{FloatConversion}.
Variable t : tree.
Variable st0 : reach_store.
Variable rt : reachabilityManager.
Variable fuel : nat.
Context (Hsh : shaped (rs_data st0) t) (Hsmall : tsize t < 2 ^ 64) (Hfuel : tsize t <= Z.of_nat fuel).
Abbreviation slk := (reindexSlack rt).
Abbreviation ctx := (ctx st0).
Abbreviation good := (good t st0).
Abbreviation d0 := (rs_data st0).
Context (Hslk : 0 <= slk) (Hnested : nested (iv d0) t).

(** The new root, and the tip below it. *)
Variables xn xt : tree.
Context (Htip : xt ∈ subtrees xn) (Htip' : xt <> xn).

Lemma chain_nodup y : y ∈ subtrees t -> NoDup (nodes y).
Proof. apply nodup_subtree, Hsh. Qed.

(** Putting a step and what is done below the chosen child together. *)
Lemma close_step y l ch r final d d1 d2 : y ∈ subtrees t -> tsubs y = l ++ ch :: r -> in_range (iv d (troot y)) ->
  4 * slk + tsize y <= len (iv d (troot y)) -> concentrated rt y l ch r d final d1 ->
  (forall h, h ∉ nodes ch \/ h = troot ch -> iv d2 h = iv d1 h) -> xn ∈ subtrees ch ->
  nested (iv d2) ch -> capped slk (iv d2) (troot xn) ch ->
  nested (iv d2) y /\ capped slk (iv d2) (troot xn) y /\ (forall h, h ∉ nodes y \/ h = troot y -> iv d2 h = iv d h).
Proof.
  intros Hy Hsubs Hrange Hroom [C1 C2 C3 C4 C5 C6] Hf Hxn Hn Hc. pose proof (chain_nodup y Hy) as Hnd.
  assert (Hroot : forall w h, w ∈ tsubs y -> w <> ch -> h ∈ nodes w -> h ∉ nodes ch).
  { intros w h Hw Hne Hh Hh'. apply Hne. apply (child_unique y w ch h); try done. rewrite Hsubs, elem_of_app, elem_of_cons. tauto. }
  assert (Hch : ch ∈ tsubs y) by (rewrite Hsubs, elem_of_app, elem_of_cons; tauto).
  assert (Hsame : forall w, w ∈ tsubs y -> iv d2 (troot w) = iv d1 (troot w)).
  { intros w Hw. apply Hf. destruct (decide (troot w = troot ch)) as [E|E]; [by right|]. left.
    apply (Hroot w); [done|by intros ->|apply self_node]. }
  assert (Hsib : forall w, w ∈ tsubs y -> w <> ch -> w ∈ l ++ r).
  { intros w Hw Hne. rewrite Hsubs, elem_of_app, elem_of_cons in Hw. rewrite elem_of_app. tauto. }
  assert (Hout : forall h, h ∉ nodes y \/ h = troot y -> iv d2 h = iv d h).
  { intros h Hh. rewrite <- C4 by done. apply Hf. left. destruct Hh as [Hh| ->].
    - intros Hin. apply Hh. apply (nodes_sub y ch); [by apply subtrees_child|done].
    - intros Hin. apply nodes_subtrees in Hin as (u & Hu & Eu). by apply (nodup_root y ch u Hnd Hch Hu). }
  assert (Hmap : map (fun w => iv d2 (troot w)) (tsubs y) = map (fun w => iv d1 (troot w)) (tsubs y)).
  { apply map_ext_in. intros w Hw%list_elem_of_In. by apply Hsame. }
  destruct Hrange as (R1 & R2 & R3). unfold len in Hroom. pose proof (tsize_pos y).
  split_and!; [| |done].
  - intros z [->|(w & Hw & Hz)]%subtrees_inv.
    + constructor; rewrite ?Hout by (by right); [lia..|]. eexists _, _. rewrite Hmap. split_and!; [..|exact C3]; lia.
    + destruct (decide (troot w = troot ch)) as [E|E].
      * rewrite (subtree_unique y w ch Hnd (subtrees_child y w Hw) (subtrees_child y ch Hch) E) in *. by apply Hn.
      * assert (Hne : w <> ch) by (by intros ->). destruct (C2 w (Hsib w Hw Hne)) as [Hw1 _].
        apply (nested_ext (iv d1) _ w); [|done|done]. intros h Hh. symmetry. apply Hf. left. by apply (Hroot w).
  - intros z [->|(w & Hw & Hz)]%subtrees_inv Hrz Hne.
    + exists (Start (iv d (troot y)) + slk), (End (iv d (troot y)) - slk). rewrite Hout by (by right). rewrite Hmap. split_and!; [lia..|done|].
      intros w Hw Hnw. rewrite Hsame by done.
      destruct (C2 w) as [_ ->]; [|pose proof (tsize_pos w); lia]. apply Hsib; [done|]. intros ->. apply Hnw, nodes_subtrees. eauto.
    + assert (w = ch) as ->; [|by apply Hc].
      apply (child_unique y w ch (troot xn)); [done..|by apply (nodes_sub w z)|apply nodes_subtrees; eauto].
Qed.

Lemma chosen_child y d : y ∈ subtrees t -> xn ∈ subtrees y -> xn <> y -> same_shape d0 d ->
  (forall h, h ∈ nodes y -> h <> troot y -> iv d h = iv d0 h) ->
  exists l ch r, tsubs y = l ++ ch :: r /\ xn ∈ subtrees ch /\
    FindNextAncestor (with_data st0 d) (troot xt) (troot y) = Ok (troot ch).
Proof.
  intros Hy Hxn Hne Hshape Hold.
  apply subtrees_inv in Hxn as [->|(ch & Hch & Hxn)]; [done|]. pose proof (chain_nodup y Hy) as Hnd.
  apply list_elem_of_split in Hch as Hsplit. destruct Hsplit as (l & r & Hsubs). exists l, ch, r. split_and!; try done.
  assert (Hxt : xt ∈ subtrees ch) by (by apply (subtrees_trans ch xn)).
  destruct (Hnested y Hy) as [_ _ _ (s & e & _ & _ & Ht)].
  assert (Hchild : forall w h, w ∈ tsubs y -> h ∈ nodes w -> iv d h = iv d0 h).
  { intros w h Hw Hh. apply Hold; [apply (nodes_sub y w); [by apply subtrees_child|done]|].
    apply nodes_subtrees in Hh as (u & Hu & <-). by apply (nodup_root y w u). }
  assert (Hshd : shaped d t) by (by apply (shaped_same d0)).
  apply (FindNextAncestor_ok (with_data st0 d) (troot y) (troot xt) (map troot l) (troot ch) (map troot r) s e).
  - intros E. symmetry in E. by apply (nodup_root y ch xt Hnd Hch Hxt).
  - rewrite (children_ok (with_data st0 d) t Hshd y Hy), Hsubs, map_app. done.
  - intros k Hk. apply (shaped_has d t); [done|]. apply elem_of_cons in Hk as [->|Hk].
    + apply nodes_subtrees. exists xt. split; [|done]. apply (subtrees_trans t ch); [done|by apply (subtrees_down t y)].
    + change (map troot l ++ troot ch :: map troot r) with (map troot l ++ map troot (ch :: r)) in Hk.
      rewrite <- map_app, <- Hsubs in Hk. apply list_elem_of_fmap in Hk as (w & -> & Hw).
      apply nodes_subtrees. exists w. split; [by apply (subtrees_down t y)|done].
  - change (map troot l ++ troot ch :: map troot r) with (map troot l ++ map troot (ch :: r)).
    rewrite <- map_app, <- Hsubs, map_map. cbn [rs_data with_data]. erewrite map_ext_in; [exact Ht|].
    intros w Hw%list_elem_of_In. apply (Hchild w); [done|apply self_node].
  - cbn [rs_data with_data]. rewrite !(Hchild ch) by (try done; try apply self_node; apply nodes_subtrees; eauto).
    assert (Hnch : nested (iv d0) ch) by (apply (nested_subtree _ t); [done|by apply (subtrees_down t y)]).
    destruct (nested_within (iv d0) ch xt Hnch Hxt) as (B1 & B2 & _).
    destruct (Hnch xt Hxt) as [_ B3 _ _]. lia.
Qed.

Lemma concentrate_loop_ok walk : forall y d c, y ∈ subtrees t -> xn ∈ subtrees y -> xn <> y -> good d c ->
  (forall h, h ∈ nodes y -> h <> troot y -> iv d h = iv d0 h) -> in_range (iv d (troot y)) ->
  (2 * slk + 1) * (tsize y - tsize xn) + 2 * slk + tsize xn <= len (iv d (troot y)) ->
  tsize y - tsize xn <= Z.of_nat walk ->
  exists d' c', concentrate_loop rt fuel walk (troot xt) (troot y) (troot xn) (ctx d c) = (Ok tt, ctx d' c') /\ good d' c' /\
    nested (iv d') y /\ capped slk (iv d') (troot xn) y /\ (forall h, h ∉ nodes y \/ h = troot y -> iv d' h = iv d h).
Proof.
  induction walk as [|walk IH]; intros y d c Hy Hxn Hne Hg Hold Hr Hroom Hw.
  { exfalso. apply subtrees_inv in Hxn as [->|(w & Hwy & Hxn)]; [done|].
    pose proof (tsize_child y w Hwy). pose proof (tsize_subtree w xn Hxn). lia. }
  destruct (chosen_child y d Hy Hxn Hne (proj1 Hg) Hold) as (l & ch & r & Hsubs & Hxch & Hnext). pose proof (chain_nodup y Hy) as Hnd.
  assert (Hch : ch ∈ tsubs y) by (rewrite Hsubs, elem_of_app, elem_of_cons; tauto).
  assert (Hcht : ch ∈ subtrees t) by (by apply (subtrees_down t y)).
  pose proof (tsize_child y ch Hch) as Hlt. pose proof (tsize_subtree ch xn Hxch) as Hle. pose proof (tsize_pos xn).
  assert (Hroom' : 4 * slk + tsize y <= len (iv d (troot y))) by nia.
  assert (Hinner : forall h, h ∈ nodes ch -> iv d h = iv d0 h).
  { intros h Hh. apply Hold; [apply (nodes_sub y ch); [by apply subtrees_child|done]|].
    apply nodes_subtrees in Hh as (u & Hu & <-). by apply (nodup_root y ch u). }
  cbn [concentrate_loop]. erewrite bind_ok by (apply mview_ctx; exact Hnext). cbv beta zeta.
  destruct (concentrateInterval_ok t st0 rt fuel Hsh Hsmall Hfuel y l ch r Hy Hsubs d Hr Hslk Hroom'
    (bytes_eqb (troot ch) (troot xn)) c Hg) as (d1 & c1 & Hrun & Hg1 & Hcc).
  erewrite bind_ok by exact Hrun. unfold bytes_eqb in *.
  destruct (decide (troot ch = troot xn)) as [E|Hne'].
  - assert (ch = xn) as -> by (apply (subtree_unique t); [apply Hsh|done|by apply (subtrees_trans t ch)|done]).
    rewrite bool_decide_true in * by done. exists d1, c1. split; [done|]. split; [done|].
    apply (close_step y l xn r true d d1 d1); try done.
    + apply (cc_nested _ _ _ _ _ _ _ _ Hcc); [done|]. apply (nested_ext (iv d0)); [|by apply (nested_subtree _ t)].
      intros h Hh. symmetry. by apply Hinner.
    + apply capped_free; [by apply chain_nodup|done].
  - rewrite bool_decide_false in * by done. pose proof Hcc as [C1 C2 C3 C4 C5 C6].
    pose proof (tsize_eq y) as Hsz. rewrite Hsubs, sumZ_app in Hsz. cbn [sumZ foldr] in Hsz. fold (sumZ tsize r) in Hsz.
    pose proof (sumZ_tsize_nonneg l). pose proof (sumZ_tsize_nonneg r). pose proof (tsize_pos ch).
    destruct Hr as (R1 & R2 & R3). unfold len in Hroom, Hroom'.
    destruct (IH ch d1 c1 Hcht Hxch) as (d2 & c2 & Hrun2 & Hg2 & Hn2 & Hc2 & Hf2); try done.
    + by intros ->.
    + intros h Hh Hnh. rewrite C5 by done. by apply Hinner.
    + rewrite C1. unfold in_range, i_chosen. cbn. lia.
    + rewrite C1. unfold len, i_chosen. cbn. nia.
    + lia.
    + exists d2, c2. split; [exact Hrun2|]. split; [done|]. by apply (close_step y l ch r false d d1 d2).
Qed.

End chain.
