(* ===== verification/ReachRoot.v ===== *)
(** [UpdateReindexRoot]: the new reindex root is found on the chain of the tip,
    the intervals are concentrated on it, and the invariant holds for it. *)

From S2P Require Import Prelude Transaction Block Difficulty TxMass Ghostdag ReachInterval Reachability Reindex ReachTree.
From S2P Require Import ReindexCount ReindexPropagate ReindexReclaim ReindexChain ReindexAdd ReachAdd ReachConcentrate.

(** Two subtrees with a common one are nested. *)
Lemma chain_total t x y v : NoDup (nodes t) -> x ∈ subtrees t -> y ∈ subtrees t -> v ∈ subtrees x -> v ∈ subtrees y ->
  x ∈ subtrees y \/ y ∈ subtrees x.
Proof.
  induction t as [h cs IH] using tree_induction. intros Hnd Hx Hy Hvx Hvy.
  apply subtrees_inv in Hx as Hx'. destruct Hx' as [->|(c & Hc & Hxc)]; [by right|].
  apply subtrees_inv in Hy as Hy'. destruct Hy' as [->|(c' & Hc' & Hyc)]; [by left|].
  assert (c = c') as <-.
  { apply (child_unique _ c c' (troot v) Hnd Hc Hc'); apply nodes_subtrees; exists v; (split; [|done]).
    - by apply (subtrees_trans c x).
    - by apply (subtrees_trans c' y). }
  apply (IH c Hc); [by apply (nodup_child (Node h cs))|done..].
Qed.

(** Room for the root is room for the nodes above it. *)
Lemma capped_up slk f t xa xr : NoDup (nodes t) -> xa ∈ subtrees t -> xr ∈ subtrees xa -> capped slk f (troot xr) t ->
  capped slk f (troot xa) t.
Proof.
  intros Hnd Ha Hr Hc z Hz Haz Hne. assert (Hrt : xr ∈ subtrees t) by (by apply (subtrees_trans t xa)).
  apply (subtree_by_root t) in Haz as Haz'; [|done..].
  assert (Hrz : troot xr ∈ nodes z) by (apply nodes_subtrees; exists xr; split; [by apply (subtrees_trans z xa)|done]).
  destruct (Hc z Hz Hrz) as (s & e & H1 & H2 & H3 & H4).
  - intros E. apply (subtree_unique t) in E; [|done..]. subst z. apply Hne. by rewrite (subtrees_antisym xr xa).
  - exists s, e. split_and!; [lia..|done|]. intros w Hw Hnw. apply H4; [done|]. intros Hrw. apply Hnw.
    apply subtrees_inv in Haz' as [->|(v & Hv & Hav)]; [done|].
    rewrite (child_unique z w v (troot xr)); [apply nodes_subtrees; eauto|by apply (nodup_subtree t)|done|done|done|].
    apply nodes_subtrees. exists xr. split; [by apply (subtrees_trans v xa)|done].
Qed.

(** A new root below [xa], with the intervals outside [xa] as before. *)
Lemma capped_move slk f g t xa xn : NoDup (nodes t) -> xa ∈ subtrees t -> xn ∈ subtrees xa ->
  (forall h, h ∉ nodes xa \/ h = troot xa -> g h = f h) -> capped slk g (troot xn) xa -> capped slk f (troot xa) t ->
  capped slk g (troot xn) t.
Proof.
  intros Hnd Ha Hn Hfr Hin Hout z Hz Hnz Hne.
  destruct (decide (troot z ∈ nodes xa)) as [Hza|Hza]; rewrite (subtree_by_root t) in Hza by done; [by apply Hin|].
  assert (Hnt : xn ∈ subtrees t) by (by apply (subtrees_trans t xa)).
  assert (Haz : xa ∈ subtrees z).
  { apply (subtree_by_root t) in Hnz; [|done..]. by destruct (chain_total t xa z xn Hnd Ha Hz Hn Hnz). }
  assert (Hrz : troot z <> troot xa).
  { intros E. apply (subtree_unique t) in E; [|done..]. subst. by apply Hza, subtrees_self. }
  apply (local_cap_ext slk f); [intros h Hh; symmetry; apply Hfr; by apply (outside_strict t xa z)|].
  destruct (Hout z Hz) as (s & e & H1 & H2 & H3 & H4); [apply nodes_subtrees; eauto|done|].
  exists s, e. split_and!; [lia..|done|]. intros w Hw Hnw. apply H4; [done|]. intros Haw. apply Hnw.
  assert (Hwt : w ∈ subtrees t) by (by apply (subtrees_down t z)). apply (subtree_by_root t) in Haw; [|done..].
  apply nodes_subtrees. exists xn. split; [by apply (subtrees_trans w xa)|done].
Qed.

(** * Finding the root *)

(** The data of the blocks of the tree: the blue score does not decrease along a
    chain. *)
Record scored (gd : ghostdag_store) (t : tree) : Prop := {
  sc_data : forall h, h ∈ nodes t -> exists dd, gd !! (h, false) = Some dd /\ 0 <= BlueScore dd < 2 ^ 64;
  sc_edge : forall u c du dc, u ∈ subtrees t -> c ∈ tsubs u -> gd !! (troot u, false) = Some du ->
    gd !! (troot c, false) = Some dc -> BlueScore du <= BlueScore dc
}.

Section find.
Variable rt : reachabilityManager.
Variable fuel : nat.
Variable gd : ghostdag_store.
Variable st : reach_store.
Variable t : tree.
Context (Hok : reach_ok rt st t) (Hsc : scored gd t) (Hwin : 0 < reindexWindow rt).

Lemma find_nodup : NoDup (nodes t).
Proof. apply Hok. Qed.

Lemma score_chain u v du dv : u ∈ subtrees t -> v ∈ subtrees u -> gd !! (troot u, false) = Some du ->
  gd !! (troot v, false) = Some dv -> BlueScore du <= BlueScore dv.
Proof.
  revert du. induction u as [h cs IH] using tree_induction. intros du Hu Hv Hdu Hdv.
  apply subtrees_inv in Hv as [->|(c & Hc & Hv)]; [simplify_eq; lia|]. cbn [tsubs] in Hc.
  assert (Hct : c ∈ subtrees t) by (by apply (subtrees_down t (Node h cs))).
  destruct (sc_data _ _ Hsc (troot c)) as (dc & Hdc & _); [apply nodes_subtrees; eauto|].
  specialize (IH c Hc dc Hct Hv Hdc Hdv). pose proof (sc_edge _ _ Hsc (Node h cs) c du dc Hu Hc Hdu Hdc). lia.
Qed.

Lemma score_of u : u ∈ subtrees t -> exists du, ghostdagData gd (troot u) = Ok du /\ gd !! (troot u, false) = Some du /\
  0 <= BlueScore du < 2 ^ 64.
Proof.
  intros Hu. destruct (sc_data _ _ Hsc (troot u)) as (du & Hd & Hr); [apply nodes_subtrees; eauto|].
  exists du. unfold ghostdagData. by rewrite Hd.
Qed.

Lemma ancestor_query x y : x ∈ subtrees t -> y ∈ subtrees t ->
  exists r, IsReachabilityTreeAncestorOf st (troot x) (troot y) = Ok r /\ (r = true <-> y ∈ subtrees x).
Proof.
  intros Hx Hy. rewrite (tree_ancestor_intervals st t (ro_shaped _ _ _ Hok) x y Hx Hy). eexists. split; [done|].
  apply (intervalContains_iff _ t); [apply find_nodup|apply Hok|done|done].
Qed.

Lemma findCommonAncestor_ok xr walk : xr ∈ subtrees t -> forall u, u ∈ subtrees t -> tsize t - tsize u < Z.of_nat walk ->
  exists xa, findCommonAncestor walk st (troot u) (troot xr) = Ok (troot xa) /\ xa ∈ subtrees t /\ u ∈ subtrees xa /\ xr ∈ subtrees xa.
Proof.
  intros Hr. induction walk as [|walk IH]; intros u Hu Hw; pose proof (tsize_subtree t u Hu); [lia|].
  cbn [findCommonAncestor]. destruct (ancestor_query u xr Hu Hr) as (r & -> & Hriff). cbn [bind_res]. destruct r.
  - exists u. split_and!; try done; [apply subtrees_self|tauto].
  - destruct (subtrees_parent t u Hu) as (z & Hz & Huz).
    { intros ->. assert (false = true) by tauto. done. }
    rewrite (parent_ok st t (ro_shaped _ _ _ Hok) z u Hz Huz). cbn [bind_res deref]. pose proof (tsize_child z u Huz).
    destruct (IH z Hz ltac:(lia)) as (xa & -> & H1 & H2 & H3). exists xa. split_and!; try done.
    apply (subtrees_trans xa z); [by apply subtrees_child|done].
Qed.

Variable xt : tree.
Variable dt : BlockGHOSTDAGData.
Context (Ht : xt ∈ subtrees t) (Hdt : gd !! (troot xt, false) = Some dt).

Lemma next_root_ok walk : forall y, y ∈ subtrees t -> xt ∈ subtrees y -> xt <> y -> tsize y <= Z.of_nat walk ->
  exists xn, next_root_loop rt gd walk st (troot xt) dt (troot y) = Ok (troot xn) /\ xn ∈ subtrees y /\ xt ∈ subtrees xn /\ xt <> xn.
Proof.
  induction walk as [|walk IH]; intros y Hy Hxt Hne Hw; pose proof (tsize_pos y); [lia|].
  apply subtrees_inv in Hxt as Hx'. destruct Hx' as [->|(c & Hc & Hxc)]; [done|].
  apply list_elem_of_split in Hc as Hs. destruct Hs as (l & r & Hsubs). cbn [next_root_loop].
  rewrite (FindNextAncestor_tree st t y l c r xt (ro_shaped _ _ _ Hok) Hy (nested_subtree _ _ _ (ro_nested _ _ _ Hok) Hy) Hsubs Hxc).
  cbn [bind_res]. assert (Hct : c ∈ subtrees t) by (by apply (subtrees_down t y)).
  destruct (score_of c Hct) as (dc & -> & Hdc & Hrc). cbn [bind_res].
  destruct (score_of xt Ht) as (dt' & _ & Hdt' & Hrt). rewrite Hdt in Hdt'. injection Hdt' as <-.
  pose proof (score_chain c xt dc dt Hct Hxc Hdc Hdt) as Hle. rewrite (proj2 (Z.ltb_ge _ _)) by lia. rewrite uint64_id by lia.
  destruct (Z.ltb_spec (BlueScore dt - BlueScore dc) (reindexWindow rt)) as [Hlt|Hge].
  - exists y. split_and!; try done. apply subtrees_self.
  - pose proof (tsize_child y c Hc). destruct (IH c Hct Hxc) as (xn & -> & H1 & H2 & H3).
    + intros ->. simplify_eq. lia.
    + lia.
    + exists xn. split_and!; try done. apply (subtrees_trans y c); [done|by apply subtrees_child].
Qed.

(** The current root is kept, or the new one is above the tip and below an
    ancestor of the current one. *)
Lemma findNextReindexRoot_ok xr : xr ∈ subtrees t -> troot xt <> troot xr -> 0 < reindexSlack rt -> tsize t < Z.of_nat fuel ->
  findNextReindexRoot rt fuel gd st (troot xr) (troot xt) = Ok (troot xr, troot xr) \/
  exists xa xn, findNextReindexRoot rt fuel gd st (troot xr) (troot xt) = Ok (troot xa, troot xn) /\ xa ∈ subtrees t /\
    xr ∈ subtrees xa /\ xn ∈ subtrees xa /\ xt ∈ subtrees xn /\ xt <> xn.
Proof.
  intros Hxr Hne Hslk Hf. unfold findNextReindexRoot.
  assert (Eg : ghostdagData gd (troot xt) = Ok dt) by (unfold ghostdagData; by rewrite Hdt). rewrite Eg. cbn [bind_res].
  destruct (score_of xt Ht) as (dt' & _ & Hdt' & Hrt). rewrite Hdt in Hdt'. injection Hdt' as <-.
  destruct (ancestor_query xr xt Hxr Ht) as (r & -> & Hriff). cbn [bind_res]. destruct r; cbn [bind_res].
  - right. destruct (next_root_ok fuel xr Hxr) as (xn & -> & H1 & H2 & H3); [tauto|by intros <-|pose proof (tsize_subtree t xr Hxr); lia|].
    exists xr, xn. split_and!; try done. apply subtrees_self.
  - destruct (score_of xr Hxr) as (dr & -> & Hdr & Hrr). cbn [bind_res].
    destruct (Z.ltb_spec (BlueScore dt) (BlueScore dr)) as [Hlt|Hge]; cbn [orb bind_res]; [by left|]. rewrite uint64_id by lia.
    destruct (Z.ltb_spec (BlueScore dt - BlueScore dr) (reindexSlack rt)) as [Hlt'|Hge']; cbn [bind_res]; [by left|]. right.
    pose proof (tsize_pos xt).
    destruct (findCommonAncestor_ok xr fuel Hxr xt Ht) as (xa & -> & Ha & Hta & Hra); [lia|]. cbn [bind_res].
    destruct (next_root_ok fuel xa Ha Hta) as (xn & -> & H1 & H2 & H3).
    + intros <-. pose proof (score_chain xt xr dt dr Ht Hra Hdt Hdr). lia.
    + pose proof (tsize_subtree t xa Ha). lia.
    + by exists xa, xn.
Qed.

End find.

(** * The update *)

Lemma newReindexContext_run {A} (m : RC A) st a d' c' : m (ctx st (rs_data st) ∅) = (Ok a, ctx st d' c') ->
  newReindexContext m st = (Ok a, with_data st d').
Proof.
  unfold newReindexContext. replace (mk_reindexContext st ∅) with (ctx st (rs_data st) ∅) by (by destruct st). by intros ->.
Qed.

Section update.
Context `{FloatConversion}.
Variable rt : reachabilityManager.
Variable fuel : nat.
Variable st : reach_store.
Variable t : tree.
Context (Hok : reach_ok rt st t) (Hfits : fits rt (tsize t)) (Hfuel : tsize t < Z.of_nat fuel).
Variable xa : tree.
Context (Ha : xa ∈ subtrees t) (Hcapa : capped (reindexSlack rt) (iv (rs_data st)) (troot xa) t).

(** The ancestor becomes the root. *)
Lemma root_above : reach_ok rt (mk_reach_store (rs_data st) (Some (troot xa))) t.
Proof. destruct Hok as [K1 K2 K3 K4 _]. constructor; try done. by exists xa. Qed.

(** A node below it does. *)
Lemma root_below d' xn : same_shape (rs_data st) d' -> nested (iv d') xa -> capped (reindexSlack rt) (iv d') (troot xn) xa ->
  (forall h, h ∉ nodes xa \/ h = troot xa -> iv d' h = iv (rs_data st) h) -> xn ∈ subtrees xa ->
  reach_ok rt (mk_reach_store d' (Some (troot xn))) t.
Proof.
  intros Hs Hn Hc Hfr Hna. pose proof (sh_nodup _ _ (ro_shaped _ _ _ Hok)) as Hnd. constructor; cbn [rs_data rs_reindexRoot].
  - apply (shaped_same (rs_data st)); [done|apply Hok].
  - intros h [rd Hh]. apply (ro_dom _ _ _ Hok). symmetry in Hs. destruct (same_shape_lookup _ _ _ _ Hs Hh) as (? & -> & _). done.
  - apply (nested_replace (iv (rs_data st)) _ t xa); try done. intros z Hz _. by apply (ro_nested _ _ _ Hok).
  - rewrite <- (ro_top _ _ _ Hok). apply Hfr. destruct (decide (troot t ∈ nodes xa)) as [Hta|]; [|by left]. right.
    apply (subtree_by_root t) in Hta; [|done|done|apply subtrees_self]. by rewrite (subtrees_antisym t xa).
  - exists xn. split_and!; [done|by apply (subtrees_trans t xa)|by apply (capped_move _ (iv (rs_data st)) _ t xa xn)].
Qed.

Lemma concentrate_ok xn xt : xn ∈ subtrees xa -> xn <> xa -> xt ∈ subtrees xn -> xt <> xn ->
  exists d', newReindexContext (concentrate_loop rt fuel fuel (troot xt) (troot xa) (troot xn)) st = (Ok tt, with_data st d') /\
    same_shape (rs_data st) d' /\ reach_ok rt (mk_reach_store d' (Some (troot xn))) t.
Proof.
  intros Hna Hxna Htn Hne. pose proof (ro_shaped _ _ _ Hok) as Hsh. pose proof (sh_nodup _ _ Hsh) as Hnd. destruct Hfits as [Hslk Hbig].
  assert (Hlen : 2 ^ 64 - 2 - (2 * reindexSlack rt + 2) * (tsize t - tsize xa) <= len (iv (rs_data st) (troot xa))).
  { pose proof (capped_root _ _ t xa Hslk Hnd (ro_nested _ _ _ Hok) Hcapa Ha) as Hl. rewrite (ro_top _ _ _ Hok) in Hl.
    unfold len at 1 in Hl. unfold MaxUint64 in Hl. cbn [Start End] in Hl. lia. }
  pose proof (tsize_subtree t xa Ha). pose proof (tsize_subtree xa xn Hna). pose proof (tsize_pos xn).
  assert (Hsn : 2 <= tsize xn).
  { apply subtrees_inv in Htn as [->|(w & Hw & _)]; [done|]. pose proof (tsize_child xn w Hw). pose proof (tsize_pos w). lia. }
  destruct (concentrate_loop_ok t st rt fuel Hsh) with (xn := xn) (xt := xt) (walk := fuel) (y := xa) (d := rs_data st) (c := ∅ : gmap bytes Z)
    as (d' & c' & Hrun & [Hs _] & Hn & Hc & Hfr); try done; try lia; try nia.
  - apply Hok.
  - split; [done|]. intros x _ [? Hx]. by rewrite lookup_empty in Hx.
  - apply nested_in_range. apply (nested_subtree _ t); [apply Hok|done].
  - exists d'. split; [by eapply newReindexContext_run|]. split; [done|by apply root_below].
Qed.

End update.

Lemma UpdateReindexRoot_ok `{FloatConversion} rt fuel gd st t tip : reach_ok rt st t -> scored gd t -> fits rt (tsize t) ->
  0 < reindexSlack rt -> 0 < reindexWindow rt -> tsize t < Z.of_nat fuel -> tip ∈ nodes t -> rs_reindexRoot st <> Some tip ->
  exists st', UpdateReindexRoot rt fuel gd tip st = (Ok tt, st') /\ reach_ok rt st' t /\ same_shape (rs_data st) (rs_data st') /\
    (rs_reindexRoot st' = rs_reindexRoot st \/
     exists xn, xn ∈ subtrees t /\ rs_reindexRoot st' = Some (troot xn) /\ tip ∈ nodes xn /\ tip <> troot xn).
Proof.
  intros Hok Hsc Hfits Hslk Hwin Hf (xt & Ht & <-)%nodes_subtrees Hne.
  destruct (ro_root _ _ _ Hok) as (xr & Hr & Hxr & Hcap). pose proof (sh_nodup _ _ (ro_shaped _ _ _ Hok)) as Hnd.
  destruct (sc_data _ _ Hsc (troot xt)) as (dt & Hdt & _); [apply nodes_subtrees; eauto|].
  unfold UpdateReindexRoot, updateReindexRoot. rewrite (bind_ok _ _ _ (troot xr) st) by (unfold view, reindexRoot; by rewrite Hr).
  destruct (findNextReindexRoot_ok rt fuel gd st t Hok Hsc Hwin xt dt Ht Hdt xr Hxr) as [Hfind|(xa & xn & Hfind & Ha & Hra & Hna & Htn & Hne')];
    try done; [intros E; apply Hne; by rewrite E| |]; (erewrite bind_ok by (unfold view; rewrite Hfind; reflexivity)); cbv beta iota; unfold bytes_eqb.
  { rewrite bool_decide_true by done. exists st. split_and!; [done..|by left]. }
  destruct (decide (troot xr = troot xn)) as [E|E]; [rewrite bool_decide_true by done; exists st; split_and!; [done..|by left]|].
  rewrite bool_decide_false by done. pose proof (capped_up _ _ t xa xr Hnd Ha Hra Hcap) as Hcapa.
  assert (Hnt : xn ∈ subtrees t) by (by apply (subtrees_trans t xa)).
  assert (Hplace : exists x, x ∈ subtrees t /\ Some (troot xn) = Some (troot x) /\ troot xt ∈ nodes x /\ troot xt <> troot x).
  { exists xn. split_and!; [done|done|apply nodes_subtrees; eauto|]. intros Et. by apply Hne', (subtree_unique t). }
  destruct (decide (troot xn = troot xa)) as [Ea|Ea].
  - rewrite (bool_decide_true (_ = _)) by done. eexists. split; [reflexivity|]. rewrite Ea in *. split; [by apply root_above|]. split; [done|by right].
  - rewrite (bool_decide_false (_ = _)) by done. cbn [negb].
    destruct (concentrate_ok rt fuel st t Hok Hfits Hf xa Ha Hcapa xn xt) as (d' & Hrun & Hs & Hok'); try done; [by intros ->|].
    erewrite bind_ok by exact Hrun. eexists. split; [reflexivity|]. split_and!; [done..|by right].
Qed.
