(* ===== verification/ReachRun.v ===== *)
(** Runs of the reachability manager: a new store, blocks added in an order in
    which parents come first, and the reindex root updated for new selected tips.
    No call fails, and the queries are the relations of the DAG. *)

From S2P Require Import Prelude Transaction Block Difficulty TxMass Ghostdag GhostdagMergeSet ReachInterval Reachability.
From S2P Require Import Reindex ReachTree ReindexCount ReindexPropagate ReindexReclaim ReindexChain ReindexAdd ReachAdd ReachFuture.
From S2P Require Import ReachConcentrate ReachRoot.

(** The calls of the block processor. *)
Inductive reach_call : Set :=
| CallAddBlock (blockHash : bytes)
| CallUpdateReindexRoot (selectedTip : bytes).

Definition reach_step `{FloatConversion} (rt : reachabilityManager) (fuel : nat) (gd : ghostdag_store) (call : reach_call) : RM unit :=
  match call with
  | CallAddBlock blockHash => AddBlock rt fuel gd blockHash
  | CallUpdateReindexRoot selectedTip => UpdateReindexRoot rt fuel gd selectedTip
  end.

Fixpoint reach_run `{FloatConversion} (rt : reachabilityManager) (fuel : nat) (gd : ghostdag_store) (calls : list reach_call) : RM unit :=
  match calls with
  | [] => ret tt
  | call :: rest => reach_step rt fuel gd call ;; reach_run rt fuel gd rest
  end.

Definition empty_store : reach_store := mk_reach_store ∅ None.

Definition added_by (calls : list reach_call) : list bytes :=
  concat (map (fun call => match call with CallAddBlock b => [b] | _ => [] end) calls).

(** A block is new, its parents are known, and its GHOSTDAG data is that of the
    DAG [par] with a blue score no smaller than that of its selected parent.  A
    tip is known, and not in the past of an earlier tip. *)
Inductive calls_ok (par : bytes -> list bytes) (gd : ghostdag_store) : list bytes -> list bytes -> list reach_call -> Prop :=
| calls_nil known tips : calls_ok par gd known tips []
| calls_add known tips b p dp dd rest :
    b ∉ known -> (forall q, q ∈ par b -> q ∈ known) -> merged par gd b p dd ->
    gd !! (p, false) = Some dp -> BlueScore dp <= BlueScore dd < 2 ^ 64 ->
    calls_ok par gd (b :: known) tips rest -> calls_ok par gd known tips (CallAddBlock b :: rest)
| calls_update known tips tip rest :
    tip ∈ known -> tip <> VirtualGenesisBlockHash -> (forall t', t' ∈ tips -> anc par tip t' -> tip = t') ->
    calls_ok par gd known (tip :: tips) rest -> calls_ok par gd known tips (CallUpdateReindexRoot tip :: rest).

(** A configuration with room for [n] blocks, and fuel for them. *)
Record roomy_for (rt : reachabilityManager) (fuel : nat) (n : Z) : Prop := {
  rf_fits : fits rt n;
  rf_slack : 0 < reindexSlack rt;
  rf_window : 0 < reindexWindow rt;
  rf_fuel : n < Z.of_nat fuel
}.

(** The virtual genesis has no parents, and its data is what consensus stages. *)
Record genesis_ok (par : bytes -> list bytes) (gd : ghostdag_store) : Prop := {
  go_parents : par VirtualGenesisBlockHash = [];
  go_data : gd !! (VirtualGenesisBlockHash, false) = Some (mk_BlockGHOSTDAGData 0 0 None [] [] ∅)
}.

(** [x] is the selected parent of [y]. *)
Definition selects (gd : ghostdag_store) (x y : bytes) : Prop :=
  exists d, gd !! (y, false) = Some d /\ SelectedParent d = Some x.

Section run.
Context `{FloatConversion}.
Variable rt : reachabilityManager.
Variable fuel : nat.
Variable par : bytes -> list bytes.
Variable gd : ghostdag_store.
Context (Hgen : genesis_ok par gd).

(** What holds between calls. *)
Record run_ok (known tips : list bytes) (st : reach_store) (t : tree) : Prop := {
  ru_dag : dag_ok par rt st t;
  ru_known : nodes t ≡ₚ known;
  ru_top : troot t = VirtualGenesisBlockHash;
  ru_scored : scored gd t;
  ru_selects : forall u c, u ∈ subtrees t -> c ∈ tsubs u -> selects gd (troot u) (troot c);
  ru_root : rs_reindexRoot st = Some VirtualGenesisBlockHash \/
    exists x tip, rs_reindexRoot st = Some x /\ tip ∈ tips /\ anc par x tip /\ x <> tip
}.

Lemma size_known known tips st t : run_ok known tips st t -> tsize t = zlen known.
Proof. intros Hr. rewrite <- zlen_nodes. unfold zlen. by rewrite (ru_known _ _ _ _ Hr). Qed.

Lemma scored_insert known tips st t b p dp dd : run_ok known tips st t -> b ∉ nodes t -> merged par gd b p dd ->
  p ∈ nodes t -> gd !! (p, false) = Some dp -> BlueScore dp <= BlueScore dd < 2 ^ 64 -> scored gd (insert_child p b t).
Proof.
  intros Hr Hb Hm Hp Hdp Hs. destruct (ru_scored _ _ _ _ Hr) as [S1 S2]. assert (Hnd : NoDup (nodes t)) by apply Hr.
  constructor.
  - intros h [->|Hh]%nodes_insert_in; [|by apply S1|done|done]. exists dd. split; [apply Hm|].
    destruct (S1 p Hp) as (dp' & Hdp' & Hr'). rewrite Hdp in Hdp'. injection Hdp' as <-. lia.
  - intros u c du dc Hu Hc Hdu Hdc. apply subtrees_insert in Hu as [(v & Hv & ->)|[-> _]]; [|by apply not_elem_of_nil in Hc].
    rewrite tsubs_insert in Hc. apply elem_of_app in Hc as [(w & -> & Hw)%list_elem_of_fmap|Hc].
    + rewrite troot_insert in Hdu, Hdc. by apply (S2 v w).
    + case_decide as E; [|by apply not_elem_of_nil in Hc]. apply list_elem_of_singleton in Hc as ->. rewrite troot_insert, E in Hdu.
      cbn in Hdc. rewrite (me_data _ _ _ _ _ Hm) in Hdc. simplify_eq. lia.
Qed.

Lemma run_add known tips st t b p dp dd : run_ok known tips st t -> b ∉ known -> (forall q, q ∈ par b -> q ∈ known) ->
  merged par gd b p dd -> gd !! (p, false) = Some dp -> BlueScore dp <= BlueScore dd < 2 ^ 64 ->
  roomy_for rt fuel (zlen (b :: known)) ->
  exists st', AddBlock rt fuel gd b st = (Ok tt, st') /\ run_ok (b :: known) tips st' (insert_child p b t).
Proof.
  intros Hr Hb Hpar Hm Hdp Hs [Hfits Hslk Hwin Hf]. pose proof (ru_known _ _ _ _ Hr) as Hk. pose proof (size_known _ _ _ _ Hr) as Hsz.
  assert (Hb' : b ∉ nodes t) by (by rewrite Hk). assert (Hnd : NoDup (nodes t)) by apply Hr.
  assert (Hpar' : forall q, q ∈ par b -> q ∈ nodes t) by (intros q Hq; rewrite Hk; by apply Hpar).
  assert (Hp : p ∈ nodes t) by (apply Hpar', Hm). rewrite zlen_cons in *.
  destruct (AddBlock_ok par rt fuel gd st t b p dd (ru_dag _ _ _ _ Hr) Hb' Hm Hpar') as (st' & Hrun & Hdag & Hroot).
  - by rewrite Hsz.
  - lia.
  - exists st'. split; [done|]. constructor; try done.
    + rewrite nodes_insert by done. by rewrite Hk.
    + rewrite troot_insert. apply Hr.
    + by apply (scored_insert known tips st t b p dp dd).
    + intros u c Hu Hc. apply subtrees_insert in Hu as [(v & Hv & ->)|[-> _]]; [|by apply not_elem_of_nil in Hc].
      rewrite tsubs_insert in Hc. apply elem_of_app in Hc as [(w & -> & Hw)%list_elem_of_fmap|Hc].
      * rewrite !troot_insert. by apply (ru_selects _ _ _ _ Hr).
      * case_decide as E; [|by apply not_elem_of_nil in Hc]. apply list_elem_of_singleton in Hc as ->. rewrite troot_insert, E.
        exists dd. split; apply Hm.
    + rewrite Hroot. apply Hr.
Qed.

Lemma run_update known tips st t tip : run_ok known tips st t -> tip ∈ known -> tip <> VirtualGenesisBlockHash ->
  (forall t', t' ∈ tips -> anc par tip t' -> tip = t') -> roomy_for rt fuel (zlen known) ->
  exists st', UpdateReindexRoot rt fuel gd tip st = (Ok tt, st') /\ run_ok known (tip :: tips) st' t.
Proof.
  intros Hr Htip Hv Hpast [Hfits Hslk Hwin Hf]. pose proof (ru_known _ _ _ _ Hr) as Hk. pose proof (size_known _ _ _ _ Hr) as Hsz.
  destruct (ru_dag _ _ _ _ Hr) as [D1 D2 D3 D4].
  destruct (UpdateReindexRoot_ok rt fuel gd st t tip D1 (ru_scored _ _ _ _ Hr)) as (st' & Hrun & Hok & Hs & Hroot);
    rewrite ?Hsz; try done; [by rewrite Hk| |].
  - intros E. destruct (ru_root _ _ _ _ Hr) as [E'|(x & tip' & E' & Hin & Ha & Hne)]; [congruence|].
    apply Hne. assert (x = tip) as -> by congruence. by apply Hpast.
  - exists st'. split; [done|]. constructor; try apply Hr.
    + constructor; try done. destruct D3 as [F1 F2 F3].
      assert (Hfcs : forall x, fcs (rs_data st') x = fcs (rs_data st) x) by (intros x; by apply fcs_same_shape).
      constructor; intros x; setoid_rewrite Hfcs; [apply F1|apply F2|apply F3].
    + destruct Hroot as [->|(xn & Hxn & -> & Hin & Hne)].
      * destruct (ru_root _ _ _ _ Hr) as [?|(x & tip' & ? & ? & ?)]; [by left|]. right. exists x, tip'. split; [done|]. split; [by right|done].
      * right. exists (troot xn), tip. split; [done|]. split; [left|]. split; [|done].
        apply (tree_edges_sound par t); [done|]. by exists xn.
Qed.

Lemma run_loop calls : forall known tips st t, calls_ok par gd known tips calls -> run_ok known tips st t ->
  roomy_for rt fuel (zlen known + zlen (added_by calls)) ->
  exists st' t' tips', reach_run rt fuel gd calls st = (Ok tt, st') /\ run_ok (rev (added_by calls) ++ known) tips' st' t'.
Proof.
  induction calls as [|call calls IH]; intros known tips st t Hc Hr Hroom.
  { exists st, t, tips. done. }
  assert (Hmono : forall n m, n <= m -> roomy_for rt fuel m -> roomy_for rt fuel n).
  { intros n m Hnm [[F1 F2] F3 F4 F5]. constructor; [split; [done|nia]|done|done|lia]. }
  inversion Hc as [|? ? b p dp dd rest H1 H2 H3 H4 H5 H6|? ? tip rest H1 H2 H3 H4]; subst; cbn [reach_run reach_step].
  - assert (E : added_by (CallAddBlock b :: calls) = b :: added_by calls) by done. rewrite E in *.
    destruct (run_add known tips st t b p dp dd Hr H1 H2 H3 H4 H5) as (st1 & Hrun & Hr1).
    { eapply Hmono; [|exact Hroom]. rewrite !zlen_cons. pose proof (zlen_nonneg (added_by calls)). lia. }
    destruct (IH (b :: known) tips st1 _ H6 Hr1) as (st' & t' & tips' & Hrun' & Hr').
    { eapply Hmono; [|exact Hroom]. rewrite !zlen_cons. lia. }
    exists st', t', tips'. erewrite bind_ok by exact Hrun. split; [done|]. cbn [rev]. by rewrite <- app_assoc.
  - assert (E : added_by (CallUpdateReindexRoot tip :: calls) = added_by calls) by done. rewrite E in *.
    destruct (run_update known tips st t tip Hr H1 H2 H3) as (st1 & Hrun & Hr1).
    { eapply Hmono; [|exact Hroom]. pose proof (zlen_nonneg (added_by calls)). lia. }
    destruct (IH known (tip :: tips) st1 _ H4 Hr1 Hroom) as (st' & t' & tips' & Hrun' & Hr').
    exists st', t', tips'. by erewrite bind_ok by exact Hrun.
Qed.

(** The store after [Init]. *)
Lemma run_init : exists st, Init empty_store = (Ok tt, st) /\
  run_ok [VirtualGenesisBlockHash] [] st (Node VirtualGenesisBlockHash []).
Proof.
  set (v := VirtualGenesisBlockHash). set (d := {[v := newReachabilityTreeData]} : gmap bytes reachabilityData).
  exists (mk_reach_store d (Some v)). split; [done|].
  assert (Hsub : forall x, x ∈ subtrees (Node v []) <-> x = Node v []) by (intros x; apply subtrees_leaf).
  assert (Hnodes : nodes (Node v []) = [v]) by done.
  assert (Hd : d !! v = Some newReachabilityTreeData) by (unfold d; by rewrite lookup_singleton_eq).
  assert (Hiv : iv d v = newReachabilityInterval 1 (MaxUint64 - 1)) by (unfold iv; by rewrite Hd).
  assert (Hfcs : forall x, fcs d x = []).
  { intros x. unfold fcs, d. destruct (decide (v = x)) as [<-|Hne]; [by rewrite lookup_singleton_eq|by rewrite lookup_singleton_ne]. }
  assert (Hcap : capped (reindexSlack rt) (iv d) v (Node v [])) by (intros z ->%Hsub Hv Hne; done).
  constructor; try done.
  - constructor.
    + constructor; cbn [rs_data rs_reindexRoot].
      * constructor.
        -- rewrite Hnodes. apply NoDup_singleton.
        -- intros x ->%Hsub. eexists _, _. split_and!; [exact Hd|done|done].
        -- intros x c ->%Hsub Hc. by apply not_elem_of_nil in Hc.
        -- eexists. split; [exact Hd|done].
      * intros h Hh. rewrite Hnodes. unfold d in Hh. apply lookup_singleton_is_Some in Hh as <-. left.
      * intros x ->%Hsub. constructor; cbn [troot tsubs map]; rewrite Hiv; unfold MaxUint64; cbn [Start End]; [lia..|].
        exists 1, 1. split_and!; [lia..|done].
      * done.
      * exists (Node v []). split_and!; [done|apply subtrees_self|done].
    + intros u c ->%Hsub Hc. by apply not_elem_of_nil in Hc.
    + constructor; cbn [rs_data].
      * intros x y. rewrite Hfcs. by intros Hy%not_elem_of_nil.
      * intros x. rewrite Hfcs. constructor.
      * intros x B Hx HB _. left. exists (Node v []). rewrite Hnodes in *. apply list_elem_of_singleton in Hx as ->.
        split_and!; [apply subtrees_self|done|done].
    + intros y q Hy Hq. rewrite Hnodes in Hy. apply list_elem_of_singleton in Hy as ->. unfold v in Hq. rewrite (go_parents _ _ Hgen) in Hq.
      by apply not_elem_of_nil in Hq.
  - constructor.
    + intros h Hh. rewrite Hnodes in Hh. apply list_elem_of_singleton in Hh as ->. eexists. split; [apply Hgen|cbn; lia].
    + intros u c du dc ->%Hsub Hc. by apply not_elem_of_nil in Hc.
  - intros u c ->%Hsub Hc. by apply not_elem_of_nil in Hc.
  - by left.
Qed.

Lemma run_all calls : calls_ok par gd [VirtualGenesisBlockHash] [] calls -> roomy_for rt fuel (1 + zlen (added_by calls)) ->
  exists st t tips, (Init ;; reach_run rt fuel gd calls) empty_store = (Ok tt, st) /\
    run_ok (rev (added_by calls) ++ [VirtualGenesisBlockHash]) tips st t.
Proof.
  intros Hc Hroom. destruct run_init as (st0 & Hi & Hr0).
  destruct (run_loop calls _ _ st0 _ Hc Hr0) as (st & t & tips & Hrun & Hr); [by rewrite zlen_cons, zlen_nil|].
  exists st, t, tips. by erewrite bind_ok by exact Hi.
Qed.

(** * Selected parent chains *)

Section chains.
Variables (known tips : list bytes) (st : reach_store) (t : tree).
Context (Hr : run_ok known tips st t).

Lemma parent_of_node B : B ∈ nodes t -> B <> VirtualGenesisBlockHash ->
  exists u c, u ∈ subtrees t /\ c ∈ tsubs u /\ troot c = B.
Proof.
  intros (c & Hc & E)%nodes_subtrees Hv. destruct (subtrees_parent t c Hc) as (u & Hu & Hcu); [|by exists u, c].
  intros ->. apply Hv. rewrite <- E. apply Hr.
Qed.

Lemma chain_selects x B : B ∈ nodes t -> tree_anc t x B <-> rtc (selects gd) x B.
Proof.
  intros HB. split.
  - intros (u & Hu & <- & (v & Hv & <-)%nodes_subtrees). pose proof (ru_selects _ _ _ _ Hr) as Hs. clear HB.
    assert (Hsu : forall w c, w ∈ subtrees u -> c ∈ tsubs w -> selects gd (troot w) (troot c)).
    { intros w c Hw. apply Hs. by apply (subtrees_trans t u). }
    clear Hs Hu. induction u as [h cs IH] using tree_induction. apply subtrees_inv in Hv as [->|(c & Hc & Hv)]; [constructor|].
    eapply rtc_l; [apply (Hsu (Node h cs) c); [apply subtrees_self|done]|]. apply (IH c Hc Hv).
    intros w e Hw. apply Hsu. apply (subtrees_trans _ c); [done|by apply subtrees_child].
  - intros Hx. revert HB. pattern B. revert B Hx. apply rtc_ind_r.
    + intros Hx. apply nodes_subtrees in Hx as (u & Hu & <-). exists u. split_and!; [done|done|apply self_node].
    + intros y B _ (dB & HdB & Hsel) IH HB. destruct (decide (B = VirtualGenesisBlockHash)) as [->|Hv].
      { rewrite (go_data _ _ Hgen) in HdB. by simplify_eq/=. }
      destruct (parent_of_node B HB Hv) as (u & c & Hu & Hc & <-).
      destruct (ru_selects _ _ _ _ Hr u c Hu Hc) as (dB' & HdB' & Hsel'). assert (y = troot u) as -> by congruence.
      apply (tree_anc_trans t x (troot u)); [apply Hr|apply IH, nodes_subtrees; eauto|].
      exists u. split_and!; try done. apply (nodes_sub u c); [by apply subtrees_child|apply self_node].
Qed.

Lemma next_in_chain x B : x ∈ nodes t -> B ∈ nodes t -> x <> B -> rtc (selects gd) x B ->
  exists c, FindNextAncestor st B x = Ok c /\ selects gd x c /\ rtc (selects gd) c B.
Proof.
  intros Hx HB Hne Hc. apply chain_selects in Hc as (u & Hu & <- & Hin); [|done]. pose proof (da_reach _ _ _ _ (ru_dag _ _ _ _ Hr)) as Hok.
  apply nodes_subtrees in Hin as (v & Hv & <-). apply subtrees_inv in Hv as [->|(c & Hc & Hv)]; [done|].
  apply list_elem_of_split in Hc as Hs. destruct Hs as (l & r & E). exists (troot c).
  rewrite (FindNextAncestor_tree st t u l c r v); try done; [|apply Hok|apply (nested_subtree _ t); [apply Hok|done]]. split; [done|].
  split; [by apply (ru_selects _ _ _ _ Hr)|]. apply chain_selects; [done|]. exists c.
  split_and!; [by apply (subtrees_down t u)|done|apply nodes_subtrees; eauto].
Qed.

End chains.

(** The interval of a block has an element for every block above it. *)
Lemma interval_room known tips st t x : run_ok known tips st t -> x ∈ nodes t -> exists i, interval st x = Ok (Some i) /\
  1 <= Start i <= End i /\ End i <= 2 ^ 64 - 2 /\
  forall l, NoDup l -> (forall y, y ∈ l -> y ∈ nodes t /\ rtc (selects gd) x y) -> zlen l <= intervalSize i.
Proof.
  intros Hr (u & Hu & <-)%nodes_subtrees. pose proof (da_reach _ _ _ _ (ru_dag _ _ _ _ Hr)) as Hok.
  exists (iv (rs_data st) (troot u)). split; [apply (interval_ok st), (node_interval st t); [apply Hok|done]|].
  pose proof (nested_subtree _ _ _ (ro_nested _ _ _ Hok) Hu) as Hn. destruct (Hn u (subtrees_self u)) as [L1 L2 L3 _].
  split; [lia|]. split; [lia|]. intros l Hnd Hl. rewrite intervalSize_len by (by apply nested_in_range).
  apply Z.le_trans with (tsize u); [|by apply nested_size]. rewrite <- zlen_nodes. unfold zlen. apply Nat2Z.inj_le.
  apply submseteq_length, NoDup_submseteq; [done|]. intros y Hy. destruct (Hl y Hy) as [Hyt Hch].
  apply (chain_selects known tips st t Hr) in Hch as (v & Hv & Ev & Hin); [|done].
  by rewrite (subtree_unique t u v (sh_nodup _ _ (ro_shaped _ _ _ Hok)) Hu Hv (eq_sym Ev)).
Qed.

Lemma ru_nodes calls tips st t x : run_ok (rev (added_by calls) ++ [VirtualGenesisBlockHash]) tips st t ->
  x ∈ VirtualGenesisBlockHash :: added_by calls <-> x ∈ nodes t.
Proof.
  intros Hok. rewrite (ru_known _ _ _ _ Hok), elem_of_app, <- (Permutation_rev (added_by calls)), elem_of_cons, list_elem_of_singleton. tauto.
Qed.

Lemma ru_size calls tips st t : run_ok (rev (added_by calls) ++ [VirtualGenesisBlockHash]) tips st t ->
  tsize t = 1 + zlen (added_by calls).
Proof. intros Hok. rewrite (size_known _ _ _ _ Hok), zlen_app, zlen_cons, zlen_nil. unfold zlen. rewrite length_rev. lia. Qed.

(** * The test helpers *)

Section helpers.
Variables (st : reach_store) (t : tree).
Context (Hok : reach_ok rt st t).

Lemma validate_children_ok i ws : forall previous s e, (forall w, w ∈ ws -> w ∈ subtrees t) ->
  tiles s (map (fun w => iv (rs_data st) (troot w)) ws) e -> Start i <= s -> e <= End i -> End i < 2 ^ 64 -> 0 <= s ->
  match previous with None => True | Some h => has_interval (rs_data st) h /\ End (iv (rs_data st) h) + 1 = s end ->
  validate_children st i previous (map troot ws) = Ok tt.
Proof.
  induction ws as [|w ws IH]; intros previous s e Hw Ht Hs He Hi H0 Hp; [done|]. cbn [map validate_children tiles] in *.
  destruct Ht as (T1 & T2 & T3). pose proof (tiles_le _ _ _ T3).
  rewrite (interval_ok st) by (apply (node_interval st t); [apply Hok|apply Hw; left]). cbn [bind_res].
  assert (Hprev : (match previous with
    | None => Ok tt
    | Some sibling =>
        let? siblingInterval := interval st sibling in
        let? siblingInterval := deref siblingInterval in
        let? childInterval := deref (Some (iv (rs_data st) (troot w))) in
        if negb (uint64 (End siblingInterval + 1) =? Start childInterval) then Err ErrIntervalGap else Ok tt
    end) = Ok tt).
  { destruct previous as [h|]; [|done]. destruct Hp as [Hh E]. rewrite (interval_ok st) by done. cbn [bind_res deref].
    rewrite E, uint64_id, T1, Z.eqb_refl by lia. done. }
  rewrite Hprev. cbn [bind_res deref]. rewrite (proj2 (Z.ltb_ge _ _)), (proj2 (Z.leb_gt _ _)) by lia.
  apply (IH _ (End (iv (rs_data st) (troot w)) + 1) e); try done; try lia; [by intros v Hv; apply Hw; right|].
  split; [|done]. apply (node_interval st t); [apply Hok|apply Hw; left].
Qed.

Lemma validate_loop_ok n (queue : list tree) : (forall u, u ∈ queue -> u ∈ subtrees t) -> sumZ tsize queue <= Z.of_nat n ->
  validate_loop n st (map troot queue) = Ok tt.
Proof.
  revert queue. induction n as [|n IH]; intros [|u queue] Hq Hn; try done; cbn [sumZ foldr] in Hn; fold (sumZ tsize queue) in Hn;
    pose proof (sumZ_tsize_nonneg queue); pose proof (tsize_pos u); [lia|].
  assert (Hu : u ∈ subtrees t) by (apply Hq; left). cbn [map validate_loop].
  rewrite (children_ok st t (ro_shaped _ _ _ Hok) u Hu). cbn [bind_res].
  rewrite (interval_ok st) by (apply (node_interval st t); [apply Hok|done]). cbn [bind_res deref].
  destruct (ro_nested _ _ _ Hok u Hu) as [L1 L2 L3 (s & e & L4 & L5 & L6)]. rewrite (proj2 (Z.ltb_ge _ _)) by lia.
  rewrite (validate_children_ok _ (tsubs u) None s e); try done; try lia; [|intros w Hw; by apply (subtrees_down t u)].
  cbn [bind_res]. rewrite <- map_app. apply IH.
  - intros w [Hw|Hw]%elem_of_app; [apply Hq; by right|by apply (subtrees_down t u)].
  - rewrite sumZ_app. rewrite (tsize_eq u) in Hn. lia.
Qed.

Lemma getAllNodes_loop_ok n (queue : list tree) : forall acc, (forall u, u ∈ queue -> u ∈ subtrees t) -> sumZ tsize queue <= Z.of_nat n ->
  exists l, getAllNodes_loop n st (map troot queue) acc = Ok l /\
    l ≡ₚ acc ++ concat (map (fun u => concat (map nodes (tsubs u))) queue).
Proof.
  revert queue. induction n as [|n IH]; intros [|u queue] acc Hq Hn; try (exists acc; cbn; by rewrite app_nil_r);
    cbn [sumZ foldr] in Hn; fold (sumZ tsize queue) in Hn; pose proof (sumZ_tsize_nonneg queue); pose proof (tsize_pos u); [lia|].
  assert (Hu : u ∈ subtrees t) by (apply Hq; left). cbn [map getAllNodes_loop].
  rewrite (children_ok st t (ro_shaped _ _ _ Hok) u Hu). cbn [bind_res]. rewrite <- map_app.
  destruct (IH (queue ++ tsubs u) (acc ++ map troot (tsubs u))) as (l & -> & Hl).
  - intros w [Hw|Hw]%elem_of_app; [apply Hq; by right|by apply (subtrees_down t u)].
  - rewrite sumZ_app. rewrite (tsize_eq u) in Hn. lia.
  - exists l. split; [done|]. rewrite Hl, map_app, concat_app, <- !app_assoc. apply Permutation_app_head.
    cbn [concat]. rewrite (Permutation_app_comm (concat (map _ queue))), app_assoc. apply Permutation_app_tail.
    clear. induction (tsubs u) as [|c cs IH]; [done|]. cbn [map concat]. rewrite nodes_eq. cbn [app]. constructor.
    rewrite <- IH. rewrite !app_assoc. apply Permutation_app_tail, Permutation_app_comm.
Qed.

End helpers.

End run.

(** * The properties *)

(** C8: For every sequence of calls on a DAG whose blocks come after their
    parents, with less than about 2^50 blocks for the slack of [New], adding
    blocks and moving the reindex root never fails: no call runs out of interval
    capacity, every block gets its reachability data and nothing else does. *)
Theorem reach_run_succeeds `{FloatConversion} rt fuel par gd calls :
  genesis_ok par gd -> calls_ok par gd [VirtualGenesisBlockHash] [] calls -> roomy_for rt fuel (1 + zlen (added_by calls)) ->
  exists st, (Init ;; reach_run rt fuel gd calls) empty_store = (Ok tt, st) /\
    forall b, is_Some (rs_data st !! b) <-> b ∈ VirtualGenesisBlockHash :: added_by calls.
Proof.
  intros Hg Hc Hr. destruct (run_all rt fuel par gd Hg calls Hc Hr) as (st & t & tips & Hrun & Hok). exists st. split; [done|].
  intros b. rewrite (ru_nodes _ _ _ _ _ _ _ _ Hok). pose proof (da_reach _ _ _ _ (ru_dag _ _ _ _ _ _ _ Hok)) as Hro. split; [apply Hro|].
  by apply (shaped_some _ t), Hro.
Qed.

(** C9: After such a run [IsDAGAncestorOf] decides, for all blocks, whether one
    is in the past of the other in the DAG. *)
Theorem reach_dag_queries `{FloatConversion} rt fuel par gd calls :
  genesis_ok par gd -> calls_ok par gd [VirtualGenesisBlockHash] [] calls -> roomy_for rt fuel (1 + zlen (added_by calls)) ->
  exists st, (Init ;; reach_run rt fuel gd calls) empty_store = (Ok tt, st) /\
    forall x y, x ∈ VirtualGenesisBlockHash :: added_by calls -> y ∈ VirtualGenesisBlockHash :: added_by calls ->
      exists r, IsDAGAncestorOf st x y = Ok r /\ (r = true <-> anc par x y).
Proof.
  intros Hg Hc Hr. destruct (run_all rt fuel par gd Hg calls Hc Hr) as (st & t & tips & Hrun & Hok). exists st. split; [done|].
  intros x y Hx Hy. apply (ru_nodes _ _ _ _ _ _ _ _ Hok) in Hx, Hy. destruct (ru_dag _ _ _ _ _ _ _ Hok) as [D1 D2 D3 D4].
  by apply (IsDAGAncestorOf_ok par rt st t (anc par) x y).
Qed.

(** C16: After such a run [IsReachabilityTreeAncestorOf] decides whether a block is
    on the selected parent chain of another, and [FindNextAncestor] gives the
    next block of that chain. *)
Theorem reach_chain_queries `{FloatConversion} rt fuel par gd calls :
  genesis_ok par gd -> calls_ok par gd [VirtualGenesisBlockHash] [] calls -> roomy_for rt fuel (1 + zlen (added_by calls)) ->
  exists st, (Init ;; reach_run rt fuel gd calls) empty_store = (Ok tt, st) /\
    forall x y, x ∈ VirtualGenesisBlockHash :: added_by calls -> y ∈ VirtualGenesisBlockHash :: added_by calls ->
      (exists r, IsReachabilityTreeAncestorOf st x y = Ok r /\ (r = true <-> rtc (selects gd) x y)) /\
      (rtc (selects gd) x y -> x <> y ->
        exists c, FindNextAncestor st y x = Ok c /\ selects gd x c /\ rtc (selects gd) c y).
Proof.
  intros Hg Hc Hr. destruct (run_all rt fuel par gd Hg calls Hc Hr) as (st & t & tips & Hrun & Hok). exists st. split; [done|].
  intros x y Hx Hy. apply (ru_nodes _ _ _ _ _ _ _ _ Hok) in Hx, Hy. split.
  - destruct (tree_query rt st t x y (da_reach _ _ _ _ (ru_dag _ _ _ _ _ _ _ Hok)) Hx Hy) as (r & Hq & Hiff). exists r. split; [done|].
    rewrite Hiff. by eapply chain_selects.
  - intros Hch Hne. by eapply next_in_chain.
Qed.

(** C15: After such a run the interval of every block is inside [1, 2^64 - 2] and
    has an element for every block of the chains through it, and the reindex root
    has all but at most [2 * slack + 2] elements per block of the whole range. *)
Theorem reach_interval_bounds `{FloatConversion} rt fuel par gd calls :
  genesis_ok par gd -> calls_ok par gd [VirtualGenesisBlockHash] [] calls -> roomy_for rt fuel (1 + zlen (added_by calls)) ->
  exists st, (Init ;; reach_run rt fuel gd calls) empty_store = (Ok tt, st) /\
    (forall x, x ∈ VirtualGenesisBlockHash :: added_by calls -> exists i, interval st x = Ok (Some i) /\
      1 <= Start i <= End i /\ End i <= 2 ^ 64 - 2 /\
      forall l, NoDup l -> (forall y, y ∈ l -> y ∈ VirtualGenesisBlockHash :: added_by calls /\ rtc (selects gd) x y) ->
        zlen l <= intervalSize i) /\
    exists r i, reindexRoot st = Ok r /\ interval st r = Ok (Some i) /\
      2 ^ 64 - 2 - (2 * reindexSlack rt + 2) * zlen (added_by calls) <= intervalSize i.
Proof.
  intros Hg Hc Hr. destruct (run_all rt fuel par gd Hg calls Hc Hr) as (st & t & tips & Hrun & Hok). exists st. split; [done|].
  pose proof (da_reach _ _ _ _ (ru_dag _ _ _ _ _ _ _ Hok)) as Hro. pose proof (ru_size _ _ _ _ _ _ _ Hok) as Hsz. split.
  - intros x Hx. apply (ru_nodes _ _ _ _ _ _ _ _ Hok) in Hx. destruct (interval_room rt par gd Hg _ tips st t x Hok Hx) as (i & I1 & I2 & I3 & I4). exists i. split_and!; [done|lia..|].
    intros l Hnd Hl. apply I4; [done|]. intros y Hy. destruct (Hl y Hy) as [Hk Hch]. split; [|done]. by apply (ru_nodes _ _ _ _ _ _ _ _ Hok).
  - destruct (ro_root _ _ _ Hro) as (xr & Er & Hxr & _). exists (troot xr), (iv (rs_data st) (troot xr)).
    unfold reindexRoot. rewrite Er. split; [done|]. split; [apply (interval_ok st), (node_interval st t); [apply Hro|done]|].
    rewrite intervalSize_len by (apply nested_in_range, (nested_subtree _ t); [apply Hro|done]).
    destruct Hr as [[F1 _] _ _ _]. pose proof (root_room rt st t xr Hro F1 Er Hxr). pose proof (tsize_pos xr).
    pose proof (tsize_subtree t xr Hxr). nia.
Qed.

(** After such a run the checks of [validateIntervals] pass and [getAllNodes]
    lists every block once. *)
Theorem reach_validates `{FloatConversion} rt fuel par gd calls :
  genesis_ok par gd -> calls_ok par gd [VirtualGenesisBlockHash] [] calls -> roomy_for rt fuel (1 + zlen (added_by calls)) ->
  exists st, (Init ;; reach_run rt fuel gd calls) empty_store = (Ok tt, st) /\
    validateIntervals fuel st VirtualGenesisBlockHash = Ok tt /\
    exists l, getAllNodes fuel st VirtualGenesisBlockHash = Ok l /\ l ≡ₚ VirtualGenesisBlockHash :: added_by calls.
Proof.
  intros Hg Hc Hr. destruct (run_all rt fuel par gd Hg calls Hc Hr) as (st & t & tips & Hrun & Hok). exists st. split; [done|].
  pose proof (da_reach _ _ _ _ (ru_dag _ _ _ _ _ _ _ Hok)) as Hro. pose proof (ru_size _ _ _ _ _ _ _ Hok) as Hsz.
  rewrite <- (ru_top _ _ _ _ _ _ _ Hok). assert (Hq : forall u, u ∈ [t] -> u ∈ subtrees t).
  { intros u ->%list_elem_of_singleton. apply subtrees_self. }
  assert (Hsum : sumZ tsize [t] <= Z.of_nat fuel) by (cbn; destruct Hr as [_ _ _ F4]; lia). split.
  - apply (validate_loop_ok rt st t Hro fuel [t] Hq Hsum).
  - destruct (getAllNodes_loop_ok rt st t Hro fuel [t] [troot t] Hq Hsum) as (l & Hl & Hp). exists l. split; [done|].
    rewrite Hp. cbn [map concat]. rewrite app_nil_r. change ([troot t] ++ ?k) with (troot t :: k). rewrite <- nodes_eq.
    rewrite (ru_known _ _ _ _ _ _ _ Hok), (ru_top _ _ _ _ _ _ _ Hok), <- Permutation_cons_append. constructor. symmetry. apply Permutation_rev.
Qed.

(** * Witnesses

    A genesis, two blocks on it, a block that merges them and one on top of it. *)

Definition run_hash (i : Z) : bytes := replicate 32 i.

Definition run_par (b : bytes) : list bytes :=
  if decide (b = run_hash 1) then [VirtualGenesisBlockHash] else
  if decide (b = run_hash 2) then [run_hash 1] else
  if decide (b = run_hash 3) then [run_hash 1] else
  if decide (b = run_hash 4) then [run_hash 2; run_hash 3] else
  if decide (b = run_hash 5) then [run_hash 4] else [].

Definition run_data (score : Z) (p : bytes) (blues : list bytes) : BlockGHOSTDAGData :=
  mk_BlockGHOSTDAGData score score (Some p) blues [] ∅.

Definition run_gd : ghostdag_store :=
  <[(VirtualGenesisBlockHash, false) := mk_BlockGHOSTDAGData 0 0 None [] [] ∅]>
  (<[(run_hash 1, false) := run_data 0 VirtualGenesisBlockHash []]>
  (<[(run_hash 2, false) := run_data 1 (run_hash 1) [run_hash 1]]>
  (<[(run_hash 3, false) := run_data 1 (run_hash 1) [run_hash 1]]>
  (<[(run_hash 4, false) := run_data 3 (run_hash 3) [run_hash 3; run_hash 2]]>
  (<[(run_hash 5, false) := run_data 4 (run_hash 4) [run_hash 4]]> ∅))))).

Definition run_calls : list reach_call :=
  [CallAddBlock (run_hash 1); CallUpdateReindexRoot (run_hash 1); CallAddBlock (run_hash 2); CallUpdateReindexRoot (run_hash 2);
   CallAddBlock (run_hash 3); CallAddBlock (run_hash 4); CallUpdateReindexRoot (run_hash 4); CallAddBlock (run_hash 5);
   CallUpdateReindexRoot (run_hash 5)].

#[local] Instance run_conversion : FloatConversion := {| conversion_out_of_range := fun _ => 2 ^ 63 |}.

Lemma run_genesis : genesis_ok run_par run_gd.
Proof. constructor; vm_compute; reflexivity. Qed.

(** One parent: all that is below it is in its past. *)
Lemma merged_one b p dd : run_gd !! (b, false) = Some dd -> SelectedParent dd = Some p -> run_par b = [p] ->
  Forall (eq p) (MergeSetBlues dd ++ MergeSetReds dd) -> p <> b -> merged run_par run_gd b p dd.
Proof.
  intros H1 H2 H3 H4 H5. constructor; [done|done|rewrite H3; left| |].
  - intros x Hx. rewrite Forall_forall in H4. rewrite <- (H4 x Hx). split; [|done]. apply rtc_once. unfold parent_of. rewrite H3. left.
  - intros x Hx. apply rtc_inv_r in Hx as [->|(q & Hxq & Hq)]; [by left|]. right; left. unfold parent_of in Hq. rewrite H3 in Hq.
    by apply list_elem_of_singleton in Hq as ->.
Qed.

Lemma merged_four : merged run_par run_gd (run_hash 4) (run_hash 3) (run_data 3 (run_hash 3) [run_hash 3; run_hash 2]).
Proof.
  assert (H4 : run_par (run_hash 4) = [run_hash 2; run_hash 3]) by (vm_compute; reflexivity).
  assert (H3 : run_par (run_hash 3) = [run_hash 1]) by (vm_compute; reflexivity).
  assert (H2 : run_par (run_hash 2) = [run_hash 1]) by (vm_compute; reflexivity).
  constructor; [vm_compute; reflexivity|done|rewrite H4; right; left| |].
  - intros x Hx. cbn in Hx. rewrite !elem_of_cons in Hx. destruct Hx as [->|[->|Hx]]; [| |by apply not_elem_of_nil in Hx];
      (split; [apply rtc_once; unfold parent_of; rewrite H4, !elem_of_cons; tauto|done]).
  - intros x Hx. apply rtc_inv_r in Hx as [->|(q & Hxq & Hq)]; [by left|]. right. unfold parent_of in Hq.
    rewrite H4, !elem_of_cons in Hq. destruct Hq as [->|[->|Hq]]; [|by left|by apply not_elem_of_nil in Hq].
    apply rtc_inv_r in Hxq as [->|(q & Hxq & Hq)]; [right; cbn; rewrite !elem_of_cons; tauto|]. left. unfold parent_of in Hq.
    rewrite H2 in Hq. apply list_elem_of_singleton in Hq as ->. eapply rtc_r; [exact Hxq|]. unfold parent_of. rewrite H3. left.
Qed.

(** A list with the parents of its members holds the past of its members. *)
Definition closed_list (l : list bytes) : bool := forallb (fun y => forallb (fun q => bool_decide (q ∈ l)) (run_par y)) l.

Lemma past_in (l : list bytes) x y : closed_list l = true -> y ∈ l -> anc run_par x y -> x ∈ l.
Proof.
  intros Hl Hy Ha. induction Ha as [|x z y Hxz Ha IH]; [done|]. specialize (IH Hy). unfold closed_list in Hl.
  rewrite forallb_forall in Hl. specialize (Hl z (proj1 (list_elem_of_In _ _) IH)). rewrite forallb_forall in Hl.
  specialize (Hl x (proj1 (list_elem_of_In _ _) Hxz)). by apply bool_decide_eq_true_1 in Hl.
Qed.

(** The tip is not below the earlier ones. *)
Lemma new_tip (l : list bytes) tip tips : closed_list l = true -> forallb (fun y => bool_decide (y ∈ l)) tips = true -> bool_decide (tip ∈ l) = false ->
  forall t', t' ∈ tips -> anc run_par tip t' -> tip = t'.
Proof.
  intros Hl Ht Hn t' Hin Ha. apply bool_decide_eq_false_1 in Hn. destruct Hn. apply (past_in l tip t' Hl); [|done].
  rewrite forallb_forall in Ht. specialize (Ht t' (proj1 (list_elem_of_In _ _) Hin)). by apply bool_decide_eq_true_1 in Ht.
Qed.

Lemma parents_in (l : list bytes) b : forallb (fun q => bool_decide (q ∈ l)) (run_par b) = true -> forall q, q ∈ run_par b -> q ∈ l.
Proof.
  rewrite forallb_forall. intros Hl q Hq. specialize (Hl q (proj1 (list_elem_of_In _ _) Hq)). by apply bool_decide_eq_true_1 in Hl.
Qed.

Ltac add_one p dp dd := apply (calls_add _ _ _ _ _ p dp dd);
  [apply (bool_decide_unpack _); vm_compute; exact I|apply parents_in; vm_compute; reflexivity|
   try (apply merged_one; [vm_compute; reflexivity|done|vm_compute; reflexivity|repeat constructor|done])|
   vm_compute; reflexivity|cbn; lia|].

Ltac update l := apply calls_update;
  [apply (bool_decide_unpack _); vm_compute; exact I|done|apply (new_tip l); vm_compute; reflexivity|].

Lemma run_calls_ok : calls_ok run_par run_gd [VirtualGenesisBlockHash] [] run_calls.
Proof.
  unfold run_calls. set (v := VirtualGenesisBlockHash).
  add_one v (mk_BlockGHOSTDAGData 0 0 None [] [] ∅) (run_data 0 v []). update ([] : list bytes).
  add_one (run_hash 1) (run_data 0 v []) (run_data 1 (run_hash 1) [run_hash 1]). update [v; run_hash 1].
  add_one (run_hash 1) (run_data 0 v []) (run_data 1 (run_hash 1) [run_hash 1]).
  add_one (run_hash 3) (run_data 1 (run_hash 1) [run_hash 1]) (run_data 3 (run_hash 3) [run_hash 3; run_hash 2]); [apply merged_four|].
  update [v; run_hash 1; run_hash 2].
  add_one (run_hash 4) (run_data 3 (run_hash 3) [run_hash 3; run_hash 2]) (run_data 4 (run_hash 4) [run_hash 4]).
  update [v; run_hash 1; run_hash 2; run_hash 3; run_hash 4]. constructor.
Qed.

Lemma run_room : roomy_for New 7 (1 + zlen (added_by run_calls)).
Proof. constructor; [split|..]; vm_compute; congruence. Qed.

Lemma reach_run_succeeds_witness :
  exists st, (Init ;; reach_run New 7 run_gd run_calls) empty_store = (Ok tt, st) /\
    forall b, is_Some (rs_data st !! b) <-> b ∈ VirtualGenesisBlockHash :: added_by run_calls.
Proof. exact (reach_run_succeeds New 7 run_par run_gd run_calls run_genesis run_calls_ok run_room). Defined.

Lemma reach_dag_queries_witness :
  exists st, (Init ;; reach_run New 7 run_gd run_calls) empty_store = (Ok tt, st) /\
    forall x y, x ∈ VirtualGenesisBlockHash :: added_by run_calls -> y ∈ VirtualGenesisBlockHash :: added_by run_calls ->
      exists r, IsDAGAncestorOf st x y = Ok r /\ (r = true <-> anc run_par x y).
Proof. exact (reach_dag_queries New 7 run_par run_gd run_calls run_genesis run_calls_ok run_room). Defined.

Lemma reach_chain_queries_witness :
  exists st, (Init ;; reach_run New 7 run_gd run_calls) empty_store = (Ok tt, st) /\
    forall x y, x ∈ VirtualGenesisBlockHash :: added_by run_calls -> y ∈ VirtualGenesisBlockHash :: added_by run_calls ->
      (exists r, IsReachabilityTreeAncestorOf st x y = Ok r /\ (r = true <-> rtc (selects run_gd) x y)) /\
      (rtc (selects run_gd) x y -> x <> y ->
        exists c, FindNextAncestor st y x = Ok c /\ selects run_gd x c /\ rtc (selects run_gd) c y).
Proof. exact (reach_chain_queries New 7 run_par run_gd run_calls run_genesis run_calls_ok run_room). Defined.

Lemma reach_interval_bounds_witness :
  exists st, (Init ;; reach_run New 7 run_gd run_calls) empty_store = (Ok tt, st) /\
    (forall x, x ∈ VirtualGenesisBlockHash :: added_by run_calls -> exists i, interval st x = Ok (Some i) /\
      1 <= Start i <= End i /\ End i <= 2 ^ 64 - 2 /\
      forall l, NoDup l -> (forall y, y ∈ l -> y ∈ VirtualGenesisBlockHash :: added_by run_calls /\ rtc (selects run_gd) x y) ->
        zlen l <= intervalSize i) /\
    exists r i, reindexRoot st = Ok r /\ interval st r = Ok (Some i) /\
      2 ^ 64 - 2 - (2 * reindexSlack New + 2) * zlen (added_by run_calls) <= intervalSize i.
Proof. exact (reach_interval_bounds New 7 run_par run_gd run_calls run_genesis run_calls_ok run_room). Defined.

Lemma reach_validates_witness :
  exists st, (Init ;; reach_run New 7 run_gd run_calls) empty_store = (Ok tt, st) /\
    validateIntervals 7 st VirtualGenesisBlockHash = Ok tt /\
    exists l, getAllNodes 7 st VirtualGenesisBlockHash = Ok l /\ l ≡ₚ VirtualGenesisBlockHash :: added_by run_calls.
Proof. exact (reach_validates New 7 run_par run_gd run_calls run_genesis run_calls_ok run_room). Defined.

(** The same run evaluated, with a window of one block so that the root moves. *)
Example run_evaluated :
  (let '(r, st) := (Init ;; reach_run (mk_reachabilityManager 4 1) 7 run_gd run_calls) empty_store in
   (r, rs_reindexRoot st, IsDAGAncestorOf st (run_hash 2) (run_hash 5), IsDAGAncestorOf st (run_hash 2) (run_hash 3),
    IsReachabilityTreeAncestorOf st (run_hash 2) (run_hash 5), FindNextAncestor st (run_hash 5) (run_hash 1))) =
  (Ok tt, Some (run_hash 4), Ok true, Ok false, Ok false, Ok (run_hash 3)).
Proof. vm_compute. reflexivity. Qed.
