(* ===== verification/DagTopology.v ===== *)
(** The DAG topology manager: parents and children of blocks in the relation
    store, ancestry through the reachability manager, and selected parent chains.
    [src/domain/consensus/processes/dagtopologymanager/dagtopologymanager.go] and
    [src/domain/consensus/datastructures/blockrelationstore/block_relation_store.go].

    The relation store clones what it stages and what it returns, so relations are
    values.  The virtual block is recognised by comparing pointers, so a hash that
    may be the virtual one comes with the result of that comparison. *)

From S2P Require Import Prelude Transaction Block Difficulty TxMass Ghostdag GhostdagMergeSet ReachInterval Reachability Reindex.
From S2P Require Import ReachTree ReindexCount ReindexPropagate ReindexReclaim ReindexChain ReindexAdd ReachAdd ReachFuture ReachConcentrate.
From S2P Require Import ReachRoot ReachRun.

(** * Relations *)

Record BlockRelations : Set := mk_BlockRelations {
  br_Parents : list bytes;
  br_Children : list bytes
}.

Abbreviation relation_store := (gmap bytes BlockRelations).

Inductive TopologyError : Set :=
| ReachFailed (e : ReachError)
| RelationNotFound
| GhostdagNotFound
(** the claimed chain ancestor is not in the chain *)
| ErrNotInSelectedChain.

Definition BlockRelation (rel : relation_store) (blockHash : bytes) : res TopologyError BlockRelations :=
  match rel !! blockHash with Some r => Ok r | None => Err RelationNotFound end.

Definition StageBlockRelation (blockHash : bytes) (blockRelations : BlockRelations) : M TopologyError relation_store unit :=
  modify (fun rel => <[blockHash := blockRelations]> rel : relation_store).

Definition Has (rel : relation_store) (blockHash : bytes) : bool := bool_decide (is_Some (rel !! blockHash)).

(** * dagtopologymanager.go *)

Definition dtm_Parents (rel : relation_store) (blockHash : bytes) : res TopologyError (list bytes) :=
  let? blockRelations := BlockRelation rel blockHash in Ok (br_Parents blockRelations).

Definition dtm_Children (rel : relation_store) (blockHash : bytes) : res TopologyError (list bytes) :=
  let? blockRelations := BlockRelation rel blockHash in Ok (br_Children blockRelations).

Fixpoint isHashInSlice (hash : bytes) (hashes : list bytes) : bool :=
  match hashes with
  | [] => false
  | h :: rest => if bytes_eqb h hash then true else isHashInSlice hash rest
  end.

Definition IsParentOf (rel : relation_store) (blockHashA blockHashB : bytes) : res TopologyError bool :=
  let? blockRelations := BlockRelation rel blockHashB in Ok (isHashInSlice blockHashA (br_Parents blockRelations)).

Definition IsChildOf (rel : relation_store) (blockHashA blockHashB : bytes) : res TopologyError bool :=
  let? blockRelations := BlockRelation rel blockHashB in Ok (isHashInSlice blockHashA (br_Children blockRelations)).

Definition of_reach {A} (r : res ReachError A) : res TopologyError A :=
  match r with Ok a => Ok a | Err e => Err (ReachFailed e) | Panic => Panic end.

Definition dtm_IsAncestorOf (st : reach_store) (blockHashA blockHashB : bytes) : res TopologyError bool :=
  of_reach (IsDAGAncestorOf st blockHashA blockHashB).

Fixpoint IsAncestorOfAny (st : reach_store) (blockHash : bytes) (potentialDescendants : list bytes) : res TopologyError bool :=
  match potentialDescendants with
  | [] => Ok false
  | potentialDescendant :: rest =>
      let? isAncestorOf := dtm_IsAncestorOf st blockHash potentialDescendant in
      if isAncestorOf : bool then Ok true else IsAncestorOfAny st blockHash rest
  end.

Fixpoint IsAnyAncestorOf (st : reach_store) (potentialAncestors : list bytes) (blockHash : bytes) : res TopologyError bool :=
  match potentialAncestors with
  | [] => Ok false
  | potentialAncestor :: rest =>
      let? isAncestorOf := dtm_IsAncestorOf st potentialAncestor blockHash in
      if isAncestorOf : bool then Ok true else IsAnyAncestorOf st rest blockHash
  end.

Definition selectedParentOf (gd : ghostdag_store) (blockHash : bytes) : res TopologyError bytes :=
  match gd !! (blockHash, false) with
  | None => Err GhostdagNotFound
  | Some ghostdagData => match SelectedParent ghostdagData with Some p => Ok p | None => Panic end
  end.

(** [isVirtual]: the pointer [blockHashB] is [model.VirtualBlockHash]. *)
Definition IsInSelectedParentChainOf (gd : ghostdag_store) (st : reach_store) (blockHashA blockHashB : bytes) (isVirtual : bool)
    : res TopologyError bool :=
  let? blockHashB := if isVirtual then selectedParentOf gd blockHashB else Ok blockHashB in
  of_reach (IsReachabilityTreeAncestorOf st blockHashA blockHashB).

Definition ChildInSelectedParentChainOf (gd : ghostdag_store) (st : reach_store) (lowHash highHash : bytes) (isVirtual : bool)
    : res TopologyError bytes :=
  let chain (highHash : bytes) :=
    let? isInSelectedParentChain := IsInSelectedParentChainOf gd st lowHash highHash false in
    if negb isInSelectedParentChain then Err ErrNotInSelectedChain else
    of_reach (FindNextAncestor st highHash lowHash) in
  if isVirtual then
    let? selectedParent := selectedParentOf gd highHash in
    if bytes_eqb lowHash selectedParent then Ok highHash else chain selectedParent
  else chain highHash.

(** ** SetParents *)

(** The children without the first occurrence of the block. *)
Fixpoint remove_first (blockHash : bytes) (l : list bytes) : option (list bytes) :=
  match l with
  | [] => None
  | x :: rest =>
      if bytes_eqb x blockHash then Some rest else
      match remove_first blockHash rest with Some rest' => Some (x :: rest') | None => None end
  end.

Fixpoint leave_parents (blockHash : bytes) (currentParents : list bytes) : M TopologyError relation_store unit :=
  match currentParents with
  | [] => ret tt
  | currentParent :: rest =>
      let* rel := get in
      let* parentRelations := lift (BlockRelation rel currentParent) in
      (match remove_first blockHash (br_Children parentRelations) with
       | Some children => StageBlockRelation currentParent (mk_BlockRelations (br_Parents parentRelations) children)
       | None => ret tt
       end) ;;
      leave_parents blockHash rest
  end.

Fixpoint join_parents (blockHash : bytes) (parentHashes : list bytes) : M TopologyError relation_store unit :=
  match parentHashes with
  | [] => ret tt
  | parent :: rest =>
      let* rel := get in
      let* parentRelations := lift (BlockRelation rel parent) in
      (if negb (isHashInSlice blockHash (br_Children parentRelations)) then
         StageBlockRelation parent
           (mk_BlockRelations (br_Parents parentRelations) (br_Children parentRelations ++ [blockHash]))
       else ret tt) ;;
      join_parents blockHash rest
  end.

Definition SetParents (blockHash : bytes) (parentHashes : list bytes) : M TopologyError relation_store unit :=
  let* rel := get in
  (if Has rel blockHash then
     let* currentRelations := lift (BlockRelation rel blockHash) in
     leave_parents blockHash (br_Parents currentRelations)
   else ret tt) ;;
  join_parents blockHash parentHashes ;;
  StageBlockRelation blockHash (mk_BlockRelations parentHashes []).

(** * The relation of parents and children *)

(** Every block is a child of its parents, once, and of no other block. *)
Record relations_ok (rel : relation_store) : Prop := {
  ro_children : forall p rp c, rel !! p = Some rp -> c ∈ br_Children rp <-> exists rc, rel !! c = Some rc /\ p ∈ br_Parents rc;
  ro_once : forall p rp, rel !! p = Some rp -> NoDup (br_Children rp);
  ro_closed : forall c rc p, rel !! c = Some rc -> p ∈ br_Parents rc -> is_Some (rel !! p)
}.

Lemma isHashInSlice_iff h l : isHashInSlice h l = bool_decide (h ∈ l).
Proof.
  induction l as [|x l IH]; [done|]. cbn [isHashInSlice]. unfold bytes_eqb. destruct (decide (x = h)) as [->|E].
  - rewrite !bool_decide_true; [done|left|done].
  - rewrite (bool_decide_false (x = h)), IH by done. apply bool_decide_ext. rewrite elem_of_cons. naive_solver.
Qed.

Lemma remove_first_spec h l : NoDup l ->
  match remove_first h l with
  | Some l' => h ∈ l /\ NoDup l' /\ forall x, x ∈ l' <-> x ∈ l /\ x <> h
  | None => h ∉ l
  end.
Proof.
  induction 1 as [|x l Hx Hnd IH]; cbn [remove_first]; [apply not_elem_of_nil|]. unfold bytes_eqb. case_bool_decide as E.
  - subst. split; [left|]. split; [done|]. intros y. rewrite elem_of_cons. split; [|naive_solver].
    intros Hy. split; [by right|]. by intros ->.
  - destruct (remove_first h l) as [l'|].
    + destruct IH as (H1 & H2 & H3). split; [by right|]. split; [constructor; [|done]; intros Hin; by apply H3 in Hin as [? _]|].
      intros y. rewrite !elem_of_cons, H3. naive_solver.
    + intros [->|Hin]%elem_of_cons; [done|by apply IH].
Qed.

(** What the two loops do to the relations of a block. *)
Definition without_child (b : bytes) (r : BlockRelations) : BlockRelations :=
  mk_BlockRelations (br_Parents r) (default (br_Children r) (remove_first b (br_Children r))).

Definition with_child (b : bytes) (r : BlockRelations) : BlockRelations :=
  if decide (b ∈ br_Children r) then r else mk_BlockRelations (br_Parents r) (br_Children r ++ [b]).

Lemma relations_eta r : mk_BlockRelations (br_Parents r) (br_Children r) = r.
Proof. by destruct r. Qed.

Lemma remove_twice b r : NoDup (br_Children r) -> without_child b (without_child b r) = without_child b r.
Proof.
  intros Hnd. unfold without_child at 1. pose proof (remove_first_spec b (br_Children r) Hnd) as Hs. unfold without_child.
  destruct (remove_first b (br_Children r)) as [l'|] eqn:E; cbn [br_Children br_Parents default].
  - destruct Hs as (_ & Hnd' & Hiff). pose proof (remove_first_spec b l' Hnd') as Hs'. cbn.
    destruct (remove_first b l') as [l''|]; [|done]. destruct Hs' as [Hb _]. by apply Hiff in Hb as [_ ?].
  - cbn. by rewrite E.
Qed.

Lemma add_twice b r : with_child b (with_child b r) = with_child b r.
Proof.
  unfold with_child at 1. case_decide as E; [done|]. exfalso. apply E. unfold with_child. case_decide; [done|].
  cbn. apply elem_of_app. right. left.
Qed.

Lemma leave_parents_ok b ps : forall rel, (forall p, p ∈ ps -> is_Some (rel !! p)) ->
  (forall p rp, rel !! p = Some rp -> NoDup (br_Children rp)) ->
  exists rel', leave_parents b ps rel = (Ok tt, rel') /\
    forall x, rel' !! x = (if decide (x ∈ ps) then without_child b <$> rel !! x else rel !! x).
Proof.
  induction ps as [|p ps IH]; intros rel Hps Hnd; cbn [leave_parents].
  { exists rel. split; [done|]. intros x. rewrite decide_False by apply not_elem_of_nil. done. }
  destruct (Hps p) as [rp Hrp]; [left|]. erewrite bind_ok by reflexivity.
  erewrite bind_ok by (unfold lift, BlockRelation; rewrite Hrp; reflexivity). cbv beta.
  set (rel1 := <[p := without_child b rp]> rel : relation_store).
  erewrite (bind_ok _ _ _ tt rel1).
  2:{ unfold rel1, without_child. destruct (remove_first b (br_Children rp)); [done|]. cbn [default].
      change (default (br_Children rp) None) with (br_Children rp). rewrite relations_eta, insert_id by done. done. }
  assert (Hl1 : forall x, rel1 !! x = if decide (x = p) then Some (without_child b rp) else rel !! x).
  { intros x. unfold rel1. case_decide; [subst; by rewrite lookup_insert_eq|by rewrite lookup_insert_ne]. }
  destruct (IH rel1) as (rel' & Hrun & Hrel').
  - intros q Hq. rewrite Hl1. case_decide; [done|]. apply Hps. by right.
  - intros q rq. rewrite Hl1. case_decide; [|apply Hnd]. intros [= <-]. unfold without_child. cbn.
    pose proof (remove_first_spec b (br_Children rp) (Hnd p rp Hrp)) as Hs. destruct (remove_first b (br_Children rp)); [apply Hs|].
    by apply (Hnd p).
  - exists rel'. split; [done|]. intros x. rewrite Hrel', Hl1. destruct (decide (x = p)) as [->|Hne].
    + rewrite (decide_True (P := p ∈ p :: ps)) by left. rewrite Hrp. cbn. case_decide; [|done]. f_equal. by apply remove_twice, (Hnd p).
    + assert (Hiff : x ∈ p :: ps <-> x ∈ ps) by (rewrite elem_of_cons; naive_solver).
      destruct (decide (x ∈ ps)); [rewrite decide_True by tauto|rewrite decide_False by tauto]; done.
Qed.

Lemma join_parents_ok b ps : forall rel, (forall p, p ∈ ps -> is_Some (rel !! p)) ->
  exists rel', join_parents b ps rel = (Ok tt, rel') /\
    forall x, rel' !! x = (if decide (x ∈ ps) then with_child b <$> rel !! x else rel !! x).
Proof.
  induction ps as [|p ps IH]; intros rel Hps; cbn [join_parents].
  { exists rel. split; [done|]. intros x. rewrite decide_False by apply not_elem_of_nil. done. }
  destruct (Hps p) as [rp Hrp]; [left|]. erewrite bind_ok by reflexivity.
  erewrite bind_ok by (unfold lift, BlockRelation; rewrite Hrp; reflexivity). cbv beta.
  set (rel1 := <[p := with_child b rp]> rel : relation_store).
  erewrite (bind_ok _ _ _ tt rel1).
  2:{ unfold rel1, with_child. rewrite isHashInSlice_iff. destruct (decide (b ∈ br_Children rp)).
      - rewrite bool_decide_true by done. cbn. by rewrite insert_id.
      - rewrite bool_decide_false by done. done. }
  assert (Hl1 : forall x, rel1 !! x = if decide (x = p) then Some (with_child b rp) else rel !! x).
  { intros x. unfold rel1. case_decide; [subst; by rewrite lookup_insert_eq|by rewrite lookup_insert_ne]. }
  destruct (IH rel1) as (rel' & Hrun & Hrel').
  - intros q Hq. rewrite Hl1. case_decide; [done|]. apply Hps. by right.
  - exists rel'. split; [done|]. intros x. rewrite Hrel', Hl1. destruct (decide (x = p)) as [->|Hne].
    + rewrite (decide_True (P := p ∈ p :: ps)) by left. rewrite Hrp. cbn. case_decide; [|done]. f_equal. by apply add_twice.
    + assert (Hiff : x ∈ p :: ps <-> x ∈ ps) by (rewrite elem_of_cons; naive_solver).
      destruct (decide (x ∈ ps)); [rewrite decide_True by tauto|rewrite decide_False by tauto]; done.
Qed.

Lemma with_child_elem b r c : c ∈ br_Children (with_child b r) <-> c ∈ br_Children r \/ c = b.
Proof.
  unfold with_child. case_decide; [naive_solver|]. cbn. rewrite elem_of_app, list_elem_of_singleton. done.
Qed.

Lemma with_child_nodup b r : NoDup (br_Children r) -> NoDup (br_Children (with_child b r)).
Proof.
  intros Hnd. unfold with_child. case_decide as E; [done|]. cbn. apply NoDup_app. split; [done|]. split; [|apply NoDup_singleton].
  by intros x Hx ->%list_elem_of_singleton.
Qed.

Lemma with_child_parents b r : br_Parents (with_child b r) = br_Parents r.
Proof. unfold with_child. by case_decide. Qed.

Lemma without_child_elem b r c : NoDup (br_Children r) -> c ∈ br_Children (without_child b r) <-> c ∈ br_Children r /\ c <> b.
Proof.
  intros Hnd. unfold without_child. cbn. pose proof (remove_first_spec b _ Hnd) as Hs.
  destruct (remove_first b (br_Children r)) as [l'|]; [apply Hs|]. cbn. split; [|tauto]. intros Hc. split; [done|]. by intros ->.
Qed.

Lemma without_child_nodup b r : NoDup (br_Children r) -> NoDup (br_Children (without_child b r)).
Proof.
  intros Hnd. unfold without_child. cbn. pose proof (remove_first_spec b _ Hnd) as Hs. destruct (remove_first b (br_Children r)); [apply Hs|done].
Qed.

Section set_parents.
Variable rel : relation_store.
Variable b : bytes.
Variable ps : list bytes.
Context (Hok : relations_ok rel) (Hps : forall p, p ∈ ps -> is_Some (rel !! p)) (Hb : b ∉ ps).
Context (Hleaf : forall rb, rel !! b = Some rb -> br_Children rb = []).

Definition old_parents : list bytes := match rel !! b with Some rb => br_Parents rb | None => [] end.

Lemma old_child p rp : rel !! p = Some rp -> b ∈ br_Children rp -> p ∈ old_parents.
Proof.
  intros Hp (rc & Hc & Hin)%(ro_children _ Hok p rp b Hp). unfold old_parents. by rewrite Hc.
Qed.

(** The store after the call, block by block. *)
Definition moved (x : bytes) (r : BlockRelations) : BlockRelations :=
  let r1 := if decide (x ∈ old_parents) then without_child b r else r in
  if decide (x ∈ ps) then with_child b r1 else r1.

Lemma SetParents_run : exists rel', SetParents b ps rel = (Ok tt, rel') /\ rel' !! b = Some (mk_BlockRelations ps []) /\
  forall x, x <> b -> rel' !! x = moved x <$> rel !! x.
Proof.
  unfold SetParents. erewrite bind_ok by reflexivity. cbv beta.
  assert (Hleave : exists rel1, (if Has rel b then let* currentRelations := lift (BlockRelation rel b) in
      leave_parents b (br_Parents currentRelations) else ret tt) rel = (Ok tt, rel1) /\
    forall x, rel1 !! x = (if decide (x ∈ old_parents) then without_child b <$> rel !! x else rel !! x)).
  { unfold Has, old_parents. destruct (rel !! b) as [rb|] eqn:Eb.
    - rewrite bool_decide_true by done. erewrite bind_ok by (unfold lift, BlockRelation; rewrite Eb; reflexivity).
      apply leave_parents_ok; [intros p Hp; by apply (ro_closed _ Hok b rb)|apply (ro_once _ Hok)].
    - rewrite bool_decide_false by (by intros [? ?]). exists rel. split; [done|]. intros x. by rewrite decide_False by apply not_elem_of_nil. }
  destruct Hleave as (rel1 & Hrun1 & Hrel1). erewrite bind_ok by exact Hrun1.
  destruct (join_parents_ok b ps rel1) as (rel2 & Hrun2 & Hrel2).
  { intros p Hp. rewrite Hrel1. destruct (Hps p Hp) as [rp Hrp]. rewrite Hrp. case_decide; done. }
  erewrite bind_ok by exact Hrun2. eexists. split; [reflexivity|]. split; [by rewrite lookup_insert_eq|].
  intros x Hx. rewrite lookup_insert_ne by done. rewrite Hrel2, Hrel1. unfold moved. by repeat case_decide; destruct (rel !! x).
Qed.

Lemma moved_parents x r : br_Parents (moved x r) = br_Parents r.
Proof. unfold moved. repeat case_decide; rewrite ?with_child_parents; done. Qed.

Lemma moved_nodup x r : rel !! x = Some r -> NoDup (br_Children (moved x r)).
Proof.
  intros Hr. pose proof (ro_once _ Hok x r Hr) as Hnd. unfold moved.
  repeat case_decide; eauto using with_child_nodup, without_child_nodup.
Qed.

Lemma moved_elem x r c : rel !! x = Some r -> c ∈ br_Children (moved x r) <-> (c <> b /\ c ∈ br_Children r) \/ (c = b /\ x ∈ ps).
Proof.
  intros Hr. pose proof (ro_once _ Hok x r Hr) as Hnd. pose proof (old_child x r Hr) as Hold. unfold moved.
  destruct (decide (x ∈ old_parents)), (decide (x ∈ ps)); rewrite ?with_child_elem, ?without_child_elem by done;
    destruct (decide (c = b)) as [->|]; naive_solver.
Qed.

Lemma moved_relations rel' : rel' !! b = Some (mk_BlockRelations ps []) ->
  (forall x, x <> b -> rel' !! x = moved x <$> rel !! x) -> relations_ok rel'.
Proof.
  intros Hb' Hrel'. assert (Hinv : forall x r', x <> b -> rel' !! x = Some r' -> exists r, rel !! x = Some r /\ r' = moved x r).
  { intros x r' Hx. rewrite Hrel' by done. intros (r & Hr & ->)%fmap_Some. eauto. }
  assert (Hnop : forall c rc, rel !! c = Some rc -> b ∉ br_Parents rc).
  { intros c rc Hc Hin. destruct (ro_closed _ Hok c rc b Hc Hin) as [rb Hrb].
    assert (Hcb : c ∈ br_Children rb) by (apply (ro_children _ Hok b rb c Hrb); eauto).
    rewrite (Hleaf rb Hrb) in Hcb. by apply not_elem_of_nil in Hcb. }
  constructor.
  - intros p rp' c Hp. destruct (decide (p = b)) as [->|Hpb].
    + rewrite Hb' in Hp. injection Hp as <-. cbn. split; [by intros Hc%not_elem_of_nil|]. intros (rc' & Hc & Hin). exfalso.
      destruct (decide (c = b)) as [->|Hcb]; [rewrite Hb' in Hc; by injection Hc as <-|].
      destruct (Hinv c rc' Hcb Hc) as (rc & Hrc & ->). rewrite moved_parents in Hin. by apply (Hnop c rc).
    + destruct (Hinv p rp' Hpb Hp) as (rp & Hrp & ->). rewrite (moved_elem p rp c Hrp). split.
      * intros [[Hcb Hc]|[-> Hin]]; [|by eexists].
        apply (ro_children _ Hok p rp c Hrp) in Hc as (rc & Hrc & Hin). exists (moved c rc).
        rewrite Hrel', Hrc, moved_parents by done. done.
      * intros (rc' & Hc & Hin). destruct (decide (c = b)) as [->|Hcb]; [rewrite Hb' in Hc; injection Hc as <-; by right|].
        destruct (Hinv c rc' Hcb Hc) as (rc & Hrc & ->). rewrite moved_parents in Hin. left. split; [done|].
        apply (ro_children _ Hok p rp c Hrp). eauto.
  - intros p rp' Hp. destruct (decide (p = b)) as [->|Hpb].
    + rewrite Hb' in Hp. injection Hp as <-. constructor.
    + destruct (Hinv p rp' Hpb Hp) as (rp & Hrp & ->). by apply moved_nodup.
  - intros c rc' p Hc Hin. destruct (decide (p = b)) as [->|Hpb]; [by rewrite Hb'|]. rewrite Hrel', fmap_is_Some by done.
    destruct (decide (c = b)) as [->|Hcb]; [rewrite Hb' in Hc; injection Hc as <-; by apply Hps|].
    destruct (Hinv c rc' Hcb Hc) as (rc & Hrc & ->). rewrite moved_parents in Hin. by apply (ro_closed _ Hok c rc).
Qed.

End set_parents.

(** [SetParents] with known parents, on a new block or one without children:
    the block gets these parents, no other block gets other parents, and every
    block stays listed exactly once among the children of each of its parents
    and nowhere else, so the block has left its former parents. *)
Theorem SetParents_relations rel b ps : relations_ok rel -> (forall p, p ∈ ps -> is_Some (rel !! p)) -> b ∉ ps ->
  (forall rb, rel !! b = Some rb -> br_Children rb = []) ->
  exists rel', SetParents b ps rel = (Ok tt, rel') /\ relations_ok rel' /\ dtm_Parents rel' b = Ok ps /\
    dtm_Children rel' b = Ok [] /\ forall x, x <> b -> dtm_Parents rel' x = dtm_Parents rel x.
Proof.
  intros Hok Hps Hb Hleaf. destruct (SetParents_run rel b ps Hok Hps Hleaf) as (rel' & Hrun & Hb' & Hrel').
  exists rel'. split; [done|]. split; [by apply (moved_relations rel b ps Hok Hps Hb Hleaf)|].
  unfold dtm_Parents, dtm_Children, BlockRelation. rewrite Hb'. split_and!; [done..|]. intros x Hx. rewrite Hrel' by done.
  destruct (rel !! x) as [r|]; [|done]. cbn. by rewrite moved_parents.
Qed.

Definition relations_example : relation_store :=
  <[[1] := mk_BlockRelations [] [[2]; [3]]]> (<[[2] := mk_BlockRelations [[1]] [[3]]]> (<[[3] := mk_BlockRelations [[1]; [2]] []]> ∅)).

Lemma relations_example_ok : relations_ok relations_example.
Proof.
  assert (Hdom : forall x r, relations_example !! x = Some r -> x = [1] \/ x = [2] \/ x = [3]).
  { intros x r. unfold relations_example. rewrite !lookup_insert, lookup_empty. repeat case_decide; naive_solver. }
  assert (H1 : relations_example !! [1] = Some (mk_BlockRelations [] [[2]; [3]])) by (vm_compute; reflexivity).
  assert (H2 : relations_example !! [2] = Some (mk_BlockRelations [[1]] [[3]])) by (vm_compute; reflexivity).
  assert (H3 : relations_example !! [3] = Some (mk_BlockRelations [[1]; [2]] [])) by (vm_compute; reflexivity).
  constructor.
  - intros p rp c Hp. split.
    + intros Hc. destruct (Hdom p rp Hp) as [->|[-> | ->]]; rewrite ?H1, ?H2, ?H3 in Hp; injection Hp as <-; cbn in Hc;
        rewrite ?elem_of_cons, ?elem_of_nil in Hc; destruct_or?; subst; try done; eexists; (split; [eassumption|]); cbn;
        rewrite ?elem_of_cons; tauto.
    + intros (rc & Hc & Hin). destruct (Hdom c rc Hc) as [->|[-> | ->]]; rewrite ?H1, ?H2, ?H3 in Hc; injection Hc as <-; cbn in Hin;
        rewrite ?elem_of_cons, ?elem_of_nil in Hin; destruct_or?; subst; try done; rewrite ?H1, ?H2, ?H3 in Hp; injection Hp as <-; cbn;
        rewrite ?elem_of_cons; tauto.
  - intros p rp Hp. destruct (Hdom p rp Hp) as [->|[-> | ->]]; rewrite ?H1, ?H2, ?H3 in Hp; injection Hp as <-; cbn;
      apply (bool_decide_unpack _); vm_compute; exact I.
  - intros c rc p Hc Hin. destruct (Hdom c rc Hc) as [->|[-> | ->]]; rewrite ?H1, ?H2, ?H3 in Hc; injection Hc as <-; cbn in Hin;
      rewrite ?elem_of_cons, ?elem_of_nil in Hin; destruct_or?; subst; try done; by rewrite ?H1, ?H2.
Qed.

(** The block [3] leaves the parent [2]. *)
Lemma SetParents_relations_witness :
  exists rel', SetParents [3] [[1]] relations_example = (Ok tt, rel') /\ relations_ok rel' /\ dtm_Parents rel' [3] = Ok [[1]] /\
    dtm_Children rel' [3] = Ok [] /\ forall x, x <> [3] -> dtm_Parents rel' x = dtm_Parents relations_example x.
Proof.
  apply (SetParents_relations relations_example [3] [[1]] relations_example_ok).
  - intros p ->%list_elem_of_singleton. vm_compute. eauto.
  - apply (bool_decide_unpack _). vm_compute. exact I.
  - intros rb Hrb. vm_compute in Hrb. injection Hrb as <-. reflexivity.
Defined.
