(* ===== verification/Coinbase.v ===== *)
(** Coinbase transactions: the subsidy schedule, the payload and the expected
    coinbase of a block.
    [src/domain/consensus/processes/coinbasemanager/coinbasemanager.go] and
    [payload.go], with the data of [model/externalapi/coinbase.go],
    [acceptancedata.go] and [block.go]. *)

From S2P Require Import Prelude ScriptError Script Transaction Sha256 SigHash SigCache TxMass TxHash.
From S2P Require Import Spending TxValidator Block Difficulty Ghostdag.

(** * Data *)

Record DomainCoinbaseData : Set := mk_DomainCoinbaseData {
  cb_ScriptPublicKey : ScriptPublicKey;
  ExtraData : bytes
}.

(** The entries are those of the inputs, nil for an input without one. *)
Record TransactionAcceptanceData : Set := mk_TransactionAcceptanceData {
  acc_Transaction : DomainTransaction;
  acc_Fee : Z;
  IsAccepted : bool;
  TransactionInputUTXOEntries : list (option UTXOEntry)
}.

Record BlockAcceptanceData : Set := mk_BlockAcceptanceData {
  acc_BlockHash : bytes;
  acc_Transactions : list TransactionAcceptanceData
}.

Record DomainBlock : Set := mk_DomainBlock {
  block_Header : BlockHeader;
  Transactions : list DomainTransaction
}.

(** The stores the manager reads, beside the DAA score and GHOSTDAG data. *)
Class CoinbaseStores := {
  AcceptanceDataOf : bytes -> res RuleError (list BlockAcceptanceData);
  DAAAddedBlocks : bytes -> res RuleError (list bytes);
  BlockOf : bytes -> res RuleError DomainBlock
}.

Record coinbaseManager : Set := mk_coinbaseManager {
  subsidyGenesisReward : Z;
  preDeflationaryPhaseBaseSubsidy : Z;
  cm_scriptPublicKeyMaxLength : Z;
  cm_genesisHash : bytes;
  deflationaryPhaseDaaScore : Z;
  deflationaryPhaseBaseSubsidy : Z
}.

(** * The payload *)

Definition uint64Len : Z := 8.
Definition uint16Len : Z := 2.
Definition lengthOfSubsidy : Z := uint64Len.
Definition lengthOfScriptPubKeyLength : Z := 1.
Definition lengthOfVersionScriptPubKey : Z := uint16Len.

(** The fields are written one after the other into a buffer of exactly their
    total length. *)
Definition serializeCoinbasePayload (c : coinbaseManager) (blueScore : Z)
    (coinbaseData : DomainCoinbaseData) (subsidy : Z) : res RuleError bytes :=
  let script := spk_Script (cb_ScriptPublicKey coinbaseData) in
  if zlen script >? cm_scriptPublicKeyMaxLength c then Err ErrBadCoinbasePayloadLen else
  Ok (le_put 8 blueScore ++ le_put 8 subsidy ++
      le_put 2 (spk_Version (cb_ScriptPublicKey coinbaseData)) ++ [uint8 (zlen script)] ++
      script ++ ExtraData coinbaseData).

(** A payload of the new length is overwritten in place, its first sixteen
    bytes kept; any other is copied up to there. The slice [payload[:16]] is
    bounded by the capacity of the buffer, taken here to be its length. The
    value is that of the returned slice: the caller's buffer, when it is the
    one overwritten, is not tracked. *)
Definition ModifyCoinbasePayload (payload : bytes) (coinbaseData : DomainCoinbaseData)
    (maxLength : Z) : res RuleError bytes :=
  let script := spk_Script (cb_ScriptPublicKey coinbaseData) in
  if zlen script >? maxLength then Err ErrBadCoinbasePayloadLen else
  let newPayloadLen := uint64Len + lengthOfVersionScriptPubKey + lengthOfScriptPubKeyLength +
    zlen script + zlen (ExtraData coinbaseData) + lengthOfSubsidy in
  let? start :=
    if zlen payload =? newPayloadLen then Ok (sliceZ payload 0 (uint64Len + lengthOfSubsidy))
    else slice_res payload 0 (uint64Len + lengthOfSubsidy) in
  Ok (start ++ le_put 2 (spk_Version (cb_ScriptPublicKey coinbaseData)) ++ [uint8 (zlen script)] ++
      script ++ ExtraData coinbaseData).

(** The script's length is a [uint8], and so are the bounds computed from it. *)
Definition ExtractCoinbaseDataBlueScoreAndSubsidy (c : coinbaseManager) (coinbaseTx : DomainTransaction)
    : res RuleError (Z * DomainCoinbaseData * Z) :=
  let payload := Payload coinbaseTx in
  let minLength := uint64Len + lengthOfSubsidy + lengthOfVersionScriptPubKey + lengthOfScriptPubKeyLength in
  if zlen payload <? minLength then Err ErrBadCoinbasePayloadLen else
  let blueScore := le_get (sliceZ payload 0 uint64Len) in
  let subsidy := le_get (sliceZ payload uint64Len (uint64Len + 8)) in
  let scriptPubKeyVersion :=
    le_get (sliceZ payload (uint64Len + lengthOfSubsidy) (uint64Len + lengthOfSubsidy + uint16Len)) in
  let? scriptPubKeyScriptLength :=
    index_res payload (uint64Len + lengthOfSubsidy + lengthOfVersionScriptPubKey) in
  if scriptPubKeyScriptLength >? cm_scriptPublicKeyMaxLength c then Err ErrBadCoinbasePayloadLen else
  if zlen payload <? minLength + scriptPubKeyScriptLength then Err ErrBadCoinbasePayloadLen else
  let stop := uint8 (minLength + scriptPubKeyScriptLength) in
  let? scriptPubKeyScript := slice_res payload minLength stop in
  let? extraData := slice_res payload stop (zlen payload) in
  Ok (blueScore,
      mk_DomainCoinbaseData (mk_ScriptPublicKey scriptPubKeyScript scriptPubKeyVersion) extraData,
      subsidy).

(** * The subsidy *)

Definition subsidyByDeflationaryMonthTable : list Z := [
  44000000000; 41530469757; 39199543598; 36999442271; 34922823143; 32962755691; 31112698372;
  29366476791; 27718263097; 26162556530; 24694165062; 23308188075; 22000000000; 20765234878;
  19599771799; 18499721135; 17461411571; 16481377845; 15556349186; 14683238395; 13859131548;
  13081278265; 12347082531; 11654094037; 11000000000; 10382617439; 9799885899; 9249860567;
  8730705785; 8240688922; 7778174593; 7341619197; 6929565774; 6540639132; 6173541265; 5827047018;
  5500000000; 5191308719; 4899942949; 4624930283; 4365352892; 4120344461; 3889087296; 3670809598;
  3464782887; 3270319566; 3086770632; 2913523509; 2750000000; 2595654359; 2449971474; 2312465141;
  2182676446; 2060172230; 1944543648; 1835404799; 1732391443; 1635159783; 1543385316; 1456761754;
  1375000000; 1297827179; 1224985737; 1156232570; 1091338223; 1030086115; 972271824; 917702399;
  866195721; 817579891; 771692658; 728380877; 687500000; 648913589; 612492868; 578116285;
  545669111; 515043057; 486135912; 458851199; 433097860; 408789945; 385846329; 364190438;
  343750000; 324456794; 306246434; 289058142; 272834555; 257521528; 243067956; 229425599;
  216548930; 204394972; 192923164; 182095219; 171875000; 162228397; 153123217; 144529071;
  136417277; 128760764; 121533978; 114712799; 108274465; 102197486; 96461582; 91047609; 85937500;
  81114198; 76561608; 72264535; 68208638; 64380382; 60766989; 57356399; 54137232; 51098743;
  48230791; 45523804; 42968750; 40557099; 38280804; 36132267; 34104319; 32190191; 30383494;
  28678199; 27068616; 25549371; 24115395; 22761902; 21484375; 20278549; 19140402; 18066133;
  17052159; 16095095; 15191747; 14339099; 13534308; 12774685; 12057697; 11380951; 10742187;
  10139274; 9570201; 9033066; 8526079; 8047547; 7595873; 7169549; 6767154; 6387342; 6028848;
  5690475; 5371093; 5069637; 4785100; 4516533; 4263039; 4023773; 3797936; 3584774; 3383577;
  3193671; 3014424; 2845237; 2685546; 2534818; 2392550; 2258266; 2131519; 2011886; 1898968;
  1792387; 1691788; 1596835; 1507212; 1422618; 1342773; 1267409; 1196275; 1129133; 1065759;
  1005943; 949484; 896193; 845894; 798417; 753606; 711309; 671386; 633704; 598137; 564566;
  532879; 502971; 474742; 448096; 422947; 399208; 376803; 355654; 335693; 316852; 299068; 282283;
  266439; 251485; 237371; 224048; 211473; 199604; 188401; 177827; 167846; 158426; 149534; 141141;
  133219; 125742; 118685; 112024; 105736; 99802; 94200; 88913; 83923; 79213; 74767; 70570; 66609;
  62871; 59342; 56012; 52868; 49901; 47100; 44456; 41961; 39606; 37383; 35285; 33304; 31435;
  29671; 28006; 26434; 24950; 23550; 22228; 20980; 19803; 18691; 17642; 16652; 15717; 14835;
  14003; 13217; 12475; 11775; 11114; 10490; 9901; 9345; 8821; 8326; 7858; 7417; 7001; 6608; 6237;
  5887; 5557; 5245; 4950; 4672; 4410; 4163; 3929; 3708; 3500; 3304; 3118; 2943; 2778; 2622; 2475;
  2336; 2205; 2081; 1964; 1854; 1750; 1652; 1559; 1471; 1389; 1311; 1237; 1168; 1102; 1040; 982;
  927; 875; 826; 779; 735; 694; 655; 618; 584; 551; 520; 491; 463; 437; 413; 389; 367; 347; 327;
  309; 292; 275; 260; 245; 231; 218; 206; 194; 183; 173; 163; 154; 146; 137; 130; 122; 115; 109;
  103; 97; 91; 86; 81; 77; 73; 68; 65; 61; 57; 54; 51; 48; 45; 43; 40; 38; 36; 34; 32; 30; 28;
  27; 25; 24; 22; 21; 20; 19; 18; 17; 16; 15; 14; 13; 12; 12; 11; 10; 10; 9; 9; 8; 8; 7; 7; 6; 6;
  6; 5; 5; 5; 4; 4; 4; 4; 3; 3; 3; 3; 3; 2; 2; 2; 2; 2; 2; 2; 1; 1; 1; 1; 1; 1; 1; 1; 1; 1; 1; 1;
  0].

Definition getDeflationaryPeriodBlockSubsidyFromTable (month : Z) : res RuleError Z :=
  let month := if month >=? zlen subsidyByDeflationaryMonthTable
               then zlen subsidyByDeflationaryMonthTable - 1 else month in
  index_res subsidyByDeflationaryMonthTable month.

Definition secondsPerMonth : Z := 2629800.

Definition calcDeflationaryPeriodBlockSubsidy (c : coinbaseManager) (blockDaaScore : Z) : res RuleError Z :=
  let monthsSinceDeflationaryPhaseStarted :=
    uint64 (blockDaaScore - deflationaryPhaseDaaScore c) / secondsPerMonth in
  getDeflationaryPeriodBlockSubsidyFromTable monthsSinceDeflationaryPhaseStarted.

Section manager.
Context `{DAABlocksStore} `{CoinbaseStores}.
Variable c : coinbaseManager.

Definition CalcBlockSubsidy (blockHash : bytes) : res RuleError Z :=
  if bytes_eqb blockHash (cm_genesisHash c) then Ok (subsidyGenesisReward c) else
  let? blockDaaScore := DAAScore blockHash in
  if blockDaaScore <? deflationaryPhaseDaaScore c then Ok (preDeflationaryPhaseBaseSubsidy c) else
  calcDeflationaryPeriodBlockSubsidy c blockDaaScore.

(** * Rewards *)

(** A nil acceptance data is dereferenced. [ErrStore] stands for every error
    that is not a rule error, the mismatch of the hashes included. *)
Definition calcMergedBlockReward (blockHash : bytes) (blockAcceptanceData : option BlockAcceptanceData)
    (mergingBlockDAAAddedBlocksSet : gset bytes) : res RuleError Z :=
  match blockAcceptanceData with
  | None => Panic
  | Some bad =>
      if negb (bytes_eqb blockHash (acc_BlockHash bad)) then Err ErrStore else
      if negb (bool_decide (blockHash ∈ mergingBlockDAAAddedBlocksSet)) then Ok 0 else
      let totalFees := foldl (fun total t => if IsAccepted t then uint64 (total + acc_Fee t) else total)
                         0 (acc_Transactions bad) in
      let? block := BlockOf blockHash in
      let? coinbaseTx := index_res (Transactions block) 0 in
      let? r := ExtractCoinbaseDataBlueScoreAndSubsidy c coinbaseTx in
      let '(_, _, subsidy) := r in
      Ok (uint64 (subsidy + totalFees))
  end.

Definition coinbaseOutputForBlueBlock (blueBlock : bytes) (blockAcceptanceData : option BlockAcceptanceData)
    (mergingBlockDAAAddedBlocksSet : gset bytes) : res RuleError (option DomainTransactionOutput) :=
  let? blockReward := calcMergedBlockReward blueBlock blockAcceptanceData mergingBlockDAAAddedBlocksSet in
  if blockReward =? 0 then Ok None else
  match blockAcceptanceData with
  | None => Panic
  | Some bad =>
      let? first := index_res (acc_Transactions bad) 0 in
      let? r := ExtractCoinbaseDataBlueScoreAndSubsidy c (acc_Transaction first) in
      let '(_, coinbaseData, _) := r in
      Ok (Some (mk_DomainTransactionOutput blockReward (cb_ScriptPublicKey coinbaseData)))
  end.

Definition acceptanceDataFromArrayToMap (acceptanceData : list BlockAcceptanceData)
    : gmap bytes BlockAcceptanceData :=
  foldl (fun m bad => <[acc_BlockHash bad := bad]> m) ∅ acceptanceData.

Fixpoint red_rewards (reds : list bytes) (acceptanceDataMap : gmap bytes BlockAcceptanceData)
    (daaAddedBlocksSet : gset bytes) (totalReward : Z) : res RuleError Z :=
  match reds with
  | [] => Ok totalReward
  | red :: rest =>
      let? reward := calcMergedBlockReward red (acceptanceDataMap !! red) daaAddedBlocksSet in
      red_rewards rest acceptanceDataMap daaAddedBlocksSet (uint64 (totalReward + reward))
  end.

Definition coinbaseOutputForRewardFromRedBlocks (ghostdagData : BlockGHOSTDAGData)
    (acceptanceData : list BlockAcceptanceData) (daaAddedBlocksSet : gset bytes)
    (coinbaseData : DomainCoinbaseData) : res RuleError (option DomainTransactionOutput) :=
  let acceptanceDataMap := acceptanceDataFromArrayToMap acceptanceData in
  let? totalReward := red_rewards (MergeSetReds ghostdagData) acceptanceDataMap daaAddedBlocksSet 0 in
  if totalReward =? 0 then Ok None else
  Ok (Some (mk_DomainTransactionOutput totalReward (cb_ScriptPublicKey coinbaseData))).

Fixpoint blue_outputs (blues : list bytes) (acceptanceDataMap : gmap bytes BlockAcceptanceData)
    (daaAddedBlocksSet : gset bytes) : res RuleError (list DomainTransactionOutput) :=
  match blues with
  | [] => Ok []
  | blue :: rest =>
      let? txOut := coinbaseOutputForBlueBlock blue (acceptanceDataMap !! blue) daaAddedBlocksSet in
      let? txOuts := blue_outputs rest acceptanceDataMap daaAddedBlocksSet in
      Ok (match txOut with Some o => o :: txOuts | None => txOuts end)
  end.

Definition daaAddedBlocksSet (blockHash : bytes) : res RuleError (gset bytes) :=
  let? daaAddedBlocks := DAAAddedBlocks blockHash in
  Ok (list_to_set daaAddedBlocks).

(** Trusted GHOSTDAG data is preferred; the store's only error is a missing key. *)
Definition ghostdag_for_coinbase (st : ghostdag_store) (blockHash : bytes) : res RuleError BlockGHOSTDAGData :=
  match st !! (blockHash, true) with
  | Some d => Ok d
  | None => match st !! (blockHash, false) with Some d => Ok d | None => Err ErrStore end
  end.

Definition ExpectedCoinbaseTransaction (st : ghostdag_store) (blockHash : bytes)
    (coinbaseData : DomainCoinbaseData) : res RuleError (DomainTransaction * bool) :=
  let? ghostdagData := ghostdag_for_coinbase st blockHash in
  let? acceptanceData := AcceptanceDataOf blockHash in
  let? daaAddedBlocks := daaAddedBlocksSet blockHash in
  let acceptanceDataMap := acceptanceDataFromArrayToMap acceptanceData in
  let? txOuts := blue_outputs (MergeSetBlues ghostdagData) acceptanceDataMap daaAddedBlocks in
  let? txOut :=
    coinbaseOutputForRewardFromRedBlocks ghostdagData acceptanceData daaAddedBlocks coinbaseData in
  let txOuts := match txOut with Some o => txOuts ++ [o] | None => txOuts end in
  let? subsidy := CalcBlockSubsidy blockHash in
  let? payload := serializeCoinbasePayload c (BlueScore ghostdagData) coinbaseData subsidy in
  Ok (mk_DomainTransaction MaxTransactionVersion [] txOuts 0 SubnetworkIDCoinbase 0 payload 0 0 None,
      match txOut with Some _ => true | None => false end).

End manager.

(** * The payload round trip *)

Lemma sliceZ_mid {A} (pre mid post : list A) lo hi :
  lo = zlen pre -> hi = lo + zlen mid -> sliceZ (pre ++ mid ++ post) lo hi = mid.
Proof.
  intros -> ->. unfold sliceZ, zlen. rewrite Nat2Z.id, drop_app_length.
  replace (Z.to_nat _) with (length mid) by lia. by rewrite take_app_length.
Qed.

(** The fields of a payload, in order. *)
Definition payload_of (blueScore subsidy : Z) (d : DomainCoinbaseData) : bytes :=
  (le_put 8 blueScore ++ le_put 8 subsidy) ++ le_put 2 (spk_Version (cb_ScriptPublicKey d)) ++
  [uint8 (zlen (spk_Script (cb_ScriptPublicKey d)))] ++ spk_Script (cb_ScriptPublicKey d) ++ ExtraData d.

Definition data_typed (d : DomainCoinbaseData) : Prop :=
  0 <= spk_Version (cb_ScriptPublicKey d) < 2 ^ 16.

Lemma zlen_payload_of b s d :
  zlen (payload_of b s d) = 19 + zlen (spk_Script (cb_ScriptPublicKey d)) + zlen (ExtraData d).
Proof. unfold payload_of. rewrite !zlen_app, !zlen_le_put, zlen_cons, zlen_nil. lia. Qed.

Lemma serializeCoinbasePayload_eq c b d s :
  zlen (spk_Script (cb_ScriptPublicKey d)) <= cm_scriptPublicKeyMaxLength c ->
  serializeCoinbasePayload c b d s = Ok (payload_of b s d).
Proof.
  intros Hl. unfold serializeCoinbasePayload, payload_of.
  destruct (Z.gtb_spec (zlen (spk_Script (cb_ScriptPublicKey d))) (cm_scriptPublicKeyMaxLength c)); [lia|].
  by rewrite <- !app_assoc.
Qed.

Lemma ModifyCoinbasePayload_eq b s d d' maxLength :
  zlen (spk_Script (cb_ScriptPublicKey d')) <= maxLength ->
  ModifyCoinbasePayload (payload_of b s d) d' maxLength = Ok (payload_of b s d').
Proof.
  intros Hl. unfold ModifyCoinbasePayload.
  destruct (Z.gtb_spec (zlen (spk_Script (cb_ScriptPublicKey d'))) maxLength); [lia|].
  change (uint64Len + lengthOfSubsidy) with 16.
  assert (sliceZ (payload_of b s d) 0 16 = le_put 8 b ++ le_put 8 s) as Hs.
  { apply sliceZ_prefix. rewrite zlen_app, !zlen_le_put. lia. }
  pose proof (zlen_nonneg (spk_Script (cb_ScriptPublicKey d))). pose proof (zlen_nonneg (ExtraData d)).
  assert (@slice_res RuleError _ (payload_of b s d) 0 16 = Ok (le_put 8 b ++ le_put 8 s)) as ->.
  { unfold slice_res. rewrite zlen_payload_of, Hs.
    by rewrite (proj2 (Z.leb_le 16 _)) by lia. }
  rewrite Hs. by case_match.
Qed.

Lemma payload_slice (payload pre mid post : bytes) lo hi :
  payload = pre ++ mid ++ post -> lo = zlen pre -> hi = lo + zlen mid ->
  sliceZ payload lo hi = mid /\ @slice_res RuleError _ payload lo hi = Ok mid.
Proof.
  intros -> Hlo Hhi. pose proof (sliceZ_mid pre mid post lo hi Hlo Hhi) as Hm.
  split; [done|]. unfold slice_res. rewrite Hm, !zlen_app.
  pose proof (zlen_nonneg pre). pose proof (zlen_nonneg mid). pose proof (zlen_nonneg post).
  by rewrite (proj2 (Z.leb_le 0 lo)), (proj2 (Z.leb_le lo hi)), (proj2 (Z.leb_le hi _)) by lia.
Qed.

Ltac payload_part pre mid post :=
  apply (payload_slice _ pre mid post);
  [unfold payload_of; by rewrite <- ?app_assoc, ?app_nil_r|
   rewrite ?zlen_app, ?zlen_le_put, ?zlen_cons; zlia..].

Lemma le_get_put_id n z : 0 <= z < 256 ^ Z.of_nat n -> le_get (le_put n z) = z.
Proof. intros. by rewrite le_get_put, Z.mod_small. Qed.

(** Where the reader finds each field. *)
Lemma payload_fields b s script ver extra :
  zlen script <= 236 ->
  let P := payload_of b s (mk_DomainCoinbaseData (mk_ScriptPublicKey script ver) extra) in
  sliceZ P 0 8 = le_put 8 b /\ sliceZ P 8 16 = le_put 8 s /\ sliceZ P 16 18 = le_put 2 ver /\
  @index_res RuleError _ P 18 = Ok (zlen script) /\
  @slice_res RuleError _ P 19 (19 + zlen script) = Ok script /\
  @slice_res RuleError _ P (19 + zlen script) (19 + zlen script + zlen extra) = Ok extra.
Proof.
  intros Hl P. pose proof (zlen_nonneg script).
  assert (P = le_put 8 b ++ le_put 8 s ++ le_put 2 ver ++ zlen script :: script ++ extra) as ->.
  { unfold P, payload_of. cbn [cb_ScriptPublicKey spk_Script spk_Version ExtraData].
    rewrite uint8_id by (unfold is_byte; lia). by rewrite <- !app_assoc. }
  split_and!.
  - payload_part ([] : bytes) (le_put 8 b) (le_put 8 s ++ le_put 2 ver ++ zlen script :: script ++ extra).
  - payload_part (le_put 8 b) (le_put 8 s) (le_put 2 ver ++ zlen script :: script ++ extra).
  - payload_part (le_put 8 b ++ le_put 8 s) (le_put 2 ver) (zlen script :: script ++ extra).
  - unfold index_res. rewrite (app_assoc (le_put 8 s)), (app_assoc (le_put 8 b)).
    rewrite lookupZ_app_r; [done|]. rewrite !zlen_app, !zlen_le_put. lia.
  - payload_part (le_put 8 b ++ le_put 8 s ++ le_put 2 ver ++ [zlen script]) script extra.
  - payload_part (le_put 8 b ++ le_put 8 s ++ le_put 2 ver ++ zlen script :: script) extra ([] : bytes).
Qed.

Lemma Extract_payload_of c tx b s d :
  cm_scriptPublicKeyMaxLength c <= 236 ->
  0 <= b < 2 ^ 64 -> 0 <= s < 2 ^ 64 -> data_typed d ->
  zlen (spk_Script (cb_ScriptPublicKey d)) <= cm_scriptPublicKeyMaxLength c ->
  Payload tx = payload_of b s d ->
  ExtractCoinbaseDataBlueScoreAndSubsidy c tx = Ok (b, d, s).
Proof.
  intros Hmax Hb Hs Hd Hl Hp. unfold ExtractCoinbaseDataBlueScoreAndSubsidy. rewrite Hp, zlen_payload_of.
  destruct d as [[script ver] extra]. unfold data_typed in Hd.
  cbn [cb_ScriptPublicKey spk_Script spk_Version ExtraData] in *.
  destruct (payload_fields b s script ver extra) as (H1 & H2 & H3 & H4 & H5 & H6); [lia|].
  pose proof (zlen_nonneg script). pose proof (zlen_nonneg extra).
  unfold uint16Len, lengthOfSubsidy, lengthOfVersionScriptPubKey, lengthOfScriptPubKeyLength, uint16Len, uint64Len.
  change (8 + 8 + 2 + 1) with 19. change (8 + 8 + 2) with 18. change (8 + 8) with 16.
  rewrite (proj2 (Z.ltb_ge _ 19)) by lia. rewrite H1, H2, H3, H4. cbn [bind_res].
  destruct (Z.gtb_spec (zlen script) (cm_scriptPublicKeyMaxLength c)); [lia|].
  rewrite (proj2 (Z.ltb_ge _ (19 + zlen script))) by lia.
  rewrite (uint8_id (19 + zlen script)) by (unfold is_byte; lia). rewrite H5. cbn [bind_res].
  rewrite H6. cbn [bind_res]. by rewrite !le_get_put_id by (simpl Z.of_nat; lia).
Qed.

(** The payload of a coinbase round-trips: what [serializeCoinbasePayload] writes
    [ExtractCoinbaseDataBlueScoreAndSubsidy] reads back, and
    [ModifyCoinbasePayload] replaces the coinbase data of a payload and nothing
    else, whatever the lengths of the old and the new one.  The bound 236 is
    where the reader's 8-bit index arithmetic starts to wrap. *)
Theorem coinbase_payload_roundtrip c blueScore subsidy d d' :
  cm_scriptPublicKeyMaxLength c <= 236 ->
  0 <= blueScore < 2 ^ 64 -> 0 <= subsidy < 2 ^ 64 -> data_typed d -> data_typed d' ->
  zlen (spk_Script (cb_ScriptPublicKey d)) <= cm_scriptPublicKeyMaxLength c ->
  zlen (spk_Script (cb_ScriptPublicKey d')) <= cm_scriptPublicKeyMaxLength c ->
  exists p p', serializeCoinbasePayload c blueScore d subsidy = Ok p /\
    ModifyCoinbasePayload p d' (cm_scriptPublicKeyMaxLength c) = Ok p' /\
    (forall tx, Payload tx = p -> ExtractCoinbaseDataBlueScoreAndSubsidy c tx = Ok (blueScore, d, subsidy)) /\
    (forall tx, Payload tx = p' -> ExtractCoinbaseDataBlueScoreAndSubsidy c tx = Ok (blueScore, d', subsidy)).
Proof.
  intros Hmax Hb Hs Hd Hd' Hl Hl'. exists (payload_of blueScore subsidy d), (payload_of blueScore subsidy d').
  split_and!; [by apply serializeCoinbasePayload_eq|by apply ModifyCoinbasePayload_eq|..];
    intros; by apply Extract_payload_of.
Qed.

(** * The subsidy schedule *)

(** [subsidy] is the integer part of [base / 2 ^ (month / 12)]. *)
Definition halves_yearly (base month subsidy : Z) : Prop :=
  0 <= subsidy /\ subsidy ^ 12 * 2 ^ month <= base ^ 12 < (subsidy + 1) ^ 12 * 2 ^ month.

Definition halves_yearlyb (base month subsidy : Z) : bool :=
  (0 <=? subsidy) && (subsidy ^ 12 * 2 ^ month <=? base ^ 12) &&
  (base ^ 12 <? (subsidy + 1) ^ 12 * 2 ^ month).

Lemma halves_yearlyb_spec base month subsidy :
  halves_yearlyb base month subsidy = true -> halves_yearly base month subsidy.
Proof. unfold halves_yearlyb, halves_yearly. rewrite !andb_true_iff, !Z.leb_le, Z.ltb_lt. tauto. Qed.

(** The 440 kaspa of [defaultDeflationaryPhaseBaseSubsidy]. *)
Definition table_base : Z := 440 * SompiPerKaspa.

Lemma table_checked :
  forallb (fun '(i, t) => halves_yearlyb table_base (Z.of_nat i) t)
    (zip (seq 0 (length subsidyByDeflationaryMonthTable)) subsidyByDeflationaryMonthTable) = true.
Proof. vm_compute. reflexivity. Qed.

Lemma table_entry i t :
  subsidyByDeflationaryMonthTable !! i = Some t -> halves_yearly table_base (Z.of_nat i) t.
Proof.
  intros Hi. apply halves_yearlyb_spec.
  pose proof (proj1 (forallb_forall _ _) table_checked (i, t)) as H. apply H.
  apply list_elem_of_In, (list_elem_of_lookup_2 _ i).
  rewrite lookup_zip_with, lookup_seq_lt by (by eapply lookup_lt_Some). simpl. by rewrite Hi.
Qed.

Lemma zlen_table : zlen subsidyByDeflationaryMonthTable = 426.
Proof. vm_compute. reflexivity. Qed.

(** Past the end of the table the subsidy stays at its last entry, which is 0. *)
Definition month_subsidy (month : Z) : Z :=
  match lookupZ subsidyByDeflationaryMonthTable month with Some t => t | None => 0 end.

Lemma from_table month : 0 <= month ->
  getDeflationaryPeriodBlockSubsidyFromTable month = Ok (month_subsidy month).
Proof.
  intros Hm. unfold getDeflationaryPeriodBlockSubsidyFromTable, month_subsidy, index_res. rewrite zlen_table.
  destruct (month >=? 426) eqn:Hge; rewrite Z.geb_leb in Hge.
  - apply Z.leb_le in Hge. destruct (lookupZ _ month) eqn:Hl.
    + apply lookupZ_Some_range in Hl. rewrite zlen_table in Hl. lia.
    + vm_compute. reflexivity.
  - apply Z.leb_gt in Hge.
    destruct (lookupZ_in_range subsidyByDeflationaryMonthTable month) as [t ->]; [rewrite zlen_table; lia|done].
Qed.

Lemma month_subsidy_halves month : 0 <= month -> halves_yearly table_base month (month_subsidy month).
Proof.
  intros Hm. unfold month_subsidy, lookupZ. rewrite (proj2 (Z.leb_le 0 month)) by lia.
  destruct (_ !! _) as [t|] eqn:Hl.
  - apply table_entry in Hl. by rewrite Z2Nat.id in Hl.
  - apply lookup_ge_None in Hl. pose proof zlen_table. unfold zlen in *.
    split; [lia|]. rewrite Z.add_0_l, Z.pow_1_l, Z.pow_0_l, Z.mul_1_l by lia. split; [vm_compute; discriminate|].
    apply (Z.lt_le_trans _ (2 ^ 426)); [vm_compute; reflexivity|]. apply Z.pow_le_mono_r; lia.
Qed.

(** The subsidy at a DAA score. *)
Definition score_subsidy (c : coinbaseManager) (daaScore : Z) : Z :=
  if daaScore <? deflationaryPhaseDaaScore c then preDeflationaryPhaseBaseSubsidy c
  else month_subsidy ((daaScore - deflationaryPhaseDaaScore c) / secondsPerMonth).

Lemma CalcBlockSubsidy_eq `{DAABlocksStore} c blockHash daaScore :
  blockHash <> cm_genesisHash c -> DAAScore blockHash = Ok daaScore ->
  0 <= deflationaryPhaseDaaScore c -> 0 <= daaScore < 2 ^ 64 ->
  CalcBlockSubsidy c blockHash = Ok (score_subsidy c daaScore).
Proof.
  intros Hg Hd Hs Hr. unfold CalcBlockSubsidy, score_subsidy, bytes_eqb.
  rewrite bool_decide_false, Hd by done. cbn [bind_res].
  destruct (Z.ltb_spec daaScore (deflationaryPhaseDaaScore c)); [done|].
  unfold calcDeflationaryPeriodBlockSubsidy. rewrite uint64_id by lia.
  apply from_table, Z.div_pos; [lia|done].
Qed.

Fixpoint sum_upto (f : Z -> Z) (n : nat) : Z :=
  match n with O => 0 | S n' => sum_upto f n' + f (Z.of_nat n') end.

(** A function constant on intervals of length [k], summed interval by interval. *)
Lemma sum_upto_intervals f k n : 0 < k ->
  sum_upto (fun d => f (d / k)) n =
  k * sum_upto f (Z.to_nat (Z.of_nat n / k)) + (Z.of_nat n mod k) * f (Z.of_nat n / k).
Proof.
  intros Hk. induction n as [|n IH].
  { simpl sum_upto at 1. rewrite Z.div_0_l, Z.mod_0_l by lia. simpl. lia. }
  simpl sum_upto at 1. rewrite IH, Nat2Z.inj_succ, <- Z.add_1_r.
  set (x := Z.of_nat n). pose proof (Z.div_mod x k). pose proof (Z.mod_pos_bound x k Hk).
  assert (0 <= x / k) by (apply Z.div_pos; lia).
  destruct (decide (x mod k + 1 = k)) as [He|He].
  - assert ((x + 1) / k = x / k + 1) as -> by (symmetry; apply (Z.div_unique _ _ _ 0); lia).
    assert ((x + 1) mod k = 0) as -> by (symmetry; apply (Z.mod_unique _ _ (x / k + 1)); lia).
    rewrite Z2Nat.inj_add by lia. rewrite Nat.add_1_r. simpl sum_upto. rewrite Z2Nat.id by lia. nia.
  - assert ((x + 1) / k = x / k) as -> by (symmetry; apply (Z.div_unique _ _ _ (x mod k + 1)); lia).
    assert ((x + 1) mod k = x mod k + 1) as -> by (symmetry; apply (Z.mod_unique _ _ (x / k)); lia).
    lia.
Qed.

Lemma sum_upto_split f a n :
  sum_upto f (a + n) = sum_upto f a + sum_upto (fun d => f (Z.of_nat a + d)) n.
Proof.
  induction n as [|n IH]; [rewrite Nat.add_0_r; simpl; lia|].
  rewrite Nat.add_succ_r. simpl. rewrite IH, Nat2Z.inj_add. lia.
Qed.

Lemma sum_upto_ext f g n :
  (forall d, 0 <= d < Z.of_nat n -> f d = g d) -> sum_upto f n = sum_upto g n.
Proof.
  induction n as [|n IH]; intros Hfg; [done|]. simpl. rewrite IH, Hfg by (intros; try apply Hfg; lia). done.
Qed.

Lemma sum_upto_const v n : sum_upto (fun _ => v) n = Z.of_nat n * v.
Proof. induction n as [|n IH]; [done|]. simpl sum_upto. rewrite IH. lia. Qed.

Lemma month_subsidy_nonneg m : 0 <= month_subsidy m.
Proof.
  destruct (decide (0 <= m)) as [Hm|Hm]; [by apply month_subsidy_halves|].
  unfold month_subsidy, lookupZ. by rewrite (proj2 (Z.leb_gt 0 m)) by lia.
Qed.

Lemma sum_upto_nonneg f n : (forall d, 0 <= f d) -> 0 <= sum_upto f n.
Proof. intros Hf. induction n as [|n IH]; simpl; [lia|]. specialize (Hf (Z.of_nat n)). lia. Qed.

Lemma months_total n : sum_upto month_subsidy n <= sum_upto month_subsidy 426.
Proof.
  destruct (decide (n <= 426)%nat) as [Hn|Hn].
  - replace 426%nat with (n + (426 - n))%nat by lia. rewrite sum_upto_split.
    pose proof (sum_upto_nonneg (fun d => month_subsidy (Z.of_nat n + d)) (426 - n)
      (fun d => month_subsidy_nonneg _)). lia.
  - replace n with (426 + (n - 426))%nat by lia. rewrite sum_upto_split.
    rewrite (sum_upto_ext (fun d => month_subsidy (Z.of_nat 426 + d)) (fun _ => 0)), sum_upto_const; [lia|].
    intros d Hd. unfold month_subsidy. destruct (lookupZ _ _) eqn:Hl; [|done].
    apply lookupZ_Some_range in Hl. rewrite zlen_table in Hl. lia.
Qed.

(** One block in each month of the table. *)
Definition table_total : Z := 783954764543.

Lemma months_at_most n : sum_upto month_subsidy n <= table_total.
Proof.
  etransitivity; [apply months_total|]. apply Z.leb_le. vm_compute. reflexivity.
Qed.

(** The months of the deflationary phase, the current one in part. *)
Lemma deflationary_total n :
  sum_upto (fun d => month_subsidy (d / secondsPerMonth)) n <= secondsPerMonth * table_total.
Proof.
  rewrite sum_upto_intervals by done. set (j := Z.of_nat n / secondsPerMonth).
  pose proof (Z.mod_pos_bound (Z.of_nat n) secondsPerMonth eq_refl).
  pose proof (months_at_most (S (Z.to_nat j))) as Hm. simpl in Hm.
  assert (0 <= j) by (apply Z.div_pos; [lia|done]). rewrite Z2Nat.id in Hm by done.
  pose proof (month_subsidy_nonneg j). nia.
Qed.

(** The parameters of the networks in [dagconfig], but for the genesis hash. *)
Definition defaultCoinbaseManager (genesis : bytes) : coinbaseManager :=
  mk_coinbaseManager (1 * SompiPerKaspa) (500 * SompiPerKaspa) 150 genesis (15778800 - 259200)
    (440 * SompiPerKaspa).

Lemma emission_total genesis n :
  let c := defaultCoinbaseManager genesis in
  sum_upto (score_subsidy c) n <=
    deflationaryPhaseDaaScore c * preDeflationaryPhaseBaseSubsidy c +
    secondsPerMonth * table_total.
Proof.
  intros c. set (start := deflationaryPhaseDaaScore c). set (pre := preDeflationaryPhaseBaseSubsidy c).
  assert (0 <= start /\ 0 <= pre) as [Hs Hp] by done.
  assert (forall a, Z.of_nat a <= start -> sum_upto (score_subsidy c) a = Z.of_nat a * pre) as Hpre.
  { intros a Ha. rewrite (sum_upto_ext _ (fun _ => pre)); [apply sum_upto_const|].
    intros d Hd. unfold score_subsidy. by rewrite (proj2 (Z.ltb_lt _ _)) by (fold start; lia). }
  pose proof (deflationary_total (n - Z.to_nat start)) as Hdef.
  assert (0 <= secondsPerMonth * table_total) by done.
  destruct (decide (Z.of_nat n <= start)) as [Hn|Hn]; [rewrite Hpre by done; nia|].
  replace n with (Z.to_nat start + (n - Z.to_nat start))%nat by lia.
  rewrite sum_upto_split, Hpre, Z2Nat.id by lia. apply Z.add_le_mono_l.
  rewrite (sum_upto_ext _ (fun d => month_subsidy (d / secondsPerMonth))); [done|].
  intros d Hd. unfold score_subsidy. fold start. rewrite (proj2 (Z.ltb_ge _ _)) by lia. do 2 f_equal. lia.
Qed.

(** C33: The subsidy schedule: in month [m] of the deflationary phase the subsidy of a
    block is exactly the integer part of [440 KAS / 2 ^ (m / 12)], the table of
    precomputed values included and for every month after its end; and the
    subsidies of the genesis block and of one block per DAA score never add up to
    more than [MaxSompi]. *)
Theorem subsidy_schedule `{DAABlocksStore} genesis blockHash daaScore n :
  let c := defaultCoinbaseManager genesis in
  blockHash <> genesis -> DAAScore blockHash = Ok daaScore ->
  deflationaryPhaseDaaScore c <= daaScore < 2 ^ 64 ->
  (exists subsidy, CalcBlockSubsidy c blockHash = Ok subsidy /\
    halves_yearly (deflationaryPhaseBaseSubsidy c)
      ((daaScore - deflationaryPhaseDaaScore c) / secondsPerMonth) subsidy) /\
  subsidyGenesisReward c + sum_upto (score_subsidy c) n <= MaxSompi.
Proof.
  intros c Hg Hd Hr. assert (0 <= deflationaryPhaseDaaScore c) by done. split.
  - exists (score_subsidy c daaScore). split; [apply CalcBlockSubsidy_eq; [done..|lia]|].
    unfold score_subsidy. rewrite (proj2 (Z.ltb_ge _ _)) by lia.
    apply month_subsidy_halves, Z.div_pos; [lia|done].
  - pose proof (emission_total genesis n) as He. cbv zeta in He. fold c in He.
    assert (subsidyGenesisReward c + (deflationaryPhaseDaaScore c * preDeflationaryPhaseBaseSubsidy c +
      secondsPerMonth * table_total) <= MaxSompi) by (apply Z.leb_le; vm_compute; reflexivity).
    lia.
Qed.

(** * The expected coinbase transaction *)

Definition extracted_subsidy (c : coinbaseManager) (tx : DomainTransaction) : Z :=
  match ExtractCoinbaseDataBlueScoreAndSubsidy c tx with Ok (_, _, s) => s | _ => 0 end.

Definition accepted_fees (l : list TransactionAcceptanceData) : Z :=
  sumZ (fun t => if IsAccepted t then acc_Fee t else 0) l.

Lemma index_res_head {E A} (x : A) l : @index_res E A (x :: l) 0 = Ok x.
Proof. done. Qed.

(** A transaction whose payload the manager can read. *)
Definition readable (c : coinbaseManager) (tx : DomainTransaction) : Prop :=
  Forall is_byte (Payload tx) /\ exists r, ExtractCoinbaseDataBlueScoreAndSubsidy c tx = Ok r.

Lemma Extract_bounds c tx b d s :
  cm_scriptPublicKeyMaxLength c <= 236 -> Forall is_byte (Payload tx) ->
  ExtractCoinbaseDataBlueScoreAndSubsidy c tx = Ok (b, d, s) ->
  0 <= s < 2 ^ 64 /\ zlen (spk_Script (cb_ScriptPublicKey d)) <= cm_scriptPublicKeyMaxLength c.
Proof.
  intros Hmax Hby. unfold ExtractCoinbaseDataBlueScoreAndSubsidy.
  unfold uint16Len, lengthOfSubsidy, lengthOfVersionScriptPubKey, lengthOfScriptPubKeyLength, uint16Len, uint64Len.
  change (8 + 8 + 2 + 1) with 19. change (8 + 8 + 2) with 18. change (8 + 8) with 16.
  destruct (Z.ltb_spec (zlen (Payload tx)) 19) as [|Hlen]; [done|].
  unfold index_res. destruct (lookupZ (Payload tx) 18) as [n|] eqn:Hn; [|done]. cbn [bind_res].
  assert (is_byte n) as Hnb by (eapply Forall_forall; [done|by eapply lookupZ_elem_of]).
  destruct (Z.gtb_spec n (cm_scriptPublicKeyMaxLength c)) as [|Hle]; [done|].
  destruct (Z.ltb_spec (zlen (Payload tx)) (19 + n)) as [|Hl2]; [done|].
  unfold is_byte in Hnb. rewrite uint8_id by (unfold is_byte; lia).
  unfold slice_res at 1. case_match; [|done]. cbn [bind_res].
  unfold slice_res. case_match; [|done]. cbn [bind_res]. intros [= _ <- <-]. simpl. split.
  - assert (zlen (sliceZ (Payload tx) 8 16) = 8) as H8.
    { unfold sliceZ, zlen in *. rewrite length_take, length_drop. lia. }
    pose proof (le_get_range (sliceZ (Payload tx) 8 16)) as Hr. rewrite H8 in Hr. apply Hr.
    by apply Forall_take, Forall_drop.
  - unfold sliceZ, zlen. rewrite length_take. lia.
Qed.

Section expected.
Context `{C : Crypto} `{IT : MapIteration} `{ST : DAABlocksStore} `{CS : CoinbaseStores}.
Variable c : coinbaseManager.
Hypothesis Hmax : cm_scriptPublicKeyMaxLength c <= 236.

(** What a merged block is owed: its subsidy and the fees accepted from it, if it
    is one of the blocks that count for the DAA score. *)
Definition merged_reward (m : gmap bytes BlockAcceptanceData) (daa : gset bytes) (b : bytes) : Z :=
  if bool_decide (b ∈ daa) then
    match m !! b, BlockOf b with
    | Some bad, Ok block =>
        match Transactions block with
        | cb :: _ => extracted_subsidy c cb + accepted_fees (acc_Transactions bad)
        | [] => 0
        end
    | _, _ => 0
    end
  else 0.

(** What the stores hold of a merged block. *)
Definition merged_known (m : gmap bytes BlockAcceptanceData) (b : bytes) : Prop :=
  exists bad block cb txs t ts, m !! b = Some bad /\ BlockOf b = Ok block /\
    Transactions block = cb :: txs /\ readable c cb /\
    acc_Transactions bad = t :: ts /\ readable c (acc_Transaction t) /\
    Forall (fun t => 0 <= acc_Fee t) (acc_Transactions bad).

Lemma acceptance_map_hash l b bad :
  acceptanceDataFromArrayToMap l !! b = Some bad -> acc_BlockHash bad = b.
Proof.
  unfold acceptanceDataFromArrayToMap.
  assert (forall m : gmap bytes BlockAcceptanceData, (forall x y, m !! x = Some y -> acc_BlockHash y = x) ->
    foldl (fun m bad => <[acc_BlockHash bad := bad]> m) m l !! b = Some bad -> acc_BlockHash bad = b) as Hg.
  { induction l as [|a l IH]; intros m Hm; simpl; [apply Hm|]. apply IH.
    intros x y. rewrite lookup_insert_Some. intros [[<- <-]|[_ ?]]; auto. }
  apply Hg. intros x y. by rewrite lookup_empty.
Qed.

Lemma fees_fold l a :
  0 <= a -> Forall (fun t => 0 <= acc_Fee t) l -> a + accepted_fees l < 2 ^ 64 ->
  foldl (fun total t => if IsAccepted t then uint64 (total + acc_Fee t) else total) a l = a + accepted_fees l.
Proof.
  revert a. induction l as [|t l IH]; intros a Ha Hf Hs; unfold accepted_fees in *; simpl in *; [lia|].
  apply Forall_cons in Hf as [Ht Hf].
  assert (0 <= sumZ (fun t => if IsAccepted t then acc_Fee t else 0) l) as Hn.
  { apply sumZ_nonneg. eapply Forall_impl; [exact Hf|]. intros x Hx; simpl in *; destruct (IsAccepted x); lia. }
  destruct (IsAccepted t); [rewrite uint64_id by lia|]; rewrite IH by (try done; lia); lia.
Qed.

Lemma accepted_fees_nonneg l : Forall (fun t => 0 <= acc_Fee t) l -> 0 <= accepted_fees l.
Proof.
  intros Hf. apply sumZ_nonneg. eapply Forall_impl; [exact Hf|].
  intros x Hx; simpl in *; destruct (IsAccepted x); lia.
Qed.

Lemma merged_reward_nonneg m daa b : merged_known m b -> 0 <= merged_reward m daa b.
Proof.
  intros (bad & block & cb & txs & t & ts & Hm & Hb & Htx & [Hby [[[b' d'] s'] Hr]] & Ht & _ & Hf).
  unfold merged_reward. case_bool_decide; [|done]. rewrite Hm, Hb, Htx. unfold extracted_subsidy. rewrite Hr.
  pose proof (accepted_fees_nonneg _ Hf). destruct (Extract_bounds c cb b' d' s' Hmax Hby Hr). lia.
Qed.

Lemma calcMergedBlockReward_eq l daa b (m := acceptanceDataFromArrayToMap l) :
  merged_known m b -> merged_reward m daa b < 2 ^ 64 ->
  calcMergedBlockReward c b (m !! b) daa = Ok (merged_reward m daa b).
Proof.
  intros (bad & block & cb & txs & t & ts & Hm & Hb & Htx & [Hby [[[b' d'] s'] Hr]] & Ht & _ & Hf).
  unfold merged_reward, calcMergedBlockReward. rewrite Hm, Hb, Htx.
  rewrite (acceptance_map_hash l b bad Hm). unfold bytes_eqb. rewrite (bool_decide_true (b = b)) by done.
  case_bool_decide; [|done]. simpl negb. cbv iota. intros Hlt. unfold extracted_subsidy in *. rewrite Hr in Hlt |- *.
  destruct (Extract_bounds c cb b' d' s' Hmax Hby Hr). pose proof (accepted_fees_nonneg _ Hf).
  cbn [bind_res]. rewrite Htx, index_res_head. cbn [bind_res]. rewrite Hr. cbn [bind_res].
  rewrite fees_fold by (try done; lia). by rewrite uint64_id by lia.
Qed.

(** A blue block's output: none without a reward, else one that pays the reward
    to the script its own coinbase names. *)
Lemma coinbaseOutputForBlueBlock_eq l daa b (m := acceptanceDataFromArrayToMap l) :
  merged_known m b -> merged_reward m daa b < 2 ^ 64 ->
  exists o, coinbaseOutputForBlueBlock c b (m !! b) daa = Ok o /\
    match o with
    | None => merged_reward m daa b = 0
    | Some o => Value o = merged_reward m daa b /\ 0 < Value o /\
        zlen (spk_Script (out_ScriptPublicKey o)) <= cm_scriptPublicKeyMaxLength c
    end.
Proof.
  intros Hk Hlt. pose proof (merged_reward_nonneg m daa b Hk) as Hn.
  unfold coinbaseOutputForBlueBlock. subst m. rewrite calcMergedBlockReward_eq by done. cbn [bind_res].
  destruct (Z.eqb_spec (merged_reward (acceptanceDataFromArrayToMap l) daa b) 0); [by exists None|].
  destruct Hk as (bad & block & cb & txs & t & ts & Hm & _ & _ & _ & Ht & [Hby [[[b' d'] s'] Hr]] & _).
  rewrite Hm, Ht, index_res_head. cbn [bind_res]. rewrite Hr. cbn [bind_res].
  eexists (Some _). split; [done|]. simpl. split; [done|]. split; [lia|].
  by destruct (Extract_bounds c _ b' d' s' Hmax Hby Hr).
Qed.

Definition good_output (o : DomainTransactionOutput) : Prop :=
  0 < Value o /\ zlen (spk_Script (out_ScriptPublicKey o)) <= cm_scriptPublicKeyMaxLength c.

Lemma blue_outputs_eq l daa blues (m := acceptanceDataFromArrayToMap l) :
  (forall b, b ∈ blues -> merged_known m b) -> sumZ (merged_reward m daa) blues < 2 ^ 64 ->
  exists outs, blue_outputs c blues m daa = Ok outs /\ Forall good_output outs /\
    zlen outs <= zlen blues /\ sumZ Value outs = sumZ (merged_reward m daa) blues.
Proof.
  induction blues as [|b blues IH]; intros Hk Hs; [by exists []|]. simpl in Hs.
  assert (0 <= sumZ (merged_reward m daa) blues).
  { apply sumZ_nonneg, Forall_forall. intros x Hx. apply merged_reward_nonneg, Hk. set_solver. }
  pose proof (merged_reward_nonneg m daa b (Hk b ltac:(set_solver))).
  destruct IH as (outs & Ho & Hg & Hl & Hsum); [set_solver|lia|].
  destruct (coinbaseOutputForBlueBlock_eq l daa b) as (o & Hb & Hcase); [apply Hk; set_solver|fold m; lia|].
  simpl. fold m in Hb, Hcase. rewrite Hb. cbn [bind_res]. rewrite Ho. cbn [bind_res].
  rewrite !zlen_cons. destruct o as [o|].
  - exists (o :: outs). rewrite zlen_cons. simpl. split_and!; [done| |lia|lia].
    constructor; [split; tauto|done].
  - exists outs. split_and!; [done|done|lia|lia].
Qed.

Lemma red_rewards_eq l daa reds total (m := acceptanceDataFromArrayToMap l) :
  (forall b, b ∈ reds -> merged_known m b) -> 0 <= total ->
  total + sumZ (merged_reward m daa) reds < 2 ^ 64 ->
  red_rewards c reds m daa total = Ok (total + sumZ (merged_reward m daa) reds).
Proof.
  revert total. induction reds as [|b reds IH]; intros total Hk Ht Hs; simpl in *; [f_equal; lia|].
  assert (0 <= sumZ (merged_reward m daa) reds).
  { apply sumZ_nonneg, Forall_forall. intros x Hx. apply merged_reward_nonneg, Hk. set_solver. }
  pose proof (merged_reward_nonneg m daa b (Hk b ltac:(set_solver))).
  unfold m at 1. rewrite calcMergedBlockReward_eq by (first [apply Hk; set_solver|fold m; lia]).
  cbn [bind_res]. fold m. rewrite uint64_id by lia. rewrite IH; [f_equal; lia|set_solver|lia|lia].
Qed.

Lemma sumZ_elem_of {A} (f : A -> Z) l x :
  Forall (fun y => 0 <= f y) l -> x ∈ l -> f x <= sumZ f l.
Proof.
  induction l as [|y l IH]; intros Hf Hx; [set_solver|]. apply Forall_cons in Hf as [Hy Hf]. simpl.
  pose proof (sumZ_nonneg f l Hf). apply elem_of_cons in Hx as [->|Hx]; [lia|]. specialize (IH Hf Hx). lia.
Qed.

(** A coinbase with such outputs passes the validator. *)
Lemma coinbase_isolation v outs payload :
  coinbasePayloadScriptPublicKeyMaxLength v = cm_scriptPublicKeyMaxLength c ->
  zlen payload <= maxCoinbasePayloadLength v -> zlen outs <= ghostdagK v + 2 ->
  Forall good_output outs -> sumZ Value outs <= MaxSompi ->
  isolation_ok v (mk_DomainTransaction MaxTransactionVersion [] outs 0 SubnetworkIDCoinbase 0 payload 0 0 None).
Proof.
  intros Hv Hp Ho Hg Hs. split; cbn [Inputs Outputs Payload SubnetworkID Gas Version];
    [done| |done|apply NoDup_nil_2| |done|done|done|by right; right|done].
  - eapply Forall_impl; [exact Hg|]. by intros o [? _].
  - intros _. split_and!; try done. eapply Forall_impl; [exact Hg|]. intros o [_ ?]. simpl. by rewrite Hv.
Qed.

Lemma red_output_eq d l daa data (m := acceptanceDataFromArrayToMap l) :
  (forall b, b ∈ MergeSetReds d -> merged_known m b) ->
  sumZ (merged_reward m daa) (MergeSetReds d) < 2 ^ 64 ->
  zlen (spk_Script (cb_ScriptPublicKey data)) <= cm_scriptPublicKeyMaxLength c ->
  exists o, coinbaseOutputForRewardFromRedBlocks c d l daa data = Ok o /\
    Forall good_output (option_list o) /\
    sumZ Value (option_list o) = sumZ (merged_reward m daa) (MergeSetReds d).
Proof.
  intros Hk Hs Hl.
  assert (0 <= sumZ (merged_reward m daa) (MergeSetReds d)).
  { apply sumZ_nonneg, Forall_forall. intros x Hx. by apply merged_reward_nonneg, Hk. }
  unfold coinbaseOutputForRewardFromRedBlocks. fold m. unfold m at 1.
  rewrite red_rewards_eq by (fold m; first [done|lia]). fold m. cbn [bind_res]. rewrite Z.add_0_l.
  destruct (Z.eqb_spec (sumZ (merged_reward m daa) (MergeSetReds d)) 0) as [H0|H0].
  - exists None. split_and!; [done|constructor|done].
  - eexists (Some _). split; [done|]. simpl. split; [|lia]. repeat constructor; simpl; [lia|done].
Qed.

Lemma expected_coinbase_eq (st : ghostdag_store) (h : bytes)
    (data : DomainCoinbaseData) (d : BlockGHOSTDAGData) (acc : list BlockAcceptanceData) (added : list bytes) (subsidy : Z)
    (m := acceptanceDataFromArrayToMap acc) (daa := list_to_set added : gset bytes) :
  ghostdag_for_coinbase st h = Ok d -> AcceptanceDataOf h = Ok acc -> DAAAddedBlocks h = Ok added ->
  CalcBlockSubsidy c h = Ok subsidy ->
  (forall b, b ∈ MergeSetBlues d ++ MergeSetReds d -> merged_known m b) ->
  sumZ (merged_reward m daa) (MergeSetBlues d ++ MergeSetReds d) < 2 ^ 64 ->
  zlen (spk_Script (cb_ScriptPublicKey data)) <= cm_scriptPublicKeyMaxLength c ->
  exists outs hasRed,
    ExpectedCoinbaseTransaction c st h data =
      Ok (mk_DomainTransaction MaxTransactionVersion [] outs 0 SubnetworkIDCoinbase 0
            (payload_of (BlueScore d) subsidy data) 0 0 None, hasRed) /\
    Forall good_output outs /\ zlen outs <= zlen (MergeSetBlues d) + 1 /\
    sumZ Value outs = sumZ (merged_reward m daa) (MergeSetBlues d ++ MergeSetReds d).
Proof.
  intros Hd Ha Hadd Hsub Hk Hs Hl. rewrite sumZ_app in Hs.
  assert (forall l, (forall b, b ∈ l -> b ∈ MergeSetBlues d ++ MergeSetReds d) ->
    0 <= sumZ (merged_reward m daa) l) as Hnn.
  { intros l Hin. apply sumZ_nonneg, Forall_forall. intros x Hx. by apply merged_reward_nonneg, Hk, Hin. }
  pose proof (Hnn (MergeSetBlues d) ltac:(set_solver)). pose proof (Hnn (MergeSetReds d) ltac:(set_solver)).
  destruct (blue_outputs_eq acc daa (MergeSetBlues d)) as (outs & Ho & Hg & Hz & Hv);
    [set_solver|fold m; lia|].
  destruct (red_output_eq d acc daa data) as (o & Hr & Hgo & Hvo); [set_solver|fold m; lia|done|].
  fold m in Ho, Hv, Hvo.
  exists (outs ++ option_list o), (match o with Some _ => true | None => false end).
  split_and!.
  - unfold ExpectedCoinbaseTransaction, daaAddedBlocksSet. rewrite Hd. cbn [bind_res].
    rewrite Ha. cbn [bind_res]. rewrite Hadd. cbn [bind_res]. fold daa m. rewrite Ho. cbn [bind_res].
    rewrite Hr. cbn [bind_res]. rewrite Hsub. cbn [bind_res].
    rewrite serializeCoinbasePayload_eq by done. cbn [bind_res].
    destruct o; simpl; [done|by rewrite app_nil_r].
  - by apply Forall_app.
  - rewrite zlen_app. destruct o; simpl; rewrite ?zlen_cons; zlia.
  - rewrite !sumZ_app. lia.
Qed.

End expected.

(** * Witnesses *)

Definition test_coinbase_data : DomainCoinbaseData :=
  mk_DomainCoinbaseData (mk_ScriptPublicKey [0xaa; 0x20; 0x01; 0x87] 0) [7; 7].

Definition test_manager : coinbaseManager := defaultCoinbaseManager [0].

Lemma coinbase_payload_roundtrip_witness :
  exists p p', serializeCoinbasePayload test_manager 12 test_coinbase_data 44000000000 = Ok p /\
    ModifyCoinbasePayload p (mk_DomainCoinbaseData (mk_ScriptPublicKey [] 1) []) 150 = Ok p' /\
    (forall tx, Payload tx = p ->
       ExtractCoinbaseDataBlueScoreAndSubsidy test_manager tx = Ok (12, test_coinbase_data, 44000000000)) /\
    (forall tx, Payload tx = p' -> ExtractCoinbaseDataBlueScoreAndSubsidy test_manager tx =
       Ok (12, mk_DomainCoinbaseData (mk_ScriptPublicKey [] 1) [], 44000000000)).
Proof.
  apply (coinbase_payload_roundtrip test_manager 12 44000000000 test_coinbase_data
    (mk_DomainCoinbaseData (mk_ScriptPublicKey [] 1) [])); by vm_compute.
Defined.

Definition test_late_store : DAABlocksStore := {| DAAScore := fun _ => Ok 60000000 |}.

Lemma subsidy_schedule_witness :
  (exists subsidy, CalcBlockSubsidy (H:=test_late_store) test_manager [1] = Ok subsidy /\
    halves_yearly 44000000000 16 subsidy) /\
  subsidyGenesisReward test_manager + sum_upto (score_subsidy test_manager) 10 <= MaxSompi.
Proof.
  apply (subsidy_schedule (H:=test_late_store) [0] [1] 60000000 10); [done|done|by vm_compute].
Defined.

#[local] Existing Instance test_crypto.
#[local] Existing Instance test_iteration.
#[local] Existing Instance test_store.

Definition test_coinbase (subsidy : Z) : DomainTransaction :=
  mk_DomainTransaction 0 [] [] 0 SubnetworkIDCoinbase 0 (payload_of 11 subsidy test_coinbase_data) 0 0 None.

Definition test_acceptance : list BlockAcceptanceData :=
  [mk_BlockAcceptanceData [2] [mk_TransactionAcceptanceData (test_coinbase 500) 0 false [];
                               mk_TransactionAcceptanceData (test_coinbase 0) 30 true []];
   mk_BlockAcceptanceData [3] [mk_TransactionAcceptanceData (test_coinbase 400) 0 false []]].

Definition test_stores : CoinbaseStores := {|
  AcceptanceDataOf := fun _ => Ok test_acceptance;
  DAAAddedBlocks := fun _ => Ok [[2]; [3]];
  BlockOf := fun b => Ok (mk_DomainBlock test_header [test_coinbase (if bytes_eqb b [2] then 500 else 400)])
|}.
#[local] Existing Instance test_stores.

Definition test_merge : BlockGHOSTDAGData := mk_BlockGHOSTDAGData 12 100 (Some [2]) [[2]] [[3]] ∅.
Definition test_merge_store : ghostdag_store := {[([1], false) := test_merge]}.

Lemma test_readable s : 0 <= s < 2 ^ 64 -> readable test_manager (test_coinbase s).
Proof.
  intros Hs. split.
  - apply Forall_app; split; [apply Forall_app; split; apply le_put_bytes|].
    apply (bool_decide_unpack _). vm_compute. exact I.
  - eexists. by apply (Extract_payload_of test_manager _ 11 s test_coinbase_data).
Qed.

Lemma test_merged b : b ∈ [[2]; [3]] ->
  merged_known test_manager (acceptanceDataFromArrayToMap test_acceptance) b.
Proof.
  intros Hb. apply elem_of_cons in Hb as [->|Hb%list_elem_of_singleton]; [|subst b];
    repeat eexists; try (by apply test_readable); try reflexivity;
    try (apply (bool_decide_unpack _); vm_compute; exact I);
    try (by apply test_readable); repeat constructor; simpl; lia.
Qed.

