(* ===== verification/DaaStore.v ===== *)
(** The store of DAA scores and DAA-added blocks, with its caches, staging and
    commit: [src/domain/consensus/datastructures/daablocksstore/],
    [src/domain/consensus/utils/lrucache/lrucache.go] and
    [src/domain/consensus/database/binaryserialization/].

    The database is a map from a bucket and a hash to bytes, in which a
    transaction's puts and deletes succeed; the only error of a read is a missing
    key.  The two buckets are different, and so are their keys. *)

From S2P Require Import Prelude ScriptError Transaction Sha256 SigHash SigCache Spending TxMass TxHash TxValidator.

(** * Serialisation *)

Inductive StoreError : Set :=
| ErrNotFound
| ErrBadLength.

Definition uint64Length : Z := 8.

Definition SerializeUint64 (value : Z) : bytes := le_put 8 value.

Definition DeserializeUint64 (valueBytes : bytes) : res StoreError Z :=
  if negb (zlen valueBytes =? uint64Length) then Err ErrBadLength else Ok (le_get valueBytes).

(** The hashes are 32-byte arrays, copied one after the other. *)
Definition SerializeHashes (hashes : list bytes) : bytes := concat hashes.

Fixpoint hashes_loop (numHashes : nat) (hashesBytes : bytes) : list bytes :=
  match numHashes with
  | O => []
  | S n => take 32 hashesBytes :: hashes_loop n (drop 32 hashesBytes)
  end.

Definition DeserializeHashes (hashesBytes : bytes) : res StoreError (list bytes) :=
  if negb (zlen hashesBytes mod DomainHashSize =? 0) then Err ErrBadLength else
  Ok (hashes_loop (Z.to_nat (zlen hashesBytes / DomainHashSize)) hashesBytes).

(** * The cache *)

Section store.
Context `{IT : MapIteration}.

(** [iterations_done] counts the iterations over the map, whose order is open. *)
Record LRUCache (V : Type) := mk_LRUCache {
  lru_cache : gmap bytes V;
  lru_capacity : Z;
  iterations_done : nat
}.
Arguments mk_LRUCache {V}.
Arguments lru_cache {V}.
Arguments lru_capacity {V}.
Arguments iterations_done {V}.

Definition lru_New {V} (capacity : Z) : LRUCache V := mk_LRUCache ∅ capacity 0.

Definition lru_Remove {V} (c : LRUCache V) (key : bytes) : LRUCache V :=
  mk_LRUCache (delete key (lru_cache c)) (lru_capacity c) (iterations_done c).

(** An empty map evicts the zero hash, which it does not hold. *)
Definition evictRandom {V} (c : LRUCache V) : LRUCache V :=
  let keyToEvict := match firstKey V (iterations_done c) (lru_cache c) with Some k => k | None => NewZeroHash end in
  lru_Remove (mk_LRUCache (lru_cache c) (lru_capacity c) (S (iterations_done c))) keyToEvict.

Definition lru_Add {V} (c : LRUCache V) (key : bytes) (value : V) : LRUCache V :=
  let c := mk_LRUCache (<[key := value]> (lru_cache c)) (lru_capacity c) (iterations_done c) in
  if Z.of_nat (size (lru_cache c)) >? lru_capacity c then evictRandom c else c.

Definition lru_Get {V} (c : LRUCache V) (key : bytes) : option V := lru_cache c !! key.

Definition lru_Has {V} (c : LRUCache V) (key : bytes) : bool := bool_decide (is_Some (lru_cache c !! key)).

(** * The store *)

Inductive bucket : Set := daaScoreBucket | daaAddedBlocksBucket.

#[local] Instance bucket_eq_dec : EqDecision bucket.
Proof. solve_decision. Defined.
#[local] Instance bucket_countable : Countable bucket.
Proof.
  refine (inj_countable' (fun b => match b with daaScoreBucket => true | _ => false end)
    (fun b : bool => if b then daaScoreBucket else daaAddedBlocksBucket) _). by intros [].
Defined.

Abbreviation database := (gmap (bucket * bytes) bytes).

Record daaBlocksStore := mk_daaBlocksStore {
  daaScoreLRUCache : LRUCache Z;
  daaAddedBlocksLRUCache : LRUCache (list bytes)
}.

Definition store_New (daaScoreCacheSize daaAddedBlocksCacheSize : Z) : daaBlocksStore :=
  mk_daaBlocksStore (lru_New daaScoreCacheSize) (lru_New daaAddedBlocksCacheSize).

Record daaBlocksStagingShard := mk_daaBlocksStagingShard {
  daaScoreToAdd : gmap bytes Z;
  daaAddedBlocksToAdd : gmap bytes (list bytes);
  daaScoreToDelete : gset bytes;
  daaAddedBlocksToDelete : gset bytes
}.

Definition stagingShard : daaBlocksStagingShard := mk_daaBlocksStagingShard ∅ ∅ ∅ ∅.

Definition StageDAAScore (s : daaBlocksStagingShard) (blockHash : bytes) (daaScore : Z) : daaBlocksStagingShard :=
  mk_daaBlocksStagingShard (<[blockHash := daaScore]> (daaScoreToAdd s)) (daaAddedBlocksToAdd s)
    (daaScoreToDelete s) (daaAddedBlocksToDelete s).

Definition StageBlockDAAAddedBlocks (s : daaBlocksStagingShard) (blockHash : bytes) (addedBlocks : list bytes)
  : daaBlocksStagingShard :=
  mk_daaBlocksStagingShard (daaScoreToAdd s) (<[blockHash := addedBlocks]> (daaAddedBlocksToAdd s))
    (daaScoreToDelete s) (daaAddedBlocksToDelete s).

Definition isStaged (s : daaBlocksStagingShard) : bool :=
  negb (bool_decide (daaScoreToAdd s = ∅)) || negb (bool_decide (daaAddedBlocksToAdd s = ∅)) ||
  negb (bool_decide (daaScoreToDelete s = ∅)) || negb (bool_decide (daaAddedBlocksToDelete s = ∅)).

(** Both branches for a hash that is not staged go to the same set. *)
Definition Delete (s : daaBlocksStagingShard) (blockHash : bytes) : daaBlocksStagingShard :=
  let s :=
    if bool_decide (is_Some (daaScoreToAdd s !! blockHash))
    then mk_daaBlocksStagingShard (delete blockHash (daaScoreToAdd s)) (daaAddedBlocksToAdd s)
           (daaScoreToDelete s) (daaAddedBlocksToDelete s)
    else mk_daaBlocksStagingShard (daaScoreToAdd s) (daaAddedBlocksToAdd s)
           (daaScoreToDelete s) ({[blockHash]} ∪ daaAddedBlocksToDelete s) in
  if bool_decide (is_Some (daaAddedBlocksToAdd s !! blockHash))
  then mk_daaBlocksStagingShard (daaScoreToAdd s) (delete blockHash (daaAddedBlocksToAdd s))
         (daaScoreToDelete s) (daaAddedBlocksToDelete s)
  else mk_daaBlocksStagingShard (daaScoreToAdd s) (daaAddedBlocksToAdd s)
         (daaScoreToDelete s) ({[blockHash]} ∪ daaAddedBlocksToDelete s).

Definition db_Get (db : database) (b : bucket) (hash : bytes) : res StoreError bytes :=
  match db !! (b, hash) with Some v => Ok v | None => Err ErrNotFound end.

(** Reads fill the cache. *)
Definition store_DAAScore (db : database) (s : daaBlocksStagingShard) (blockHash : bytes)
  : M StoreError daaBlocksStore Z :=
  match daaScoreToAdd s !! blockHash with
  | Some daaScore => ret daaScore
  | None =>
      let* daas := get in
      match lru_Get (daaScoreLRUCache daas) blockHash with
      | Some daaScore => ret daaScore
      | None =>
          let* daaScoreBytes := lift (db_Get db daaScoreBucket blockHash) in
          let* daaScore := lift (DeserializeUint64 daaScoreBytes) in
          put (mk_daaBlocksStore (lru_Add (daaScoreLRUCache daas) blockHash daaScore) (daaAddedBlocksLRUCache daas)) ;;
          ret daaScore
      end
  end.

Definition store_DAAAddedBlocks (db : database) (s : daaBlocksStagingShard) (blockHash : bytes)
  : M StoreError daaBlocksStore (list bytes) :=
  match daaAddedBlocksToAdd s !! blockHash with
  | Some addedBlocks => ret addedBlocks
  | None =>
      let* daas := get in
      match lru_Get (daaAddedBlocksLRUCache daas) blockHash with
      | Some addedBlocks => ret addedBlocks
      | None =>
          let* addedBlocksBytes := lift (db_Get db daaAddedBlocksBucket blockHash) in
          let* addedBlocks := lift (DeserializeHashes addedBlocksBytes) in
          put (mk_daaBlocksStore (daaScoreLRUCache daas) (lru_Add (daaAddedBlocksLRUCache daas) blockHash addedBlocks)) ;;
          ret addedBlocks
      end
  end.

(** The four loops of [Commit], over the entries in some order. *)
Definition put_all {V} (b : bucket) (serialize : V -> bytes) (entries : list (bytes * V))
    (st : database * LRUCache V) : database * LRUCache V :=
  foldl (fun '(db, c) '(hash, v) => (<[(b, hash) := serialize v]> db, lru_Add c hash v)) st entries.

Definition delete_all {V} (b : bucket) (hashes : list bytes) (st : database * LRUCache V)
  : database * LRUCache V :=
  foldl (fun '(db, c) hash => (delete (b, hash) db, lru_Remove c hash)) st hashes.

Definition Commit (s : daaBlocksStagingShard) (db : database) (daas : daaBlocksStore)
  : database * daaBlocksStore :=
  let '(db, scores) := put_all daaScoreBucket SerializeUint64 (map_to_list (daaScoreToAdd s))
                         (db, daaScoreLRUCache daas) in
  let '(db, added) := put_all daaAddedBlocksBucket SerializeHashes (map_to_list (daaAddedBlocksToAdd s))
                        (db, daaAddedBlocksLRUCache daas) in
  let '(db, scores) := delete_all daaScoreBucket (elements (daaScoreToDelete s)) (db, scores) in
  let '(db, added) := delete_all daaAddedBlocksBucket (elements (daaAddedBlocksToDelete s)) (db, added) in
  (db, mk_daaBlocksStore scores added).


(** * What the store holds *)

(** The entries of a bucket, and a cache that holds some of them. *)
Definition holds {V} (b : bucket) (serialize : V -> bytes) (m : gmap bytes V) (db : database) : Prop :=
  forall h, db !! (b, h) = serialize <$> m !! h.

Definition cache_sub {V} (c : LRUCache V) (m : gmap bytes V) : Prop := lru_cache c ⊆ m.

Lemma lru_Remove_sub {V} (c : LRUCache V) m k : cache_sub c m -> cache_sub (lru_Remove c k) (delete k m).
Proof. intros Hc. by apply delete_mono. Qed.

Lemma evictRandom_sub {V} (c : LRUCache V) m : cache_sub c m -> cache_sub (evictRandom c) m.
Proof. intros Hc. unfold cache_sub, evictRandom. simpl. etransitivity; [apply delete_subseteq|exact Hc]. Qed.

Lemma lru_Add_sub {V} (c : LRUCache V) m k v : cache_sub c m -> cache_sub (lru_Add c k v) (<[k := v]> m).
Proof.
  intros Hc. unfold lru_Add. set (c' := mk_LRUCache _ _ _).
  assert (cache_sub c' (<[k := v]> m)) by (by apply insert_mono). case_match; [by apply evictRandom_sub|done].
Qed.

Lemma lru_Add_known {V} (c : LRUCache V) m k v : m !! k = Some v -> cache_sub c m -> cache_sub (lru_Add c k v) m.
Proof. intros Hk Hc. rewrite <- (insert_id m k v) by done. by apply lru_Add_sub. Qed.

Lemma put_all_ok {V} b (serialize : V -> bytes) l m db c db' c' :
  holds b serialize m db -> cache_sub c m -> put_all b serialize l (db, c) = (db', c') ->
  holds b serialize (foldl (fun m kv => <[kv.1 := kv.2]> m) m l) db' /\
  cache_sub c' (foldl (fun m kv => <[kv.1 := kv.2]> m) m l) /\
  (forall b' h, b' <> b -> db' !! (b', h) = db !! (b', h)).
Proof.
  revert m db c. induction l as [|[k v] l IH]; intros m db c Hh Hc; [by intros [= <- <-]|].
  intros Hp. change (put_all b serialize ((k, v) :: l) (db, c)) with
    (put_all b serialize l (<[(b, k) := serialize v]> db, lru_Add c k v)) in Hp.
  apply (IH (<[k := v]> m)) in Hp as (H1 & H2 & H3); [| |by apply lru_Add_sub].
  - split_and!; [done|done|]. intros b' h Hb. rewrite H3 by done. apply lookup_insert_ne. congruence.
  - intros h. destruct (decide (h = k)) as [->|Hne].
    + by rewrite !lookup_insert_eq.
    + rewrite !lookup_insert_ne by congruence. apply Hh.
Qed.

Lemma delete_all_ok {V} b (serialize : V -> bytes) l m db (c : LRUCache V) db' c' :
  holds b serialize m db -> cache_sub c m -> delete_all b l (db, c) = (db', c') ->
  holds b serialize (foldl (fun m k => delete k m) m l) db' /\
  cache_sub c' (foldl (fun m k => delete k m) m l) /\
  (forall b' h, b' <> b -> db' !! (b', h) = db !! (b', h)).
Proof.
  revert m db c. induction l as [|k l IH]; intros m db c Hh Hc; [by intros [= <- <-]|].
  intros Hp. change (delete_all b (k :: l) (db, c)) with (delete_all b l (delete (b, k) db, lru_Remove c k)) in Hp.
  apply (IH (delete k m)) in Hp as (H1 & H2 & H3); [| |by apply lru_Remove_sub].
  - split_and!; [done|done|]. intros b' h Hb. rewrite H3 by done. apply lookup_delete_ne. congruence.
  - intros h. destruct (decide (h = k)) as [->|Hne].
    + by rewrite !lookup_delete_eq.
    + rewrite !lookup_delete_ne by congruence. apply Hh.
Qed.

Lemma foldl_insert_lookup {V} (l : list (bytes * V)) m h :
  NoDup l.*1 ->
  foldl (fun m kv => <[kv.1 := kv.2]> m) m l !! h = ((list_to_map l : gmap bytes V) ∪ m) !! h.
Proof.
  revert m. induction l as [|[k v] l IH]; intros m Hnd; simpl; [by rewrite map_empty_union|].
  apply NoDup_cons in Hnd as [Hni Hnd]. rewrite IH by done.
  f_equal. rewrite <- insert_union_l, <- insert_union_r; [done|]. by apply not_elem_of_list_to_map_1.
Qed.

Lemma foldl_delete_lookup {V} (l : list bytes) (m : gmap bytes V) h :
  foldl (fun m k => delete k m) m l !! h = if bool_decide (h ∈ l) then None else m !! h.
Proof.
  revert m. induction l as [|k l IH]; intros m; simpl; [done|]. rewrite IH.
  destruct (decide (h = k)) as [->|Hne].
  - rewrite lookup_delete_eq. rewrite (bool_decide_true (k ∈ k :: l)) by set_solver. by case_bool_decide.
  - rewrite lookup_delete_ne by congruence. do 2 case_bool_decide; set_solver.
Qed.

(** A shard's effect on one of the maps. *)
Definition staged {V} (toAdd : gmap bytes V) (toDelete : gset bytes) (m : gmap bytes V) (h : bytes) : option V :=
  if bool_decide (h ∈ toDelete) then None else (toAdd ∪ m) !! h.

(** The contents of the store: what its database represents and its caches agree with. *)
Record store_ok (scores : gmap bytes Z) (added : gmap bytes (list bytes)) (db : database) (daas : daaBlocksStore)
  : Prop := {
  ok_scores : holds daaScoreBucket SerializeUint64 scores db;
  ok_added : holds daaAddedBlocksBucket SerializeHashes added db;
  ok_score_cache : cache_sub (daaScoreLRUCache daas) scores;
  ok_added_cache : cache_sub (daaAddedBlocksLRUCache daas) added;
  ok_score_range : forall h x, scores !! h = Some x -> 0 <= x < 2 ^ 64;
  ok_added_hashes : forall h l, added !! h = Some l -> Forall (fun x => length x = 32%nat) l
}.

Lemma Uint64_roundtrip x : 0 <= x < 2 ^ 64 -> DeserializeUint64 (SerializeUint64 x) = Ok x.
Proof.
  intros Hx. unfold DeserializeUint64, SerializeUint64, zlen. rewrite length_le_put, le_get_put. simpl.
  by rewrite Z.mod_small.
Qed.

Lemma Hashes_roundtrip l : Forall (fun x => length x = 32%nat) l -> DeserializeHashes (SerializeHashes l) = Ok l.
Proof.
  intros Hl. unfold DeserializeHashes, SerializeHashes.
  assert (zlen (concat l) = zlen l * DomainHashSize) as ->.
  { unfold DomainHashSize. induction Hl as [|x l Hx Hl IH]; [done|]. simpl. rewrite zlen_app, zlen_cons, IH.
    unfold zlen at 1. rewrite Hx. lia. }
  rewrite Z.mod_mul, Z.div_mul by done. simpl. f_equal. unfold zlen. rewrite Nat2Z.id.
  induction Hl as [|x l Hx Hl IH]; [done|]. simpl. rewrite take_app_length', drop_app_length' by done. by rewrite IH.
Qed.

Definition found {V} (o : option V) : res StoreError V :=
  match o with Some v => Ok v | None => Err ErrNotFound end.

Lemma store_DAAScore_ok scores added db daas s h :
  store_ok scores added db daas ->
  exists daas', store_DAAScore db s h daas = (found ((daaScoreToAdd s ∪ scores) !! h), daas') /\
    store_ok scores added db daas'.
Proof.
  intros Hok. unfold store_DAAScore. rewrite lookup_union. destruct (daaScoreToAdd s !! h) as [x|] eqn:Ha.
  { exists daas. split; [|done]. by destruct (scores !! h). }
  rewrite (left_id_L None _). unfold bind, get, lru_Get. destruct (lru_cache (daaScoreLRUCache daas) !! h) as [x|] eqn:Hc.
  { exists daas. split; [|done]. by rewrite (lookup_weaken _ _ _ _ Hc (ok_score_cache _ _ _ _ Hok)). }
  unfold db_Get. rewrite (ok_scores _ _ _ _ Hok h). destruct (scores !! h) as [x|] eqn:Hx; cbn [fmap option_fmap option_map]; unfold lift; [|by exists daas].
  rewrite Uint64_roundtrip by (by eapply ok_score_range). eexists. split; [done|].
  destruct Hok. split; simpl; try done. by apply lru_Add_known.
Qed.

Lemma store_DAAAddedBlocks_ok scores added db daas s h :
  store_ok scores added db daas ->
  exists daas', store_DAAAddedBlocks db s h daas = (found ((daaAddedBlocksToAdd s ∪ added) !! h), daas') /\
    store_ok scores added db daas'.
Proof.
  intros Hok. unfold store_DAAAddedBlocks. rewrite lookup_union. destruct (daaAddedBlocksToAdd s !! h) as [x|] eqn:Ha.
  { exists daas. split; [|done]. by destruct (added !! h). }
  rewrite (left_id_L None _). unfold bind, get, lru_Get.
  destruct (lru_cache (daaAddedBlocksLRUCache daas) !! h) as [x|] eqn:Hc.
  { exists daas. split; [|done]. by rewrite (lookup_weaken _ _ _ _ Hc (ok_added_cache _ _ _ _ Hok)). }
  unfold db_Get. rewrite (ok_added _ _ _ _ Hok h). destruct (added !! h) as [x|] eqn:Hx; cbn [fmap option_fmap option_map]; unfold lift; [|by exists daas].
  rewrite Hashes_roundtrip by (by eapply ok_added_hashes). eexists. split; [done|].
  destruct Hok. split; simpl; try done. by apply lru_Add_known.
Qed.

(** One bucket through its two loops, the other bucket's writes in between. *)
Lemma bucket_commit {V} (b : bucket) (serialize : V -> bytes) (toAdd : gmap bytes V) (toDelete : gset bytes)
    (m : gmap bytes V) (db db1 db2 db3 : database) (c c1 c3 : LRUCache V) :
  holds b serialize m db -> cache_sub c m ->
  put_all b serialize (map_to_list toAdd) (db, c) = (db1, c1) ->
  (forall h, db2 !! (b, h) = db1 !! (b, h)) ->
  delete_all b (elements toDelete) (db2, c1) = (db3, c3) ->
  exists m', holds b serialize m' db3 /\ cache_sub c3 m' /\ (forall h, m' !! h = staged toAdd toDelete m h).
Proof.
  intros Hh Hc Hp H12 Hd. apply (put_all_ok b serialize _ m) in Hp as (Hh1 & Hc1 & _); [|done|done].
  eapply (delete_all_ok b serialize) in Hd as (Hh3 & Hc3 & _); [|intros h; rewrite H12; apply Hh1|exact Hc1].
  eexists. split_and!; [exact Hh3|exact Hc3|]. intros h. rewrite foldl_delete_lookup. unfold staged.
  rewrite (foldl_insert_lookup (map_to_list toAdd)) by apply NoDup_fst_map_to_list.
  rewrite list_to_map_to_list. destruct (decide (h ∈ toDelete)).
  - by rewrite !bool_decide_true by set_solver.
  - by rewrite !bool_decide_false by set_solver.
Qed.

Definition shard_typed (s : daaBlocksStagingShard) : Prop :=
  map_Forall (fun _ x => 0 <= x < 2 ^ 64) (daaScoreToAdd s) /\
  map_Forall (fun _ l => Forall (fun x : bytes => length x = 32%nat) l) (daaAddedBlocksToAdd s).

Lemma staged_Some {V} (toAdd : gmap bytes V) (toDelete : gset bytes) (m : gmap bytes V) h v :
  staged toAdd toDelete m h = Some v -> toAdd !! h = Some v \/ m !! h = Some v.
Proof. unfold staged. case_bool_decide; [done|]. rewrite lookup_union_Some_raw. tauto. Qed.

Lemma Commit_ok scores added db daas s :
  store_ok scores added db daas -> shard_typed s ->
  exists scores' added' db' daas', Commit s db daas = (db', daas') /\ store_ok scores' added' db' daas' /\
    (forall h, scores' !! h = staged (daaScoreToAdd s) (daaScoreToDelete s) scores h) /\
    (forall h, added' !! h = staged (daaAddedBlocksToAdd s) (daaAddedBlocksToDelete s) added h).
Proof.
  intros Hok [Ht1 Ht2]. unfold Commit.
  destruct (put_all daaScoreBucket _ _ _) as [db1 sc1] eqn:E1.
  destruct (put_all daaAddedBlocksBucket _ _ _) as [db2 ad2] eqn:E2.
  destruct (delete_all daaScoreBucket _ _) as [db3 sc3] eqn:E3.
  destruct (delete_all daaAddedBlocksBucket _ _) as [db4 ad4] eqn:E4.
  destruct (put_all_ok _ _ _ _ _ _ _ _ (ok_scores _ _ _ _ Hok) (ok_score_cache _ _ _ _ Hok) E1) as (H1 & C1 & F1).
  assert (holds daaAddedBlocksBucket SerializeHashes added db1) as A1
    by (intros h; rewrite F1 by done; apply (ok_added _ _ _ _ Hok)).
  destruct (put_all_ok _ _ _ _ _ _ _ _ A1 (ok_added_cache _ _ _ _ Hok) E2) as (H2 & C2 & F2).
  assert (holds daaScoreBucket SerializeUint64 _ db2) as H12 by (intros h; rewrite F2 by done; apply H1).
  destruct (delete_all_ok _ SerializeUint64 _ _ _ _ _ _ H12 C1 E3) as (H3 & C3 & F3).
  destruct (bucket_commit daaScoreBucket SerializeUint64 (daaScoreToAdd s) (daaScoreToDelete s) scores db
    db1 db2 db3 (daaScoreLRUCache daas) sc1 sc3) as (scores' & S1 & S2 & S3);
    [apply Hok|apply Hok|done|intros h; by apply F2|done|].
  destruct (bucket_commit daaAddedBlocksBucket SerializeHashes (daaAddedBlocksToAdd s) (daaAddedBlocksToDelete s)
    added db1 db2 db3 db4 (daaAddedBlocksLRUCache daas) ad2 ad4) as (added' & D1 & D2 & D3);
    [done|apply Hok|done|intros h; by apply F3|done|].
  assert (holds daaAddedBlocksBucket SerializeHashes
    (foldl (fun m kv => <[kv.1 := kv.2]> m) added (map_to_list (daaAddedBlocksToAdd s))) db3) as H23
    by (intros h; rewrite F3 by done; apply H2).
  destruct (delete_all_ok _ SerializeHashes _ _ _ _ _ _ H23 C2 E4) as (_ & _ & F4).
  exists scores', added', db4, (mk_daaBlocksStore sc3 ad4). split; [done|]. split; [|done].
  split; [intros h; rewrite F4 by done; apply S1|done|done|done|..]; intros h x Hx.
  - rewrite S3 in Hx. apply staged_Some in Hx as [Hx|Hx]; [by apply (Ht1 h)|by apply (ok_score_range _ _ _ _ Hok h)].
  - rewrite D3 in Hx. apply staged_Some in Hx as [Hx|Hx]; [by apply (Ht2 h)|by apply (ok_added_hashes _ _ _ _ Hok h)].
Qed.

(** C37: The store is a map.  A read gives what is staged, else what was committed,
    whatever the caches hold or evict; reading changes nothing another read can
    see; and committing a shard turns its staged values into committed ones and
    removes what it deletes. *)
Theorem daa_store_refines scores added db daas s :
  store_ok scores added db daas -> shard_typed s ->
  (forall h, exists daas', store_DAAScore db s h daas = (found ((daaScoreToAdd s ∪ scores) !! h), daas') /\
     store_ok scores added db daas') /\
  (forall h, exists daas', store_DAAAddedBlocks db s h daas = (found ((daaAddedBlocksToAdd s ∪ added) !! h), daas') /\
     store_ok scores added db daas') /\
  exists scores' added' db' daas', Commit s db daas = (db', daas') /\ store_ok scores' added' db' daas' /\
    (forall h, scores' !! h = staged (daaScoreToAdd s) (daaScoreToDelete s) scores h) /\
    (forall h, added' !! h = staged (daaAddedBlocksToAdd s) (daaAddedBlocksToDelete s) added h).
Proof.
  intros Hok Ht. split_and!; [intros h; by apply store_DAAScore_ok|intros h; by apply store_DAAAddedBlocks_ok|].
  by apply Commit_ok.
Qed.

Lemma Delete_unstaged h :
  Delete stagingShard h = mk_daaBlocksStagingShard ∅ ∅ ∅ ({[h]} ∪ ({[h]} ∪ ∅)).
Proof.
  assert (forall V, bool_decide (is_Some ((∅ : gmap bytes V) !! h)) = false) as He
    by (intros V; rewrite lookup_empty; by apply bool_decide_false, is_Some_None).
  unfold Delete. cbn [daaScoreToAdd stagingShard]. rewrite He. cbn [daaAddedBlocksToAdd]. by rewrite He.
Qed.

(** C38: Deleting a committed block deletes its DAA-added blocks and keeps its DAA
    score: after the commit the score is still read. *)
Theorem daa_delete_keeps_score scores added db daas h x :
  store_ok scores added db daas -> scores !! h = Some x ->
  let '(db', daas') := Commit (Delete stagingShard h) db daas in
  fst (store_DAAScore db' stagingShard h daas') = Ok x /\
  fst (store_DAAAddedBlocks db' stagingShard h daas') = Err ErrNotFound.
Proof.
  intros Hok Hx. destruct (Commit_ok scores added db daas (Delete stagingShard h) Hok) as
    (scores' & added' & db' & daas' & -> & Hok' & Hs & Ha).
  { rewrite Delete_unstaged. split; apply map_Forall_empty. }
  destruct (store_DAAScore_ok _ _ _ _ stagingShard h Hok') as (d1 & -> & _).
  destruct (store_DAAAddedBlocks_ok _ _ _ _ stagingShard h Hok') as (d2 & -> & _). simpl.
  rewrite !map_empty_union, Hs, Ha, Delete_unstaged. unfold staged. simpl.
  rewrite bool_decide_false by set_solver. rewrite bool_decide_true by set_solver.
  by rewrite map_empty_union, Hx.
Qed.

(** The interface that the validators and the coinbase manager read scores
    through, given by the store, and what it promises them. *)
Definition daa_interface (db : database) (s : daaBlocksStagingShard) (daas : daaBlocksStore) : DAABlocksStore := {|
  DAAScore h := match fst (store_DAAScore db s h daas) with Ok x => Ok x | _ => Err ErrStore end
|}.

Lemma daa_interface_reads scores added db daas s h x :
  store_ok scores added db daas ->
  @DAAScore (daa_interface db s daas) h = Ok x <-> (daaScoreToAdd s ∪ scores) !! h = Some x.
Proof.
  intros Hok. simpl. destruct (store_DAAScore_ok _ _ _ _ s h Hok) as (daas' & -> & _).
  destruct (_ !! h); simpl; split; congruence.
Qed.
End store.

(** * Witnesses *)

#[local] Existing Instance test_iteration.

Definition test_shard : daaBlocksStagingShard :=
  StageBlockDAAAddedBlocks (StageDAAScore stagingShard (replicate 32 1) 7) (replicate 32 1) [replicate 32 2].

(** Caches without capacity, so that every read goes to the database. *)
Lemma empty_store_ok : store_ok ∅ ∅ ∅ (store_New 0 0).
Proof. split; try (intros h; done); try (intros h x; by rewrite lookup_empty); done. Qed.

Lemma test_shard_typed : shard_typed test_shard.
Proof.
  split; apply map_Forall_insert_2; try apply map_Forall_empty; [done|by repeat constructor].
Qed.

Lemma daa_store_refines_witness :
  exists daas', store_DAAScore ∅ test_shard (replicate 32 1) (store_New 0 0) = (Ok 7, daas').
Proof.
  destruct (proj1 (daa_store_refines ∅ ∅ ∅ (store_New 0 0) test_shard empty_store_ok test_shard_typed)
    (replicate 32 1)) as (daas' & H & _). exists daas'. exact H.
Defined.

Lemma one_score_ok :
  store_ok {[replicate 32 1 := 7]} ∅ {[(daaScoreBucket, replicate 32 1) := le_put 8 7]} (store_New 0 0).
Proof.
  split; try apply map_empty_subseteq.
  - intros h. destruct (decide (h = replicate 32 1)) as [->|Hne]; [by rewrite !lookup_singleton_eq|].
    rewrite !lookup_singleton_ne by congruence. done.
  - intros h. by rewrite lookup_singleton_ne.
  - intros h x [_ <-]%lookup_singleton_Some. done.
  - intros h x. by rewrite lookup_empty.
Qed.

Lemma daa_delete_keeps_score_witness :
  let '(db', daas') := Commit (Delete stagingShard (replicate 32 1))
    {[(daaScoreBucket, replicate 32 1) := le_put 8 7]} (store_New 0 0) in
  fst (store_DAAScore db' stagingShard (replicate 32 1) daas') = Ok 7 /\
  fst (store_DAAAddedBlocks db' stagingShard (replicate 32 1) daas') = Err ErrNotFound.
Proof. apply (daa_delete_keeps_score _ ∅ _ (store_New 0 0) (replicate 32 1) 7 one_score_ok). done. Defined.
