(* ===== verification/Merkle.v ===== *)
(** Merkle roots over transaction hashes and identifiers:
    [src/domain/consensus/utils/merkle/merkle.go].

    The code fills a linear array; [reference_root] hashes a list pair by pair
    until one hash is left.  The two agree, and the root commits to the list. *)

From S2P Require Import Prelude ScriptError Transaction Sha256 SigHash TxMass TxHash.

(** * Operations *)

(** [math.Log2] of an integer below 2^47, cut to an integer, is the exact
    integer logarithm: the nearest doubles below a power of two are not rounded
    up to it before that. *)
Definition nextPowerOfTwo (n : Z) : Z :=
  if Z.land n (n - 1) =? 0 then n else
  let exponent := Z.log2 n + 1 in
  Z.shiftl 1 exponent.

Definition merkleBranchDomain : string := "MerkleBranchHash".

Section merkle.
Context `{C : Crypto}.

Definition hashMerkleBranches (left right : bytes) : bytes :=
  Finalize_copy (blake2b_New256 (string_bytes merkleBranchDomain) (left ++ right)).

(** Assignment to an element of a slice. *)
Definition store {E A} (l : list A) (i : Z) (x : A) : res E (list A) :=
  if (0 <=? i) && (i <? zlen l) then Ok (<[Z.to_nat i := x]> l) else Panic.

(** The parent of two nodes, [None] for nil. *)
Definition merkle_parent (l r : option bytes) : option bytes :=
  match l, r with
  | None, _ => None
  | Some l, None => Some (hashMerkleBranches l NewZeroHash)
  | Some l, Some r => Some (hashMerkleBranches l r)
  end.

(** [iterations] rounds of the loop over [i]. *)
Fixpoint merkle_loop {E} (iterations : nat) (i offset : Z) (merkles : list (option bytes))
  : res E (list (option bytes)) :=
  match iterations with
  | O => Ok merkles
  | S iterations' =>
      let? l := index_res merkles i in
      let? r := (match l with None => Ok None | Some _ => index_res merkles (i + 1) end) in
      let? merkles' := store merkles offset (merkle_parent l r) in
      merkle_loop iterations' (i + 2) (offset + 1) merkles'
  end.

(** [make] panics on a negative size, the size of a tree without leaves. *)
Definition merkleRoot {E} (hashes : list bytes) : res E (option bytes) :=
  let nextPoT := nextPowerOfTwo (zlen hashes) in
  let arraySize := nextPoT * 2 - 1 in
  if arraySize <? 0 then Panic else
  let merkles := copy_slice (replicate (Z.to_nat arraySize) None) (map Some hashes) in
  let? merkles' := merkle_loop (Z.to_nat (arraySize / 2)) 0 nextPoT merkles in
  index_res merkles' (zlen merkles' - 1).

Definition CalculateHashMerkleRoot {E} (transactions : list DomainTransaction) : res E (option bytes) :=
  merkleRoot (map TransactionHash transactions).

Definition CalculateIDMerkleRoot {E} (transactions : list DomainTransaction) : res E (option bytes) :=
  if zlen transactions =? 0 then Ok (Some NewZeroHash) else
  merkleRoot (fst (TransactionIDs transactions)).

End merkle.

(** * The reference: one level of the tree after the other *)

Section reference.
Context `{C : Crypto}.

Fixpoint pair_up (l : list bytes) : list bytes :=
  match l with
  | [] => []
  | [a] => [hashMerkleBranches a NewZeroHash]
  | a :: b :: l' => hashMerkleBranches a b :: pair_up l'
  end.

Fixpoint levels (k : nat) (l : list bytes) : list bytes :=
  match k with O => l | S k' => levels k' (pair_up l) end.

(** The height of the tree over [n] leaves. *)
Definition height (n : Z) : nat := Z.to_nat (Z.log2_up n).

Definition reference_root (l : list bytes) : option bytes := head (levels (height (zlen l)) l).

Lemma land_pred_power n : 0 < n -> Z.land n (n - 1) = 0 -> n = 2 ^ Z.log2 n.
Proof.
  intros Hn H0. pose proof (Z.log2_spec n Hn) as [Hlo Hhi]. pose proof (Z.log2_nonneg n).
  destruct (decide (n = 2 ^ Z.log2 n)) as [|Hne]; [done|]. exfalso.
  assert (Z.log2 (n - 1) = Z.log2 n) as Hl by (apply Z.log2_unique; lia).
  assert (Z.testbit (Z.land n (n - 1)) (Z.log2 n) = true) as Hb.
  { rewrite Z.land_spec, Z.bit_log2 by lia. rewrite <- Hl at 1. by rewrite Z.bit_log2 by lia. }
  by rewrite H0, Z.testbit_0_l in Hb.
Qed.

Lemma nextPowerOfTwo_spec n : 0 < n -> nextPowerOfTwo n = 2 ^ Z.of_nat (height n).
Proof.
  intros Hn. unfold nextPowerOfTwo, height. rewrite Z2Nat.id by apply Z.log2_up_nonneg.
  pose proof (Z.log2_nonneg n). destruct (Z.eqb_spec (Z.land n (n - 1)) 0) as [H0|H0].
  - apply land_pred_power in H0; [|done]. rewrite H0 at 2. rewrite Z.log2_up_pow2 by lia. done.
  - rewrite Z.shiftl_mul_pow2, Z.mul_1_l by lia. f_equal.
    destruct (decide (n = 2 ^ Z.log2 n)) as [Hp|Hp].
    + exfalso. apply H0. rewrite Hp. replace (_ - 1) with (Z.ones (Z.log2 n)) by (rewrite Z.ones_equiv; lia).
      rewrite Z.land_ones, Z.mod_same; lia.
    + symmetry. apply Z.log2_up_unique; [lia|]. pose proof (Z.log2_spec n Hn) as Hs.
      rewrite <- Z.add_1_r in Hs. replace (Z.pred (Z.log2 n + 1)) with (Z.log2 n) by lia. lia.
Qed.

(** ** The array holds the levels one after the other *)

(** A level padded with nils to a given length. *)
Definition padded (n : nat) (l : list bytes) : list (option bytes) :=
  map Some l ++ replicate (n - length l) None.

Lemma store_app {E A} (pre post : list A) x y i :
  i = zlen pre -> @store E A (pre ++ x :: post) i y = Ok (pre ++ y :: post).
Proof.
  intros ->. unfold store.
  rewrite (proj2 (Z.leb_le 0 _)), (proj2 (Z.ltb_lt _ _)) by zlia. simpl.
  unfold zlen. rewrite Nat2Z.id, insert_app_r_alt, Nat.sub_diag by lia. done.
Qed.

Lemma merkle_step {E} n pre a b rest mid x tail i offset :
  i = zlen pre -> offset = zlen pre + 2 + zlen rest + zlen mid ->
  @merkle_loop _ E (S n) i offset (pre ++ (a :: b :: rest) ++ mid ++ x :: tail) =
  merkle_loop n (i + 2) (offset + 1) (pre ++ (a :: b :: rest) ++ mid ++ merkle_parent a b :: tail).
Proof.
  intros Hi Ho. simpl merkle_loop. unfold index_res at 1. rewrite lookupZ_app_r by done. cbn [bind_res].
  assert (forall y, pre ++ a :: b :: rest ++ mid ++ y :: tail = (pre ++ a :: b :: rest ++ mid) ++ y :: tail) as Hy.
  { intros y. rewrite <- !app_assoc. simpl. by rewrite <- !app_assoc. }
  assert (lookupZ (pre ++ a :: b :: rest ++ mid ++ x :: tail) (i + 1) = Some b) as Hb.
  { change (a :: b :: rest ++ mid ++ x :: tail) with ([a] ++ b :: rest ++ mid ++ x :: tail).
    rewrite app_assoc. apply lookupZ_app_r. rewrite zlen_app, zlen_cons, zlen_nil. lia. }
  assert (offset = zlen (pre ++ a :: b :: rest ++ mid)) by zlia.
  destruct a as [a|]; cbn [bind_res]; [unfold index_res; rewrite Hb; cbn [bind_res]|];
    rewrite Hy, store_app by done; cbn [bind_res]; by rewrite <- Hy.
Qed.

Fixpoint parents (l : list (option bytes)) : list (option bytes) :=
  match l with
  | a :: b :: l' => merkle_parent a b :: parents l'
  | _ => []
  end.

(** One level of the array is read and the next one written behind it. *)
Lemma merkle_level {E} q : forall n r pre lvl mid, length lvl = (2 * q)%nat ->
  @merkle_loop _ E (q + n) (zlen pre) (zlen pre + zlen lvl + zlen mid)
    (pre ++ lvl ++ mid ++ replicate (q + r) None) =
  merkle_loop n (zlen (pre ++ lvl)) (zlen (pre ++ lvl) + zlen (mid ++ parents lvl))
    ((pre ++ lvl) ++ (mid ++ parents lvl) ++ replicate r None).
Proof.
  induction q as [|q IH]; intros n r pre lvl mid Hl.
  { apply nil_length_inv in Hl as ->. simpl. rewrite !app_nil_r. f_equal. zlia. }
  destruct lvl as [|a [|b lvl]]; simpl in Hl; [lia|lia|].
  change (S q + n)%nat with (S (q + n)). change (S q + r)%nat with (S (q + r)). simpl replicate.
  rewrite merkle_step by zlia.
  replace (pre ++ (a :: b :: lvl) ++ mid ++ merkle_parent a b :: replicate (q + r) None)
    with ((pre ++ [a; b]) ++ lvl ++ (mid ++ [merkle_parent a b]) ++ replicate (q + r) None)
    by (by rewrite <- !app_assoc).
  specialize (IH n r (pre ++ [a; b]) lvl (mid ++ [merkle_parent a b]) ltac:(lia)).
  replace (zlen pre + 2) with (zlen (pre ++ [a; b])) by zlia.
  replace (zlen pre + zlen (a :: b :: lvl) + zlen mid + 1)
    with (zlen (pre ++ [a; b]) + zlen lvl + zlen (mid ++ [merkle_parent a b])) by zlia.
  rewrite IH. simpl parents. by rewrite <- !app_assoc.
Qed.

Lemma length_parents q l : length l = (2 * q)%nat -> length (parents l) = q.
Proof.
  revert l. induction q as [|q IH]; intros [|a [|b l]] Hl; simpl in *; try lia. rewrite IH; lia.
Qed.

Lemma merkle_levels {E} k : forall pre lvl, length lvl = (2 ^ k)%nat ->
  exists pre' root, Nat.iter k parents lvl = [root] /\
    @merkle_loop _ E (2 ^ k - 1) (zlen pre) (zlen pre + zlen lvl) (pre ++ lvl ++ replicate (2 ^ k - 1) None) =
      Ok (pre' ++ [root]).
Proof.
  induction k as [|k IH]; intros pre lvl Hl.
  { destruct lvl as [|root [|? ?]]; simpl in Hl; try lia. exists pre, root. simpl. by rewrite ?app_nil_r. }
  assert (length lvl = 2 * 2 ^ k)%nat as Hl2 by (simpl in Hl; lia).
  destruct (IH (pre ++ lvl) (parents lvl)) as (pre' & root & Hr & Hm); [by apply length_parents|].
  exists pre', root. split; [by rewrite Nat.iter_succ_r|].
  pose proof (Nat.pow_nonzero 2 k ltac:(done)).
  replace (2 ^ S k - 1)%nat with (2 ^ k + (2 ^ k - 1))%nat by (simpl; lia).
  pose proof (merkle_level (E:=E) (2 ^ k) (2 ^ k - 1) (2 ^ k - 1) pre lvl [] Hl2) as H1.
  rewrite app_nil_l, Z.add_0_r in H1. rewrite H1. by rewrite app_nil_l.
Qed.

(** Levels with their padding. *)
Lemma parents_padded q l : (length l <= 2 * q)%nat -> parents (padded (2 * q) l) = padded q (pair_up l).
Proof.
  revert l. induction q as [|q IH]; intros l Hl.
  { destruct l; [done|simpl in Hl; lia]. }
  replace (2 * S q)%nat with (S (S (2 * q))) by lia. destruct l as [|a [|b l]]; simpl in Hl.
  - unfold padded. simpl. f_equal. specialize (IH [] ltac:(simpl; lia)). unfold padded in IH. simpl in IH.
    by rewrite !Nat.sub_0_r in IH.
  - unfold padded. simpl. f_equal. specialize (IH [] ltac:(simpl; lia)). unfold padded in IH. simpl in IH.
    rewrite !Nat.sub_0_r in IH. by rewrite Nat.sub_0_r.
  - change (padded (S (S (2 * q))) (a :: b :: l)) with (Some a :: Some b :: padded (2 * q) l).
    cbn [parents merkle_parent]. by rewrite IH by lia.
Qed.

Lemma length_pair_up q l : (length l <= 2 * q)%nat -> (length (pair_up l) <= q)%nat.
Proof.
  revert l. induction q as [|q IH]; intros [|a [|b l]] Hl; simpl in *; try lia.
  specialize (IH l ltac:(lia)). lia.
Qed.

Lemma levels_padded k : forall l, (length l <= 2 ^ k)%nat ->
  Nat.iter k parents (padded (2 ^ k) l) = padded 1 (levels k l) /\ (length (levels k l) <= 1)%nat.
Proof.
  induction k as [|k IH]; intros l Hl; [done|]. rewrite Nat.iter_succ_r. simpl levels.
  replace (2 ^ S k)%nat with (2 * 2 ^ k)%nat in * by (simpl; lia).
  rewrite parents_padded by done. by apply IH, length_pair_up.
Qed.

Lemma pair_up_nonempty l : l <> [] -> pair_up l <> [].
Proof. by destruct l as [|a [|b l]]. Qed.

Lemma height_enough (l : list bytes) : l <> [] -> (length l <= 2 ^ height (zlen l))%nat.
Proof.
  intros Hne. apply Nat2Z.inj_le. rewrite Nat2Z.inj_pow. unfold height. rewrite Z2Nat.id by apply Z.log2_up_nonneg.
  fold (zlen l). destruct l as [|a [|b l]]; [done|done|]. apply Z.log2_up_spec. zlia.
Qed.

Lemma levels_single l : l <> [] -> exists root, levels (height (zlen l)) l = [root].
Proof.
  intros Hne. pose proof (levels_padded _ l (height_enough l Hne)) as [_ H1].
  assert (forall k m, m <> [] -> levels k m <> []) as Hnn.
  { intros k. induction k as [|k IH]; intros m Hm; [done|]. by apply IH, pair_up_nonempty. }
  specialize (Hnn (height (zlen l)) l Hne).
  destruct (levels _ _) as [|root [|? ?]]; simpl in H1; [done|by exists root|lia].
Qed.

(** The array and the reference agree. *)
Lemma merkleRoot_reference {E} l : l <> [] -> @merkleRoot _ E l = Ok (reference_root l).
Proof.
  intros Hne. assert (0 < zlen l) as Hpos by (destruct l; [done|zlia]).
  pose proof (height_enough l Hne) as Hl. set (k := height (zlen l)) in *.
  unfold merkleRoot. rewrite nextPowerOfTwo_spec by done. fold k.
  pose proof (Nat.pow_nonzero 2 k ltac:(done)).
  replace (2 ^ Z.of_nat k) with (Z.of_nat (2 ^ k)) by (by rewrite Nat2Z.inj_pow).
  rewrite (proj2 (Z.ltb_ge _ 0)) by lia.
  assert (copy_slice (replicate (Z.to_nat (Z.of_nat (2 ^ k) * 2 - 1)) None) (map Some l) =
    [] ++ padded (2 ^ k) l ++ replicate (2 ^ k - 1) None) as ->.
  { unfold copy_slice, padded. rewrite length_replicate, length_map, take_ge by (rewrite length_map; lia).
    rewrite drop_replicate, <- app_assoc, <- replicate_add, app_nil_l. do 2 f_equal. lia. }
  assert (length (padded (2 ^ k) l) = 2 ^ k)%nat as Hp.
  { unfold padded. rewrite length_app, length_map, length_replicate. lia. }
  destruct (merkle_levels (E:=E) k [] (padded (2 ^ k) l) Hp) as (pre & root & Hr & Hm).
  replace (Z.to_nat ((Z.of_nat (2 ^ k) * 2 - 1) / 2)) with (2 ^ k - 1)%nat.
  2: { replace (Z.of_nat (2 ^ k) * 2 - 1) with (1 + (Z.of_nat (2 ^ k) - 1) * 2) by lia.
       rewrite Z.div_add by done. change (1 / 2) with 0. lia. }
  replace (Z.of_nat (2 ^ k)) with (zlen (@nil (option bytes)) + zlen (padded (2 ^ k) l)) by (unfold zlen; rewrite Hp; simpl; lia).
  change 0 with (zlen (@nil (option bytes))) at 1. rewrite Hm. cbn [bind_res].
  unfold index_res. rewrite lookupZ_app_r by zlia. f_equal.
  rewrite (proj1 (levels_padded k l Hl)) in Hr. destruct (levels_single l Hne) as [r Hs]. fold k in Hs.
  unfold reference_root. fold k. rewrite Hs in *. unfold padded in Hr. simpl in Hr. by injection Hr as <-.
Qed.

(** ** The root commits to the leaves *)

Definition branch (written : bytes) : bytes :=
  Finalize_copy (blake2b_New256 (string_bytes merkleBranchDomain) written).

(** What is written to the branch hash for one level, and for all of them. *)
Fixpoint level_inputs (l : list bytes) : list bytes :=
  match l with
  | [] => []
  | [a] => [a ++ NewZeroHash]
  | a :: b :: l' => (a ++ b) :: level_inputs l'
  end.

Fixpoint tree_inputs (k : nat) (l : list bytes) : list bytes :=
  match k with O => [] | S k' => level_inputs l ++ tree_inputs k' (pair_up l) end.

Lemma list_pair_ind (P : list bytes -> Prop) :
  P [] -> (forall a, P [a]) -> (forall a b l, P l -> P (a :: b :: l)) -> forall l, P l.
Proof.
  intros H0 H1 H2. assert (forall n l, (length l <= n)%nat -> P l) as H; [|intros l; by eapply H].
  induction n as [|n IH]; intros [|a [|b l]] Hl; simpl in *; try lia; auto. apply H2, IH. lia.
Qed.

Lemma pair_up_map l : pair_up l = map branch (level_inputs l).
Proof. induction l as [|a|a b l IH] using list_pair_ind; [done|done|]. simpl. by rewrite IH. Qed.

Definition hashes32 (l : list bytes) : Prop := Forall (fun h => length h = 32%nat) l.

Lemma length_Finalize_copy sum : length (Finalize_copy sum) = 32%nat.
Proof.
  unfold Finalize_copy, copy_slice, NewZeroHash. rewrite length_app, length_take, length_drop, length_replicate. lia.
Qed.

Lemma pair_up_32 l : hashes32 (pair_up l).
Proof. rewrite pair_up_map. apply Forall_map, Forall_true. intros x. apply length_Finalize_copy. Qed.

(** The inputs of a level determine it, but for a zero hash at its end. *)
Lemma level_inputs_inj l : forall l', hashes32 l -> hashes32 l' -> level_inputs l = level_inputs l' ->
  NewZeroHash ∈ l ++ l' \/ l = l'.
Proof.
  induction l as [|a|a b l IH] using list_pair_ind; intros [|a' [|b' l']] H1 H2 He; simpl in He; try done;
    [by right|..]; unfold hashes32 in *; decompose_Forall_hyps;
    match goal with He : _ ++ _ = _ ++ _ |- _ => apply app_inj_1 in He as [? ?]; [subst|congruence] end.
  - by right.
  - left. rewrite !elem_of_cons. tauto.
  - left. rewrite !elem_of_cons. tauto.
  - destruct (IH l') as [Hz|Hll]; [done..|left|right; by subst].
    rewrite elem_of_app in Hz. rewrite !elem_of_cons, elem_of_app, !elem_of_cons. tauto.
Qed.

Lemma levels_pair_up k l : levels k (pair_up l) = pair_up (levels k l).
Proof. revert l. induction k as [|k IH]; intros l; [done|]. simpl. by rewrite IH. Qed.

Lemma levels_32 d l : hashes32 l -> hashes32 (levels d l).
Proof. destruct d; [done|]. intros _. simpl. rewrite levels_pair_up. apply pair_up_32. Qed.

Lemma level_inputs_in k : forall d l x, (d < k)%nat -> x ∈ level_inputs (levels d l) -> x ∈ tree_inputs k l.
Proof.
  induction k as [|k IH]; intros d l x Hd Hx; [lia|]. simpl. rewrite elem_of_app.
  destruct d as [|d]; [by left|]. right. apply (IH d); [lia|done].
Qed.

Section injective.
(** No two of the inputs [I] collide and none hashes to zero. *)
Variable I : bytes -> Prop.
Hypothesis HI : forall x y, I x -> I y -> branch x = branch y -> x = y.
Hypothesis HZ : forall x, I x -> branch x <> NewZeroHash.

Lemma pair_up_no_zero l : (forall x, x ∈ level_inputs l -> I x) -> NewZeroHash ∉ pair_up l.
Proof.
  rewrite pair_up_map. intros Hin (x & Hx & Hi)%list_elem_of_fmap. by eapply HZ; [apply Hin|].
Qed.

Lemma pair_up_inj l l' : hashes32 l -> hashes32 l' ->
  (forall x, x ∈ level_inputs l ++ level_inputs l' -> I x) -> NewZeroHash ∉ l ++ l' ->
  pair_up l = pair_up l' -> l = l'.
Proof.
  intros H1 H2 Hin Hz. rewrite !pair_up_map. intros He.
  destruct (level_inputs_inj l l' H1 H2) as [|]; [|done|done].
  revert Hin He. generalize (level_inputs l) (level_inputs l'). clear -HI.
  induction l as [|x m IH]; intros [|y m'] Hin He; simpl in He; try done. injection He as Hxy He.
  f_equal; [apply HI; [apply Hin; set_solver..|done]|apply IH; [|done]].
  intros z Hz. apply Hin. set_solver.
Qed.

Lemma levels_inj k : forall d l l', hashes32 l -> hashes32 l' ->
  (forall x, x ∈ tree_inputs k l ++ tree_inputs (k + d) l' -> I x) -> NewZeroHash ∉ l ++ l' ->
  levels k l = levels (k + d) l' -> l = levels d l'.
Proof.
  induction k as [|k IH]; intros d l l' H1 H2 Hin Hz He; [done|]. simpl in Hin.
  assert (forall x, x ∈ level_inputs l -> I x) as Hl by (intros; apply Hin; set_solver).
  assert (forall x, x ∈ level_inputs l' -> I x) as Hl' by (intros; apply Hin; set_solver).
  assert (pair_up l = pair_up (levels d l')) as Hp.
  { rewrite <- levels_pair_up. apply IH; [apply pair_up_32|apply pair_up_32| |..|done].
    - intros x Hx. apply Hin. set_solver.
    - pose proof (pair_up_no_zero l Hl). pose proof (pair_up_no_zero l' Hl'). set_solver. }
  assert (forall e, (e < S (k + d))%nat -> forall x, x ∈ level_inputs (levels e l') -> I x) as Hd.
  { intros e He' x Hx. apply Hin. rewrite !elem_of_app. right.
    apply (level_inputs_in (S (k + d)) e l' x) in Hx; [|done]. simpl in Hx. set_solver. }
  apply pair_up_inj in Hp; [done|done|by apply levels_32| |].
  - intros x [Hx|Hx]%elem_of_app; [by apply Hl|]. by apply (Hd d); [lia|].
  - intros [Hx|Hx]%elem_of_app; [set_solver|]. destruct d as [|d]; [set_solver|].
    simpl in Hx. rewrite levels_pair_up in Hx. revert Hx. apply pair_up_no_zero, Hd. lia.
Qed.
End injective.

(** What the branch hash is given for the trees over two lists. *)
Definition both_inputs (l l' : list bytes) : list bytes :=
  tree_inputs (height (zlen l)) l ++ tree_inputs (height (zlen l')) l'.

(** No two inputs that are hashed for either tree collide, none hashes to zero,
    and no leaf is zero or one of the branches. *)
Record collision_free (l l' : list bytes) : Prop := {
  cf_branches : forall x y, x ∈ both_inputs l l' -> y ∈ both_inputs l l' -> branch x = branch y -> x = y;
  cf_zero : forall x, x ∈ both_inputs l l' -> branch x <> NewZeroHash;
  cf_leaves : forall h, h ∈ l ++ l' -> h <> NewZeroHash /\ forall x, x ∈ both_inputs l l' -> h <> branch x
}.

Definition collision_freeb (l l' : list bytes) : bool :=
  let inputs := both_inputs l l' in
  let digests := map (fun x => (x, branch x)) inputs in
  forallb (fun '(x, hx) => negb (bool_decide (hx = NewZeroHash)) &&
    forallb (fun '(y, hy) => implb (bool_decide (hx = hy)) (bool_decide (x = y))) digests) digests &&
  forallb (fun h => negb (bool_decide (h = NewZeroHash)) &&
    forallb (fun '(x, hx) => negb (bool_decide (h = hx))) digests) (l ++ l').

Lemma collision_freeb_spec l l' : collision_freeb l l' = true -> collision_free l l'.
Proof.
  unfold collision_freeb. rewrite andb_true_iff, !forallb_forall. intros [H1 H2].
  assert (forall x, x ∈ both_inputs l l' -> In (x, branch x) (map (fun x => (x, branch x)) (both_inputs l l'))) as Hin.
  { intros x Hx. apply (in_map (fun x => (x, branch x))). by apply list_elem_of_In. }
  split.
  - intros x y Hx Hy He. specialize (H1 _ (Hin x Hx)). apply andb_true_iff in H1 as [_ H1].
    rewrite forallb_forall in H1. specialize (H1 _ (Hin y Hy)). simpl in H1.
    rewrite bool_decide_true in H1 by done. by apply bool_decide_eq_true in H1.
  - intros x Hx He. specialize (H1 _ (Hin x Hx)). apply andb_true_iff in H1 as [H1 _].
    by rewrite bool_decide_true in H1.
  - intros h Hh. apply list_elem_of_In in Hh. specialize (H2 h Hh). apply andb_true_iff in H2 as [Hz H2].
    split; [intros He; by rewrite bool_decide_true in Hz|]. intros x Hx He.
    rewrite forallb_forall in H2. specialize (H2 _ (Hin x Hx)). simpl in H2. by rewrite bool_decide_true in H2.
Qed.

Lemma collision_free_sym l l' : collision_free l l' -> collision_free l' l.
Proof.
  assert (forall x, x ∈ both_inputs l' l -> x ∈ both_inputs l l') as Hb.
  { unfold both_inputs. intros x. rewrite !elem_of_app. tauto. }
  intros [H1 H2 H3]. split; [auto|auto|]. intros h Hh. destruct (H3 h) as [Hz Hl]; [set_solver|auto].
Qed.

Lemma reference_root_inj_le l l' :
  l <> [] -> l' <> [] -> hashes32 l -> hashes32 l' -> collision_free l l' ->
  (height (zlen l) <= height (zlen l'))%nat -> reference_root l = reference_root l' -> l = l'.
Proof.
  intros Hl Hl' H1 H2 [Hi Hz Hf] Hk He. unfold reference_root in He.
  destruct (levels_single l Hl) as [r Hr], (levels_single l' Hl') as [r' Hr']. rewrite Hr, Hr' in He.
  injection He as <-. set (d := (height (zlen l') - height (zlen l))%nat).
  assert (height (zlen l') = height (zlen l) + d)%nat as Hd by lia.
  assert (NewZeroHash ∉ l ++ l') as Hnz by (intros Hin; by destruct (Hf _ Hin)).
  assert (l = levels d l') as Hll.
  { apply (levels_inj (fun x => x ∈ both_inputs l l')  Hi Hz (height (zlen l))); [done..| |done|].
    - unfold both_inputs. by rewrite Hd.
    - rewrite <- Hd. by rewrite Hr, Hr'. }
  destruct d as [|d]; [done|]. exfalso. destruct l as [|h l]; [done|].
  simpl in Hll. rewrite levels_pair_up, pair_up_map in Hll.
  destruct (level_inputs (levels d l')) as [|x xs] eqn:Hx; [done|]. injection Hll as Hh _.
  destruct (Hf h) as [_ Hb]; [set_solver|]. apply (Hb x); [|done].
  unfold both_inputs. rewrite elem_of_app. right. apply (level_inputs_in _ d); [lia|]. rewrite Hx. set_solver.
Qed.

Lemma reference_root_inj l l' :
  l <> [] -> l' <> [] -> hashes32 l -> hashes32 l' -> collision_free l l' ->
  reference_root l = reference_root l' -> l = l'.
Proof.
  intros Hl Hl' H1 H2 Hc He. destruct (Nat.le_ge_cases (height (zlen l)) (height (zlen l'))).
  - by apply reference_root_inj_le.
  - symmetry. apply reference_root_inj_le; try done. by apply collision_free_sym.
Qed.

(** C32: The linear-array construction computes the tree that hashes a list pair by
    pair, an odd last hash with zeros, level by level until one hash is left, for
    every number of leaves; without leaves it panics. *)
Theorem merkle_root_exact {E} l :
  @merkleRoot _ E l = match l with [] => Panic | _ => Ok (reference_root l) end.
Proof. destruct l as [|a l]; [done|]. by apply merkleRoot_reference. Qed.

(** C31: The merkle root of a block commits to its transactions, their number and
    order: two lists of transactions with the same root have the same fields,
    unless the hash functions collide on what is hashed for one of the two. *)
Theorem merkle_root_commits {E} txs txs' :
  txs <> [] -> txs' <> [] -> Forall serial_widths txs -> Forall serial_widths txs' ->
  collision_free (map TransactionHash txs) (map TransactionHash txs') ->
  (forall tx tx', tx ∈ txs -> tx' ∈ txs' -> TransactionHash tx = TransactionHash tx' ->
     serializeTransaction tx txEncodingFull = serializeTransaction tx' txEncodingFull) ->
  @CalculateHashMerkleRoot _ E txs = CalculateHashMerkleRoot txs' ->
  Forall2 (same_written true) txs txs'.
Proof.
  intros Hn Hn' Hw Hw' Hc Hs. unfold CalculateHashMerkleRoot.
  assert (forall l, hashes32 (map TransactionHash l)) as H32.
  { intros l. apply Forall_map, Forall_true. intros x. apply length_Finalize_copy. }
  rewrite !merkleRoot_reference by (by destruct txs, txs'). intros [= He].
  apply reference_root_inj in He; [|by destruct txs|by destruct txs'|done..]. clear Hn Hn' Hc.
  revert txs' Hw' Hs He. induction txs as [|tx txs IH]; intros [|tx' txs'] Hw' Hs He; try done.
  injection He as Ht He. apply Forall_cons in Hw as [Hx Hw]. apply Forall_cons in Hw' as [Hx' Hw'].
  constructor; [apply (serialize_inj txEncodingFull); [done..|apply Hs; set_solver]|].
  apply IH; [done|done| |done]. intros. apply Hs; set_solver.
Qed.
End reference.

(** * Witness *)

(** Three transactions, and the same three with other cached masses. *)
Lemma merkle_root_commits_witness :
  let txs := [test_tx; test_tx; test_tx] in
  let cached := mk_DomainTransaction (Version test_tx) (Inputs test_tx) (Outputs test_tx) (LockTime test_tx)
    (SubnetworkID test_tx) (Gas test_tx) (Payload test_tx) 3 9 None in
  Forall2 (same_written true) txs [cached; cached; cached].
Proof.
  intros txs cached.
  assert (forall tx, serial_widths tx -> Forall serial_widths [tx; tx; tx]) as H3
    by (intros tx Htx; repeat (apply Forall_cons; split; [done|]); apply Forall_nil_2).
  assert (serial_widths test_tx /\ serial_widths cached) as [Hw Hw'].
  { split; (split; [done| | |done]); repeat (apply Forall_cons; split; [done|]); apply Forall_nil_2. }
  apply (@merkle_root_commits test_crypto Empty_set txs [cached; cached; cached]);
    [done|done|by apply H3|by apply H3| | |].
  - apply collision_freeb_spec. vm_compute. reflexivity.
  - intros tx tx' Htx Htx' _. unfold txs in Htx.
    assert (tx = test_tx) as -> by set_solver. assert (tx' = cached) as -> by set_solver. done.
  - vm_compute. reflexivity.
Defined.
