(* ===== verification/BlockValidator.v ===== *)
(** Validation of a block in isolation: its header, and its body against the
    header, the coinbase manager, the transaction validator and the merkle root.
    [src/domain/consensus/processes/blockvalidator/block_body_in_isolation.go],
    [block_header_in_isolation.go]. *)

From Stdlib Require Import Sorted.
From S2P Require Import Prelude ScriptError Transaction Sha256 SigHash SigCache TxMass TxHash.
From S2P Require Import Spending TxValidator Block Difficulty Ghostdag Coinbase Merkle.

(** * Data *)

(** The rule errors of the block validator.  [TxRule] carries one of the
    transaction validator or the coinbase manager, and [ErrPrefilled] is the
    plain error for an input with a UTXO entry. *)
Inductive BlockRuleError : Set :=
| TxRule (e : RuleError)
| ErrPrefilled
| ErrBadMerkleRoot
| ErrNoTransactions
| ErrFirstTxNotCoinbase
| ErrMultipleCoinbases
| ErrUnexpectedCoinbaseBlueScore
| ErrTransactionsNotSorted
| ErrBlockMassTooHigh
| ErrDuplicateTx
| ErrDoubleSpendInSameBlock
| ErrChainedTransactions
| ErrWrongBlockVersion
| ErrTimeTooMuchInTheFuture
| ErrNoParents
| ErrTooManyParents.

Definition of_tx {A} (r : res RuleError A) : res BlockRuleError A :=
  match r with Ok a => Ok a | Err e => Err (TxRule e) | Panic => Panic end.

Section validator.
Context `{C : Crypto} `{IT : MapIteration} `{ST : DAABlocksStore}.

(** The fields that the validation in isolation reads. *)
Record blockValidator := mk_blockValidator {
  bv_genesisHash : bytes;
  maxBlockMass : Z;
  maxBlockParents : Z;
  timestampDeviationTolerance : Z;
  targetTimePerBlock : Z;
  bv_transactionValidator : transactionValidator;
  bv_coinbaseManager : coinbaseManager
}.

Variable v : blockValidator.

Definition CoinbaseTransactionIndex : Z := 0.

(** * The body *)

Definition checkNoPrefilledInputs (block : DomainBlock) : res BlockRuleError unit :=
  if existsb (fun tx => existsb (fun input => bool_decide (is_Some (in_UTXOEntry input))) (Inputs tx))
       (Transactions block)
  then Err ErrPrefilled else Ok tt.

Definition checkBlockHashMerkleRoot (block : DomainBlock) : res BlockRuleError unit :=
  let? calculatedHashMerkleRoot := CalculateHashMerkleRoot (Transactions block) in
  if negb (hash_Equal (Some (hdr_HashMerkleRoot (block_Header block))) calculatedHashMerkleRoot)
  then Err ErrBadMerkleRoot else Ok tt.

Definition checkBlockContainsAtLeastOneTransaction (block : DomainBlock) : res BlockRuleError unit :=
  if zlen (Transactions block) =? 0 then Err ErrNoTransactions else Ok tt.

Definition checkFirstBlockTransactionIsCoinbase (block : DomainBlock) : res BlockRuleError unit :=
  let? tx := index_res (Transactions block) CoinbaseTransactionIndex in
  if negb (IsCoinBase tx) then Err ErrFirstTxNotCoinbase else Ok tt.

Definition checkBlockContainsOnlyOneCoinbase (block : DomainBlock) : res BlockRuleError unit :=
  let? rest := slice_res (Transactions block) (CoinbaseTransactionIndex + 1) (zlen (Transactions block)) in
  if existsb IsCoinBase rest then Err ErrMultipleCoinbases else Ok tt.

Definition checkCoinbaseBlueScore (block : DomainBlock) : res BlockRuleError unit :=
  let? tx := index_res (Transactions block) CoinbaseTransactionIndex in
  let? r := of_tx (ExtractCoinbaseDataBlueScoreAndSubsidy (bv_coinbaseManager v) tx) in
  let '(coinbaseBlueScore, _, _) := r in
  if negb (coinbaseBlueScore =? hdr_BlueScore (block_Header block))
  then Err ErrUnexpectedCoinbaseBlueScore else Ok tt.

(** [subnetworks.Less] *)
Definition subnetwork_Less (a b : bytes) : bool :=
  match bytes_Compare a b with Lt => true | _ => false end.

Fixpoint order_loop (transactions : list DomainTransaction) (i : Z) (rest : list DomainTransaction)
  : res BlockRuleError unit :=
  match rest with
  | [] => Ok tt
  | tx :: rest' =>
      if i =? 0 then order_loop transactions (i + 1) rest' else
      let? previous := index_res transactions i in
      if subnetwork_Less (SubnetworkID tx) (SubnetworkID previous) then Err ErrTransactionsNotSorted
      else order_loop transactions (i + 1) rest'
  end.

Definition checkBlockTransactionOrder (block : DomainBlock) : res BlockRuleError unit :=
  let? rest := slice_res (Transactions block) (CoinbaseTransactionIndex + 1) (zlen (Transactions block)) in
  order_loop (Transactions block) 0 rest.

Fixpoint isolation_loop (daaScore : Z) (transactions : list DomainTransaction) : res BlockRuleError unit :=
  match transactions with
  | [] => Ok tt
  | tx :: transactions' =>
      let? _ := of_tx (ValidateTransactionInIsolation (bv_transactionValidator v) tx daaScore) in
      isolation_loop daaScore transactions'
  end.

Definition checkTransactionsInIsolation (block : DomainBlock) : res BlockRuleError unit :=
  isolation_loop (hdr_DAAScore (block_Header block)) (Transactions block).

Fixpoint mass_loop (mass : Z) (transactions : list DomainTransaction) : res BlockRuleError unit :=
  match transactions with
  | [] => Ok tt
  | transaction :: transactions' =>
      let transaction := PopulateMass (bv_transactionValidator v) transaction in
      let massBefore := mass in
      let mass := uint64 (mass + Mass transaction) in
      if (mass >? maxBlockMass v) || (mass <? massBefore) then Err ErrBlockMassTooHigh
      else mass_loop mass transactions'
  end.

Definition checkBlockMass (block : DomainBlock) : res BlockRuleError unit :=
  mass_loop 0 (Transactions block).

(** The identifier of a transaction; that it is cached in the block's own copy
    of the transaction is not seen by the checks. *)
Definition id_of (tx : DomainTransaction) : bytes :=
  match tx_ID tx with Some id => id | None => computed_ID tx end.

Fixpoint duplicate_tx_loop (existingTxIDs : gset bytes) (transactions : list DomainTransaction)
  : res BlockRuleError unit :=
  match transactions with
  | [] => Ok tt
  | tx :: transactions' =>
      if bool_decide (id_of tx ∈ existingTxIDs) then Err ErrDuplicateTx
      else duplicate_tx_loop ({[id_of tx]} ∪ existingTxIDs) transactions'
  end.

Definition checkBlockDuplicateTransactions (block : DomainBlock) : res BlockRuleError unit :=
  duplicate_tx_loop ∅ (Transactions block).

Fixpoint double_spend_inputs (txID : bytes) (usedOutpoints : gmap DomainOutpoint bytes)
    (inputs : list DomainTransactionInput) : res BlockRuleError (gmap DomainOutpoint bytes) :=
  match inputs with
  | [] => Ok usedOutpoints
  | input :: inputs' =>
      match usedOutpoints !! PreviousOutpoint input with
      | Some _ => Err ErrDoubleSpendInSameBlock
      | None => double_spend_inputs txID (<[PreviousOutpoint input := txID]> usedOutpoints) inputs'
      end
  end.

Fixpoint double_spend_loop (usedOutpoints : gmap DomainOutpoint bytes) (transactions : list DomainTransaction)
  : res BlockRuleError unit :=
  match transactions with
  | [] => Ok tt
  | tx :: transactions' =>
      let? usedOutpoints' := double_spend_inputs (id_of tx) usedOutpoints (Inputs tx) in
      double_spend_loop usedOutpoints' transactions'
  end.

Definition checkBlockDoubleSpends (block : DomainBlock) : res BlockRuleError unit :=
  double_spend_loop ∅ (Transactions block).

Definition checkBlockHasNoChainedTransactions (block : DomainBlock) : res BlockRuleError unit :=
  let transactions := Transactions block in
  let transactionsSet : gset bytes := list_to_set (map id_of transactions) in
  if existsb (fun transaction => existsb (fun transactionInput =>
       bool_decide (TransactionID (PreviousOutpoint transactionInput) ∈ transactionsSet))
       (Inputs transaction)) transactions
  then Err ErrChainedTransactions else Ok tt.

Definition validateGasLimit (block : DomainBlock) : res BlockRuleError unit := Ok tt.

Definition ValidateBodyInIsolation `{CoinbaseStores} (blockHash : bytes) : res BlockRuleError unit :=
  let? block := of_tx (BlockOf blockHash) in
  let? _ := checkNoPrefilledInputs block in
  let? _ := checkBlockHashMerkleRoot block in
  let? _ := checkBlockContainsAtLeastOneTransaction block in
  let? _ := checkFirstBlockTransactionIsCoinbase block in
  let? _ := checkBlockContainsOnlyOneCoinbase block in
  let? _ := checkCoinbaseBlueScore block in
  let? _ := checkBlockTransactionOrder block in
  let? _ := checkTransactionsInIsolation block in
  let? _ := checkBlockMass block in
  let? _ := checkBlockDuplicateTransactions block in
  let? _ := checkBlockDoubleSpends block in
  let? _ := checkBlockHasNoChainedTransactions block in
  validateGasLimit block.

(** * The header *)

Definition BlockVersion : Z := 1.

Definition DirectParents (header : BlockHeader) : list bytes :=
  match hdr_Parents header with [] => [] | direct :: _ => direct end.

Definition checkBlockVersion (header : BlockHeader) : res BlockRuleError unit :=
  if negb (hdr_Version header =? BlockVersion) then Err ErrWrongBlockVersion else Ok tt.

(** [now] is the clock, [mstime.Now().UnixMilliseconds()]. *)
Definition checkBlockTimestampInIsolation (now : Z) (header : BlockHeader) : res BlockRuleError unit :=
  let blockTimestamp := hdr_TimeInMilliseconds header in
  let maxCurrentTime :=
    int64 (now + int64 (timestampDeviationTolerance v * Milliseconds (targetTimePerBlock v))) in
  if blockTimestamp >? maxCurrentTime then Err ErrTimeTooMuchInTheFuture else Ok tt.

Definition checkParentsLimit (header : BlockHeader) : res BlockRuleError unit :=
  let hash := HeaderHash header in
  if (zlen (DirectParents header) =? 0) && negb (bytes_eqb hash (bv_genesisHash v)) then Err ErrNoParents
  else if uint64 (zlen (DirectParents header)) >? maxBlockParents v then Err ErrTooManyParents
  else Ok tt.

(** [headerOf] is the header store. *)
Definition ValidateHeaderInIsolation (now : Z) (headerOf : bytes -> res BlockRuleError BlockHeader)
    (blockHash : bytes) : res BlockRuleError unit :=
  let? header := headerOf blockHash in
  let? _ := (if negb (bytes_eqb blockHash (bv_genesisHash v)) then checkBlockVersion header else Ok tt) in
  let? _ := checkBlockTimestampInIsolation now header in
  checkParentsLimit header.

End validator.

(** * What the checks of a body accept *)

Section body.
Context `{C : Crypto} `{IT : MapIteration} `{ST : DAABlocksStore} `{CS : CoinbaseStores}.
Variable v : blockValidator.

(** The transactions of a valid body. *)
Record body_ok (block : DomainBlock) : Prop := {
  body_entries : Forall (fun tx => Forall (fun i => in_UTXOEntry i = None) (Inputs tx)) (Transactions block);
  body_root : reference_root (map TransactionHash (Transactions block)) =
    Some (hdr_HashMerkleRoot (block_Header block));
  body_coinbase : exists cb rest data subsidy, Transactions block = cb :: rest /\
    IsCoinBase cb = true /\ Forall (fun tx => IsCoinBase tx = false) rest /\
    Sorted (fun a b => subnetwork_Less (SubnetworkID b) (SubnetworkID a) = false) rest /\
    ExtractCoinbaseDataBlueScoreAndSubsidy (bv_coinbaseManager v) cb =
      Ok (hdr_BlueScore (block_Header block), data, subsidy);
  body_txs : Forall (isolation_ok (bv_transactionValidator v)) (Transactions block);
  body_mass : sumZ (fun tx => Mass (PopulateMass (bv_transactionValidator v) tx)) (Transactions block) <=
    maxBlockMass v;
  body_ids : NoDup (map id_of (Transactions block));
  body_spends : NoDup (map PreviousOutpoint (concat (map Inputs (Transactions block))));
  body_unchained : Forall (fun tx => Forall (fun i =>
    TransactionID (PreviousOutpoint i) ∉ map id_of (Transactions block)) (Inputs tx)) (Transactions block)
}.

Lemma existsb_Forall {A} (f : A -> bool) (P : A -> Prop) l :
  (forall x, f x = false <-> P x) -> existsb f l = false <-> Forall P l.
Proof.
  intros Hf. induction l as [|x l IH]; simpl; [by split; [constructor|]|].
  rewrite orb_false_iff, Forall_cons, Hf, IH. done.
Qed.

Lemma checkNoPrefilledInputs_ok block :
  checkNoPrefilledInputs block = Ok tt <->
  Forall (fun tx => Forall (fun i => in_UTXOEntry i = None) (Inputs tx)) (Transactions block).
Proof.
  unfold checkNoPrefilledInputs.
  rewrite <- (existsb_Forall (fun tx => existsb (fun input => bool_decide (is_Some (in_UTXOEntry input))) (Inputs tx))).
  { by destruct (existsb _ _). }
  intros tx. apply existsb_Forall. intros i. rewrite bool_decide_eq_false. symmetry. apply eq_None_not_Some.
Qed.

Lemma checkBlockHashMerkleRoot_ok block :
  Transactions block <> [] ->
  checkBlockHashMerkleRoot block = Ok tt <->
  reference_root (map TransactionHash (Transactions block)) = Some (hdr_HashMerkleRoot (block_Header block)).
Proof.
  intros Hne. unfold checkBlockHashMerkleRoot, CalculateHashMerkleRoot.
  rewrite merkleRoot_reference by (by destruct (Transactions block)). cbn [bind_res]. unfold hash_Equal.
  case_bool_decide; simpl; split; congruence.
Qed.

Lemma slice_tail {E A} (x : A) l : @slice_res E A (x :: l) (CoinbaseTransactionIndex + 1) (zlen (x :: l)) = Ok l.
Proof.
  unfold slice_res. rewrite zlen_cons. pose proof (zlen_nonneg l). unfold CoinbaseTransactionIndex.
  rewrite (proj2 (Z.leb_le (0 + 1) _)), (proj2 (Z.leb_le _ (zlen l + 1))) by lia. simpl. f_equal.
  apply (sliceZ_suffix [x] l); zlia.
Qed.

Lemma order_loop_later cb pre p rest (i := zlen (cb :: pre)) :
  order_loop (cb :: pre ++ p :: rest) i rest = Ok tt <->
  Sorted (fun a b => subnetwork_Less (SubnetworkID b) (SubnetworkID a) = false) (p :: rest).
Proof.
  subst i. revert pre p. induction rest as [|tx rest IH]; intros pre p.
  { split; [repeat constructor|done]. }
  cbn [order_loop]. assert ((zlen (cb :: pre) =? 0) = false) as -> by (apply Z.eqb_neq; zlia).
  assert (@index_res BlockRuleError _ (cb :: pre ++ p :: tx :: rest) (zlen (cb :: pre)) = Ok p) as ->.
  { unfold index_res. change (cb :: pre ++ p :: tx :: rest) with ((cb :: pre) ++ p :: tx :: rest).
    by rewrite lookupZ_app_r. }
  cbn [bind_res]. specialize (IH (pre ++ [p]) tx). rewrite <- app_assoc in IH. simpl in IH.
  replace (zlen (cb :: pre) + 1) with (zlen (cb :: pre ++ [p])) by zlia.
  destruct (subnetwork_Less (SubnetworkID tx) (SubnetworkID p)) eqn:Hless.
  - split; [done|]. intros Hs. inversion Hs as [|? ? _ Hr]; subst. inversion Hr; congruence.
  - rewrite IH. split; [intros Hs; constructor; [exact Hs|by constructor]|]. intros Hs. by inversion Hs.
Qed.

Lemma order_loop_ok cb rest :
  order_loop (cb :: rest) 0 rest = Ok tt <->
  Sorted (fun a b => subnetwork_Less (SubnetworkID b) (SubnetworkID a) = false) rest.
Proof.
  destruct rest as [|tx rest]; [split; [constructor|done]|]. simpl order_loop.
  apply (order_loop_later cb [] tx rest).
Qed.

Lemma isolation_loop_ok daaScore txs :
  Forall tx_typed txs -> 0 <= ghostdagK (bv_transactionValidator v) < 2 ^ 8 ->
  isolation_loop v daaScore txs = Ok tt <-> Forall (isolation_ok (bv_transactionValidator v)) txs.
Proof.
  intros Hty Hk. induction Hty as [|tx txs Htx Hty IH]; simpl; [split; [constructor|done]|].
  rewrite bind_res_unit, Forall_cons, IH, <- (ValidateTransactionInIsolation_ok _ tx daaScore) by done.
  unfold of_tx. destruct (ValidateTransactionInIsolation _ _ _) as [[]| |]; intuition congruence.
Qed.

Lemma mass_loop_ok txs mass :
  0 <= mass <= maxBlockMass v -> maxBlockMass v < 2 ^ 64 ->
  Forall (fun tx => 0 <= Mass (PopulateMass (bv_transactionValidator v) tx) < 2 ^ 64) txs ->
  mass_loop v mass txs = Ok tt <->
  mass + sumZ (fun tx => Mass (PopulateMass (bv_transactionValidator v) tx)) txs <= maxBlockMass v.
Proof.
  intros Hm Hmax Hf. revert mass Hm. induction Hf as [|tx txs Htx Hf IH]; intros mass Hm; simpl; [split; [lia|done]|].
  set (m := Mass (PopulateMass (bv_transactionValidator v) tx)) in *.
  assert (0 <= sumZ (fun tx => Mass (PopulateMass (bv_transactionValidator v) tx)) txs) as Hn.
  { apply sumZ_nonneg. eapply Forall_impl; [exact Hf|]. simpl. lia. }
  destruct (decide (mass + m < 2 ^ 64)) as [Hlt|Hge].
  - rewrite uint64_id by lia. rewrite (proj2 (Z.ltb_ge (mass + m) mass)), orb_false_r by lia.
    destruct (Z.gtb_spec (mass + m) (maxBlockMass v)); [split; [done|lia]|]. rewrite IH by lia. lia.
  - assert (uint64 (mass + m) = mass + m - 2 ^ 64) as ->.
    { unfold uint64. symmetry. apply (Z.mod_unique _ _ 1); lia. }
    rewrite (proj2 (Z.ltb_lt _ mass)), orb_true_r by lia. split; [done|lia].
Qed.

Lemma duplicate_tx_loop_ok txs seen :
  duplicate_tx_loop seen txs = Ok tt <->
  NoDup (map id_of txs) /\ Forall (fun tx => id_of tx ∉ seen) txs.
Proof.
  revert seen. induction txs as [|tx txs IH]; intros seen; simpl; [split; [split; constructor|done]|].
  rewrite NoDup_cons, Forall_cons. case_bool_decide as Hin; [split; [done|tauto]|].
  rewrite IH, !Forall_forall. split.
  - intros [Hnd Hs]. split_and!; [|done|done|].
    + intros (x & Heq & Hx)%list_elem_of_fmap. apply (Hs x Hx). set_solver.
    + intros x Hx Hi. apply (Hs x Hx). set_solver.
  - intros [[Hni Hnd] [Hi Hs]]. split; [done|]. intros x Hx [Heq%elem_of_singleton|Hc]%elem_of_union.
    + apply Hni. apply list_elem_of_fmap. by exists x.
    + by apply (Hs x Hx).
Qed.

Lemma double_spend_inputs_ok txID used ins :
  (NoDup (map PreviousOutpoint ins) /\ Forall (fun i => used !! PreviousOutpoint i = None) ins ->
   exists used', double_spend_inputs txID used ins = Ok used' /\
     forall o, used' !! o = None <-> used !! o = None /\ o ∉ map PreviousOutpoint ins) /\
  (forall used', double_spend_inputs txID used ins = Ok used' ->
   NoDup (map PreviousOutpoint ins) /\ Forall (fun i => used !! PreviousOutpoint i = None) ins).
Proof.
  revert used. induction ins as [|i ins IH]; intros used; simpl.
  { split; [|split; constructor]. intros _. exists used. split; [done|]. set_solver. }
  rewrite NoDup_cons, Forall_cons. destruct (IH (<[PreviousOutpoint i := txID]> used)) as [IH1 IH2]. split.
  - intros [[Hni Hnd] [Hi Hf]]. rewrite Hi. destruct IH1 as (used' & Hu & Hs).
    + split; [done|]. rewrite Forall_forall in *. intros j Hj. apply lookup_insert_None. split; [by apply Hf|].
      intros He. apply Hni. rewrite He. apply list_elem_of_fmap. by exists j.
    + exists used'. split; [done|]. intros o. rewrite Hs, lookup_insert_None, not_elem_of_cons. naive_solver.
  - intros used' Hu. destruct (used !! PreviousOutpoint i) eqn:Hi; [done|].
    apply IH2 in Hu as [Hnd Hf]. rewrite NoDup_cons, Forall_cons. rewrite Forall_forall in *. split_and!; [|done|done|].
    + intros (j & He & Hj)%list_elem_of_fmap. specialize (Hf j Hj). rewrite lookup_insert_None in Hf. naive_solver.
    + intros j Hj. specialize (Hf j Hj). rewrite lookup_insert_None in Hf. tauto.
Qed.

Lemma double_spend_loop_ok txs used :
  double_spend_loop used txs = Ok tt <->
  NoDup (map PreviousOutpoint (concat (map Inputs txs))) /\
  Forall (fun i => used !! PreviousOutpoint i = None) (concat (map Inputs txs)).
Proof.
  revert used. induction txs as [|tx txs IH]; intros used; simpl; [split; [split; constructor|done]|].
  rewrite map_app, NoDup_app, Forall_app. destruct (double_spend_inputs_ok (id_of tx) used (Inputs tx)) as [H1 H2].
  split.
  - destruct (double_spend_inputs _ _ _) as [used'| |]; [|done..]. cbn [bind_res].
    destruct (H2 used' eq_refl) as [Hnd Hf]. destruct (H1 (conj Hnd Hf)) as (? & [= <-] & Hs).
    rewrite IH, !Forall_forall. intros [Hnd' Hf']. split_and!; [done| |done|by apply Forall_forall|].
    + intros o Ho (i & -> & Hi)%list_elem_of_fmap. apply (Hs (PreviousOutpoint i)); [by apply Hf'|done].
    + intros i Hi. by apply (Hs (PreviousOutpoint i)), Hf'.
  - intros [(Hnd & Hdis & Hnd') [Hf Hf']]. destruct (H1 (conj Hnd Hf)) as (used' & -> & Hs). cbn [bind_res].
    rewrite IH. split; [done|]. rewrite Forall_forall in *. intros i Hi. apply Hs. split; [by apply Hf'|].
    intros Ho. apply (Hdis _ Ho). apply list_elem_of_fmap. by exists i.
Qed.

Lemma checkBlockHasNoChainedTransactions_ok block :
  checkBlockHasNoChainedTransactions block = Ok tt <->
  Forall (fun tx => Forall (fun i =>
    TransactionID (PreviousOutpoint i) ∉ map id_of (Transactions block)) (Inputs tx)) (Transactions block).
Proof.
  unfold checkBlockHasNoChainedTransactions.
  set (ids := list_to_set (map id_of (Transactions block)) : gset bytes).
  rewrite <- (existsb_Forall (fun tx => existsb (fun i =>
    bool_decide (TransactionID (PreviousOutpoint i) ∈ ids)) (Inputs tx))).
  { by destruct (existsb _ _). }
  intros tx. apply existsb_Forall. intros i. rewrite bool_decide_eq_false. unfold ids. by rewrite elem_of_list_to_set.
Qed.

(** The widths of the Go types of a block, and of the validator's parameters. *)
Record block_typed (block : DomainBlock) : Prop := {
  bt_txs : Forall tx_typed (Transactions block);
  bt_mass : Forall (fun tx => 0 <= Mass (PopulateMass (bv_transactionValidator v) tx) < 2 ^ 64) (Transactions block);
  bt_max : 0 <= maxBlockMass v < 2 ^ 64;
  bt_k : 0 <= ghostdagK (bv_transactionValidator v) < 2 ^ 8
}.

(** The checks that look at the coinbase and at the order. *)
Lemma coinbase_checks_ok block cb rest :
  Transactions block = cb :: rest ->
  (checkFirstBlockTransactionIsCoinbase block = Ok tt /\ checkBlockContainsOnlyOneCoinbase block = Ok tt /\
   checkCoinbaseBlueScore v block = Ok tt /\ checkBlockTransactionOrder block = Ok tt) <->
  exists data subsidy, IsCoinBase cb = true /\ Forall (fun tx => IsCoinBase tx = false) rest /\
    Sorted (fun a b => subnetwork_Less (SubnetworkID b) (SubnetworkID a) = false) rest /\
    ExtractCoinbaseDataBlueScoreAndSubsidy (bv_coinbaseManager v) cb =
      Ok (hdr_BlueScore (block_Header block), data, subsidy).
Proof.
  intros Ht. unfold checkFirstBlockTransactionIsCoinbase, checkBlockContainsOnlyOneCoinbase,
    checkCoinbaseBlueScore, checkBlockTransactionOrder. rewrite Ht, !slice_tail. unfold CoinbaseTransactionIndex.
  rewrite !index_res_head. cbn [bind_res]. rewrite order_loop_ok.
  pose proof (existsb_Forall IsCoinBase (fun tx => IsCoinBase tx = false) rest (fun x => iff_refl _)) as Hone.
  revert Hone. generalize (Forall (fun tx => IsCoinBase tx = false) rest). intros P Hone.
  destruct (IsCoinBase cb), (existsb IsCoinBase rest); simpl; try (split; naive_solver).
  destruct (ExtractCoinbaseDataBlueScoreAndSubsidy _ _) as [[[b d] s]| |]; simpl; try (split; naive_solver).
  destruct (Z.eqb_spec b (hdr_BlueScore (block_Header block))); simpl; split; naive_solver.
Qed.

(** C17: A body is accepted exactly when it is what its header commits to and its
    transactions fit together: no input comes with its UTXO entry; the merkle
    root of the header is that of the transactions; the first transaction and no
    other is a coinbase, with a payload that names the blue score of the header;
    the others are sorted by subnetwork; each one is valid in isolation; their
    masses add up to at most the limit, the sum taken without wrapping; their
    identifiers and the outpoints they spend are distinct; none spends an output
    of another.  A body without transactions panics before the check that would
    reject it. *)
Theorem body_validation_exact blockHash block :
  BlockOf blockHash = Ok block -> block_typed block ->
  (Transactions block <> [] -> ValidateBodyInIsolation v blockHash = Ok tt <-> body_ok block) /\
  (Transactions block = [] -> ValidateBodyInIsolation v blockHash = Panic).
Proof.
  intros Hb [Hty Hm Hmax Hk]. unfold ValidateBodyInIsolation. rewrite Hb. cbn [of_tx bind_res].
  split; intros Ht.
  2: { unfold checkNoPrefilledInputs, checkBlockHashMerkleRoot, CalculateHashMerkleRoot. by rewrite Ht. }
  rewrite !bind_res_unit, checkNoPrefilledInputs_ok, checkBlockHashMerkleRoot_ok by done.
  unfold checkTransactionsInIsolation, checkBlockMass, checkBlockDuplicateTransactions, checkBlockDoubleSpends.
  rewrite isolation_loop_ok, mass_loop_ok, duplicate_tx_loop_ok, double_spend_loop_ok,
    checkBlockHasNoChainedTransactions_ok by (first [done|lia]). rewrite Z.add_0_l.
  destruct (Transactions block) as [|cb rest] eqn:Htx; [done|].
  pose proof (coinbase_checks_ok block cb rest Htx) as Hcb. split.
  - intros (H1 & H2 & _ & H3 & H4 & H5 & H6 & H7 & H8 & [H9 _] & [H10 _] & H11 & _).
    destruct (proj1 Hcb) as (data & subsidy & Hd); [done|].
    split; rewrite ?Htx; try done. by exists cb, rest, data, subsidy.
  - intros [H1 H2 (cb' & rest' & data & subsidy & He & Hd) H4 H5 H6 H7 H8]. rewrite Htx in *.
    injection He as <- <-. destruct (proj2 Hcb) as (Hc1 & Hc2 & Hc3 & Hc4); [by exists data, subsidy|].
    unfold checkBlockContainsAtLeastOneTransaction. rewrite Htx.
    split_and!; try done; try (apply Forall_true; set_solver).
Qed.
End body.

(** * Witness *)

#[local] Existing Instance test_crypto.
#[local] Existing Instance test_iteration.
#[local] Existing Instance test_store.

(** A coinbase and a transaction that spends two outputs of other blocks. *)
Definition test_spend : DomainTransaction :=
  mk_DomainTransaction 0
    [mk_DomainTransactionInput (mk_DomainOutpoint (replicate 32 1) 1) [] 5 1 None;
     mk_DomainTransactionInput (mk_DomainOutpoint (replicate 32 1) 2) [] 5 1 None]
    [mk_DomainTransactionOutput 700 (mk_ScriptPublicKey [0x51] 0)] 0 SubnetworkIDNative 0 [] 0 0 None.

Definition test_body : list DomainTransaction := [test_coinbase 500; test_spend].

Definition test_root : bytes :=
  match reference_root (map TransactionHash test_body) with Some r => r | None => [] end.

Definition test_block : DomainBlock :=
  mk_DomainBlock (mk_BlockHeader 1 [] test_root [] [] 0 0 0 0 11 0 []) test_body.

Definition test_block_stores : CoinbaseStores :=
  {| AcceptanceDataOf := fun _ => Err ErrStore; DAAAddedBlocks := fun _ => Err ErrStore;
     BlockOf := fun _ => Ok test_block |}.
#[local] Existing Instance test_block_stores.

Definition test_blockValidator : blockValidator :=
  mk_blockValidator [0] 500000 10 132 1000000000 test_validator test_manager.

Lemma test_coinbase_typed : tx_typed (test_coinbase 500).
Proof. split; cbn [test_coinbase Outputs Gas Payload Inputs]; try constructor; by vm_compute. Qed.

Lemma test_spend_typed : tx_typed test_spend.
Proof.
  split; cbn [test_spend Outputs Gas Payload Inputs]; [by repeat constructor|done|done|done| |];
    repeat (apply Forall_cons; split); try apply Forall_nil_2; try (intros e; discriminate);
    (split; [done|apply Forall_nil_2]).
Qed.

Lemma test_block_typed : block_typed test_blockValidator test_block.
Proof.
  split; [| |by vm_compute|by vm_compute].
  - apply Forall_cons; split; [apply test_coinbase_typed|].
    apply Forall_cons; split; [apply test_spend_typed|apply Forall_nil_2].
  - repeat (apply Forall_cons; split; [by vm_compute|]). apply Forall_nil_2.
Qed.

Lemma body_validation_exact_witness : body_ok test_blockValidator test_block.
Proof.
  apply (proj1 (body_validation_exact (CS:=test_block_stores) test_blockValidator [1] test_block eq_refl test_block_typed)); [done|].
  vm_compute. reflexivity.
Defined.
