(* ===== verification/HeaderTips.v ===== *)
(** The selected chain of the headers.
    [src/domain/consensus/processes/headersselectedtipmanager/headersselectedtipmanager.go],
    [CalculateChainPath] of [src/domain/consensus/processes/dagtraversalmanager/dagtraversalmanager.go] and
    [src/domain/consensus/datastructures/headersselectedchainstore].

    The chain store keeps the hashes of the chain by index and the indices by
    hash.  Its two caches hold what the database holds and are left out; the
    staging shard is the one of the current staging area. *)

From S2P Require Import Prelude Transaction Block Difficulty TxMass Ghostdag GhostdagMergeSet ReachInterval Reachability Reindex.
From S2P Require Import ReachTree ReindexCount ReindexPropagate ReindexReclaim ReindexChain ReindexAdd ReachAdd ReachFuture ReachConcentrate.
From S2P Require Import ReachRoot ReachRun DagTopology.

(** * CalculateChainPath *)

Record SelectedChainPath : Set := mk_SelectedChainPath {
  Added : list bytes;
  Removed : list bytes
}.

Section traversal.
Variable gd : ghostdag_store.
Variable st : reach_store.

(** Down from the old tip to the first block on the chain of the new one. *)
Fixpoint walk_removed (fuel : nat) (current toBlockHash : bytes) (removed : list bytes) : res TopologyError (bytes * list bytes) :=
  match fuel with
  | O => Err (ReachFailed ReachFuel)
  | S fuel' =>
      let? isCurrentInTheSelectedParentChain := IsInSelectedParentChainOf gd st current toBlockHash false in
      if isCurrentInTheSelectedParentChain : bool then Ok (current, removed) else
      let? selectedParent := selectedParentOf gd current in
      walk_removed fuel' selectedParent toBlockHash (removed ++ [current])
  end.

(** Down from the new tip to the common ancestor. *)
Fixpoint walk_added (fuel : nat) (current commonAncestor : bytes) (added : list bytes) : res TopologyError (list bytes) :=
  match fuel with
  | O => Err (ReachFailed ReachFuel)
  | S fuel' =>
      if bytes_eqb current commonAncestor then Ok added else
      let? selectedParent := selectedParentOf gd current in
      walk_added fuel' selectedParent commonAncestor (added ++ [current])
  end.

Definition CalculateChainPath (fuel : nat) (fromBlockHash toBlockHash : bytes) : res TopologyError SelectedChainPath :=
  let? common := walk_removed fuel fromBlockHash toBlockHash [] in
  let '(commonAncestor, removed) := common in
  let? added := walk_added fuel toBlockHash commonAncestor [] in
  Ok (mk_SelectedChainPath (rev added) removed).

End traversal.

(** * The chain store *)

Record headersSelectedChainStagingShard : Set := mk_chainShard {
  addedByHash : gmap bytes Z;
  removedByHash : gset bytes;
  addedByIndex : gmap Z bytes;
  removedByIndex : gset Z
}.

Record headersSelectedChainStore : Set := mk_chainStore {
  hashByIndex : gmap Z bytes;
  indexByHash : gmap bytes Z;
  highestIndex : option Z;
  chainShard : headersSelectedChainStagingShard
}.

Definition emptyShard : headersSelectedChainStagingShard := mk_chainShard ∅ ∅ ∅ ∅.

Definition emptyChainStore : headersSelectedChainStore := mk_chainStore ∅ ∅ None emptyShard.

Inductive ChainError : Set :=
| ErrAlreadyStaged
| ChainNotFound.

Abbreviation CM := (M ChainError headersSelectedChainStore).

Definition set_shard (shard : headersSelectedChainStagingShard) (cs : headersSelectedChainStore) : headersSelectedChainStore :=
  mk_chainStore (hashByIndex cs) (indexByHash cs) (highestIndex cs) shard.

(** The last comparison is written twice in the code. *)
Definition chain_isStaged (shard : headersSelectedChainStagingShard) : bool :=
  negb (bool_decide (addedByHash shard = ∅)) || negb (bool_decide (removedByHash shard = ∅)) ||
  negb (bool_decide (addedByIndex shard = ∅)) || negb (bool_decide (addedByIndex shard = ∅)).

Definition GetIndexByHash (cs : headersSelectedChainStore) (blockHash : bytes) : res ChainError Z :=
  match addedByHash (chainShard cs) !! blockHash with
  | Some index => Ok index
  | None =>
      if bool_decide (blockHash ∈ removedByHash (chainShard cs)) then Err ChainNotFound else
      match indexByHash cs !! blockHash with Some index => Ok index | None => Err ChainNotFound end
  end.

Definition GetHashByIndex (cs : headersSelectedChainStore) (index : Z) : res ChainError bytes :=
  match addedByIndex (chainShard cs) !! index with
  | Some blockHash => Ok blockHash
  | None =>
      if bool_decide (index ∈ removedByIndex (chainShard cs)) then Err ChainNotFound else
      match hashByIndex cs !! index with Some blockHash => Ok blockHash | None => Err ChainNotFound end
  end.

Fixpoint stage_removed (removed : list bytes) : CM unit :=
  match removed with
  | [] => ret tt
  | blockHash :: rest =>
      let* cs := get in
      let* index := lift (GetIndexByHash cs blockHash) in
      let shard := chainShard cs in
      put (set_shard (mk_chainShard (addedByHash shard) ({[blockHash]} ∪ removedByHash shard) (addedByIndex shard)
        ({[index]} ∪ removedByIndex shard)) cs) ;;
      stage_removed rest
  end.

Fixpoint stage_added (currentIndex : Z) (added : list bytes) : CM unit :=
  match added with
  | [] => ret tt
  | blockHash :: rest =>
      let* cs := get in
      let shard := chainShard cs in
      put (set_shard (mk_chainShard (<[blockHash := currentIndex]> (addedByHash shard)) (removedByHash shard)
        (<[currentIndex := blockHash]> (addedByIndex shard)) (removedByIndex shard)) cs) ;;
      stage_added (uint64 (currentIndex + 1)) rest
  end.

Definition chain_Stage (chainChanges : SelectedChainPath) : CM unit :=
  let* cs := get in
  if chain_isStaged (chainShard cs) then throw ErrAlreadyStaged else
  stage_removed (Removed chainChanges) ;;
  let currentIndex := match highestIndex cs with
    | None => 0
    | Some highestChainBlockIndex => uint64 (uint64 (highestChainBlockIndex - zlen (Removed chainChanges)) + 1)
    end in
  stage_added currentIndex (Added chainChanges).

Definition max_index (added : list (bytes * Z)) : Z := foldr (fun e m => if snd e >? m then snd e else m) 0 added.

(** What is staged is written, and the staging area is left. *)
Definition chain_Commit (cs : headersSelectedChainStore) : headersSelectedChainStore :=
  let shard := chainShard cs in
  if negb (chain_isStaged shard) then set_shard emptyShard cs else
  let added := map_to_list (addedByHash shard) in
  mk_chainStore
    (foldr (fun e m => <[snd e := fst e]> m) (filter (fun e => fst e ∉ removedByIndex shard) (hashByIndex cs)) added)
    (foldr (fun e m => <[fst e := snd e]> m) (filter (fun e => fst e ∉ removedByHash shard) (indexByHash cs)) added)
    (Some (max_index added))
    emptyShard.

(** * The selected tip of the headers *)

Record tips_state : Set := mk_tips_state {
  ts_tip : option bytes;
  ts_chain : headersSelectedChainStore
}.

Inductive TipError : Set :=
| TipGhostdag (e : GhostdagError)
| TipTopology (e : TopologyError)
| TipChain (e : ChainError).

Definition of_error {E F A} (wrap : E -> F) (r : res E A) : res F A :=
  match r with Ok a => Ok a | Err e => Err (wrap e) | Panic => Panic end.

Definition stage_chain (chainChanges : SelectedChainPath) : M TipError tips_state unit := fun s =>
  let '(r, cs) := chain_Stage chainChanges (ts_chain s) in (of_error TipChain r, mk_tips_state (ts_tip s) cs).

Definition AddHeaderTip (gd : ghostdag_store) (st : reach_store) (fuel : nat) (hash : bytes) : M TipError tips_state unit :=
  let* s := get in
  match ts_tip s with
  | None =>
      put (mk_tips_state (Some hash) (ts_chain s)) ;;
      stage_chain (mk_SelectedChainPath [hash] [])
  | Some headersSelectedTip =>
      let* newHeadersSelectedTip := lift (of_error TipGhostdag (ChooseSelectedParent gd [headersSelectedTip; hash])) in
      if negb (bytes_eqb newHeadersSelectedTip headersSelectedTip) then
        put (mk_tips_state (Some newHeadersSelectedTip) (ts_chain s)) ;;
        let* chainChanges := lift (of_error TipTopology (CalculateChainPath gd st fuel headersSelectedTip newHeadersSelectedTip)) in
        stage_chain chainChanges
      else ret tt
  end.

(** * What the chain store holds *)

Record chain_holds (cs : headersSelectedChainStore) (l : list bytes) : Prop := {
  ch_nodup : NoDup l;
  ch_index : forall i h, hashByIndex cs !! i = Some h <-> 0 <= i /\ l !! Z.to_nat i = Some h;
  ch_hash : forall h i, indexByHash cs !! h = Some i <-> 0 <= i /\ l !! Z.to_nat i = Some h;
  ch_highest : highestIndex cs = match l with [] => None | _ => Some (zlen l - 1) end;
  ch_clean : chainShard cs = emptyShard
}.

Lemma chain_holds_empty : chain_holds emptyChainStore [].
Proof. constructor; try done; [constructor|..]; intros i h; cbn; rewrite lookup_empty, lookup_nil; intuition congruence. Qed.

Definition index_of (cs : headersSelectedChainStore) (h : bytes) : Z := default 0 (indexByHash cs !! h).

Lemma stage_removed_ok removed : forall cs, addedByHash (chainShard cs) = ∅ -> NoDup removed ->
  (forall h, h ∈ removed -> h ∉ removedByHash (chainShard cs) /\ is_Some (indexByHash cs !! h)) ->
  stage_removed removed cs = (Ok tt, set_shard (mk_chainShard ∅ (list_to_set removed ∪ removedByHash (chainShard cs))
    (addedByIndex (chainShard cs)) (list_to_set (map (index_of cs) removed) ∪ removedByIndex (chainShard cs))) cs).
Proof.
  induction removed as [|h removed IH]; intros [hi ih top [ah rh ai ri]] Ha Hnd Hr; cbn in Ha; subst ah.
  { unfold set_shard. cbn. by rewrite !union_empty_l_L. }
  apply NoDup_cons in Hnd as [Hh Hnd]. destruct (Hr h) as [Hnr [i Hi]]; [left|]. cbn in Hnr, Hi.
  cbn [stage_removed]. erewrite bind_ok by reflexivity. cbv beta. erewrite bind_ok.
  2:{ unfold lift, GetIndexByHash. cbn. rewrite lookup_empty, bool_decide_false, Hi by done. reflexivity. }
  cbv beta zeta. erewrite bind_ok by reflexivity. cbv beta. rewrite IH; cbn [chainShard set_shard addedByHash removedByHash]; try done.
  - unfold index_of, set_shard. cbn. rewrite Hi. cbn. do 3 f_equal; set_solver.
  - intros h' Hh'. destruct (Hr h') as [H1 H2]; [by right|]. split; [|done]. rewrite not_elem_of_union, not_elem_of_singleton.
    split; [by intros ->|done].
Qed.

Lemma stage_added_ok added : forall cs i, NoDup added -> 0 <= i -> i + zlen added < 2 ^ 64 -> exists ah ai,
  stage_added i added cs = (Ok tt, set_shard (mk_chainShard ah (removedByHash (chainShard cs)) ai (removedByIndex (chainShard cs))) cs) /\
  forall h j, ah !! h = Some j <-> (exists k, added !! k = Some h /\ j = i + Z.of_nat k) \/ (h ∉ added /\ addedByHash (chainShard cs) !! h = Some j).
Proof.
  induction added as [|x added IH]; intros [hi ih top [ah rh ai ri]] i Hnd Hi Hlt.
  { exists ah, ai. split; [done|]. intros h j. cbn. split; [right; split; [apply not_elem_of_nil|done]|].
    intros [(k & Hk & _)|[_ ?]]; [by rewrite lookup_nil in Hk|done]. }
  apply NoDup_cons in Hnd as [Hx Hnd]. rewrite zlen_cons in Hlt. pose proof (zlen_nonneg added).
  cbn [stage_added]. erewrite bind_ok by reflexivity. cbv beta zeta. erewrite bind_ok by reflexivity. cbv beta.
  rewrite uint64_id by lia. match goal with |- context [stage_added _ _ ?cs] => destruct (IH cs (i + 1)) as (ah' & ai' & -> & Hah) end;
    [done|lia|lia|]. exists ah', ai'. split; [done|]. cbn in Hah |- *. intros h j. rewrite Hah, not_elem_of_cons. split.
  - intros [(k & Hk & ->)|[Hh Hj]].
    + left. exists (S k). split; [done|]. lia.
    + destruct (decide (h = x)) as [->|Hne]; [rewrite lookup_insert_eq in Hj; injection Hj as <-; left; exists 0%nat; split; [done|lia]|].
      rewrite lookup_insert_ne in Hj by done. by right.
  - intros [(k & Hk & ->)|[[Hne Hh] Hj]].
    + destruct k as [|k]; cbn in Hk; [injection Hk as <-; right; rewrite lookup_insert_eq; split; [done|f_equal; lia]|].
      left. exists k. split; [done|]. lia.
    + right. by rewrite lookup_insert_ne.
Qed.

(** Writing the entries of a list into a map. *)
Lemma foldr_insert_lookup {K} `{Countable K} {A V : Type} (f : A -> K) (w : A -> V) (base : gmap K V) (l : list A) k x : NoDup (map f l) ->
  foldr (fun e m => <[f e := w e]> m) base l !! k = Some x <->
  (exists e, e ∈ l /\ f e = k /\ w e = x) \/ ((forall e, e ∈ l -> f e <> k) /\ base !! k = Some x).
Proof.
  induction l as [|e l IH]; intros Hnd.
  { cbn. split; [right; split; [intros e He; by apply not_elem_of_nil in He|done]|]. intros [(e & He & _)|[_ ?]]; [by apply not_elem_of_nil in He|done]. }
  cbn in Hnd. apply NoDup_cons in Hnd as [He Hnd]. specialize (IH Hnd). cbn [foldr].
  destruct (decide (f e = k)) as [<-|Hne].
  - rewrite lookup_insert_eq. split.
    + intros [= <-]. left. exists e. split; [left|done].
    + intros [(e' & He' & E & <-)|[Hn _]]; [|destruct (Hn e); [left|done]]. apply elem_of_cons in He' as [->|He']; [done|].
      destruct He. rewrite <- E. by apply list_elem_of_fmap_2.
  - rewrite lookup_insert_ne, IH by done. split.
    + intros [(e' & He' & E)|[Hn Hb]]; [left; exists e'; split; [by right|done]|]. right. split; [|done].
      intros e' [->|He']%elem_of_cons; [done|by apply Hn].
    + intros [(e' & He' & E & Ew)|[Hn Hb]]; [|right; split; [intros e' He'; apply Hn; by right|done]].
      apply elem_of_cons in He' as [->|He']; [done|]. left. by exists e'.
Qed.

Lemma max_index_eq (l : list (bytes * Z)) m : 0 <= m -> (forall e, e ∈ l -> snd e <= m) -> (exists e, e ∈ l /\ snd e = m) ->
  max_index l = m.
Proof.
  intros Hm Hle (e & He & Hem).
  assert (Hb : forall k : list (bytes * Z), (forall e, e ∈ k -> snd e <= m) -> 0 <= max_index k <= m).
  { induction k as [|x k IH]; intros Hk; cbn; [lia|]. destruct IH as [I1 I2]; [intros y Hy; apply Hk; by right|].
    specialize (Hk x ltac:(left)). fold (max_index k). case_if; lia. }
  assert (Hge : snd e <= max_index l).
  { clear Hem Hle Hb. induction l as [|x l IH]; [by apply not_elem_of_nil in He|]. cbn. fold (max_index l).
    apply elem_of_cons in He as [->|He]; [|specialize (IH He)]; case_if; lia. }
  specialize (Hb l Hle). lia.
Qed.

Lemma elem_rev {A} (x : A) l : x ∈ rev l <-> x ∈ l.
Proof. by rewrite !list_elem_of_In, <- in_rev. Qed.

(** A change of the chain: what was above the common part is replaced. *)
Section change.
Variables (cs : headersSelectedChainStore) (common rem add : list bytes).
Context (Hold : chain_holds cs (common ++ rem)) (Hnd : NoDup (common ++ add)) (Hadd : add <> []).
Context (Hc1 : zlen (common ++ rem) < 2 ^ 63) (Hc2 : zlen (common ++ add) < 2 ^ 63).

Lemma removed_index h i : h ∈ rem -> indexByHash cs !! h = Some i -> zlen common <= i.
Proof.
  intros Hh Hi. apply (ch_hash _ _ Hold) in Hi as [H0 Hi]. destruct (decide (Z.to_nat i < length common)%nat) as [Hlt|Hge]; [|unfold zlen; lia].
  rewrite lookup_app_l in Hi by done. apply list_elem_of_lookup_2 in Hi. pose proof (ch_nodup _ _ Hold) as Hn. apply NoDup_app in Hn as (_ & Hn & _).
  by destruct (Hn h Hi).
Qed.

Lemma removed_indices i : i ∈ (list_to_set (map (index_of cs) (rev rem)) : gset Z) <-> zlen common <= i < zlen (common ++ rem).
Proof.
  rewrite elem_of_list_to_set, list_elem_of_fmap. split.
  - intros (h & -> & Hh). rewrite elem_rev in Hh.
    destruct (list_elem_of_lookup_1 _ _ Hh) as [k Hk]. assert (Hi : indexByHash cs !! h = Some (zlen common + Z.of_nat k)).
    { apply (ch_hash _ _ Hold). unfold zlen. split; [lia|]. rewrite lookup_app_r by lia.
      replace (Z.to_nat _ - length common)%nat with k by lia. done. }
    unfold index_of. rewrite Hi. cbn. apply lookup_lt_Some in Hk. rewrite zlen_app. unfold zlen. lia.
  - intros [Hl Hr]. rewrite zlen_app in Hr. unfold zlen in *. destruct (lookup_lt_is_Some_2 rem (Z.to_nat i - length common)) as [h Hh]; [lia|].
    exists h. split.
    + assert (Hi : indexByHash cs !! h = Some i).
      { apply (ch_hash _ _ Hold). split; [lia|]. by rewrite lookup_app_r by lia. }
      unfold index_of. by rewrite Hi.
    + rewrite elem_rev. by apply list_elem_of_lookup_2 in Hh.
Qed.

Lemma removed_hashes h : h ∈ (list_to_set (rev rem) : gset bytes) <-> h ∈ rem.
Proof. by rewrite elem_of_list_to_set, elem_rev. Qed.

(** Indices before and after. *)
Lemma common_lookup i h : 0 <= i -> i < zlen common -> (common ++ rem) !! Z.to_nat i = Some h <-> (common ++ add) !! Z.to_nat i = Some h.
Proof. intros H0 Hi. unfold zlen in Hi. rewrite !lookup_app_l by lia. done. Qed.

Lemma add_lookup i h : 0 <= i -> (common ++ add) !! Z.to_nat i = Some h <->
  (i < zlen common /\ (common ++ rem) !! Z.to_nat i = Some h) \/ exists k, add !! k = Some h /\ i = zlen common + Z.of_nat k.
Proof.
  intros H0. destruct (decide (i < zlen common)) as [Hi|Hi].
  - rewrite common_lookup by done. split; [by left|]. intros [[_ ?]|(k & _ & ->)]; [done|lia].
  - unfold zlen in *. rewrite (lookup_app_r common add) by lia. split.
    + intros Hh. right. exists (Z.to_nat i - length common)%nat. split; [done|lia].
    + intros [[? _]|(k & Hk & ->)]; [lia|]. by replace (Z.to_nat _ - length common)%nat with k by lia.
Qed.

(** The store after the entries [ah] are written. *)
Lemma commit_change ah ai : (forall h j, ah !! h = Some j <-> exists k, add !! k = Some h /\ j = zlen common + Z.of_nat k) ->
  chain_holds (chain_Commit (set_shard (mk_chainShard ah (list_to_set (rev rem)) ai (list_to_set (map (index_of cs) (rev rem)))) cs))
    (common ++ add).
Proof.
  intros Hah. assert (Hin : forall h j, (h, j) ∈ map_to_list ah <-> exists k, add !! k = Some h /\ j = zlen common + Z.of_nat k).
  { intros h j. by rewrite elem_of_map_to_list, Hah. }
  assert (Hsome : exists x0, add !! 0%nat = Some x0) by (destruct add; [done|eauto]). destruct Hsome as [x0 Hx0].
  assert (Hstaged : chain_isStaged (mk_chainShard ah (list_to_set (rev rem)) ai (list_to_set (map (index_of cs) (rev rem)))) = true).
  { unfold chain_isStaged. cbn. rewrite bool_decide_false; [done|]. intros E. specialize (Hah x0 (zlen common)). rewrite E, lookup_empty in Hah.
    assert (None = Some (zlen common)); [|done]. apply Hah. exists 0%nat. split; [done|lia]. }
  assert (Hnda : NoDup add) by (by apply NoDup_app in Hnd as (_ & _ & ?)). pose proof (zlen_nonneg common) as Hc0.
  assert (Hsnd : NoDup (map snd (map_to_list ah))).
  { apply (NoDup_fmap_2_strong snd); [|apply NoDup_map_to_list]. intros [h1 j1] [h2 j2] H1 H2 E. cbn in E. subst j2.
    apply Hin in H1 as (k1 & H1 & E1), H2 as (k2 & H2 & E2). assert (k1 = k2) as -> by lia. congruence. }
  unfold chain_Commit. cbn [chainShard set_shard]. rewrite Hstaged. cbn [negb addedByHash removedByHash removedByIndex hashByIndex indexByHash set_shard].
  constructor; cbn [hashByIndex indexByHash highestIndex chainShard]; try done.
  - intros i h. rewrite foldr_insert_lookup by done. rewrite map_lookup_filter_Some. cbn [fst]. rewrite (ch_index _ _ Hold), removed_indices.
    split.
    + intros [([h' j] & He & E1 & E2)|(_ & [H0 Hi] & Hn)]; [cbn in *; subst; apply Hin in He as (k & Hk & ->); split; [lia|]|split; [done|]];
        apply add_lookup; try lia; [right; by exists k|]. left. split; [|done]. apply lookup_lt_Some in Hi. unfold zlen in *. lia.
    + intros [H0 Hi]. apply add_lookup in Hi as [[Hi Hh]|(k & Hk & ->)]; [|left; exists (h, zlen common + Z.of_nat k); split; [apply Hin; eauto|done]|done].
      right. split; [|split; [done|lia]]. intros [h' j] He E. cbn in E. subst j. apply Hin in He as (k & _ & ->). lia.
  - intros h i. rewrite foldr_insert_lookup by apply NoDup_fst_map_to_list. rewrite map_lookup_filter_Some. cbn [fst].
    rewrite (ch_hash _ _ Hold), removed_hashes. split.
    + intros [([h' j] & He & E1 & E2)|(_ & [H0 Hi] & Hn)]; [cbn in *; subst; apply Hin in He as (k & Hk & ->); split; [lia|]|split; [done|]];
        apply add_lookup; try lia; [right; by exists k|]. left. split; [|done].
      destruct (decide (i < zlen common)) as [|Hge]; [done|]. unfold zlen in Hge. rewrite lookup_app_r in Hi by lia.
      by destruct Hn; apply list_elem_of_lookup_2 in Hi.
    + intros [H0 Hi]. apply add_lookup in Hi as [[Hi Hh]|(k & Hk & ->)]; [|left; exists (h, zlen common + Z.of_nat k); split; [apply Hin; eauto|done]|done].
      right. assert (Hc : h ∈ common) by (unfold zlen in Hi; rewrite lookup_app_l in Hh by lia; by apply list_elem_of_lookup_2 in Hh). split; [|split; [done|]].
      * intros [h' j] He E. cbn in E. subst h'. apply Hin in He as (k & Hk & _). apply NoDup_app in Hnd as (_ & Hd & _).
        apply (Hd h Hc). by apply list_elem_of_lookup_2 in Hk.
      * intros Hr. pose proof (ch_nodup _ _ Hold) as Hn. apply NoDup_app in Hn as (_ & Hd & _). by apply (Hd h Hc).
  - destruct (common ++ add) as [|y l] eqn:E; [apply app_eq_nil in E as [_ ?]; done|]. f_equal. rewrite <- E, zlen_app.
    assert (Hlen : 0 < zlen add) by (apply lookup_lt_Some in Hx0; unfold zlen; lia).
    apply max_index_eq; [lia| |].
    + intros [h j] He. apply Hin in He as (k & Hk & ->). apply lookup_lt_Some in Hk. cbn. unfold zlen. lia.
    + unfold zlen in Hlen. destruct (lookup_lt_is_Some_2 add (length add - 1)) as [h Hh]; [lia|].
      exists (h, zlen common + Z.of_nat (length add - 1)). split; [apply Hin; eauto|]. cbn. unfold zlen. lia.
Qed.

Lemma chain_change : exists cs', chain_Stage (mk_SelectedChainPath add (rev rem)) cs = (Ok tt, cs') /\
  chain_holds (chain_Commit cs') (common ++ add).
Proof.
  pose proof (ch_clean _ _ Hold) as Hcl. pose proof (zlen_nonneg common). pose proof (zlen_nonneg rem). pose proof (zlen_nonneg add).
  pose proof Hc1 as Hb1. pose proof Hc2 as Hb2. rewrite zlen_app in Hb1, Hb2.
  assert (Hrem : stage_removed (rev rem) cs = (Ok tt, set_shard (mk_chainShard ∅ (list_to_set (rev rem)) ∅
    (list_to_set (map (index_of cs) (rev rem)))) cs)).
  { rewrite stage_removed_ok; rewrite ?Hcl; cbn.
    - by rewrite !(right_id_L ∅ (∪)).
    - done.
    - rewrite <- Permutation_rev. pose proof (ch_nodup _ _ Hold) as Hn. by apply NoDup_app in Hn as (_ & _ & ?).
    - intros h Hh. split; [set_solver|]. rewrite elem_rev in Hh. apply list_elem_of_lookup_1 in Hh as [k Hk].
      exists (zlen common + Z.of_nat k). apply (ch_hash _ _ Hold). unfold zlen. split; [lia|]. rewrite lookup_app_r by lia.
      by replace (Z.to_nat _ - length common)%nat with k by lia. }
  destruct (stage_added_ok add (set_shard (mk_chainShard ∅ (list_to_set (rev rem)) ∅ (list_to_set (map (index_of cs) (rev rem)))) cs)
    (zlen common)) as (ah & ai & Hst & Hah); [by apply NoDup_app in Hnd as (_ & _ & ?)|lia|lia|].
  eexists. split.
  - unfold chain_Stage. erewrite bind_ok by reflexivity. cbv beta. rewrite Hcl. cbn [chain_isStaged].
    change (chain_isStaged emptyShard) with false. cbn iota. erewrite bind_ok by exact Hrem. cbn [Added Removed].
    replace (match highestIndex cs with None => 0 | Some n => _ end) with (zlen common); [exact Hst|].
    rewrite (ch_highest _ _ Hold). destruct (common ++ rem) as [|c0 cr] eqn:E.
    + apply app_eq_nil in E as [-> ->]. done.
    + assert (El : zlen (c0 :: cr) = zlen common + zlen rem) by (by rewrite <- E, zlen_app). rewrite El.
      assert (Er : zlen (rev rem) = zlen rem) by (unfold zlen; by rewrite length_rev). rewrite Er. 
      unfold uint64. rewrite Zplus_mod_idemp_l. rewrite Z.mod_small; lia.
  - refine (commit_change ah ai _). intros h j. rewrite Hah. cbn. rewrite lookup_empty. naive_solver.
Qed.

End change.

(** * Selected chains *)

(** The chain of selected parents from [g] up to a block. *)
Inductive selected_chain (g : bytes) (gd : ghostdag_store) : list bytes -> bytes -> Prop :=
| chain_start : selected_chain g gd [g] g
| chain_step l p b : selected_chain g gd l p -> selects gd p b -> b ∉ l -> selected_chain g gd (l ++ [b]) b.

Section chains.
Variables (g : bytes) (gd : ghostdag_store).
Abbreviation chain := (selected_chain g gd).

Lemma selected_chain_nodup l b : chain l b -> NoDup l.
Proof.
  induction 1 as [|l p b Hc IH Hs Hb]; [apply NoDup_singleton|]. apply NoDup_app. split; [done|]. split; [|apply NoDup_singleton].
  intros x Hx ->%list_elem_of_singleton. done.
Qed.

Lemma chain_ends l b : chain l b -> g ∈ l /\ b ∈ l.
Proof.
  induction 1 as [|l p b Hc [IH _] Hs Hb]; [split; left|]. split; apply elem_of_app; [by left|right; left].
Qed.

Lemma chain_below l b x : chain l b -> x ∈ l -> rtc (selects gd) x b.
Proof.
  induction 1 as [|l p b Hc IH Hs Hb]; intros Hx; [apply list_elem_of_singleton in Hx as ->; constructor|].
  apply elem_of_app in Hx as [Hx| ->%list_elem_of_singleton]; [|constructor]. eapply rtc_r; [by apply IH|done].
Qed.

Lemma chain_prefix l b x : chain l b -> x ∈ l -> exists lx up, l = lx ++ up /\ chain lx x.
Proof.
  induction 1 as [|l p b Hc IH Hs Hb]; intros Hx.
  - apply list_elem_of_singleton in Hx as ->. exists [g], []. split; [done|constructor].
  - apply elem_of_app in Hx as [Hx| ->%list_elem_of_singleton].
    + destruct (IH Hx) as (lx & up & -> & Hlx). exists lx, (up ++ [b]). by rewrite app_assoc.
    + exists (l ++ [b]), []. rewrite app_nil_r. split; [done|]. by econstructor.
Qed.

(** A block below one of the chain is on it, or below its start. *)
Lemma chain_complete l b x : chain l b -> rtc (selects gd) x b -> x ∈ l \/ rtc (selects gd) x g.
Proof.
  intros Hc. revert x. induction Hc as [|l p b Hc IH [d [Hd Hp]] Hb]; intros x Hx; [by right|].
  apply rtc_inv_r in Hx as [->|(q & Hxq & d' & Hd' & Hq)]; [left; apply elem_of_app; right; left|].
  assert (q = p) as -> by congruence. destruct (IH x Hxq) as [?|?]; [left; apply elem_of_app; by left|by right].
Qed.

Lemma chain_inv l b : chain l b -> (l = [g] /\ b = g) \/
  exists l0 p, l = l0 ++ [b] /\ chain l0 p /\ selects gd p b /\ b ∉ l0.
Proof. destruct 1 as [|l p b Hc Hs Hb]; [by left|right; by exists l, p]. Qed.

Lemma chain_unique l b : chain l b -> forall l', chain l' b -> l = l'.
Proof.
  induction 1 as [|l p b Hc IH [d [Hd Hp]] Hb]; intros l' Hl'; destruct (chain_inv _ _ Hl') as [[-> Hbg]|(l1 & p1 & -> & Hc1 & [d1 [Hd1 Hp1]] & Hb1)]; try done.
  - destruct Hb1. by apply (chain_ends l1 p1).
  - destruct Hb. rewrite Hbg. by apply (chain_ends l p).
  - assert (p1 = p) as -> by congruence. by rewrite (IH l1).
Qed.

Lemma chain_last l b : chain l b -> last l = Some b.
Proof. destruct 1 as [|l p b Hc Hs Hb]; [done|]. apply last_snoc. Qed.

Lemma walk_added_ok add : forall fuel lc c t acc, chain lc c -> chain (lc ++ add) t -> (length add < fuel)%nat ->
  walk_added gd fuel t c acc = Ok (acc ++ rev add).
Proof.
  induction add as [|b add IH] using rev_ind; intros fuel lc c t acc Hc Ht Hf.
  - rewrite app_nil_r in Ht. destruct fuel as [|fuel]; [cbn in Hf; lia|]. cbn [walk_added].
    assert (t = c) as ->.
    { apply chain_last in Hc, Ht. congruence. }
    unfold bytes_eqb. rewrite bool_decide_true by done. cbn. by rewrite app_nil_r.
  - rewrite length_app in Hf. cbn in Hf. destruct fuel as [|fuel]; [lia|]. cbn [walk_added]. rewrite app_assoc in Ht.
    destruct (chain_inv _ _ Ht) as [[E _]|(l1 & p1 & E1 & H4 & H5 & H6)].
    + apply (app_inj_tail (lc ++ add) []) in E as [[-> ->]%app_eq_nil _]. by apply chain_ends in Hc as [Hc%not_elem_of_nil _].
    + apply app_inj_tail in E1 as [<- <-]. unfold bytes_eqb. rewrite bool_decide_false.
      2:{ intros ->. apply H6, elem_of_app. left. by apply chain_ends in Hc as [_ ?]. }
      destruct H5 as (d & Hd & Hp). unfold selectedParentOf. rewrite Hd, Hp. cbn [bind_res].
      rewrite (IH fuel lc c p1) by (done || lia). by rewrite rev_app_distr, <- app_assoc.
Qed.

Section walk.
Variables (st : reach_store) (to : bytes) (lt : list bytes).
Context (Hto : chain lt to).
Variable ok : bytes -> Prop.
Context (Hquery : forall x, ok x -> exists r, IsInSelectedParentChainOf gd st x to false = Ok r /\ (r = true <-> x ∈ lt)).

Lemma walk_removed_ok lf from : chain lf from -> (forall x, x ∈ lf -> ok x) -> forall fuel acc, (length lf <= fuel)%nat -> exists common rem add c,
  lf = common ++ rem /\ lt = common ++ add /\ chain common c /\ walk_removed gd st fuel from to acc = Ok (c, acc ++ rev rem).
Proof.
  induction 1 as [|l p b Hc IH Hs Hb]; intros Hlf fuel acc Hf.
  - destruct fuel as [|fuel]; [cbn in Hf; lia|]. cbn [walk_removed]. destruct (Hquery g) as (r & -> & Hr); [apply Hlf; left|]. cbn [bind_res].
    assert (Hg : g ∈ lt) by (by apply chain_ends in Hto as [? _]). rewrite (proj2 Hr Hg).
    destruct (chain_prefix lt to g Hto Hg) as (lx & up & -> & Hlx). exists [g], [], up, g.
    rewrite (chain_unique _ _ Hlx [g]) by constructor. rewrite !app_nil_r. split_and!; try done. constructor.
  - rewrite length_app in Hf. cbn in Hf. destruct fuel as [|fuel]; [lia|]. cbn [walk_removed].
    assert (Hbc : chain (l ++ [b]) b) by (by econstructor). destruct (Hquery b) as (r & -> & Hr); [apply Hlf, elem_of_app; right; left|]. cbn [bind_res]. destruct r.
    + destruct (chain_prefix lt to b Hto) as (lx & up & -> & Hlx); [by apply Hr|]. exists (l ++ [b]), [], up, b.
      rewrite (chain_unique _ _ Hlx _ Hbc). rewrite !app_nil_r. done.
    + destruct (IH) with (fuel := fuel) (acc := acc ++ [b]) as (common & rem & add & c & -> & -> & Hcc & Hrun);
        [intros x Hx; apply Hlf, elem_of_app; by left|lia|].
      exists common, (rem ++ [b]), add, c. rewrite app_assoc. split_and!; try done.
      destruct Hs as (d & Hd & Hp). unfold selectedParentOf. rewrite Hd, Hp. cbn [bind_res]. rewrite Hrun.
      by rewrite rev_app_distr, <- app_assoc.
Qed.

(** The path replaces what is above the last common block. *)
Lemma CalculateChainPath_ok lf from fuel : chain lf from -> (forall x, x ∈ lf -> ok x) -> (length lf <= fuel)%nat -> (length lt <= fuel)%nat -> exists common rem add,
  lf = common ++ rem /\ lt = common ++ add /\
  CalculateChainPath gd st fuel from to = Ok (mk_SelectedChainPath add (rev rem)).
Proof.
  intros Hf Hlf H1 H2. destruct (walk_removed_ok lf from Hf Hlf fuel [] H1) as (common & rem & add & c & -> & Hlt & Hcc & Hrun).
  exists common, rem, add. split_and!; try done. unfold CalculateChainPath. rewrite Hrun. cbn [bind_res].
  assert (Hne : (0 < length common)%nat) by (apply chain_ends in Hcc as [Hcc _]; destruct common; [by apply not_elem_of_nil in Hcc|cbn; lia]).
  rewrite (walk_added_ok add fuel common c to).
  - cbn. by rewrite rev_involutive.
  - done.
  - by rewrite <- Hlt.
  - rewrite Hlt, length_app in H2. lia.
Qed.

End walk.

End chains.
