(* ===== verification/HeaderInsert.v ===== *)
(** Headers going through the block processor.
    [src/domain/consensus/processes/blockprocessor/validate_block.go],
    [validate_and_insert_block.go], [validate_and_insert_block_with_trusted_data.go],
    [src/domain/consensus/processes/blockvalidator/pruning_violation_proof_of_work_and_difficulty.go],
    [block_header_in_context.go], [header_pruning_point.go],
    [src/domain/consensus/processes/parentsmanager/parentsmanager.go],
    [src/domain/consensus/model/externalapi/blocklevelparents.go] and [Init] of
    [src/domain/consensus/consensus.go].

    The stores that the validation of a header writes are the state: headers,
    statuses, relations, GHOSTDAG data, reachability data, the selected tip with
    its chain, and of the block store and the pruning store the hashes of the
    blocks and the pruning point.  Validation works on a staging area, so an
    error leaves the stores as they were.  The managers of block level zero are
    modelled; those of higher levels have stores of their own.  What other
    components compute for a header is the class [HeaderComponents], what happens to
    a block with a body besides is the class [BodyComponents]. *)

From S2P Require Import Prelude Transaction SigHash Block Difficulty TxMass Ghostdag GhostdagMergeSet ReachInterval Reachability Reindex.
From S2P Require Import ReachTree ReindexCount ReindexPropagate ReindexReclaim ReindexChain ReindexAdd ReachAdd ReachFuture ReachConcentrate.
From S2P Require Import ReachRoot ReachRun DagTopology HeaderTips BlockValidator.

(** * Data *)

Inductive BlockStatus : Set :=
| StatusInvalid
| StatusUTXOValid
| StatusUTXOPendingVerification
| StatusDisqualifiedFromChain
| StatusHeaderOnly.

#[export] Instance BlockStatus_eq_dec : EqDecision BlockStatus.
Proof. solve_decision. Defined.

Record headers_state : Set := mk_headers_state {
  hs_headers : gmap bytes BlockHeader;
  hs_status : gmap bytes BlockStatus;
  hs_blocks : gset bytes;
  hs_relations : relation_store;
  hs_ghostdag : ghostdag_store;
  hs_reach : reach_store;
  hs_tips : tips_state;
  hs_pruningPoint : option bytes
}.

(** The rule errors. *)
Inductive HeaderRule : Set :=
| IsolationRule (e : BlockRuleError)
| ErrGenesisOnInitializedConsensus
| ErrKnownInvalid
| ErrDuplicateBlock
| ErrVirtualGenesisParent
| ErrInvalidAncestorBlock
| ErrMissingParents (missingParentHashes : list bytes)
| ErrInvalidParentsRelation
| ErrPruningPointViolation
| ErrNegativeTarget
| ErrTargetTooHigh
| ErrInvalidPoW
| ErrUnexpectedDifficulty
| ErrTimeTooOld
| ErrViolatingMergeLimit
| ErrUnexpectedParents
| ErrViolatingBoundedMergeDepth
| ErrUnexpectedDAAScore
| ErrUnexpectedBlueWork
| ErrUnexpectedPruningPoint.

(** [Rejected] and [RejectedInContext] are rule errors, before and after the proof
    of work is checked; the others are failures of the node. *)
Inductive HeaderError : Set :=
| Rejected (e : HeaderRule)
| RejectedInContext (e : HeaderRule)
| TopologyFailed (e : TopologyError)
| GhostdagFailed (e : GhostdagError)
| ReachabilityFailed (e : ReachError)
| TipsFailed (e : TipError)
| HeaderNotFound
| GhostdagDataNotFound
| ErrMissingDirectParent
| ErrAlreadyUTXOValid
| PruningPointNotFound.

Abbreviation HM := (M HeaderError headers_state).

(** A call of a component that owns one of the stores. *)
Definition in_relations {A} (m : M TopologyError relation_store A) : HM A := fun s =>
  let '(r, rel) := m (hs_relations s) in (of_error TopologyFailed r,
    mk_headers_state (hs_headers s) (hs_status s) (hs_blocks s) rel (hs_ghostdag s) (hs_reach s) (hs_tips s) (hs_pruningPoint s)).

Definition in_ghostdag {A} (m : M GhostdagError ghostdag_store A) : HM A := fun s =>
  let '(r, gd) := m (hs_ghostdag s) in (of_error GhostdagFailed r,
    mk_headers_state (hs_headers s) (hs_status s) (hs_blocks s) (hs_relations s) gd (hs_reach s) (hs_tips s) (hs_pruningPoint s)).

Definition in_reach {A} (m : M ReachError reach_store A) : HM A := fun s =>
  let '(r, st) := m (hs_reach s) in (of_error ReachabilityFailed r,
    mk_headers_state (hs_headers s) (hs_status s) (hs_blocks s) (hs_relations s) (hs_ghostdag s) st (hs_tips s) (hs_pruningPoint s)).

Definition in_tips {A} (m : M TipError tips_state A) : HM A := fun s =>
  let '(r, ts) := m (hs_tips s) in (of_error TipsFailed r,
    mk_headers_state (hs_headers s) (hs_status s) (hs_blocks s) (hs_relations s) (hs_ghostdag s) (hs_reach s) ts (hs_pruningPoint s)).

Definition stage_header (blockHash : bytes) (header : BlockHeader) : HM unit :=
  modify (fun s => mk_headers_state (<[blockHash := header]> (hs_headers s)) (hs_status s) (hs_blocks s)
    (hs_relations s) (hs_ghostdag s) (hs_reach s) (hs_tips s) (hs_pruningPoint s)).

Definition set_status (blockHash : bytes) (status : BlockStatus) (s : headers_state) : headers_state :=
  mk_headers_state (hs_headers s) (<[blockHash := status]> (hs_status s)) (hs_blocks s)
    (hs_relations s) (hs_ghostdag s) (hs_reach s) (hs_tips s) (hs_pruningPoint s).

Definition stage_block (blockHash : bytes) : HM unit :=
  modify (fun s => mk_headers_state (hs_headers s) (hs_status s) ({[blockHash]} ∪ hs_blocks s)
    (hs_relations s) (hs_ghostdag s) (hs_reach s) (hs_tips s) (hs_pruningPoint s)).

Definition commit_chain : HM unit :=
  modify (fun s => mk_headers_state (hs_headers s) (hs_status s) (hs_blocks s)
    (hs_relations s) (hs_ghostdag s) (hs_reach s) (mk_tips_state (ts_tip (hs_tips s)) (chain_Commit (ts_chain (hs_tips s)))) (hs_pruningPoint s)).

Definition header_at (s : headers_state) (blockHash : bytes) : res HeaderError BlockHeader :=
  match hs_headers s !! blockHash with Some header => Ok header | None => Err HeaderNotFound end.

(** The topology manager and the header store GHOSTDAG calls, over the stores as
    they are. *)
Definition topology_of (s : headers_state) : DAGTopologyManager := {|
  Parents := fun blockHash => of_error (fun _ => StoreError) (dtm_Parents (hs_relations s) blockHash);
  IsAncestorOf := fun a b => of_error (fun _ => StoreError) (dtm_IsAncestorOf (hs_reach s) a b)
|}.

Definition header_store (s : headers_state) : BlockHeaderStore := {|
  header_of := fun blockHash => of_error (fun _ => StoreError) (header_at s blockHash)
|}.

(** What the difficulty manager, the past median time manager, the block parent
    builder, the merge depth manager, the DAA store, the pruning manager and the
    proof of work compute for a block. *)
Class HeaderComponents := {
  CalculateProofOfWorkValue : BlockHeader -> Z;
  RequiredDifficulty : headers_state -> bytes -> bool -> Z;
  PastMedianTime : headers_state -> bytes -> Z;
  BuildParents : headers_state -> Z -> list bytes -> list (list bytes);
  IsMergeDepthBounded : headers_state -> bytes -> bool -> bool;
  ExpectedDAAScore : headers_state -> bytes -> Z;
  ExpectedHeaderPruningPoint : headers_state -> bytes -> bytes
}.

(** What blocks with a body go through besides: the validation of the body, the
    consensus state manager, and the pruning manager. *)
Class BodyComponents := {
  BodyInIsolation : headers_state -> bytes -> res HeaderError unit;
  BodyInContext : headers_state -> bytes -> bool -> res HeaderError unit;
  csm_AddBlock : bytes -> bool -> HM unit;
  ReverseUTXODiffs : bytes -> HM unit;
  UpdatePruningPointByVirtual : HM unit;
  UpdatePruningPointIfRequired : HM unit
}.

(** * Parents by level *)

Definition BlockLevelParents_Equal (sl other : list bytes) : bool :=
  if negb (zlen sl =? zlen other) then false
  else forallb (fun thisHash => existsb (fun otherHash => bytes_eqb thisHash otherHash) other) sl.

Fixpoint ParentsEqual (a b : list (list bytes)) : bool :=
  match a, b with
  | [], [] => true
  | x :: a, y :: b => if negb (BlockLevelParents_Equal x y) then false else ParentsEqual a b
  | _, _ => false
  end.

Definition ParentsAtLevel (genesisHash : bytes) (blockHeader : BlockHeader) (level : nat) : list bytes :=
  let parentsAtLevel := match hdr_Parents blockHeader !! level with Some l => l | None => [] end in
  if (zlen parentsAtLevel =? 0) && (zlen (DirectParents blockHeader) >? 0) then [genesisHash] else parentsAtLevel.

Definition ContainsOnlyVirtualGenesis (blockHashes : list bytes) : bool :=
  match blockHashes with [h] => bytes_eqb h VirtualGenesisBlockHash | _ => false end.

(** * Checks that read the stores *)

Definition checkParentNotVirtualGenesis (header : BlockHeader) : res HeaderError unit :=
  if existsb (fun parent => bytes_eqb parent VirtualGenesisBlockHash) (DirectParents header)
  then Err (Rejected ErrVirtualGenesisParent) else Ok tt.

Fixpoint missing_parents (s : headers_state) (parents missing : list bytes) : res HeaderError (list bytes) :=
  match parents with
  | [] => Ok missing
  | parent :: rest =>
      match hs_headers s !! parent with
      | Some _ => missing_parents s rest missing
      | None =>
          if bool_decide (hs_status s !! parent = Some StatusInvalid) then Err (Rejected ErrInvalidAncestorBlock)
          else missing_parents s rest (missing ++ [parent])
      end
  end.

Definition checkParentHeadersExist (s : headers_state) (header : BlockHeader) (isBlockWithTrustedData : bool)
    : res HeaderError unit :=
  if isBlockWithTrustedData then Ok tt else
  let? missingParentHashes := missing_parents s (DirectParents header) [] in
  if zlen missingParentHashes >? 0 then Err (Rejected (ErrMissingParents missingParentHashes)) else Ok tt.

(** The parents that have GHOSTDAG data. *)
Fixpoint known_parents (gd : ghostdag_store) (isBlockWithTrustedData : bool) (directParents : list bytes)
    : res HeaderError (list bytes) :=
  match directParents with
  | [] => Ok []
  | parent :: rest =>
      match gd !! (parent, false) with
      | Some _ => let? parents := known_parents gd isBlockWithTrustedData rest in Ok (parent :: parents)
      | None =>
          if negb isBlockWithTrustedData then Err ErrMissingDirectParent
          else known_parents gd isBlockWithTrustedData rest
      end
  end.

Definition setParents (genesisHash blockHash : bytes) (header : BlockHeader) (isBlockWithTrustedData : bool) : HM unit :=
  let* s := get in
  let* parents := lift (known_parents (hs_ghostdag s) isBlockWithTrustedData (ParentsAtLevel genesisHash header 0)) in
  let parents := match parents with [] => [VirtualGenesisBlockHash] | _ => parents end in
  in_relations (SetParents blockHash parents).

Fixpoint incest_with (st : reach_store) (parentA : bytes) (parents : list bytes) : res HeaderError unit :=
  match parents with
  | [] => Ok tt
  | parentB :: rest =>
      if bytes_eqb parentA parentB then incest_with st parentA rest else
      let? isAAncestorOfB := of_error TopologyFailed (dtm_IsAncestorOf st parentA parentB) in
      if isAAncestorOfB : bool then Err (Rejected ErrInvalidParentsRelation) else incest_with st parentA rest
  end.

Fixpoint incest_loop (st : reach_store) (parents rest : list bytes) : res HeaderError unit :=
  match rest with
  | [] => Ok tt
  | parentA :: rest => let? _ := incest_with st parentA parents in incest_loop st parents rest
  end.

Definition checkParentsIncest (s : headers_state) (blockHash : bytes) : res HeaderError unit :=
  let? parents := of_error TopologyFailed (dtm_Parents (hs_relations s) blockHash) in
  incest_loop (hs_reach s) parents parents.

Definition checkPruningPointViolation (s : headers_state) (blockHash : bytes) : res HeaderError unit :=
  match hs_pruningPoint s with
  | None => Ok tt
  | Some pruningPoint =>
      let? parents := of_error TopologyFailed (dtm_Parents (hs_relations s) blockHash) in
      if ContainsOnlyVirtualGenesis parents then Ok tt else
      let? isAncestorOfAny := of_error TopologyFailed (IsAncestorOfAny (hs_reach s) pruningPoint parents) in
      if negb isAncestorOfAny then Err (Rejected ErrPruningPointViolation) else Ok tt
  end.

Definition checkMergeSizeLimit (mergeSetSizeLimit : Z) (s : headers_state) (hash : bytes) : res HeaderError unit :=
  match hs_ghostdag s !! (hash, false) with
  | None => Err GhostdagDataNotFound
  | Some ghostdagData =>
      let mergeSetSize := zlen (MergeSetBlues ghostdagData) + zlen (MergeSetReds ghostdagData) in
      if uint64 mergeSetSize >? mergeSetSizeLimit then Err (RejectedInContext ErrViolatingMergeLimit) else Ok tt
  end.

Definition checkBlueWork (s : headers_state) (blockHash : bytes) (header : BlockHeader) : res HeaderError unit :=
  match hs_ghostdag s !! (blockHash, false) with
  | None => Err GhostdagDataNotFound
  | Some ghostdagData =>
      if negb (hdr_BlueWork header =? BlueWork ghostdagData) then Err (RejectedInContext ErrUnexpectedBlueWork) else Ok tt
  end.

(** The error is that of the blue work. *)
Definition checkHeaderBlueScore (s : headers_state) (blockHash : bytes) (header : BlockHeader) : res HeaderError unit :=
  match hs_ghostdag s !! (blockHash, false) with
  | None => Err GhostdagDataNotFound
  | Some ghostdagData =>
      if negb (hdr_BlueScore header =? BlueScore ghostdagData) then Err (RejectedInContext ErrUnexpectedBlueWork) else Ok tt
  end.

(** * The validators *)

Record headerValidator `{Crypto} := mk_headerValidator {
  hv_isolation : blockValidator;
  hv_powMax : Z;
  hv_skipPoW : bool;
  hv_mergeSetSizeLimit : Z
}.

Section handlers.
Context `{C : Crypto} `{FC : FloatConversion} `{HC : HeaderComponents} `{BC : BodyComponents}.
Variable v : headerValidator.
Variable gm : ghostdagManager.
Variable rt : reachabilityManager.
(** The clock. *)
Variable now : Z.
Variable fuel : nat.

Definition checkProofOfWork (header : BlockHeader) : res HeaderError unit :=
  let target := CompactToBig (hdr_Bits header) in
  if target <=? 0 then Err (Rejected ErrNegativeTarget)
  else if target >? hv_powMax v then Err (Rejected ErrTargetTooHigh)
  else if negb (hv_skipPoW v) && negb (CalculateProofOfWorkValue header <=? target) then Err (Rejected ErrInvalidPoW)
  else Ok tt.

Definition run_ghostdag (blockHash : bytes) : HM unit := fun s =>
  in_ghostdag (@GHOSTDAG (topology_of s) (header_store s) gm fuel blockHash) s.

Definition validateDifficulty (blockHash : bytes) (isBlockWithTrustedData : bool) : HM unit :=
  (if negb isBlockWithTrustedData then run_ghostdag blockHash else ret tt) ;;
  let* s := get in
  let* header := lift (header_at s blockHash) in
  if negb (hdr_Bits header =? RequiredDifficulty s blockHash isBlockWithTrustedData)
  then throw (Rejected ErrUnexpectedDifficulty) else ret tt.

Definition ValidatePruningPointViolationAndProofOfWorkAndDifficulty (blockHash : bytes) (isBlockWithTrustedData : bool) : HM unit :=
  let* s := get in
  let* header := lift (header_at s blockHash) in
  lift (checkParentNotVirtualGenesis header) ;;
  lift (checkParentHeadersExist s header isBlockWithTrustedData) ;;
  setParents (gm_genesisHash gm) blockHash header isBlockWithTrustedData ;;
  let* s := get in
  lift (checkParentsIncest s blockHash) ;;
  (if negb isBlockWithTrustedData then lift (checkPruningPointViolation s blockHash) else ret tt) ;;
  (if negb (bytes_eqb blockHash (gm_genesisHash gm)) then lift (checkProofOfWork header) else ret tt) ;;
  validateDifficulty blockHash isBlockWithTrustedData.

Definition validateMedianTime (s : headers_state) (header : BlockHeader) : res HeaderError unit :=
  if zlen (DirectParents header) =? 0 then Ok tt else
  if hdr_TimeInMilliseconds header <=? PastMedianTime s (HeaderHash header) then Err (RejectedInContext ErrTimeTooOld) else Ok tt.

Definition add_reachability (blockHash : bytes) : HM unit := fun s =>
  match rs_data (hs_reach s) !! blockHash with
  | Some _ => (Ok tt, s)
  | None => in_reach (AddBlock rt fuel (hs_ghostdag s) blockHash) s
  end.

Definition checkIndirectParents (s : headers_state) (header : BlockHeader) : res HeaderError unit :=
  if negb (ParentsEqual (hdr_Parents header) (BuildParents s (hdr_DAAScore header) (DirectParents header)))
  then Err (RejectedInContext ErrUnexpectedParents) else Ok tt.

Definition CheckBoundedMergeDepth (s : headers_state) (blockHash : bytes) (isBlockWithTrustedData : bool) : res HeaderError unit :=
  if negb (IsMergeDepthBounded s blockHash isBlockWithTrustedData) then Err (RejectedInContext ErrViolatingBoundedMergeDepth) else Ok tt.

Definition checkDAAScore (s : headers_state) (blockHash : bytes) (header : BlockHeader) : res HeaderError unit :=
  if negb (hdr_DAAScore header =? ExpectedDAAScore s blockHash) then Err (RejectedInContext ErrUnexpectedDAAScore) else Ok tt.

Definition validateHeaderPruningPoint (s : headers_state) (blockHash : bytes) : res HeaderError unit :=
  if bytes_eqb blockHash (gm_genesisHash gm) then Ok tt else
  let? header := header_at s blockHash in
  if negb (bytes_eqb (hdr_PruningPoint header) (ExpectedHeaderPruningPoint s blockHash))
  then Err (RejectedInContext ErrUnexpectedPruningPoint) else Ok tt.

Definition ValidateHeaderInContext (blockHash : bytes) (isBlockWithTrustedData : bool) : HM unit :=
  let* s := get in
  let* header := lift (header_at s blockHash) in
  lift (validateMedianTime s header) ;;
  lift (checkMergeSizeLimit (hv_mergeSetSizeLimit v) s blockHash) ;;
  add_reachability blockHash ;;
  let* s := get in
  (if negb isBlockWithTrustedData then lift (checkIndirectParents s header) else ret tt) ;;
  lift (CheckBoundedMergeDepth s blockHash isBlockWithTrustedData) ;;
  lift (checkDAAScore s blockHash header) ;;
  lift (checkBlueWork s blockHash header) ;;
  lift (checkHeaderBlueScore s blockHash header) ;;
  (if negb isBlockWithTrustedData then lift (validateHeaderPruningPoint s blockHash) else ret tt).

(** * The block processor *)

Definition checkBlockStatus (s : headers_state) (hash : bytes) (isHeaderOnlyBlock : bool) : res HeaderError unit :=
  match hs_status s !! hash with
  | None => Ok tt
  | Some StatusInvalid => Err (Rejected ErrKnownInvalid)
  | Some _ =>
      if negb isHeaderOnlyBlock then
        if bool_decide (hash ∈ hs_blocks s) then Err (Rejected ErrDuplicateBlock) else Ok tt
      else match hs_headers s !! hash with Some _ => Err (Rejected ErrDuplicateBlock) | None => Ok tt end
  end.

Definition hasValidatedHeader (s : headers_state) (blockHash : bytes) : bool :=
  match hs_status s !! blockHash with
  | None => false
  | Some status => negb (bool_decide (status = StatusInvalid))
  end.

Definition isolation (s : headers_state) (blockHash : bytes) : res HeaderError unit :=
  let? _ := header_at s blockHash in
  of_error (fun e => Rejected (IsolationRule e))
    (ValidateHeaderInIsolation (hv_isolation v) now
      (fun h => match hs_headers s !! h with Some header => Ok header | None => Panic end) blockHash).

Definition validatePreProofOfWork (blockHash : bytes) : HM unit :=
  let* s := get in
  if hasValidatedHeader s blockHash then ret tt else lift (isolation s blockHash).

Definition validatePostProofOfWork (blockHash : bytes) (isHeaderOnlyBlock isBlockWithTrustedData : bool) : HM unit :=
  (if negb isHeaderOnlyBlock then
     stage_block blockHash ;; let* s := get in lift (BodyInIsolation s blockHash)
   else ret tt) ;;
  let* s := get in
  (if negb (hasValidatedHeader s blockHash) then ValidateHeaderInContext blockHash isBlockWithTrustedData else ret tt) ;;
  if negb isHeaderOnlyBlock then
    let* s := get in lift (BodyInContext s blockHash isBlockWithTrustedData)
  else ret tt.

Definition validateBlock (header : BlockHeader) (isHeaderOnlyBlock isBlockWithTrustedData : bool) : HM unit :=
  let blockHash := HeaderHash header in
  let* s := get in
  (if bytes_eqb blockHash (gm_genesisHash gm) && negb (Z.of_nat (size (hs_blocks s)) =? 0)
   then throw (Rejected ErrGenesisOnInitializedConsensus) else ret tt) ;;
  lift (checkBlockStatus s blockHash isHeaderOnlyBlock) ;;
  let hasValidatedHeader := hasValidatedHeader s blockHash in
  (if negb hasValidatedHeader then stage_header blockHash header else ret tt) ;;
  validatePreProofOfWork blockHash ;;
  (if negb hasValidatedHeader
   then ValidatePruningPointViolationAndProofOfWorkAndDifficulty blockHash isBlockWithTrustedData else ret tt) ;;
  validatePostProofOfWork blockHash isHeaderOnlyBlock isBlockWithTrustedData.

Definition setBlockStatusAfterBlockValidation (blockHash : bytes) (isHeaderOnlyBlock isPruningPoint : bool) : HM unit :=
  let* s := get in
  if bool_decide (hs_status s !! blockHash = Some StatusUTXOValid) then
    if negb isPruningPoint then throw ErrAlreadyUTXOValid else ret tt
  else put (set_status blockHash (if isHeaderOnlyBlock then StatusHeaderOnly else StatusUTXOPendingVerification) s).

Definition updateReachabilityReindexRoot (oldHeadersSelectedTip : bytes) : HM unit :=
  let* s := get in
  match ts_tip (hs_tips s) with
  | None => throw (TipsFailed (TipChain ChainNotFound))
  | Some headersSelectedTip =>
      if bytes_eqb headersSelectedTip oldHeadersSelectedTip then ret tt
      else in_reach (UpdateReindexRoot rt fuel (hs_ghostdag s) headersSelectedTip)
  end.

(** Up to the commit.  What [loadUTXODataForGenesis] stages is read by the consensus
    state manager only. *)
Definition validateAndInsertBlock (header : BlockHeader)
    (isHeaderOnlyBlock isPruningPoint shouldValidateAgainstUTXO isBlockWithTrustedData : bool) : HM unit :=
  let blockHash := HeaderHash header in
  validateBlock header isHeaderOnlyBlock isBlockWithTrustedData ;;
  setBlockStatusAfterBlockValidation blockHash isHeaderOnlyBlock isPruningPoint ;;
  let* s := get in
  let oldHeadersSelectedTip := ts_tip (hs_tips s) in
  let* shouldAddHeaderSelectedTip := (match oldHeadersSelectedTip with
    | None => ret true
    | Some _ =>
        match hs_pruningPoint s with
        | None => throw PruningPointNotFound
        | Some pruningPoint =>
            lift (of_error TopologyFailed (IsInSelectedParentChainOf (hs_ghostdag s) (hs_reach s) pruningPoint blockHash false))
        end
    end) in
  (if shouldAddHeaderSelectedTip : bool then in_tips (AddHeaderTip (hs_ghostdag s) (hs_reach s) fuel blockHash) else ret tt) ;;
  (if negb isHeaderOnlyBlock then csm_AddBlock blockHash shouldValidateAgainstUTXO else ret tt) ;;
  (match oldHeadersSelectedTip with
   | None => ret tt
   | Some oldHeadersSelectedTip => updateReachabilityReindexRoot oldHeadersSelectedTip
   end) ;;
  (if negb isHeaderOnlyBlock && shouldValidateAgainstUTXO then UpdatePruningPointByVirtual else ret tt) ;;
  commit_chain.

(** The commit of what [insert] staged for a block, and what follows it.  A
    block that turns out to be invalid in its context leaves its status behind,
    other errors leave nothing. *)
Definition commit_block (blockHash : bytes) (isHeaderOnlyBlock : bool) (insert : HM unit) : HM unit := fun s =>
  match insert s with
  | (Ok tt, s') => ((if negb isHeaderOnlyBlock then ReverseUTXODiffs blockHash else ret tt) ;; UpdatePruningPointIfRequired) s'
  | (Err (RejectedInContext e), _) => (Err (RejectedInContext e), set_status blockHash StatusInvalid s)
  | (r, _) => (r, s)
  end.

Definition ValidateAndInsertBlock (header : BlockHeader) (isHeaderOnlyBlock shouldValidateAgainstUTXO : bool) : HM unit :=
  commit_block (HeaderHash header) isHeaderOnlyBlock
    (validateAndInsertBlock header isHeaderOnlyBlock false shouldValidateAgainstUTXO false).

(** Headers one after the other, with their results. *)
Fixpoint process_headers (headers : list BlockHeader) (s : headers_state) : list (res HeaderError unit) * headers_state :=
  match headers with
  | [] => ([], s)
  | header :: rest =>
      let '(r, s) := ValidateAndInsertBlock header true true s in
      let '(rs, s) := process_headers rest s in (r :: rs, s)
  end.

(** * Blocks with trusted data *)

Definition isPruned (gd : ghostdag_store) (blockHash : bytes) : bool :=
  match gd !! (blockHash, false) with Some _ => false | None => true end.

Fixpoint unpruned_blues (gd : ghostdag_store) (selectedParent : option bytes) (blues : list bytes) : list bytes :=
  match blues with
  | [] => []
  | blockHash :: rest =>
      if isPruned gd blockHash then
        if hash_Equal selectedParent (Some blockHash) then VirtualGenesisBlockHash :: unpruned_blues gd selectedParent rest
        else unpruned_blues gd selectedParent rest
      else blockHash :: unpruned_blues gd selectedParent rest
  end.

(** A nil selected parent is dereferenced. *)
Definition ghostdagDataWithoutPrunedBlocks (gd : ghostdag_store) (data : BlockGHOSTDAGData) : res HeaderError BlockGHOSTDAGData :=
  match SelectedParent data with
  | None => Panic
  | Some selectedParent => Ok (mk_BlockGHOSTDAGData (BlueScore data) (BlueWork data)
      (Some (if isPruned gd selectedParent then VirtualGenesisBlockHash else selectedParent))
      (unpruned_blues gd (Some selectedParent) (MergeSetBlues data))
      (filter (fun blockHash => isPruned gd blockHash = false) (MergeSetReds data))
      (BluesAnticoneSizes data))
  end.

Definition stage_ghostdag (blockHash : bytes) (data : BlockGHOSTDAGData) (isTrustedData : bool) : HM unit :=
  in_ghostdag (modify (ghostdag_Stage blockHash data isTrustedData)).

(** The headers of the DAA window, and [pairs], the GHOSTDAG data that came with
    the block, its own first.  The DAA window and the DAA score are staged in stores of
    their own. *)
Definition validateAndInsertBlockWithTrustedData (header : BlockHeader) (isHeaderOnlyBlock : bool)
    (daaWindow : list BlockHeader) (pairs : list (bytes * BlockGHOSTDAGData)) (validateUTXO : bool) : HM unit :=
  foldr (fun h k => stage_header (HeaderHash h) h ;; k) (ret tt) daaWindow ;;
  let* s := get in
  let* own := lift (match pairs with [] => Panic | own :: _ => Ok (snd own) end) in
  let* blockReplacedGHOSTDAGData := lift (ghostdagDataWithoutPrunedBlocks (hs_ghostdag s) own) in
  stage_ghostdag (HeaderHash header) blockReplacedGHOSTDAGData false ;;
  foldr (fun other k => stage_ghostdag (fst other) (snd other) true ;; k) (ret tt) pairs ;;
  validateAndInsertBlock header isHeaderOnlyBlock false validateUTXO true.

Definition ValidateAndInsertBlockWithTrustedData (header : BlockHeader) (isHeaderOnlyBlock : bool)
    (daaWindow : list BlockHeader) (pairs : list (bytes * BlockGHOSTDAGData)) (validateUTXO : bool) : HM unit :=
  commit_block (HeaderHash header) isHeaderOnlyBlock
    (validateAndInsertBlockWithTrustedData header isHeaderOnlyBlock daaWindow pairs validateUTXO).

(** * consensus.go: Init *)

Definition virtual_genesis_data : BlockGHOSTDAGData := mk_BlockGHOSTDAGData 0 0 None [] [] ∅.

Definition trusted_genesis_data : BlockGHOSTDAGData :=
  mk_BlockGHOSTDAGData 0 0 (Some VirtualGenesisBlockHash) [] [] ∅.

(** The tips of the consensus state are a store of their own. *)
Definition init_virtual_genesis : HM unit := fun s =>
  match (put (set_status VirtualGenesisBlockHash StatusUTXOValid s) ;;
         in_reach Init ;;
         in_relations (SetParents VirtualGenesisBlockHash []) ;;
         stage_ghostdag VirtualGenesisBlockHash virtual_genesis_data false) s with
  | (Ok tt, s') => (Ok tt, s')
  | (r, _) => (r, s)
  end.

Definition consensus_Init (genesisHeader : BlockHeader) (skipAddingGenesis : bool) : HM unit :=
  let* s := get in
  (match hs_status s !! VirtualGenesisBlockHash with Some _ => ret tt | None => init_virtual_genesis end) ;;
  let* s := get in
  if negb skipAddingGenesis && (Z.of_nat (size (hs_blocks s)) =? 0) then
    ValidateAndInsertBlockWithTrustedData genesisHeader false [] [(gm_genesisHash gm, trusted_genesis_data)] true
  else ret tt.

End handlers.

Definition empty_headers : headers_state :=
  mk_headers_state ∅ ∅ ∅ ∅ ∅ empty_store (mk_tips_state None emptyChainStore) None.
