(* ===== verification/HeaderInv.v ===== *)
(** What holds between headers: the topology manager over the stores keeps the
    contract GHOSTDAG relies on, GHOSTDAG keeps the contract the reachability
    manager relies on, and so a new header goes through both. *)

From Stdlib Require Import Sorted.
From S2P Require Import Prelude Transaction SigHash Block Difficulty TxMass Ghostdag GhostdagMergeSet GhostdagSpec ReachInterval.
From S2P Require Import Reachability Reindex ReachTree ReindexCount ReindexPropagate ReindexReclaim ReindexChain ReindexAdd ReachAdd.
From S2P Require Import ReachFuture ReachConcentrate ReachRoot ReachRun DagTopology HeaderTips BlockValidator HeaderInsert.

Lemma is_anc_same (T1 T2 : DAGTopologyManager) par known x y : @topology_ok T1 par known -> @topology_ok T2 par known ->
  x ∈ known -> y ∈ known -> @is_anc T1 x y = @is_anc T2 x y.
Proof.
  intros H1 H2 Hx Hy. pose proof (@is_anc_false T1 par known H1 x y Hx Hy) as E1. pose proof (@is_anc_false T2 par known H2 x y Hx Hy) as E2.
  destruct (@is_anc T1 x y), (@is_anc T2 x y); try done; exfalso; [assert (true = false) by tauto|assert (true = false) by tauto]; done.
Qed.

(** GHOSTDAG data does not depend on which topology manager and header store are
    asked, if both know the DAG below the block. *)
Lemma data_ok_transfer (T1 T2 : DAGTopologyManager) (HS1 HS2 : BlockHeaderStore) gm par known st b d s n :
  @topology_ok T1 par known -> @topology_ok T2 par known -> (forall x, x ∈ known -> @work_of HS1 x = @work_of HS2 x) ->
  (forall q, q ∈ par b -> q ∈ known) -> @data_ok T1 HS1 gm par st b d s n -> @data_ok T2 HS2 gm par st b d s n.
Proof.
  intros H1 H2 Hwork Hb Hd. induction Hd as [d Hg Hp Hbd|b d p rest dp sp np Hb' Hne Hd IH Hm Hs Hw Hr]; [by apply ok_genesis|].
  assert (Hp : p ∈ known) by (apply Hb, Hm). assert (IH' := IH (fun q => @top_closed T1 par known H1 p q Hp)).
  assert (Hblues : forall x, x ∈ MergeSetBlues d -> x ∈ known).
  { intros x Hx. rewrite (mg_blues _ _ _ _ _ _ _ Hm) in Hx. apply elem_of_cons in Hx as [->|Hx]; [done|].
    apply (@reached_known T1 par known H1 (par b)); [done|]. apply (mg_set _ _ _ _ _ _ _ Hm). apply elem_of_app. by left. }
  assert (Hk : list_to_set (MergeSetBlues d) ∪ sp ⊆ known).
  { apply union_subseteq. split; [|by apply (@blue_set_known T1 HS1 gm par known st H1 p dp sp np)].
    intros x Hx%elem_of_list_to_set. by apply Hblues. }
  apply (ok_block gm par st b d p rest dp sp np); try done.
  - rewrite Hw. f_equal. clear -Hblues Hwork. induction (MergeSetBlues d) as [|x l IH]; [done|]. cbn. rewrite (Hwork x) by (apply Hblues; left).
    f_equal. apply IH. intros y Hy. apply Hblues. by right.
  - intros x f Hx Hf. destruct (Hr x f Hx Hf) as [E1 E2].
    assert (Ea : @anticone_in T2 (list_to_set (MergeSetBlues d) ∪ sp) x = @anticone_in T1 (list_to_set (MergeSetBlues d) ∪ sp) x).
    { unfold anticone_in. apply set_eq. intros y. rewrite !elem_of_filter. split; intros [[Hy1 Hy2] Hy]; (split; [|done]);
        rewrite !(is_anc_same T1 T2 par known) in * by (try done; by apply Hk); done. }
    by rewrite Ea.
Qed.

Lemma data_ok_block `{T : DAGTopologyManager} `{HS : BlockHeaderStore} gm par st b d s n : data_ok gm par st b d s n -> b <> gm_genesisHash gm ->
  exists p rest dp, st !! (b, false) = Some d /\ st !! (p, false) = Some dp /\ merges gm par st b d p rest /\
    BlueScore d = BlueScore dp + zlen (MergeSetBlues d).
Proof.
  intros Hd Hg. destruct Hd as [d Hd Hp Hbd|b d p rest dp sp np Hb Hne Hd Hm Hs Hw Hr]; [done|].
  exists p, rest, dp. split_and!; try done. by eapply data_ok_lookup.
Qed.

Lemma topology_sub `{T : DAGTopologyManager} (par : bytes -> list bytes) (known known' : gset bytes) : known' ⊆ known ->
  topology_ok par known -> (forall x q, x ∈ known' -> q ∈ par x -> q ∈ known') -> topology_ok par known'.
Proof. intros Hsub [T1 T2 T3] Hcl. constructor; [|done|]; intros x y Hx Hy; [apply T1|apply T3]; by apply Hsub. Qed.

Lemma roomy_le rt fuel n m : n <= m -> roomy_for rt fuel m -> roomy_for rt fuel n.
Proof. intros Hnm [[F1 F2] F3 F4 F5]. constructor; [split; [done|nia]|done|done|lia]. Qed.

Lemma zlen_perm {A} (l k : list A) : l ≡ₚ k -> zlen l = zlen k.
Proof. intros E. unfold zlen. by rewrite E. Qed.

(** A new block in the relations. *)
Lemma set_leaf (rel : relation_store) b ps : relations_ok rel -> rel !! b = None -> (forall p, p ∈ ps -> is_Some (rel !! p)) ->
  exists rel', SetParents b ps rel = (Ok tt, rel') /\ relations_ok rel' /\ (forall x, is_Some (rel' !! x) <-> x = b \/ is_Some (rel !! x)) /\
    (forall rx, rel' !! b = Some rx -> br_Parents rx = ps) /\
    (forall x rx, x <> b -> rel' !! x = Some rx -> exists r, rel !! x = Some r /\ br_Parents rx = br_Parents r).
Proof.
  intros Hro Hb Hps. assert (Hleaf : forall rb, rel !! b = Some rb -> br_Children rb = []) by (intros rb; by rewrite Hb).
  assert (Hbp : b ∉ ps) by (intros Hin; destruct (Hps b Hin) as [? E]; by rewrite Hb in E).
  destruct (SetParents_run rel b ps Hro Hps Hleaf) as (rel' & Hrun & Hb' & Hrel'). exists rel'. split_and!.
  - done.
  - by apply (moved_relations rel b ps Hro Hps Hbp Hleaf).
  - intros x. destruct (decide (x = b)) as [->|Hx]; [rewrite Hb'; split; [by left|done]|]. rewrite Hrel', fmap_is_Some by done. tauto.
  - intros rx. rewrite Hb'. by intros [= <-].
  - intros x rx Hx. rewrite Hrel' by done. intros (r & Hr & ->)%fmap_Some. exists r. by rewrite moved_parents.
Qed.

Section headers.
Context `{C : Crypto} `{FC : FloatConversion}.
Variable gm : ghostdagManager.
Variable rt : reachabilityManager.
Variable fuel : nat.
(** The header of a hash. *)
Variable hdr : bytes -> BlockHeader.
Abbreviation g := (gm_genesisHash gm).
Abbreviation v := VirtualGenesisBlockHash.
Abbreviation vb := VirtualBlockHash.

Definition par (b : bytes) : list bytes := DirectParents (hdr b).

Definition all_headers : BlockHeaderStore := {| header_of := fun b => Ok (hdr b) |}.

(** The DAG with the virtual genesis below the genesis. *)
Definition par_v (b : bytes) : list bytes := if decide (b = v) then [] else if decide (b = g) then [v] else par b.

(** The blocks [pre] are closed under parents, without the virtual genesis. *)
Record known_blocks (pre : list bytes) : Prop := {
  kb_nodup : NoDup pre;
  kb_genesis : g ∈ pre;
  kb_virtual : v ∉ pre;
  kb_block : vb ∉ pre;
  kb_par : par g = [];
  kb_closed : forall b q, b ∈ pre -> q ∈ par b -> q ∈ pre
}.

Lemma par_v_block pre b : known_blocks pre -> b ∈ pre -> b <> g -> par_v b = par b.
Proof. intros Hk Hb Hg. unfold par_v. rewrite !decide_False; [done|done|]. intros ->. by apply (kb_virtual _ Hk). Qed.

Lemma par_v_genesis pre : known_blocks pre -> par_v g = [v].
Proof. intros Hk. unfold par_v. rewrite decide_False, decide_True; [done|done|]. intros E. apply (kb_virtual _ Hk). rewrite <- E. apply Hk. Qed.

Lemma par_v_virtual : par_v v = [].
Proof. unfold par_v. by rewrite decide_True. Qed.

Lemma past_v pre x y : known_blocks pre -> y ∈ pre -> anc par_v x y -> x = v \/ x ∈ pre.
Proof.
  intros Hk Hy Ha. revert x Ha. apply (rtc_ind_l (fun x => x = v \/ x ∈ pre) y); [by right|].
  intros x z Hxz _ [->|Hz]; unfold parent_of in Hxz; [rewrite par_v_virtual in Hxz; by apply not_elem_of_nil in Hxz|].
  destruct (decide (z = g)) as [->|Hg]; [rewrite (par_v_genesis pre Hk) in Hxz; apply list_elem_of_singleton in Hxz; by left|].
  rewrite (par_v_block pre z Hk Hz Hg) in Hxz. right. by apply (kb_closed _ Hk z).
Qed.

Lemma anc_v pre x y : known_blocks pre -> x ∈ pre -> y ∈ pre -> anc par_v x y <-> anc par x y.
Proof.
  intros Hk Hx Hy. split.
  - intros Ha. revert x Ha Hx. apply (rtc_ind_l (fun x => x ∈ pre -> anc par x y) y); [done|].
    intros x z Hxz Hzy IH Hx. destruct (past_v pre z y Hk Hy Hzy) as [->|Hz].
    + unfold parent_of in Hxz. rewrite par_v_virtual in Hxz. by apply not_elem_of_nil in Hxz.
    + unfold parent_of in Hxz. destruct (decide (z = g)) as [->|Hg].
      * rewrite (par_v_genesis pre Hk) in Hxz. apply list_elem_of_singleton in Hxz as ->. by destruct (kb_virtual _ Hk).
      * rewrite (par_v_block pre z Hk Hz Hg) in Hxz. eapply rtc_l; [exact Hxz|]. by apply IH.
  - intros Ha. clear Hx. revert x Ha. enough (He : forall x, anc par x y -> anc par_v x y /\ x ∈ pre) by (intros x Ha; by apply He).
    apply (rtc_ind_l (fun x => anc par_v x y /\ x ∈ pre) y); [done|]. intros x z Hxz _ [Hzy Hz]. unfold parent_of in Hxz.
    assert (Hg : z <> g) by (intros ->; rewrite (kb_par _ Hk) in Hxz; by apply not_elem_of_nil in Hxz).
    split; [|by apply (kb_closed _ Hk z)]. eapply rtc_l; [|exact Hzy]. unfold parent_of. by rewrite (par_v_block pre z Hk Hz Hg).
Qed.

(** What holds between headers. *)
Record headers_ok (pre : list bytes) (s : headers_state) (t : tree) : Prop := {
  hk_blocks : known_blocks pre;
  hk_headers : forall b h, hs_headers s !! b = Some h <-> b ∈ pre /\ h = hdr b;
  hk_works : forall b, b ∈ pre -> 0 < CalcWork (hdr_Bits (hdr b));
  hk_status : forall b, b ∈ pre -> exists status, hs_status s !! b = Some status /\ status <> StatusInvalid;
  hk_others : forall b, b ∉ pre -> b <> v -> b <> vb -> hs_status s !! b = None \/ hs_status s !! b = Some StatusInvalid;
  hk_count : hs_blocks s <> ∅;
  hk_pruning : hs_pruningPoint s = Some g;
  hk_relations : relations_ok (hs_relations s);
  hk_dom : forall x, is_Some (hs_relations s !! x) <-> x = v \/ x = vb \/ x ∈ pre;
  hk_parents : forall b rb, b <> vb -> hs_relations s !! b = Some rb -> br_Parents rb = par_v b;
  hk_data : forall b, b ∈ pre -> exists d bs n, @data_ok (topology_of s) all_headers gm par (hs_ghostdag s) b d bs n;
  hk_keys : forall b, is_Some (hs_ghostdag s !! (b, false)) -> b = v \/ b = vb \/ b ∈ pre;
  hk_base : genesis_ok par_v (hs_ghostdag s);
  hk_run : exists known tips, known ≡ₚ v :: pre /\ run_ok rt par_v (hs_ghostdag s) known tips (hs_reach s) t /\
    forall x, x ∈ tips -> x ∈ pre;
  hk_tip : exists tip l, ts_tip (hs_tips s) = Some tip /\ tip ∈ pre /\ (forall x, x ∈ pre -> x = tip \/ lt_block (hs_ghostdag s) x tip) /\
    selected_chain g (hs_ghostdag s) l tip /\ chain_holds (ts_chain (hs_tips s)) l;
  hk_anti : forall b q r, b ∈ pre -> q ∈ par b -> r ∈ par b -> anc par q r -> q = r;
  hk_fields : forall b d, b ∈ pre -> hs_ghostdag s !! (b, false) = Some d ->
    hdr_BlueScore (hdr b) = BlueScore d /\ hdr_BlueWork (hdr b) = BlueWork d
}.

(** Ancestry through the reachability manager. *)
Lemma query_from pre gd known tips st t x y : known_blocks pre -> known ≡ₚ v :: pre -> run_ok rt par_v gd known tips st t ->
  x ∈ pre -> y ∈ pre -> exists r, dtm_IsAncestorOf st x y = Ok r /\ (r = true <-> anc par x y).
Proof.
  intros Hk Hp Hr Hx Hy. destruct (ru_dag _ _ _ _ _ _ _ Hr) as [D1 D2 D3 D4].
  assert (Hn : forall z, z ∈ pre -> z ∈ nodes t) by (intros z Hz; rewrite (ru_known _ _ _ _ _ _ _ Hr), Hp; by right).
  destruct (IsDAGAncestorOf_ok par_v rt st t (anc par_v) x y D1 D2 D3) as (r & Hq & Hiff); [by apply Hn..|done|].
  exists r. unfold dtm_IsAncestorOf. rewrite Hq. split; [done|]. rewrite Hiff. by apply (anc_v pre).
Qed.

Lemma topology_from pre s gd known tips t : known_blocks pre -> (forall x, x ∈ pre -> anc par g x) ->
  (forall b, b ∈ pre -> dtm_Parents (hs_relations s) b = Ok (par_v b)) -> known ≡ₚ v :: pre ->
  run_ok rt par_v gd known tips (hs_reach s) t -> @topology_ok (topology_of s) par (list_to_set pre).
Proof.
  intros Hk Hg Hpar Hp Hr. constructor.
  - intros b x Hb%elem_of_list_to_set Hx%elem_of_list_to_set Hna. cbn. rewrite (Hpar b Hb), (par_v_block pre b Hk Hb); [done|].
    intros ->. by apply Hna, Hg.
  - intros b q Hb%elem_of_list_to_set Hq. apply elem_of_list_to_set. by apply (kb_closed _ Hk b).
  - intros a b Ha%elem_of_list_to_set Hb%elem_of_list_to_set.
    destruct (query_from pre gd known tips (hs_reach s) t a b Hk Hp Hr Ha Hb) as (r & Hq & Hiff). exists r. cbn. by rewrite Hq.
Qed.

Lemma headers_query pre s t x y : headers_ok pre s t -> x ∈ pre -> y ∈ pre ->
  exists r, dtm_IsAncestorOf (hs_reach s) x y = Ok r /\ (r = true <-> anc par x y).
Proof.
  intros Hok Hx Hy. destruct (hk_run _ _ _ Hok) as (known & tips & Hp & Hr & _).
  apply (query_from pre (hs_ghostdag s) known tips _ t); [apply Hok|done..].
Qed.

Lemma genesis_below pre s t x : headers_ok pre s t -> x ∈ pre -> anc par g x.
Proof.
  intros Hok Hx. destruct (hk_data _ _ _ Hok x Hx) as (d & bs & n & Hd).
  by apply (@genesis_anc (topology_of s) all_headers gm par (hs_ghostdag s) x d bs n).
Qed.

Lemma parents_stored pre s t b : headers_ok pre s t -> b ∈ pre -> dtm_Parents (hs_relations s) b = Ok (par_v b).
Proof.
  intros Hok Hb. destruct (proj2 (hk_dom _ _ _ Hok b)) as [rb Hrb]; [by right; right|]. unfold dtm_Parents, BlockRelation. rewrite Hrb. cbn.
  rewrite (hk_parents _ _ _ Hok b rb); [done| |done]. intros ->. by apply (kb_block _ (hk_blocks _ _ _ Hok)).
Qed.

Lemma past_known pre x y : known_blocks pre -> y ∈ pre -> anc par x y -> x ∈ pre.
Proof.
  intros Hk Hy. revert x. apply (rtc_ind_l (fun x => x ∈ pre) y); [done|]. intros x z Hxz _ Hz. by apply (kb_closed _ Hk z).
Qed.

Lemma virtual_below pre s t x : headers_ok pre s t -> x ∈ pre -> anc par_v v x.
Proof.
  intros Hok Hx. pose proof (hk_blocks _ _ _ Hok) as Hk. eapply rtc_l; [unfold parent_of; rewrite (par_v_genesis pre Hk); left|].
  apply (anc_v pre); [done|apply Hk|done|by apply (genesis_below pre s t)].
Qed.

(** The manager over other relations that agree on the known blocks. *)
Lemma headers_topology pre s t s1 : headers_ok pre s t -> hs_reach s1 = hs_reach s ->
  (forall b, b ∈ pre -> dtm_Parents (hs_relations s1) b = Ok (par_v b)) -> @topology_ok (topology_of s1) par (list_to_set pre).
Proof.
  intros Hok Hreach Hrel. destruct (hk_run _ _ _ Hok) as (known & tips & Hp & Hr & _). rewrite <- Hreach in Hr.
  apply (topology_from pre _ (hs_ghostdag s) known tips t); [apply Hok| |done|done|done]. intros x. by eapply genesis_below.
Qed.

Lemma own_topology pre s t : headers_ok pre s t -> @topology_ok (topology_of s) par (list_to_set pre).
Proof. intros Hok. apply (headers_topology pre s t); [done|done|]. intros b. by eapply parents_stored. Qed.

Lemma headers_work pre s t x : headers_ok pre s t -> x ∈ (list_to_set pre : gset bytes) ->
  exists h, @header_of all_headers x = Ok h /\ 0 < CalcWork (hdr_Bits h).
Proof. intros Hok Hx%elem_of_list_to_set. eexists. split; [done|]. by apply (hk_works _ _ _ Hok). Qed.

Lemma all_data pre s t x : headers_ok pre s t -> x ∈ (list_to_set pre : gset bytes) ->
  exists d bs n, @data_ok (topology_of s) all_headers gm par (hs_ghostdag s) x d bs n.
Proof. intros Hok Hx%elem_of_list_to_set. by apply (hk_data _ _ _ Hok). Qed.

(** * The checks of a new header *)

Lemma known_parents_ok gd trusted ps : (forall p, p ∈ ps -> is_Some (gd !! (p, false))) -> known_parents gd trusted ps = Ok ps.
Proof.
  induction ps as [|p ps IH]; intros Hps; [done|]. cbn [known_parents]. destruct (Hps p) as [d ->]; [left|].
  rewrite IH by (intros q Hq; apply Hps; by right). done.
Qed.

Lemma incest_with_ok pre s t a ps : headers_ok pre s t -> a ∈ pre -> (forall p, p ∈ ps -> p ∈ pre) ->
  (incest_with (hs_reach s) a ps = Ok tt /\ forall q, q ∈ ps -> anc par a q -> a = q) \/
  (incest_with (hs_reach s) a ps = Err (Rejected ErrInvalidParentsRelation) /\ exists q, q ∈ ps /\ a <> q /\ anc par a q).
Proof.
  intros Hok Ha. induction ps as [|p ps IH]; intros Hps; cbn [incest_with].
  { left. split; [done|]. intros q Hq. by apply not_elem_of_nil in Hq. }
  specialize (IH ltac:(intros q Hq; apply Hps; by right)). unfold bytes_eqb. destruct (decide (a = p)) as [->|Hne].
  - rewrite bool_decide_true by done. destruct IH as [[IH1 IH2]|[IH1 (q & Hq & IH2)]]; [left|right]; (split; [done|]).
    + intros q [->|Hq]%elem_of_cons; auto.
    + exists q. split; [by right|done].
  - rewrite bool_decide_false by done. destruct (headers_query pre s t a p Hok Ha) as (r & -> & Hiff); [apply Hps; left|].
    cbn [of_error bind_res]. destruct r.
    + right. split; [done|]. exists p. split; [left|]. tauto.
    + destruct IH as [[IH1 IH2]|[IH1 (q & Hq & IH2)]]; [left|right]; (split; [done|]).
      * intros q [->|Hq]%elem_of_cons; [|by apply IH2]. intros Hap. apply Hiff in Hap. done.
      * exists q. split; [by right|done].
Qed.

Lemma incest_loop_ok pre s t ps rest : headers_ok pre s t -> (forall p, p ∈ ps -> p ∈ pre) -> (forall p, p ∈ rest -> p ∈ pre) ->
  (incest_loop (hs_reach s) ps rest = Ok tt /\ forall a q, a ∈ rest -> q ∈ ps -> anc par a q -> a = q) \/
  (incest_loop (hs_reach s) ps rest = Err (Rejected ErrInvalidParentsRelation) /\ exists a q, a ∈ rest /\ q ∈ ps /\ a <> q /\ anc par a q).
Proof.
  intros Hok Hps. induction rest as [|a rest IH]; intros Hr; cbn [incest_loop].
  { left. split; [done|]. intros a q Ha. by apply not_elem_of_nil in Ha. }
  specialize (IH ltac:(intros q Hq; apply Hr; by right)).
  destruct (incest_with_ok pre s t a ps Hok) as [[-> H1]|[-> (q & H1)]]; [apply Hr; left|done| |].
  - cbn [bind_res]. destruct IH as [[IH1 IH2]|[IH1 (a' & q & Ha & IH2)]]; [left|right]; (split; [done|]).
    + intros a' q [->|Ha]%elem_of_cons; auto.
    + exists a', q. split; [by right|done].
  - right. split; [done|]. exists a, q. split; [left|done].
Qed.

Lemma run_ok_mono gd gd' known tips st t : gd ⊆ gd' -> run_ok rt par_v gd known tips st t -> run_ok rt par_v gd' known tips st t.
Proof.
  intros Hsub [R1 R2 R3 [S1 S2] R5 R6]. constructor; try done.
  - constructor.
    + intros h Hh. destruct (S1 h Hh) as (dd & Hd & Hr). exists dd. split; [by eapply lookup_weaken|done].
    + intros u c du dc Hu Hc Hdu Hdc.
      destruct (S1 (troot u)) as (du' & Hdu' & _); [apply nodes_subtrees; eauto|].
      destruct (S1 (troot c)) as (dc' & Hdc' & _); [apply nodes_subtrees; exists c; split; [by apply (subtrees_down t u)|done]|].
      pose proof (lookup_weaken _ _ _ _ Hdu' Hsub). pose proof (lookup_weaken _ _ _ _ Hdc' Hsub). simplify_eq. by apply (S2 u c).
  - intros u c Hu Hc. destruct (R5 u c Hu Hc) as (dd & Hd & Hs). exists dd. split; [by eapply lookup_weaken|done].
Qed.

(** * A new header *)

Section step.
Variables (pre : list bytes) (s : headers_state) (t : tree) (b : bytes).
Context (Hok : headers_ok pre s t) (Hnew : b ∉ pre) (Hbv : b <> v /\ b <> vb).
Context (Hne : par b <> []) (Hknown : forall q, q ∈ par b -> q ∈ pre).

Lemma new_not_genesis : b <> g.
Proof. intros ->. apply Hnew, Hok. Qed.

Lemma new_par : par_v b = par b.
Proof. unfold par_v. rewrite !decide_False; [done|apply new_not_genesis|apply Hbv]. Qed.

Lemma new_relation : hs_relations s !! b = None.
Proof.
  destruct (hs_relations s !! b) as [rb|] eqn:E; [|done]. destruct (proj1 (hk_dom _ _ _ Hok b)) as [?|[?|?]]; [by rewrite E|by destruct Hbv..|done].
Qed.

(** The stores with the header staged, and with other relations, GHOSTDAG data
    and reachability data. *)
Definition staged_state (rel : relation_store) (gd : ghostdag_store) (st : reach_store) : headers_state :=
  mk_headers_state (<[b := hdr b]> (hs_headers s)) (hs_status s) (hs_blocks s) rel gd st (hs_tips s) (hs_pruningPoint s).

Lemma direct_parents : ParentsAtLevel g (hdr b) 0 = par b.
Proof.
  unfold ParentsAtLevel, par, DirectParents in *. destruct (hdr_Parents (hdr b)) as [|l ls]; [done|]. cbn.
  destruct l as [|x l]; [done|]. rewrite zlen_cons. pose proof (zlen_nonneg l). rewrite (proj2 (Z.eqb_neq _ _)) by lia. done.
Qed.

Lemma set_parents_step : exists rel,
  setParents g b (hdr b) false (staged_state (hs_relations s) (hs_ghostdag s) (hs_reach s)) =
    (Ok tt, staged_state rel (hs_ghostdag s) (hs_reach s)) /\
  relations_ok rel /\ (forall x, is_Some (rel !! x) <-> x = v \/ x = vb \/ x ∈ pre ++ [b]) /\
  (forall x rx, x <> vb -> rel !! x = Some rx -> br_Parents rx = par_v x).
Proof.
  destruct (set_leaf (hs_relations s) b (par b) (hk_relations _ _ _ Hok) new_relation) as (rel & Hrun & Hro & Hdom & Hb' & Hpar).
  { intros p Hp. apply (hk_dom _ _ _ Hok). right. right. by apply Hknown. }
  exists rel. split_and!; [|done| |].
  - unfold setParents. erewrite bind_ok by reflexivity. rewrite direct_parents. erewrite bind_ok.
    2:{ unfold lift. rewrite known_parents_ok; [reflexivity|]. intros p Hp.
        destruct (hk_data _ _ _ Hok p (Hknown p Hp)) as (d & bs & n & Hd). apply data_ok_lookup in Hd. eauto. }
    cbv beta zeta. replace (match par b with [] => [v] | _ :: _ => par b end) with (par b) by (by destruct (par b)).
    unfold in_relations. cbn [staged_state hs_relations]. rewrite Hrun. done.
  - intros x. rewrite Hdom, (hk_dom _ _ _ Hok), elem_of_app, list_elem_of_singleton. tauto.
  - intros x rx Hxv Hx. destruct (decide (x = b)) as [->|Hxb]; [rewrite new_par; by apply Hb'|].
    destruct (Hpar x rx Hxb Hx) as (r & Hr & ->). by apply (hk_parents _ _ _ Hok).
Qed.

Context (Hnd : NoDup (par b)) (Hanti : forall q r, q ∈ par b -> r ∈ par b -> anc par q r -> q = r).
Context (Hk : 0 <= gm_k gm < 255) (Hroom : roomy_for rt fuel (2 + zlen pre)).

Lemma room_bounds : zlen pre < 2 ^ 62 /\ (length pre < fuel)%nat.
Proof. destruct Hroom as [[F1 F2] F3 F4 F5]. pose proof (zlen_nonneg pre). split; [nia|]. unfold zlen in *. lia. Qed.

Lemma size_pre : size (list_to_set pre : gset bytes) = length pre.
Proof. apply size_list_to_set. apply Hok. Qed.

Lemma data_new : hs_ghostdag s !! (b, false) = None.
Proof.
  destruct (hs_ghostdag s !! (b, false)) eqn:E; [|done]. destruct (hk_keys _ _ _ Hok b) as [?|[?|?]]; [by rewrite E|by destruct Hbv..|done].
Qed.

Section run_new.
Variable rel : relation_store.
Context (Hrel : forall x, x ∈ pre -> dtm_Parents rel x = Ok (par_v x)) (Hrb : dtm_Parents rel b = Ok (par b)).
Abbreviation s1 := (staged_state rel (hs_ghostdag s) (hs_reach s)).

Lemma staged_header x : x ∈ pre ++ [b] -> @header_of (header_store s1) x = Ok (hdr x).
Proof.
  intros Hx. cbn. unfold header_at. cbn [staged_state hs_headers]. destruct (decide (x = b)) as [->|Hxb]; [by rewrite lookup_insert_eq|].
  rewrite lookup_insert_ne by done. apply elem_of_app in Hx as [Hx|Hx%list_elem_of_singleton]; [|done].
  by rewrite (proj2 (hk_headers _ _ _ Hok x (hdr x))).
Qed.

Lemma staged_topology : @topology_ok (topology_of s1) par (list_to_set pre).
Proof. by apply (headers_topology pre s t). Qed.

Lemma staged_work x : x ∈ (list_to_set pre : gset bytes) -> @work_of all_headers x = @work_of (header_store s1) x.
Proof.
  intros Hx%elem_of_list_to_set. unfold work_of. rewrite staged_header; [done|]. apply elem_of_app. by left.
Qed.

Lemma data_ok_kept x : x ∈ pre -> exists d bs n, @data_ok (topology_of s1) all_headers gm par (hs_ghostdag s) x d bs n.
Proof.
  intros Hx. destruct (hk_data _ _ _ Hok x Hx) as (d & bs & n & Hd). exists d, bs, n.
  apply (data_ok_transfer _ _ all_headers all_headers gm par _ _ x d bs n (own_topology pre s t Hok) staged_topology); [done| |done].
  intros q Hq. apply elem_of_list_to_set. by apply (kb_closed _ (hk_blocks _ _ _ Hok) x).
Qed.

Lemma ghostdag_step : exists d bs n, run_ghostdag gm fuel b s1 =
    (Ok tt, staged_state rel (<[(b, false) := d]> (hs_ghostdag s)) (hs_reach s)) /\
  @data_ok (topology_of s1) all_headers gm par (<[(b, false) := d]> (hs_ghostdag s)) b d bs n.
Proof.
  destruct room_bounds as [Hb1 Hb2]. pose proof size_pre as Hsz.
  destruct (@ghostdag_data_block (topology_of s1) (header_store s1) gm par (list_to_set pre) (hs_ghostdag s)) with (b := b) (fuel := fuel)
    as (d & bs & n & Hd & Hdok); try done.
  - apply staged_topology.
  - intros x Hx%elem_of_list_to_set. rewrite staged_header by (apply elem_of_app; by left). eexists. split; [done|]. by apply (hk_works _ _ _ Hok).
  - intros x Hx. assert (Hx' : x ∈ pre) by (by apply elem_of_list_to_set in Hx). destruct (data_ok_kept x Hx') as (d & bs & n & Hd). exists d, bs, n.
    apply (data_ok_transfer _ _ all_headers (header_store s1) gm par _ _ x d bs n staged_topology staged_topology); [apply staged_work| |done].
    intros q Hq. apply elem_of_list_to_set. by apply (kb_closed _ (hk_blocks _ _ _ Hok) x).
  - rewrite elem_of_list_to_set. apply Hok.
  - rewrite Hsz. unfold zlen in Hb1. lia.
  - by rewrite elem_of_list_to_set.
  - apply data_new.
  - apply new_not_genesis.
  - cbn. by rewrite Hrb.
  - intros q Hq. apply elem_of_list_to_set. by apply Hknown.
  - lia.
  - exists d, bs, n. split.
    + unfold run_ghostdag, in_ghostdag, GHOSTDAG. cbn [hs_ghostdag staged_state].
      erewrite bind_ok by reflexivity. by erewrite bind_ok by (unfold lift; rewrite Hd; reflexivity).
    + apply (data_ok_transfer _ _ (header_store s1) all_headers gm par _ _ b d bs n staged_topology staged_topology);
        [intros x Hx; by rewrite staged_work| |done]. intros q Hq. apply elem_of_list_to_set. by apply Hknown.
Qed.

End run_new.

(** What GHOSTDAG computed is what the reachability manager expects. *)
Lemma merged_new T gd d bs n : @data_ok T all_headers gm par gd b d bs n ->
  exists p rest dp, merges gm par gd b d p rest /\ gd !! (p, false) = Some dp /\
    BlueScore d = BlueScore dp + zlen (MergeSetBlues d) /\ merged par_v gd b p d.
Proof.
  intros Hd. destruct (data_ok_block gm par gd b d bs n Hd new_not_genesis) as (p & rest & dp & Hb' & Hdp & Hm & Hs).
  pose proof (hk_blocks _ _ _ Hok) as Hkb. assert (Hp : p ∈ pre) by (apply Hknown, Hm).
  assert (Hb : forall q, q ∈ par b -> anc par_v q b) by (intros q Hq; apply rtc_once; unfold parent_of; by rewrite new_par).
  exists p, rest, dp. split_and!; [done..|].
  constructor; [done|apply Hm|rewrite new_par; apply Hm| |]; rewrite (mg_blues _ _ _ _ _ _ _ Hm).
  - intros x [->|Hx]%elem_of_cons; [split; [apply Hb, Hm|by intros ->]|].
    apply (mg_set _ _ _ _ _ _ _ Hm) in Hx as [(q & Hq & Hxq) _]. assert (Hx : x ∈ pre) by (by apply (past_known pre x q); [|apply Hknown|]).
    split; [|by intros ->]. etrans; [|by apply (Hb q)]. apply (anc_v pre); auto.
  - intros x Hx. apply rtc_inv_r in Hx as [->|(q & Hxq & Hq)]; [by left|]. right. unfold parent_of in Hq. rewrite new_par in Hq.
    destruct (past_v pre x q Hkb (Hknown q Hq) Hxq) as [->|Hx]; [left; by apply (virtual_below pre s t)|].
    apply (anc_v pre) in Hxq; [|done..|by apply Hknown]. destruct (headers_query pre s t x p Hok Hx Hp) as ([] & _ & Hiff).
    + left. apply (anc_v pre); [done..|]. by apply Hiff.
    + right. right. apply (mg_set _ _ _ _ _ _ _ Hm). split; [by exists q|]. by rewrite <- Hiff.
Qed.

Lemma score_new gd d p rest dp : hs_ghostdag s ⊆ gd -> merges gm par gd b d p rest -> gd !! (p, false) = Some dp ->
  BlueScore d = BlueScore dp + zlen (MergeSetBlues d) -> BlueScore dp <= BlueScore d < 2 ^ 64.
Proof.
  intros Hsub Hm Hdp Hs. assert (Hp : p ∈ pre) by apply Hknown, Hm.
  assert (Hps : p ∈ (list_to_set pre : gset bytes)) by (by apply elem_of_list_to_set).
  destruct (hk_data _ _ _ Hok p Hp) as (dp' & sp & np & Hd). pose proof (own_topology pre s t Hok) as Htop.
  pose proof (lookup_weaken _ _ _ _ (data_ok_lookup _ _ _ _ _ _ _ Hd) Hsub) as E. rewrite Hdp in E. injection E as <-.
  pose proof (subseteq_size _ _ (blue_set_known gm par _ _ Htop p dp sp np Hps Hd)) as Hsz. rewrite size_pre in Hsz.
  assert (Hsc : BlueScore dp = Z.of_nat (size sp)).
  { apply (@score_size _ all_headers gm par _ (hs_ghostdag s) Htop) with (b := p) (n := np); try done; intros x Hx;
      [by apply (headers_work pre s t)|by apply (all_data pre s t)]. }
  pose proof (mg_length _ _ _ _ _ _ _ Hm). pose proof (zlen_nonneg (MergeSetBlues d)). destruct room_bounds as [Hz _]. unfold zlen in *. lia.
Qed.

Lemma known_new : known_blocks (pre ++ [b]).
Proof.
  destruct (hk_blocks _ _ _ Hok) as [K1 K2 K3 K6 K4 K5]. constructor.
  - apply NoDup_app. split; [done|]. split; [|apply NoDup_singleton]. intros x Hx ->%list_elem_of_singleton. done.
  - apply elem_of_app. by left.
  - rewrite elem_of_app, list_elem_of_singleton. intros [?|E]; [done|]. by destruct Hbv.
  - rewrite elem_of_app, list_elem_of_singleton. intros [?|E]; [done|]. by destruct Hbv.
  - done.
  - intros x q [Hx| ->%list_elem_of_singleton]%elem_of_app Hq; apply elem_of_app; left; [by apply (K5 x)|by apply Hknown].
Qed.

Lemma reach_step_new T gd d bs n known tips rel : @data_ok T all_headers gm par gd b d bs n -> hs_ghostdag s ⊆ gd -> known ≡ₚ v :: pre ->
  run_ok rt par_v (hs_ghostdag s) known tips (hs_reach s) t ->
  exists st p, add_reachability rt fuel b (staged_state rel gd (hs_reach s)) = (Ok tt, staged_state rel gd st) /\
    run_ok rt par_v gd (b :: known) tips st (insert_child p b t).
Proof.
  intros Hd Hsub Hp Hr. destruct (merged_new T gd d bs n Hd) as (p & rest & dp & Hm & Hdp & Hs & Hme).
  assert (Hbk : b ∉ known) by (rewrite Hp, elem_of_cons; tauto).
  destruct (run_add rt fuel par_v gd known tips (hs_reach s) t b p dp d) as (st & Hrun & Hr'); try done.
  - by apply (run_ok_mono (hs_ghostdag s)).
  - intros q Hq. rewrite new_par in Hq. rewrite Hp. right. by apply Hknown.
  - by apply (score_new gd d p rest dp).
  - rewrite zlen_cons, (zlen_perm _ _ Hp), zlen_cons. eapply roomy_le; [|exact Hroom]. lia.
  - exists st, p. split; [|done]. unfold add_reachability. cbn [hs_reach staged_state].
    assert (E : rs_data (hs_reach s) !! b = None).
    { destruct (rs_data (hs_reach s) !! b) eqn:E; [|done]. destruct Hbk. rewrite <- (ru_known _ _ _ _ _ _ _ Hr).
      apply (ro_dom _ _ _ (da_reach _ _ _ _ (ru_dag _ _ _ _ _ _ _ Hr))). by rewrite E. }
    rewrite E. unfold in_reach. cbn [hs_ghostdag hs_reach hs_relations staged_state]. by rewrite Hrun.
Qed.

Lemma parents_from rel x : x <> vb -> is_Some (rel !! x) -> (forall y ry, y <> vb -> rel !! y = Some ry -> br_Parents ry = par_v y) ->
  dtm_Parents rel x = Ok (par_v x).
Proof. intros Hv [rx Hx] Hpar. unfold dtm_Parents, BlockRelation. rewrite Hx. cbn. by rewrite (Hpar x rx Hv Hx). Qed.

Lemma known_next known : known ≡ₚ v :: pre -> b :: known ≡ₚ v :: pre ++ [b].
Proof. intros Hp. rewrite Hp, perm_swap. f_equiv. by rewrite <- Permutation_cons_append. Qed.

(** The data of the known blocks and of the new one, for the manager that knows
    them all. *)
Lemma data_next rel gd d bs n known tips tr s' : (forall x, x ∈ pre ++ [b] -> dtm_Parents rel x = Ok (par_v x)) -> hs_ghostdag s ⊆ gd ->
  @data_ok (topology_of (staged_state rel (hs_ghostdag s) (hs_reach s))) all_headers gm par gd b d bs n ->
  known ≡ₚ v :: pre -> hs_relations s' = rel -> run_ok rt par_v gd (b :: known) tips (hs_reach s') tr ->
  forall x, x ∈ pre ++ [b] -> exists d bs n, @data_ok (topology_of s') all_headers gm par gd x d bs n.
Proof.
  intros Hrel Hsub Hd Hp Hs' Hr. pose proof (hk_blocks _ _ _ Hok) as Hkb.
  assert (Hrel' : forall x, x ∈ pre -> dtm_Parents rel x = Ok (par_v x)) by (intros x Hx; apply Hrel, elem_of_app; by left).
  pose proof (staged_topology rel Hrel') as Ht1.
  assert (Hgen : forall x, x ∈ pre ++ [b] -> anc par g x).
  { intros x [Hx| ->%list_elem_of_singleton]%elem_of_app; [by apply (genesis_below pre s t)|by eapply genesis_anc]. }
  assert (Ht2 : @topology_ok (topology_of s') par (list_to_set pre)).
  { apply (topology_sub par (list_to_set (pre ++ [b]))); [set_solver| |].
    - apply (topology_from (pre ++ [b]) _ gd (b :: known) tips tr); try done; [apply known_new|by rewrite Hs'|by apply known_next].
    - intros x q Hx%elem_of_list_to_set Hq. apply elem_of_list_to_set. by apply (kb_closed _ Hkb x). }
  intros x Hx. assert (Hx1 : exists d bs n, @data_ok (topology_of (staged_state rel (hs_ghostdag s) (hs_reach s))) all_headers gm par gd x d bs n).
  { apply elem_of_app in Hx as [Hx| ->%list_elem_of_singleton]; [|eauto].
    destruct (data_ok_kept rel Hrel' x Hx) as (d' & bs' & n' & Hd'). exists d', bs', n'. by eapply data_ok_mono. }
  destruct Hx1 as (d' & bs' & n' & Hd'). exists d', bs', n'. apply (data_ok_transfer _ _ all_headers all_headers gm par _ gd x d' bs' n' Ht1 Ht2); [done| |done].
  intros q Hq. apply elem_of_list_to_set. apply elem_of_app in Hx as [Hx| ->%list_elem_of_singleton]; [by apply (kb_closed _ Hkb x)|by apply Hknown].
Qed.

End step.

End headers.
