(* ===== verification/HeaderStep.v ===== *)
(** The selected tip of the headers after a new header: the chain store follows
    the chain of the best header, and the reindex root follows the tip. *)

From Stdlib Require Import Sorted.
From S2P Require Import Prelude Transaction SigHash Block Difficulty TxMass Ghostdag GhostdagMergeSet GhostdagSpec ReachInterval.
From S2P Require Import Reachability Reindex ReachTree ReindexCount ReindexPropagate ReindexReclaim ReindexChain ReindexAdd ReachAdd.
From S2P Require Import ReachFuture ReachConcentrate ReachRoot ReachRun DagTopology HeaderTips BlockValidator HeaderInsert HeaderInv.

Lemma selects_mono (gd gd' : ghostdag_store) x y : gd ⊆ gd' -> selects gd x y -> selects gd' x y.
Proof. intros Hsub (d & Hd & Hs). exists d. split; [by eapply lookup_weaken|done]. Qed.

Lemma chain_mono (g : bytes) (gd gd' : ghostdag_store) l b : gd ⊆ gd' -> selected_chain g gd l b -> selected_chain g gd' l b.
Proof. intros Hsub. induction 1 as [|l p b Hc IH Hs Hb]; [constructor|]. econstructor; [exact IH|by eapply selects_mono|done]. Qed.

Lemma commit_nothing cs l : chain_holds cs l -> chain_holds (chain_Commit cs) l.
Proof.
  intros [H1 H2 H3 H4 H5]. unfold chain_Commit. rewrite H5. change (chain_isStaged emptyShard) with false. cbn [negb].
  by constructor.
Qed.

Lemma choose_better (gd : ghostdag_store) a b : has_data gd a -> has_data gd b -> a <> b ->
  (ChooseSelectedParent gd [a; b] = Ok b /\ lt_block gd a b) \/ (ChooseSelectedParent gd [a; b] = Ok a /\ lt_block gd b a).
Proof.
  intros [da Ha] [db Hb] Hne. unfold ChooseSelectedParent.
  change (index_res [a; b] 0) with (@Ok GhostdagError _ a). cbn [bind_res]. unfold ghostdag_Get. rewrite Ha. cbn [bind_res choose_loop].
  unfold ghostdag_Get. rewrite Ha, Hb. cbn [bind_res]. rewrite Less_irrefl. destruct (Less a da b db) eqn:Hl; [left|right]; (split; [done|]).
  - by exists da, db.
  - exists db, da. eauto using Less_total.
Qed.

Section tips.
Context `{C : Crypto} `{FC : FloatConversion}.
Variable gm : ghostdagManager.
Variable rt : reachabilityManager.
Variable fuel : nat.
Variable hdr : bytes -> BlockHeader.
Abbreviation g := (gm_genesisHash gm).
Abbreviation v := VirtualGenesisBlockHash.
Abbreviation par := (par hdr).
Abbreviation par_v := (par_v gm hdr).

(** Blocks with their GHOSTDAG and reachability data. *)
Variables (all : list bytes) (T : DAGTopologyManager) (gd : ghostdag_store) (st : reach_store) (known tips : list bytes) (t : tree).
Context (Hall : known_blocks gm hdr all) (Htop : @topology_ok T par (list_to_set all)).
Context (Hwork : forall x, x ∈ all -> 0 < CalcWork (hdr_Bits (hdr x))).
Context (Hdata : forall x, x ∈ all -> exists d bs n, @data_ok T (all_headers hdr) gm par gd x d bs n).
Context (Hbase : genesis_ok par_v gd) (Hknown : known ≡ₚ v :: all) (Hrun : run_ok rt par_v gd known tips st t).

Lemma all_set x : x ∈ all -> x ∈ (list_to_set all : gset bytes).
Proof. intros Hx. by apply elem_of_list_to_set. Qed.

Lemma all_node x : x ∈ all -> x ∈ nodes t.
Proof. intros Hx. rewrite (ru_known _ _ _ _ _ _ _ Hrun), Hknown. by right. Qed.

Lemma has_data_all x : x ∈ all -> has_data gd x.
Proof. intros Hx. destruct (Hdata x Hx) as (d & bs & n & Hd). exists d. by eapply data_ok_lookup. Qed.

Lemma no_cycle x : x ∈ all -> ~ reached par (par x) x.
Proof.
  intros Hx. apply (@not_reached_self T (all_headers hdr) gm par gd (list_to_set all) Htop); [| |by apply all_set].
  - intros y Hy%elem_of_list_to_set. by apply Hwork.
  - intros y Hy%elem_of_list_to_set. by apply Hdata.
Qed.

Lemma chain_of x : x ∈ all -> exists l, selected_chain g gd l x /\ forall y, y ∈ l -> anc par y x.
Proof.
  intros Hx. destruct (Hdata x Hx) as (d & bs & n & Hd). revert Hx. induction Hd as [d Hg Hp Hbd|b d p rest dp sp np Hb' Hne Hd IH Hm Hs Hw Hr]; intros Hx.
  - exists [g]. split; [constructor|]. intros y ->%list_elem_of_singleton. constructor.
  - assert (Hp : p ∈ all) by (apply (kb_closed _ _ _ Hall b); [done|apply Hm]).
    destruct (IH Hp) as (l & Hl & Hanc). exists (l ++ [b]). split.
    + apply (chain_step g gd l p b); [done|exists d; split; [done|apply Hm]|]. intros Hin. apply (no_cycle b Hx). exists p. split; [apply Hm|by apply Hanc].
    + intros y [Hy| ->%list_elem_of_singleton]%elem_of_app; [|constructor]. eapply rtc_r; [by apply Hanc|apply Hm].
Qed.

Lemma selected_chain_short x l : x ∈ all -> selected_chain g gd l x -> (forall y, y ∈ l -> y ∈ all) /\ (length l <= length all)%nat.
Proof.
  intros Hx Hl. destruct (chain_of x Hx) as (l' & Hl' & Hanc). rewrite <- (chain_unique _ _ _ _ Hl _ Hl') in Hanc.
  assert (Hin : forall y, y ∈ l -> y ∈ all) by (intros y Hy; apply (past_known gm hdr all y x Hall Hx); by apply Hanc).
  split; [done|]. apply submseteq_length, NoDup_submseteq; [by eapply selected_chain_nodup|done].
Qed.

(** Below the genesis there is only the virtual genesis. *)
Lemma below_genesis x : x ∈ all -> rtc (selects gd) x g -> x = g.
Proof.
  intros Hx Hs. apply rtc_inv_r in Hs as [->|(q & Hxq & d & Hd & Hq)]; [done|]. exfalso.
  destruct (Hdata g) as (d' & bs & n & Hd'); [apply Hall|]. assert (Hqv : q = v).
  { inversion Hd' as [d0 H1 H2 Hbd|? ? ? ? ? ? ? ? Hne]; subst; [|done]. rewrite Hd in H1. injection H1 as <-.
    destruct (bd_selected _ Hbd) as [E|E]; rewrite E in Hq; [done|by injection Hq as <-]. }
  subst q. apply rtc_inv_r in Hxq as [->|(q & _ & d0 & Hd0 & Hq0)]; [by apply (kb_virtual _ _ _ Hall)|].
  rewrite (go_data _ _ Hbase) in Hd0. injection Hd0 as <-. done.
Qed.

Lemma chain_query x y l : x ∈ all -> y ∈ all -> selected_chain g gd l y ->
  exists r, IsInSelectedParentChainOf gd st x y false = Ok r /\ (r = true <-> x ∈ l).
Proof.
  intros Hx Hy Hl. destruct (tree_query rt st t x y (da_reach _ _ _ _ (ru_dag _ _ _ _ _ _ _ Hrun)) (all_node x Hx) (all_node y Hy)) as (r & Hq & Hiff).
  exists r. unfold IsInSelectedParentChainOf. cbn [bind_res]. rewrite Hq. split; [done|]. rewrite Hiff.
  rewrite (chain_selects rt par_v gd Hbase known tips st t Hrun x y (all_node y Hy)). split.
  - intros Hs. destruct (chain_complete _ _ _ _ x Hl Hs) as [?|Hg]; [done|]. rewrite (below_genesis x Hx Hg). by apply (chain_ends _ gd l y).
  - intros Hin. by apply (chain_below g gd l y).
Qed.

Lemma genesis_in_chain x : x ∈ all -> IsInSelectedParentChainOf gd st g x false = Ok true.
Proof.
  intros Hx. destruct (chain_of x Hx) as (l & Hl & _). destruct (chain_query g x l) as (r & -> & Hiff); [apply Hall|done|done|].
  by rewrite (proj2 Hiff (proj1 (chain_ends _ _ _ _ Hl))).
Qed.

(** The tip moves to [b], which is not below the old tip. *)
Lemma path_to_new cs l tip b : tip ∈ all -> b ∈ all -> ~ anc par b tip -> selected_chain g gd l tip -> chain_holds cs l ->
  (length all <= fuel)%nat -> zlen all < 2 ^ 63 ->
  exists path cs' l', CalculateChainPath gd st fuel tip b = Ok path /\ chain_Stage path cs = (Ok tt, cs') /\
    selected_chain g gd l' b /\ chain_holds (chain_Commit cs') l'.
Proof.
  intros Htip Hb Hna Hl Hcs Hf Hz. destruct (chain_of b Hb) as (l' & Hl' & _).
  destruct (selected_chain_short tip l Htip Hl) as [Hin Hlen], (selected_chain_short b l' Hb Hl') as [Hin' Hlen'].
  destruct (CalculateChainPath_ok g gd st b l' Hl' (fun x => x ∈ all)) with (lf := l) (from := tip) (fuel := fuel)
    as (common & rem & add & -> & -> & Hpath); [intros x Hx; by apply chain_query|done|done|lia|lia|].
  assert (Hadd : add <> []).
  { intros ->. rewrite app_nil_r in Hl'. destruct (chain_of tip Htip) as (l & Hlt & Hanc). apply Hna, Hanc.
    rewrite <- (chain_unique _ _ _ _ Hl _ Hlt). apply elem_of_app. left. by apply (chain_ends g gd common b). }
  destruct (chain_change cs common rem add Hcs) as (cs' & Hst & Hholds); [by eapply selected_chain_nodup|done|unfold zlen in *; lia..|].
  by exists (mk_SelectedChainPath add (rev rem)), cs', (common ++ add).
Qed.

Lemma AddHeaderTip_ok cs l tip b : tip ∈ all -> b ∈ all -> tip <> b -> ~ anc par b tip -> selected_chain g gd l tip -> chain_holds cs l ->
  (forall x, x ∈ all -> x = b \/ x = tip \/ lt_block gd x tip) -> (length all <= fuel)%nat -> zlen all < 2 ^ 63 ->
  exists ts tip' l', AddHeaderTip gd st fuel b (mk_tips_state (Some tip) cs) = (Ok tt, ts) /\ ts_tip ts = Some tip' /\
    (tip' = tip \/ tip' = b) /\ (forall x, x ∈ all -> x = tip' \/ lt_block gd x tip') /\
    selected_chain g gd l' tip' /\ chain_holds (chain_Commit (ts_chain ts)) l'.
Proof.
  intros Htip Hb Hne Hna Hl Hcs Hmax Hf Hz. unfold AddHeaderTip. erewrite bind_ok by reflexivity. cbn [ts_tip].
  destruct (choose_better gd tip b (has_data_all tip Htip) (has_data_all b Hb) Hne) as [[Hch Hlt]|[Hch Hlt]].
  - destruct (path_to_new cs l tip b Htip Hb Hna Hl Hcs Hf Hz) as (path & cs' & l' & Hpath & Hst & Hl' & Hcs').
    exists (mk_tips_state (Some b) cs'), b, l'. split_and!; try done; [|by right|].
    + erewrite bind_ok by (unfold lift; rewrite Hch; reflexivity). unfold bytes_eqb. rewrite bool_decide_false by done. cbn [negb].
      erewrite bind_ok by reflexivity. cbv beta. erewrite bind_ok by (unfold lift; rewrite Hpath; reflexivity).
      unfold stage_chain. cbn [ts_chain]. by rewrite Hst.
    + intros x Hx. destruct (Hmax x Hx) as [->|[->|Hx']]; [by left|by right|]. right. by apply (lt_block_trans gd x tip b).
  - exists (mk_tips_state (Some tip) cs), tip, l. split_and!; try done; [|by left| |by apply commit_nothing].
    + erewrite bind_ok by (unfold lift; rewrite Hch; reflexivity). unfold bytes_eqb. by rewrite bool_decide_true.
    + intros x Hx. destruct (Hmax x Hx) as [->|[->|Hx']]; auto.
Qed.

(** The root follows a tip that is above no earlier one. *)
Lemma update_root b : b ∈ all -> (forall x, x ∈ tips -> ~ anc par_v b x) -> roomy_for rt fuel (zlen known) ->
  exists st', UpdateReindexRoot rt fuel gd b st = (Ok tt, st') /\ run_ok rt par_v gd known (b :: tips) st' t.
Proof.
  intros Hb Hnew Hroom. apply run_update; try done.
  - rewrite Hknown. by right.
  - intros ->. by apply (kb_virtual _ _ _ Hall).
  - intros x Hx Ha. by destruct (Hnew x Hx).
Qed.

End tips.
