(* ===== verification/HeaderSpec.v ===== *)
(** Headers through the block processor, one after the other: each is accepted
    or rejected by a rule, the node never fails, and what is accepted is a DAG
    that all the stores agree on. *)

From Stdlib Require Import Sorted.
From S2P Require Import Prelude Transaction SigHash Block Difficulty TxMass Ghostdag GhostdagMergeSet GhostdagSpec ReachInterval.
From S2P Require Import Reachability Reindex ReachTree ReindexCount ReindexPropagate ReindexReclaim ReindexChain ReindexAdd ReachAdd.
From S2P Require Import ReachFuture ReachConcentrate ReachRoot ReachRun DagTopology HeaderTips BlockValidator HeaderInsert HeaderInv HeaderStep.

(** * Outcomes *)

(** A run that ends with [Q], or is rejected; in its context only if [ctx]. *)
Definition ends {A} (ctx : Prop) (m : HM A) (s : headers_state) (Q : A -> headers_state -> Prop) : Prop :=
  exists r s', m s = (r, s') /\ ((exists e, r = Err (Rejected e)) \/ (ctx /\ exists e, r = Err (RejectedInContext e)) \/
    (exists a, r = Ok a /\ Q a s')).

Lemma ends_bind {A B} ctx (m : HM A) (k : A -> HM B) s Q :
  ends ctx m s (fun a s' => ends ctx (k a) s' Q) -> ends ctx (bind m k) s Q.
Proof.
  intros (r & s' & Hm & [[e ->]|[[Hc [e ->]]|(a & -> & Hk)]]); unfold ends, bind; rewrite Hm.
  - eexists _, _. split; [done|]. left. eauto.
  - eexists _, _. split; [done|]. right; left. eauto.
  - exact Hk.
Qed.

Lemma ends_ret {A} ctx (a : A) s (Q : A -> headers_state -> Prop) : Q a s -> ends ctx (ret a) s Q.
Proof. intros HQ. eexists _, _. split; [done|]. right; right. eauto. Qed.

Lemma ends_ok {A} ctx (m : HM A) s a s' (Q : A -> headers_state -> Prop) : m s = (Ok a, s') -> Q a s' -> ends ctx m s Q.
Proof. intros Hm HQ. exists (Ok a), s'. split; [done|]. right; right. eauto. Qed.

Lemma ends_mono {A} ctx (m : HM A) s (Q Q' : A -> headers_state -> Prop) : (forall a s', Q a s' -> Q' a s') -> ends ctx m s Q -> ends ctx m s Q'.
Proof. intros Himp (r & s' & Hm & [H|[H|(a & -> & HQ)]]); eexists _, _; (split; [exact Hm|]); eauto 10. Qed.

(** A check that passes with [P], or is rejected. *)
Definition checked (ctx : Prop) (r : res HeaderError unit) (P : Prop) : Prop :=
  (r = Ok tt /\ P) \/ (exists e, r = Err (Rejected e)) \/ (ctx /\ exists e, r = Err (RejectedInContext e)).

Lemma ends_lift ctx r s (P : Prop) (Q : unit -> headers_state -> Prop) : checked ctx r P -> (P -> Q tt s) -> ends ctx (lift r) s Q.
Proof.
  intros [[-> HP]|[[e ->]|[Hc [e ->]]]] HQ; eexists _, s; (split; [done|]); [right; right|left|right; left]; eauto.
Qed.

Lemma ends_reject {A} ctx (m : HM A) s e (Q : A -> headers_state -> Prop) : m s = (Err (Rejected e), s) -> ends ctx m s Q.
Proof. intros Hm. eexists _, _. split; [done|]. left. eauto. Qed.

Lemma status_set b (s : headers_state) : hs_status s !! b = None ->
  setBlockStatusAfterBlockValidation b true false s = (Ok tt, set_status b StatusHeaderOnly s).
Proof.
  intros Hst. unfold setBlockStatusAfterBlockValidation. erewrite bind_ok by reflexivity. cbv beta. rewrite Hst.
  by rewrite bool_decide_false by done.
Qed.

(** The blocks whose headers were accepted. *)
Fixpoint accepted (bs : list bytes) (rs : list (res HeaderError unit)) : list bytes :=
  match bs, rs with
  | b :: bs, Ok _ :: rs => b :: accepted bs rs
  | _ :: bs, _ :: rs => accepted bs rs
  | _, _ => []
  end.

Section process.
Context `{C : Crypto} `{FC : FloatConversion} `{HC : HeaderComponents} `{BC : BodyComponents}.
Variable vd : headerValidator.
Variable gm : ghostdagManager.
Variable rt : reachabilityManager.
Variable now : Z.
Variable fuel : nat.
Variable hdr : bytes -> BlockHeader.
Abbreviation g := (gm_genesisHash gm).
Abbreviation v := VirtualGenesisBlockHash.
Abbreviation par := (par hdr).
Abbreviation par_v := (par_v gm hdr).
Abbreviation headers_ok := (headers_ok gm rt hdr).

(** The configuration, and a pruning manager with no update of the pruning point
    to carry out. *)
Record config_ok : Prop := {
  cf_genesis : bv_genesisHash (hv_isolation vd) = g;
  cf_powMax : hv_powMax vd < 2 ^ 256;
  cf_k : 0 <= gm_k gm < 255;
  cf_pruning : forall s, UpdatePruningPointIfRequired s = (Ok tt, s)
}.

(** A header under its hash: the hash is not that of a virtual block, and the
    header names no parent twice and not itself. *)
Record header_ok (b : bytes) : Prop := {
  hd_hash : HeaderHash (hdr b) = b;
  hd_virtual : b <> v /\ b <> VirtualBlockHash;
  hd_nodup : NoDup (par b);
  hd_self : b ∉ par b
}.

Context (Hcf : config_ok).

Section one.
Variables (pre : list bytes) (s : headers_state) (t : tree) (b : bytes).
Context (Hok : headers_ok pre s t) (Hb : header_ok b) (Hnew : b ∉ pre) (Hroom : roomy_for rt fuel (2 + zlen pre)).

Abbreviation staged := (staged_state hdr s b).

Lemma new_g : b <> g.
Proof. intros ->. apply Hnew, Hok. Qed.

Lemma staged_at rel gd st : header_at (staged rel gd st) b = Ok (hdr b).
Proof. unfold header_at. cbn. by rewrite lookup_insert_eq. Qed.

Lemma isolation_checked rel gd st : checked (b ∉ pre) (isolation vd now (staged rel gd st) b) (par b <> []).
Proof.
  unfold isolation. rewrite staged_at. cbn [bind_res]. unfold ValidateHeaderInIsolation. cbn [staged_state hs_headers]. rewrite lookup_insert_eq. cbn [bind_res].
  rewrite (cf_genesis Hcf). unfold bytes_eqb. rewrite bool_decide_false by apply new_g. cbn [negb].
  unfold checkBlockVersion. case_if; cbn; [right; left; eauto|]. unfold checkBlockTimestampInIsolation. cbv zeta. case_if; cbn; [right; left; eauto|].
  unfold checkParentsLimit. rewrite (hd_hash b Hb), (cf_genesis Hcf). unfold bytes_eqb. rewrite bool_decide_false by apply new_g. cbn [negb].
  rewrite andb_true_r. destruct (zlen (DirectParents (hdr b)) =? 0) eqn:E; cbn; [right; left; eauto|].
  case_if; cbn; [right; left; eauto|]. left. split; [done|]. intros Hp. unfold HeaderInv.par in Hp. by rewrite Hp in E.
Qed.

Lemma virtual_checked : checked (b ∉ pre) (checkParentNotVirtualGenesis (hdr b)) (v ∉ par b).
Proof.
  unfold checkParentNotVirtualGenesis. destruct (existsb _ _) eqn:E; [right; left; eauto|]. left. split; [done|]. intros Hin.
  assert (Ht : existsb (fun parent => bytes_eqb parent v) (DirectParents (hdr b)) = true); [|congruence].
  apply existsb_exists. exists v. split; [by apply list_elem_of_In|]. unfold bytes_eqb. by rewrite bool_decide_true.
Qed.

Lemma missing_cases s' ps : forall m, (exists m', missing_parents s' ps m = Ok m' /\ zlen m <= zlen m' /\
    (zlen m' = zlen m -> forall p, p ∈ ps -> is_Some (hs_headers s' !! p))) \/
  missing_parents s' ps m = Err (Rejected ErrInvalidAncestorBlock).
Proof.
  induction ps as [|p ps IH]; intros m; cbn [missing_parents].
  { left. exists m. split_and!; [done|lia|]. intros _ p Hp. by apply not_elem_of_nil in Hp. }
  destruct (hs_headers s' !! p) eqn:E.
  - destruct (IH m) as [(m' & H1 & H2 & H3)|H1]; [left; exists m'|by right]. split_and!; [done|done|].
    intros Em q [->|Hq]%elem_of_cons; [by rewrite E|by apply H3].
  - case_if; [by right|]. destruct (IH (m ++ [p])) as [(m' & H1 & H2 & H3)|H1]; [left; exists m'|by right].
    rewrite zlen_app, zlen_cons, zlen_nil in H2. split_and!; [done|lia|]. intros Em. lia.
Qed.

Lemma exist_checked rel gd st : checked (b ∉ pre) (checkParentHeadersExist (staged rel gd st) (hdr b) false) (forall q, q ∈ par b -> q ∈ pre).
Proof.
  unfold checkParentHeadersExist. destruct (missing_cases (staged rel gd st) (DirectParents (hdr b)) []) as [(m & -> & Hm & Hall)| ->]; cbn [bind_res];
    [|right; left; eauto]. destruct (Z.gtb_spec (zlen m) 0); [right; left; eauto|]. left. split; [done|]. rewrite zlen_nil in *. intros q Hq.
  destruct (Hall ltac:(lia) q Hq) as [h Hh]. cbn in Hh. rewrite lookup_insert_ne in Hh.
  - by apply (hk_headers _ _ _ _ _ _ Hok q h) in Hh as [? _].
  - intros <-. by apply (hd_self b Hb).
Qed.

Lemma pow_checked : checked (b ∉ pre) (checkProofOfWork vd (hdr b)) (0 < CalcWork (hdr_Bits (hdr b))).
Proof.
  unfold checkProofOfWork. destruct (Z.leb_spec (CompactToBig (hdr_Bits (hdr b))) 0); [right; left; eauto|].
  destruct (Z.gtb_spec (CompactToBig (hdr_Bits (hdr b))) (hv_powMax vd)); [right; left; eauto|]. case_if; [right; left; eauto|].
  left. split; [done|]. apply CalcWork_pos. pose proof (cf_powMax Hcf). lia.
Qed.

Section linked.
Context (Hne : par b <> []) (Hvp : v ∉ par b) (Hknown : forall q, q ∈ par b -> q ∈ pre).

Lemma incest_checked rel : dtm_Parents rel b = Ok (par b) -> checked (b ∉ pre) (checkParentsIncest (staged rel (hs_ghostdag s) (hs_reach s)) b)
  (forall q r, q ∈ par b -> r ∈ par b -> anc par q r -> q = r).
Proof.
  intros Hrb. unfold checkParentsIncest. cbn [staged_state hs_relations hs_reach]. rewrite Hrb. cbn [of_error bind_res].
  destruct (incest_loop_ok gm rt hdr pre s t (par b) (par b) Hok Hknown Hknown) as [[-> H1]|[-> _]]; [left; auto|right; left; eauto].
Qed.

Lemma pruning_checked rel : dtm_Parents rel b = Ok (par b) ->
  checkPruningPointViolation (staged rel (hs_ghostdag s) (hs_reach s)) b = Ok tt.
Proof.
  intros Hrb. unfold checkPruningPointViolation. cbn [staged_state hs_relations hs_reach hs_pruningPoint]. rewrite (hk_pruning _ _ _ _ _ _ Hok), Hrb. cbn [of_error bind_res].
  destruct (par b) as [|p ps] eqn:E; [done|]. assert (Hp : p ∈ pre) by (apply Hknown; left).
  assert (Hc : ContainsOnlyVirtualGenesis (p :: ps) = false).
  { cbn. destruct ps; [|done]. unfold bytes_eqb. rewrite bool_decide_false; [done|]. intros ->. apply Hvp. left. }
  rewrite Hc. cbn [IsAncestorOfAny]. destruct (headers_query gm rt hdr pre s t g p Hok) as (r & -> & Hr); [apply Hok|done|]. cbn [bind_res of_error].
  rewrite (proj2 Hr); [done|]. by apply (genesis_below gm rt hdr pre s t).
Qed.

Context (Hwork : 0 < CalcWork (hdr_Bits (hdr b))) (Hanti : forall q r, q ∈ par b -> r ∈ par b -> anc par q r -> q = r).
Variable rel : relation_store.
Context (Hro : relations_ok rel) (Hdom : forall x, is_Some (rel !! x) <-> x = v \/ x = VirtualBlockHash \/ x ∈ pre ++ [b]).
Context (Hpar : forall x rx, x <> VirtualBlockHash -> rel !! x = Some rx -> br_Parents rx = par_v x).

Lemma rel_parents x : x ∈ pre ++ [b] -> dtm_Parents rel x = Ok (par_v x).
Proof.
  intros Hx. apply parents_from; [|apply Hdom; by right; right|done]. intros ->. apply elem_of_app in Hx as [Hx|Hx%list_elem_of_singleton].
  - by apply (kb_block _ _ _ (hk_blocks _ _ _ _ _ _ Hok)).
  - by destruct (hd_virtual b Hb).
Qed.

Lemma rel_new : dtm_Parents rel b = Ok (par b).
Proof. rewrite rel_parents, (new_par gm rt hdr pre s t b Hok Hnew (hd_virtual b Hb) Hne Hknown); [done|]. apply elem_of_app. right; left. Qed.

Lemma median_checked s' : checked (b ∉ pre) (validateMedianTime s' (hdr b)) True.
Proof. unfold validateMedianTime. case_if; [left; auto|]. case_if; [right; right; eauto|left; auto]. Qed.

Lemma indirect_checked s' : checked (b ∉ pre) (checkIndirectParents s' (hdr b)) True.
Proof. unfold checkIndirectParents. case_if; [right; right; eauto|left; auto]. Qed.

Lemma depth_checked s' : checked (b ∉ pre) (CheckBoundedMergeDepth s' b false) True.
Proof. unfold CheckBoundedMergeDepth. case_if; [right; right; eauto|left; auto]. Qed.

Lemma daa_checked s' : checked (b ∉ pre) (checkDAAScore s' b (hdr b)) True.
Proof. unfold checkDAAScore. case_if; [right; right; eauto|left; auto]. Qed.

Section data.
Variables (s' : headers_state) (d : BlockGHOSTDAGData).
Context (Hd : hs_ghostdag s' !! (b, false) = Some d).

Lemma limit_checked n : checked (b ∉ pre) (checkMergeSizeLimit n s' b) True.
Proof. unfold checkMergeSizeLimit. rewrite Hd. cbv zeta. case_if; [right; right; eauto|left; auto]. Qed.

Lemma blue_work_checked : checked (b ∉ pre) (checkBlueWork s' b (hdr b)) (hdr_BlueWork (hdr b) = BlueWork d).
Proof. unfold checkBlueWork. rewrite Hd. destruct (Z.eqb_spec (hdr_BlueWork (hdr b)) (BlueWork d)); [left; auto|right; right; eauto]. Qed.

Lemma blue_score_checked : checked (b ∉ pre) (checkHeaderBlueScore s' b (hdr b)) (hdr_BlueScore (hdr b) = BlueScore d).
Proof. unfold checkHeaderBlueScore. rewrite Hd. destruct (Z.eqb_spec (hdr_BlueScore (hdr b)) (BlueScore d)); [left; auto|right; right; eauto]. Qed.

End data.

Lemma pruning_point_checked s' : hs_headers s' !! b = Some (hdr b) -> checked (b ∉ pre) (validateHeaderPruningPoint gm s' b) True.
Proof.
  intros Hh. unfold validateHeaderPruningPoint, header_at. case_if; [left; auto|]. rewrite Hh. cbn [bind_res]. case_if; [right; right; eauto|left; auto].
Qed.

(** The state after the validators. *)
Definition validated (s' : headers_state) : Prop := exists d bs n st known tips p,
  let gd := <[(b, false) := d]> (hs_ghostdag s) in
  s' = staged rel gd st /\ known ≡ₚ v :: pre /\ (forall x, x ∈ tips -> x ∈ pre) /\
  @data_ok (topology_of (staged rel (hs_ghostdag s) (hs_reach s))) (all_headers hdr) gm par gd b d bs n /\
  run_ok rt par_v gd (b :: known) tips st (insert_child p b t) /\
  hdr_BlueScore (hdr b) = BlueScore d /\ hdr_BlueWork (hdr b) = BlueWork d.

Lemma context_ends d bs n :
  let gd := <[(b, false) := d]> (hs_ghostdag s) in
  @data_ok (topology_of (staged rel (hs_ghostdag s) (hs_reach s))) (all_headers hdr) gm par gd b d bs n ->
  ends (b ∉ pre) (ValidateHeaderInContext vd gm rt fuel b false) (staged rel gd (hs_reach s)) (fun _ => validated).
Proof.
  intros gd Hd. assert (Hgd : gd !! (b, false) = Some d) by (unfold gd; by rewrite lookup_insert_eq).
  destruct (hk_run _ _ _ _ _ _ Hok) as (known & tips & Hkn & Hrun & Htips).
  destruct (reach_step_new gm rt fuel hdr pre s t b Hok Hnew (hd_virtual b Hb) Hne Hknown (cf_k Hcf) Hroom _ gd d bs n known tips rel Hd)
    as (st & p & Hadd & Hrun'); [|done|done|].
  { apply insert_subseteq, (data_new gm rt hdr pre s t b Hok Hnew (hd_virtual b Hb)). }
  unfold ValidateHeaderInContext. eapply ends_bind, ends_ok; [done|]. eapply ends_bind, ends_ok; [unfold lift; by rewrite staged_at|].
  eapply ends_bind, ends_lift; [apply median_checked|]. intros _. eapply ends_bind, ends_lift; [by apply (limit_checked _ d)|]. intros _.
  eapply ends_bind, ends_ok; [exact Hadd|]. eapply ends_bind, ends_ok; [done|].
  eapply ends_bind, ends_lift; [apply indirect_checked|]. intros _. eapply ends_bind, ends_lift; [apply depth_checked|]. intros _.
  eapply ends_bind, ends_lift; [apply daa_checked|]. intros _. eapply ends_bind, ends_lift; [by apply (blue_work_checked _ d)|]. intros Hw.
  eapply ends_bind, ends_lift; [by apply (blue_score_checked _ d)|]. intros Hs.
  eapply ends_lift; [apply pruning_point_checked; apply lookup_insert_eq|]. intros _.
  by exists d, bs, n, st, known, tips, p.
Qed.

End linked.

(** The parents of the block are known, unrelated and staged in the relations. *)
Record linked (rel : relation_store) : Prop := {
  lk_parents : par b <> [];
  lk_known : forall q, q ∈ par b -> q ∈ pre;
  lk_anti : forall q r, q ∈ par b -> r ∈ par b -> anc par q r -> q = r;
  lk_work : 0 < CalcWork (hdr_Bits (hdr b));
  lk_rel : relations_ok rel;
  lk_dom : forall x, is_Some (rel !! x) <-> x = v \/ x = VirtualBlockHash \/ x ∈ pre ++ [b];
  lk_par : forall x rx, x <> VirtualBlockHash -> rel !! x = Some rx -> br_Parents rx = par_v x
}.

Lemma difficulty_ends rel : linked rel ->
  ends (b ∉ pre) (validateDifficulty gm fuel b false) (staged rel (hs_ghostdag s) (hs_reach s)) (fun _ s' => exists d bs n,
    let gd := <[(b, false) := d]> (hs_ghostdag s) in s' = staged rel gd (hs_reach s) /\
    @data_ok (topology_of (staged rel (hs_ghostdag s) (hs_reach s))) (all_headers hdr) gm par gd b d bs n).
Proof.
  intros [Hne Hknown Hanti Hwork Hro Hdom Hpar].
  destruct (ghostdag_step gm rt fuel hdr pre s t b Hok Hnew (hd_virtual b Hb) Hne Hknown (hd_nodup b Hb) Hanti (cf_k Hcf) Hroom rel)
    as (d & bs & n & Hrun & Hd).
  { intros x Hx. apply (rel_parents rel Hdom Hpar). apply elem_of_app. by left. }
  { by apply rel_new. }
  unfold validateDifficulty. cbn [negb]. eapply ends_bind, ends_ok; [exact Hrun|]. eapply ends_bind, ends_ok; [done|].
  eapply ends_bind, ends_ok; [unfold lift; by rewrite staged_at|]. case_if; [by eapply ends_reject|]. apply ends_ret. by exists d, bs, n.
Qed.

Lemma proof_ends : par b <> [] ->
  ends (b ∉ pre) (ValidatePruningPointViolationAndProofOfWorkAndDifficulty vd gm fuel b false)
    (staged (hs_relations s) (hs_ghostdag s) (hs_reach s)) (fun _ s' => exists rel d bs n,
    let gd := <[(b, false) := d]> (hs_ghostdag s) in linked rel /\ s' = staged rel gd (hs_reach s) /\
    @data_ok (topology_of (staged rel (hs_ghostdag s) (hs_reach s))) (all_headers hdr) gm par gd b d bs n).
Proof.
  intros Hne. unfold ValidatePruningPointViolationAndProofOfWorkAndDifficulty. eapply ends_bind, ends_ok; [done|].
  eapply ends_bind, ends_ok; [unfold lift; by rewrite staged_at|]. eapply ends_bind, ends_lift; [apply virtual_checked|]. intros Hvp.
  eapply ends_bind, ends_lift; [apply exist_checked|]. intros Hknown.
  destruct (set_parents_step gm rt hdr pre s t b Hok Hnew (hd_virtual b Hb) Hne Hknown) as (rel & Hset & Hro & Hdom & Hpar).
  eapply ends_bind, ends_ok; [exact Hset|]. eapply ends_bind, ends_ok; [done|].
  pose proof (rel_new Hne Hknown rel Hdom Hpar) as Hrb.
  eapply ends_bind, ends_lift; [by apply incest_checked|]. intros Hanti. cbn [negb].
  eapply ends_bind, ends_lift; [left; by split; [apply pruning_checked|exact I]|]. intros _.
  unfold bytes_eqb. rewrite bool_decide_false by apply new_g. cbn [negb]. eapply ends_bind, ends_lift; [apply pow_checked|]. intros Hwork.
  assert (Hl : linked rel) by by constructor. eapply ends_mono, difficulty_ends, Hl. intros _ s' (d & bs & n & -> & Hd). by exists rel, d, bs, n.
Qed.

Lemma validate_ends : hs_status s !! b = None ->
  ends (b ∉ pre) (validateBlock vd gm rt now fuel (hdr b) true false) s (fun _ s' => exists rel, linked rel /\ validated rel s').
Proof.
  intros Hst. unfold validateBlock. cbv zeta. rewrite (hd_hash b Hb). eapply ends_bind, ends_ok; [done|].
  eapply ends_bind, ends_ok; [unfold bytes_eqb; rewrite bool_decide_false by apply new_g; done|].
  eapply ends_bind, ends_ok; [unfold lift, checkBlockStatus; by rewrite Hst|]. unfold hasValidatedHeader. rewrite Hst. cbn [negb].
  eapply ends_bind, ends_ok; [done|]. eapply ends_bind.
  unfold validatePreProofOfWork. eapply ends_bind, ends_ok; [done|]. unfold hasValidatedHeader. cbn [hs_status]. rewrite Hst.
  eapply ends_lift; [apply isolation_checked|]. intros Hne.
  eapply ends_bind, ends_mono, proof_ends, Hne. intros u s' (rel & d & bs & n & Hl & -> & Hd).
  unfold validatePostProofOfWork. cbn [negb]. eapply ends_bind, ends_ok; [done|]. eapply ends_bind, ends_ok; [done|].
  unfold hasValidatedHeader. cbn [staged_state hs_status]. rewrite Hst. cbn [negb]. eapply ends_bind.
  eapply ends_mono; [|by apply (context_ends Hne (lk_known _ Hl) rel d bs n)]. intros a s' Hv. apply ends_ret. eauto.
Qed.

Section accepted.
Variables (rel : relation_store) (d : BlockGHOSTDAGData) (bs : gset bytes) (n : nat) (st : reach_store) (known tips : list bytes) (tr : tree).
Abbreviation gd := (<[(b, false) := d]> (hs_ghostdag s)).
Abbreviation s1 := (staged rel gd st).
Abbreviation all := (pre ++ [b]).
Context (Hl : linked rel) (Hkn : known ≡ₚ v :: pre) (Htips : forall x, x ∈ tips -> x ∈ pre).
Context (Hd : @data_ok (topology_of (staged rel (hs_ghostdag s) (hs_reach s))) (all_headers hdr) gm par gd b d bs n).
Context (Hrun : run_ok rt par_v gd (b :: known) tips st tr).
Context (Hfields : hdr_BlueScore (hdr b) = BlueScore d /\ hdr_BlueWork (hdr b) = BlueWork d).

Lemma gd_grows : hs_ghostdag s ⊆ gd.
Proof. apply insert_subseteq, (data_new gm rt hdr pre s t b Hok Hnew (hd_virtual b Hb)). Qed.

Lemma all_blocks : known_blocks gm hdr all.
Proof. apply (known_new gm rt hdr pre s t b Hok Hnew (hd_virtual b Hb)), Hl. Qed.

Lemma all_known : b :: known ≡ₚ v :: all.
Proof. by apply known_next. Qed.

Lemma all_parents x : x ∈ all -> dtm_Parents rel x = Ok (par_v x).
Proof. apply rel_parents; apply Hl. Qed.

Lemma in_all x : x ∈ all <-> x ∈ pre \/ x = b.
Proof. by rewrite elem_of_app, list_elem_of_singleton. Qed.

Lemma all_base : genesis_ok par_v gd.
Proof.
  destruct (hk_base _ _ _ _ _ _ Hok) as [H1 H2]. constructor; [done|]. rewrite lookup_insert_ne; [done|]. intros E. injection E as E. by destruct (hd_virtual b Hb).
Qed.

Lemma all_work x : x ∈ all -> 0 < CalcWork (hdr_Bits (hdr x)).
Proof. intros [Hx| ->]%in_all; [by apply (hk_works _ _ _ _ _ _ Hok)|apply Hl]. Qed.

Lemma data_of s' tips' : hs_relations s' = rel -> run_ok rt par_v gd (b :: known) tips' (hs_reach s') tr ->
  forall x, x ∈ all -> exists d bs n, @data_ok (topology_of s') (all_headers hdr) gm par gd x d bs n.
Proof.
  intros Hrel Hr. destruct Hl. by apply (data_next gm rt fuel hdr pre s t b Hok Hnew (hd_virtual b Hb)) with (rel := rel) (d := d) (bs := bs) (n := n) (known := known)
    (tips := tips') (tr := tr); try done; [apply Hb|apply Hcf|apply all_parents|apply gd_grows].
Qed.

Lemma all_topology : @topology_ok (topology_of s1) par (list_to_set all).
Proof.
  apply (topology_from gm rt hdr all _ gd (b :: known) tips tr); [apply all_blocks| |apply all_parents|apply all_known|done].
  intros x Hx. destruct (data_of s1 tips eq_refl Hrun x Hx) as (d' & bs' & n' & Hd'). by eapply genesis_anc.
Qed.

Lemma all_room : zlen all < 2 ^ 62 + 1 /\ (length all <= fuel)%nat.
Proof.
  destruct (room_bounds rt fuel pre Hroom) as [H1 H2]. unfold zlen in *. rewrite length_app. cbn [length]. lia.
Qed.

(** The selected tip and its chain. *)
Lemma tip_step : exists tip ts tip' l', ts_tip (hs_tips s) = Some tip /\ AddHeaderTip gd st fuel b (hs_tips s) = (Ok tt, ts) /\
  ts_tip ts = Some tip' /\ (tip' = tip \/ tip' = b) /\ (forall x, x ∈ all -> x = tip' \/ lt_block gd x tip') /\
  selected_chain g gd l' tip' /\ chain_holds (chain_Commit (ts_chain ts)) l'.
Proof.
  destruct (hk_tip _ _ _ _ _ _ Hok) as (tip & l & Htip & Hin & Hmax & Hl' & Hch). exists tip.
  destruct all_room as [Hz Hf].
  destruct (AddHeaderTip_ok gm rt fuel hdr all (topology_of s1) gd st (b :: known) tips tr all_blocks all_topology all_work (data_of s1 tips eq_refl Hrun)
    all_base all_known Hrun (ts_chain (hs_tips s)) l tip b) as (ts & tip' & l2 & Hadd & Hrest).
  - apply in_all. by left.
  - apply in_all. by right.
  - by intros <-.
  - intros Ha. by apply Hnew, (past_known gm hdr pre b tip (hk_blocks _ _ _ _ _ _ Hok)).
  - eapply chain_mono, Hl'. apply gd_grows.
  - done.
  - intros x [Hx| ->]%in_all; [|by left]. right. destruct (Hmax x Hx); [by left|right]. eapply lt_block_mono; [apply gd_grows|done].
  - done.
  - lia.
  - exists ts, tip', l2. split; [done|]. split; [|done]. rewrite <- Hadd. f_equal. destruct (hs_tips s). cbn in *. by rewrite Htip.
Qed.

(** The reindex root. *)
Lemma root_step s2 tip tip' : hs_ghostdag s2 = gd -> hs_reach s2 = st -> ts_tip (hs_tips s2) = Some tip' -> tip' = tip \/ tip' = b ->
  exists st' tips', updateReachabilityReindexRoot rt fuel tip s2 = (Ok tt,
      mk_headers_state (hs_headers s2) (hs_status s2) (hs_blocks s2) (hs_relations s2) (hs_ghostdag s2) st' (hs_tips s2) (hs_pruningPoint s2)) /\
    run_ok rt par_v gd (b :: known) tips' st' tr /\ forall x, x ∈ tips' -> x ∈ all.
Proof.
  intros Hgd Hst Htip Hcase. unfold updateReachabilityReindexRoot. erewrite bind_ok by reflexivity. cbv beta. rewrite Htip.
  unfold bytes_eqb. case_bool_decide as Et.
  { exists st, tips. rewrite <- Hst. split_and!; [by destruct s2|by rewrite Hst|]. intros x Hx. apply in_all. left. by apply Htips. }
  destruct Hcase as [->| ->]; [done|].
  destruct (update_root gm rt fuel hdr all gd st (b :: known) tips tr all_blocks all_known Hrun b) as (st' & Hup & Hr').
  - apply in_all. by right.
  - intros x Hx Ha. destruct (past_v gm hdr pre b x (hk_blocks _ _ _ _ _ _ Hok) (Htips x Hx) Ha) as [E|E]; [by destruct (hd_virtual b Hb)|done].
  - rewrite zlen_cons, (zlen_perm _ _ Hkn), zlen_cons. eapply roomy_le; [|exact Hroom]. lia.
  - exists st', (b :: tips). unfold in_reach. rewrite Hgd, Hst, Hup. split_and!; [done|done|].
    intros x [->|Hx]%elem_of_cons; apply in_all; [by right|left; by apply Htips].
Qed.

Definition inserted (st' : reach_store) (ts : tips_state) : headers_state :=
  mk_headers_state (<[b := hdr b]> (hs_headers s)) (<[b := StatusHeaderOnly]> (hs_status s)) (hs_blocks s) rel gd st'
    (mk_tips_state (ts_tip ts) (chain_Commit (ts_chain ts))) (hs_pruningPoint s).

Lemma next_ok st' ts tips' tip' l' : run_ok rt par_v gd (b :: known) tips' st' tr -> (forall x, x ∈ tips' -> x ∈ all) ->
  ts_tip ts = Some tip' -> tip' ∈ all -> (forall x, x ∈ all -> x = tip' \/ lt_block gd x tip') ->
  selected_chain g gd l' tip' -> chain_holds (chain_Commit (ts_chain ts)) l' -> headers_ok all (inserted st' ts) tr.
Proof.
  intros Hr Ht H1 H2 H3 H4 H5. constructor; cbn [inserted hs_headers hs_status hs_blocks hs_relations hs_ghostdag hs_reach hs_tips hs_pruningPoint ts_tip ts_chain].
  - apply all_blocks.
  - intros x h. rewrite in_all. destruct (decide (x = b)) as [->|Hx]; [rewrite lookup_insert_eq; naive_solver|].
    rewrite lookup_insert_ne by done. rewrite (hk_headers _ _ _ _ _ _ Hok). naive_solver.
  - apply all_work.
  - intros x Hx. destruct (decide (x = b)) as [->|Hxb]; [rewrite lookup_insert_eq; by eexists|].
    rewrite lookup_insert_ne by done. apply (hk_status _ _ _ _ _ _ Hok). apply in_all in Hx. naive_solver.
  - intros x Hx Hxv Hxb. rewrite in_all in Hx. rewrite lookup_insert_ne by naive_solver. apply (hk_others _ _ _ _ _ _ Hok); naive_solver.
  - apply Hok.
  - apply Hok.
  - apply Hl.
  - apply Hl.
  - apply Hl.
  - by apply (data_of _ tips').
  - intros x. rewrite in_all. destruct (decide (x = b)) as [->|Hxb]; [by right; right; right|]. rewrite lookup_insert_ne by congruence.
    intros Hx. destruct (hk_keys _ _ _ _ _ _ Hok x Hx) as [?|[?|?]]; auto.
  - apply all_base.
  - exists (b :: known), tips'. split_and!; [apply all_known|done|done].
  - by exists tip', l'.
  - intros x q r [Hx| ->]%in_all; [by apply (hk_anti _ _ _ _ _ _ Hok)|apply Hl].
  - intros x dx [Hx| ->]%in_all; [|rewrite lookup_insert_eq; by intros [= <-]].
    rewrite lookup_insert_ne by (intros [= <-]; done). by apply (hk_fields _ _ _ _ _ _ Hok).
Qed.

Lemma insert_rest : hs_status s !! b = None -> validateBlock vd gm rt now fuel (hdr b) true false s = (Ok tt, s1) ->
  exists s', validateAndInsertBlock vd gm rt now fuel (hdr b) true false true false s = (Ok tt, s') /\ headers_ok all s' tr.
Proof.
  intros Hst Hval. destruct tip_step as (tip & ts & tip' & l' & Htip & Hadd & Htip' & Hcase & Hmax & Hl' & Hch).
  pose proof (genesis_in_chain gm rt hdr all (topology_of s1) gd st (b :: known) tips tr all_blocks all_topology all_work (data_of s1 tips eq_refl Hrun)
    all_base all_known Hrun b (proj2 (in_all b) (or_intror eq_refl))) as Hgen.
  edestruct (root_step (mk_headers_state (<[b := hdr b]> (hs_headers s)) (<[b := StatusHeaderOnly]> (hs_status s)) (hs_blocks s) rel gd st ts (hs_pruningPoint s)))
    as (st' & tips' & Hroot & Hr & Hts); [done|done|done|exact Hcase|].
  exists (inserted st' ts). split; cycle 1.
  { apply (next_ok st' ts tips' tip' l'); try done. apply in_all. destruct Hcase as [->| ->]; [left|by right].
    destruct (hk_tip _ _ _ _ _ _ Hok) as (tip0 & _ & Ht0 & Hin & _). congruence. }
  unfold validateAndInsertBlock. cbv zeta. rewrite (hd_hash b Hb). erewrite bind_ok by exact Hval. cbv beta.
  erewrite bind_ok by (by apply status_set). cbv beta. erewrite bind_ok by reflexivity. cbv beta.
  cbn [set_status hs_tips hs_ghostdag hs_reach hs_pruningPoint staged_state negb andb]. rewrite Htip, (hk_pruning _ _ _ _ _ _ Hok). erewrite bind_ok by (unfold lift; rewrite Hgen; reflexivity). cbv beta.
  erewrite bind_ok by (unfold in_tips; cbn [set_status hs_tips staged_state]; rewrite Hadd; reflexivity). cbv beta.
  erewrite bind_ok by reflexivity. cbv beta. cbn [set_status hs_headers hs_status hs_blocks hs_relations hs_ghostdag hs_reach hs_pruningPoint staged_state].
  erewrite bind_ok by (exact Hroot). cbv beta. by erewrite bind_ok by reflexivity.
Qed.

End accepted.

Lemma insert_ends : hs_status s !! b = None ->
  ends (b ∉ pre) (validateAndInsertBlock vd gm rt now fuel (hdr b) true false true false) s (fun _ s' => exists t', headers_ok (pre ++ [b]) s' t').
Proof.
  intros Hst. destruct (validate_ends Hst) as (r & s1 & Hval & Hr).
  destruct Hr as [[e ->]|[[_ [e ->]]|([] & -> & rel & Hl & d & bs & n & st & known & tips & p & -> & Hkn & Htips & Hd & Hrun & Hfields)]].
  - eexists _, _. split; [unfold validateAndInsertBlock, bind; by rewrite Hval|]. eauto.
  - eexists _, _. split; [unfold validateAndInsertBlock, bind; by rewrite Hval|]. eauto.
  - destruct (insert_rest rel d bs n st known tips _ Hl Hkn Htips Hd Hrun Hfields Hst Hval) as (s' & Hins & Hok'). eapply ends_ok; eauto.
Qed.

End one.

(** A rejected block may leave the status of an invalid block behind. *)
Lemma invalid_ok pre s t b : headers_ok pre s t -> b ∉ pre -> b <> v -> headers_ok pre (set_status b StatusInvalid s) t.
Proof.
  intros [] Hnew Hbv. constructor; try done; cbn.
  - intros x Hx. rewrite lookup_insert_ne by (by intros <-). auto.
  - intros x Hx Hxv. destruct (decide (x = b)) as [->|Hxb]; [rewrite lookup_insert_eq; by right|]. rewrite lookup_insert_ne by done. auto.
Qed.

(** Blocks whose status is known are turned away. *)
Lemma known_rejected pre s t b : headers_ok pre s t -> header_ok b -> b ∈ pre -> b <> g ->
  validateAndInsertBlock vd gm rt now fuel (hdr b) true false true false s = (Err (Rejected ErrDuplicateBlock), s).
Proof.
  intros Hok Hb Hin Hg. destruct (hk_status _ _ _ _ _ _ Hok b Hin) as (status & Hst & Hne).
  assert (Hh : hs_headers s !! b = Some (hdr b)) by (by apply (hk_headers _ _ _ _ _ _ Hok)).
  unfold validateAndInsertBlock, validateBlock, bind. cbv zeta. rewrite (hd_hash b Hb). cbn [get]. unfold bytes_eqb.
  rewrite bool_decide_false by done. cbn. unfold lift, checkBlockStatus. rewrite Hst, Hh. by destruct status.
Qed.

Lemma genesis_rejected pre s t : headers_ok pre s t -> header_ok g ->
  validateAndInsertBlock vd gm rt now fuel (hdr g) true false true false s = (Err (Rejected ErrGenesisOnInitializedConsensus), s).
Proof.
  intros Hok Hg. unfold validateAndInsertBlock, validateBlock, bind. cbv zeta. rewrite (hd_hash g Hg). cbn [get]. unfold bytes_eqb.
  rewrite bool_decide_true by done. pose proof (hk_count _ _ _ _ _ _ Hok) as Hc.
  destruct (Z.eqb_spec (Z.of_nat (size (hs_blocks s))) 0) as [E|E]; [|done]. destruct Hc. apply leibniz_equiv, size_empty_inv. lia.
Qed.

Lemma invalid_rejected pre s t b : headers_ok pre s t -> header_ok b -> b ∉ pre -> hs_status s !! b = Some StatusInvalid ->
  validateAndInsertBlock vd gm rt now fuel (hdr b) true false true false s = (Err (Rejected ErrKnownInvalid), s).
Proof.
  intros Hok Hb Hin Hst. unfold validateAndInsertBlock, validateBlock, bind. cbv zeta. rewrite (hd_hash b Hb). cbn [get]. unfold bytes_eqb.
  rewrite bool_decide_false by (intros ->; apply Hin, Hok). cbn. unfold lift, checkBlockStatus. by rewrite Hst.
Qed.

(** What becomes of a header. *)
Lemma header_step pre s t b : headers_ok pre s t -> header_ok b -> roomy_for rt fuel (2 + zlen pre) ->
  exists r s', ValidateAndInsertBlock vd gm rt now fuel (hdr b) true true s = (r, s') /\
    ((r = Ok tt /\ b ∉ pre /\ exists t', headers_ok (pre ++ [b]) s' t') \/
     ((exists e, r = Err (Rejected e)) /\ s' = s) \/
     ((exists e, r = Err (RejectedInContext e)) /\ b ∉ pre /\ s' = set_status b StatusInvalid s /\ headers_ok pre s' t)).
Proof.
  intros Hok Hb Hroom. unfold ValidateAndInsertBlock. rewrite (hd_hash b Hb). unfold commit_block.
  destruct (decide (b ∈ pre)) as [Hin|Hnew].
  { destruct (decide (b = g)) as [->|Hg]; [rewrite (genesis_rejected pre s t)|rewrite (known_rejected pre s t)]; eauto 10. }
  destruct (hk_others _ _ _ _ _ _ Hok b Hnew (proj1 (hd_virtual b Hb)) (proj2 (hd_virtual b Hb))) as [Hst|Hst].
  - destruct (insert_ends pre s t b Hok Hb Hnew Hroom Hst) as (r & s' & -> & [[e ->]|[[_ [e ->]]|([] & -> & t' & Hok')]]).
    + eauto 10.
    + eexists _, _. split; [done|]. right; right. split_and!; eauto. apply invalid_ok; [done|done|apply Hb].
    + cbn [negb]. erewrite bind_ok by reflexivity. rewrite (cf_pruning Hcf). eauto 10.
  - rewrite (invalid_rejected pre s t b) by done. eauto 10.
Qed.
(** * A run *)

(** A header is accepted or breaks a rule. *)
Definition decided (r : res HeaderError unit) : Prop :=
  r = Ok tt \/ exists e, r = Err (Rejected e) \/ r = Err (RejectedInContext e).

Lemma process_run bs : forall pre s t, headers_ok pre s t -> (forall b, b ∈ bs -> header_ok b) -> roomy_for rt fuel (2 + zlen pre + zlen bs) ->
  exists rs s' t', process_headers vd gm rt now fuel (map hdr bs) s = (rs, s') /\ length rs = length bs /\ Forall decided rs /\
    headers_ok (pre ++ accepted bs rs) s' t'.
Proof.
  induction bs as [|b bs IH]; intros pre s t Hok Hall Hroom; cbn [map process_headers].
  { exists [], s, t. split_and!; [done|done|constructor|]. cbn. by rewrite app_nil_r. }
  rewrite zlen_cons in Hroom. pose proof (zlen_nonneg bs) as Hz.
  destruct (header_step pre s t b Hok) as (r & s1 & -> & Hstep); [apply Hall; left|eapply roomy_le; [|exact Hroom]; lia|].
  assert (Hnext : exists pre1 t1, headers_ok pre1 s1 t1 /\ decided r /\ zlen pre1 <= zlen pre + 1 /\
    forall rs, pre ++ accepted (b :: bs) (r :: rs) = pre1 ++ accepted bs rs).
  { destruct Hstep as [(-> & Hnew & t1 & Hok1)|[[[e ->] ->]|([e ->] & Hnew & -> & Hok1)]].
    - exists (pre ++ [b]), t1. split_and!; [done|by left|rewrite zlen_app, zlen_cons, zlen_nil; lia|]. intros rs. cbn. by rewrite <- app_assoc.
    - exists pre, t. split_and!; [done|right; eauto|lia|done].
    - exists pre, t. split_and!; [done|right; eauto|lia|done]. }
  destruct Hnext as (pre1 & t1 & Hok1 & Hdec & Hz1 & Happ).
  destruct (IH pre1 s1 t1 Hok1) as (rs & s' & t' & -> & Hlen & Hds & Hok').
  { intros x Hx. apply Hall. by right. }
  { eapply roomy_le; [|exact Hroom]. lia. }
  exists (r :: rs), s', t'. split_and!; [done|cbn; by rewrite Hlen|by constructor|by rewrite Happ].
Qed.

End process.
