(* ===== verification/HeaderRun.v ===== *)
(** A node from its start: the consensus is set up with its genesis, headers
    arrive in any order, and what the stores answer is the DAG of the headers
    that were accepted. *)

From Stdlib Require Import Sorted.
From S2P Require Import Prelude Transaction SigHash Block Difficulty TxMass Ghostdag GhostdagMergeSet GhostdagSpec ReachInterval.
From S2P Require Import Reachability Reindex ReachTree ReindexCount ReindexPropagate ReindexReclaim ReindexChain ReindexAdd ReachAdd.
From S2P Require Import ReachFuture ReachConcentrate ReachRoot ReachRun DagTopology HeaderTips BlockValidator HeaderInsert HeaderInv HeaderStep HeaderSpec.
From S2P Require Import TxValidator Coinbase.

Section init.
Context `{C : Crypto} `{FC : FloatConversion} `{HC : HeaderComponents} `{BC : BodyComponents}.
Variable vd : headerValidator.
Variable gm : ghostdagManager.
Variable rt : reachabilityManager.
Variable now : Z.
Variable fuel : nat.
Variable hdr : bytes -> BlockHeader.
Abbreviation g := (gm_genesisHash gm).
Abbreviation v := VirtualGenesisBlockHash.
Abbreviation vb := VirtualBlockHash.
Abbreviation par := (par hdr).
Abbreviation par_v := (par_v gm hdr).
Abbreviation headers_ok := (headers_ok gm rt hdr).

(** The genesis header passes the checks it goes through. *)
Record genesis_header : Prop := {
  gh_hash : HeaderHash (hdr g) = g;
  gh_virtual : g <> v /\ g <> vb;
  gh_parents : DirectParents (hdr g) = [];
  gh_work : 0 < CalcWork (hdr_Bits (hdr g));
  gh_time : checkBlockTimestampInIsolation (hv_isolation vd) now (hdr g) = Ok tt;
  gh_maxParents : 0 <= maxBlockParents (hv_isolation vd);
  gh_limit : 0 <= hv_mergeSetSizeLimit vd;
  gh_bits : forall s, RequiredDifficulty s g true = hdr_Bits (hdr g);
  gh_depth : forall s, IsMergeDepthBounded s g true = true;
  gh_daa : forall s, ExpectedDAAScore s g = hdr_DAAScore (hdr g);
  gh_blueWork : hdr_BlueWork (hdr g) = 0;
  gh_blueScore : hdr_BlueScore (hdr g) = 0
}.

(** The body of the genesis is valid; the consensus state manager finds it valid and
    puts the virtual block on top of it; the pruning manager makes it the
    pruning point. *)
Record genesis_body : Prop := {
  gb_isolation : forall s, BodyInIsolation s g = Ok tt;
  gb_context : forall s, BodyInContext s g true = Ok tt;
  gb_virtual : exists d, forall s rel, SetParents vb [g] (hs_relations s) = (Ok tt, rel) ->
    csm_AddBlock g true s = (Ok tt, mk_headers_state (hs_headers s) (<[g := StatusUTXOValid]> (hs_status s)) (hs_blocks s) rel
      (<[(vb, false) := d]> (hs_ghostdag s)) (hs_reach s) (hs_tips s) (hs_pruningPoint s));
  gb_pruning : forall s, UpdatePruningPointByVirtual s = (Ok tt, mk_headers_state (hs_headers s) (hs_status s) (hs_blocks s)
    (hs_relations s) (hs_ghostdag s) (hs_reach s) (hs_tips s) (Some g));
  gb_reverse : forall s, ReverseUTXODiffs g s = (Ok tt, s)
}.

Context (Hcf : config_ok vd gm) (Hgh : genesis_header) (Hgb : genesis_body) (Hroom : roomy_for rt fuel 2).

Lemma genesis_par_v : par_v g = [v].
Proof. unfold HeaderInv.par_v. rewrite decide_False, decide_True; [done|done|]. apply (gh_virtual Hgh). Qed.

Lemma not_virtual : g ∉ [v].
Proof. intros E%list_elem_of_singleton. by destruct (gh_virtual Hgh). Qed.

Lemma init_relations : exists rel0 rel rel2, SetParents v [] ∅ = (Ok tt, rel0) /\ SetParents g [v] rel0 = (Ok tt, rel) /\
  dtm_Parents rel g = Ok [v] /\ SetParents vb [g] rel = (Ok tt, rel2) /\
  relations_ok rel2 /\ (forall x, is_Some (rel2 !! x) <-> x = v \/ x = vb \/ x ∈ [g]) /\
  (forall x rx, x <> vb -> rel2 !! x = Some rx -> br_Parents rx = par_v x).
Proof.
  destruct (gh_virtual Hgh) as [Hgv Hgb'].
  assert (Hro : relations_ok ∅) by (constructor; intros x rx; intros; rewrite lookup_empty in *; done).
  destruct (set_leaf ∅ v [] Hro (lookup_empty v)) as (rel0 & Hrun0 & Hro0 & Hdom0 & Hv0 & Hpar0); [intros p Hp; by apply not_elem_of_nil in Hp|].
  assert (Hd0 : forall x, is_Some (rel0 !! x) <-> x = v) by (intros x; rewrite Hdom0, lookup_empty; split; [by intros [?|[? ?]]|by left]).
  destruct (set_leaf rel0 g [v] Hro0) as (rel & Hrun & Hro1 & Hdom1 & Hg1 & Hpar1).
  { apply eq_None_not_Some. by rewrite Hd0. }
  { intros p ->%list_elem_of_singleton. by apply Hd0. }
  destruct (set_leaf rel vb [g] Hro1) as (rel2 & Hrun2 & Hro2 & Hdom2 & _ & Hpar2).
  { apply eq_None_not_Some. rewrite Hdom1, Hd0. by intros [E|E]. }
  { intros p ->%list_elem_of_singleton. apply Hdom1. by left. }
  exists rel0, rel, rel2. split_and!; try done.
  - destruct (proj2 (Hdom1 g) (or_introl eq_refl)) as [rg Hrg]. unfold dtm_Parents, BlockRelation. rewrite Hrg. cbn. by rewrite (Hg1 rg Hrg).
  - intros x. rewrite Hdom2, Hdom1, Hd0, list_elem_of_singleton. tauto.
  - intros x rx Hxb Hx. destruct (Hpar2 x rx Hxb Hx) as (r & Hr & ->). destruct (decide (x = g)) as [->|Hxg].
    { rewrite genesis_par_v. by apply Hg1. }
    destruct (Hpar1 x r Hxg Hr) as (r0 & Hr0 & ->). assert (x = v) as -> by (apply Hd0; by rewrite Hr0). rewrite par_v_virtual. by apply Hv0.
Qed.

Definition init_gd : ghostdag_store :=
  <[(g, true) := trusted_genesis_data]> (<[(g, false) := trusted_genesis_data]> (<[(v, false) := virtual_genesis_data]> ∅)).

Lemma init_gd_genesis : init_gd !! (g, false) = Some trusted_genesis_data.
Proof.
  destruct (gh_virtual Hgh) as [Hgv _]. unfold init_gd. rewrite lookup_insert_ne by congruence. by rewrite lookup_insert_eq.
Qed.

Lemma init_gd_virtual : init_gd !! (v, false) = Some virtual_genesis_data.
Proof.
  destruct (gh_virtual Hgh) as [Hgv _]. unfold init_gd. rewrite !lookup_insert_ne by congruence. by rewrite lookup_insert_eq.
Qed.

Lemma init_merged : merged par_v init_gd g v trusted_genesis_data.
Proof.
  destruct (gh_virtual Hgh) as [Hgv _].
  constructor; [apply init_gd_genesis|done|rewrite genesis_par_v; left| |].
  - intros x Hx. by apply not_elem_of_nil in Hx.
  - intros x Hx. apply rtc_inv_r in Hx as [->|(q & Hxq & Hq)]; [by left|]. right; left. unfold parent_of in Hq.
    rewrite genesis_par_v in Hq. by apply list_elem_of_singleton in Hq as ->.
Qed.

Lemma init_reach : exists st0 st, Init empty_store = (Ok tt, st0) /\ rs_data st0 !! g = None /\
  AddBlock rt fuel init_gd g st0 = (Ok tt, st) /\ run_ok rt par_v init_gd [g; v] [] st (insert_child v g (Node v [])).
Proof.
  destruct (gh_virtual Hgh) as [Hgv _].
  assert (Hgo : genesis_ok par_v init_gd) by (constructor; [apply par_v_virtual|apply init_gd_virtual]).
  destruct (run_init rt par_v init_gd Hgo) as (st0 & Hinit & Hr0).
  assert (Hg : g ∉ [v]) by (apply not_virtual).
  destruct (run_add rt fuel par_v init_gd [v] [] st0 (Node v []) g v virtual_genesis_data trusted_genesis_data Hr0 Hg)
    as (st & Hadd & Hr); [|apply init_merged|apply init_gd_virtual|cbn; lia|done|].
  - intros q. by rewrite genesis_par_v.
  - exists st0, st. split_and!; try done. destruct (rs_data st0 !! g) eqn:E; [|done]. destruct Hg.
    rewrite <- (ru_known _ _ _ _ _ _ _ Hr0). apply (ro_dom _ _ _ (da_reach _ _ _ _ (ru_dag _ _ _ _ _ _ _ Hr0))). by rewrite E.
Qed.

Abbreviation no_tips := (mk_tips_state None emptyChainStore).
Abbreviation status0 := (<[v := StatusUTXOValid]> ∅ : gmap bytes BlockStatus).
Abbreviation headers1 := (<[g := hdr g]> ∅ : gmap bytes BlockHeader).
Abbreviation staged := (fun blocks rel st => mk_headers_state headers1 status0 blocks rel init_gd st no_tips None).

Lemma init_status : status0 !! g = None.
Proof. rewrite lookup_insert_ne, lookup_empty; [done|]. intros E. by destruct (gh_virtual Hgh). Qed.

Lemma init_header_at blocks rel st : header_at (staged blocks rel st) g = Ok (hdr g).
Proof. unfold header_at. cbn [hs_headers]. by rewrite lookup_insert_eq. Qed.

Lemma init_isolation blocks rel st : isolation vd now (staged blocks rel st) g = Ok tt.
Proof.
  unfold isolation. rewrite init_header_at. cbn [bind_res hs_headers]. unfold ValidateHeaderInIsolation. rewrite lookup_insert_eq. cbn [bind_res].
  rewrite (cf_genesis _ _ Hcf). unfold bytes_eqb. rewrite bool_decide_true by done. cbn [negb bind_res]. rewrite (gh_time Hgh). cbn [bind_res].
  unfold checkParentsLimit. rewrite (gh_parents Hgh), (gh_hash Hgh), (cf_genesis _ _ Hcf). unfold bytes_eqb. rewrite bool_decide_true by done.
  change (uint64 (zlen [])) with 0. pose proof (gh_maxParents Hgh). cbn. by destruct (Z.gtb_spec 0 (maxBlockParents (hv_isolation vd))); [lia|].
Qed.

(** The parents and the difficulty of the genesis. *)
Lemma init_proof rel0 rel st0 : SetParents g [v] rel0 = (Ok tt, rel) -> dtm_Parents rel g = Ok [v] ->
  ValidatePruningPointViolationAndProofOfWorkAndDifficulty vd gm fuel g true (staged ∅ rel0 st0) = (Ok tt, staged ∅ rel st0).
Proof.
  intros Hset Hpar. unfold ValidatePruningPointViolationAndProofOfWorkAndDifficulty. erewrite bind_ok by reflexivity. cbv beta.
  erewrite bind_ok by (unfold lift; rewrite init_header_at; reflexivity). cbv beta.
  erewrite bind_ok by (unfold lift, checkParentNotVirtualGenesis; rewrite (gh_parents Hgh); reflexivity). cbv beta.
  erewrite bind_ok by reflexivity. cbv beta. erewrite bind_ok.
  2:{ unfold setParents, ParentsAtLevel. rewrite (gh_parents Hgh). erewrite bind_ok by reflexivity. cbv beta.
      assert (E : match hdr_Parents (hdr g) !! 0%nat with Some l => l | None => [] end = []).
      { pose proof (gh_parents Hgh) as Hp. unfold DirectParents in Hp. by destruct (hdr_Parents (hdr g)). }
      rewrite E. erewrite bind_ok by reflexivity. unfold in_relations. cbn [hs_relations]. rewrite Hset. reflexivity. }
  cbv beta. erewrite bind_ok by reflexivity. cbv beta. erewrite bind_ok.
  2:{ unfold lift, checkParentsIncest. cbn [hs_relations]. rewrite Hpar. cbn [of_error bind_res incest_loop incest_with]. unfold bytes_eqb.
      rewrite bool_decide_true by done. reflexivity. }
  cbv beta. cbn [negb]. erewrite bind_ok by reflexivity. cbv beta. unfold bytes_eqb. rewrite bool_decide_true by done. cbn [negb].
  erewrite bind_ok by reflexivity. cbv beta. unfold validateDifficulty. cbn [negb]. erewrite bind_ok by reflexivity. cbv beta.
  erewrite bind_ok by reflexivity. cbv beta. erewrite bind_ok by (unfold lift; rewrite init_header_at; reflexivity). cbv beta.
  by rewrite (gh_bits Hgh), Z.eqb_refl.
Qed.

Lemma init_context blocks rel st0 st : rs_data st0 !! g = None -> AddBlock rt fuel init_gd g st0 = (Ok tt, st) ->
  ValidateHeaderInContext vd gm rt fuel g true (staged blocks rel st0) = (Ok tt, staged blocks rel st).
Proof.
  intros Hnew Hadd. unfold ValidateHeaderInContext. erewrite bind_ok by reflexivity. cbv beta.
  erewrite bind_ok by (unfold lift; rewrite init_header_at; reflexivity). cbv beta.
  erewrite bind_ok by (unfold lift, validateMedianTime; rewrite (gh_parents Hgh); reflexivity). cbv beta. erewrite bind_ok.
  2:{ unfold lift, checkMergeSizeLimit. cbn [hs_ghostdag]. rewrite init_gd_genesis. cbn [MergeSetBlues MergeSetReds trusted_genesis_data].
      change (uint64 (zlen [] + zlen [])) with 0. pose proof (gh_limit Hgh). destruct (Z.gtb_spec 0 (hv_mergeSetSizeLimit vd)); [lia|]. reflexivity. }
  cbv beta. erewrite bind_ok.
  2:{ unfold add_reachability. cbn [hs_reach]. rewrite Hnew. unfold in_reach. cbn [hs_ghostdag hs_reach]. rewrite Hadd. reflexivity. }
  cbv beta. erewrite bind_ok by reflexivity. cbv beta. cbn [negb]. erewrite bind_ok by reflexivity. cbv beta.
  erewrite bind_ok by (unfold lift, CheckBoundedMergeDepth; rewrite (gh_depth Hgh); reflexivity). cbv beta.
  erewrite bind_ok by (unfold lift, checkDAAScore; rewrite (gh_daa Hgh), Z.eqb_refl; reflexivity). cbv beta.
  erewrite bind_ok by (unfold lift, checkBlueWork; cbn [hs_ghostdag]; rewrite init_gd_genesis, (gh_blueWork Hgh); reflexivity). cbv beta.
  by erewrite bind_ok by (unfold lift, checkHeaderBlueScore; cbn [hs_ghostdag]; rewrite init_gd_genesis, (gh_blueScore Hgh); reflexivity).
Qed.

Abbreviation blocks1 := ({[g]} ∪ ∅ : gset bytes).

Lemma init_post rel st0 st : rs_data st0 !! g = None -> AddBlock rt fuel init_gd g st0 = (Ok tt, st) ->
  validatePostProofOfWork vd gm rt fuel g false true (staged ∅ rel st0) = (Ok tt, staged blocks1 rel st).
Proof.
  intros Hnew Hadd. unfold validatePostProofOfWork. cbn [negb]. erewrite bind_ok.
  2:{ erewrite bind_ok by reflexivity. cbv beta. erewrite bind_ok by reflexivity. cbv beta. unfold lift. rewrite (gb_isolation Hgb). reflexivity. }
  cbv beta. erewrite bind_ok by reflexivity. cbv beta. unfold hasValidatedHeader. cbn [hs_status]. rewrite init_status. cbn [negb].
  erewrite bind_ok by (by apply init_context). cbv beta. erewrite bind_ok by reflexivity. cbv beta. unfold lift. by rewrite (gb_context Hgb).
Qed.

Lemma init_validate rel0 rel st0 st : SetParents g [v] rel0 = (Ok tt, rel) -> dtm_Parents rel g = Ok [v] ->
  rs_data st0 !! g = None -> AddBlock rt fuel init_gd g st0 = (Ok tt, st) ->
  validateBlock vd gm rt now fuel (hdr g) false true (mk_headers_state ∅ status0 ∅ rel0 init_gd st0 no_tips None) = (Ok tt, staged blocks1 rel st).
Proof.
  intros Hset Hpar Hnew Hadd. unfold validateBlock. cbv zeta. rewrite (gh_hash Hgh). erewrite bind_ok by reflexivity. cbv beta.
  erewrite bind_ok by (cbn [hs_blocks]; rewrite size_empty, andb_false_r; reflexivity). cbv beta.
  unfold checkBlockStatus, hasValidatedHeader. cbn [hs_status]. rewrite init_status. erewrite bind_ok by reflexivity. cbv beta. cbn [negb].
  erewrite bind_ok by reflexivity. cbv beta. erewrite bind_ok.
  2:{ unfold validatePreProofOfWork. erewrite bind_ok by reflexivity. cbv beta. unfold hasValidatedHeader. cbn [hs_status]. rewrite init_status.
      unfold lift. rewrite init_isolation. reflexivity. }
  cbv beta. erewrite bind_ok by (by apply (init_proof rel0 rel)). cbv beta. by apply init_post.
Qed.

(** The stores with the genesis. *)
Definition init_state (rel : relation_store) (d : BlockGHOSTDAGData) (st : reach_store) (cs : headersSelectedChainStore) : headers_state :=
  mk_headers_state headers1 (<[g := StatusUTXOValid]> (<[g := StatusUTXOPendingVerification]> status0)) blocks1 rel
    (<[(vb, false) := d]> init_gd) st (mk_tips_state (Some g) cs) (Some g).

Lemma init_insert rel0 rel rel2 st0 st : SetParents g [v] rel0 = (Ok tt, rel) -> dtm_Parents rel g = Ok [v] -> SetParents vb [g] rel = (Ok tt, rel2) ->
  rs_data st0 !! g = None -> AddBlock rt fuel init_gd g st0 = (Ok tt, st) ->
  exists d cs, validateAndInsertBlock vd gm rt now fuel (hdr g) false false true true (mk_headers_state ∅ status0 ∅ rel0 init_gd st0 no_tips None) =
    (Ok tt, init_state rel2 d st cs) /\ chain_holds cs [g].
Proof.
  intros Hset Hpar Hset2 Hnew Hadd. destruct (gb_virtual Hgb) as [d Hvirt].
  destruct (chain_change emptyChainStore [] [] [g] chain_holds_empty) as (cs & Hst & Hholds); [apply NoDup_singleton|done..|].
  change (rev []) with (@nil bytes) in Hst. exists d, (chain_Commit cs). split; [|done]. unfold validateAndInsertBlock. cbv zeta. rewrite (gh_hash Hgh).
  erewrite bind_ok by (by apply (init_validate rel0 rel st0 st)). cbv beta.
  erewrite bind_ok.
  2:{ unfold setBlockStatusAfterBlockValidation. erewrite bind_ok by reflexivity. cbv beta. cbn [hs_status]. rewrite init_status.
      rewrite bool_decide_false by done. reflexivity. }
  cbv beta. erewrite bind_ok by reflexivity. cbv beta. cbn [set_status hs_tips ts_tip]. erewrite bind_ok by reflexivity. cbv beta.
  erewrite bind_ok.
  2:{ unfold in_tips, AddHeaderTip. cbn [hs_tips set_status]. erewrite bind_ok by reflexivity. cbv beta. cbn [ts_tip ts_chain].
      erewrite bind_ok by reflexivity. cbv beta. unfold stage_chain. cbn [ts_chain]. rewrite Hst. reflexivity. }
  cbv beta. cbn [negb andb]. erewrite bind_ok by (apply Hvirt; exact Hset2). cbv beta. erewrite bind_ok by reflexivity. cbv beta.
  erewrite bind_ok by apply (gb_pruning Hgb). done.
Qed.

Lemma init_virtual rel0 st0 : SetParents v [] ∅ = (Ok tt, rel0) -> Init empty_store = (Ok tt, st0) ->
  init_virtual_genesis empty_headers = (Ok tt, mk_headers_state ∅ status0 ∅ rel0 (<[(v, false) := virtual_genesis_data]> ∅) st0 no_tips None).
Proof.
  intros Hset Hinit. unfold init_virtual_genesis, empty_headers. erewrite bind_ok by reflexivity. cbv beta. unfold set_status.
  cbn [hs_headers hs_status hs_blocks hs_relations hs_ghostdag hs_reach hs_tips hs_pruningPoint].
  erewrite bind_ok by (unfold in_reach; cbn [hs_reach]; rewrite Hinit; reflexivity). cbv beta.
  by erewrite bind_ok by (unfold in_relations; cbn [hs_relations]; rewrite Hset; reflexivity).
Qed.

Lemma init_run : exists rel d st cs, consensus_Init vd gm rt now fuel (hdr g) false empty_headers = (Ok tt, init_state rel d st cs) /\
  relations_ok rel /\ (forall x, is_Some (rel !! x) <-> x = v \/ x = vb \/ x ∈ [g]) /\
  (forall x rx, x <> vb -> rel !! x = Some rx -> br_Parents rx = par_v x) /\
  run_ok rt par_v init_gd [g; v] [] st (insert_child v g (Node v [])) /\ chain_holds cs [g].
Proof.
  destruct init_relations as (rel0 & rel & rel2 & Hset0 & Hset & Hpg & Hset2 & Hro & Hdom & Hpar).
  destruct init_reach as (st0 & st & Hinit & Hnew & Hadd & Hr).
  destruct (init_insert rel0 rel rel2 st0 st Hset Hpg Hset2 Hnew Hadd) as (d & cs & Hins & Hch). exists rel2, d, st, cs. split; [|done].
  unfold consensus_Init. erewrite bind_ok by reflexivity. cbv beta. cbn [empty_headers hs_status]. rewrite lookup_empty.
  erewrite bind_ok by (by apply init_virtual). cbv beta. erewrite bind_ok by reflexivity. cbv beta. cbn [hs_blocks]. rewrite size_empty.
  change (negb false && (Z.of_nat 0 =? 0)) with true. cbv iota. unfold ValidateAndInsertBlockWithTrustedData. rewrite (gh_hash Hgh).
  unfold commit_block, validateAndInsertBlockWithTrustedData. cbn [foldr].
  erewrite bind_ok by reflexivity. cbv beta. erewrite bind_ok by reflexivity. cbv beta. erewrite bind_ok by reflexivity. cbv beta. erewrite bind_ok.
  2:{ unfold lift, ghostdagDataWithoutPrunedBlocks, isPruned. cbn [hs_ghostdag SelectedParent trusted_genesis_data snd].
      rewrite lookup_insert_eq. reflexivity. }
  cbv beta. rewrite (gh_hash Hgh). erewrite bind_ok by reflexivity. cbv beta. cbn [foldr fst snd]. erewrite bind_ok by reflexivity. cbv beta.
  assert (E : forall m : HM unit, m = validateAndInsertBlock vd gm rt now fuel (hdr g) false false true true -> m
    (mk_headers_state ∅ status0 ∅ rel0 init_gd st0 no_tips None) = (Ok tt, init_state rel2 d st cs)) by (intros m ->; exact Hins).
  erewrite E by reflexivity. cbn [negb]. erewrite bind_ok by apply (gb_reverse Hgb). apply (cf_pruning _ _ Hcf).
Qed.

Lemma init_grows d : init_gd ⊆ <[(vb, false) := d]> init_gd.
Proof.
  apply insert_subseteq. unfold init_gd. destruct (gh_virtual Hgh) as [_ Hgb'].
  rewrite !lookup_insert_ne by congruence. rewrite lookup_insert_ne, lookup_empty by (intros [= ?]; done). done.
Qed.

Lemma init_ok : exists s t, consensus_Init vd gm rt now fuel (hdr g) false empty_headers = (Ok tt, s) /\ headers_ok [g] s t.
Proof.
  destruct init_run as (rel & dv & st & cs & Hrun & Hro & Hdom & Hpar & Hr & Hch). eexists _, _. split; [exact Hrun|].
  destruct (gh_virtual Hgh) as [Hgv Hgb']. pose proof (init_grows dv) as Hsub.
  pose proof (lookup_weaken _ _ _ _ init_gd_genesis Hsub) as Hdg. pose proof (lookup_weaken _ _ _ _ init_gd_virtual Hsub) as Hdv.
  constructor; cbn [init_state hs_headers hs_status hs_blocks hs_relations hs_ghostdag hs_reach hs_tips hs_pruningPoint]; try done.
  - constructor; [apply NoDup_singleton|left|by intros ?%list_elem_of_singleton|by intros ?%list_elem_of_singleton|apply Hgh|].
    intros b q ->%list_elem_of_singleton Hq. unfold HeaderInv.par in Hq. rewrite (gh_parents Hgh) in Hq. by apply not_elem_of_nil in Hq.
  - intros b h. rewrite list_elem_of_singleton, lookup_insert_Some, lookup_empty. naive_solver.
  - intros b ->%list_elem_of_singleton. apply Hgh.
  - intros b ->%list_elem_of_singleton. rewrite lookup_insert_eq. eauto.
  - intros b Hb Hbv Hbb. rewrite list_elem_of_singleton in Hb. left. by rewrite !lookup_insert_ne, lookup_empty by congruence.
  - set_solver.
  - intros b ->%list_elem_of_singleton. eexists _, _, _. apply ok_genesis; [done|apply Hgh|]. constructor; try done. by right.
  - intros b Hb. unfold init_gd in Hb. rewrite list_elem_of_singleton. destruct (decide (b = vb)); [by right; left|].
    destruct (decide (b = g)); [by right; right|left].
    rewrite !lookup_insert_ne in Hb by congruence. destruct (decide (b = v)) as [|Hbv]; [done|].
    rewrite lookup_insert_ne, lookup_empty in Hb by congruence. by destruct Hb.
  - exists [g; v], []. split_and!; [apply perm_swap|by apply (run_ok_mono gm rt hdr init_gd)|]. intros x Hx. by apply not_elem_of_nil in Hx.
  - exists g, [g]. split_and!; [done|left| |constructor|done]. intros x ->%list_elem_of_singleton. by left.
  - intros b q r ->%list_elem_of_singleton Hq. unfold HeaderInv.par in Hq. rewrite (gh_parents Hgh) in Hq. by apply not_elem_of_nil in Hq.
  - intros b d ->%list_elem_of_singleton. rewrite Hdg. intros [= <-]. split; apply Hgh.
Qed.

End init.

(** * What the node answers *)

Section answers.
Context `{C : Crypto}.
Variable gm : ghostdagManager.
Variable rt : reachabilityManager.
Variable hdr : bytes -> BlockHeader.
Abbreviation g := (gm_genesisHash gm).
Abbreviation v := VirtualGenesisBlockHash.
Abbreviation par := (par hdr).
Abbreviation par_v := (par_v gm hdr).
Abbreviation headers_ok := (headers_ok gm rt hdr).

(** The stores hold the DAG of the blocks in [acc]. *)
Record answers (acc : list bytes) (s : headers_state) : Prop := {
  an_headers : forall b h, hs_headers s !! b = Some h <-> b ∈ acc /\ h = hdr b;
  an_closed : forall b q, b ∈ acc -> q ∈ par b -> q ∈ acc;
  an_unrelated : forall b q r, b ∈ acc -> q ∈ par b -> r ∈ par b -> anc par q r -> q = r;
  an_genesis : forall b, b ∈ acc -> anc par g b;
  an_parents : forall b, b ∈ acc -> b <> g -> dtm_Parents (hs_relations s) b = Ok (par b);
  an_children : forall b, b ∈ acc -> exists cs, dtm_Children (hs_relations s) b = Ok cs /\ NoDup cs /\
    forall c, c <> VirtualBlockHash -> c ∈ cs <-> c ∈ acc /\ b ∈ par c;
  an_ancestors : forall a b, a ∈ acc -> b ∈ acc -> exists r, dtm_IsAncestorOf (hs_reach s) a b = Ok r /\ (r = true <-> anc par a b);
  an_merges : forall b, b ∈ acc -> b <> g -> exists d p rest, hs_ghostdag s !! (b, false) = Some d /\ merges gm par (hs_ghostdag s) b d p rest;
  an_fields : forall b, b ∈ acc -> exists d, hs_ghostdag s !! (b, false) = Some d /\
    hdr_BlueScore (hdr b) = BlueScore d /\ hdr_BlueWork (hdr b) = BlueWork d;
  an_tip : exists tip chain, ts_tip (hs_tips s) = Some tip /\ tip ∈ acc /\
    (forall x, x ∈ acc -> x = tip \/ lt_block (hs_ghostdag s) x tip) /\
    selected_chain g (hs_ghostdag s) chain tip /\
    forall i h, GetHashByIndex (ts_chain (hs_tips s)) i = Ok h <-> 0 <= i /\ chain !! Z.to_nat i = Some h
}.

Lemma listed_child acc s t b c : headers_ok acc s t -> b ∈ acc -> c ∈ acc -> b ∈ par_v c <-> b ∈ par c.
Proof.
  intros Hok Hb Hc. pose proof (hk_blocks _ _ _ _ _ _ Hok) as Hk. destruct (decide (c = g)) as [->|Hg]; [|by rewrite (par_v_block gm hdr acc c Hk Hc Hg)].
  rewrite (par_v_genesis gm hdr acc Hk), (kb_par _ _ _ Hk), list_elem_of_singleton. split; [intros ->|by intros ?%not_elem_of_nil].
  by destruct (kb_virtual _ _ _ Hk).
Qed.

Lemma children_stored acc s t b : headers_ok acc s t -> b ∈ acc -> exists cs, dtm_Children (hs_relations s) b = Ok cs /\ NoDup cs /\
  forall c, c <> VirtualBlockHash -> c ∈ cs <-> c ∈ acc /\ b ∈ par c.
Proof.
  intros Hok Hb. destruct (proj2 (hk_dom _ _ _ _ _ _ Hok b)) as [rb Hrb]; [by right; right|]. pose proof (hk_relations _ _ _ _ _ _ Hok) as Hro.
  exists (br_Children rb). split; [unfold dtm_Children, BlockRelation; by rewrite Hrb|]. split; [by apply (ro_once _ Hro b)|].
  intros c Hcb. rewrite (ro_children _ Hro b rb c Hrb). split.
  - intros (rc & Hrc & Hin). rewrite (hk_parents _ _ _ _ _ _ Hok c rc Hcb Hrc) in Hin.
    destruct (proj1 (hk_dom _ _ _ _ _ _ Hok c)) as [->|[->|Hc]]; [by rewrite Hrc| |done|].
    + rewrite par_v_virtual in Hin. by apply not_elem_of_nil in Hin.
    + split; [done|]. by apply (listed_child acc s t).
  - intros [Hc Hin]. destruct (proj2 (hk_dom _ _ _ _ _ _ Hok c)) as [rc Hrc]; [by right; right|]. exists rc. split; [done|].
    rewrite (hk_parents _ _ _ _ _ _ Hok c rc Hcb Hrc). by apply (listed_child acc s t).
Qed.

Lemma chain_answers cs l : chain_holds cs l -> forall i h, GetHashByIndex cs i = Ok h <-> 0 <= i /\ l !! Z.to_nat i = Some h.
Proof.
  intros [_ Hix _ _ Hcl] i h. unfold GetHashByIndex. rewrite Hcl. cbn [addedByIndex removedByIndex emptyShard].
  rewrite lookup_empty, bool_decide_false by set_solver. rewrite <- Hix. destruct (hashByIndex cs !! i); naive_solver.
Qed.

Lemma ok_answers acc s t : headers_ok acc s t -> answers acc s.
Proof.
  intros Hok. pose proof (hk_blocks _ _ _ _ _ _ Hok) as Hk. constructor.
  - apply Hok.
  - apply (kb_closed _ _ _ Hk).
  - apply Hok.
  - intros b. by apply (genesis_below gm rt hdr acc s t).
  - intros b Hb Hg. by rewrite (parents_stored gm rt hdr acc s t b Hok Hb), (par_v_block gm hdr acc b Hk Hb Hg).
  - intros b. by apply (children_stored acc s t).
  - intros a b. by apply (headers_query gm rt hdr acc s t).
  - intros b Hb Hg. destruct (hk_data _ _ _ _ _ _ Hok b Hb) as (d & bs & n & Hd).
    destruct (data_ok_block gm par _ b d bs n Hd Hg) as (p & rest & dp & Hbd & _ & Hm & _). by exists d, p, rest.
  - intros b Hb. destruct (hk_data _ _ _ _ _ _ Hok b Hb) as (d & bs & n & Hd%data_ok_lookup). exists d. split; [done|].
    by apply (hk_fields _ _ _ _ _ _ Hok).
  - destruct (hk_tip _ _ _ _ _ _ Hok) as (tip & l & H1 & H2 & H3 & H4 & H5). exists tip, l. split_and!; try done. by apply chain_answers.
Qed.

End answers.


(** * Orphans *)

Lemma missing_exact (s : headers_state) ps : (forall q, q ∈ ps -> hs_status s !! q <> Some StatusInvalid) ->
  forall m, missing_parents s ps m = Ok (m ++ filter (fun q => hs_headers s !! q = None) ps).
Proof.
  induction ps as [|p ps IH]; intros Hst m; cbn [missing_parents]; [by rewrite filter_nil, app_nil_r|].
  assert (Hps : forall q, q ∈ ps -> hs_status s !! q <> Some StatusInvalid) by (intros q Hq; apply Hst; by right).
  destruct (hs_headers s !! p) eqn:E.
  - rewrite filter_cons_False by congruence. by apply IH.
  - rewrite bool_decide_false by (apply Hst; left). rewrite filter_cons_True, IH by done. by rewrite <- app_assoc.
Qed.

Lemma virtual_absent header : VirtualGenesisBlockHash ∉ DirectParents header -> checkParentNotVirtualGenesis header = Ok tt.
Proof.
  intros Hv. unfold checkParentNotVirtualGenesis. destruct (existsb _ _) eqn:E; [|done]. destruct Hv.
  apply existsb_exists in E as (q & Hq%list_elem_of_In & E). unfold bytes_eqb in E. by apply bool_decide_eq_true in E as ->.
Qed.

Lemma filter_staged (hs : gmap bytes BlockHeader) h header (ps : list bytes) : h ∉ ps ->
  filter (fun q => <[h := header]> hs !! q = None) ps = filter (fun q => hs !! q = None) ps.
Proof.
  induction ps as [|p ps IH]; [done|]. intros [Hp Hps]%not_elem_of_cons. specialize (IH Hps).
  destruct (decide (hs !! p = None)) as [E|E].
  - rewrite !filter_cons_True; [by rewrite IH|done|by rewrite lookup_insert_ne].
  - rewrite !filter_cons_False; [done|done|by rewrite lookup_insert_ne].
Qed.

(** C39: A header that passes the checks in isolation, whose parents are not known
    to be invalid but are not all known, is an orphan: it is turned away with
    exactly the parents that are missing, in the order it names them, and leaves
    the stores as they were, so that it can be submitted again. *)
Theorem orphan_rejected `{C : Crypto} `{FC : FloatConversion} `{HC : HeaderComponents} `{BC : BodyComponents} (vd : headerValidator) (gm : ghostdagManager)
    (rt : reachabilityManager) (now : Z) (fuel : nat) (header : BlockHeader) (s : headers_state) :
  let missing := filter (fun q => hs_headers s !! q = None) (DirectParents header) in
  HeaderHash header <> gm_genesisHash gm -> hs_status s !! HeaderHash header = None ->
  ValidateHeaderInIsolation (hv_isolation vd) now (fun _ => Ok header) (HeaderHash header) = Ok tt ->
  VirtualGenesisBlockHash ∉ DirectParents header -> HeaderHash header ∉ DirectParents header ->
  (forall q, q ∈ DirectParents header -> hs_status s !! q <> Some StatusInvalid) -> missing <> [] ->
  ValidateAndInsertBlock vd gm rt now fuel header true true s = (Err (Rejected (ErrMissingParents missing)), s).
Proof.
  intros missing Hg Hst Hiso Hv Hself Hinv Hne.
  assert (Hval : exists s', validateBlock vd gm rt now fuel header true false s = (Err (Rejected (ErrMissingParents missing)), s')).
  { unfold validateBlock. cbv zeta. erewrite bind_ok by reflexivity. cbv beta. unfold bytes_eqb. rewrite bool_decide_false by done.
    erewrite bind_ok by reflexivity. cbv beta. unfold checkBlockStatus, hasValidatedHeader. rewrite Hst. erewrite bind_ok by reflexivity. cbv beta.
    cbn [negb]. erewrite bind_ok by reflexivity. cbv beta. erewrite bind_ok.
    2:{ unfold validatePreProofOfWork. erewrite bind_ok by reflexivity. cbv beta. unfold hasValidatedHeader. cbn [hs_status]. rewrite Hst.
        unfold lift, isolation, header_at. cbn [hs_headers]. rewrite lookup_insert_eq. cbn [bind_res]. unfold ValidateHeaderInIsolation in *.
        rewrite lookup_insert_eq. cbn [bind_res] in *. rewrite Hiso. reflexivity. }
    cbv beta. eexists. apply bind_err. unfold ValidatePruningPointViolationAndProofOfWorkAndDifficulty. erewrite bind_ok by reflexivity. cbv beta.
    erewrite bind_ok by (unfold lift, header_at; cbn [hs_headers]; rewrite lookup_insert_eq; reflexivity). cbv beta.
    erewrite bind_ok by (unfold lift; rewrite virtual_absent by done; reflexivity). cbv beta.
    apply bind_err. unfold lift, checkParentHeadersExist. rewrite missing_exact by done. cbn [bind_res app hs_headers].
    rewrite filter_staged by done. fold missing. destruct missing as [|m ms]; [done|].
    assert (E : (zlen (m :: ms) >? 0) = true) by (rewrite zlen_cons; pose proof (zlen_nonneg ms); by apply Z.gtb_lt; lia). by rewrite E. }
  destruct Hval as [s' Hval]. unfold ValidateAndInsertBlock, commit_block, validateAndInsertBlock. cbv zeta. by erewrite bind_err by exact Hval.
Qed.

(** * Witnesses *)

(** A genesis, two blocks on top of it and one that merges them; a block that
    names related parents, one with a wrong blue score and an orphan.  A hash
    is a checksum of eight bytes. *)
#[local] Instance run_crypto : Crypto := {|
  blake2b_Sum256 m := m;
  blake2b_New256 _ m := [foldl (fun acc byte => (acc * 257 + byte + 1) mod 2 ^ 64) 1 m];
  schnorr := test_scheme 32;
  ecdsa := test_scheme 33
|}.

#[local] Instance run_float : FloatConversion := {| conversion_out_of_range := fun _ => 2 ^ 63 |}.

#[local] Instance run_components : HeaderComponents := {|
  CalculateProofOfWorkValue _ := 0;
  RequiredDifficulty _ _ _ := 0x207fffff;
  PastMedianTime _ _ := 0;
  BuildParents _ _ direct := [direct];
  IsMergeDepthBounded _ _ _ := true;
  ExpectedDAAScore _ _ := 0;
  ExpectedHeaderPruningPoint _ _ := []
|}.

Definition run_header (parents : list bytes) (nonce blueScore blueWork : Z) : BlockHeader :=
  mk_BlockHeader 1 (match parents with [] => [] | _ => [parents] end) [] [] [] 1 0x207fffff nonce 0 blueScore blueWork [].

Definition h0 : BlockHeader := run_header [] 0 0 0.
Definition h1 : BlockHeader := Eval vm_compute in run_header [HeaderHash h0] 1 1 2.
Definition h2 : BlockHeader := Eval vm_compute in run_header [HeaderHash h0] 2 1 2.
Definition h3 : BlockHeader := Eval vm_compute in run_header [HeaderHash h1; HeaderHash h2] 3 3 6.
Definition related : BlockHeader := Eval vm_compute in run_header [HeaderHash h0; HeaderHash h1] 4 2 4.
Definition misscored : BlockHeader := Eval vm_compute in run_header [HeaderHash h1] 5 7 4.
Definition orphan : BlockHeader := Eval vm_compute in run_header [HeaderHash h2; replicate 32 7] 6 3 6.

Definition run_names : list (bytes * BlockHeader) := Eval vm_compute in
  map (fun h => (HeaderHash h, h)) [h0; h1; h2; h3; related; misscored; orphan].

Definition run_hdr (b : bytes) : BlockHeader :=
  match find (fun e => bytes_eqb (fst e) b) run_names with Some e => snd e | None => h0 end.

Definition run_manager : ghostdagManager := Eval vm_compute in mk_ghostdagManager 18 (HeaderHash h0).

(** The consensus state manager puts the virtual block on top of the block. *)
#[local] Instance run_bodies : BodyComponents := {|
  BodyInIsolation _ _ := Ok tt;
  BodyInContext _ _ _ := Ok tt;
  csm_AddBlock b _ := fun s =>
    match SetParents VirtualBlockHash [b] (hs_relations s) with
    | (Ok _, rel) => (Ok tt, mk_headers_state (hs_headers s) (<[b := StatusUTXOValid]> (hs_status s)) (hs_blocks s) rel
        (<[(VirtualBlockHash, false) := virtual_genesis_data]> (hs_ghostdag s)) (hs_reach s) (hs_tips s) (hs_pruningPoint s))
    | (_, _) => (Err HeaderNotFound, s)
    end;
  ReverseUTXODiffs _ := ret tt;
  UpdatePruningPointByVirtual := modify (fun s => mk_headers_state (hs_headers s) (hs_status s) (hs_blocks s) (hs_relations s)
    (hs_ghostdag s) (hs_reach s) (hs_tips s) (Some (gm_genesisHash run_manager)));
  UpdatePruningPointIfRequired := ret tt
|}.

Definition run_validator : headerValidator :=
  mk_headerValidator _ (mk_blockValidator (gm_genesisHash run_manager) 500000 10 132 1000000000
    (TxValidator.New 100 false 204 18 150 (NewCalculator 1 10 1000)) test_manager) (2 ^ 255 - 1) true 180.

Definition submitted : list bytes := Eval vm_compute in
  map HeaderHash [h1; h3; h2; related; misscored; orphan; h3; h1; h0; misscored].

Definition header_okb (b : bytes) : bool :=
  bytes_eqb (HeaderHash (run_hdr b)) b && negb (bytes_eqb b VirtualGenesisBlockHash) && negb (bytes_eqb b VirtualBlockHash) &&
  bool_decide (NoDup (par run_hdr b)) && bool_decide (b ∉ par run_hdr b).

Lemma header_okb_ok b : header_okb b = true -> header_ok run_hdr b.
Proof.
  unfold header_okb, bytes_eqb. rewrite !andb_true_iff, !negb_true_iff, !bool_decide_eq_true, !bool_decide_eq_false.
  intros [[[[H1 H2] H3] H4] H5]. by constructor.
Qed.

Lemma submitted_ok b : b ∈ submitted -> header_ok run_hdr b.
Proof. intros Hb%list_elem_of_In. apply header_okb_ok. revert b Hb. apply forallb_forall. vm_compute. reflexivity. Qed.

Lemma run_config : config_ok run_validator run_manager.
Proof. constructor; by vm_compute. Qed.

Lemma run_genesis_header : genesis_header run_validator run_manager 100 run_hdr.
Proof. constructor; try (intros s); by vm_compute. Qed.

Lemma run_genesis_body : genesis_body run_manager.
Proof.
  constructor; try done. exists virtual_genesis_data. intros s rel Hset. cbn [csm_AddBlock run_bodies]. by rewrite Hset.
Qed.

Lemma run_enough : roomy_for Reachability.New 20 (3 + zlen submitted).
Proof. constructor; [split|..]; vm_compute; congruence. Qed.

(** What became of the headers: 0 for accepted, 1 for rejected, 2 for invalid. *)
Definition verdict (r : res HeaderError unit) : Z :=
  match r with Ok _ => 0 | Err (Rejected _) => 1 | Err (RejectedInContext _) => 2 | _ => 3 end.

Definition summary (run : list (res HeaderError unit) * headers_state) : list Z * option bytes :=
  (map verdict (fst run), ts_tip (hs_tips (snd run))).

Definition run_start : headers_state :=
  snd (consensus_Init run_validator run_manager Reachability.New 100 20 h0 false empty_headers).


Lemma orphan_rejected_witness :
  DirectParents orphan <> [] /\
  ValidateAndInsertBlock run_validator run_manager Reachability.New 100 20 orphan true true empty_headers =
    (Err (Rejected (ErrMissingParents (filter (fun q => hs_headers empty_headers !! q = None) (DirectParents orphan)))), empty_headers).
Proof.
  split; [done|]. apply (orphan_rejected run_validator run_manager Reachability.New 100 20 orphan empty_headers).
  - apply (bool_decide_unpack _). vm_compute. exact I.
  - reflexivity.
  - vm_compute. reflexivity.
  - apply (bool_decide_unpack _). vm_compute. exact I.
  - apply (bool_decide_unpack _). vm_compute. exact I.
  - intros q _. done.
  - apply (bool_decide_unpack _). vm_compute. exact I.
Defined.
