(* ===== verification/BlockHeap.v ===== *)
(** Heaps of blocks.
    [src/domain/consensus/processes/dagtraversalmanager/block_heap.go].

    The heaps are those of Go's [container/heap], whose sift-up and sift-down
    are here too.  A heap is the slice it is kept in; [less] is the order of the
    heap.  Out of range accesses of the source are panics. *)

From Stdlib Require Import Sorted.
From stdpp Require Import sorting.
From S2P Require Import Prelude Block Ghostdag GhostdagMergeSet.

(** * container/heap *)

Section heap.
Context {A : Type} `{Inhabited A}.
Variable less : A -> A -> bool.

Definition swap (l : list A) (i j : nat) : list A := <[i := l !!! j]> (<[j := l !!! i]> l).

Fixpoint up (fuel : nat) (l : list A) (j : nat) : list A :=
  match fuel with
  | O => l
  | S fuel =>
      let i := ((j - 1) / 2)%nat in
      if bool_decide (i = j) || negb (less (l !!! j) (l !!! i)) then l else up fuel (swap l i j) i
  end.

Fixpoint down (fuel : nat) (l : list A) (i n : nat) : list A :=
  match fuel with
  | O => l
  | S fuel =>
      let j1 := (2 * i + 1)%nat in
      if bool_decide (n <= j1)%nat then l else
      let j2 := (j1 + 1)%nat in
      let j := if bool_decide (j2 < n)%nat && less (l !!! j2) (l !!! j1) then j2 else j1 in
      if negb (less (l !!! j) (l !!! i)) then l else down fuel (swap l i j) j n
  end.

(** Each step of [up] and [down] moves towards an end of the slice. *)
Definition heap_Push (l : list A) (x : A) : list A := up (S (length l)) (l ++ [x]) (length l).

Definition heap_Pop (l : list A) : option (A * list A) :=
  match l with
  | [] => None
  | _ =>
      let n := (length l - 1)%nat in
      let l := down (S n) (swap l 0 n) 0 n in
      Some (l !!! n, take n l)
  end.

(** * Their meaning *)

Variable le : A -> A -> Prop.
Context (le_trans : forall x y z, le x y -> le y z -> le x z) (le_refl : forall x, le x x).
Context (less_true : forall x y, less x y = true -> le x y) (less_false : forall x y, less x y = false -> le y x).

(** The first [n] elements are in heap order. *)
Definition heap (n : nat) (l : list A) : Prop := forall i, (0 < i < n)%nat -> le (l !!! ((i - 1) / 2)%nat) (l !!! i).

Lemma half i : (0 < i)%nat -> (2 * ((i - 1) / 2) + 1 = i \/ 2 * ((i - 1) / 2) + 2 = i)%nat.
Proof. intros Hi. pose proof (Nat.div_mod_eq (i - 1) 2). pose proof (Nat.mod_upper_bound (i - 1) 2). lia. Qed.

Lemma half_unique i p : (2 * p + 1 = i \/ 2 * p + 2 = i)%nat -> ((i - 1) / 2 = p)%nat.
Proof. intros E. destruct (half i ltac:(lia)); lia. Qed.

Lemma swap_length l i j : length (swap l i j) = length l.
Proof. unfold swap. by rewrite !length_insert. Qed.

Lemma swap_lookup (l : list A) i j k : (i < length l)%nat -> (j < length l)%nat ->
  swap l i j !!! k = if decide (k = i) then l !!! j else if decide (k = j) then l !!! i else l !!! k.
Proof.
  intros Hi Hj. unfold swap. destruct (decide (k = i)) as [->|Hki]; [by rewrite list_lookup_total_insert_eq by (by rewrite length_insert)|].
  rewrite list_lookup_total_insert_ne by done. destruct (decide (k = j)) as [->|Hkj]; [by rewrite list_lookup_total_insert_eq|].
  by rewrite list_lookup_total_insert_ne.
Qed.

Lemma swap_perm (l : list A) i j : (i < length l)%nat -> (j < length l)%nat -> swap l i j ≡ₚ l.
Proof.
  intros Hi Hj. apply Permutation_inj. split; [apply swap_length|].
  exists (fun k => if decide (k = i) then j else if decide (k = j) then i else k). split.
  - intros x y. repeat case_decide; congruence.
  - intros k. destruct (decide (k < length l)%nat) as [Hk|Hk].
    + assert (Hk' : ((if decide (k = i) then j else if decide (k = j) then i else k) < length l)%nat) by (repeat case_decide; lia).
      rewrite !list_lookup_lookup_total_lt by (by rewrite ?swap_length). f_equal. rewrite swap_lookup by done. by repeat case_decide.
    + rewrite !lookup_ge_None_2; [done| |]; repeat case_decide; rewrite ?swap_length; lia.
Qed.

(** Heap order but for the edge above [j]. *)
Definition up_inv (l : list A) (j : nat) : Prop :=
  (forall i, (0 < i < length l)%nat -> i <> j -> le (l !!! ((i - 1) / 2)%nat) (l !!! i)) /\
  (forall c, (0 < j)%nat -> (c < length l)%nat -> ((c - 1) / 2 = j)%nat -> (0 < c)%nat -> le (l !!! ((j - 1) / 2)%nat) (l !!! c)).

Lemma up_spec fuel : forall l j, (j < fuel)%nat -> (j < length l)%nat -> up_inv l j ->
  up fuel l j ≡ₚ l /\ heap (length l) (up fuel l j).
Proof.
  induction fuel as [|fuel IH]; intros l j Hf Hj [H1 H2]; [lia|]. cbn [up]. set (p := ((j - 1) / 2)%nat).
  destruct (bool_decide (p = j)) eqn:E; cbn [orb].
  { split; [done|]. apply bool_decide_eq_true in E. intros i Hi. apply H1; [done|]. intros ->.
    destruct (half j ltac:(lia)); unfold p in E; lia. }
  apply bool_decide_eq_false in E. assert (Hj0 : (0 < j)%nat) by (destruct j; [by destruct E|lia]).
  assert (Hp : (2 * p + 1 = j \/ 2 * p + 2 = j)%nat) by (by apply half).
  destruct (less (l !!! j) (l !!! p)) eqn:El; cbn [negb].
  - assert (Hle : le (l !!! j) (l !!! p)) by (by apply less_true).
    destruct (IH (swap l p j) p) as [IH1 IH2]; [lia|rewrite swap_length; lia| |].
    + split; rewrite swap_length.
      * intros i Hi Hip. set (q := ((i - 1) / 2)%nat). assert (Hq : (2 * q + 1 = i \/ 2 * q + 2 = i)%nat) by (apply half; lia).
        rewrite !swap_lookup by lia. destruct (decide (i = p)); [lia|]. destruct (decide (i = j)) as [->|Hij].
        { destruct (decide (q = p)); [done|lia]. }
        destruct (decide (q = p)) as [Eq|]; [apply (le_trans _ (l !!! p)); [done|]; rewrite <- Eq; by apply H1|].
        destruct (decide (q = j)) as [Eq|]; [|by apply H1]. apply H2; lia.
      * intros c Hp0 Hc Ec Hc0. set (q := ((p - 1) / 2)%nat). assert (Hq : (2 * q + 1 = p \/ 2 * q + 2 = p)%nat) by (apply half; lia).
        assert (Hpar : le (l !!! q) (l !!! p)) by (apply H1; lia).
        rewrite !swap_lookup by lia. destruct (decide (q = p)); [lia|]. destruct (decide (q = j)); [lia|].
        destruct (half c Hc0); destruct (decide (c = p)); [lia| |lia|];
          (destruct (decide (c = j)) as [->|Hcj]; [done|apply (le_trans _ (l !!! p)); [done|]; rewrite <- Ec; apply H1; lia]).
    + rewrite swap_length in IH2. split; [|done]. by rewrite IH1, swap_perm by lia.
  - split; [done|]. intros i Hi. destruct (decide (i = j)) as [->|Hij]; [by apply less_false|by apply H1].
Qed.

(** Heap order but for the edges below [i]. *)
Definition down_inv (l : list A) (i n : nat) : Prop :=
  (forall c, (0 < c < n)%nat -> ((c - 1) / 2)%nat <> i -> le (l !!! ((c - 1) / 2)%nat) (l !!! c)) /\
  (forall c, (0 < i)%nat -> (0 < c < n)%nat -> ((c - 1) / 2 = i)%nat -> le (l !!! ((i - 1) / 2)%nat) (l !!! c)).

(** The smaller child. *)
Lemma child_spec (l : list A) i n : (2 * i + 1 < n)%nat ->
  let j1 := (2 * i + 1)%nat in let j2 := (j1 + 1)%nat in
  let j := if bool_decide (j2 < n)%nat && less (l !!! j2) (l !!! j1) then j2 else j1 in
  (j = j1 \/ j = j2) /\ (j < n)%nat /\ forall c, (0 < c < n)%nat -> ((c - 1) / 2 = i)%nat -> le (l !!! j) (l !!! c).
Proof.
  intros Hn j1 j2 j. assert (Hc : forall c, (0 < c < n)%nat -> ((c - 1) / 2 = i)%nat -> c = j1 \/ c = j2).
  { intros c Hc E. destruct (half c ltac:(lia)); lia. }
  unfold j. destruct (bool_decide (j2 < n)%nat) eqn:E2; cbn [andb].
  - apply bool_decide_eq_true in E2. destruct (less (l !!! j2) (l !!! j1)) eqn:El.
    + split_and!; [by right|done|]. intros c Hc1 Hc2. destruct (Hc c Hc1 Hc2) as [->| ->]; [by apply less_true|apply le_refl].
    + split_and!; [by left|lia|]. intros c Hc1 Hc2. destruct (Hc c Hc1 Hc2) as [->| ->]; [apply le_refl|by apply less_false].
  - apply bool_decide_eq_false in E2. split_and!; [by left|lia|]. intros c Hc1 Hc2. destruct (Hc c Hc1 Hc2) as [->| ->]; [apply le_refl|lia].
Qed.

Lemma down_spec fuel : forall l i n, (n <= i + fuel)%nat -> (n <= length l)%nat -> down_inv l i n ->
  down fuel l i n ≡ₚ l /\ heap n (down fuel l i n) /\ forall k, (n <= k)%nat -> down fuel l i n !!! k = l !!! k.
Proof.
  induction fuel as [|fuel IH]; intros l i n Hf Hn [H1 H2]; cbn [down].
  { split_and!; [done| |done]. intros c Hc. apply H1; [done|]. intros E. destruct (half c ltac:(lia)); lia. }
  destruct (bool_decide (n <= 2 * i + 1)%nat) eqn:E.
  { apply bool_decide_eq_true in E. split_and!; [done| |done]. intros c Hc. apply H1; [done|]. intros Ec. destruct (half c ltac:(lia)); lia. }
  apply bool_decide_eq_false in E. destruct (child_spec l i n ltac:(lia)) as (Hj & Hjn & Hmin). cbv zeta in Hj, Hjn, Hmin.
  set (j := if _ && _ then _ else _) in *. assert (Hij : ((j - 1) / 2 = i)%nat) by (apply half_unique; lia).
  destruct (less (l !!! j) (l !!! i)) eqn:El; cbn [negb].
  - assert (Hle : le (l !!! j) (l !!! i)) by (by apply less_true).
    destruct (IH (swap l i j) j n) as (I1 & I2 & I3); [lia|rewrite swap_length; lia| |].
    + split.
      * intros c Hc Hcj. set (q := ((c - 1) / 2)%nat) in *. assert (Hq : (2 * q + 1 = c \/ 2 * q + 2 = c)%nat) by (apply half; lia).
        rewrite !swap_lookup by lia. destruct (decide (q = i)) as [Eq|Hqi].
        { destruct (decide (c = i)); [lia|]. destruct (decide (c = j)); [done|]. by apply Hmin. }
        destruct (decide (q = j)); [done|]. destruct (decide (c = i)) as [->|Hci]; [apply H2; lia|].
        destruct (decide (c = j)); [lia|]. by apply H1.
      * intros c Hj0 Hc Ec. rewrite Hij. assert (Hq : (2 * j + 1 = c \/ 2 * j + 2 = c)%nat) by (rewrite <- Ec; apply half; lia).
        rewrite !swap_lookup by lia. destruct (decide (i = i)); [|done]. destruct (decide (c = i)); [lia|]. destruct (decide (c = j)); [lia|].
        rewrite <- Ec. apply H1; lia.
    + split_and!; [by rewrite I1, swap_perm by lia|done|]. intros k Hk. rewrite I3, swap_lookup by lia.
      destruct (decide (k = i)); [lia|]. by destruct (decide (k = j)); [lia|].
  - split_and!; [done| |done]. intros c Hc. destruct (decide ((c - 1) / 2 = i)%nat) as [Ec|Ec]; [|by apply H1].
    rewrite Ec. apply (le_trans _ (l !!! j)); [by apply less_false|by apply Hmin].
Qed.

Lemma heap_min n (l : list A) k : heap n l -> (k < n)%nat -> le (l !!! 0%nat) (l !!! k).
Proof.
  intros Hh. induction k as [k IH] using lt_wf_ind. intros Hk. destruct (decide (k = 0)%nat) as [->|Hk0]; [apply le_refl|].
  destruct (half k ltac:(lia)) as [E|E]; (apply (le_trans _ (l !!! ((k - 1) / 2)%nat)); [apply IH; lia|apply Hh; lia]).
Qed.

Lemma heap_Push_spec (l : list A) x : heap (length l) l -> heap_Push l x ≡ₚ x :: l /\ heap (length (heap_Push l x)) (heap_Push l x).
Proof.
  intros Hh. destruct (up_spec (S (length l)) (l ++ [x]) (length l)) as [H1 H2]; [lia|rewrite length_app; cbn; lia| |].
  - split; rewrite length_app; cbn [length].
    + intros i Hi Hne. destruct (half i ltac:(lia)); rewrite !lookup_total_app_l by lia; apply Hh; lia.
    + intros c Hp Hc Ec Hc0. destruct (half c Hc0); lia.
  - fold (heap_Push l x) in H1, H2. rewrite <- (Permutation_length H1) in H2. split; [|done]. by rewrite H1, <- Permutation_cons_append.
Qed.

Lemma heap_Pop_spec (l : list A) : heap (length l) l -> l <> [] ->
  exists x l', heap_Pop l = Some (x, l') /\ x = l !!! 0%nat /\ l ≡ₚ x :: l' /\ heap (length l') l' /\ forall y, y ∈ l' -> le x y.
Proof.
  intros Hh Hne. set (n := (length l - 1)%nat). assert (Hlen : length l = S n) by (unfold n; destruct l; [done|cbn; lia]).
  destruct (down_spec (S n) (swap l 0 n) 0 n) as (D1 & D2 & D3); [lia|rewrite swap_length; lia| |].
  { split; [|lia]. intros c Hc Hc0. destruct (half c ltac:(lia)); rewrite !swap_lookup by lia;
      (destruct (decide _); [done|]; destruct (decide _); [lia|]; destruct (decide _); [lia|]; destruct (decide _); [lia|]; apply Hh; lia). }
  set (l1 := down (S n) (swap l 0 n) 0 n) in *. assert (Hp : l1 ≡ₚ l) by (rewrite D1; apply swap_perm; lia).
  assert (Hl1 : length l1 = S n) by (by rewrite Hp).
  assert (Hx : l1 !!! n = l !!! 0%nat). { rewrite D3, swap_lookup by lia. destruct (decide (n = 0%nat)) as [E|E]; [by rewrite E|]. by rewrite decide_True. }
  assert (Hsplit : l1 = take n l1 ++ [l !!! 0%nat]).
  { rewrite <- Hx. rewrite <- (take_drop n l1) at 1. f_equal. rewrite (drop_S l1 (l1 !!! n)); [|by apply list_lookup_lookup_total_lt; lia].
    by rewrite drop_ge by lia. }
  exists (l !!! 0%nat), (take n l1). assert (Hperm : l ≡ₚ (l !!! 0%nat) :: take n l1) by (rewrite <- Hp at 1; rewrite Hsplit at 1; by rewrite <- Permutation_cons_append).
  split_and!; [|done|done| |].
  - unfold heap_Pop. destruct l as [|a l]; [done|]. fold n. fold l1. by rewrite Hx.
  - rewrite length_take, Nat.min_l by lia. intros i Hi. destruct (half i ltac:(lia)); rewrite !lookup_total_take, !decide_True by lia; by apply D2.
  - intros y Hy. assert (Hyl : y ∈ l) by (rewrite Hperm; by right). apply list_elem_of_lookup in Hyl as (k & Hk).
    pose proof (lookup_lt_Some _ _ _ Hk). rewrite <- (list_lookup_total_correct _ _ _ Hk). apply (heap_min (length l)); [done|lia].
Qed.

End heap.

(** * Heaps of blocks *)

Abbreviation BlockGHOSTDAGDataHashPair := (bytes * BlockGHOSTDAGData)%type.

#[export] Instance BlockGHOSTDAGData_inhabited : Inhabited BlockGHOSTDAGData := populate (mk_BlockGHOSTDAGData 0 0 None [] [] ∅).

Definition blockGHOSTDAGDataHashPairLess (left_ right_ : BlockGHOSTDAGDataHashPair) : bool :=
  Less (fst left_) (snd left_) (fst right_) (snd right_).

Definition upHeap_Less : BlockGHOSTDAGDataHashPair -> BlockGHOSTDAGDataHashPair -> bool := blockGHOSTDAGDataHashPairLess.

Definition downHeap_Less (heapNodeI heapNodeJ : BlockGHOSTDAGDataHashPair) : bool :=
  negb (blockGHOSTDAGDataHashPairLess heapNodeI heapNodeJ).

(** The heap made by [NewUpHeap], or by [NewDownHeap]. *)
Section blockHeap.
Variable less : BlockGHOSTDAGDataHashPair -> BlockGHOSTDAGDataHashPair -> bool.
Variable gd : ghostdag_store.

Abbreviation BH := (M GhostdagError (list BlockGHOSTDAGDataHashPair)).

Definition blockHeap_Pop : BH bytes :=
  let* slice := get in
  match heap_Pop less slice with
  | None => panic
  | Some (popped, slice) => put slice ;; ret (fst popped)
  end.

Definition blockHeap_Push (blockHash : bytes) : BH unit :=
  let* ghostdagData := lift (ghostdag_Get gd (Some blockHash) false) in
  modify (fun slice => heap_Push less slice (blockHash, ghostdagData)).

Fixpoint PushSlice (blockHashes : list bytes) : BH unit :=
  match blockHashes with
  | [] => ret tt
  | blockHash :: rest => blockHeap_Push blockHash ;; PushSlice rest
  end.

Fixpoint pop_all (length : nat) : BH (list bytes) :=
  match length with
  | O => ret []
  | S length => let* hash := blockHeap_Pop in let* hashes := pop_all length in ret (hash :: hashes)
  end.

Definition ToSlice : BH (list bytes) := let* slice := get in pop_all (length slice).

End blockHeap.

(** * A heap capped by a size *)

Record sizedUpBlockHeap : Set := mk_sizedUpBlockHeap {
  sbh_slice : list BlockGHOSTDAGDataHashPair;
  sbh_cap : Z
}.

(** Memory of a negative size panics. *)
Definition newSizedUpHeap (cap : Z) : res GhostdagError sizedUpBlockHeap :=
  if cap <? 0 then Panic else Ok (mk_sizedUpBlockHeap [] cap).

Abbreviation SH := (M GhostdagError sizedUpBlockHeap).

Definition sized_pop : SH bytes :=
  let* sbh := get in
  match heap_Pop upHeap_Less (sbh_slice sbh) with
  | None => panic
  | Some (popped, slice) => put (mk_sizedUpBlockHeap slice (sbh_cap sbh)) ;; ret (fst popped)
  end.

Definition sized_push (node : BlockGHOSTDAGDataHashPair) : SH unit :=
  modify (fun sbh => mk_sizedUpBlockHeap (heap_Push upHeap_Less (sbh_slice sbh) node) (sbh_cap sbh)).

Definition tryPushWithGHOSTDAGData (blockHash : bytes) (ghostdagData : BlockGHOSTDAGData) : SH bool :=
  let node := (blockHash, ghostdagData) in
  let* sbh := get in
  if zlen (sbh_slice sbh) =? sbh_cap sbh then
    let* min := lift (index_res (sbh_slice sbh) 0) in
    if blockGHOSTDAGDataHashPairLess node min then ret false
    else sized_pop ;; sized_push node ;; ret true
  else sized_push node ;; ret true.

Definition tryPush (gd : ghostdag_store) (blockHash : bytes) : SH bool :=
  let* ghostdagData := lift (ghostdag_Get gd (Some blockHash) false) in
  tryPushWithGHOSTDAGData blockHash ghostdagData.

(** * The order of the heaps *)

Definition pair_le (x y : BlockGHOSTDAGDataHashPair) : Prop := blockGHOSTDAGDataHashPairLess y x = false.

Lemma pair_le_refl x : pair_le x x.
Proof. apply Less_irrefl. Qed.

Lemma hash_Less_cotrans a b c : hash_Less a c = true -> hash_Less a b = true \/ hash_Less b c = true.
Proof.
  intros Hac. destruct (decide (b = a)) as [->|Hba]; [by right|]. destruct (hash_Less a b) eqn:Hab; [by left|right].
  rewrite hash_Less_total in Hab by done. apply negb_false_iff in Hab. by apply (hash_Less_trans _ a).
Qed.

Lemma pair_le_trans x y z : pair_le x y -> pair_le y z -> pair_le x z.
Proof.
  unfold pair_le, blockGHOSTDAGDataHashPairLess, Less. intros H1 H2.
  destruct (Z.compare_spec (BlueWork (snd z)) (BlueWork (snd x))), (Z.compare_spec (BlueWork (snd y)) (BlueWork (snd x))),
    (Z.compare_spec (BlueWork (snd z)) (BlueWork (snd y))); try done; try lia.
  destruct (hash_Less (fst z) (fst x)) eqn:E; [|done]. destruct (hash_Less_cotrans _ (fst y) _ E); congruence.
Qed.

Lemma pair_less x y : blockGHOSTDAGDataHashPairLess x y = true -> pair_le x y.
Proof.
  unfold pair_le, blockGHOSTDAGDataHashPairLess. intros Hl. destruct (Less (fst y) (snd y) (fst x) (snd x)) eqn:E; [|done].
  pose proof (Less_trans _ _ _ _ _ _ Hl E) as Hc. by rewrite Less_irrefl in Hc.
Qed.

(** The contents of a heap of blocks. *)
Definition right_data (gd : ghostdag_store) (x : BlockGHOSTDAGDataHashPair) : Prop := gd !! (fst x, false) = Some (snd x).

Lemma pair_lt gd x y : right_data gd x -> right_data gd y -> fst x <> fst y -> pair_le x y -> lt_block gd (fst x) (fst y).
Proof. intros Hx Hy Hne Hle. exists (snd x), (snd y). split_and!; [done|done|]. by apply Less_total. Qed.

Section sorts.
Variable less : BlockGHOSTDAGDataHashPair -> BlockGHOSTDAGDataHashPair -> bool.
Variable le : BlockGHOSTDAGDataHashPair -> BlockGHOSTDAGDataHashPair -> Prop.
Context (le_trans : forall x y z, le x y -> le y z -> le x z) (le_refl : forall x, le x x).
Context (less_true : forall x y, less x y = true -> le x y) (less_false : forall x y, less x y = false -> le y x).
Variable gd : ghostdag_store.

Lemma PushSlice_ok hashes : forall l, heap le (length l) l -> (forall h, h ∈ hashes -> has_data gd h) -> exists l' ps,
  PushSlice less gd hashes l = (Ok tt, l') /\ heap le (length l') l' /\ l' ≡ₚ ps ++ l /\ map fst ps = rev hashes /\ Forall (right_data gd) ps.
Proof.
  induction hashes as [|h hashes IH]; intros l Hh Hd; cbn [PushSlice].
  { exists l, []. split_and!; [done|done|done|done|constructor]. }
  destruct (Hd h ltac:(left)) as [d Hdh].
  destruct (heap_Push_spec less le le_trans less_true less_false l (h, d) Hh) as [Hp Hh'].
  destruct (IH (heap_Push less l (h, d)) Hh') as (l' & ps & Hrun & Hl' & Hperm & Hfst & Hr).
  { intros x Hx. apply Hd. by right. }
  exists l', (ps ++ [(h, d)]). split_and!; try done.
  - erewrite bind_ok; [exact Hrun|]. unfold blockHeap_Push, ghostdag_Get. rewrite Hdh. done.
  - rewrite Hperm, Hp, <- app_assoc. done.
  - rewrite map_app, Hfst. done.
  - apply Forall_app. split; [done|]. by repeat constructor.
Qed.

Lemma pop_all_ok n : forall l, length l = n -> heap le n l -> exists l', pop_all less n l = (Ok (map fst l'), []) /\ l' ≡ₚ l /\ StronglySorted le l'.
Proof.
  induction n as [|n IH]; intros l Hlen Hh; cbn [pop_all].
  { exists []. destruct l; [|done]. split_and!; [done|done|constructor]. }
  rewrite <- Hlen in Hh. destruct (heap_Pop_spec less le le_trans le_refl less_true less_false l Hh) as (x & l1 & Hpop & _ & Hp & Hh1 & Hmin); [by destruct l|].
  assert (Hl1 : length l1 = n) by (rewrite Hp in Hlen; cbn in Hlen; lia). rewrite Hl1 in Hh1.
  destruct (IH l1 Hl1 Hh1) as (l' & Hrun & Hp' & Hs). exists (x :: l'). split_and!.
  - erewrite bind_ok.
    2:{ unfold blockHeap_Pop. erewrite bind_ok by reflexivity. cbv beta. rewrite Hpop. reflexivity. }
    cbv beta. erewrite bind_ok by exact Hrun. done.
  - by rewrite Hp', Hp.
  - constructor; [done|]. apply Forall_forall. intros y Hy. apply Hmin. by rewrite <- Hp'.
Qed.

Lemma heap_sorts hashes : (forall h, h ∈ hashes -> has_data gd h) -> exists l,
  (PushSlice less gd hashes ;; ToSlice less) [] = (Ok (map fst l), []) /\ map fst l ≡ₚ hashes /\ StronglySorted le l /\ Forall (right_data gd) l.
Proof.
  intros Hd. destruct (PushSlice_ok hashes []) as (l1 & ps & Hrun & Hh & Hp & Hf & Hr); [intros i Hi; cbn in Hi; lia|done|].
  rewrite app_nil_r in Hp. destruct (pop_all_ok (length l1) l1 eq_refl Hh) as (l & Hpop & Hperm & Hs). exists l. split_and!; [|
    by rewrite Hperm, Hp, Hf, <- Permutation_rev|done|by rewrite Hperm, Hp].
  erewrite bind_ok by exact Hrun. cbv beta. unfold ToSlice. erewrite bind_ok by reflexivity. exact Hpop.
Qed.

End sorts.

#[export] Instance lt_block_antisymm gd : AntiSymm (=) (lt_block gd).
Proof. intros x y Hxy Hyx. destruct (lt_block_irrefl gd x). by apply (lt_block_trans gd x y). Qed.

Lemma sorted_hashes gd l : NoDup (map fst l) -> Forall (right_data gd) l -> StronglySorted pair_le l -> StronglySorted (lt_block gd) (map fst l).
Proof.
  induction l as [|x l IH]; cbn [map]; intros Hnd Hr Hs; [constructor|]. apply NoDup_cons in Hnd as [Hx Hnd].
  apply Forall_cons in Hr as [Hrx Hr]. apply StronglySorted_inv in Hs as [Hs Hmin]. constructor; [by apply IH|].
  apply Forall_forall. intros h (y & -> & Hy)%list_elem_of_fmap. rewrite Forall_forall in Hmin, Hr.
  apply pair_lt; [done|by apply Hr| |by apply Hmin]. intros E. apply Hx. rewrite E. by apply list_elem_of_fmap_2.
Qed.

Lemma StronglySorted_rev {A} (R : A -> A -> Prop) l : StronglySorted (flip R) l -> StronglySorted R (rev l).
Proof.
  induction 1 as [|x l Hs IH Hx]; cbn [rev]; [constructor|]. apply StronglySorted_app_2; [|done|by repeat constructor].
  intros y z Hy Hz. apply list_elem_of_singleton in Hz as ->. rewrite Forall_forall in Hx. apply Hx.
  by rewrite <- Permutation_rev in Hy.
Qed.

(** The block heaps sort: what is pushed on an up heap is popped from the
    lowest blue work, with ties broken by hash, to the highest, and on a down
    heap the other way round.  Nothing is lost or repeated. *)
Lemma block_heaps_sort gd hashes : (forall h, h ∈ hashes -> has_data gd h) -> NoDup hashes ->
  exists ascending, ascending ≡ₚ hashes /\ StronglySorted (lt_block gd) ascending /\
    (PushSlice upHeap_Less gd hashes ;; ToSlice upHeap_Less) [] = (Ok ascending, []) /\
    (PushSlice downHeap_Less gd hashes ;; ToSlice downHeap_Less) [] = (Ok (rev ascending), []).
Proof.
  intros Hd Hnd.
  destruct (heap_sorts upHeap_Less pair_le pair_le_trans pair_le_refl pair_less (fun x y H => H) gd hashes Hd) as (up & Hup & Hp1 & Hs1 & Hr1).
  destruct (heap_sorts downHeap_Less (flip pair_le)) with (gd := gd) (hashes := hashes) as (down & Hdown & Hp2 & Hs2 & Hr2); [
    |by intros x; apply pair_le_refl| | |done|].
  { intros x y z Hxy Hyz. by apply (pair_le_trans z y x). }
  { intros x y. unfold downHeap_Less, flip, pair_le. apply negb_true_iff. }
  { intros x y. unfold downHeap_Less. intros Hl%negb_false_iff. by apply pair_less. }
  assert (Hup' : StronglySorted (lt_block gd) (map fst up)) by (apply sorted_hashes; [by rewrite Hp1|done|done]).
  assert (Hdown' : StronglySorted (lt_block gd) (rev (map fst down))).
  { rewrite <- map_rev. apply sorted_hashes; [by rewrite map_rev, <- Permutation_rev, Hp2|by rewrite <- Permutation_rev|by apply StronglySorted_rev]. }
  exists (map fst up). split_and!; [done|done|done|]. rewrite Hdown. do 2 f_equal. rewrite <- (rev_involutive (map fst down)). f_equal.
  apply (StronglySorted_unique (lt_block gd)); [done|done|]. by rewrite <- Permutation_rev, Hp1, Hp2.
Qed.

(** * What a capped heap keeps *)

(** The heap [l] keeps the greatest of the blocks [P]. *)
Record keeps (gd : ghostdag_store) (cap : Z) (P : bytes -> Prop) (l : list BlockGHOSTDAGDataHashPair) : Prop := {
  kp_heap : heap pair_le (length l) l;
  kp_data : Forall (right_data gd) l;
  kp_nodup : NoDup (map fst l);
  kp_cap : zlen l <= cap;
  kp_in : forall h, h ∈ map fst l -> P h;
  kp_out : forall h, P h -> h ∈ map fst l \/ zlen l = cap /\ forall y, y ∈ map fst l -> lt_block gd h y
}.

Lemma keeps_nil gd cap (P : bytes -> Prop) : 0 <= cap -> (forall h, ~ P h) -> keeps gd cap P [].
Proof.
  intros Hc HP. constructor; [intros i Hi; cbn in Hi; lia|constructor|constructor|done| |].
  - intros h Hh. by apply not_elem_of_nil in Hh.
  - intros h Hh. by destruct (HP h).
Qed.

Lemma keeps_iff gd cap (P Q : bytes -> Prop) l : (forall h, P h <-> Q h) -> keeps gd cap P l -> keeps gd cap Q l.
Proof. intros HPQ [? ? ? ? Hin Hout]. constructor; try done; intros h Hh; [by apply HPQ, Hin|by apply Hout, HPQ]. Qed.

(** Blocks below everything in a full heap change nothing. *)
Lemma keeps_skip gd cap (P Q : bytes -> Prop) l : keeps gd cap P l -> zlen l = cap ->
  (forall h y, Q h -> y ∈ map fst l -> lt_block gd h y) -> keeps gd cap (fun h => P h \/ Q h) l.
Proof.
  intros [? ? ? ? Hin Hout] Hf HQ. constructor; try done; [intros h Hh; left; by apply Hin|].
  intros h [Hh|Hh]; [by apply Hout|]. right. split; [done|]. intros y. by apply HQ.
Qed.

Lemma keeps_push gd cap (P : bytes -> Prop) l x : keeps gd cap P l -> right_data gd x -> ~ P (fst x) -> zlen l < cap ->
  keeps gd cap (fun h => P h \/ h = fst x) (heap_Push upHeap_Less l x).
Proof.
  intros [Hh Hr Hnd Hc Hin Hout] Hx HP Hf.
  destruct (heap_Push_spec upHeap_Less pair_le pair_le_trans pair_less (fun x y H => H) l x Hh) as [Hp Hh'].
  constructor; [done|by rewrite Hp, Forall_cons| |rewrite Hp, zlen_cons; lia| |].
  - rewrite Hp. cbn. apply NoDup_cons. split; [|done]. intros Hi. by apply HP, Hin.
  - intros h. rewrite Hp. cbn. intros [->|Hi]%elem_of_cons; [by right|left; by apply Hin].
  - intros h [Hi| ->]; left; rewrite Hp; cbn; [right|left]. destruct (Hout h Hi) as [|[? _]]; [done|lia].
Qed.

(** Replacing the lowest block of a full heap. *)
Lemma keeps_pop gd cap (P : bytes -> Prop) l : keeps gd cap P l -> zlen l = cap -> 0 < cap -> exists m l',
  heap_Pop upHeap_Less l = Some (m, l') /\ index_res l 0 = @Ok GhostdagError _ m /\ l ≡ₚ m :: l' /\
  keeps gd cap (fun h => h ∈ map fst l') l' /\ (forall h, P h -> h ∈ map fst l' \/ (h = fst m \/ lt_block gd h (fst m))) /\
  (forall y, y ∈ map fst l' -> lt_block gd (fst m) y /\ P y).
Proof.
  intros [Hh Hr Hnd Hc Hin Hout] Hf Hpos.
  destruct (heap_Pop_spec upHeap_Less pair_le pair_le_trans pair_le_refl pair_less (fun x y H => H) l Hh) as (m & l' & Hpop & Hm & Hp & Hh' & Hmin).
  { intros ->. unfold zlen in Hf. cbn in Hf. lia. }
  rewrite Hp in Hr, Hnd. cbn in Hnd. apply Forall_cons in Hr as [Hrm Hr]. apply NoDup_cons in Hnd as [Hnm Hnd].
  assert (Hlen : zlen l = zlen l' + 1) by (rewrite Hp, zlen_cons; lia).
  assert (Hlow : forall y, y ∈ map fst l' -> lt_block gd (fst m) y).
  { intros h (y & -> & Hy)%list_elem_of_fmap. rewrite Forall_forall in Hr. apply pair_lt; [done|by apply Hr| |by apply Hmin].
    intros E. apply Hnm. rewrite E. by apply list_elem_of_fmap_2. }
  exists m, l'. split_and!; [done|by subst m; destruct l|done| | |].
  - constructor; [done|done|done|lia|done|by left].
  - intros h Hh2. destruct (Hout h Hh2) as [Hi|[_ Hl]].
    + rewrite Hp in Hi. cbn in Hi. apply elem_of_cons in Hi as [->|Hi]; [right; by left|by left].
    + right. right. apply Hl. rewrite Hp. by left.
  - intros y Hy. split; [by apply Hlow|]. apply Hin. rewrite Hp. by right.
Qed.

Lemma keeps_replace gd cap (P : bytes -> Prop) (m : BlockGHOSTDAGDataHashPair) l' x : keeps gd cap (fun h => h ∈ map fst l') l' -> zlen l' + 1 = cap ->
  (forall h, P h -> h ∈ map fst l' \/ (h = fst m \/ lt_block gd h (fst m))) -> (forall y, y ∈ map fst l' -> lt_block gd (fst m) y /\ P y) ->
  right_data gd x -> ~ P (fst x) -> lt_block gd (fst m) (fst x) ->
  keeps gd cap (fun h => P h \/ h = fst x) (heap_Push upHeap_Less l' x).
Proof.
  intros Hk Hf Hout Hlow Hx HP Hm.
  destruct (keeps_push gd cap _ l' x Hk Hx) as [Hh Hr Hnd Hc Hin Hcov]; [by intros [_ ?]%Hlow|lia|].
  assert (Hall : forall y, y ∈ map fst (heap_Push upHeap_Less l' x) -> lt_block gd (fst m) y).
  { intros y [Hy| ->]%Hin; [by apply Hlow|done]. }
  assert (Hlen : zlen (heap_Push upHeap_Less l' x) = cap).
  { destruct (heap_Push_spec upHeap_Less pair_le pair_le_trans pair_less (fun x y H => H) l' x (kp_heap _ _ _ _ Hk)) as [Hp _].
    rewrite Hp, zlen_cons. lia. }
  constructor; [done|done|done|done| |].
  - intros h [Hi| ->]%Hin; [left; by apply Hlow|by right].
  - intros h [Hi| ->]; [|apply Hcov; by right].
    destruct (Hout h Hi) as [Hi'|Hm']; [apply Hcov; by left|]. right. split; [done|]. intros y Hy%Hall.
    destruct Hm' as [->|Hm']; [done|]. by apply (lt_block_trans gd h (fst m)).
Qed.

(** A block that was not offered before: it is kept, the lowest one leaving a
    full heap, or it is below all that the full heap holds. *)
Lemma tryPush_keeps gd cap (P : bytes -> Prop) l h d : keeps gd cap P l -> gd !! (h, false) = Some d -> ~ P h -> 0 < cap ->
  exists r l', tryPushWithGHOSTDAGData h d (mk_sizedUpBlockHeap l cap) = (Ok r, mk_sizedUpBlockHeap l' cap) /\
    keeps gd cap (fun x => P x \/ x = h) l' /\
    (r = false -> l' = l /\ zlen l = cap /\ forall y, y ∈ map fst l -> lt_block gd h y).
Proof.
  intros Hk Hd HP Hpos. unfold tryPushWithGHOSTDAGData. erewrite bind_ok by reflexivity. cbn [sbh_slice sbh_cap].
  destruct (Z.eqb_spec (zlen l) cap) as [Hf|Hf].
  2:{ exists true, (heap_Push upHeap_Less l (h, d)). split_and!; [done| |done]. apply (keeps_push gd cap P l (h, d)); [done..|].
      pose proof (kp_cap _ _ _ _ Hk). lia. }
  destruct (keeps_pop gd cap P l Hk Hf Hpos) as (m & l' & Hpop & Hm0 & Hp & Hk' & Hout & Hlow).
  erewrite bind_ok by (unfold lift; by rewrite Hm0). cbv beta.
  assert (Hrm : right_data gd m) by (pose proof (kp_data _ _ _ _ Hk) as Hr; rewrite Hp in Hr; by apply Forall_cons in Hr as [? _]).
  assert (Hne : fst m <> h) by (intros <-; apply HP, (kp_in _ _ _ _ Hk); rewrite Hp; by left).
  destruct (blockGHOSTDAGDataHashPairLess (h, d) m) eqn:Hl.
  - assert (Hhm : lt_block gd h (fst m)) by (by exists d, (snd m)).
    assert (Hall : forall y, y ∈ map fst l -> lt_block gd h y).
    { intros y. rewrite Hp. cbn. intros [->|Hy]%elem_of_cons; [done|]. apply (lt_block_trans gd h (fst m)); [done|by apply Hlow]. }
    exists false, l. split; [done|]. split; [|done]. apply keeps_skip; [done|done|]. intros x y ->. apply Hall.
  - exists true, (heap_Push upHeap_Less l' (h, d)). split_and!; [| |done].
    + assert (Hrun : sized_pop (mk_sizedUpBlockHeap l cap) = (Ok (fst m), mk_sizedUpBlockHeap l' cap)).
      { unfold sized_pop. erewrite bind_ok by reflexivity. cbn [sbh_slice sbh_cap]. by rewrite Hpop. }
      by erewrite bind_ok by exact Hrun.
    + rewrite Hp, zlen_cons in Hf. apply (keeps_replace gd cap P m l' (h, d)); try done; try lia.
      apply (pair_lt gd m (h, d)); [done..|exact Hl].
Qed.

(** * The greatest blocks *)

(** [window] lists the [cap] greatest of the blocks [P], or all when there are
    fewer. *)
Record greatest (gd : ghostdag_store) (cap : Z) (P : bytes -> Prop) (window : list bytes) : Prop := {
  gr_nodup : NoDup window;
  gr_cap : zlen window <= cap;
  gr_in : forall h, h ∈ window -> P h;
  gr_out : forall h, P h -> h ∈ window \/ zlen window = cap /\ forall y, y ∈ window -> lt_block gd h y
}.

Lemma keeps_greatest gd cap P l : keeps gd cap P l -> greatest gd cap P (map fst l).
Proof.
  intros Hk. assert (Hz : zlen (map fst l) = zlen l) by (unfold zlen; by rewrite length_map).
  constructor; rewrite ?Hz; apply Hk.
Qed.

Lemma greatest_sub gd cap (P : bytes -> Prop) w1 w2 h : greatest gd cap P w1 -> greatest gd cap P w2 -> h ∈ w1 -> h ∈ w2.
Proof.
  intros [N1 C1 I1 O1] [N2 C2 I2 O2] Hh. destruct (O2 h (I1 h Hh)) as [|[Hf Hlow]]; [done|exfalso].
  assert (Hh2 : h ∉ w2) by (intros Hi; by apply (lt_block_irrefl gd h), Hlow).
  assert (Hsub : h :: w2 ⊆+ w1).
  { apply NoDup_submseteq; [by apply NoDup_cons|]. intros y [->|Hy]%elem_of_cons; [done|].
    destruct (O1 y (I2 y Hy)) as [|[_ Hl]]; [done|exfalso]. apply (lt_block_irrefl gd h).
    apply (lt_block_trans gd h y); [by apply Hlow|by apply Hl]. }
  apply submseteq_length in Hsub. unfold zlen in *. cbn in Hsub. lia.
Qed.

(** So what a window holds is settled, its order apart. *)
Lemma greatest_unique gd cap (P : bytes -> Prop) w1 w2 : greatest gd cap P w1 -> greatest gd cap P w2 -> w1 ≡ₚ w2.
Proof.
  intros H1 H2. apply NoDup_Permutation; [apply H1|apply H2|]. intros h. split; by apply (greatest_sub gd cap P).
Qed.
