(* ===== verification/BlockWindow.v ===== *)
(** Block windows: the blocks in the past of a block that its difficulty and
    its median time are computed from.
    [src/domain/consensus/processes/dagtraversalmanager/window.go] and the cache
    of windows, [src/domain/consensus/datastructures/blockwindowheapslicestore/]
    with [src/domain/consensus/utils/lrucachehashandwindowsizetoblockghostdagdatahashpairs/].

    The store of trusted DAA windows is the map of what it holds; the walk down
    the selected chain takes fuel. *)

From Stdlib Require Import Sorted.
From S2P Require Import Prelude Transaction Block Difficulty Ghostdag GhostdagMergeSet GhostdagSpec GhostdagDag BlockHeap.

(** * The cache of windows *)

Abbreviation shardKey := (bytes * Z)%type.
Abbreviation windows := (gmap shardKey sizedUpBlockHeap).

(** A slice is kept with its capacity.  [wh_iterations] counts the iterations
    over the cache, whose order is open. *)
Record blockWindowHeapSliceStore : Set := mk_windowStore {
  wh_toAdd : windows;
  wh_cache : windows;
  wh_capacity : Z;
  wh_iterations : nat
}.

Definition window_New (cacheSize : Z) : blockWindowHeapSliceStore := mk_windowStore ∅ ∅ cacheSize 0.

Definition window_Stage (blockHash : bytes) (windowSize : Z) (heapSlice : sizedUpBlockHeap) (ws : blockWindowHeapSliceStore)
  : blockWindowHeapSliceStore :=
  mk_windowStore (<[(blockHash, windowSize) := heapSlice]> (wh_toAdd ws)) (wh_cache ws) (wh_capacity ws) (wh_iterations ws).

Definition window_Get (ws : blockWindowHeapSliceStore) (blockHash : bytes) (windowSize : Z) : option sizedUpBlockHeap :=
  match wh_toAdd ws !! (blockHash, windowSize) with
  | Some heapSlice => Some heapSlice
  | None => wh_cache ws !! (blockHash, windowSize)
  end.

Section commit.
(** The first key a [range] over the cache visits. *)
Variable firstWindow : nat -> windows -> option shardKey.

(** An empty map evicts the zero key, which it does not hold. *)
Definition window_evictRandom (ws : blockWindowHeapSliceStore) : blockWindowHeapSliceStore :=
  let keyToEvict := default (NewZeroHash, 0) (firstWindow (wh_iterations ws) (wh_cache ws)) in
  mk_windowStore (wh_toAdd ws) (delete keyToEvict (wh_cache ws)) (wh_capacity ws) (S (wh_iterations ws)).

Definition window_Add (key : shardKey) (value : sizedUpBlockHeap) (ws : blockWindowHeapSliceStore) : blockWindowHeapSliceStore :=
  let ws := mk_windowStore (wh_toAdd ws) (<[key := value]> (wh_cache ws)) (wh_capacity ws) (wh_iterations ws) in
  if Z.of_nat (size (wh_cache ws)) >? wh_capacity ws then window_evictRandom ws else ws.

(** The staging area is dropped after the commit. *)
Definition window_Commit (ws : blockWindowHeapSliceStore) : blockWindowHeapSliceStore :=
  let ws := foldl (fun ws '(key, heapSlice) => window_Add key heapSlice ws) ws (map_to_list (wh_toAdd ws)) in
  mk_windowStore ∅ (wh_cache ws) (wh_capacity ws) (wh_iterations ws).

End commit.

(** * The window *)

Section window.
Variable genesisHash : bytes.
Variable gd : ghostdag_store.
Variable daaWindow : gmap (bytes * Z) BlockGHOSTDAGDataHashPair.

(** The loops over the merge set, from its end; the rest is smaller than a block
    that was not added. *)
Fixpoint push_while_added (hashes : list bytes) : SH unit :=
  match hashes with
  | [] => ret tt
  | hash :: rest => let* added := tryPush gd hash in if added : bool then push_while_added rest else ret tt
  end.

(** A nil selected parent has no data, so its data is not here to be pushed. *)
Definition tryPushMergeSet (currentGHOSTDAGData selectedParentGHOSTDAGData : BlockGHOSTDAGData) : SH bool :=
  match SelectedParent currentGHOSTDAGData with
  | None => panic
  | Some selectedParent =>
      let* added := tryPushWithGHOSTDAGData selectedParent selectedParentGHOSTDAGData in
      if negb added then ret true else
      match MergeSetBlues currentGHOSTDAGData with
      | [] => panic
      | _ :: mergeSetBlues =>
          push_while_added (rev mergeSetBlues) ;;
          push_while_added (rev (MergeSetReds currentGHOSTDAGData)) ;;
          ret false
      end
  end.

(** The store holds finitely many blocks, so [fuel] above their number is enough. *)
Fixpoint push_trusted (fuel : nat) (current : bytes) (i : Z) : SH unit :=
  match fuel with
  | O => throw OutOfFuel
  | S fuel =>
      match daaWindow !! (current, i) with
      | None => ret tt
      | Some daaBlock => tryPushWithGHOSTDAGData (fst daaBlock) (snd daaBlock) ;; push_trusted fuel current (uint64 (i + 1))
      end
  end.

Definition isTrusted (current : bytes) : bool := bool_decide (is_Some (daaWindow !! (current, 0))).

Fixpoint walk_window (fuel : nat) (current : bytes) (currentGHOSTDAGData : BlockGHOSTDAGData) : SH unit :=
  match fuel with
  | O => throw OutOfFuel
  | S fuel =>
      if hash_Equal (SelectedParent currentGHOSTDAGData) (Some genesisHash) then ret tt else
      if isTrusted current then push_trusted (S (size daaWindow)) current 0 else
      let* selectedParentGHOSTDAGData := lift (ghostdag_Get gd (SelectedParent currentGHOSTDAGData) false) in
      let* done_ := tryPushMergeSet currentGHOSTDAGData selectedParentGHOSTDAGData in
      if done_ : bool then ret tt else
      match SelectedParent currentGHOSTDAGData with
      | None => panic
      | Some selectedParent => walk_window fuel selectedParent selectedParentGHOSTDAGData
      end
  end.

Definition on_heap {A} (m : SH A) (windowHeap : sizedUpBlockHeap) : res GhostdagError sizedUpBlockHeap :=
  match m windowHeap with (Ok _, windowHeap) => Ok windowHeap | (Err e, _) => Err e | (Panic, _) => Panic end.

Definition calculateBlockWindowHeap (fuel : nat) (ws : blockWindowHeapSliceStore) (highHash : bytes) (windowSize : Z)
  : res GhostdagError sizedUpBlockHeap :=
  let? windowHeap := newSizedUpHeap windowSize in
  if hash_Equal (Some highHash) (Some genesisHash) then Ok windowHeap else
  if windowSize =? 0 then Ok windowHeap else
  let? currentGHOSTDAGData := ghostdag_Get gd (Some highHash) false in
  let cached :=
    if isTrusted highHash then None else
    match SelectedParent currentGHOSTDAGData with
    | None => None
    | Some selectedParent => match window_Get ws selectedParent windowSize with
                             | None => None
                             | Some windowHeapSlice => Some (selectedParent, windowHeapSlice)
                             end
    end in
  match cached with
  | Some (selectedParent, windowHeap) =>
      if hash_Equal (Some selectedParent) (Some genesisHash) then Ok windowHeap else
      let? selectedParentGHOSTDAGData := ghostdag_Get gd (Some selectedParent) false in
      on_heap (tryPushMergeSet currentGHOSTDAGData selectedParentGHOSTDAGData) windowHeap
  | None => on_heap (walk_window fuel highHash currentGHOSTDAGData) windowHeap
  end.

Abbreviation WM := (M GhostdagError blockWindowHeapSliceStore).

Definition blockWindowHeap (fuel : nat) (highHash : bytes) (windowSize : Z) : WM sizedUpBlockHeap :=
  let* ws := get in
  match window_Get ws highHash windowSize with
  | Some windowHeapSlice => ret windowHeapSlice
  | None =>
      let* heap := lift (calculateBlockWindowHeap fuel ws highHash windowSize) in
      (if negb (hash_Equal (Some highHash) (Some VirtualBlockHash)) then modify (window_Stage highHash windowSize heap) else ret tt) ;;
      ret heap
  end.

Definition BlockWindow (fuel : nat) (highHash : bytes) (windowSize : Z) : WM (list bytes) :=
  let* windowHeap := blockWindowHeap fuel highHash windowSize in
  ret (map fst (sbh_slice windowHeap)).

Definition DAABlockWindow (fuel : nat) (difficultyAdjustmentWindowSize : Z) (highHash : bytes) : WM (list bytes) :=
  BlockWindow fuel highHash difficultyAdjustmentWindowSize.

End window.

(** * The blocks a window is taken from *)

(** The merge sets of the selected chain, down to the chain block above the
    genesis, whose own is left out. *)
Inductive in_window (genesis : bytes) (gd : ghostdag_store) : bytes -> bytes -> Prop :=
| iw_here b d p x : b <> genesis -> gd !! (b, false) = Some d -> SelectedParent d = Some p -> p <> genesis ->
    x ∈ MergeSetBlues d ++ MergeSetReds d -> in_window genesis gd b x
| iw_below b d p x : b <> genesis -> gd !! (b, false) = Some d -> SelectedParent d = Some p -> p <> genesis ->
    in_window genesis gd p x -> in_window genesis gd b x.

Section correct.
Context `{T : DAGTopologyManager} `{HS : BlockHeaderStore} (gm : ghostdagManager).
Context (par : bytes -> list bytes) (gd : ghostdag_store).
Context (known : gset bytes) (Htop : topology_ok par known).
Context (Hwork : forall b, b ∈ known -> 0 < work_of b).
Context (Hok : forall b, b ∈ known -> exists d s n, data_ok gm par gd b d s n).
Context (daaWindow : gmap (bytes * Z) BlockGHOSTDAGDataHashPair) (Huntrusted : forall b, b ∈ known -> daaWindow !! (b, 0) = None).

Abbreviation genesis := (gm_genesisHash gm).
Abbreviation iw := (in_window genesis gd).

Lemma iw_inv b d p x : b <> genesis -> gd !! (b, false) = Some d -> SelectedParent d = Some p ->
  iw b x <-> p <> genesis /\ (x ∈ MergeSetBlues d ++ MergeSetReds d \/ iw p x).
Proof.
  intros Hb Hd Hp. split.
  - destruct 1; simplify_eq; auto.
  - intros [Hg [Hx|Hx]]; [by eapply iw_here|by eapply iw_below].
Qed.

Lemma iw_genesis x : ~ iw genesis x.
Proof. by inversion 1. Qed.

(** The merge set of a block, its selected parent first. *)
Lemma merged_set b d p rest x : b ∈ known -> merges gm par gd b d p rest ->
  x ∈ MergeSetBlues d ++ MergeSetReds d -> x = p \/ reached par (par b) x /\ ~ anc par x p.
Proof.
  intros Hb Hm. rewrite (mg_blues _ _ _ _ _ _ _ Hm). cbn [app]. intros [->|Hx]%elem_of_cons; [by left|right].
  by apply (mg_set _ _ _ _ _ _ _ Hm).
Qed.

Lemma reached_proper b x : b ∈ known -> reached par (par b) x -> anc par x b /\ x <> b.
Proof.
  intros Hb Hx. split; [destruct Hx as (q & Hq & Hxq); by eapply rtc_r|].
  intros ->. by apply (not_reached_self gm par gd known Htop Hwork Hok b Hb).
Qed.

Lemma iw_past b d s n x : b ∈ known -> data_ok gm par gd b d s n -> iw b x -> anc par x b /\ x <> b.
Proof.
  intros Hb Hd. revert Hb. induction Hd as [d Hg Hp Hbd|b d p rest dp sp np Hd Hne Hpd IH Hm Hs Hw Hr]; intros Hb Hx.
  { by apply iw_genesis in Hx. }
  assert (Hpb : reached par (par b) p) by (exists p; split; [apply Hm|constructor]).
  assert (Hpk : p ∈ known) by (eapply top_closed; [done|exact Hb|apply Hm]).
  apply reached_proper; [done|]. apply (iw_inv b d p) in Hx as [_ [Hx|Hx]]; [| |done|done|apply Hm].
  - destruct (merged_set b d p rest x Hb Hm Hx) as [->|[? _]]; done.
  - destruct (IH Hpk Hx) as [Hxp _]. exists p. split; [apply Hm|done].
Qed.

(** Everything in the window of a block, its selected parent apart, is below
    its selected parent. *)
Lemma below_parent b d p rest x : b ∈ known -> merges gm par gd b d p rest -> reached par (par b) x -> x = p \/ lt_block gd x p.
Proof.
  intros Hb Hm (q & Hq & Hxq). assert (Hqk : q ∈ known) by (by eapply top_closed).
  destruct (decide (x = q)) as [->|Hne]; [by apply (mg_max _ _ _ _ _ _ _ Hm)|].
  pose proof (anc_lt gm par gd known Htop Hwork Hok x q Hqk Hxq Hne) as Hlt.
  destruct (mg_max _ _ _ _ _ _ _ Hm q Hq) as [->|Hl]; right; [done|by apply (lt_block_trans gd x q)].
Qed.

(** * Pushing a merge set *)

Lemma tryPush_known cap P l h : keeps gd cap P l -> h ∈ known -> ~ P h -> 0 < cap ->
  exists r l', tryPush gd h (mk_sizedUpBlockHeap l cap) = (Ok r, mk_sizedUpBlockHeap l' cap) /\
    keeps gd cap (fun x => P x \/ x = h) l' /\
    (r = false -> l' = l /\ zlen l = cap /\ forall y, y ∈ map fst l -> lt_block gd h y).
Proof.
  intros Hk Hh HP Hc. destruct (has_data_known gm par gd known Hok h Hh) as [d Hd].
  destruct (tryPush_keeps gd cap P l h d Hk Hd HP Hc) as (r & l' & Hrun & Hrest). exists r, l'. split; [|done].
  unfold tryPush. erewrite bind_ok by (unfold lift, ghostdag_Get; by rewrite Hd). done.
Qed.

Lemma push_while_added_keeps cap hashes : 0 < cap -> forall P l, keeps gd cap P l -> NoDup hashes ->
  (forall h, h ∈ hashes -> h ∈ known /\ ~ P h) -> StronglySorted (flip (lt_block gd)) hashes ->
  exists l', push_while_added gd hashes (mk_sizedUpBlockHeap l cap) = (Ok tt, mk_sizedUpBlockHeap l' cap) /\
    keeps gd cap (fun x => P x \/ x ∈ hashes) l'.
Proof.
  intros Hc. induction hashes as [|h hashes IH]; intros P l Hk Hnd Hh Hs; cbn [push_while_added].
  { exists l. split; [done|]. eapply keeps_iff; [|exact Hk]. intros x. rewrite elem_of_nil. tauto. }
  apply NoDup_cons in Hnd as [Hnh Hnd]. apply StronglySorted_inv in Hs as [Hs Hmax]. rewrite Forall_forall in Hmax.
  destruct (Hh h ltac:(left)) as [Hk1 HP1]. destruct (tryPush_known cap P l h Hk Hk1 HP1 Hc) as (r & l' & Hrun & Hk' & Hr).
  erewrite bind_ok by exact Hrun. cbv beta. destruct r.
  - destruct (IH (fun x => P x \/ x = h) l' Hk' Hnd) as (l2 & Hrun2 & Hk2); [|done|].
    + intros x Hx. destruct (Hh x ltac:(by right)) as [? ?]. split; [done|]. intros [?| ->]; done.
    + exists l2. split; [done|]. eapply keeps_iff; [|exact Hk2]. intros x. rewrite elem_of_cons. tauto.
  - destruct (Hr eq_refl) as (-> & Hf & Hl). exists l. split; [done|]. apply keeps_skip; [done|done|].
    intros x y Hx Hy. apply elem_of_cons in Hx as [->|Hx]; [by apply Hl|]. apply (lt_block_trans gd x h); [by apply Hmax|by apply Hl].
Qed.

Lemma sorted_flip l : StronglySorted (lt_block gd) l -> StronglySorted (flip (lt_block gd)) (rev l).
Proof. apply (StronglySorted_rev (flip (lt_block gd))). Qed.

(** The heap takes the merge set of a block, or nothing of it can enter. *)
Lemma tryPushMergeSet_keeps cap (P : bytes -> Prop) l b d p rest dp : 0 < cap -> keeps gd cap P l -> b ∈ known -> merges gm par gd b d p rest ->
  gd !! (p, false) = Some dp -> (forall x, x ∈ MergeSetBlues d ++ MergeSetReds d -> ~ P x) ->
  exists r l', tryPushMergeSet gd d dp (mk_sizedUpBlockHeap l cap) = (Ok r, mk_sizedUpBlockHeap l' cap) /\
    keeps gd cap (fun x => P x \/ x ∈ MergeSetBlues d ++ MergeSetReds d) l' /\
    (r = true -> zlen l' = cap /\ forall y, y ∈ map fst l' -> lt_block gd p y).
Proof.
  intros Hc Hk Hb Hm Hdp HP. pose proof (mg_nodup _ _ _ _ _ _ _ Hm) as Hnd. apply NoDup_app in Hnd as (Hn1 & Hn12 & Hn2).
  destruct (mg_sorted _ _ _ _ _ _ _ Hm) as [Hs1 Hs2]. unfold tryPushMergeSet. rewrite (mg_parent _ _ _ _ _ _ _ Hm).
  pose proof (mg_blues _ _ _ _ _ _ _ Hm) as Hbl. rewrite Hbl in *. cbn [app] in *.
  assert (Hset : forall x, x ∈ rest ++ MergeSetReds d -> x ∈ known /\ x <> p /\ reached par (par b) x).
  { intros x Hx%(mg_set _ _ _ _ _ _ _ Hm). split_and!; [|intros ->; by apply Hx; constructor|apply Hx].
    eapply reached_known; [done| |apply Hx]. intros q Hq. by eapply top_closed. }
  destruct (tryPush_keeps gd cap P l p dp Hk Hdp) as (r & l1 & Hrun & Hk1 & Hr); [apply HP; by left|done|].
  erewrite bind_ok by exact Hrun. cbv beta. destruct r; cbn [negb].
  - destruct (push_while_added_keeps cap (rev rest) Hc _ l1 Hk1) as (l2 & Hrun2 & Hk2); [by rewrite <- Permutation_rev| |by apply sorted_flip|].
    { intros h Hh. rewrite <- Permutation_rev in Hh. destruct (Hset h) as (? & ? & _); [apply elem_of_app; by left|]. split; [done|].
      intros [?| ->]; [|done]. by apply (HP h); [right; apply elem_of_app; left|]. }
    erewrite bind_ok by exact Hrun2. cbv beta.
    destruct (push_while_added_keeps cap (rev (MergeSetReds d)) Hc _ l2 Hk2) as (l3 & Hrun3 & Hk3); [by rewrite <- Permutation_rev| |by apply sorted_flip|].
    { intros h Hh. rewrite <- Permutation_rev in Hh. destruct (Hset h) as (? & ? & _); [apply elem_of_app; by right|]. split; [done|].
      rewrite <- Permutation_rev. intros [[?| ->]|?]; [|done|by apply (Hn12 h)]. by apply (HP h); [right; apply elem_of_app; right|]. }
    erewrite bind_ok by exact Hrun3. exists false, l3. split; [done|]. split; [|done]. eapply keeps_iff; [|exact Hk3].
    intros x. cbv beta. rewrite <- !Permutation_rev, elem_of_cons, elem_of_app. tauto.
  - destruct (Hr eq_refl) as (-> & Hf & Hl). exists true, l. split; [done|]. split; [|done]. apply keeps_skip; [done|done|].
    intros x y Hx Hy. apply elem_of_cons in Hx as [->|Hx]; [by apply Hl|]. destruct (Hset x Hx) as (_ & Hne & Hre).
    destruct (below_parent b d p rest x Hb Hm Hre) as [|Hlt]; [done|]. apply (lt_block_trans gd x p); [done|by apply Hl].
Qed.

(** * The walk *)

Lemma parent_known b d p rest : b ∈ known -> merges gm par gd b d p rest -> p ∈ known.
Proof. intros Hb Hm. eapply top_closed; [done|exact Hb|apply Hm]. Qed.

Lemma merged_fresh b d p rest dp sp np x : b ∈ known -> merges gm par gd b d p rest -> data_ok gm par gd p dp sp np ->
  x ∈ MergeSetBlues d ++ MergeSetReds d -> ~ iw p x.
Proof.
  intros Hb Hm Hpd Hx Hi. assert (Hpk : p ∈ known) by (by eapply parent_known).
  destruct (iw_past p dp sp np x Hpk Hpd Hi) as [Hxp Hne]. destruct (merged_set b d p rest x Hb Hm Hx) as [->|[_ ?]]; done.
Qed.

Lemma isTrusted_known b : b ∈ known -> isTrusted daaWindow b = false.
Proof. intros Hb. unfold isTrusted. rewrite (Huntrusted b Hb). by apply bool_decide_false; intros [? ?]. Qed.

Lemma walk_window_keeps cap b d s n : 0 < cap -> data_ok gm par gd b d s n -> b ∈ known -> b <> genesis -> forall fuel (P : bytes -> Prop) l,
  (n < fuel)%nat -> keeps gd cap P l -> (forall x, iw b x -> ~ P x) ->
  exists l', walk_window genesis gd daaWindow fuel b d (mk_sizedUpBlockHeap l cap) = (Ok tt, mk_sizedUpBlockHeap l' cap) /\
    keeps gd cap (fun x => P x \/ iw b x) l'.
Proof.
  intros Hc Hd. induction Hd as [d Hg Hp Hbd|b d p rest dp sp np Hd Hne Hpd IH Hm Hs Hw Hr]; intros Hb Hbg fuel P l Hf Hk HP; [done|].
  destruct fuel as [|fuel]; [lia|]. cbn [walk_window]. pose proof (mg_parent _ _ _ _ _ _ _ Hm) as Hsp. rewrite Hsp.
  pose proof (fun x => iw_inv b d p x Hbg Hd Hsp) as Hiw. unfold hash_Equal.
  destruct (decide (p = genesis)) as [->|Hpg].
  { rewrite bool_decide_true by done. exists l. split; [done|]. eapply keeps_iff; [|exact Hk]. intros x. rewrite Hiw. tauto. }
  rewrite bool_decide_false by congruence. rewrite isTrusted_known by done.
  pose proof (data_ok_lookup _ _ _ _ _ _ _ Hpd) as Hdp. assert (Hpk : p ∈ known) by (by eapply parent_known).
  erewrite bind_ok by (unfold lift, ghostdag_Get; by rewrite Hdp). cbv beta.
  destruct (tryPushMergeSet_keeps cap P l b d p rest dp Hc Hk Hb Hm Hdp) as (r & l1 & Hrun & Hk1 & Hr1).
  { intros x Hx. apply HP, Hiw. auto. }
  erewrite bind_ok by exact Hrun. cbv beta. destruct r.
  - exists l1. split; [done|]. destruct (Hr1 eq_refl) as [Hfull Hl]. eapply keeps_iff; [|apply (keeps_skip gd cap _ (iw p) l1 Hk1 Hfull)].
    + intros x. cbn. rewrite Hiw. tauto.
    + intros x y Hx Hy. destruct (iw_past p dp sp np x Hpk Hpd Hx) as [Hxp Hxne].
      apply (lt_block_trans gd x p); [|by apply Hl]. by apply (anc_lt gm par gd known Htop Hwork Hok).
  - destruct (IH Hpk Hpg fuel _ l1 ltac:(lia) Hk1) as (l2 & Hrun2 & Hk2).
    + intros x Hx [HPx|Hxm]; [by apply (HP x); [apply Hiw; auto|]|]. by apply (merged_fresh b d p rest dp sp np x).
    + exists l2. split; [done|]. eapply keeps_iff; [|exact Hk2]. intros x. cbn. rewrite Hiw. tauto.
Qed.

(** * The cache *)

Definition window_right (b : bytes) (windowSize : Z) (windowHeap : sizedUpBlockHeap) : Prop :=
  sbh_cap windowHeap = windowSize /\ keeps gd windowSize (iw b) (sbh_slice windowHeap).

Definition cache_right (ws : blockWindowHeapSliceStore) : Prop := forall b windowSize windowHeap,
  wh_toAdd ws !! (b, windowSize) = Some windowHeap \/ wh_cache ws !! (b, windowSize) = Some windowHeap ->
  b ∈ known /\ window_right b windowSize windowHeap.

Lemma window_Get_right ws b windowSize windowHeap : cache_right ws -> window_Get ws b windowSize = Some windowHeap ->
  b ∈ known /\ window_right b windowSize windowHeap.
Proof. intros Hws. unfold window_Get. destruct (wh_toAdd ws !! (b, windowSize)) eqn:E; intros H; simplify_eq; apply Hws; auto. Qed.

Lemma window_Stage_right ws b windowSize windowHeap : cache_right ws -> b ∈ known -> window_right b windowSize windowHeap ->
  cache_right (window_Stage b windowSize windowHeap ws).
Proof.
  intros Hws Hb Hr b' size' h'. cbn. intros [Hl|Hl]; [|apply Hws; auto].
  apply lookup_insert_Some in Hl as [[E <-]|[_ Hl]]; [by simplify_eq|apply Hws; auto].
Qed.

Lemma window_Add_right firstWindow key h ws : cache_right ws -> fst key ∈ known -> window_right (fst key) (snd key) h -> cache_right (window_Add firstWindow key h ws).
Proof.
  intros Hws Hb Hr. assert (Hin : forall b size h', wh_toAdd ws !! (b, size) = Some h' \/ (<[key := h]> (wh_cache ws)) !! (b, size) = Some h' ->
    b ∈ known /\ window_right b size h').
  { intros b size h' [Hl|Hl]; [apply Hws; auto|]. apply lookup_insert_Some in Hl as [[-> <-]|[_ Hl]]; [done|apply Hws; auto]. }
  unfold window_Add. case_match; [|done]. intros b size h'. cbn. intros [Hl|Hl]; apply Hin; [auto|right].
  by apply lookup_delete_Some in Hl as [_ ?].
Qed.

Lemma window_Commit_right firstWindow ws : cache_right ws -> cache_right (window_Commit firstWindow ws).
Proof.
  intros Hws. unfold window_Commit. assert (Hall : forall key h, (key, h) ∈ map_to_list (wh_toAdd ws) -> fst key ∈ known /\ window_right (fst key) (snd key) h).
  { intros [b size] h Hl%elem_of_map_to_list. apply Hws. auto. }
  revert Hws Hall. generalize (map_to_list (wh_toAdd ws)) as l. intros l. revert ws.
  induction l as [|[key h] l IH]; intros ws Hws Hall; cbn [foldl].
  - intros b size h. cbn. intros [Hl|Hl]; [by rewrite lookup_empty in Hl|apply Hws; auto].
  - apply IH; [destruct (Hall key h ltac:(by left)); by apply window_Add_right|]. intros k h' Hk. apply Hall. by right.
Qed.

Lemma calculate_right fuel ws b d s n windowSize : data_ok gm par gd b d s n -> b ∈ known -> (n < fuel)%nat -> 0 <= windowSize -> cache_right ws ->
  exists h, calculateBlockWindowHeap genesis gd daaWindow fuel ws b windowSize = Ok h /\ window_right b windowSize h.
Proof.
  intros Hbd Hb Hf Hsize Hws. unfold calculateBlockWindowHeap, newSizedUpHeap. rewrite (proj2 (Z.ltb_ge _ _)) by lia. cbn [bind_res].
  unfold hash_Equal. destruct (decide (b = genesis)) as [->|Hbg].
  { rewrite bool_decide_true by done. eexists. split; [done|]. split; [done|]. apply keeps_nil; [done|]. apply iw_genesis. }
  rewrite bool_decide_false by congruence. destruct (Z.eqb_spec windowSize 0) as [->|Hs0].
  { eexists. split; [done|]. split; [done|]. constructor; [intros i Hi; cbn in Hi; lia|constructor|constructor|done| |].
    - intros h Hh. by apply not_elem_of_nil in Hh.
    - intros h _. right. split; [done|]. intros y Hy. by apply not_elem_of_nil in Hy. }
  inversion Hbd as [|b' d' p rest dp sp np Hd Hne Hpd Hm Hs Hw Hr]; subst; [done|]. unfold ghostdag_Get at 1. rewrite Hd. cbn [bind_res].
  rewrite isTrusted_known by done. pose proof (mg_parent _ _ _ _ _ _ _ Hm) as Hsp. rewrite Hsp.
  pose proof (fun x => iw_inv b d p x Hbg Hd Hsp) as Hiw. assert (Hc : 0 < windowSize) by lia.
  pose proof (data_ok_lookup _ _ _ _ _ _ _ Hpd) as Hdp.
  destruct (window_Get ws p windowSize) as [[slice cap]|] eqn:Hget.
  - destruct (window_Get_right _ _ _ _ Hws Hget) as (_ & Hcap & Hk). cbn in Hcap, Hk. subst cap.
    destruct (decide (p = genesis)) as [->|Hpg].
    + rewrite bool_decide_true by done. eexists. split; [done|]. split; [done|]. cbn. eapply keeps_iff; [|exact Hk].
      intros x. cbv beta. rewrite Hiw. pose proof (iw_genesis x). tauto.
    + rewrite bool_decide_false by congruence. unfold ghostdag_Get. rewrite Hdp. cbn [bind_res].
      destruct (tryPushMergeSet_keeps windowSize (iw p) slice b d p rest dp Hc Hk Hb Hm Hdp) as (r & l' & Hrun & Hk' & _).
      { intros x Hx. by apply (merged_fresh b d p rest dp sp np x). }
      unfold on_heap. rewrite Hrun. eexists. split; [done|]. split; [done|]. cbn. eapply keeps_iff; [|exact Hk'].
      intros x. cbv beta. rewrite Hiw. tauto.
  - destruct (walk_window_keeps windowSize b d _ (S np) Hc Hbd Hb Hbg fuel (fun _ => False) [] Hf) as (l' & Hrun & Hk').
    + apply keeps_nil; [done|tauto].
    + tauto.
    + unfold on_heap. rewrite Hrun. eexists. split; [done|]. split; [done|]. cbn. eapply keeps_iff; [|exact Hk']. intros x. cbv beta. tauto.
Qed.

Lemma BlockWindow_right fuel ws b d s n windowSize : data_ok gm par gd b d s n -> b ∈ known -> (n < fuel)%nat -> 0 <= windowSize -> cache_right ws ->
  exists h ws', BlockWindow genesis gd daaWindow fuel b windowSize ws = (Ok (map fst (sbh_slice h)), ws') /\
    window_right b windowSize h /\ cache_right ws'.
Proof.
  intros Hbd Hb Hf Hsize Hws. unfold BlockWindow, blockWindowHeap.
  destruct (window_Get ws b windowSize) as [h|] eqn:Hget.
  - exists h, ws. split_and!; [|by apply (window_Get_right ws)|done]. erewrite bind_ok; [reflexivity|].
    erewrite bind_ok by reflexivity. cbv beta. by rewrite Hget.
  - destruct (calculate_right fuel ws b d s n windowSize Hbd Hb Hf Hsize Hws) as (h & Hcalc & Hr).
    destruct (hash_Equal (Some b) (Some VirtualBlockHash)) eqn:Hv.
    + exists h, ws. split_and!; [|done|done]. erewrite bind_ok; [reflexivity|]. erewrite bind_ok by reflexivity. cbv beta. rewrite Hget.
      erewrite bind_ok by (unfold lift; by rewrite Hcalc). done.
    + exists h, (window_Stage b windowSize h ws). split_and!; [|done|by apply window_Stage_right]. erewrite bind_ok; [reflexivity|].
      erewrite bind_ok by reflexivity. cbv beta. rewrite Hget. erewrite bind_ok by (unfold lift; by rewrite Hcalc). done.
Qed.

(** * The window and the past *)

(** The block of the selected chain of [b] that is above the genesis. *)
Inductive chain_start : bytes -> bytes -> Prop :=
| cs_here b d : gd !! (b, false) = Some d -> SelectedParent d = Some genesis -> chain_start b b
| cs_below b d p c : gd !! (b, false) = Some d -> SelectedParent d = Some p -> p <> genesis -> chain_start p c -> chain_start b c.

Lemma iw_past_minus b d s n : data_ok gm par gd b d s n -> b ∈ known -> b <> genesis -> exists c, chain_start b c /\ anc par c b /\
  forall x, iw b x <-> anc par x b /\ x <> b /\ ~ (anc par x c /\ x <> c).
Proof.
  induction 1 as [d Hg Hp Hbd|b d p rest dp sp np Hd Hne Hpd IH Hm Hs Hw Hr]; intros Hb Hbg; [done|].
  pose proof (mg_parent _ _ _ _ _ _ _ Hm) as Hsp. pose proof (fun x => iw_inv b d p x Hbg Hd Hsp) as Hiw.
  destruct (decide (p = genesis)) as [->|Hpg].
  { exists b. split; [by eapply cs_here|]. split; [constructor|]. intros x. rewrite Hiw. tauto. }
  assert (Hpk : p ∈ known) by (by eapply parent_known). destruct (IH Hpk Hpg) as (c & Hstart & Hcp & Hc).
  exists c. split; [by eapply cs_below|]. assert (Hpb : anc par p b) by (eapply rtc_l; [apply Hm|constructor]).
  split; [by etransitivity|]. intros x. rewrite Hiw, Hc. rewrite (mg_blues _ _ _ _ _ _ _ Hm). cbn [app]. rewrite elem_of_cons, (mg_set _ _ _ _ _ _ _ Hm).
  assert (Hbp : p <> b).
  { intros ->. apply (not_reached_self gm par gd known Htop Hwork Hok b Hb). exists b. split; [apply Hm|constructor]. }
  split.
  - intros [_ [[->|[Hx Hxp]]|(Hx & Hxp & Hxc)]].
    + split_and!; [done|done|]. intros [Hpc Hne']. apply Hne'. apply (anc_antisym gm par gd known Htop Hwork Hok); [|done|done].
      by apply (anc_known par known Htop c p).
    + destruct (reached_proper b x Hb Hx). split_and!; [done|done|]. intros [Hxc _]. apply Hxp. by etransitivity.
    + split_and!; [by etransitivity| |done]. intros ->. apply Hxp. by apply (anc_antisym gm par gd known Htop Hwork Hok).
  - intros (Hxb & Hxne & Hxc). split; [done|]. pose proof (anc_known par known Htop x b Hb Hxb) as Hxk.
    destruct (decide (x = p)) as [->|Hxp]; [auto|]. destruct (is_anc_spec par known Htop x p Hxk Hpk) as [_ Hia].
    destruct (is_anc x p) eqn:E; [right; split_and!; [by apply Hia|done|done]|]. left. right. split; [|by intros ?%Hia].
    apply rtc_inv_r in Hxb as [->|(y & Hxy & Hy)]; [done|]. by exists y.
Qed.

End correct.

(** * A growing DAG *)

Lemma in_window_grows `{DAGTopologyManager} `{BlockHeaderStore} (gm : ghostdagManager) (par : bytes -> list bytes) (gd gd' : ghostdag_store) (b : bytes) (d : BlockGHOSTDAGData) (s : gset bytes) (n : nat) (x : bytes) : gd ⊆ gd' -> data_ok gm par gd b d s n ->
  in_window (gm_genesisHash gm) gd b x <-> in_window (gm_genesisHash gm) gd' b x.
Proof.
  intros Hsub Hd. induction Hd as [d Hg Hp Hbd|b d p rest dp sp np Hd Hne Hpd IH Hm Hs Hw Hr]; [split; by inversion 1|].
  pose proof (mg_parent _ _ _ _ _ _ _ Hm) as Hsp. rewrite (iw_inv gm gd b d p x Hne Hd Hsp), IH.
  by rewrite (iw_inv gm gd' b d p x Hne (lookup_weaken _ _ _ _ Hd Hsub) Hsp).
Qed.

(** Windows that were cached stay right when blocks are added. *)
Lemma cache_right_grows `{DAGTopologyManager} `{BlockHeaderStore} (gm : ghostdagManager) (par : bytes -> list bytes) (gd gd' : ghostdag_store) (known known' : gset bytes) (ws : blockWindowHeapSliceStore) : gd ⊆ gd' -> known ⊆ known' ->
  (forall b, b ∈ known -> exists d s n, data_ok gm par gd b d s n) -> cache_right gm gd known ws -> cache_right gm gd' known' ws.
Proof.
  intros Hsub Hkn Hok Hws b size h Hl. destruct (Hws b size h Hl) as (Hb & Hcap & [Hh Hr Hnd Hc Hin Hout]). split; [by apply Hkn|].
  destruct (Hok b Hb) as (d & s & n & Hd). pose proof (fun x => in_window_grows gm par gd gd' b d s n x Hsub Hd) as Hiw.
  split; [done|]. constructor; try done.
  - eapply Forall_impl; [exact Hr|]. intros x Hx. by eapply lookup_weaken.
  - intros x Hx. by apply Hiw, Hin.
  - intros x Hx. apply Hiw in Hx. destruct (Hout x Hx) as [|[Hf Hlt]]; [by left|]. right. split; [done|].
    intros y Hy. eapply lt_block_mono; [exact Hsub|]. by apply Hlt.
Qed.

(** * A whole DAG *)

Section dag.
Context `{T : DAGTopologyManager} `{HS : BlockHeaderStore} (gm : ghostdagManager).
Context (par : bytes -> list bytes) (blocks : list bytes) (Henv : ghostdag_env gm par blocks).
Context (fuel : nat) (Hfuel : (length blocks < fuel)%nat).
Context (daaWindow : gmap (bytes * Z) BlockGHOSTDAGDataHashPair) (Huntrusted : forall b, b ∈ blocks -> daaWindow !! (b, 0) = None).
Context (gd : ghostdag_store) (Hok : forall b, b ∈ blocks -> exists d s n, data_ok gm par gd b d s n).

Abbreviation known := (list_to_set blocks : gset bytes).
Abbreviation right := (cache_right gm gd known).
Abbreviation iw := (in_window (gm_genesisHash gm) gd).

Lemma window_known b windowSize window x : b ∈ blocks -> greatest gd windowSize (iw b) window -> x ∈ window -> x ∈ blocks.
Proof.
  intros Hb Hg Hx. destruct (Hok b Hb) as (d & s & n & Hd). assert (Hbk : b ∈ known) by (by apply elem_of_list_to_set).
  destruct (iw_past gm par gd known (env_topology _ _ _ Henv) (all_works gm par blocks Henv) (all_ok gm par blocks gd Hok) b d s n x Hbk Hd)
    as [Hxb _]; [by apply (gr_in _ _ _ _ Hg)|].
  apply (elem_of_list_to_set (C := gset bytes)). by apply (anc_known par known (env_topology _ _ _ Henv) x b).
Qed.

Lemma window_run b windowSize ws : b ∈ blocks -> 0 <= windowSize -> right ws -> exists window ws',
  BlockWindow (gm_genesisHash gm) gd daaWindow fuel b windowSize ws = (Ok window, ws') /\ right ws' /\ greatest gd windowSize (iw b) window.
Proof.
  intros Hb Hsize Hws. destruct (Hok b Hb) as (d & s & n & Hd). assert (Hbk : b ∈ known) by (by apply elem_of_list_to_set).
  pose proof (env_topology _ _ _ Henv) as Htop. pose proof (all_works gm par blocks Henv) as Hwork. pose proof (all_ok gm par blocks gd Hok) as Hok'.
  assert (Hn : (n < fuel)%nat).
  { pose proof (chain_short gm par gd _ Htop Hwork Hok' b d s n Hbk Hd) as Hn.
    rewrite size_list_to_set in Hn by apply (dag_nodup _ _ _ (env_order _ _ _ Henv)). lia. }
  destruct (BlockWindow_right gm par gd known Htop Hwork Hok' daaWindow) with (fuel := fuel) (ws := ws) (b := b) (d := d) (s := s) (n := n)
    (windowSize := windowSize) as (h & ws' & Hrun & [Hcap Hk] & Hws'); [intros x Hx%elem_of_list_to_set; by apply Huntrusted|done..|].
  exists (map fst (sbh_slice h)), ws'. split; [done|]. split; [done|]. by apply keeps_greatest.
Qed.

End dag.

(** C5: A block window is exact.  The blocks come from the merge sets of the
    selected chain, which is the past of the block without that of the first
    chain block above the genesis; of these the window has the [windowSize]
    greatest, by blue work and then hash, each once, and all of them when there
    are fewer.  That holds from any cache of right windows, and the cache stays
    right when the window is staged and when the staging area is committed,
    whatever is evicted. *)
Theorem block_window_exact `{DAGTopologyManager} `{BlockHeaderStore} gm par blocks fuel daaWindow :
  ghostdag_env gm par blocks -> (length blocks < fuel)%nat -> (forall b, b ∈ blocks -> daaWindow !! (b, 0) = None) ->
  exists st, ghostdag_all gm fuel blocks ∅ = (Ok tt, st) /\
    let right := cache_right gm st (list_to_set blocks) in
    (forall cacheSize, right (window_New cacheSize)) /\
    forall b windowSize ws, b ∈ blocks -> 0 <= windowSize -> right ws -> exists window ws',
      BlockWindow (gm_genesisHash gm) st daaWindow fuel b windowSize ws = (Ok window, ws') /\
      right ws' /\ (forall firstWindow, right (window_Commit firstWindow ws')) /\
      greatest st windowSize (in_window (gm_genesisHash gm) st b) window /\
      (b <> gm_genesisHash gm -> exists c, chain_start gm st b c /\
        forall x, in_window (gm_genesisHash gm) st b x <-> anc par x b /\ x <> b /\ ~ (anc par x c /\ x <> c)).
Proof.
  intros Henv Hf Hdaa. destruct (ghostdag_all_ok gm par blocks Henv fuel Hf) as (st & Hr & Hok).
  exists st. split; [done|]. cbv zeta. split; [intros c b size h; cbn; rewrite lookup_empty; by intros [?|?]|].
  intros b windowSize ws Hb Hsize Hws. destruct (window_run gm par blocks Henv fuel Hf daaWindow Hdaa st Hok b windowSize ws Hb Hsize Hws)
    as (window & ws' & Hrun & Hws' & Hg).
  exists window, ws'. split; [done|]. split; [done|]. split; [intros first; by apply window_Commit_right|]. split; [done|].
  intros Hbg. destruct (Hok b Hb) as (d & s & n & Hd). destruct (iw_past_minus gm par st (list_to_set blocks) (env_topology _ _ _ Henv)
    (all_works gm par blocks Henv) (all_ok gm par blocks st Hok) b d s n Hd) as (c & Hstart & _ & Hc); [by apply elem_of_list_to_set|done|].
  by exists c.
Qed.

#[local] Existing Instance test_topology.
#[local] Existing Instance test_headers.

Lemma block_window_exact_witness :
  exists st, ghostdag_all test_gm 6 test_blocks ∅ = (Ok tt, st) /\
    let right := cache_right test_gm st (list_to_set test_blocks) in
    (forall cacheSize, right (window_New cacheSize)) /\
    forall b windowSize ws, b ∈ test_blocks -> 0 <= windowSize -> right ws -> exists window ws',
      BlockWindow (test_hash 1) st ∅ 6 b windowSize ws = (Ok window, ws') /\
      right ws' /\ (forall firstWindow, right (window_Commit firstWindow ws')) /\
      greatest st windowSize (in_window (test_hash 1) st b) window /\
      (b <> test_hash 1 -> exists c, chain_start test_gm st b c /\
        forall x, in_window (test_hash 1) st b x <-> anc test_par x b /\ x <> b /\ ~ (anc test_par x c /\ x <> c)).
Proof. apply (block_window_exact test_gm test_par test_blocks 6 ∅ test_env); [cbn; lia|done]. Defined.

(** The window of block 5 is taken from blocks 4, 3 and 2, the merge sets of 5 and
    4, in the order of the heap. *)
Definition test_store : ghostdag_store := snd (ghostdag_all test_gm 6 test_blocks ∅).

Lemma test_windows :
  fst (BlockWindow (test_hash 1) test_store ∅ 6 (test_hash 5) 2 (window_New 5)) = Ok [test_hash 3; test_hash 4] /\
  fst (BlockWindow (test_hash 1) test_store ∅ 6 (test_hash 5) 4 (window_New 5)) = Ok [test_hash 2; test_hash 4; test_hash 3].
Proof. split; vm_compute; reflexivity. Qed.
