(* ===== verification/DaaManager.v ===== *)
(** The components that read block windows: the past median time,
    [src/domain/consensus/processes/pastmediantimemanager/pastmediantimemanager.go],
    and the required difficulty with the DAA score,
    [src/domain/consensus/processes/difficultymanager/difficultymanager.go] and
    [blockwindow.go].

    Both read headers through the header store and windows through the
    traversal manager, whose cache of windows is part of their state. *)

From Stdlib Require Import Sorted.
From stdpp Require Import sorting.
From S2P Require Import Prelude Transaction SigCache TxHash Block Difficulty DaaStore Ghostdag GhostdagMergeSet GhostdagSpec GhostdagDag BlockHeap BlockWindow.

#[local] Existing Instance bucket_eq_dec.
#[local] Existing Instance bucket_countable.

(** * Past median time *)

Record pastMedianTimeManager : Set := mk_pastMedianTimeManager {
  timestampDeviationTolerance : Z;
  pm_genesisHash : bytes
}.

Record median_state : Set := mk_median_state {
  ms_windows : blockWindowHeapSliceStore;
  virtualPastMedianTimeCache : Z
}.

Inductive DaaError : Set :=
| TraversalError (e : GhostdagError)
| EmptyWindow
| DaaStoreError (e : DaaStore.StoreError).

Definition of_traversal {A} (r : res GhostdagError A) : res DaaError A :=
  match r with Ok a => Ok a | Err e => Err (TraversalError e) | Panic => Panic end.

Section managers.
Context `{HS : BlockHeaderStore}.
Variable gd : ghostdag_store.
Variable daaWindow : gmap (bytes * Z) BlockGHOSTDAGDataHashPair.
(** fuel for the walk of a window *)
Variable fuel : nat.

(** A loop that reads something of each block into a slice. *)
Fixpoint read_each {A} (read : bytes -> res DaaError A) (hashes : list bytes) : res DaaError (list A) :=
  match hashes with
  | [] => Ok []
  | blockHash :: rest => let? value := read blockHash in let? values := read_each read rest in Ok (value :: values)
  end.

Definition read_timestamp (blockHash : bytes) : res DaaError Z :=
  let? blockHeader := of_traversal (header_of blockHash) in Ok (hdr_TimeInMilliseconds blockHeader).

(** [sort.Sort] of integers: the sorted list is unique, so any sort will do. *)
Definition windowMedianTimestamp (window : list bytes) : res DaaError Z :=
  if zlen window =? 0 then Err EmptyWindow else
  let? timestamps := read_each read_timestamp window in
  let timestamps := merge_sort Z.le timestamps in
  index_res timestamps (zlen timestamps / 2).

Definition median_window (genesisHash blockHash : bytes) (windowSize : Z) : M DaaError median_state (list bytes) := fun s =>
  let '(window, ws) := BlockWindow genesisHash gd daaWindow fuel blockHash windowSize (ms_windows s) in
  (of_traversal window, mk_median_state ws (virtualPastMedianTimeCache s)).

(** [isVirtual]: the pointer [blockHash] is [model.VirtualBlockHash]. *)
Definition PastMedianTime (pmtm : pastMedianTimeManager) (blockHash : bytes) (isVirtual : bool) : M DaaError median_state Z :=
  let* s := get in
  if isVirtual && negb (virtualPastMedianTimeCache s =? 0) then ret (virtualPastMedianTimeCache s) else
  let* window := median_window (pm_genesisHash pmtm) blockHash (int64 (2 * timestampDeviationTolerance pmtm - 1)) in
  if zlen window =? 0 then
    lift (read_timestamp (pm_genesisHash pmtm))
  else
    let* pastMedianTime := lift (windowMedianTimestamp window) in
    (if isVirtual then modify (fun s => mk_median_state (ms_windows s) pastMedianTime) else ret tt) ;;
    ret pastMedianTime.

Definition InvalidateVirtualPastMedianTimeCache (s : median_state) : median_state := mk_median_state (ms_windows s) 0.

(** * Required difficulty *)

Definition getDifficultyBlock (blockHash : bytes) : res DaaError difficultyBlock :=
  let? header := of_traversal (header_of blockHash) in
  Ok (mk_difficultyBlock (hdr_TimeInMilliseconds header) (hdr_Bits header) blockHash (hdr_BlueWork header)).

Context `{IT : MapIteration}.

(** The windows, and the staging shard and the store of DAA data. *)
Record daa_state := mk_daa_state {
  ds_windows : blockWindowHeapSliceStore;
  ds_shard : daaBlocksStagingShard;
  ds_store : daaBlocksStore
}.

Variable db : gmap (bucket * bytes) bytes.

Abbreviation DM := (M DaaError daa_state).

(** Memory of a negative size panics. *)
Definition blockWindow (dm : difficultyManager) (startingNode : bytes) (windowSize : Z) : DM (list difficultyBlock * list bytes) := fun s =>
  if windowSize <? 0 then (Panic, s) else
  let '(windowHashes, ws) := BlockWindow (dm_genesisHash dm) gd daaWindow fuel startingNode windowSize (ds_windows s) in
  ((let? windowHashes := of_traversal windowHashes in let? window := read_each getDifficultyBlock windowHashes in Ok (window, windowHashes)),
   mk_daa_state ws (ds_shard s) (ds_store s)).

(** The loop over the window, which stops when it has found the whole merge set. *)
Fixpoint daa_added (mergeSet : gset bytes) (windowHashes daaAddedBlocks : list bytes) : list bytes :=
  match windowHashes with
  | [] => daaAddedBlocks
  | hash :: rest =>
      if bool_decide (hash ∈ mergeSet) then
        let daaAddedBlocks := daaAddedBlocks ++ [hash] in
        if zlen daaAddedBlocks =? Z.of_nat (size mergeSet) then daaAddedBlocks else daa_added mergeSet rest daaAddedBlocks
      else daa_added mergeSet rest daaAddedBlocks
  end.

Definition read_score (blockHash : bytes) : DM Z := fun s =>
  let '(daaScore, store) := store_DAAScore db (ds_shard s) blockHash (ds_store s) in
  (match daaScore with Ok daaScore => Ok daaScore | Err e => Err (DaaStoreError e) | Panic => Panic end,
   mk_daa_state (ds_windows s) (ds_shard s) store).

(** A nil selected parent is a nil dereference. *)
Definition calculateDaaScoreAndAddedBlocks (dm : difficultyManager) (blockHash : bytes) (windowHashes : list bytes) (isBlockWithTrustedData : bool)
  : DM (Z * list bytes) :=
  if hash_Equal (Some blockHash) (Some (dm_genesisHash dm)) then
    let* genesisHeader := lift (of_traversal (header_of (dm_genesisHash dm))) in
    ret (hdr_DAAScore genesisHeader, [])
  else
    let* ghostdagData := lift (of_traversal (ghostdag_Get gd (Some blockHash) false)) in
    let mergeSet := list_to_set (MergeSetBlues ghostdagData ++ MergeSetReds ghostdagData) in
    let daaAddedBlocks := daa_added mergeSet windowHashes [] in
    let* daaScore :=
      if isBlockWithTrustedData then read_score blockHash
      else match SelectedParent ghostdagData with
           | None => panic
           | Some selectedParent =>
               let* selectedParentDAAScore := read_score selectedParent in
               ret (uint64 (selectedParentDAAScore + zlen daaAddedBlocks))
           end in
    ret (daaScore, daaAddedBlocks).

Definition stageDAAScoreAndAddedBlocks (dm : difficultyManager) (blockHash : bytes) (windowHashes : list bytes) (isBlockWithTrustedData : bool)
  : DM unit :=
  let* scoreAndAdded := calculateDaaScoreAndAddedBlocks dm blockHash windowHashes isBlockWithTrustedData in
  modify (fun s => mk_daa_state (ds_windows s)
    (StageBlockDAAAddedBlocks (StageDAAScore (ds_shard s) blockHash (fst scoreAndAdded)) blockHash (snd scoreAndAdded)) (ds_store s)).

Definition StageDAADataAndReturnRequiredDifficulty (dm : difficultyManager) (blockHash : bytes) (isBlockWithTrustedData : bool) : DM Z :=
  let* targets := blockWindow dm blockHash (difficultyAdjustmentWindowSize dm) in
  stageDAAScoreAndAddedBlocks dm blockHash (snd targets) isBlockWithTrustedData ;;
  lift (requiredDifficultyFromTargetsWindow dm (fst targets)).

Definition RequiredDifficulty (dm : difficultyManager) (blockHash : bytes) : DM Z :=
  let* targets := blockWindow dm blockHash (difficultyAdjustmentWindowSize dm) in
  lift (requiredDifficultyFromTargetsWindow dm (fst targets)).

End managers.

(** * The blocks a window adds to the DAA score *)

Lemma daa_added_spec mergeSet window : forall added, NoDup (added ++ window) -> (forall y, y ∈ added -> y ∈ mergeSet) ->
  NoDup (daa_added mergeSet window added) /\ forall y, y ∈ daa_added mergeSet window added <-> y ∈ added \/ y ∈ window /\ y ∈ mergeSet.
Proof.
  induction window as [|h window IH]; intros added Hnd Hin; cbn [daa_added].
  { rewrite app_nil_r in Hnd. split; [done|]. intros y. rewrite elem_of_nil. tauto. }
  case_bool_decide as Hh.
  - assert (Hnd' : NoDup ((added ++ [h]) ++ window)) by (by rewrite <- app_assoc).
    assert (Hin' : forall y, y ∈ added ++ [h] -> y ∈ mergeSet).
    { intros y [Hy|Hy]%elem_of_app; [by apply Hin|]. by apply list_elem_of_singleton in Hy as ->. }
    destruct (Z.eqb_spec (zlen (added ++ [h])) (Z.of_nat (size mergeSet))) as [Hz|Hz].
    + apply NoDup_app in Hnd' as (Hn & _ & _). split; [done|]. assert (Heq : list_to_set (added ++ [h]) = mergeSet).
      { apply set_subseteq_size_eq; [intros y; rewrite elem_of_list_to_set; apply Hin'|].
        rewrite size_list_to_set by done. unfold zlen in Hz. lia. }
      intros y. rewrite elem_of_app, list_elem_of_singleton, elem_of_cons. split; [intuition congruence|].
      intros [Hy|[_ Hy]]; [by left|]. rewrite <- Heq, elem_of_list_to_set, elem_of_app, list_elem_of_singleton in Hy. done.
    + destruct (IH _ Hnd' Hin') as [Hn Hiff]. split; [done|]. intros y. rewrite Hiff, elem_of_app, list_elem_of_singleton, elem_of_cons.
      intuition congruence.
  - apply NoDup_app in Hnd as (Hn1 & Hn2 & Hn3). apply NoDup_cons in Hn3 as [Hn3 Hn4].
    destruct (IH added) as [Hn Hiff]; [apply NoDup_app; split_and!; [done|set_solver|done]|done|]. split; [done|].
    intros y. rewrite Hiff, elem_of_cons. intuition congruence.
Qed.

(** * Reading the headers of a window *)

#[local] Instance BlockHeader_inhabited : Inhabited BlockHeader := populate test_header.

Definition header_at `{BlockHeaderStore} (b : bytes) : BlockHeader := match header_of b with Ok h => h | _ => inhabitant end.

Definition time_at `{BlockHeaderStore} (b : bytes) : Z := hdr_TimeInMilliseconds (header_at b).

Definition block_at `{BlockHeaderStore} (b : bytes) : difficultyBlock :=
  mk_difficultyBlock (time_at b) (hdr_Bits (header_at b)) b (hdr_BlueWork (header_at b)).

Lemma read_each_ok {A} (read : bytes -> res DaaError A) (f : bytes -> A) l : (forall b, b ∈ l -> read b = Ok (f b)) ->
  read_each read l = Ok (map f l).
Proof.
  induction l as [|b l IH]; intros Hl; cbn [read_each map]; [done|]. rewrite (Hl b) by left. cbn [bind_res].
  rewrite IH; [done|]. intros x Hx. apply Hl. by right.
Qed.

Section exact.
Context `{T : DAGTopologyManager} `{HS : BlockHeaderStore} (gm : ghostdagManager).
Context (par : bytes -> list bytes) (blocks : list bytes) (Henv : ghostdag_env gm par blocks).
Context (fuel : nat) (Hfuel : (length blocks < fuel)%nat).
Context (daaWindow : gmap (bytes * Z) BlockGHOSTDAGDataHashPair) (Huntrusted : forall b, b ∈ blocks -> daaWindow !! (b, 0) = None).
Context (gd : ghostdag_store) (Hok : forall b, b ∈ blocks -> exists d s n, data_ok gm par gd b d s n).

Abbreviation known := (list_to_set blocks : gset bytes).
Abbreviation right := (cache_right gm gd known).
Abbreviation iw := (in_window (gm_genesisHash gm) gd).

Lemma header_read b : b ∈ blocks -> header_of b = Ok (header_at b) /\ 0 < CompactToBig (hdr_Bits (header_at b)).
Proof.
  intros Hb. destruct (env_headers _ _ _ Henv b Hb) as (h & Hh & Hw). unfold header_at. rewrite Hh. split; [done|].
  unfold CalcWork in Hw. destruct (Z.leb_spec (CompactToBig (hdr_Bits h)) 0); lia.
Qed.

Lemma timestamp_read b : b ∈ blocks -> read_timestamp b = Ok (time_at b).
Proof. intros Hb. unfold read_timestamp. by rewrite (proj1 (header_read b Hb)). Qed.

Lemma block_read b : b ∈ blocks -> getDifficultyBlock b = Ok (block_at b).
Proof. intros Hb. unfold getDifficultyBlock. by rewrite (proj1 (header_read b Hb)). Qed.

(** The timestamp the median is read from, for a window that has blocks. *)
Definition median_of (window : list bytes) : Z :=
  match merge_sort Z.le (map time_at window) !! (length window / 2)%nat with Some t => t | None => time_at (gm_genesisHash gm) end.

Lemma merge_sort_unique l1 l2 : l1 ≡ₚ l2 -> merge_sort Z.le l1 = merge_sort Z.le l2.
Proof.
  intros Hp. apply (StronglySorted_unique Z.le); [apply StronglySorted_merge_sort; apply _..|]. by rewrite !merge_sort_Permutation.
Qed.

Lemma median_of_permutation w1 w2 : w1 ≡ₚ w2 -> median_of w1 = median_of w2.
Proof. intros Hp. unfold median_of. rewrite (Permutation_length Hp). by rewrite (merge_sort_unique _ (map time_at w2)) by by rewrite Hp. Qed.

Lemma windowMedianTimestamp_ok window : window <> [] -> (forall x, x ∈ window -> x ∈ blocks) -> windowMedianTimestamp window = Ok (median_of window).
Proof.
  intros Hne Hin. unfold windowMedianTimestamp. pose proof (zlen_nonneg window) as H0.
  assert (Hpos : 0 < zlen window) by (destruct window; [done|rewrite zlen_cons; pose proof (zlen_nonneg window); lia]).
  rewrite (proj2 (Z.eqb_neq _ _)) by lia. rewrite (read_each_ok _ time_at) by (intros b Hb; by apply timestamp_read, Hin). cbn [bind_res].
  set (l := merge_sort Z.le (map time_at window)). assert (Hl : length l = length window).
  { unfold l. rewrite merge_sort_Permutation. apply length_map. }
  assert (Hlt : (length window / 2 < length l)%nat) by (rewrite Hl; unfold zlen in Hpos; apply Nat.div_lt; lia).
  destruct (lookup_lt_is_Some_2 l _ Hlt) as [t Ht]. unfold median_of. fold l. rewrite Ht.
  assert (Hi : zlen l / 2 = Z.of_nat (length window / 2)) by (unfold zlen; rewrite Hl, Nat2Z.inj_div; done).
  unfold index_res, lookupZ. rewrite Hi, (proj2 (Z.leb_le _ _)), Nat2Z.id, Ht by lia. done.
Qed.

(** What the cached median of the virtual block may be. *)
Definition virtual_right (isVirtual : bool) (t : Z) (s : median_state) : Prop :=
  isVirtual = true -> virtualPastMedianTimeCache s = 0 \/ virtualPastMedianTimeCache s = t.

Lemma PastMedianTime_run pmtm b window isVirtual s : b ∈ blocks -> pm_genesisHash pmtm = gm_genesisHash gm ->
  0 < timestampDeviationTolerance pmtm < 2 ^ 62 ->
  greatest gd (2 * timestampDeviationTolerance pmtm - 1) (iw b) window ->
  right (ms_windows s) -> virtual_right isVirtual (median_of window) s ->
  exists s', PastMedianTime gd daaWindow fuel pmtm b isVirtual s = (Ok (median_of window), s') /\ right (ms_windows s') /\
    virtual_right isVirtual (median_of window) s' /\ (isVirtual = false -> virtualPastMedianTimeCache s' = virtualPastMedianTimeCache s).
Proof.
  intros Hb Hg Htol Hgr Hws Hv. unfold PastMedianTime. erewrite bind_ok by reflexivity. cbv beta.
  destruct (isVirtual && negb (virtualPastMedianTimeCache s =? 0)) eqn:Hc.
  { apply andb_prop in Hc as [-> Hc]. apply negb_true_iff, Z.eqb_neq in Hc. exists s. split; [|done].
    destruct (Hv eq_refl) as [|Ht]; [done|]. by rewrite Ht. }
  assert (Hint : int64 (2 * timestampDeviationTolerance pmtm - 1) = 2 * timestampDeviationTolerance pmtm - 1) by (apply int64_id; lia).
  rewrite Hint, Hg.
  destruct (window_run gm par blocks Henv fuel Hfuel daaWindow Huntrusted gd Hok b (2 * timestampDeviationTolerance pmtm - 1) (ms_windows s))
    as (window' & ws' & Hrun & Hws' & Hgr'); [done|lia|done|].
  pose proof (greatest_unique _ _ _ _ _ Hgr' Hgr) as Hp. rewrite <- (median_of_permutation _ _ Hp) in *.
  assert (Hin : forall x, x ∈ window' -> x ∈ blocks) by (intros x; by eapply window_known).
  erewrite bind_ok by (unfold median_window; rewrite Hrun; reflexivity). cbv beta.
  destruct window' as [|x window'].
  - cbn [zlen length]. exists (mk_median_state ws' (virtualPastMedianTimeCache s)). split; [|split; [done|split; [exact Hv|done]]].
    change (zlen [] =? 0) with true. cbn iota. unfold lift. rewrite timestamp_read; [done|].
    apply list_elem_of_lookup. exists 0%nat. pose proof (dag_genesis _ _ _ (env_order _ _ _ Henv)) as Hh. by destruct blocks.
  - rewrite (proj2 (Z.eqb_neq _ _)) by (rewrite zlen_cons; pose proof (zlen_nonneg window'); lia).
    erewrite bind_ok by (unfold lift; rewrite windowMedianTimestamp_ok by done; reflexivity). cbv beta. destruct isVirtual.
    + eexists. split; [reflexivity|]. split; [done|]. split; [intros _; by right|done].
    + eexists. split; [reflexivity|]. split; [done|]. split; [by intros ?|done].
Qed.

(** * Difficulty and DAA score *)

Context `{IT : MapIteration} (db : gmap (bucket * bytes) bytes) (dm : difficultyManager).
Context (Hdm : dm_genesisHash dm = gm_genesisHash gm) (Hsize : 0 <= difficultyAdjustmentWindowSize dm).

Lemma blockWindow_run b s : b ∈ blocks -> right (ds_windows s) -> exists window ws',
  blockWindow gd daaWindow fuel dm b (difficultyAdjustmentWindowSize dm) s =
    (Ok (map block_at window, window), mk_daa_state ws' (ds_shard s) (ds_store s)) /\
  right ws' /\ greatest gd (difficultyAdjustmentWindowSize dm) (iw b) window.
Proof.
  intros Hb Hws. destruct (window_run gm par blocks Henv fuel Hfuel daaWindow Huntrusted gd Hok b _ (ds_windows s) Hb Hsize Hws)
    as (window & ws' & Hrun & Hws' & Hg).
  exists window, ws'. split; [|done]. unfold blockWindow. rewrite (proj2 (Z.ltb_ge _ _)) by lia. rewrite Hdm, Hrun. cbn [of_traversal bind_res].
  rewrite (read_each_ok _ block_at); [done|]. intros x Hx. apply block_read. by eapply window_known.
Qed.

Context (Htime : forall b, b ∈ blocks -> time_at b < 2 ^ 63).
Context (Hms : 0 < Milliseconds (targetTimePerBlock dm)) (Hmax : 0 < powMax dm < 2 ^ 2016).

(** Any two listings of the window give the same difficulty. *)
Lemma bits_agree b w1 w2 : b ∈ blocks -> greatest gd (difficultyAdjustmentWindowSize dm) (iw b) w1 ->
  greatest gd (difficultyAdjustmentWindowSize dm) (iw b) w2 ->
  requiredDifficultyFromTargetsWindow (E := DaaError) dm (map block_at w1) = requiredDifficultyFromTargetsWindow dm (map block_at w2) /\
  exists bits, requiredDifficultyFromTargetsWindow (E := DaaError) dm (map block_at w1) = Ok bits /\
    (bits = genesisBits dm \/ 0 <= CompactToBig bits <= powMax dm).
Proof.
  intros Hb H1 H2. assert (Hall : forall f : bytes -> Prop, (forall x, x ∈ blocks -> f x) -> Forall f w1).
  { intros f Hf. apply Forall_forall. intros x Hx. apply Hf. by apply (window_known gm par blocks Henv gd Hok b _ w1 x Hb H1). }
  assert (Hhash : map db_hash (map block_at w1) = w1) by (rewrite map_map; apply map_id).
  apply required_permutation; [|by rewrite Hhash; apply H1| | |done|done].
  - by rewrite (greatest_unique _ _ _ _ _ H1 H2).
  - apply Forall_fmap, Hall. intros x Hx. by apply Htime.
  - apply Forall_fmap, Hall. intros x Hx. by apply header_read.
Qed.

Lemma calculateDaaScore_run b d p x window scores added s : gd !! (b, false) = Some d -> SelectedParent d = Some p -> b <> gm_genesisHash gm ->
  NoDup window -> store_ok scores added db (ds_store s) -> (daaScoreToAdd (ds_shard s) ∪ scores) !! p = Some x ->
  let added_ := daa_added (list_to_set (MergeSetBlues d ++ MergeSetReds d)) window [] in
  exists store', calculateDaaScoreAndAddedBlocks gd db dm b window false s =
    (Ok (uint64 (x + zlen added_), added_), mk_daa_state (ds_windows s) (ds_shard s) store') /\ store_ok scores added db store'.
Proof.
  intros Hd Hp Hb Hnd Hst Hx. cbv zeta. destruct (store_DAAScore_ok scores added db (ds_store s) (ds_shard s) p Hst) as (store' & Hread & Hst').
  rewrite Hx in Hread. exists store'. split; [|done]. unfold calculateDaaScoreAndAddedBlocks, hash_Equal. rewrite Hdm.
  rewrite bool_decide_false by congruence. erewrite bind_ok by (unfold lift, ghostdag_Get; rewrite Hd; reflexivity). cbv beta. rewrite Hp.
  assert (Hrs : read_score db p s = (Ok x, mk_daa_state (ds_windows s) (ds_shard s) store')) by (unfold read_score; by rewrite Hread).
  erewrite bind_ok by (erewrite bind_ok by exact Hrs; reflexivity). done.
Qed.

Lemma StageDAAData_run b d p w0 bits x scores added s : b ∈ blocks -> gd !! (b, false) = Some d -> SelectedParent d = Some p -> b <> gm_genesisHash gm ->
  greatest gd (difficultyAdjustmentWindowSize dm) (iw b) w0 -> requiredDifficultyFromTargetsWindow (E := DaaError) dm (map block_at w0) = Ok bits ->
  right (ds_windows s) -> store_ok scores added db (ds_store s) -> (daaScoreToAdd (ds_shard s) ∪ scores) !! p = Some x ->
  fst (RequiredDifficulty gd daaWindow fuel dm b s) = Ok bits /\
  exists s' addedBlocks, StageDAADataAndReturnRequiredDifficulty gd daaWindow fuel db dm b false s = (Ok bits, s') /\
    right (ds_windows s') /\ store_ok scores added db (ds_store s') /\
    ds_shard s' = StageBlockDAAAddedBlocks (StageDAAScore (ds_shard s) b (uint64 (x + zlen addedBlocks))) b addedBlocks /\
    NoDup addedBlocks /\ forall y, y ∈ addedBlocks <-> y ∈ w0 /\ y ∈ MergeSetBlues d ++ MergeSetReds d.
Proof.
  intros Hb Hd Hp Hbg Hg0 Hbits Hws Hst Hx. destruct (blockWindow_run b s Hb Hws) as (window & ws' & Hrun & Hws' & Hg).
  pose proof (greatest_unique _ _ _ _ _ Hg Hg0) as Hperm. destruct (bits_agree b w0 window Hb Hg0 Hg) as [Hsame _]. rewrite Hbits in Hsame.
  split.
  { unfold RequiredDifficulty. erewrite bind_ok by exact Hrun. cbn [fst lift]. by rewrite <- Hsame. }
  destruct (calculateDaaScore_run b d p x window scores added (mk_daa_state ws' (ds_shard s) (ds_store s))) as (store' & Hcalc & Hst');
    [done|done|done|apply Hg|done|done|].
  set (addedBlocks := daa_added (list_to_set (MergeSetBlues d ++ MergeSetReds d)) window []) in *.
  destruct (daa_added_spec (list_to_set (MergeSetBlues d ++ MergeSetReds d)) window []) as [Hnd Hadded]; [apply Hg|by intros y ?%not_elem_of_nil|].
  eexists. exists addedBlocks. split; [|split; [|split; [|split; [|split]]]].
  - unfold StageDAADataAndReturnRequiredDifficulty. erewrite bind_ok by exact Hrun. cbn [fst snd].
    erewrite bind_ok by (unfold stageDAAScoreAndAddedBlocks; erewrite bind_ok by exact Hcalc; reflexivity). unfold lift. rewrite <- Hsame. reflexivity.
  - done.
  - done.
  - done.
  - done.
  - intros y. unfold addedBlocks. rewrite Hadded, Hperm, elem_of_list_to_set, elem_of_nil. tauto.
Qed.

End exact.

(** C26: The past median time does not depend on what is cached.  It is the
    middle of the sorted timestamps of the window, the [2 * tolerance - 1]
    greatest blocks of the past, or the genesis time when the window is empty;
    a node returns it from any cache of right windows, and for the virtual
    block also from its own cache, which stays right. *)
Theorem past_median_time_exact `{DAGTopologyManager} `{BlockHeaderStore} gm par blocks fuel daaWindow pmtm :
  ghostdag_env gm par blocks -> (length blocks < fuel)%nat -> (forall b, b ∈ blocks -> daaWindow !! (b, 0) = None) ->
  pm_genesisHash pmtm = gm_genesisHash gm -> 0 < timestampDeviationTolerance pmtm < 2 ^ 62 ->
  exists st, ghostdag_all gm fuel blocks ∅ = (Ok tt, st) /\
    let right := cache_right gm st (list_to_set blocks) in
    forall b, b ∈ blocks -> exists window timestamps t,
      greatest st (2 * timestampDeviationTolerance pmtm - 1) (in_window (gm_genesisHash gm) st b) window /\
      timestamps ≡ₚ map time_at window /\ StronglySorted Z.le timestamps /\
      t = default (time_at (gm_genesisHash gm)) (timestamps !! (length timestamps / 2)%nat) /\
      forall isVirtual s, right (ms_windows s) -> virtual_right isVirtual t s ->
        exists s', PastMedianTime st daaWindow fuel pmtm b isVirtual s = (Ok t, s') /\ right (ms_windows s') /\
          virtual_right isVirtual t s' /\ (isVirtual = false -> virtualPastMedianTimeCache s' = virtualPastMedianTimeCache s).
Proof.
  intros Henv Hf Hdaa Hg Htol. destruct (ghostdag_all_ok gm par blocks Henv fuel Hf) as (st & Hr & Hok). exists st. split; [done|].
  cbv zeta. intros b Hb. destruct (window_run gm par blocks Henv fuel Hf daaWindow Hdaa st Hok b (2 * timestampDeviationTolerance pmtm - 1) (window_New 0))
    as (window & _ & _ & _ & Hgr); [done|lia|intros x size h; cbn; rewrite lookup_empty; by intros [?|?]|].
  exists window, (merge_sort Z.le (map time_at window)), (median_of gm window). split; [done|].
  split; [apply merge_sort_Permutation|]. split; [apply StronglySorted_merge_sort; apply _|]. split.
  - unfold median_of. rewrite (Permutation_length (merge_sort_Permutation Z.le (map time_at window))), length_map. by destruct (_ !! _).
  - intros isVirtual s Hs Hv. by apply (PastMedianTime_run gm par blocks Henv fuel Hf daaWindow Hdaa st Hok).
Qed.


(** * Witnesses on the test DAG *)

#[local] Existing Instance test_topology.
#[local] Existing Instance test_headers.

Definition test_pmtm : pastMedianTimeManager := mk_pastMedianTimeManager 2 (test_hash 1).

Lemma past_median_time_exact_witness :
  exists st, ghostdag_all test_gm 6 test_blocks ∅ = (Ok tt, st) /\
    let right := cache_right test_gm st (list_to_set test_blocks) in
    forall b, b ∈ test_blocks -> exists window timestamps t,
      greatest st 3 (in_window (test_hash 1) st b) window /\
      timestamps ≡ₚ map time_at window /\ StronglySorted Z.le timestamps /\
      t = default (time_at (test_hash 1)) (timestamps !! (length timestamps / 2)%nat) /\
      forall isVirtual s, right (ms_windows s) -> virtual_right isVirtual t s ->
        exists s', PastMedianTime st ∅ 6 test_pmtm b isVirtual s = (Ok t, s') /\ right (ms_windows s') /\
          virtual_right isVirtual t s' /\ (isVirtual = false -> virtualPastMedianTimeCache s' = virtualPastMedianTimeCache s).
Proof. apply (past_median_time_exact test_gm test_par test_blocks 6 ∅ test_pmtm test_env); [cbn; lia|done|done|cbn; lia]. Defined.

Definition test_dm : difficultyManager := mk_difficultyManager (2 ^ 255 - 1) 2 false 1000000000 (test_hash 1) 0x207fffff.

Definition first_elements : MapIteration.
Proof.
  refine {| firstKey := fun V _ m => head (map fst (map_to_list m)) |}.
  - intros V _ m. rewrite <- (map_to_list_empty_iff m). by destruct (map_to_list m).
  - intros V _ m k Hk. destruct (map_to_list m) as [|[k' v] l] eqn:E; cbn in Hk; [done|]. simplify_eq.
    exists v. apply elem_of_map_to_list. rewrite E. left.
Defined.

#[local] Existing Instance first_elements.


(** A run: block 5 merges block 4, which is in its window, so its DAA score is
    one above that of block 4. *)
Definition test_daa : daa_state := mk_daa_state (window_New 5) (StageDAAScore stagingShard (test_hash 4) 7) (store_New 5 5).

Definition daa_summary (b : bytes) (r : res DaaError Z * daa_state) : option Z * option Z * option (list bytes) :=
  (match fst r with Ok bits => Some bits | _ => None end, daaScoreToAdd (ds_shard (snd r)) !! b, daaAddedBlocksToAdd (ds_shard (snd r)) !! b).

Lemma test_daa_run :
  daa_summary (test_hash 5) (StageDAADataAndReturnRequiredDifficulty test_store ∅ 6 ∅ test_dm (test_hash 5) false test_daa) =
  (Some 0x2000a3d7, Some 8, Some [test_hash 4]).
Proof. vm_compute. reflexivity. Qed.
