(* ===== verification/MergeDepth.v ===== *)
(** Finality points and bounded merge depth.
    [src/domain/consensus/processes/finalitymanager/finality_manager.go] and
    [src/domain/consensus/processes/mergedepthmanager/merge_depth_manager.go].

    The two stores of points are the maps of what they hold, staged or
    committed.  The virtual block is recognised by its pointer in the topology
    manager, so the calculations take whether the block is the virtual one.
    The walk up the selected chain takes fuel. *)

From Stdlib Require Import Sorted.
From S2P Require Import Prelude Transaction SigHash Block Difficulty TxMass Ghostdag GhostdagMergeSet GhostdagSpec ReachInterval.
From S2P Require Import Reachability Reindex ReachTree ReindexCount ReindexPropagate ReindexReclaim ReindexChain ReindexAdd ReachAdd.
From S2P Require Import ReachFuture ReachConcentrate ReachRoot ReachRun DagTopology HeaderTips BlockValidator HeaderInsert HeaderInv.
From S2P Require Import HeaderStep HeaderSpec HeaderRun.

Inductive DepthError : Set :=
| DepthGhostdag (e : GhostdagError)
| DepthTopology (e : TopologyError)
| PruningPointNotFound
| FinalityPointNotFound
| ErrViolatingBoundedMergeDepth
| DepthOutOfFuel.

Definition of_ghostdag {A} (r : res GhostdagError A) : res DepthError A := of_error DepthGhostdag r.
Definition of_topology {A} (r : res TopologyError A) : res DepthError A := of_error DepthTopology r.

Record depth_stores : Set := mk_depth_stores {
  finality_points : gmap bytes bytes;
  merge_depth_roots : gmap bytes bytes
}.

Abbreviation DS := (M DepthError depth_stores).

Section depth.
Variable genesisHash : bytes.
Variables finalityDepth mergeDepth : Z.
Variable gd : ghostdag_store.
Variable st : reach_store.
Variable pruningPointOfStore : option bytes.
Variable fuel : nat.

Definition PruningPoint : res DepthError bytes :=
  match pruningPointOfStore with Some p => Ok p | None => Err PruningPointNotFound end.

(** The loop up the selected chain of [blockHash] from [current]: the last block
    before the required blue score. *)
Fixpoint walk_up (n : nat) (requiredBlueScore : Z) (current blockHash : bytes) (isVirtual : bool) : res DepthError bytes :=
  match n with
  | O => Err DepthOutOfFuel
  | S n =>
      let? next := of_topology (ChildInSelectedParentChainOf gd st current blockHash isVirtual) in
      let? nextGHOSTDAGData := of_ghostdag (ghostdag_Get gd (Some next) false) in
      if BlueScore nextGHOSTDAGData >=? requiredBlueScore then Ok current else walk_up n requiredBlueScore next blockHash isVirtual
  end.

(** ** finality_manager.go *)

Definition calculateFinalityPoint (ds : depth_stores) (blockHash : bytes) (isVirtual isBlockWithTrustedData : bool) : res DepthError bytes :=
  if isBlockWithTrustedData then Ok VirtualGenesisBlockHash else
  let? ghostdagData := of_ghostdag (ghostdag_Get gd (Some blockHash) false) in
  if BlueScore ghostdagData <? finalityDepth then Ok genesisHash else
  let? pruningPoint := PruningPoint in
  let? pruningPointGhostdagData := of_ghostdag (ghostdag_Get gd (Some pruningPoint) false) in
  if BlueScore ghostdagData <? uint64 (BlueScore pruningPointGhostdagData + finalityDepth) then Ok VirtualGenesisBlockHash else
  let? isPruningPointOnChain := of_topology (IsInSelectedParentChainOf gd st pruningPoint blockHash isVirtual) in
  if negb isPruningPointOnChain then Ok VirtualGenesisBlockHash else
  if hash_Equal (SelectedParent ghostdagData) (Some genesisHash) then Ok genesisHash else
  match SelectedParent ghostdagData with
  | None => Panic
  | Some selectedParent =>
      match finality_points ds !! selectedParent with
      | None => Err FinalityPointNotFound
      | Some current =>
          let current := if hash_Equal (Some current) (Some VirtualGenesisBlockHash) then pruningPoint else current in
          let requiredBlueScore := uint64 (BlueScore ghostdagData - finalityDepth) in
          walk_up fuel requiredBlueScore current blockHash isVirtual
      end
  end.

Definition VirtualFinalityPoint : DS bytes :=
  let* ds := get in lift (calculateFinalityPoint ds VirtualBlockHash true false).

Definition calculateAndStageFinalityPoint (blockHash : bytes) (isBlockWithTrustedData : bool) : DS bytes :=
  let* ds := get in
  let* finalityPoint := lift (calculateFinalityPoint ds blockHash false isBlockWithTrustedData) in
  modify (fun ds => mk_depth_stores (<[blockHash := finalityPoint]> (finality_points ds)) (merge_depth_roots ds)) ;;
  ret finalityPoint.

Definition FinalityPoint (blockHash : bytes) (isBlockWithTrustedData : bool) : DS bytes :=
  if hash_Equal (Some blockHash) (Some VirtualBlockHash) then VirtualFinalityPoint else
  let* ds := get in
  match finality_points ds !! blockHash with
  | Some finalityPoint => ret finalityPoint
  | None => calculateAndStageFinalityPoint blockHash isBlockWithTrustedData
  end.

(** ** merge_depth_manager.go *)

Definition calculateMergeDepthRoot (ds : depth_stores) (blockHash : bytes) (isVirtual isBlockWithTrustedData : bool) : res DepthError bytes :=
  if isBlockWithTrustedData then Ok VirtualGenesisBlockHash else
  let? ghostdagData := of_ghostdag (ghostdag_Get gd (Some blockHash) false) in
  if BlueScore ghostdagData <? mergeDepth then Ok genesisHash else
  let? pruningPoint := PruningPoint in
  let? pruningPointGhostdagData := of_ghostdag (ghostdag_Get gd (Some pruningPoint) false) in
  if BlueScore ghostdagData <? uint64 (BlueScore pruningPointGhostdagData + mergeDepth) then Ok VirtualGenesisBlockHash else
  let? isPruningPointOnChain := of_topology (IsInSelectedParentChainOf gd st pruningPoint blockHash isVirtual) in
  if negb isPruningPointOnChain then Ok VirtualGenesisBlockHash else
  if hash_Equal (SelectedParent ghostdagData) (Some genesisHash) then Ok genesisHash else
  match SelectedParent ghostdagData with
  | None => Panic
  | Some selectedParent =>
      let? current :=
        match merge_depth_roots ds !! selectedParent with
        | Some root => Ok root
        | None => match finality_points ds !! selectedParent with Some point => Ok point | None => Err FinalityPointNotFound end
        end in
      let current := if hash_Equal (Some current) (Some VirtualGenesisBlockHash) then pruningPoint else current in
      let requiredBlueScore := uint64 (BlueScore ghostdagData - mergeDepth) in
      walk_up fuel requiredBlueScore current blockHash isVirtual
  end.

Definition VirtualMergeDepthRoot : DS bytes :=
  let* ds := get in lift (calculateMergeDepthRoot ds VirtualBlockHash true false).

Definition calculateAndStageMergeDepthRoot (blockHash : bytes) (isBlockWithTrustedData : bool) : DS bytes :=
  let* ds := get in
  let* root := lift (calculateMergeDepthRoot ds blockHash false isBlockWithTrustedData) in
  modify (fun ds => mk_depth_stores (finality_points ds) (<[blockHash := root]> (merge_depth_roots ds))) ;;
  ret root.

Definition MergeDepthRoot (blockHash : bytes) (isBlockWithTrustedData : bool) : DS bytes :=
  if hash_Equal (Some blockHash) (Some VirtualBlockHash) then VirtualMergeDepthRoot else
  let* ds := get in
  match merge_depth_roots ds !! blockHash with
  | Some root => ret root
  | None => calculateAndStageMergeDepthRoot blockHash isBlockWithTrustedData
  end.

Fixpoint blues_above (mergeDepthRoot : bytes) (blues : list bytes) : res DepthError (list bytes) :=
  match blues with
  | [] => Ok []
  | blue :: rest =>
      let? isMergeDepthRootInSelectedChainOfBlue := of_topology (IsInSelectedParentChainOf gd st mergeDepthRoot blue false) in
      let? nonViolating := blues_above mergeDepthRoot rest in
      Ok (if isMergeDepthRootInSelectedChainOfBlue : bool then blue :: nonViolating else nonViolating)
  end.

Definition NonBoundedMergeDepthViolatingBlues (blockHash mergeDepthRoot : bytes) : res DepthError (list bytes) :=
  let? ghostdagData := of_ghostdag (ghostdag_Get gd (Some blockHash) false) in
  blues_above mergeDepthRoot (MergeSetBlues ghostdagData).

Fixpoint check_reds (mergeDepthRoot : bytes) (nonBoundedMergeDepthViolatingBlues reds : list bytes) : res DepthError unit :=
  match reds with
  | [] => Ok tt
  | red :: rest =>
      let? doesRedHaveMergeRootInPast := of_topology (dtm_IsAncestorOf st mergeDepthRoot red) in
      if doesRedHaveMergeRootInPast : bool then check_reds mergeDepthRoot nonBoundedMergeDepthViolatingBlues rest else
      let? isRedInPastOfAnyNonMergeDepthViolatingBlue := of_topology (IsAncestorOfAny st red nonBoundedMergeDepthViolatingBlues) in
      if negb isRedInPastOfAnyNonMergeDepthViolatingBlue then Err ErrViolatingBoundedMergeDepth
      else check_reds mergeDepthRoot nonBoundedMergeDepthViolatingBlues rest
  end.

Definition CheckBoundedMergeDepth (blockHash : bytes) (isBlockWithTrustedData : bool) : DS unit :=
  let* ghostdagData := lift (of_ghostdag (ghostdag_Get gd (Some blockHash) false)) in
  match SelectedParent ghostdagData with
  | None => ret tt
  | Some _ =>
      let* mergeDepthRoot := MergeDepthRoot blockHash isBlockWithTrustedData in
      FinalityPoint blockHash isBlockWithTrustedData ;;
      let* nonBoundedMergeDepthViolatingBlues := lift (NonBoundedMergeDepthViolatingBlues blockHash mergeDepthRoot) in
      lift (check_reds mergeDepthRoot nonBoundedMergeDepthViolatingBlues (MergeSetReds ghostdagData))
  end.

End depth.

(** * Selected chains of the accepted headers *)

Section facts.
Context `{C : Crypto}.
Variable gm : ghostdagManager.
Variable rt : reachabilityManager.
Variable hdr : bytes -> BlockHeader.
Abbreviation g := (gm_genesisHash gm).
Abbreviation v := VirtualGenesisBlockHash.
Abbreviation par := (par hdr).
Abbreviation par_v := (par_v gm hdr).
Variables (acc : list bytes) (s : headers_state) (t : tree).
Context (Hok : headers_ok gm rt hdr acc s t).
Abbreviation gd := (hs_ghostdag s).
Abbreviation st := (hs_reach s).
Abbreviation below := (rtc (selects gd)).

Definition score_of (gd : ghostdag_store) (b : bytes) : Z := match gd !! (b, false) with Some d => BlueScore d | None => 0 end.
Abbreviation score := (score_of gd).

Lemma acc_data b : b ∈ acc -> exists d bs n, gd !! (b, false) = Some d /\ score b = BlueScore d /\ @data_ok (topology_of s) (all_headers hdr) gm par gd b d bs n.
Proof.
  intros Hb. destruct (hk_data _ _ _ _ _ _ Hok b Hb) as (d & bs & n & Hd). pose proof (data_ok_lookup _ _ _ _ _ _ _ Hd) as Hl.
  exists d, bs, n. unfold score_of. by rewrite Hl.
Qed.

Lemma score_bounds b : b ∈ acc -> 0 <= score b <= zlen acc.
Proof.
  intros Hb. destruct (acc_data b Hb) as (d & bs & n & _ & -> & Hd).
  assert (Hbk : b ∈ (list_to_set acc : gset bytes)) by (by apply elem_of_list_to_set).
  pose proof (own_topology gm rt hdr acc s t Hok) as Htop.
  rewrite (@score_size (topology_of s) (all_headers hdr) gm par (list_to_set acc) gd Htop) with (b := b) (s := bs) (n := n); [|by intros x; eapply headers_work|
    by intros x; eapply all_data|done|done].
  assert (Hsub : bs ⊆ list_to_set acc).
  { intros x Hx. apply elem_of_list_to_set, (past_known gm hdr acc x b); [apply Hok|done|].
    by apply (@blue_anc (topology_of s) (all_headers hdr) gm par gd b d bs n). }
  apply subseteq_size in Hsub. rewrite size_list_to_set in Hsub by apply Hok. unfold zlen. lia.
Qed.

Lemma selects_parent p b : b ∈ acc -> b <> g -> selects gd p b -> p ∈ acc /\ p ∈ par b /\ score p < score b.
Proof.
  intros Hb Hbg (d' & Hd' & Hp). destruct (acc_data b Hb) as (d & bs & n & Hl & -> & Hd). assert (d' = d) as -> by congruence.
  destruct (@data_ok_block (topology_of s) (all_headers hdr) gm par gd b d bs n Hd Hbg) as (p' & rest & dp & _ & Hdp & Hm & Hs).
  assert (p' = p) as -> by (rewrite (mg_parent _ _ _ _ _ _ _ Hm) in Hp; congruence).
  assert (Hin : p ∈ par b) by apply Hm. assert (Hpa : p ∈ acc) by (by apply (kb_closed _ _ _ (hk_blocks _ _ _ _ _ _ Hok) b)).
  split_and!; [done|done|]. unfold score_of. rewrite Hdp, Hs, (mg_blues _ _ _ _ _ _ _ Hm), zlen_cons. pose proof (zlen_nonneg rest). lia.
Qed.

Lemma selects_genesis p : selects gd p g -> p = v.
Proof.
  intros (d' & Hd' & Hp). destruct (acc_data g) as (d & bs & n & Hl & _ & Hd); [apply Hok|]. assert (d' = d) as -> by congruence.
  inversion Hd as [d0 H1 H2 Hbd|? ? ? ? ? ? ? ? Hne]; subst; [|done].
  destruct (bd_selected _ Hbd) as [E|E]; rewrite E in Hp; congruence.
Qed.

Lemma selects_virtual p : ~ selects gd p v.
Proof. intros (d & Hd & Hp). rewrite (go_data _ _ (hk_base _ _ _ _ _ _ Hok)) in Hd. injection Hd as <-. done. Qed.

Lemma below_acc x b : b ∈ acc -> below x b -> x ∈ acc \/ x = v.
Proof.
  intros Hb. revert x. apply (rtc_ind_l (fun x => x ∈ acc \/ x = v) b); [by left|]. intros x y Hxy _ [Hy| ->]; [|by apply selects_virtual in Hxy].
  destruct (decide (y = g)) as [->|Hyg]; [right; by apply selects_genesis|left; by eapply selects_parent].
Qed.

Lemma score_below x b : x ∈ acc -> b ∈ acc -> below x b -> score x <= score b /\ (x <> b -> score x < score b).
Proof.
  intros Hx Hb Hxb. revert b Hxb Hb. apply (rtc_ind_r (fun b => b ∈ acc -> score x <= score b /\ (x <> b -> score x < score b)) x).
  { intros _. split; [lia|done]. }
  intros y b Hxy Hyb IH Hb. destruct (decide (b = g)) as [->|Hbg].
  - apply selects_genesis in Hyb as ->. apply rtc_inv_r in Hxy as [->|(z & _ & Hz)]; [|by apply selects_virtual in Hz].
    by destruct (kb_virtual _ _ _ (hk_blocks _ _ _ _ _ _ Hok)).
  - destruct (selects_parent y b Hb Hbg Hyb) as (Hya & _ & Hs). destruct (IH Hya). lia.
Qed.

Lemma selects_inj p q b : selects gd p b -> selects gd q b -> p = q.
Proof. intros (d & Hd & Hp) (d' & Hd' & Hq). congruence. Qed.

(** The blocks below a block are in a line. *)
Lemma below_linear x y b : below x b -> below y b -> below x y \/ below y x.
Proof.
  intros Hx Hy. revert b Hy x Hx. apply (rtc_ind_r (fun b => forall x, below x b -> below x y \/ below y x) y); [by left|].
  intros z b Hyz Hzb IH x Hx.
  apply rtc_inv_r in Hx as [->|(w & Hxw & Hwb)]; [right; by eapply rtc_r|]. rewrite (selects_inj w z b) in Hxw by done. by apply IH.
Qed.

Lemma chain_known x y : x ∈ acc -> y ∈ acc -> exists r, IsInSelectedParentChainOf gd st x y false = Ok r /\ (r = true <-> below x y).
Proof.
  intros Hx Hy. destruct (hk_run _ _ _ _ _ _ Hok) as (known & tips & Hp & Hr & _).
  assert (Hn : forall z, z ∈ acc -> z ∈ nodes t) by (intros z Hz; rewrite (ru_known _ _ _ _ _ _ _ Hr), Hp; by right).
  destruct (tree_query rt st t x y (da_reach _ _ _ _ (ru_dag _ _ _ _ _ _ _ Hr)) (Hn x Hx) (Hn y Hy)) as (r & Hq & Hiff).
  exists r. unfold IsInSelectedParentChainOf. cbn [bind_res]. rewrite Hq. split; [done|]. rewrite Hiff.
  apply (chain_selects rt par_v gd (hk_base _ _ _ _ _ _ Hok) known tips st t Hr x y (Hn y Hy)).
Qed.

Lemma child_known x y : x ∈ acc -> y ∈ acc -> x <> y -> below x y ->
  exists c, ChildInSelectedParentChainOf gd st x y false = Ok c /\ selects gd x c /\ below c y.
Proof.
  intros Hx Hy Hne Hxy. destruct (chain_known x y Hx Hy) as (r & Hq & Hiff). apply Hiff in Hxy as Hr'. subst r.
  destruct (hk_run _ _ _ _ _ _ Hok) as (known & tips & Hp & Hr & _).
  assert (Hn : forall z, z ∈ acc -> z ∈ nodes t) by (intros z Hz; rewrite (ru_known _ _ _ _ _ _ _ Hr), Hp; by right).
  destruct (next_in_chain rt par_v gd (hk_base _ _ _ _ _ _ Hok) known tips st t Hr x y (Hn x Hx) (Hn y Hy) Hne Hxy) as (c & Hc & Hs & Hcy).
  exists c. unfold ChildInSelectedParentChainOf. rewrite Hq. cbn [bind_res negb]. by rewrite Hc.
Qed.

Lemma genesis_chain b : b ∈ acc -> below g b.
Proof.
  intros Hb. destruct (acc_data b Hb) as (d & bs & n & _ & _ & Hd).
  induction Hd as [d Hg Hp Hbd|b d p rest dp sp np Hd Hne Hpd IH Hm Hs Hw Hr]; [constructor|].
  assert (Hsel : selects gd p b) by (exists d; split; [done|apply Hm]). eapply rtc_r; [|exact Hsel]. apply IH. by eapply selects_parent.
Qed.

(** * The block at a depth *)

(** [r] is the last block of the selected chain of [b] that is more than [depth]
    below it in blue score, or the genesis. *)
Record at_depth (depth : Z) (b r : bytes) : Prop := {
  ad_known : r ∈ acc;
  ad_chain : below r b;
  ad_low : score r < score b - depth \/ r = g;
  ad_high : forall x, below r x -> below x b -> x <> r -> score b - depth <= score x
}.

(** So there is only one. *)
Lemma at_depth_unique depth b r1 r2 : b ∈ acc -> at_depth depth b r1 -> at_depth depth b r2 -> r1 = r2.
Proof.
  intros Hb. assert (Hlt : forall r1 r2, at_depth depth b r1 -> at_depth depth b r2 -> below r1 r2 -> r1 = r2).
  { intros x y [X1 X2 X3 X4] [Y1 Y2 Y3 Y4] Hxy. destruct (decide (x = y)) as [|Hne]; [done|exfalso].
    destruct Y3 as [Hy| ->]; [pose proof (X4 y Hxy Y2 ltac:(congruence)); lia|].
    destruct (score_below x g) as [_ Hs]; [done|apply Hok|done|]. pose proof (score_below g x ltac:(apply Hok) X1 (genesis_chain x X1)). specialize (Hs Hne). lia. }
  intros H1 H2. destruct (below_linear r1 r2 b (ad_chain _ _ _ H1) (ad_chain _ _ _ H2)); [by apply Hlt|symmetry; by apply Hlt].
Qed.

Lemma next_unique x c c' b : x ∈ acc -> b ∈ acc -> selects gd x c -> selects gd x c' -> below c b -> below c' b -> c = c'.
Proof.
  intros Hx Hb Hc Hc' Hcb Hcb'. assert (Hkn : forall z, selects gd x z -> below z b -> z ∈ acc).
  { intros z Hz Hzb. destruct (below_acc z b Hb Hzb) as [?| ->]; [done|]. by apply selects_virtual in Hz. }
  assert (Hno : forall z z', selects gd x z -> selects gd x z' -> z ∈ acc -> z' ∈ acc -> below z z' -> z = z').
  { intros z z' Hz Hz' Hza Hza' Hzz. apply rtc_inv_r in Hzz as [|(w & Hzw & Hw)]; [done|exfalso].
    rewrite (selects_inj w x z' Hw Hz') in Hzw. assert (Hzg : z <> g) by (intros ->; apply selects_genesis in Hz as ->; by apply (kb_virtual _ _ _ (hk_blocks _ _ _ _ _ _ Hok))).
    destruct (selects_parent x z Hza Hzg Hz) as (_ & _ & Hs). destruct (score_below z x Hza Hx Hzw). lia. }
  destruct (below_linear c c' b Hcb Hcb'); [apply Hno; auto|symmetry; apply Hno; auto].
Qed.

Lemma at_depth_next depth b r c : 0 <= depth -> b ∈ acc -> r ∈ acc -> below r b -> score r < score b - depth \/ r = g ->
  selects gd r c -> below c b -> score b - depth <= score c -> at_depth depth b r.
Proof.
  intros Hdep Hb Hr Hrb Hlow Hc Hcb Hs. constructor; [done..|]. intros x Hrx Hxb Hne.
  apply rtc_inv in Hrx as [|(c' & Hc' & Hcx)]; [congruence|].
  assert (Hc'b : below c' b) by (by etransitivity). rewrite (next_unique r c' c b) in Hcx by done.
  assert (Hkn : forall z, below z b -> z <> v -> z ∈ acc) by (intros z Hz Hzv; by destruct (below_acc z b Hb Hz)).
  assert (Hca : c ∈ acc) by (apply Hkn; [done|intros ->; by apply selects_virtual in Hc]).
  assert (Hxa : x ∈ acc).
  { apply Hkn; [done|]. intros ->. apply rtc_inv_r in Hcx as [->|(w & _ & Hw)]; [by apply selects_virtual in Hc|by apply selects_virtual in Hw]. }
  pose proof (score_below c x Hca Hxa Hcx). lia.
Qed.

(** The walk finds it from any block of the chain at or below it. *)
Lemma walk_up_ok depth b : 0 <= depth -> b ∈ acc -> forall n cur, cur ∈ acc -> below cur b -> cur <> b -> score cur < score b - depth \/ cur = g ->
  score b - score cur < Z.of_nat n -> exists r, walk_up gd st n (score b - depth) cur b false = Ok r /\ at_depth depth b r.
Proof.
  intros Hdep Hb. induction n as [|n IH]; intros cur Hcur Hbel Hne Hlow Hn.
  { destruct (score_below cur b Hcur Hb Hbel). lia. }
  cbn [walk_up]. destruct (child_known cur b Hcur Hb Hne Hbel) as (c & Hchild & Hsel & Hcb). rewrite Hchild. cbn [of_topology of_error bind_res].
  assert (Hca : c ∈ acc) by (destruct (below_acc c b Hb Hcb) as [?| ->]; [done|by apply selects_virtual in Hsel]).
  destruct (acc_data c Hca) as (d & _ & _ & Hd & Hsc & _). unfold ghostdag_Get. rewrite Hd. cbn [of_ghostdag of_error bind_res]. rewrite <- Hsc.
  destruct (Z.geb_spec (score c) (score b - depth)).
  - exists cur. split; [done|]. by apply (at_depth_next depth b cur c).
  - assert (Hcg : c <> g) by (intros ->; apply selects_genesis in Hsel as ->; by apply (kb_virtual _ _ _ (hk_blocks _ _ _ _ _ _ Hok))).
    destruct (selects_parent cur c Hca Hcg Hsel) as (_ & _ & Hs). apply IH; [done|done|intros ->; lia|by left|lia].
Qed.

Lemma score_genesis : score g = 0.
Proof.
  destruct (acc_data g) as (d & bs & n & _ & -> & Hd); [apply Hok|].
  inversion Hd as [d0 H1 H2 Hbd|? ? ? ? ? ? ? ? Hne]; subst; [by apply bd_score|done].
Qed.

Lemma above_known x r b : r ∈ acc -> b ∈ acc -> below r x -> below x b -> x ∈ acc.
Proof.
  intros Hr Hb Hrx Hxb. destruct (below_acc x b Hb Hxb) as [|Hx]; [done|]. rewrite Hx in Hrx.
  apply rtc_inv_r in Hrx as [Hrv|(w & _ & Hw)]; [congruence|by apply selects_virtual in Hw].
Qed.

Lemma at_depth_genesis depth b : b ∈ acc -> score b < depth -> at_depth depth b g.
Proof.
  intros Hb Hs. constructor; [apply Hok|by apply genesis_chain|by right|]. intros x Hgx Hxb _.
  assert (Hx : x ∈ acc) by (by apply (above_known x g b); [apply Hok|..]). pose proof (score_bounds x Hx). lia.
Qed.

Lemma virtual_unknown x : x ∈ acc -> hash_Equal (Some x) (Some v) = false.
Proof.
  intros Hx. unfold hash_Equal. apply bool_decide_false. intros [= ->]. by apply (kb_virtual _ _ _ (hk_blocks _ _ _ _ _ _ Hok)).
Qed.

(** From a point of the selected parent, at no less depth. *)
Lemma walk_from_parent depth depth' b p cur fuel : 0 < depth <= depth' -> b ∈ acc -> b <> g -> selects gd p b -> p ∈ acc -> at_depth depth' p cur ->
  zlen acc < Z.of_nat fuel -> exists r, walk_up gd st fuel (score b - depth) cur b false = Ok r /\ at_depth depth b r.
Proof.
  intros Hdep Hb Hbg Hsel Hp [H1 H2 H3 H4] Hf. destruct (selects_parent p b Hb Hbg Hsel) as (_ & _ & Hs).
  destruct (score_below cur p H1 Hp H2) as [Hle _]. pose proof (score_bounds cur H1). pose proof (score_bounds b Hb).
  apply walk_up_ok; [lia|done|done|by eapply rtc_r| | |lia].
  - intros ->. lia.
  - destruct H3 as [H3|H3]; [left; lia|by right].
Qed.

Lemma at_depth_first depth b : 0 <= depth -> b ∈ acc -> b <> g -> selects gd g b -> at_depth depth b g.
Proof. intros Hd Hb Hbg Hs. apply (at_depth_next depth b g b); [done|done|apply Hok|by apply genesis_chain|by right|done|constructor|lia]. Qed.

(** * The stores of points *)

Variables (finalityDepth mergeDepth : Z) (fuel : nat).
Context (Hdepths : 0 < mergeDepth <= finalityDepth) (Hfd : finalityDepth < 2 ^ 64) (Hfuel : zlen acc < Z.of_nat fuel) (Hsmall : zlen acc < 2 ^ 64).

Record stores_right (ds : depth_stores) : Prop := {
  sr_finality : forall b r, finality_points ds !! b = Some r -> b ∈ acc /\ at_depth finalityDepth b r;
  sr_roots : forall b r, merge_depth_roots ds !! b = Some r -> b ∈ acc /\ at_depth mergeDepth b r
}.

(** The selected parent of the block was checked before. *)
Definition parent_checked (ds : depth_stores) (b : bytes) : Prop :=
  forall p, selects gd p b -> p ∈ acc -> p <> g -> is_Some (finality_points ds !! p).

(** The common part of the two calculations. *)
Definition calculation (depth : Z) (current : bytes -> res DepthError bytes) (b : bytes) : res DepthError bytes :=
  let? ghostdagData := of_ghostdag (ghostdag_Get gd (Some b) false) in
  if BlueScore ghostdagData <? depth then Ok g else
  let? pruningPoint := PruningPoint (hs_pruningPoint s) in
  let? pruningPointGhostdagData := of_ghostdag (ghostdag_Get gd (Some pruningPoint) false) in
  if BlueScore ghostdagData <? uint64 (BlueScore pruningPointGhostdagData + depth) then Ok v else
  let? isPruningPointOnChain := of_topology (IsInSelectedParentChainOf gd st pruningPoint b false) in
  if negb isPruningPointOnChain then Ok v else
  if hash_Equal (SelectedParent ghostdagData) (Some g) then Ok g else
  match SelectedParent ghostdagData with
  | None => Panic
  | Some selectedParent =>
      let? current := current selectedParent in
      let current := if hash_Equal (Some current) (Some v) then pruningPoint else current in
      walk_up gd st fuel (uint64 (BlueScore ghostdagData - depth)) current b false
  end.

Lemma calculation_ok depth current b : 0 < depth < 2 ^ 64 -> b ∈ acc ->
  (forall p, selects gd p b -> p ∈ acc -> p <> g -> exists depth' cur, depth <= depth' /\ current p = Ok cur /\ at_depth depth' p cur) ->
  exists r, calculation depth current b = Ok r /\ at_depth depth b r.
Proof.
  intros Hdep Hb Hcur. destruct (acc_data b Hb) as (d & bs & n & Hd & Hsd & Hdok). unfold calculation, ghostdag_Get at 1. rewrite Hd.
  cbn [of_ghostdag of_error bind_res]. rewrite <- Hsd. pose proof (score_bounds b Hb) as Hsb.
  destruct (Z.ltb_spec (score b) depth) as [Hlow|Hlow]; [exists g; split; [done|by apply at_depth_genesis]|].
  assert (Hbg : b <> g) by (intros ->; rewrite score_genesis in Hlow; lia). unfold PruningPoint. rewrite (hk_pruning _ _ _ _ _ _ Hok). cbn [bind_res].
  destruct (acc_data g) as (dg & _ & _ & Hdg & Hsg & _); [apply Hok|]. unfold ghostdag_Get at 1. rewrite Hdg. cbn [of_ghostdag of_error bind_res].
  rewrite <- Hsg, score_genesis, Z.add_0_l, uint64_id, (proj2 (Z.ltb_ge _ _)) by lia.
  destruct (chain_known g b) as (r & Hq & Hr); [apply Hok|done|]. rewrite (proj2 Hr (genesis_chain b Hb)) in Hq. rewrite Hq. cbn [of_topology of_error bind_res negb].
  destruct (@data_ok_block (topology_of s) (all_headers hdr) gm par gd b d bs n Hdok Hbg) as (p & rest & dp & _ & _ & Hm & _).
  pose proof (mg_parent _ _ _ _ _ _ _ Hm) as Hp. rewrite Hp. assert (Hsel : selects gd p b) by (by exists d).
  destruct (selects_parent p b Hb Hbg Hsel) as (Hpa & _ & _). unfold hash_Equal at 1. destruct (decide (p = g)) as [->|Hpg].
  { rewrite bool_decide_true by done. exists g. split; [done|]. apply at_depth_first; [lia|done..]. }
  rewrite bool_decide_false by congruence. destruct (Hcur p Hsel Hpa Hpg) as (depth' & cur & Hle & -> & Had). cbn [bind_res].
  rewrite (virtual_unknown cur (ad_known _ _ _ Had)), uint64_id by lia. apply (walk_from_parent depth depth' b p cur fuel); [lia|done..].
Qed.

Abbreviation finality := (calculateFinalityPoint g finalityDepth gd st (hs_pruningPoint s) fuel).
Abbreviation root := (calculateMergeDepthRoot g mergeDepth gd st (hs_pruningPoint s) fuel).

Definition point_of (ds : depth_stores) (p : bytes) : res DepthError bytes :=
  match finality_points ds !! p with Some current => Ok current | None => Err FinalityPointNotFound end.

Definition root_of (ds : depth_stores) (p : bytes) : res DepthError bytes :=
  match merge_depth_roots ds !! p with Some current => Ok current | None => point_of ds p end.

Ltac same_steps := repeat match goal with
  | |- bind_res ?m _ = bind_res ?m _ => destruct m; cbn [bind_res]; [|reflexivity|reflexivity]
  | |- (if ?c then _ else _) = (if ?c then _ else _) => destruct c; [reflexivity|]
  end.

Lemma finality_calculation ds b : finality ds b false false = calculation finalityDepth (point_of ds) b.
Proof.
  unfold calculateFinalityPoint, calculation, point_of. same_steps. destruct (SelectedParent _); [|done]. by destruct (finality_points ds !! _).
Qed.

Lemma root_calculation ds b : root ds b false false = calculation mergeDepth (root_of ds) b.
Proof. unfold calculateMergeDepthRoot, calculation, root_of, point_of. same_steps. by destruct (SelectedParent _). Qed.

Lemma finality_ok ds b : stores_right ds -> b ∈ acc -> parent_checked ds b -> exists r, finality ds b false false = Ok r /\ at_depth finalityDepth b r.
Proof.
  intros Hds Hb Hp. rewrite finality_calculation. apply calculation_ok; [lia|done|].
  intros p Hsel Hpa Hpg. destruct (Hp p Hsel Hpa Hpg) as [cur Hcur]. unfold point_of. rewrite Hcur. exists finalityDepth, cur.
  split_and!; [lia|done|by apply (sr_finality _ Hds)].
Qed.

Lemma root_ok ds b : stores_right ds -> b ∈ acc -> parent_checked ds b -> exists r, root ds b false false = Ok r /\ at_depth mergeDepth b r.
Proof.
  intros Hds Hb Hp. rewrite root_calculation. apply calculation_ok; [lia|done|]. intros p Hsel Hpa Hpg. unfold root_of, point_of.
  destruct (merge_depth_roots ds !! p) as [cur|] eqn:Hr.
  - exists mergeDepth, cur. split_and!; [lia|done|by apply (sr_roots _ Hds)].
  - destruct (Hp p Hsel Hpa Hpg) as [cur Hcur]. rewrite Hcur. exists finalityDepth, cur. split_and!; [lia|done|by apply (sr_finality _ Hds)].
Qed.

Lemma not_virtual_block b : b ∈ acc -> hash_Equal (Some b) (Some VirtualBlockHash) = false.
Proof.
  intros Hb. unfold hash_Equal. apply bool_decide_false. intros [= ->]. by apply (kb_block _ _ _ (hk_blocks _ _ _ _ _ _ Hok)).
Qed.

Lemma MergeDepthRoot_ok ds b : stores_right ds -> b ∈ acc -> parent_checked ds b -> exists r ds',
  MergeDepthRoot g mergeDepth gd st (hs_pruningPoint s) fuel b false ds = (Ok r, ds') /\ at_depth mergeDepth b r /\ stores_right ds' /\
  finality_points ds' = finality_points ds /\ merge_depth_roots ds' !! b = Some r.
Proof.
  intros Hds Hb Hp. unfold MergeDepthRoot. rewrite not_virtual_block by done. destruct (merge_depth_roots ds !! b) as [r|] eqn:Hr.
  - exists r, ds. split_and!; [|by apply (sr_roots _ Hds)|done|done|done]. erewrite bind_ok by reflexivity. cbv beta. by rewrite Hr.
  - destruct (root_ok ds b Hds Hb Hp) as (r & Hcalc & Had). exists r, (mk_depth_stores (finality_points ds) (<[b := r]> (merge_depth_roots ds))).
    split_and!; [|done| |done|apply lookup_insert_eq].
    + erewrite bind_ok by reflexivity. cbv beta. rewrite Hr. unfold calculateAndStageMergeDepthRoot. erewrite bind_ok by reflexivity. cbv beta.
      erewrite bind_ok by (unfold lift; rewrite Hcalc; reflexivity). done.
    + constructor; cbn; [apply Hds|]. intros b' r' [[<- <-]|[_ Hl]]%lookup_insert_Some; [done|by apply (sr_roots _ Hds)].
Qed.

Lemma FinalityPoint_ok ds b : stores_right ds -> b ∈ acc -> parent_checked ds b -> exists r ds',
  FinalityPoint g finalityDepth gd st (hs_pruningPoint s) fuel b false ds = (Ok r, ds') /\ at_depth finalityDepth b r /\ stores_right ds' /\
  finality_points ds' !! b = Some r /\ merge_depth_roots ds' = merge_depth_roots ds /\
  (forall x, is_Some (finality_points ds !! x) -> is_Some (finality_points ds' !! x)).
Proof.
  intros Hds Hb Hp. unfold FinalityPoint. rewrite not_virtual_block by done. destruct (finality_points ds !! b) as [r|] eqn:Hr.
  - exists r, ds. split_and!; [|by apply (sr_finality _ Hds)|done|done|done|done]. erewrite bind_ok by reflexivity. cbv beta. by rewrite Hr.
  - destruct (finality_ok ds b Hds Hb Hp) as (r & Hcalc & Had). exists r, (mk_depth_stores (<[b := r]> (finality_points ds)) (merge_depth_roots ds)).
    split_and!; [|done| |apply lookup_insert_eq|done|].
    + erewrite bind_ok by reflexivity. cbv beta. rewrite Hr. unfold calculateAndStageFinalityPoint. erewrite bind_ok by reflexivity. cbv beta.
      erewrite bind_ok by (unfold lift; rewrite Hcalc; reflexivity). done.
    + constructor; cbn; [|apply Hds]. intros b' r' [[<- <-]|[_ Hl]]%lookup_insert_Some; [done|by apply (sr_finality _ Hds)].
    + intros x [y Hx]. cbn. destruct (decide (x = b)) as [->|Hne]; [rewrite lookup_insert_eq; eauto|rewrite lookup_insert_ne by done; eauto].
Qed.

(** * The check of the merge set *)

(** Every red block has the root in its past, or is in the past of a blue block
    that has the root on its selected chain. *)
Definition bounded (d : BlockGHOSTDAGData) (r : bytes) : Prop := forall red, red ∈ MergeSetReds d ->
  anc par r red \/ exists blue, blue ∈ MergeSetBlues d /\ below r blue /\ anc par red blue.

Lemma blues_above_ok r blues : r ∈ acc -> (forall x, x ∈ blues -> x ∈ acc) -> exists l,
  blues_above gd st r blues = Ok l /\ forall x, x ∈ l <-> x ∈ blues /\ below r x.
Proof.
  intros Hr. induction blues as [|x blues IH]; intros Hin; cbn [blues_above].
  { exists []. split; [done|]. intros x. rewrite elem_of_nil. tauto. }
  destruct (chain_known r x Hr (Hin x ltac:(left))) as (q & Hq & Hiff). rewrite Hq. cbn [of_topology of_error bind_res].
  destruct IH as (l & Hl & Hlx); [intros y Hy; apply Hin; by right|]. rewrite Hl. cbn [bind_res].
  eexists. split; [done|]. intros y. destruct q.
  - rewrite !elem_of_cons, Hlx. intuition congruence.
  - rewrite elem_of_cons, Hlx. split; [tauto|]. intros [[->|Hy] Hb]; [|done]. by apply Hiff in Hb.
Qed.

Lemma any_descendant x l : x ∈ acc -> (forall y, y ∈ l -> y ∈ acc) -> exists r, IsAncestorOfAny st x l = Ok r /\ (r = true <-> exists y, y ∈ l /\ anc par x y).
Proof.
  intros Hx. induction l as [|y l IH]; intros Hl; cbn [IsAncestorOfAny].
  { exists false. split; [done|]. split; [done|]. intros (y & Hy & _). by apply not_elem_of_nil in Hy. }
  destruct (headers_query gm rt hdr acc s t x y Hok Hx (Hl y ltac:(left))) as (q & Hq & Hiff). rewrite Hq. cbn [bind_res]. destruct q.
  - exists true. split; [done|]. split; [|done]. intros _. exists y. split; [left|by apply Hiff].
  - destruct IH as (r & Hr & Hrx); [intros z Hz; apply Hl; by right|]. exists r. split; [done|]. rewrite Hrx. split.
    + intros (z & Hz & Hxz). exists z. split; [by right|done].
    + intros (z & [->|Hz]%elem_of_cons & Hxz); [by apply Hiff in Hxz|eauto].
Qed.

Lemma check_reds_ok r blues reds : r ∈ acc -> (forall x, x ∈ blues -> x ∈ acc) -> (forall x, x ∈ reds -> x ∈ acc) ->
  let fine := forall red, red ∈ reds -> anc par r red \/ exists blue, blue ∈ blues /\ anc par red blue in
  (check_reds st r blues reds = Ok tt /\ fine) \/ (check_reds st r blues reds = Err ErrViolatingBoundedMergeDepth /\ ~ fine).
Proof.
  intros Hr Hb. cbv zeta. induction reds as [|x reds IH]; intros Hx; cbn [check_reds].
  { left. split; [done|]. intros x Hin. by apply not_elem_of_nil in Hin. }
  assert (Hrest : forall P : bytes -> Prop, P x -> (forall red, red ∈ x :: reds -> P red) <-> (forall red, red ∈ reds -> P red)).
  { intros P Px. split; [intros H red Hred; apply H; by right|]. intros H red [->|Hred]%elem_of_cons; [done|by apply H]. }
  specialize (IH ltac:(intros y Hy; apply Hx; by right)).
  destruct (headers_query gm rt hdr acc s t r x Hok Hr (Hx x ltac:(left))) as (q & -> & Hiff). cbn [of_topology of_error bind_res]. destruct q.
  { rewrite Hrest by (left; by apply Hiff). done. }
  destruct (any_descendant x blues (Hx x ltac:(left)) Hb) as (q & -> & Hany). cbn [of_topology of_error bind_res]. destruct q; cbn [negb].
  { rewrite Hrest by (right; by apply Hany). done. }
  right. split; [done|]. intros Hfine. destruct (Hfine x ltac:(left)) as [Ha|Ha]; [by apply Hiff in Ha|by apply Hany in Ha].
Qed.

Lemma merged_known b d p rest x : b ∈ acc -> b <> g -> merges gm par gd b d p rest -> x ∈ MergeSetBlues d ++ MergeSetReds d -> x ∈ acc.
Proof.
  intros Hb Hbg Hm. rewrite (mg_blues _ _ _ _ _ _ _ Hm). cbn [app]. pose proof (hk_blocks _ _ _ _ _ _ Hok) as Hk.
  intros [->|Hx]%elem_of_cons; [apply (kb_closed _ _ _ Hk b); [done|apply Hm]|]. apply (mg_set _ _ _ _ _ _ _ Hm) in Hx as [(q & Hq & Hxq) _].
  apply (past_known gm hdr acc x q Hk); [by apply (kb_closed _ _ _ Hk b)|done].
Qed.

Lemma CheckBoundedMergeDepth_ok ds b : stores_right ds -> b ∈ acc -> b <> g -> parent_checked ds b -> exists d r point result ds',
  gd !! (b, false) = Some d /\ at_depth mergeDepth b r /\ at_depth finalityDepth b point /\
  CheckBoundedMergeDepth g finalityDepth mergeDepth gd st (hs_pruningPoint s) fuel b false ds = (result, ds') /\
  (result = Ok tt /\ bounded d r \/ result = Err ErrViolatingBoundedMergeDepth /\ ~ bounded d r) /\
  stores_right ds' /\ merge_depth_roots ds' !! b = Some r /\ finality_points ds' !! b = Some point.
Proof.
  intros Hds Hb Hbg Hp. destruct (acc_data b Hb) as (d & bs & n & Hd & _ & Hdok).
  destruct (@data_ok_block (topology_of s) (all_headers hdr) gm par gd b d bs n Hdok Hbg) as (p & rest & dp & _ & _ & Hm & _).
  destruct (MergeDepthRoot_ok ds b Hds Hb Hp) as (r & ds1 & Hroot & Hr & Hds1 & Hf1 & Hr1).
  destruct (FinalityPoint_ok ds1 b Hds1 Hb) as (point & ds2 & Hfin & Hpt & Hds2 & Hf2 & Hr2 & _); [unfold parent_checked; by rewrite Hf1|].
  assert (Hin : forall x, x ∈ MergeSetBlues d ++ MergeSetReds d -> x ∈ acc) by (intros x; by apply (merged_known b d p rest x)).
  destruct (blues_above_ok r (MergeSetBlues d) (ad_known _ _ _ Hr)) as (l & Hl & Hlx); [intros x Hx; apply Hin, elem_of_app; by left|].
  exists d, r, point, (check_reds st r l (MergeSetReds d)), ds2. split_and!; [done|done|done| | |done|by rewrite Hr2|done].
  - unfold CheckBoundedMergeDepth. erewrite bind_ok by (unfold lift, ghostdag_Get; rewrite Hd; reflexivity). cbv beta.
    rewrite (mg_parent _ _ _ _ _ _ _ Hm). erewrite bind_ok by exact Hroot. cbv beta. erewrite bind_ok by exact Hfin. cbv beta.
    erewrite bind_ok; [reflexivity|]. unfold lift, NonBoundedMergeDepthViolatingBlues, ghostdag_Get. rewrite Hd. cbn [of_ghostdag of_error bind_res]. by rewrite Hl.
  - assert (Hiff : (forall red, red ∈ MergeSetReds d -> anc par r red \/ exists blue, blue ∈ l /\ anc par red blue) <-> bounded d r).
    { split; intros H red Hred; destruct (H red Hred) as [|(blue & Hbl)]; [by left| |by left|]; right; exists blue.
      - destruct Hbl as [[? ?]%Hlx ?]. done.
      - destruct Hbl as (? & ? & ?). split; [by apply Hlx|done]. }
    destruct (check_reds_ok r l (MergeSetReds d) (ad_known _ _ _ Hr)) as [[-> H]|[-> H]]; [|intros x Hx; apply Hin, elem_of_app; by right| |].
    + intros x [Hx _]%Hlx. apply Hin, elem_of_app. by left.
    + left. split; [done|]. by apply Hiff.
    + right. split; [done|]. by rewrite <- Hiff.
Qed.

End facts.

Lemma accepted_length bs : forall rs, zlen (accepted bs rs) <= zlen bs.
Proof.
  induction bs as [|b bs IH]; intros [|r rs]; cbn [accepted]; rewrite ?zlen_nil; [lia|lia|apply zlen_nonneg|].
  rewrite zlen_cons. specialize (IH rs). destruct r; rewrite ?zlen_app, ?zlen_cons, ?zlen_nil; lia.
Qed.

Lemma accepted_room rt fuel b bs rs : roomy_for rt fuel (3 + zlen bs) ->
  zlen (b :: accepted bs rs) < Z.of_nat fuel /\ zlen (b :: accepted bs rs) < 2 ^ 64.
Proof.
  intros [[F1 F2] F3 F4 F5]. pose proof (accepted_length bs rs). pose proof (zlen_nonneg bs). rewrite zlen_cons. split; [lia|nia].
Qed.

(** C7: The bounded merge depth rule, checked on the stores of a node that has
    processed any headers.  The merge depth root and the finality point of a
    block are the last blocks of its selected chain more than the merge depth,
    and the finality depth, below it in blue score, or the genesis; there is one
    such block.  The block passes exactly when every red block it merges has the
    root in its past or is in the past of a blue block of the merge set that has
    the root on its selected chain.  The points are stored, so that the blocks
    above it can be checked.  The pruning point is the genesis. *)
Theorem merge_depth_exact `{C : Crypto} `{FC : FloatConversion} `{HC : HeaderComponents} `{BC : BodyComponents} (vd : headerValidator) (gm : ghostdagManager)
    (rt : reachabilityManager) (now : Z) (fuel : nat) (hdr : bytes -> BlockHeader) (bs : list bytes) (finalityDepth mergeDepth : Z) :
  config_ok vd gm -> genesis_header vd gm now hdr -> genesis_body gm -> (forall b, b ∈ bs -> header_ok hdr b) ->
  roomy_for rt fuel (3 + zlen bs) -> 0 < mergeDepth <= finalityDepth -> finalityDepth < 2 ^ 64 ->
  exists s0 rs s', consensus_Init vd gm rt now fuel (hdr (gm_genesisHash gm)) false empty_headers = (Ok tt, s0) /\
    process_headers vd gm rt now fuel (map hdr bs) s0 = (rs, s') /\
    let acc := gm_genesisHash gm :: accepted bs rs in
    let right := stores_right gm acc s' finalityDepth mergeDepth in
    right (mk_depth_stores ∅ ∅) /\
    (forall depth b r1 r2, b ∈ acc -> at_depth gm acc s' depth b r1 -> at_depth gm acc s' depth b r2 -> r1 = r2) /\
    forall ds b, right ds -> b ∈ acc -> b <> gm_genesisHash gm -> parent_checked gm acc s' ds b -> exists d root point result ds',
      hs_ghostdag s' !! (b, false) = Some d /\ at_depth gm acc s' mergeDepth b root /\ at_depth gm acc s' finalityDepth b point /\
      CheckBoundedMergeDepth (gm_genesisHash gm) finalityDepth mergeDepth (hs_ghostdag s') (hs_reach s') (hs_pruningPoint s') fuel b false ds = (result, ds') /\
      (result = Ok tt /\ bounded hdr s' d root \/ result = Err ErrViolatingBoundedMergeDepth /\ ~ bounded hdr s' d root) /\
      right ds' /\ merge_depth_roots ds' !! b = Some root /\ finality_points ds' !! b = Some point.
Proof.
  intros Hcf Hgh Hgb Hbs Hr Hdep Hfd. pose proof (zlen_nonneg bs) as Hz.
  destruct (init_ok vd gm rt now fuel hdr Hcf Hgh Hgb) as (s0 & t0 & Hinit & Hok0); [eapply roomy_le; [|exact Hr]; lia|].
  destruct (process_run vd gm rt now fuel hdr Hcf bs _ s0 t0 Hok0 Hbs) as (rs & s' & t' & Hrun & Hlen & Hdec & Hok).
  { eapply roomy_le; [|exact Hr]. rewrite zlen_cons, zlen_nil. lia. }
  exists s0, rs, s'. split; [done|]. split; [done|]. cbv zeta. split; [|split].
  - constructor; intros b r; cbn; by rewrite lookup_empty.
  - intros depth b r1 r2. by apply (at_depth_unique gm rt hdr _ s' t' Hok).
  - destruct (accepted_room rt fuel (gm_genesisHash gm) bs rs Hr) as [H1 H2]. intros ds b.
    by apply (CheckBoundedMergeDepth_ok gm rt hdr _ s' t' Hok finalityDepth mergeDepth fuel).
Qed.

(** * Witness *)

#[local] Existing Instance run_crypto.
#[local] Existing Instance run_float.
#[local] Existing Instance run_components.
#[local] Existing Instance run_bodies.

(** The points of the blocks of the run, with depths 1 and 2: the merging block
    has blue score 3, so its root is the first block below 2 and its finality
    point the genesis. *)
Definition run_end : headers_state :=
  snd (process_headers run_validator run_manager Reachability.New 100 20 (map run_hdr submitted) run_start).

Definition check_all (s : headers_state) (blocks : list bytes) (ds : depth_stores) : list bool * depth_stores :=
  foldl (fun '(rs, ds) b =>
    let r := CheckBoundedMergeDepth (gm_genesisHash run_manager) 2 1 (hs_ghostdag s) (hs_reach s) (hs_pruningPoint s) 20 b false ds in
    (rs ++ [match fst r with Ok _ => true | _ => false end], snd r)) ([], ds) blocks.

Definition points_of (b : bytes) (r : list bool * depth_stores) : list bool * option bytes * option bytes :=
  (fst r, merge_depth_roots (snd r) !! b, finality_points (snd r) !! b).

Lemma merge_depth_exact_witness :
  points_of (HeaderHash h3) (check_all run_end [HeaderHash h1; HeaderHash h2; HeaderHash h3] (mk_depth_stores ∅ ∅)) =
    ([true; true; true], Some (HeaderHash h1), Some (HeaderHash h0)) /\
  exists s0 rs s', consensus_Init run_validator run_manager Reachability.New 100 20 (run_hdr (gm_genesisHash run_manager)) false empty_headers = (Ok tt, s0) /\
    process_headers run_validator run_manager Reachability.New 100 20 (map run_hdr submitted) s0 = (rs, s') /\
    let acc := gm_genesisHash run_manager :: accepted submitted rs in
    let right := stores_right run_manager acc s' 2 1 in
    right (mk_depth_stores ∅ ∅) /\
    (forall depth b r1 r2, b ∈ acc -> at_depth run_manager acc s' depth b r1 -> at_depth run_manager acc s' depth b r2 -> r1 = r2) /\
    forall ds b, right ds -> b ∈ acc -> b <> gm_genesisHash run_manager -> parent_checked run_manager acc s' ds b -> exists d root point result ds',
      hs_ghostdag s' !! (b, false) = Some d /\ at_depth run_manager acc s' 1 b root /\ at_depth run_manager acc s' 2 b point /\
      CheckBoundedMergeDepth (gm_genesisHash run_manager) 2 1 (hs_ghostdag s') (hs_reach s') (hs_pruningPoint s') 20 b false ds = (result, ds') /\
      (result = Ok tt /\ bounded run_hdr s' d root \/ result = Err ErrViolatingBoundedMergeDepth /\ ~ bounded run_hdr s' d root) /\
      right ds' /\ merge_depth_roots ds' !! b = Some root /\ finality_points ds' !! b = Some point.
Proof.
  split; [vm_compute; reflexivity|].
  apply (merge_depth_exact run_validator run_manager Reachability.New 100 20 run_hdr submitted 2 1 run_config run_genesis_header run_genesis_body submitted_ok run_enough);
    lia.
Defined.
